(* ===== verification/_CoqProject ===== *)
-Q . S2P
Prelude.v
Messages.v
ParentReady.v
EpochStakes.v
VotePools.v
Migration.v
StakeCounters.v
CertBuilder.v
Finalization.v
ConsensusPool.v
PoolVotes.v
PoolCerts.v
PoolSafety.v
PoolOps.v
PoolTheorems.v
PoolEvents.v
CertVerify.v
VerifyTheorems.v
BankForks.v
VoteHistory.v
VoteStorage.v
Voting.v
Timers.v
PoolService.v
ServiceTheorems.v
Evidence.v
Banlist.v
Rewards.v
RewardTheorems.v
VoteReward.v
BlockComponents.v
BlockTheorems.v
EventHandler.v
EventLogic.v
EventVotes.v
EventRoot.v
EventSteps.v
Node.v
ViewBytes.v
ViewFrames.v
ViewTheorems.v
ViewV1.v
ViewExact.v
ViewAccess.v
ViewSanitize.v
ViewResolved.v
AccountLocks.v
LockTheorems.v
SchedulerLocks.v
SchedulerTheorems.v
UnifiedScheduler.v
UnifiedQueues.v
UnifiedTheorems.v
UnifiedMachine.v
SigVerify.v
SigVerifyTheorems.v
System.v
Fork.v
