(* ===== verification/Prelude.v ===== *)
(** * BlackBullChain: a verification development

    The program is a validator of a Solana-style chain (a fork of Agave, in Rust under
    [src/src/node]).  The development models its Alpenglow consensus from the packets
    that arrive to the votes that leave, the rewards and block markers tied to it, and
    four parts of the transaction path: the zero-copy parser, the account locks of the
    bank, those of the banking stage's scheduler and the unified scheduler.  Paths below are relative to [src/src/node].

    ** How the parts work together

    Packets from other validators are checked by the signature verifier
    ([core/src/bls_sigverify]); what is valid goes to the consensus pool
    ([votor/src/consensus_pool.rs], run by [consensus_pool_service.rs]), which counts
    stake, builds certificates and reports events.  The event handler
    ([votor/src/event_handler.rs]) reacts to these events, to replayed blocks and to the
    timers ([votor/src/timer_manager]) by casting votes, setting timers and moving the
    root ([runtime/src/bank_forks.rs]).  A vote is recorded in the vote history
    ([votor/src/vote_history.rs]), which the voting service writes to disk
    ([vote_history_storage.rs]) before it broadcasts the vote.  Leaders put certificates
    into the footers of their blocks, which replay checks
    ([runtime/src/block_component_processor.rs]) and from which vote rewards are paid.

    ** Files

    Foundations:
    - [Prelude]: machine integers, panics, results, tactics, lemmas on lists and maps;
    - [Messages]: votes, certificates, fractions, leader windows, events
      ([votor-messages], [votor/src/common.rs], [votor/src/event.rs]);
    - [EpochStakes]: stakes and ranks of validators, weights of sets of them
      ([runtime/src/epoch_stakes.rs]);
    - [Migration]: the phases of the migration from TowerBFT and the threads that move
      them ([votor-messages/src/migration.rs]).

    The consensus pool:
    - [ParentReady], [VotePools], [StakeCounters], [CertBuilder], [Finalization]: the
      parts of the pool ([votor/src/consensus_pool/*],
      [runtime/src/validated_block_finalization.rs]);
    - [ConsensusPool]: its state and operations; [PoolVotes], [PoolCerts], [PoolSafety],
      [PoolOps]: its invariant, kept by every operation; [PoolTheorems], [PoolEvents]:
      runs of the pool and what they report;
    - [PoolService], [ServiceTheorems]: the loop of the thread that owns the pool;
    - [CertVerify], [VerifyTheorems]: verification of certificates
      ([bls-cert-verify/src/cert_verify.rs] and its callers);
    - [Evidence]: what an event proves about who has signed what.

    The voting node:
    - [BankForks], [VoteHistory], [VoteStorage], [Voting], [Timers]: the components the
      handler uses;
    - [EventHandler]: the handler as a state and error monad; [EventLogic]: a program
      logic for that monad; [EventVotes], [EventRoot], [EventSteps]: every function and
      the loop;
    - [Node]: the handler with the voting service, the disk, crashes and restarts;
    - [SigVerify], [SigVerifyTheorems], [Banlist]: the signature verifier and the peers
      it bans;
    - [System]: a network of such nodes and of validators that may do anything;
      [Fork]: an execution that shows a limit of what [System] proves.

    Blocks and rewards:
    - [BlockComponents], [BlockTheorems]: the markers of a block, made and replayed;
    - [Rewards], [RewardTheorems], [VoteReward]: reward certificates and their payment.

    Transactions:
    - [ViewBytes], [ViewFrames]: the readers and frames of [transaction-view/src];
      [ViewTheorems] (legacy and version 0), [ViewV1] (version 1), [ViewExact],
      [ViewAccess]: the frame is exact and the unchecked accessors are safe;
    - [ViewSanitize], [ViewResolved]: the sanitizing checks and resolved addresses;
    - [AccountLocks], [LockTheorems]: the locks of a bank's batches
      ([accounts-db/src/account_locks.rs], [runtime/src/transaction_batch.rs] and their
      callers in [accounts.rs] and [bank.rs]);
    - [SchedulerLocks], [SchedulerTheorems]: the scheduler's locks
      ([scheduling-utils/src/thread_aware_account_locks.rs]);
    - [UnifiedScheduler], [UnifiedQueues], [UnifiedTheorems], [UnifiedMachine]: the state
      machine of the unified scheduler ([unified-scheduler-logic/src/lib.rs]), one usage
      queue, all queues with the counts of the tasks, and runs of the machine.

    ** How code is modelled

    A function of the source is a definition of the same name where that is free, with a
    prefix of its component otherwise.  A [u64], a slot, a stake or a duration is a [Z]
    and every wrapping, saturating or checked operation is written out.  A struct is a
    [Record], an enum an [Inductive]; [HashMap] and [BTreeMap] are [gmap], and where the
    iteration order of a hash map can be seen it is a parameter or any permutation.  A
    method with [&mut self] returns the new state.  [None] is a panic (or, in the View
    files, undefined behaviour of an unchecked read); Rust's [Result] is [result].
    Hashes and public keys are numbers in the consensus files, byte strings in the View
    files and values of any countable type in the lock files.  Threads that share a lock
    interleave at the points where the lock is free, and around every access to an
    atomic: the steps of [Migration], [Node], [Banlist], [LockTheorems] and [System].

    Code that is not part of the repository (BLS and ed25519 signatures, bincode, the
    encoding of bitmaps, vote state serialization, [AccountKeys]) is a class of
    operations ([BlsOps], [BlsVerify], [VotingOps], [StorageOps], [VoteStateOps], ...)
    with a class of laws that state its documented behaviour, signatures in the ideal
    form that what verifies was signed; concrete instances in the examples show that the
    laws can hold.

    ** What is proved

    - Agreement: in a network in which validators that do not follow the code hold less
      than 20% of the stake, a finalized slot is decided once ([System]); a node never
      casts conflicting votes, across crashes too ([Node]); certificates need quorums
      and quorums exclude each other ([PoolTheorems], [VerifyTheorems]).
    - Soundness at the border: the verifier hands on only what was signed and everything
      that is valid ([SigVerifyTheorems]); a block that replay accepts has its markers
      in order ([BlockTheorems]); only voters are rewarded ([RewardTheorems]).
    - Progress and absence of panics: the handler casts every vote an event demands
      ([Node]), the timers fire on schedule ([Timers]), the pool, the service and the
      handler do not panic ([PoolTheorems], [ServiceTheorems], [Node]); that the tracker
      of ready parents has room for all certified blocks of a slot follows from a bound
      on the faulty stake ([PoolTheorems.fault_bound]).
    - Refinement: the parent-ready tracker, the vote history, the ban list and the
      reward certificates against declarative definitions of what they promise.
    - Round trips: built certificates verify, a stored history is loaded back whatever
      write a crash of the process interrupts (what a loss of power leaves of the files,
      which the code does not sync, is weaker), a serialized transaction is read back
      through the frame.
    - Transactions: parsing and sanitizing accept exactly the well-formed transactions
      and never read outside of the bytes; locks are exactly those of the transactions
      that hold them, so batches, and jobs of different threads, do not conflict; the
      unified scheduler runs no conflicting tasks together, keeps the order of arrival
      where it must, and does not get stuck, with priorities neither.
    - Behaviour that differs from what the comments intend:
      [PoolEvents.genesis_votes_ignore_block], [Node.missing_parent_ready_no_vote],
      [SigVerifyTheorems.cancelling_signatures_accepted], in general and with a concrete
      execution each, and the execution of [Fork.fallback_ignores_parent].

    ** Bounds and fuel

    Loops are structural on the data they walk.  Six loops go on until a condition is
    met and take fuel: the search over consecutive slots in [ParentReady] (one round
    more than the tracker has slots), the firing of timers ([progress_fuel], the steps
    the timers have left), the iterators of a parsed transaction (one round more than
    their count), the iterator of a thread set (64, its bits) and, in [UnifiedScheduler],
    the granting of an address (the tasks blocked on it) and the clearing of the machine
    (its active tasks).  The theorems show
    that this is enough: out of fuel is [None], or a shorter list, and is excluded.
    Sums of stakes are exact under the bound that the total stake is below 2^64, which
    [EpochStakes] states; counts of locks under the bound that fewer than 2^64 (bank)
    and 2^32 (scheduler) locks are held; the counters of the unified scheduler under
    the bound of 2^31 tasks between two restarts.

    ** Not modelled

    The execution of transactions (SVM, syscalls, programs, fees), the accounts database
    and snapshots, the ledger and shreds, proof of history, gossip, repair, turbine and
    the transports, the replay stage with TowerBFT's fork choice, the threads
    of the banking stage and of the scheduler pool, RPC, tools, metrics, tests and the
    web site.  They are input and output, wrap external libraries (RocksDB, the sBPF
    virtual machine, QUIC), or reach the modelled parts only through values that are
    arguments here: the banks and blocks of replay, the stakes of an epoch, the bytes of
    a packet and its sender.  The runs of the pool and of its service start after the
    migration.  Of the modelled parts the following is left out:
    statistics, logging and the spawning of threads; clocks are arguments; the thread
    pool of the verifier runs its tasks in sequence; the leader schedule and the rest of
    the bank are parameters. *)

From stdpp Require Export prelude gmap sorting.
From Stdlib Require Export ZArith Lia.

#[global] Open Scope Z_scope.

(** ** Machine integers

    A [u64] (slot, stake, counter) is a [Z]; the operations below are the ones
    of Rust's [u64]/[u32], with the behaviour at the ends of the range written
    out. *)

Definition u64_max : Z := 2 ^ 64 - 1.
Definition u32_max : Z := 2 ^ 32 - 1.

Definition is_u64 (x : Z) : Prop := 0 <= x <= u64_max.
#[global] Instance is_u64_dec x : Decision (is_u64 x).
Proof. unfold is_u64. apply _. Defined.

(** [u64::saturating_add], [u64::saturating_sub] and [u32::saturating_add]. *)
Definition sat_add (a b : Z) : Z := Z.min (a + b) u64_max.
Definition sat_sub (a b : Z) : Z := Z.max (a - b) 0.
Definition sat_add32 (a b : Z) : Z := Z.min (a + b) u32_max.

(** [u64::checked_add], [u64::checked_sub] and the wrapping [+] of a build without
    overflow checks. *)
Definition checked_add (a b : Z) : option Z :=
  if bool_decide (a + b <= u64_max) then Some (a + b) else None.
Definition checked_sub (a b : Z) : option Z :=
  if bool_decide (b <= a) then Some (a - b) else None.
Definition wrapping_add (a b : Z) : Z := (a + b) mod 2 ^ 64.
Definition wrapping_sub (a b : Z) : Z := (a - b) mod 2 ^ 64.

(** [Iterator::sum::<u64>()]. *)
Definition wrapping_sum (l : list Z) : Z := foldl wrapping_add 0 l.

(** The exact sum, the reference against which the machine sums are compared. *)
Definition sumZ (l : list Z) : Z := foldr Z.add 0 l.

Declare Scope rust_scope.
Delimit Scope rust_scope with rust.
Notation "a +s b" := (sat_add a b) (at level 50, left associativity) : rust_scope.
Notation "a -s b" := (sat_sub a b) (at level 50, left associativity) : rust_scope.
#[global] Open Scope rust_scope.

(** ** Panics

    A computation that may panic is an [option]: [None] is the panic (a failed
    [assert!], an [unwrap] of [None], an [expect]).  Rust's [Result] is
    [result]; a method that mutates [self] and returns a [Result] returns the
    mutated state beside the [result], so that the effects before an early
    [return Err(..)] are kept. *)

Definition rust_assert (b : bool) : option unit := if b then Some tt else None.

Inductive result (E A : Type) : Type :=
  | Ok (a : A)
  | Err (e : E).
Arguments Ok {E A} a.
Arguments Err {E A} e.

Definition is_ok {E A} (r : result E A) : bool :=
  match r with Ok _ => true | Err _ => false end.

(** ** Ordered iteration

    [BTreeMap] and [BTreeSet] are finite maps and sets whose iterators visit the
    keys in increasing order.  The map itself is a [gmap]; the iterator is the
    sorted list of its entries.  [Leq] is the order of the key type. *)

Class Leq (K : Type) := leq : K -> K -> Prop.
#[global] Instance Z_leq : Leq Z := Z.le.
#[global] Instance prod_leq {A B} `{Leq A, Leq B} : Leq (A * B) :=
  fun p q => leq p.1 q.1 /\ (~ leq q.1 p.1 \/ leq p.2 q.2).

Class LeqDecision (K : Type) `{Leq K} := leq_dec : forall x y : K, Decision (leq x y).
#[global] Instance leq_decision {K} `{LeqDecision K} (x y : K) : Decision (leq x y) := leq_dec x y.
#[global] Instance Z_leq_dec : LeqDecision Z := Z_le_dec.
#[global] Instance prod_leq_dec {A B} `{LeqDecision A, LeqDecision B} : LeqDecision (A * B).
Proof. intros x y. unfold leq, prod_leq. apply _. Defined.

Class LeqTotal (K : Type) `{Leq K} := {
  leq_total : Total (leq : relation K);
  leq_trans : Transitive (leq : relation K);
  leq_antisym : forall x y : K, leq x y -> leq y x -> x = y;
}.
#[global] Instance Z_leq_total : LeqTotal Z.
Proof. split; [intros ??|intros ???|intros ??]; unfold leq, Z_leq; lia. Qed.
#[global] Instance prod_leq_total {A B} `{LeqDecision A, !LeqTotal A, LeqDecision B, !LeqTotal B} :
  LeqTotal (A * B).
Proof.
  split.
  - intros [a1 b1] [a2 b2]. unfold leq, prod_leq; simpl.
    destruct (leq_total a1 a2), (leq_total b1 b2), (decide (leq a1 a2)), (decide (leq a2 a1));
      naive_solver.
  - intros [a1 b1] [a2 b2] [a3 b3]. unfold leq, prod_leq; simpl. intros [Ha1 Ha2] [Ha3 Ha4].
    split; [by eapply leq_trans|].
    destruct (decide (leq a3 a1)) as [Ha|]; [right|by left].
    assert (leq a2 a1) by (by eapply leq_trans).
    assert (leq a3 a2) by (by eapply leq_trans).
    eapply leq_trans; naive_solver.
  - intros [a1 b1] [a2 b2]. unfold leq, prod_leq; simpl. intros [Ha1 Ha2] [Ha3 Ha4].
    assert (a1 = a2) as -> by (by apply leq_antisym). f_equal. apply leq_antisym; naive_solver.
Qed.

Definition entry_leq {K A} `{Leq K} (p q : K * A) : Prop := leq p.1 q.1.
#[global] Instance entry_leq_dec {K A} `{LeqDecision K} (p q : K * A) : Decision (entry_leq p q).
Proof. unfold entry_leq. apply _. Defined.

Section btree.
Context {K : Type} `{Countable K} `{LeqDecision K}.

Definition btree_iter {A} (m : gmap K A) : list (K * A) :=
  merge_sort entry_leq (map_to_list m).
Definition btree_set_iter (s : gset K) : list K := merge_sort leq (elements s).
End btree.

(** [Iterator::min] and [Iterator::max] on a key type with an order. *)
Definition iter_min {K} `{LeqDecision K} (l : list K) : option K :=
  foldl (fun acc x => match acc with
                      | None => Some x
                      | Some y => Some (if decide (leq y x) then y else x)
                      end) None l.
Definition iter_max {K} `{LeqDecision K} (l : list K) : option K :=
  foldl (fun acc x => match acc with
                      | None => Some x
                      | Some y => Some (if decide (leq y x) then x else y)
                      end) None l.

(** [Iterator::find_map]. *)
Fixpoint find_map {A B} (f : A -> option B) (l : list A) : option B :=
  match l with
  | [] => None
  | x :: l => match f x with Some y => Some y | None => find_map f l end
  end.

(** ** Automation *)

Create HintDb votor.

Ltac inv_some :=
  repeat match goal with
  | H : Some _ = Some _ |- _ => injection H as H; try subst
  | H : None = Some _ |- _ => discriminate H
  | H : Some _ = None |- _ => discriminate H
  | H : Ok _ = Ok _ |- _ => injection H as H; try subst
  | H : Err _ = Err _ |- _ => injection H as H; try subst
  | H : Ok _ = Err _ |- _ => discriminate H
  | H : Err _ = Ok _ |- _ => discriminate H
  | H : (_, _) = (_, _) |- _ => injection H as H; try subst
  end.

(** Peel the binds of a computation that returned [Some]. *)
Ltac inv_bind :=
  repeat match goal with
  | H : mbind _ _ = Some _ |- _ => apply bind_Some in H as (? & ? & ?)
  | H : rust_assert _ = Some _ |- _ => unfold rust_assert in H
  | H : (if ?b then _ else _) = Some _ |- _ => destruct b eqn:?; [|discriminate]
  | |- _ => progress inv_some
  end.

(** Turn boolean tests into propositions. *)
Ltac to_prop :=
  repeat match goal with
  | H : bool_decide _ = true |- _ => apply bool_decide_eq_true in H
  | H : bool_decide _ = false |- _ => apply bool_decide_eq_false in H
  | H : negb _ = true |- _ => apply negb_true_iff in H
  | H : negb _ = false |- _ => apply negb_false_iff in H
  | H : (_ && _)%bool = true |- _ => apply andb_true_iff in H as [? ?]
  | H : (_ || _)%bool = false |- _ => apply orb_false_iff in H as [? ?]
  | H : (_ =? _) = true |- _ => apply Z.eqb_eq in H
  | H : (_ =? _) = false |- _ => apply Z.eqb_neq in H
  | H : (_ <=? _) = true |- _ => apply Z.leb_le in H
  | H : (_ <=? _) = false |- _ => apply Z.leb_gt in H
  | H : (_ <? _) = true |- _ => apply Z.ltb_lt in H
  | H : (_ <? _) = false |- _ => apply Z.ltb_ge in H
  end.

(** ** Shared lemmas: machine sums *)

Lemma sat_add_exact a b : a + b <= u64_max -> (a +s b) = a + b.
Proof. unfold sat_add. lia. Qed.
Lemma checked_add_exact a b : a + b <= u64_max -> checked_add a b = Some (a + b).
Proof. intros H. unfold checked_add. by rewrite bool_decide_true. Qed.
Lemma sat_sub_exact a b : b <= a -> (a -s b) = a - b.
Proof. unfold sat_sub. lia. Qed.
Lemma sat_add_nonneg a b : 0 <= a -> 0 <= b -> 0 <= (a +s b).
Proof. unfold sat_add, u64_max. lia. Qed.
Lemma sat_add_le a b : (a +s b) <= u64_max.
Proof. unfold sat_add. lia. Qed.
Lemma wrapping_add_exact a b : 0 <= a + b <= u64_max -> wrapping_add a b = a + b.
Proof. unfold wrapping_add, u64_max. intros. apply Z.mod_small. lia. Qed.

Lemma sumZ_app l k : sumZ (l ++ k) = sumZ l + sumZ k.
Proof. unfold sumZ. induction l; simpl; lia. Qed.
Lemma sumZ_nonneg l : Forall (Z.le 0) l -> 0 <= sumZ l.
Proof. unfold sumZ. induction 1; simpl; lia. Qed.
#[global] Instance sumZ_perm : Proper (Permutation ==> eq) sumZ.
Proof. unfold sumZ. induction 1; simpl; lia. Qed.
Lemma sumZ_fmap_le {A} (f g : A -> Z) l :
  (forall x, x ∈ l -> f x <= g x) -> sumZ (f <$> l) <= sumZ (g <$> l).
Proof.
  induction l as [|x l IH]; intros Hle; csimpl; [lia|].
  pose proof (Hle x ltac:(set_solver)). specialize (IH ltac:(set_solver)). unfold sumZ in *. lia.
Qed.
Lemma sumZ_fmap_add {A} (f g : A -> Z) l :
  sumZ ((fun x => f x + g x) <$> l) = sumZ (f <$> l) + sumZ (g <$> l).
Proof. unfold sumZ. induction l; csimpl; lia. Qed.
Lemma sumZ_elem_le l x : Forall (Z.le 0) l -> x ∈ l -> x <= sumZ l.
Proof.
  intros Hl (l1 & l2 & ->)%list_elem_of_split. rewrite sumZ_app. simpl.
  apply Forall_app in Hl as [H1 [? H2]%Forall_cons].
  apply sumZ_nonneg in H1, H2. unfold sumZ in *. lia.
Qed.

(** The wrapping sum is exact when the exact sum fits. *)
Lemma wrapping_sum_acc l acc :
  0 <= acc -> Forall (Z.le 0) l -> acc + sumZ l <= u64_max ->
  foldl wrapping_add acc l = acc + sumZ l.
Proof.
  revert acc. induction l as [|x l IH]; intros acc Ha [Hx Hl]%Forall_cons Hs || intros acc Ha Hl Hs;
    simpl in *; [lia|].
  pose proof (sumZ_nonneg _ Hl). unfold sumZ in *. simpl in *.
  rewrite wrapping_add_exact by lia. rewrite IH; [lia|lia|done|lia].
Qed.
Lemma wrapping_sum_exact l :
  Forall (Z.le 0) l -> sumZ l <= u64_max -> wrapping_sum l = sumZ l.
Proof. intros. unfold wrapping_sum. rewrite wrapping_sum_acc; auto; lia. Qed.

Lemma omap_length_le {A B} (f : A -> option B) l : (length (omap f l) <= length l)%nat.
Proof. induction l as [|x l IH]; csimpl; [lia|]. destruct (f x); csimpl; lia. Qed.

(** ** Shared lemmas: ordered iteration *)

Section btree_lemmas.
Context {K : Type} `{Countable K} `{LeqDecision K}.

Lemma btree_iter_perm {A} (m : gmap K A) : btree_iter m ≡ₚ map_to_list m.
Proof. apply merge_sort_Permutation. Qed.
Lemma elem_of_btree_iter {A} (m : gmap K A) k x : (k, x) ∈ btree_iter m <-> m !! k = Some x.
Proof. rewrite btree_iter_perm. apply elem_of_map_to_list. Qed.
Lemma btree_iter_NoDup_keys {A} (m : gmap K A) : NoDup (btree_iter m).*1.
Proof. rewrite btree_iter_perm. apply NoDup_fst_map_to_list. Qed.
Lemma elem_of_btree_set_iter (s : gset K) k : k ∈ btree_set_iter s <-> k ∈ s.
Proof. unfold btree_set_iter. rewrite merge_sort_Permutation. apply elem_of_elements. Qed.

Context `{!LeqTotal K}.

(** The iterator visits the keys in increasing order. *)
Lemma btree_iter_sorted {A} (m : gmap K A) : StronglySorted entry_leq (btree_iter m).
Proof.
  apply StronglySorted_merge_sort.
  - intros [] [] []. unfold entry_leq; simpl. apply leq_trans.
  - intros [] []. apply leq_total.
Qed.

Lemma iter_min_acc (l : list K) acc :
  exists y, foldl (fun a x => match a with
                    | None => Some x
                    | Some y => Some (if decide (leq y x) then y else x)
                    end) (Some acc) l = Some y /\ (y = acc \/ y ∈ l) /\
            leq y acc /\ forall x, x ∈ l -> leq y x.
Proof.
  revert acc. induction l as [|x l IH]; intros acc; simpl.
  { exists acc. split_and!; [done|by left| |set_solver]. destruct (leq_total acc acc); done. }
  destruct (IH (if decide (leq acc x) then acc else x)) as (y & -> & Hin & Hle & Hall).
  exists y. split_and!; [done| | |].
  - case_decide; set_solver.
  - case_decide; [done|]. eapply leq_trans; [done|]. destruct (leq_total acc x); done.
  - intros z [->|Hz]%elem_of_cons; [|auto]. case_decide; [by eapply leq_trans|done].
Qed.
Lemma iter_min_Some (l : list K) y :
  iter_min l = Some y -> y ∈ l /\ forall x, x ∈ l -> leq y x.
Proof.
  unfold iter_min. destruct l as [|x l]; simpl; [done|].
  destruct (iter_min_acc l x) as (y' & -> & Hin & Hle & Hall). intros [= <-].
  split; [set_solver|]. intros z [->|Hz]%elem_of_cons; auto.
Qed.
Lemma iter_min_None (l : list K) : iter_min l = None <-> l = [].
Proof.
  unfold iter_min. destruct l as [|x l]; simpl; [done|].
  destruct (iter_min_acc l x) as (y' & -> & _). done.
Qed.

Lemma iter_max_acc (l : list K) acc :
  exists y, foldl (fun a x => match a with
                    | None => Some x
                    | Some y => Some (if decide (leq y x) then x else y)
                    end) (Some acc) l = Some y /\ (y = acc \/ y ∈ l) /\
            leq acc y /\ forall x, x ∈ l -> leq x y.
Proof.
  revert acc. induction l as [|x l IH]; intros acc; simpl.
  { exists acc. split_and!; [done|by left| |set_solver]. destruct (leq_total acc acc); done. }
  destruct (IH (if decide (leq acc x) then x else acc)) as (y & -> & Hin & Hle & Hall).
  exists y. split_and!; [done| | |].
  - case_decide; set_solver.
  - case_decide; [|done]. by eapply leq_trans.
  - intros z [->|Hz]%elem_of_cons; [|auto]. case_decide; [done|].
    eapply leq_trans; [|done]. destruct (leq_total acc x); done.
Qed.
Lemma iter_max_Some (l : list K) y :
  iter_max l = Some y -> y ∈ l /\ forall x, x ∈ l -> leq x y.
Proof.
  unfold iter_max. destruct l as [|x l]; simpl; [done|].
  destruct (iter_max_acc l x) as (y' & -> & Hin & Hle & Hall). intros [= <-].
  split; [set_solver|]. intros z [->|Hz]%elem_of_cons; auto.
Qed.
Lemma iter_max_None (l : list K) : iter_max l = None <-> l = [].
Proof.
  unfold iter_max. destruct l as [|x l]; simpl; [done|].
  destruct (iter_max_acc l x) as (y' & -> & _). done.
Qed.
End btree_lemmas.

#[export] Hint Resolve sat_add_nonneg sat_add_le sumZ_nonneg : votor.

(** ** Double sums *)

Lemma sumZ_fmap_ext {A} (f g : A -> Z) l : (forall x, x ∈ l -> f x = g x) -> sumZ (f <$> l) = sumZ (g <$> l).
Proof.
  induction l as [|x l IH]; intros Hfg; [done|]. csimpl. rewrite Hfg by (by left).
  unfold sumZ in *. simpl. rewrite IH; [done|]. intros y Hy. apply Hfg. by right.
Qed.
Lemma sumZ_swap {A B} (f : A -> B -> Z) (l : list A) (k : list B) :
  sumZ ((fun a => sumZ (f a <$> k)) <$> l) = sumZ ((fun b => sumZ ((fun a => f a b) <$> l)) <$> k).
Proof.
  induction l as [|a l IH]; csimpl.
  - induction k as [|b k IHk]; csimpl; [done|]. rewrite <-IHk. done.
  - rewrite IH. rewrite <-sumZ_fmap_add. done.
Qed.
Lemma sumZ_indicator {A} (P : A -> Prop) `{forall x, Decision (P x)} (c : Z) l :
  sumZ ((fun x => if decide (P x) then c else 0) <$> l) = c * Z.of_nat (length (filter P l)).
Proof.
  induction l as [|x l IH]; csimpl; [lia|]. rewrite filter_cons. rewrite IH. case_decide; simpl; lia.
Qed.

Lemma filter_ext_in {A} (P Q : A -> Prop) `{!forall x, Decision (P x), !forall x, Decision (Q x)} (l : list A) :
  (forall x, x ∈ l -> P x <-> Q x) -> filter P l = filter Q l.
Proof.
  induction l as [|x l IH]; intros Hl; [done|]. rewrite !filter_cons, IH by (intros y Hy; apply Hl; by right).
  assert (P x <-> Q x) as Hx by (apply Hl; left). repeat case_decide; tauto || done.
Qed.
