(* ===== verification/Messages.v ===== *)
(** * Consensus messages

    Votes, certificates, stake fractions and leader windows: the data types of
    [votor-messages/src/{vote,consensus_message,fraction}.rs], the tables of
    [votor/src/common.rs], the window arithmetic of
    [runtime/src/leader_schedule_utils.rs] and the events of
    [votor/src/event.rs]. *)

From Stdlib Require Import QArith.
From S2P Require Import Prelude.

Local Open Scope Z_scope.

(** [Hash] and [Pubkey] are 32-byte arrays; they are represented by the number
    whose big-endian digits they are, so that the derived lexicographic [Ord] is
    the order of [Z] and [Hash::default()] is 0.  A BLS signature is an element
    of the signature group, likewise only a number here. *)
Abbreviation Slot := Z (only parsing).
Abbreviation Hash := Z (only parsing).
Abbreviation Pubkey := Z (only parsing).
Abbreviation Stake := Z (only parsing).
Abbreviation BLSSignature := Z (only parsing).
Abbreviation Block := (Z * Z)%type (only parsing).

(** ** Votes *)

Inductive Vote :=
  | Notarize (slot : Slot) (block_id : Hash)
  | Finalize (slot : Slot)
  | Skip (slot : Slot)
  | NotarizeFallback (slot : Slot) (block_id : Hash)
  | SkipFallback (slot : Slot)
  | Genesis (slot : Slot) (block_id : Hash).

Inductive VoteType :=
  | TFinalize
  | TNotarize
  | TNotarizeFallback
  | TSkip
  | TSkipFallback
  | TGenesis.

#[global] Instance Vote_eq_dec : EqDecision Vote.
Proof. solve_decision. Defined.
#[global] Instance VoteType_eq_dec : EqDecision VoteType.
Proof. solve_decision. Defined.

(** The discriminants, in declaration order: the derived [Ord] of [VoteType]. *)
Definition vote_type_index (t : VoteType) : Z :=
  match t with
  | TFinalize => 0 | TNotarize => 1 | TNotarizeFallback => 2
  | TSkip => 3 | TSkipFallback => 4 | TGenesis => 5
  end.
Definition vote_type_of_index (i : Z) : option VoteType :=
  match i with
  | 0 => Some TFinalize | 1 => Some TNotarize | 2 => Some TNotarizeFallback
  | 3 => Some TSkip | 4 => Some TSkipFallback | 5 => Some TGenesis | _ => None
  end.
#[global] Instance VoteType_countable : Countable VoteType.
Proof. apply (inj_countable vote_type_index vote_type_of_index). by intros []. Defined.
#[global] Instance VoteType_leq : Leq VoteType :=
  fun a b => vote_type_index a <= vote_type_index b.
#[global] Instance VoteType_leq_dec : LeqDecision VoteType.
Proof. intros a b. unfold leq, VoteType_leq. apply _. Defined.

Definition vote_slot (v : Vote) : Slot :=
  match v with
  | Notarize s _ | Finalize s | Skip s | NotarizeFallback s _ | SkipFallback s | Genesis s _ => s
  end.

Definition vote_block_id (v : Vote) : option Hash :=
  match v with
  | Notarize _ b | NotarizeFallback _ b | Genesis _ b => Some b
  | Finalize _ | Skip _ | SkipFallback _ => None
  end.

Definition get_type (v : Vote) : VoteType :=
  match v with
  | Notarize _ _ => TNotarize
  | NotarizeFallback _ _ => TNotarizeFallback
  | Skip _ => TSkip
  | SkipFallback _ => TSkipFallback
  | Finalize _ => TFinalize
  | Genesis _ _ => TGenesis
  end.

Record VoteMessage := mkVoteMessage {
  vm_vote : Vote;
  vm_signature : BLSSignature;
  vm_rank : Z;
}.

(** ** Stake fractions

    [Fraction] with a [NonZeroU64] denominator.  The comparison cross-multiplies
    in [u128]; [checked_mul] makes an overflow a panic. *)

Record Fraction := mkFraction { numerator : Z; denominator : Z }.

Definition u128_max : Z := 2 ^ 128 - 1.
Definition checked_mul_u128 (a b : Z) : option Z :=
  if bool_decide (a * b <= u128_max) then Some (a * b) else None.

Definition fraction_new (n d : Z) : Fraction := mkFraction n d.
Definition from_percentage (pct : Z) : Fraction := mkFraction pct 100.

Definition fraction_cmp (x y : Fraction) : option comparison :=
  lhs ← checked_mul_u128 (numerator x) (denominator y);
  rhs ← checked_mul_u128 (numerator y) (denominator x);
  Some (Z.compare lhs rhs).

(** [x >= y] and [x < y], by [PartialOrd]. *)
Definition fraction_ge (x y : Fraction) : option bool :=
  c ← fraction_cmp x y; Some (match c with Lt => false | _ => true end).
Definition fraction_lt (x y : Fraction) : option bool :=
  c ← fraction_cmp x y; Some (match c with Lt => true | _ => false end).

(** [NonZeroU64::new(n).unwrap()]: a panic on zero. *)
Definition nonzero_unwrap (n : Z) : option Z := if bool_decide (n = 0) then None else Some n.

(** ** Certificates *)

Inductive CertificateType :=
  | CFinalize (slot : Slot)
  | CFinalizeFast (slot : Slot) (block_id : Hash)
  | CNotarize (slot : Slot) (block_id : Hash)
  | CNotarizeFallback (slot : Slot) (block_id : Hash)
  | CSkip (slot : Slot)
  | CGenesis (slot : Slot) (block_id : Hash).

#[global] Instance CertificateType_eq_dec : EqDecision CertificateType.
Proof. solve_decision. Defined.

(** The derived [Ord]: variant index, then slot, then block id. *)
Definition cert_type_key (c : CertificateType) : Z * (Z * Z) :=
  match c with
  | CFinalize s => (0, (s, 0))
  | CFinalizeFast s b => (1, (s, b))
  | CNotarize s b => (2, (s, b))
  | CNotarizeFallback s b => (3, (s, b))
  | CSkip s => (4, (s, 0))
  | CGenesis s b => (5, (s, b))
  end.
Definition cert_type_of_key (k : Z * (Z * Z)) : option CertificateType :=
  match k with
  | (0, (s, _)) => Some (CFinalize s)
  | (1, (s, b)) => Some (CFinalizeFast s b)
  | (2, (s, b)) => Some (CNotarize s b)
  | (3, (s, b)) => Some (CNotarizeFallback s b)
  | (4, (s, _)) => Some (CSkip s)
  | (5, (s, b)) => Some (CGenesis s b)
  | _ => None
  end.
#[global] Instance CertificateType_countable : Countable CertificateType.
Proof. apply (inj_countable cert_type_key cert_type_of_key). by intros []. Defined.
#[global] Instance CertificateType_leq : Leq CertificateType :=
  fun a b => leq (cert_type_key a) (cert_type_key b).
#[global] Instance CertificateType_leq_dec : LeqDecision CertificateType.
Proof. intros a b. unfold leq, CertificateType_leq. apply _. Defined.

Definition cert_slot (c : CertificateType) : Slot :=
  match c with
  | CFinalize s | CFinalizeFast s _ | CNotarize s _ | CNotarizeFallback s _
  | CGenesis s _ | CSkip s => s
  end.

Definition is_fast_finalization (c : CertificateType) : bool :=
  match c with CFinalizeFast _ _ => true | _ => false end.
Definition is_finalization (c : CertificateType) : bool :=
  match c with CFinalize _ | CFinalizeFast _ _ => true | _ => false end.
Definition is_slow_finalization (c : CertificateType) : bool :=
  match c with CFinalize _ => true | _ => false end.
Definition is_notarize (c : CertificateType) : bool :=
  match c with CNotarize _ _ => true | _ => false end.
Definition is_notarize_fallback (c : CertificateType) : bool :=
  match c with CNotarizeFallback _ _ => true | _ => false end.
Definition is_skip (c : CertificateType) : bool :=
  match c with CSkip _ => true | _ => false end.
Definition is_genesis (c : CertificateType) : bool :=
  match c with CGenesis _ _ => true | _ => false end.

Definition to_block (c : CertificateType) : option Block :=
  match c with
  | CFinalize _ | CSkip _ => None
  | CNotarize s b | CNotarizeFallback s b | CGenesis s b | CFinalizeFast s b => Some (s, b)
  end.

Definition to_source_vote (c : CertificateType) : Vote :=
  match c with
  | CNotarize s b | CFinalizeFast s b | CNotarizeFallback s b => Notarize s b
  | CFinalize s => Finalize s
  | CSkip s => Skip s
  | CGenesis s b => Genesis s b
  end.

Definition to_source_votes (c : CertificateType) : option (Vote * Vote) :=
  match c with
  | CNotarizeFallback s b => Some (Notarize s b, NotarizeFallback s b)
  | CSkip s => Some (Skip s, SkipFallback s)
  | _ => None
  end.

Definition GENESIS_VOTE_THRESHOLD : Fraction := from_percentage 82.

Definition limits_and_vote_types (c : CertificateType) : Fraction * list VoteType :=
  match c with
  | CNotarize _ _ => (from_percentage 60, [TNotarize])
  | CNotarizeFallback _ _ => (from_percentage 60, [TNotarize; TNotarizeFallback])
  | CFinalizeFast _ _ => (from_percentage 80, [TNotarize])
  | CFinalize _ => (from_percentage 60, [TFinalize])
  | CSkip _ => (from_percentage 60, [TSkip; TSkipFallback])
  | CGenesis _ _ => (GENESIS_VOTE_THRESHOLD, [TGenesis])
  end.

Record Certificate := mkCertificate {
  cert_type : CertificateType;
  cert_signature : BLSSignature;
  cert_bitmap : list Z;
}.

Inductive ConsensusMessage :=
  | MVote (m : VoteMessage)
  | MCertificate (c : Certificate).

(** ** Tables of [votor/src/common.rs] *)

Definition conflicting_types (t : VoteType) : list VoteType :=
  match t with
  | TFinalize => [TNotarizeFallback; TSkip; TSkipFallback]
  | TNotarize => [TSkip; TNotarizeFallback]
  | TNotarizeFallback => [TFinalize; TNotarize]
  | TSkip => [TFinalize; TNotarize; TSkipFallback]
  | TSkipFallback => [TSkip; TFinalize]
  | TGenesis => [TFinalize; TNotarize; TNotarizeFallback; TSkip; TSkipFallback]
  end.

Definition vote_to_cert_types (v : Vote) : list CertificateType :=
  match v with
  | Notarize s b => [CNotarize s b; CNotarizeFallback s b; CFinalizeFast s b]
  | NotarizeFallback s b => [CNotarizeFallback s b]
  | Finalize s => [CFinalize s]
  | Skip s => [CSkip s]
  | SkipFallback s => [CSkip s]
  | Genesis s b => [CGenesis s b]
  end.

Definition MAX_ENTRIES_PER_PUBKEY_FOR_OTHER_TYPES : nat := 1.
Definition MAX_ENTRIES_PER_PUBKEY_FOR_NOTARIZE_LITE : nat := 3.
Definition MAX_NOTAR_FALLBACK_BLOCKS : nat := 7.

Definition SAFE_TO_NOTAR_MIN_NOTARIZE_ONLY : Fraction := from_percentage 40.
Definition SAFE_TO_NOTAR_MIN_NOTARIZE_FOR_NOTARIZE_OR_SKIP : Fraction := from_percentage 20.
Definition SAFE_TO_NOTAR_MIN_NOTARIZE_AND_SKIP : Fraction := from_percentage 60.
Definition SAFE_TO_SKIP_THRESHOLD : Fraction := from_percentage 40.

(** ** Leader windows *)

Definition NUM_CONSECUTIVE_LEADER_SLOTS : Z := 4.

Definition first_of_consecutive_leader_slots (slot : Slot) : Slot :=
  (slot / NUM_CONSECUTIVE_LEADER_SLOTS) * NUM_CONSECUTIVE_LEADER_SLOTS.

(** [first + 4 - 1] with the wrapping operators of a release build. *)
Definition last_of_consecutive_leader_slots (slot : Slot) : Slot :=
  wrapping_sub
    (wrapping_add (first_of_consecutive_leader_slots slot) NUM_CONSECUTIVE_LEADER_SLOTS) 1.

Definition leader_slot_index (slot : Slot) : Z := slot mod NUM_CONSECUTIVE_LEADER_SLOTS.

Definition remaining_slots_in_window (slot : Slot) : option Z :=
  let i := leader_slot_index slot in
  if bool_decide (i <= NUM_CONSECUTIVE_LEADER_SLOTS)
  then Some (NUM_CONSECUTIVE_LEADER_SLOTS - i) else None.

(** ** Events

    [Bank] is the view of [runtime/src/bank.rs] that the voting code reads. *)

Record Bank := mkBank {
  bank_slot : Slot;
  bank_block_id : option Hash;
  bank_parent_slot : Slot;
  bank_parent_block_id : option Hash;
  bank_is_frozen : bool;
  bank_leader_id : Pubkey;
}.

Record LeaderWindowInfo := mkLeaderWindowInfo {
  start_slot : Slot;
  end_slot : Slot;
  parent_block : Block;
  block_timer : Z;
}.

Inductive VotorEvent :=
  | EBlock (slot : Slot) (bank : Bank)
  | EBlockNotarized (block : Block)
  | EBlockNotarFallback (block : Block)
  | EFirstShred (slot : Slot)
  | EParentReady (slot : Slot) (parent_block : Block)
  | ETimeoutCrashedLeader (slot : Slot)
  | ETimeout (slot : Slot)
  | ESafeToNotar (block : Block)
  | ESafeToSkip (slot : Slot)
  | EProduceWindow (info : LeaderWindowInfo)
  | EFinalized (block : Block) (fast : bool)
  | EStandstill (slot : Slot)
  | ESetIdentity.

Definition should_ignore (e : VotorEvent) (root : Slot) : bool :=
  match e with
  | EBlock s _ => bool_decide (s <= root)
  | ETimeout s | ESafeToSkip s | ETimeoutCrashedLeader s | EFirstShred s
  | ESafeToNotar (s, _) | EFinalized (s, _) _ | EBlockNotarized (s, _)
  | EBlockNotarFallback (s, _) | EParentReady s _ => bool_decide (s <= root)
  | EStandstill s => bool_decide (s < root)
  | EProduceWindow info => bool_decide (start_slot info <= root)
  | ESetIdentity => false
  end.

(** ** Theorems *)

Lemma nonzero_unwrap_Some n : n <> 0 -> nonzero_unwrap n = Some n.
Proof. intros H. unfold nonzero_unwrap. by rewrite bool_decide_false. Qed.

Lemma checked_mul_u128_u64 a b :
  is_u64 a -> is_u64 b -> checked_mul_u128 a b = Some (a * b).
Proof.
  unfold is_u64, checked_mul_u128. intros [Ha1 Ha2] [Hb1 Hb2]. rewrite bool_decide_true; [done|].
  assert (a * b <= u64_max * u64_max) by (apply Z.mul_le_mono_nonneg; lia).
  assert (u64_max * u64_max <= u128_max) by (vm_compute; discriminate). lia.
Qed.

(** The comparison of two fractions never panics on [u64] operands and is the
    comparison of the rationals they stand for. *)
Theorem fraction_cmp_rational (x y : Fraction) (dx dy : positive)
    (Hx : is_u64 (numerator x)) (Hy : is_u64 (numerator y))
    (Hdx : denominator x = Zpos dx) (Hdy : denominator y = Zpos dy)
    (Hbx : is_u64 (denominator x)) (Hby : is_u64 (denominator y)) :
  fraction_cmp x y = Some (Qcompare (Qmake (numerator x) dx) (Qmake (numerator y) dy)).
Proof.
  unfold fraction_cmp. rewrite !checked_mul_u128_u64 by done. simpl.
  unfold Qcompare; simpl. by rewrite Hdx, Hdy.
Qed.
Lemma fraction_cmp_rational_witness :
  fraction_cmp (mkFraction u64_max 3) (mkFraction (u64_max - 1) 3) = Some Gt.
Proof.
  rewrite (fraction_cmp_rational (mkFraction u64_max 3) (mkFraction (u64_max - 1) 3) 3 3);
    [by vm_compute|by vm_compute..].
Defined.

Lemma fraction_ge_spec n d pct :
  is_u64 n -> is_u64 d -> d <> 0 -> is_u64 pct ->
  fraction_ge (fraction_new n d) (from_percentage pct) = Some (bool_decide (pct * d <= n * 100)).
Proof.
  intros Hn Hd Hd0 Hp. unfold fraction_ge, fraction_cmp; simpl.
  rewrite !checked_mul_u128_u64 by (done || by vm_compute). simpl. f_equal.
  destruct (Z.compare_spec (n * 100) (pct * d)); symmetry;
    [apply bool_decide_true|apply bool_decide_false|apply bool_decide_true]; lia.
Qed.
Lemma fraction_lt_spec n d pct :
  is_u64 n -> is_u64 d -> d <> 0 -> is_u64 pct ->
  fraction_lt (fraction_new n d) (from_percentage pct) = Some (bool_decide (n * 100 < pct * d)).
Proof.
  intros Hn Hd Hd0 Hp. unfold fraction_lt, fraction_cmp; simpl.
  rewrite !checked_mul_u128_u64 by (done || by vm_compute). simpl. f_equal.
  destruct (Z.compare_spec (n * 100) (pct * d)); symmetry;
    [apply bool_decide_false|apply bool_decide_true|apply bool_decide_false]; lia.
Qed.

(** [vote_to_cert_types] and [limits_and_vote_types] are in sync: a vote counts
    towards a certificate exactly when the certificate lists the vote's type and
    both are about the same slot and, where the certificate names one, the same
    block. *)
Theorem vote_cert_tables_in_sync (v : Vote) (c : CertificateType) :
  c ∈ vote_to_cert_types v <->
  get_type v ∈ (limits_and_vote_types c).2 /\ cert_slot c = vote_slot v /\
  (forall s b, to_block c = Some (s, b) -> vote_block_id v = Some b).
Proof.
  destruct v, c; simpl; rewrite ?elem_of_cons, ?elem_of_nil;
    split; intros HH; destruct_and?; destruct_or?; simplify_eq; try done;
    split_and?; naive_solver.
Qed.

(** Outside the migration's genesis votes, the conflict table is symmetric. *)
Lemma conflicting_types_sym t1 t2 :
  t1 <> TGenesis -> t2 <> TGenesis ->
  t1 ∈ conflicting_types t2 <-> t2 ∈ conflicting_types t1.
Proof. destruct t1, t2; simpl; rewrite ?elem_of_cons, ?elem_of_nil; naive_solver. Qed.
Lemma conflicting_types_irrefl t : t ∉ conflicting_types t.
Proof. destruct t; simpl; set_solver. Qed.

(** A leader window is the aligned run of [NUM_CONSECUTIVE_LEADER_SLOTS] slots
    around [slot]. *)
Lemma leader_window_bounds slot :
  is_u64 slot ->
  first_of_consecutive_leader_slots slot <= slot <= last_of_consecutive_leader_slots slot /\
  last_of_consecutive_leader_slots slot = first_of_consecutive_leader_slots slot + 3 /\
  0 <= first_of_consecutive_leader_slots slot /\
  is_u64 (last_of_consecutive_leader_slots slot).
Proof.
  unfold is_u64, last_of_consecutive_leader_slots, first_of_consecutive_leader_slots,
    NUM_CONSECUTIVE_LEADER_SLOTS, wrapping_sub, wrapping_add, u64_max. intros Hs.
  rewrite Zminus_mod_idemp_l.
  assert (0 <= slot / 4 <= (2 ^ 64 - 1) / 4)
    by (split; [apply Z.div_pos; lia|apply Z.div_le_mono; lia]).
  assert ((2 ^ 64 - 1) / 4 = 2 ^ 62 - 1) as Hq by reflexivity. rewrite Hq in *.
  rewrite Z.mod_small by lia.
  pose proof (Z.div_mod slot 4 ltac:(lia)). pose proof (Z.mod_pos_bound slot 4 ltac:(lia)). lia.
Qed.
