(* ===== verification/ParentReady.v ===== *)
(** * The parent-ready tracker

    [votor/src/consensus_pool/parent_ready_tracker.rs].  The tracker keeps, per
    slot, whether the slot is skip certified, the blocks certified in it, and
    the blocks that are ready parents for it.  The file gives the tracker's
    operations, the abstract specification of the parent-ready condition stated
    in the source's module comment, and the proof that the tracker computes it. *)

From S2P Require Import Prelude.
From S2P Require Import Messages.

(** ** State *)

Record ParentReadyStatus := mkStatus {
  st_skip : bool;
  st_notar_fallbacks : list Block;
  st_parents_ready : list Block;
}.

Definition default_status : ParentReadyStatus := mkStatus false [] [].

Record ParentReadyTracker := mkTracker {
  slot_statuses : gmap Z ParentReadyStatus;
  prt_root : Slot;
  highest_with_parent_ready : Slot;
}.

Inductive BlockProductionParent :=
  | MissedWindow
  | ParentNotReady
  | Parent (b : Block).

(** [HashMap::entry(s).or_default()], read. *)
Definition entry_or_default (m : gmap Z ParentReadyStatus) (s : Slot) : ParentReadyStatus :=
  default default_status (m !! s).

(** ** Operations *)

Definition tracker_new (root_block : Block) : ParentReadyTracker :=
  let root_slot := root_block.1 in
  mkTracker
    (<[root_slot +s 1 := mkStatus false [] [root_block]]>
       (<[root_slot := mkStatus false [root_block] []]> ∅))
    root_slot
    (root_slot +s 1).

(** The push of one parent into one slot's status, with its event: the body
    shared by the two loops below. *)
Definition push_parent (s : Slot) (block : Block)
    (acc : ParentReadyStatus * list VotorEvent) : ParentReadyStatus * list VotorEvent :=
  let '(st, events) := acc in
  if bool_decide (block ∈ st_parents_ready st) then (st, events)
  else
    (mkStatus (st_skip st) (st_notar_fallbacks st) (st_parents_ready st ++ [block]),
     if bool_decide (s mod NUM_CONSECUTIVE_LEADER_SLOTS = 0)
     then events ++ [EParentReady s block] else events).

(** [for s in slot.saturating_add(1)..]: the loop leaves at the first slot that is
    not skip certified.  The range's iterator computes [s + 1] before it yields
    [s], an overflow at [u64::MAX]. *)
Fixpoint notar_loop (fuel : nat) (block : Block) (s : Slot)
    (t : ParentReadyTracker) (events : list VotorEvent)
    : option (ParentReadyTracker * list VotorEvent) :=
  match fuel with
  | O => None
  | S fuel =>
    if bool_decide (u64_max < s + 1) then None else
    let status := entry_or_default (slot_statuses t) s in
    let '(status', events') := push_parent s block (status, events) in
    let highest :=
      if bool_decide (block ∈ st_parents_ready status)
      then highest_with_parent_ready t
      else Z.max s (highest_with_parent_ready t) in
    let t' := mkTracker (<[s := status']> (slot_statuses t)) (prt_root t) highest in
    if negb (st_skip status') then Some (t', events')
    else notar_loop fuel block (s + 1) t' events'
  end.

Definition add_new_notar_fallback_or_stronger (t : ParentReadyTracker) (block : Block)
    (events : list VotorEvent) : option (ParentReadyTracker * list VotorEvent) :=
  let slot := block.1 in
  if bool_decide (slot <= prt_root t) then Some (t, events) else
  let status := entry_or_default (slot_statuses t) slot in
  if bool_decide (block ∈ st_notar_fallbacks status) then
    Some (mkTracker (<[slot := status]> (slot_statuses t)) (prt_root t)
            (highest_with_parent_ready t), events)
  else
    let status' :=
      mkStatus (st_skip status) (st_notar_fallbacks status ++ [block]) (st_parents_ready status) in
    _ ← rust_assert (bool_decide (length (st_notar_fallbacks status') <= MAX_NOTAR_FALLBACK_BLOCKS)%nat);
    let t' := mkTracker (<[slot := status']> (slot_statuses t)) (prt_root t)
                (highest_with_parent_ready t) in
    notar_loop (S (size (slot_statuses t'))) block (slot +s 1) t' events.

Fixpoint future_slots_loop (fuel : nat) (m : gmap Z ParentReadyStatus) (s : Slot)
    : option (list Slot) :=
  match fuel with
  | O => None
  | S fuel =>
    if bool_decide (u64_max < s + 1) then None else
    if negb (match m !! s with Some ss => st_skip ss | None => false end) then Some [s]
    else rest ← future_slots_loop fuel m (s + 1); Some (s :: rest)
  end.

Definition potential_parents_of (status : ParentReadyStatus) : list Block :=
  st_notar_fallbacks status ++ (if st_skip status then st_parents_ready status else []).

Definition push_parents_at (parents : list Block)
    (acc : ParentReadyTracker * list VotorEvent) (s : Slot)
    : ParentReadyTracker * list VotorEvent :=
  let '(t, events) := acc in
  let status := entry_or_default (slot_statuses t) s in
  let '(status', events') :=
    foldl (fun a b => push_parent s b a) (status, events) parents in
  (mkTracker (<[s := status']> (slot_statuses t)) (prt_root t)
     (Z.max s (highest_with_parent_ready t)), events').

Definition add_new_skip (t : ParentReadyTracker) (slot : Slot) (events : list VotorEvent)
    : option (ParentReadyTracker * list VotorEvent) :=
  if bool_decide (slot <= prt_root t) then Some (t, events) else
  let status := entry_or_default (slot_statuses t) slot in
  let m := <[slot := mkStatus true (st_notar_fallbacks status) (st_parents_ready status)]>
             (slot_statuses t) in
  let t' := mkTracker m (prt_root t) (highest_with_parent_ready t) in
  future_slots ← future_slots_loop (S (size m)) m (slot +s 1);
  match m !! (slot -s 1) with
  | None => Some (t', events)
  | Some status =>
    let potential_parents := potential_parents_of status in
    if bool_decide (potential_parents = []) then Some (t', events)
    else Some (foldl (push_parents_at potential_parents) (t', events) future_slots)
  end.

Definition block_production_parent (t : ParentReadyTracker) (slot : Slot)
    : BlockProductionParent :=
  if bool_decide (highest_with_parent_ready t > slot) then MissedWindow
  else match slot_statuses t !! slot ≫= (fun ss => iter_min (st_parents_ready ss)) with
       | Some parent => Parent parent
       | None => ParentNotReady
       end.

Definition tracker_set_root (t : ParentReadyTracker) (root : Slot) : ParentReadyTracker :=
  mkTracker (filter (fun kv => kv.1 >= root) (slot_statuses t)) root
    (highest_with_parent_ready t).

(** ** Abstract specification

    The certificates the tracker has accepted, and the parent-ready condition as
    the module comment defines it: [b] is certified and every slot strictly
    between [slot(b)] and [s] is skip certified. *)

Record Certs := mkCerts { certified : gset Block; skipped : gset Slot }.

Definition parent_ready (g : Certs) (s : Slot) (b : Block) : Prop :=
  b ∈ certified g /\ b.1 < s /\ forall x, b.1 < x < s -> x ∈ skipped g.

Inductive cert_op :=
  | AddNotar (b : Block)
  | AddSkip (s : Slot)
  | SetRoot (r : Slot).

Definition spec_op (root : Slot) (g : Certs) (op : cert_op) : Certs :=
  match op with
  | AddNotar b => if bool_decide (b.1 <= root) then g else mkCerts ({[b]} ∪ certified g) (skipped g)
  | AddSkip s => if bool_decide (s <= root) then g else mkCerts (certified g) ({[s]} ∪ skipped g)
  | SetRoot _ => g
  end.

Definition apply_op (t : ParentReadyTracker) (op : cert_op) (events : list VotorEvent)
    : option (ParentReadyTracker * list VotorEvent) :=
  match op with
  | AddNotar b => add_new_notar_fallback_or_stronger t b events
  | AddSkip s => add_new_skip t s events
  | SetRoot r => Some (tracker_set_root t r, events)
  end.

Fixpoint run_ops (t : ParentReadyTracker) (g : Certs) (ops : list cert_op) (events : list VotorEvent)
    : option (ParentReadyTracker * Certs * list VotorEvent) :=
  match ops with
  | [] => Some (t, g, events)
  | op :: ops =>
    '(t', events') ← apply_op t op events;
    run_ops t' (spec_op (prt_root t) g op) ops events'
  end.

(** Concrete run: block (1,7) certified, slots 2 and 3 skipped; slot 4 opens a
    leader window and gets its event exactly when the gap closes. *)
Example tracker_run_example :
  (fun r => (r.2, block_production_parent r.1.1 4)) <$>
    run_ops (tracker_new (0, 0)) (mkCerts {[(0, 0)]} ∅)
      [AddNotar (1, 7); AddSkip 3; AddSkip 2] []
  = Some ([EParentReady 4 (1, 7)], Parent (1, 7)).
Proof. vm_compute. reflexivity. Qed.

(** ** Refinement invariant *)

Abbreviation skip_at m s := (st_skip (entry_or_default m s)).
Abbreviation nf_at m s := (st_notar_fallbacks (entry_or_default m s)).
Abbreviation ready_at m s := (st_parents_ready (entry_or_default m s)).

(** Every slot of [a, s) is skip certified in [m]. *)
Definition skip_run (m : gmap Z ParentReadyStatus) (a s : Slot) : Prop :=
  a <= s /\ forall x, a <= x < s -> skip_at m x = true.

(** The tracker [t] holds the certificates of [g], and its ready parents are
    the ones [R] allows. *)
Record refines_with (g : Certs) (R : Slot -> Block -> Prop) (t : ParentReadyTracker) : Prop := {
  rf_skip s : prt_root t <= s -> skip_at (slot_statuses t) s = true <-> s ∈ skipped g;
  rf_nf s b : prt_root t <= s -> b ∈ nf_at (slot_statuses t) s <-> b ∈ certified g /\ b.1 = s;
  rf_ready s b : prt_root t <= s -> b ∈ ready_at (slot_statuses t) s <-> R s b;
  rf_nodup s : NoDup (ready_at (slot_statuses t) s);
  rf_high s : prt_root t <= s -> ready_at (slot_statuses t) s <> [] ->
              s <= highest_with_parent_ready t;
  rf_high_ready : prt_root t <= highest_with_parent_ready t ->
              ready_at (slot_statuses t) (highest_with_parent_ready t) <> [];
  rf_low s : s < prt_root t -> slot_statuses t !! s = None;
  rf_root : 0 <= prt_root t;
  rf_range s : skip_at (slot_statuses t) s = true -> s + 2 <= u64_max;
  rf_nf_nodup s : NoDup (nf_at (slot_statuses t) s);
}.

Definition refines (g : Certs) (t : ParentReadyTracker) : Prop :=
  refines_with g (parent_ready g) t.

Lemma entry_insert m s st : entry_or_default (<[s := st]> m) s = st.
Proof. unfold entry_or_default. by rewrite lookup_insert_eq. Qed.
Lemma entry_insert_ne m s st x : s <> x -> entry_or_default (<[s := st]> m) x = entry_or_default m x.
Proof. intros. unfold entry_or_default. by rewrite lookup_insert_ne. Qed.

(** Runs of skip certified slots are bounded by the number of entries. *)
Lemma skip_run_size m s (n : nat) : skip_run m s (s + Z.of_nat n) -> (n <= size m)%nat.
Proof.
  intros [_ Hrun].
  assert (size (list_to_set (seqZ s (Z.of_nat n)) : gset Z) <= size (dom m))%nat as Hsz.
  { apply subseteq_size. intros x [Hx1 Hx2]%elem_of_list_to_set%elem_of_seqZ.
    specialize (Hrun x ltac:(lia)). unfold entry_or_default in Hrun.
    apply elem_of_dom. destruct (m !! x); [eauto|done]. }
  rewrite size_list_to_set in Hsz by apply NoDup_seqZ.
  rewrite length_seqZ in Hsz. rewrite size_dom in Hsz. lia.
Qed.

(** The first slot from [s] on that is not skip certified. *)
Lemma first_unskipped m s :
  exists k : nat, skip_run m s (s + Z.of_nat k) /\ skip_at m (s + Z.of_nat k) = false /\
    (k <= size m)%nat.
Proof.
  assert (forall n : nat, skip_run m s (s + Z.of_nat n) \/
    exists k : nat, (k < n)%nat /\ skip_run m s (s + Z.of_nat k) /\ skip_at m (s + Z.of_nat k) = false)
    as Hsearch.
  { induction n as [|n [[Hle IH]|(k & Hk & Hrun)]].
    - left. split; [lia|]. intros. lia.
    - destruct (skip_at m (s + Z.of_nat n)) eqn:E.
      + left. split; [lia|]. intros x Hx.
        destruct (decide (x = s + Z.of_nat n)) as [->|]; [done|apply IH; lia].
      + right. exists n. split; [lia|]. split; [|done]. split; [lia|]. intros x Hx. apply IH. lia.
    - right. exists k. split; [lia|done]. }
  destruct (Hsearch (S (size m))) as [Hrun|(k & Hk & Hrun & E)].
  - apply skip_run_size in Hrun. lia.
  - exists k. split_and!; [done|done|lia].
Qed.

(** A push changes only the list of ready parents, once per block. *)
Definition add_once (b : Block) (l : list Block) : list Block :=
  if bool_decide (b ∈ l) then l else l ++ [b].

Definition ready_event (s : Slot) (b : Block) : list VotorEvent :=
  if bool_decide (s mod NUM_CONSECUTIVE_LEADER_SLOTS = 0) then [EParentReady s b] else [].

Lemma push_parent_eq s b st ev :
  push_parent s b (st, ev) =
  (mkStatus (st_skip st) (st_notar_fallbacks st) (add_once b (st_parents_ready st)),
   ev ++ if bool_decide (b ∈ st_parents_ready st) then [] else ready_event s b).
Proof.
  unfold push_parent, add_once, ready_event. destruct st as [sk nf pr]; simpl.
  repeat case_bool_decide; rewrite ?app_nil_r; done.
Qed.

Lemma elem_of_add_once b l x : x ∈ add_once b l <-> x ∈ l \/ x = b.
Proof. unfold add_once. case_bool_decide; set_solver. Qed.
Lemma NoDup_add_once b l : NoDup l -> NoDup (add_once b l).
Proof.
  intros. unfold add_once. case_bool_decide; [done|].
  apply NoDup_app. split_and!; [done|set_solver|apply NoDup_singleton].
Qed.
Lemma add_once_nonempty b l : add_once b l <> [].
Proof. unfold add_once. case_bool_decide; destruct l; set_solver. Qed.
#[export] Hint Resolve NoDup_add_once add_once_nonempty : votor.

(** The slots that both loops visit: from [a] up to and including the first
    slot that is not skip certified. *)
Definition reached (m : gmap Z ParentReadyStatus) (a : Slot) (l : list Slot) : Prop :=
  exists k : nat, l = seqZ a (Z.of_nat k + 1) /\ skip_run m a (a + Z.of_nat k) /\
    skip_at m (a + Z.of_nat k) = false /\ (k <= size m)%nat.

Lemma reached_exists m a : exists l, reached m a l.
Proof. destruct (first_unskipped m a) as (k & ?). by exists (seqZ a (Z.of_nat k + 1)), k. Qed.
Lemma elem_of_reached m a l x : reached m a l -> x ∈ l <-> skip_run m a x.
Proof.
  intros (k & -> & [_ Hrun] & Hend & _). rewrite elem_of_seqZ. unfold skip_run. split.
  - intros. split; [lia|]. intros. apply Hrun. lia.
  - intros [Hle Hx]. split; [lia|]. destruct (decide (x < a + (Z.of_nat k + 1))); [done|].
    rewrite Hx in Hend by lia. done.
Qed.
Lemma reached_NoDup m a l : reached m a l -> NoDup l.
Proof. intros (k & -> & _). apply NoDup_seqZ. Qed.
Lemma seqZ_cons_nat a (k : nat) : seqZ a (Z.of_nat k + 1) = a :: seqZ (a + 1) (Z.of_nat k).
Proof. rewrite seqZ_cons by lia. f_equal. f_equal; lia. Qed.

(** No loop runs past the end of the slot range. *)
Definition in_range (m : gmap Z ParentReadyStatus) : Prop :=
  forall x, skip_at m x = true -> x + 2 <= u64_max.

Lemma future_slots_loop_spec m a l :
  reached m a l -> in_range m -> a + 1 <= u64_max ->
  future_slots_loop (S (size m)) m a = Some l.
Proof.
  intros (k & -> & Hrun & Hend & Hk) Hrange Ha.
  assert (k < S (size m))%nat as Hfuel by lia. clear Hk. revert Hfuel.
  generalize (S (size m)) as fuel. revert a Hrun Hend Ha.
  induction k as [|k IH]; intros a [_ Hrun] Hend Ha [|fuel] Hfuel; try lia; simpl future_slots_loop.
  - rewrite bool_decide_false by lia. rewrite Z.add_0_r in Hend. unfold entry_or_default in Hend.
    destruct (m !! a); simpl in *; rewrite ?Hend; done.
  - rewrite bool_decide_false by lia.
    assert (skip_at m a = true) as Hsk by (apply Hrun; lia).
    assert (match m !! a with Some ss => st_skip ss | None => false end = true) as ->.
    { unfold entry_or_default in Hsk. by destruct (m !! a). }
    simpl. rewrite (IH (a + 1)); [|split; [lia|]|..].
    + simpl. rewrite (seqZ_cons_nat a (S k)). by rewrite Nat2Z.inj_succ.
    + intros. apply Hrun. lia.
    + rewrite <-Hend. do 2 f_equal. lia.
    + apply Hrange in Hsk. lia.
    + lia.
Qed.

(** For a block that is ready nowhere yet, the notarization loop is the same
    sweep over the reached slots as the skip loop with a single parent. *)
Lemma notar_loop_spec b t ev a l :
  reached (slot_statuses t) a l -> in_range (slot_statuses t) -> a + 1 <= u64_max ->
  (forall x, x ∈ l -> b ∉ ready_at (slot_statuses t) x) ->
  notar_loop (S (size (slot_statuses t))) b a t ev = Some (foldl (push_parents_at [b]) (t, ev) l).
Proof.
  intros (k & -> & Hrun & Hend & Hk) Hrange Ha Hnew.
  assert (k < S (size (slot_statuses t)))%nat as Hfuel by lia. clear Hk. revert Hfuel.
  generalize (S (size (slot_statuses t))) as fuel. revert a t ev Hrun Hend Ha Hrange Hnew.
  induction k as [|k IH]; intros a t ev [_ Hrun] Hend Ha Hrange Hnew [|fuel] Hfuel; try lia.
  all: rewrite seqZ_cons_nat in *; simpl; rewrite bool_decide_false by lia;
    assert (b ∉ ready_at (slot_statuses t) a) as Hb by (apply Hnew; set_solver);
    rewrite !bool_decide_false by done; simpl.
  - rewrite Z.add_0_r in Hend. by rewrite Hend.
  - assert (skip_at (slot_statuses t) a = true) as Hsk by (apply Hrun; lia).
    rewrite Hsk. simpl. set (t' := mkTracker _ _ _).
    assert (forall y, skip_at (slot_statuses t') y = skip_at (slot_statuses t) y) as Esk.
    { intros y. simpl. destruct (decide (a = y)) as [->|];
        [by rewrite entry_insert, Hsk|by rewrite entry_insert_ne]. }
    rewrite (IH (a + 1) t'); rewrite ?Nat2Z.inj_succ in *.
    + done.
    + split; [lia|]. intros x Hx. rewrite Esk. apply Hrun. lia.
    + rewrite Esk. rewrite <-Hend. do 2 f_equal. lia.
    + specialize (Hrange a (Hrun a ltac:(lia))). lia.
    + intros x. rewrite Esk. apply Hrange.
    + intros x Hx. simpl. rewrite entry_insert_ne by (apply elem_of_seqZ in Hx; lia).
      apply Hnew. apply elem_of_cons. right. apply elem_of_seqZ in Hx. apply elem_of_seqZ. lia.
    + lia.
Qed.

(** The effect of a sweep over distinct slots. *)
Lemma foldl_push_parent s ps st ev :
  exists new,
    foldl (fun a b => push_parent s b a) (st, ev) ps =
      (mkStatus (st_skip st) (st_notar_fallbacks st)
         (foldl (fun l b => add_once b l) (st_parents_ready st) ps), ev ++ new) /\
    NoDup new /\
    (forall e, e ∈ new <-> exists b, e = EParentReady s b /\ b ∈ ps /\
       s mod NUM_CONSECUTIVE_LEADER_SLOTS = 0 /\ b ∉ st_parents_ready st).
Proof.
  revert st ev. induction ps as [|b ps IH]; intros st ev; cbn [foldl].
  { exists []. rewrite app_nil_r. destruct st. split_and!; [done|constructor|set_solver]. }
  rewrite push_parent_eq. destruct (IH
    (mkStatus (st_skip st) (st_notar_fallbacks st) (add_once b (st_parents_ready st)))
    (ev ++ if bool_decide (b ∈ st_parents_ready st) then [] else ready_event s b))
    as (new & -> & Hnd & Hnew). simpl in *.
  eexists. split; [by rewrite <-app_assoc|]. unfold ready_event in *.
  destruct (bool_decide_reflect (b ∈ st_parents_ready st)) as [Hin|Hin]; simpl.
  { split; [done|]. intros e. rewrite Hnew. setoid_rewrite elem_of_add_once.
    split; intros (b' & -> & Hps & Hm & Hn); exists b'; split_and!; try done.
    - by right.
    - naive_solver.
    - apply elem_of_cons in Hps as [->|]; [done|done].
    - intros [?| ->]; done. }
  split.
  - case_bool_decide; [|done]. simpl. apply NoDup_cons. split; [|done].
    rewrite Hnew. intros (b' & [= ->] & _ & _ & Hb'). apply Hb', elem_of_add_once. by right.
  - intros e. rewrite elem_of_app, Hnew. setoid_rewrite elem_of_add_once. split.
    + intros [He|(b' & -> & Hps & Hm & Hn)].
      * case_bool_decide; [|by apply elem_of_nil in He]. apply list_elem_of_singleton in He as ->.
        exists b. split_and!; [done|by left|done|done].
      * exists b'. split_and!; [done|by right|done|naive_solver].
    + intros (b' & -> & Hps & Hm & Hn). destruct (decide (b' = b)) as [->|Hne].
      * left. rewrite bool_decide_true by done. by apply list_elem_of_singleton.
      * right. exists b'. apply elem_of_cons in Hps as [->|]; [done|].
        split_and!; [done|done|done|naive_solver].
Qed.

Record swept (ps : list Block) (l : list Slot) (t t' : ParentReadyTracker) : Prop := {
  sw_root : prt_root t' = prt_root t;
  sw_skip s : skip_at (slot_statuses t') s = skip_at (slot_statuses t) s;
  sw_nf s : nf_at (slot_statuses t') s = nf_at (slot_statuses t) s;
  sw_in s : s ∈ l -> ready_at (slot_statuses t') s =
              foldl (fun k b => add_once b k) (ready_at (slot_statuses t) s) ps;
  sw_out s : s ∉ l -> slot_statuses t' !! s = slot_statuses t !! s;
  sw_high : highest_with_parent_ready t' =
              foldl Z.max (highest_with_parent_ready t) l;
}.

Lemma sweep_spec ps l t ev :
  NoDup l ->
  exists t' new,
    foldl (push_parents_at ps) (t, ev) l = (t', ev ++ new) /\ swept ps l t t' /\ NoDup new /\
    (forall e, e ∈ new <-> exists s b, e = EParentReady s b /\ s ∈ l /\ b ∈ ps /\
       s mod NUM_CONSECUTIVE_LEADER_SLOTS = 0 /\ b ∉ ready_at (slot_statuses t) s).
Proof.
  revert t ev. induction l as [|s l IH]; intros t ev Hnd; simpl.
  { exists t, []. rewrite app_nil_r. split_and!; [done| |constructor|set_solver].
    split; try done. set_solver. }
  apply NoDup_cons in Hnd as [Hs Hnd].
  destruct (foldl_push_parent s ps (entry_or_default (slot_statuses t) s) ev)
    as (new & -> & Hnn & Hnew). simpl.
  set (t1 := mkTracker _ _ _).
  destruct (IH t1 (ev ++ new) Hnd) as (t' & new' & -> & Hsw & Hnn' & Hnew').
  destruct Hsw as [S1 S2 S3 S4 S5 S6]. unfold t1 in *; simpl in *.
  exists t', (new ++ new'). split_and!; [by rewrite app_assoc| | |].
  - split; simpl.
    + done.
    + intros x. rewrite S2. destruct (decide (s = x)) as [->|];
        [by rewrite entry_insert|by rewrite entry_insert_ne].
    + intros x. rewrite S3. destruct (decide (s = x)) as [->|];
        [by rewrite entry_insert|by rewrite entry_insert_ne].
    + intros x [->|Hx]%elem_of_cons.
      * unfold entry_or_default at 1. rewrite S5 by done. by rewrite lookup_insert_eq.
      * rewrite S4 by done. rewrite entry_insert_ne; [done|set_solver].
    + intros x Hx. rewrite S5 by set_solver. rewrite lookup_insert_ne; [done|set_solver].
    + rewrite S6. f_equal. lia.
  - apply NoDup_app. split_and!; [done| |done]. intros e. rewrite Hnew, Hnew'.
    intros (b & -> & _) (x & b' & [= -> ->] & Hx & _). done.
  - intros e. rewrite elem_of_app, Hnew, Hnew'. split.
    + intros [(b & -> & ? & ? & ?)|(x & b & -> & Hx & ? & ? & Hb)].
      * exists s, b. split_and!; [done|by left|done..].
      * exists x, b. rewrite entry_insert_ne in Hb by congruence. split_and!; [done|by right|done..].
    + intros (x & b & -> & [->|Hx]%elem_of_cons & ? & ? & Hb); [by left; exists b|].
      right. exists x, b. rewrite entry_insert_ne by congruence. done.
Qed.

Lemma elem_of_foldl_add_once x ps l :
  x ∈ foldl (fun k b => add_once b k) l ps <-> x ∈ l \/ x ∈ ps.
Proof.
  revert l. induction ps as [|b ps IH]; intros l; simpl; [set_solver|].
  rewrite IH, elem_of_add_once, elem_of_cons. naive_solver.
Qed.
Lemma NoDup_foldl_add_once ps l : NoDup l -> NoDup (foldl (fun k b => add_once b k) l ps).
Proof. revert l. induction ps; simpl; auto with votor. Qed.
Lemma foldl_max_spec h l :
  h <= foldl Z.max h l /\ (forall x, x ∈ l -> x <= foldl Z.max h l) /\
  (foldl Z.max h l = h \/ foldl Z.max h l ∈ l).
Proof.
  revert h. induction l as [|x l IH]; intros h; simpl; [split_and!; [lia|set_solver|by left]|].
  destruct (IH (h `max` x)) as (H1 & H2 & H3). split_and!; [lia| |].
  - intros y [->|Hy]%elem_of_cons; [lia|auto].
  - destruct H3 as [->|]; [|set_solver]. destruct (Z.max_spec h x) as [[_ ->]|[_ ->]]; set_solver.
Qed.

Lemma refines_with_iff g R R' t :
  (forall s b, prt_root t <= s -> R s b <-> R' s b) -> refines_with g R t -> refines_with g R' t.
Proof.
  intros HR [F1 F2 F3 F4 F5 F6 F7 F8 F9 F10]. split; try done.
  intros s b Hs. rewrite F3, HR by done. done.
Qed.

Lemma swept_refines g R ps l t t' :
  refines_with g R t -> swept ps l t t' -> ps <> [] -> (forall s, s ∈ l -> prt_root t < s) ->
  refines_with g (fun s b => R s b \/ (s ∈ l /\ b ∈ ps)) t'.
Proof.
  intros [F1 F2 F3 F4 F5 F6 F7 F8 F9 F10] [S1 S2 S3 S4 S5 S6] Hps Hl.
  assert (forall s, s ∉ l -> entry_or_default (slot_statuses t') s = entry_or_default (slot_statuses t) s)
    as S5' by (intros s Hs; unfold entry_or_default; by rewrite S5).
  assert (forall s b, b ∈ ready_at (slot_statuses t') s <->
            b ∈ ready_at (slot_statuses t) s \/ (s ∈ l /\ b ∈ ps)) as Hready.
  { intros s b. destruct (decide (s ∈ l)) as [Hs|Hs].
    - rewrite S4, elem_of_foldl_add_once by done. naive_solver.
    - rewrite S5' by done. naive_solver. }
  assert (forall s, ready_at (slot_statuses t) s <> [] \/ s ∈ l ->
            ready_at (slot_statuses t') s <> []) as Hne.
  { intros s Hor Hnil.
    assert (forall b, ~ (b ∈ ready_at (slot_statuses t) s) /\ ~ (s ∈ l /\ b ∈ ps)) as Hno.
    { intros b. pose proof (Hready s b) as Hb. rewrite Hnil, elem_of_nil in Hb. tauto. }
    destruct Hor as [Hor|Hs].
    - destruct (ready_at (slot_statuses t) s) as [|b ?]; [done|]. destruct (Hno b). set_solver.
    - destruct ps as [|b ?]; [done|]. destruct (Hno b). set_solver. }
  destruct (foldl_max_spec (highest_with_parent_ready t) l) as (M1 & M2 & M3).
  split; rewrite ?S1.
  - intros s Hs. by rewrite S2, F1.
  - intros s b Hs. by rewrite S3, F2.
  - intros s b Hs. by rewrite Hready, F3.
  - intros s. destruct (decide (s ∈ l)) as [Hs|Hs].
    + rewrite S4 by done. by apply NoDup_foldl_add_once.
    + by rewrite S5'.
  - intros s Hs Hr. rewrite S6. destruct (decide (s ∈ l)) as [Hsl|Hsl]; [auto|].
    rewrite S5' in Hr by done. specialize (F5 s Hs Hr). lia.
  - rewrite S6. intros Hge. apply Hne. destruct M3 as [E|]; [left|by right].
    rewrite E in *. by apply F6.
  - intros s Hs. rewrite S5; [by apply F7|]. intros ?%Hl. lia.
  - done.
  - intros s. rewrite S2. apply F9.
  - intros s. rewrite S3. apply F10.
Qed.

(** ** The operations refine the specification *)

(** What the callers guarantee: slots below the end of the [u64] range, at most
    [MAX_NOTAR_FALLBACK_BLOCKS] certified blocks per slot, roots that only grow. *)
Definition blocks_in_slot (g : Certs) (s : Slot) : gset Block :=
  filter (fun b => b.1 = s) (certified g).

Definition op_allowed (root : Slot) (g : Certs) (op : cert_op) : Prop :=
  match op with
  | AddNotar b => b.1 + 2 <= u64_max /\
      (size (blocks_in_slot (spec_op root g op) b.1) <= MAX_NOTAR_FALLBACK_BLOCKS)%nat
  | AddSkip s => s + 2 <= u64_max
  | SetRoot r => root <= r
  end.

Definition spec_root (root : Slot) (op : cert_op) : Slot :=
  match op with SetRoot r => r | _ => root end.

Fixpoint ops_allowed (root : Slot) (g : Certs) (ops : list cert_op) : Prop :=
  match ops with
  | [] => True
  | op :: ops => op_allowed root g op /\ ops_allowed (spec_root root op) (spec_op root g op) ops
  end.

(** What an operation reports: exactly the pairs (first slot of a window, block)
    that become ready, each once. *)
Definition events_exact (g g' : Certs) (root : Slot) (new : list VotorEvent) : Prop :=
  NoDup new /\
  forall e, e ∈ new <-> exists s b, e = EParentReady s b /\ root <= s /\
    s mod NUM_CONSECUTIVE_LEADER_SLOTS = 0 /\ ~ parent_ready g s b /\ parent_ready g' s b.

Lemma events_exact_nil g g' root :
  (forall s b, root <= s -> parent_ready g' s b -> parent_ready g s b) -> events_exact g g' root [].
Proof. intros Hgg'. split; [constructor|]. set_solver. Qed.

Lemma refines_insert_same g R t s :
  prt_root t <= s -> refines_with g R t ->
  refines_with g R (mkTracker (<[s := entry_or_default (slot_statuses t) s]> (slot_statuses t))
                      (prt_root t) (highest_with_parent_ready t)).
Proof.
  intros Hs [F1 F2 F3 F4 F5 F6 F7 F8 F9 F10].
  assert (forall x, entry_or_default (<[s := entry_or_default (slot_statuses t) s]> (slot_statuses t)) x
            = entry_or_default (slot_statuses t) x) as E.
  { intros x. destruct (decide (s = x)) as [->|]; [by rewrite entry_insert|by rewrite entry_insert_ne]. }
  split; simpl; intros; rewrite ?E in *; try (by auto).
  rewrite lookup_insert_ne by lia. auto.
Qed.

(** The skip runs of the tracker are the skip runs of the specification. *)
Lemma skip_run_spec g R t a s :
  refines_with g R t -> prt_root t <= a ->
  skip_run (slot_statuses t) a s <-> a <= s /\ forall x, a <= x < s -> x ∈ skipped g.
Proof.
  intros HR Ha. unfold skip_run. split; intros [Hle Hx]; (split; [done|]); intros x Hxx.
  - apply (rf_skip _ _ _ HR); [lia|auto].
  - apply (rf_skip _ _ _ HR); [lia|auto].
Qed.

(** How a new certificate changes the parent-ready condition. *)
Lemma parent_ready_add_block g b s b' :
  parent_ready (mkCerts ({[b]} ∪ certified g) (skipped g)) s b' <->
  parent_ready g s b' \/
  (b' = b /\ b.1 + 1 <= s /\ forall x, b.1 + 1 <= x < s -> x ∈ skipped g).
Proof.
  unfold parent_ready; simpl. rewrite elem_of_union, elem_of_singleton. split.
  - intros ([->|] & Hlt & Hsk); [right|by left]. split_and!; [done|lia|]. intros; apply Hsk; lia.
  - intros [?|(-> & Hle & Hsk)]; [naive_solver|]. split_and!; [by left|lia|]. intros; apply Hsk; lia.
Qed.
Lemma parent_ready_add_skip g slot s b :
  parent_ready (mkCerts (certified g) ({[slot]} ∪ skipped g)) s b <->
  parent_ready g s b \/
  (parent_ready g slot b /\ slot + 1 <= s /\ forall x, slot + 1 <= x < s -> x ∈ skipped g).
Proof.
  unfold parent_ready; simpl. setoid_rewrite elem_of_union. setoid_rewrite elem_of_singleton. split.
  - intros (Hc & Hlt & Hsk). destruct (decide (b.1 < slot < s)) as [Hin|Hout].
    + right. split_and!; [done|lia| |lia|]; intros x Hx; destruct (Hsk x); (lia || done).
    + left. split_and!; [done..|]. intros x Hx. destruct (Hsk x); [done|lia|done].
  - intros [(Hc & Hlt & Hsk)|((Hc & Hlt & Hsk) & Hle & Hsk')].
    + split_and!; [done..|]. intros; right; auto.
    + split_and!; [done|lia|]. intros x Hx. destruct (decide (x = slot)) as [->|]; [by left|right].
      destruct (decide (x < slot)); [apply Hsk|apply Hsk']; lia.
Qed.

(** Both operations end with a sweep that installs the new ready parents. *)
Lemma sweep_step g g' t1 ps l a ev :
  refines_with g' (parent_ready g) t1 -> reached (slot_statuses t1) a l -> prt_root t1 < a ->
  ps <> [] ->
  (forall s b, prt_root t1 <= s -> parent_ready g' s b <->
     parent_ready g s b \/ (b ∈ ps /\ a <= s /\ forall x, a <= x < s -> x ∈ skipped g')) ->
  exists t' new, foldl (push_parents_at ps) (t1, ev) l = (t', ev ++ new) /\
    prt_root t' = prt_root t1 /\ refines g' t' /\ events_exact g g' (prt_root t1) new.
Proof.
  intros HR1 Hl Ha Hps Hpr.
  destruct (sweep_spec ps l t1 ev (reached_NoDup _ _ _ Hl)) as (t' & new & -> & Hsw & Hnd & He).
  assert (forall s, s ∈ l <-> a <= s /\ forall x, a <= x < s -> x ∈ skipped g') as Hls.
  { intros s. rewrite (elem_of_reached _ _ _ _ Hl). apply (skip_run_spec g' _ t1 _ _ HR1). lia. }
  setoid_rewrite <-Hls in Hpr.
  exists t', new. split_and!; [done|by rewrite (sw_root _ _ _ _ Hsw)| |].
  - eapply refines_with_iff; [|eapply swept_refines; [exact HR1|exact Hsw|done|]].
    + intros s b Hs. rewrite (sw_root _ _ _ _ Hsw) in Hs. rewrite Hpr by done. tauto.
    + intros s. rewrite Hls. lia.
  - split; [done|]. intros e. rewrite He. split.
    + intros (s & b & -> & Hs & Hb & Hm & Hnr). exists s, b.
      assert (prt_root t1 <= s) by (apply Hls in Hs; lia).
      rewrite (rf_ready _ _ _ HR1) in Hnr by done. rewrite Hpr by done. naive_solver.
    + intros (s & b & -> & Hs & Hm & Hnr & Hpr'). rewrite Hpr in Hpr' by done.
      exists s, b. rewrite (rf_ready _ _ _ HR1) by done. naive_solver.
Qed.

(** Recording a certificate, before its consequences are propagated. *)
Lemma record_block_refines g t b :
  refines g t -> prt_root t < b.1 -> b ∉ certified g ->
  refines_with (mkCerts ({[b]} ∪ certified g) (skipped g)) (parent_ready g)
    (mkTracker (<[b.1 := mkStatus (skip_at (slot_statuses t) b.1) (nf_at (slot_statuses t) b.1 ++ [b])
                           (ready_at (slot_statuses t) b.1)]> (slot_statuses t))
       (prt_root t) (highest_with_parent_ready t)).
Proof.
  intros [F1 F2 F3 F4 F5 F6 F7 F8 F9 F10] Hroot Hb. set (t1 := mkTracker _ _ _).
  assert (forall x, ready_at (slot_statuses t1) x = ready_at (slot_statuses t) x) as Er.
  { intros x. simpl. destruct (decide (b.1 = x)) as [<-|];
      [by rewrite entry_insert|by rewrite entry_insert_ne]. }
  assert (forall x, skip_at (slot_statuses t1) x = skip_at (slot_statuses t) x) as Es.
  { intros x. simpl. destruct (decide (b.1 = x)) as [<-|];
      [by rewrite entry_insert|by rewrite entry_insert_ne]. }
  split; intros *; rewrite ?Er, ?Es; simpl; auto.
  - intros Hs. destruct (decide (b.1 = s)) as [<-|Hne].
    + rewrite entry_insert; simpl. rewrite elem_of_app, list_elem_of_singleton, F2 by done. set_solver.
    + rewrite entry_insert_ne, F2 by done. set_solver.
  - intros. rewrite lookup_insert_ne by lia. auto.
  - destruct (decide (b.1 = s)) as [<-|Hne]; [rewrite entry_insert|by rewrite entry_insert_ne].
    simpl. apply NoDup_app. split_and!; [done| |apply NoDup_singleton].
    intros b' Hb' ->%list_elem_of_singleton. apply F2 in Hb' as [? _]; [done|lia].
Qed.

Lemma record_skip_refines g t slot :
  refines g t -> prt_root t < slot -> slot + 2 <= u64_max ->
  refines_with (mkCerts (certified g) ({[slot]} ∪ skipped g)) (parent_ready g)
    (mkTracker (<[slot := mkStatus true (nf_at (slot_statuses t) slot)
                           (ready_at (slot_statuses t) slot)]> (slot_statuses t))
       (prt_root t) (highest_with_parent_ready t)).
Proof.
  intros [F1 F2 F3 F4 F5 F6 F7 F8 F9 F10] Hroot Hslot. set (t1 := mkTracker _ _ _).
  assert (forall x, ready_at (slot_statuses t1) x = ready_at (slot_statuses t) x) as Er.
  { intros x. simpl. destruct (decide (slot = x)) as [<-|];
      [by rewrite entry_insert|by rewrite entry_insert_ne]. }
  assert (forall x, nf_at (slot_statuses t1) x = nf_at (slot_statuses t) x) as En.
  { intros x. simpl. destruct (decide (slot = x)) as [<-|];
      [by rewrite entry_insert|by rewrite entry_insert_ne]. }
  split; intros *; rewrite ?Er, ?En; simpl; auto.
  - intros Hs. destruct (decide (slot = s)) as [<-|Hne].
    + rewrite entry_insert; simpl. set_solver.
    + rewrite entry_insert_ne, F1 by done. set_solver.
  - intros. rewrite lookup_insert_ne by lia. auto.
  - destruct (decide (slot = s)) as [<-|Hne]; [done|]. rewrite entry_insert_ne by done. auto.
Qed.

Lemma nf_length g R t s :
  refines_with g R t -> prt_root t <= s ->
  length (nf_at (slot_statuses t) s) = size (blocks_in_slot g s).
Proof.
  intros HR Hs. rewrite <-(size_list_to_set (C:=gset Block)) by exact (rf_nf_nodup _ _ _ HR s).
  f_equal. apply set_eq. intros b. unfold blocks_in_slot.
  rewrite elem_of_list_to_set, elem_of_filter, (rf_nf _ _ _ HR) by done. naive_solver.
Qed.
Lemma blocks_in_slot_insert g b :
  b ∉ certified g ->
  size (blocks_in_slot (mkCerts ({[b]} ∪ certified g) (skipped g)) b.1)
  = S (size (blocks_in_slot g b.1)).
Proof.
  intros Hb. unfold blocks_in_slot; simpl.
  assert (filter (fun x => x.1 = b.1) ({[b]} ∪ certified g)
          = {[b]} ∪ filter (fun x => x.1 = b.1) (certified g)) as ->.
  { apply set_eq. intros x. rewrite !elem_of_union, !elem_of_filter, elem_of_union, elem_of_singleton.
    naive_solver. }
  rewrite size_union, size_singleton; [lia|].
  intros x ->%elem_of_singleton [_ ?]%elem_of_filter. done.
Qed.

Lemma add_notar_refines g t b ev :
  refines g t -> op_allowed (prt_root t) g (AddNotar b) ->
  exists t' new, add_new_notar_fallback_or_stronger t b ev = Some (t', ev ++ new) /\
    prt_root t' = prt_root t /\
    refines (spec_op (prt_root t) g (AddNotar b)) t' /\
    events_exact g (spec_op (prt_root t) g (AddNotar b)) (prt_root t) new.
Proof.
  intros HR [Hrange Hlen]. unfold add_new_notar_fallback_or_stronger, spec_op.
  case_bool_decide as Hroot.
  { exists t, []. rewrite app_nil_r. split_and!; [done|done|done|]. by apply events_exact_nil. }
  case_bool_decide as Hin.
  { apply (rf_nf _ _ _ HR) in Hin as [Hin _]; [|lia].
    assert (mkCerts ({[b]} ∪ certified g) (skipped g) = g) as ->.
    { destruct g; simpl in *. f_equal. set_solver. }
    eexists _, []. rewrite app_nil_r. split_and!; [done|done| |by apply events_exact_nil].
    apply refines_insert_same; [lia|done]. }
  rewrite (rf_nf _ _ _ HR) in Hin by lia.
  unfold rust_assert. rewrite bool_decide_true.
  2: { simpl. rewrite length_app; simpl. unfold spec_op in Hlen. rewrite bool_decide_false in Hlen by done.
       rewrite (nf_length g _ t b.1 HR) by lia. rewrite blocks_in_slot_insert in Hlen by naive_solver.
       lia. }
  cbn [mbind option_bind]. rewrite sat_add_exact by lia.
  pose proof (record_block_refines g t b HR ltac:(lia) ltac:(naive_solver)) as HR1.
  simpl st_skip in *. simpl st_notar_fallbacks in *. simpl st_parents_ready in *.
  set (t1 := mkTracker _ _ _) in *. set (g' := mkCerts _ _) in *.
  destruct (reached_exists (slot_statuses t1) (b.1 + 1)) as [l Hl].
  rewrite (notar_loop_spec b t1 ev _ l); [|done|exact (rf_range _ _ _ HR1)|lia|].
  2: { intros x Hx. rewrite (rf_ready _ _ _ HR1).
       - intros [? _]. naive_solver.
       - simpl. apply (elem_of_reached _ _ _ _ Hl) in Hx as [? _]. lia. }
  destruct (sweep_step g g' t1 [b] l (b.1 + 1) ev HR1 Hl) as (t' & new & -> & ? & ? & ?);
    [simpl; lia|done| |by eauto 10].
  intros s b' _. rewrite list_elem_of_singleton. exact (parent_ready_add_block g b s b').
Qed.

(** The candidate parents of a newly skipped slot are its ready parents. *)
Lemma potential_parents_ready g R t slot b :
  refines_with g R t -> (forall s b, prt_root t <= s -> R s b <-> parent_ready g s b) ->
  prt_root t < slot ->
  b ∈ potential_parents_of (entry_or_default (slot_statuses t) (slot - 1)) <-> parent_ready g slot b.
Proof.
  intros HR HRR Hs. unfold potential_parents_of. rewrite elem_of_app, (rf_nf _ _ _ HR) by lia.
  pose proof (rf_skip _ _ _ HR (slot - 1) ltac:(lia)) as Hsk.
  pose proof (rf_ready _ _ _ HR (slot - 1) b ltac:(lia)) as Hrd. rewrite HRR in Hrd by lia.
  assert (parent_ready g slot b <-> (b ∈ certified g /\ b.1 = slot - 1) \/
            (slot - 1 ∈ skipped g /\ parent_ready g (slot - 1) b)) as ->.
  { unfold parent_ready. split.
    - intros (Hc & Hlt & Hx). destruct (decide (b.1 = slot - 1)); [by left|right].
      split; [apply Hx; lia|]. split_and!; [done|lia|]. intros; apply Hx; lia.
    - intros [[Hc Hb]|[Hsl (Hc & Hlt & Hx)]]; (split_and!; [done|lia|]); intros x Hxx.
      + lia.
      + destruct (decide (x = slot - 1)) as [->|]; [done|]. apply Hx. lia. }
  destruct (st_skip _); [|]; rewrite ?elem_of_nil; naive_solver.
Qed.

Lemma add_skip_refines g t slot ev :
  refines g t -> op_allowed (prt_root t) g (AddSkip slot) ->
  exists t' new, add_new_skip t slot ev = Some (t', ev ++ new) /\
    prt_root t' = prt_root t /\
    refines (spec_op (prt_root t) g (AddSkip slot)) t' /\
    events_exact g (spec_op (prt_root t) g (AddSkip slot)) (prt_root t) new.
Proof.
  intros HR Hrange. unfold add_new_skip, spec_op. simpl in Hrange.
  case_bool_decide as Hroot.
  { exists t, []. rewrite app_nil_r. split_and!; [done|done|done|]. by apply events_exact_nil. }
  pose proof (rf_root _ _ _ HR) as Hr0.
  rewrite sat_add_exact by lia. rewrite sat_sub_exact by lia.
  pose proof (record_skip_refines g t slot HR ltac:(lia) Hrange) as HR1.
  set (t1 := mkTracker _ _ _) in *. set (g' := mkCerts _ _) in *.
  change (<[slot := _]> (slot_statuses t)) with (slot_statuses t1).
  destruct (reached_exists (slot_statuses t1) (slot + 1)) as [l Hl].
  rewrite (future_slots_loop_spec _ _ l Hl (rf_range _ _ _ HR1)) by lia. cbn [mbind option_bind].
  assert (entry_or_default (slot_statuses t1) (slot - 1) = entry_or_default (slot_statuses t) (slot - 1))
    as Eprev by (simpl; rewrite entry_insert_ne; [done|lia]).
  assert (forall s b, parent_ready g' s b <-> parent_ready g s b \/
    (b ∈ potential_parents_of (entry_or_default (slot_statuses t1) (slot - 1)) /\
     slot + 1 <= s /\ forall x, slot + 1 <= x < s -> x ∈ skipped g')) as Hpr.
  { intros s b. rewrite Eprev, (potential_parents_ready g _ t slot b HR) by (done || lia).
    unfold g'. rewrite parent_ready_add_skip. simpl. setoid_rewrite elem_of_union.
    setoid_rewrite elem_of_singleton. split; (intros [?|(? & ? & Hx)]; [by left|right]).
    - split_and!; [done|done|]. intros; right; by apply Hx.
    - split_and!; [done|done|]. intros x Hxx. destruct (Hx x Hxx); [lia|done]. }
  assert (potential_parents_of (entry_or_default (slot_statuses t1) (slot - 1)) = [] ->
          exists t' new, Some (t1, ev) = Some (t', ev ++ new) /\ prt_root t' = prt_root t /\
            refines g' t' /\ events_exact g g' (prt_root t) new) as Hnone.
  { intros Enil. setoid_rewrite Enil in Hpr.
    assert (forall s b, parent_ready g' s b <-> parent_ready g s b) as Hpr'.
    { intros s b. rewrite Hpr. split; [|by left]. intros [?|[Hin _]]; [done|].
      by apply elem_of_nil in Hin. }
    exists t1, []. rewrite app_nil_r. split_and!; [done|done| |].
    - eapply refines_with_iff; [|exact HR1]. intros s b _. by rewrite Hpr'.
    - apply events_exact_nil. intros s b _. by rewrite Hpr'. }
  unfold entry_or_default in Hpr, Hnone. simpl slot_statuses in *.
  destruct (_ !! (slot - 1)) as [status|]; simpl in *; [|by apply Hnone].
  case_bool_decide as Enil; [by apply Hnone|].
  destruct (sweep_step g g' t1 (potential_parents_of status) l (slot + 1) ev HR1 Hl)
    as (t' & new & -> & ? & ? & ?); [simpl; lia|done|by auto|by eauto 10].
Qed.

Lemma set_root_refines g t r :
  refines g t -> prt_root t <= r -> refines g (tracker_set_root t r).
Proof.
  intros [F1 F2 F3 F4 F5 F6 F7 F8 F9 F10] Hr.
  assert (forall x, r <= x -> entry_or_default (slot_statuses (tracker_set_root t r)) x
            = entry_or_default (slot_statuses t) x) as Ege.
  { intros x Hx. unfold entry_or_default; simpl. destruct (slot_statuses t !! x) as [st|] eqn:E.
    - assert (filter (fun kv => kv.1 >= r) (slot_statuses t) !! x = Some st) as ->; [|done].
      apply map_lookup_filter_Some. split; [done|]. simpl. lia.
    - assert (filter (fun kv => kv.1 >= r) (slot_statuses t) !! x = None) as ->; [|done].
      apply map_lookup_filter_None. by left. }
  assert (forall x, x < r -> slot_statuses (tracker_set_root t r) !! x = None) as Elt.
  { intros x Hx. simpl. apply map_lookup_filter_None. right. simpl. lia. }
  assert (forall x, x < r -> entry_or_default (slot_statuses (tracker_set_root t r)) x = default_status)
    as Elt' by (intros; unfold entry_or_default; by rewrite Elt).
  split; simpl prt_root; simpl highest_with_parent_ready.
  - intros s Hs. rewrite Ege by done. apply F1. lia.
  - intros s b Hs. rewrite Ege by done. apply F2. lia.
  - intros s b Hs. rewrite Ege by done. apply F3. lia.
  - intros s. destruct (decide (r <= s)); [by rewrite Ege|]. rewrite Elt' by lia. constructor.
  - intros s Hs. rewrite Ege by done. apply F5. lia.
  - intros Hh. rewrite Ege by done. apply F6. lia.
  - done.
  - lia.
  - intros s. destruct (decide (r <= s)); [rewrite Ege by done; apply F9|]. by rewrite Elt' by lia.
  - intros s. destruct (decide (r <= s)); [by rewrite Ege|]. rewrite Elt' by lia. constructor.
Qed.

Lemma tracker_new_refines rb :
  0 <= rb.1 -> rb.1 + 1 <= u64_max -> refines (mkCerts {[rb]} ∅) (tracker_new rb).
Proof.
  intros H0 Hmax. unfold tracker_new. rewrite sat_add_exact by done.
  assert (forall s b, parent_ready (mkCerts {[rb]} ∅) s b <-> b = rb /\ s = rb.1 + 1) as Hpr.
  { intros s b. unfold parent_ready; simpl. rewrite elem_of_singleton. split.
    - intros (-> & Hlt & Hx). split; [done|]. destruct (decide (s = rb.1 + 1)); [done|].
      specialize (Hx (rb.1 + 1) ltac:(lia)). set_solver.
    - intros [-> ->]. split_and!; [done|lia|]. intros. lia. }
  assert (forall s, entry_or_default
     (<[rb.1 + 1 := mkStatus false [] [rb]]> (<[rb.1 := mkStatus false [rb] []]> ∅)) s
     = if decide (s = rb.1 + 1) then mkStatus false [] [rb]
       else if decide (s = rb.1) then mkStatus false [rb] [] else default_status) as E.
  { intros s. repeat case_decide; subst; rewrite ?entry_insert, ?entry_insert_ne, ?entry_insert by lia;
      done. }
  split; simpl.
  - intros s _. rewrite E. split; [repeat case_decide; done|set_solver].
  - intros s b _. rewrite E, elem_of_singleton. repeat case_decide; subst; simpl;
      rewrite ?list_elem_of_singleton, ?elem_of_nil; naive_solver lia.
  - intros s b _. rewrite E, Hpr. repeat case_decide; subst; simpl;
      rewrite ?list_elem_of_singleton, ?elem_of_nil; naive_solver lia.
  - intros s. rewrite E. repeat case_decide; simpl; first [apply NoDup_singleton|apply NoDup_nil_2].
  - intros s _. rewrite E. repeat case_decide; simpl; (lia || done).
  - intros _. rewrite E. by rewrite decide_True.
  - intros s Hs. rewrite !lookup_insert_ne by lia. done.
  - done.
  - intros s. rewrite E. repeat case_decide; done.
  - intros s. rewrite E. repeat case_decide; simpl; first [apply NoDup_singleton|apply NoDup_nil_2].
Qed.

(** One operation: the tracker stays the image of the specification and reports
    exactly the newly ready pairs. *)
Lemma apply_op_refines g t op ev :
  refines g t -> op_allowed (prt_root t) g op ->
  exists t' new, apply_op t op ev = Some (t', ev ++ new) /\
    prt_root t' = spec_root (prt_root t) op /\
    refines (spec_op (prt_root t) g op) t' /\
    events_exact g (spec_op (prt_root t) g op) (prt_root t) new.
Proof.
  intros HR Hok. destruct op as [b|s|r].
  - apply (add_notar_refines g t b ev HR Hok).
  - apply (add_skip_refines g t s ev HR Hok).
  - exists (tracker_set_root t r), []. simpl. rewrite app_nil_r. split_and!; [done|done| |].
    + by apply set_root_refines.
    + by apply events_exact_nil.
Qed.

Lemma parent_ready_mono root g op s b :
  parent_ready g s b -> parent_ready (spec_op root g op) s b.
Proof.
  intros (Hc & Hlt & Hx). unfold parent_ready, spec_op.
  destruct op; try case_bool_decide; simpl; split_and!; set_solver.
Qed.
(** A pair can only become ready above the root. *)
Lemma newly_ready_above_root root g op s b :
  ~ parent_ready g s b -> parent_ready (spec_op root g op) s b -> root <= s.
Proof.
  intros Hn. unfold spec_op. destruct op as [b'|slot|r]; try case_bool_decide; try done.
  - rewrite parent_ready_add_block. intros [?|(-> & ? & _)]; [done|lia].
  - rewrite parent_ready_add_skip. intros [?|(_ & ? & _)]; [done|lia].
Qed.

Lemma run_ops_refines ops : forall t g ev,
  refines g t -> ops_allowed (prt_root t) g ops ->
  exists t' g' new, run_ops t g ops ev = Some (t', g', ev ++ new) /\ refines g' t' /\
    (forall s b, parent_ready g s b -> parent_ready g' s b) /\ NoDup new /\
    (forall e, e ∈ new <-> exists s b, e = EParentReady s b /\
       s mod NUM_CONSECUTIVE_LEADER_SLOTS = 0 /\ ~ parent_ready g s b /\ parent_ready g' s b).
Proof.
  induction ops as [|op ops IH]; intros t g ev HR Hok; simpl.
  { exists t, g, []. rewrite app_nil_r. split_and!; [done|done|done|constructor|].
    intros e. rewrite elem_of_nil. naive_solver. }
  destruct Hok as [Hop Hok].
  destruct (apply_op_refines g t op ev HR Hop) as (t1 & new1 & -> & Hroot & HR1 & Hnd1 & He1).
  cbn [mbind option_bind]. rewrite <-Hroot in Hok.
  destruct (IH t1 _ (ev ++ new1) HR1 Hok) as (t' & g' & new2 & -> & HR' & Hmono & Hnd2 & He2).
  exists t', g', (new1 ++ new2). split_and!; [by rewrite app_assoc|done| | |].
  - intros s b Hpr. apply Hmono. by apply parent_ready_mono.
  - apply NoDup_app. split_and!; [done| |done]. intros e.
    rewrite He1, He2. intros (s & b & -> & _ & _ & _ & Hy) (s' & b' & [= -> ->] & _ & Hn & _). done.
  - intros e. rewrite elem_of_app, He1, He2. split.
    + intros [(s & b & -> & _ & ? & ? & ?)|(s & b & -> & ? & Hn & ?)]; exists s, b.
      * split_and!; [done|done|done|by apply Hmono].
      * split_and!; [done|done| |done]. intros ?. by apply Hn, parent_ready_mono.
    + intros (s & b & -> & Hm & Hn & Hy).
      assert (parent_ready (spec_op (prt_root t) g op) s b \/
              ~ parent_ready (spec_op (prt_root t) g op) s b) as [Hp|Hp].
      { destruct (decide (b ∈ certified (spec_op (prt_root t) g op))) as [Hc|Hc];
          [|right; by intros [? _]].
        destruct (decide (b.1 < s)) as [Hlt|Hlt]; [|right; by intros (_ & ? & _)].
        destruct (decide (Forall (fun x => x ∈ skipped (spec_op (prt_root t) g op))
                    (seqZ (b.1 + 1) (s - b.1 - 1)))) as [HF|HF].
        - left. split_and!; [done|done|]. intros x Hx. rewrite Forall_forall in HF.
          apply HF, elem_of_seqZ. lia.
        - right. intros (_ & _ & Hx). apply HF, Forall_forall. intros x ?%elem_of_seqZ.
          apply Hx. lia. }
      * left. exists s, b. split_and!; try done. by eapply newly_ready_above_root.
      * right. exists s, b. done.
Qed.

(** ** Main theorems *)

(** C11: From a fresh tracker, any sequence of certificates and root advances
    terminates without a panic (the [u64] range and the bound of
    [MAX_NOTAR_FALLBACK_BLOCKS] certified blocks per slot being respected), and
    in the resulting tracker the ready parents recorded for every slot at or
    above the root are exactly the blocks that satisfy the parent-ready condition
    of the accepted certificates: the block is certified and every slot between
    it and the slot is skip certified. *)
Theorem tracker_computes_parent_ready (root_block : Block) (ops : list cert_op)
    (Hroot : 0 <= root_block.1) (Hmax : root_block.1 + 1 <= u64_max)
    (Hops : ops_allowed root_block.1 (mkCerts {[root_block]} ∅) ops) :
  exists t g events,
    run_ops (tracker_new root_block) (mkCerts {[root_block]} ∅) ops [] = Some (t, g, events) /\
    forall s b, prt_root t <= s ->
      b ∈ st_parents_ready (entry_or_default (slot_statuses t) s) <-> parent_ready g s b.
Proof.
  destruct (run_ops_refines ops (tracker_new root_block) (mkCerts {[root_block]} ∅) [])
    as (t & g & new & Hrun & HR & _); [by apply tracker_new_refines|done|].
  exists t, g, new. split; [done|]. intros s b Hs. by apply (rf_ready _ _ _ HR).
Qed.
Lemma tracker_computes_parent_ready_witness :
  exists t g events,
    run_ops (tracker_new (0, 0)) (mkCerts {[(0, 0)]} ∅)
      [AddNotar (1, 7); AddSkip 3; AddSkip 2; SetRoot 1] [] = Some (t, g, events) /\
    forall s b, prt_root t <= s ->
      b ∈ st_parents_ready (entry_or_default (slot_statuses t) s) <-> parent_ready g s b.
Proof.
  apply (tracker_computes_parent_ready (0, 0)); [by vm_compute|by vm_compute|].
  simpl. repeat split; vm_compute; try done; lia.
Defined.

(** The events of a run are exact: a [ParentReady] event is emitted for a
    slot and a block precisely when the slot opens a leader window and the pair
    became ready during the run, and it is emitted once. *)
Theorem tracker_events_exact (root_block : Block) (ops : list cert_op) t g events
    (Hroot : 0 <= root_block.1) (Hmax : root_block.1 + 1 <= u64_max)
    (Hops : ops_allowed root_block.1 (mkCerts {[root_block]} ∅) ops)
    (Hrun : run_ops (tracker_new root_block) (mkCerts {[root_block]} ∅) ops [] = Some (t, g, events)) :
  NoDup events /\
  forall e, e ∈ events <->
    exists s b, e = EParentReady s b /\ s mod NUM_CONSECUTIVE_LEADER_SLOTS = 0 /\
      ~ parent_ready (mkCerts {[root_block]} ∅) s b /\ parent_ready g s b.
Proof.
  destruct (run_ops_refines ops (tracker_new root_block) (mkCerts {[root_block]} ∅) [])
    as (t' & g' & new & Hrun' & HR & _ & Hnd & He); [by apply tracker_new_refines|done|].
  rewrite Hrun in Hrun'. simplify_eq. done.
Qed.
Lemma tracker_events_exact_witness :
  NoDup [EParentReady 4 (1, 7)].
Proof.
  eapply proj1, (tracker_events_exact (0, 0) [AddNotar (1, 7); AddSkip 3; AddSkip 2]);
    [by vm_compute|by vm_compute| |vm_compute; reflexivity].
  simpl. repeat split; vm_compute; try done; lia.
Defined.

Lemma block_production_parent_spec g t slot :
  refines g t -> prt_root t <= slot ->
  match block_production_parent t slot with
  | Parent b => parent_ready g slot b /\ (forall b', parent_ready g slot b' -> leq b b') /\
                (forall s b', slot < s -> ~ parent_ready g s b')
  | ParentNotReady => forall s b, slot <= s -> ~ parent_ready g s b
  | MissedWindow => exists s b, slot < s /\ parent_ready g s b
  end.
Proof.
  intros HR Hslot. unfold block_production_parent. case_bool_decide as Hh.
  - pose proof (rf_high_ready _ _ _ HR ltac:(lia)) as Hne.
    destruct (ready_at (slot_statuses t) (highest_with_parent_ready t)) as [|b l] eqn:E; [done|].
    exists (highest_with_parent_ready t), b. split; [lia|].
    apply (rf_ready _ _ _ HR); [lia|]. rewrite E. by left.
  - assert (forall s b, slot < s -> ~ parent_ready g s b) as Hlater.
    { intros s b Hs Hpr. apply (rf_ready _ _ _ HR) in Hpr; [|lia].
      assert (s <= highest_with_parent_ready t); [|lia]. apply (rf_high _ _ _ HR); [lia|].
      destruct (ready_at _ s); [by apply elem_of_nil in Hpr|done]. }
    pose proof (fun b => rf_ready _ _ _ HR slot b Hslot) as Hready. unfold entry_or_default in Hready.
    destruct (slot_statuses t !! slot) as [ss|]; simpl in *.
    + destruct (iter_min (st_parents_ready ss)) as [b|] eqn:E.
      * apply iter_min_Some in E as [Hin Hmin].
        split_and!; [by apply Hready|intros b' Hb'; apply Hmin; by apply Hready|done].
      * apply iter_min_None in E. intros s b Hs Hpr. destruct (decide (s = slot)) as [->|].
        -- apply Hready in Hpr. rewrite E in Hpr. by apply elem_of_nil in Hpr.
        -- by eapply Hlater; [|done]; lia.
    + intros s b Hs Hpr. destruct (decide (s = slot)) as [->|].
      * apply Hready in Hpr. by apply elem_of_nil in Hpr.
      * by eapply Hlater; [|done]; lia.
Qed.

(** The parent a leader builds on: for a slot at or above the root, the
    answer is [Parent b] with the least ready block when the slot has a ready
    parent and no later slot has one, [ParentNotReady] when no slot from here on
    has one, and [MissedWindow] exactly when a later slot already has one. *)
Theorem block_production_parent_correct g t slot
    (HR : refines g t) (Hslot : prt_root t <= slot) :
  match block_production_parent t slot with
  | Parent b => parent_ready g slot b /\ (forall b', parent_ready g slot b' -> leq b b') /\
                (forall s b', slot < s -> ~ parent_ready g s b')
  | ParentNotReady => forall s b, slot <= s -> ~ parent_ready g s b
  | MissedWindow => exists s b, slot < s /\ parent_ready g s b
  end.
Proof. by apply block_production_parent_spec. Qed.
Lemma block_production_parent_correct_witness :
  block_production_parent (tracker_new (3, 9)) 4 = Parent (3, 9) /\
  parent_ready (mkCerts {[(3, 9)]} ∅) 4 (3, 9).
Proof.
  split; [by vm_compute|].
  refine (proj1 (block_production_parent_correct (mkCerts {[(3, 9)]} ∅) (tracker_new (3, 9)) 4 _ _)).
  - apply tracker_new_refines; by vm_compute.
  - by vm_compute.
Defined.
