(* ===== verification/EpochStakes.v ===== *)
(** * Epoch stakes and validator ranks

    [runtime/src/epoch_stakes.rs]: the stake totals of an epoch
    ([VersionedEpochStakes::parse_epoch_vote_accounts]) and the ranking of the
    validators by stake ([BLSPubkeyToRankMap]), which the consensus pool uses to
    turn the rank of a vote message into a vote account and its stake.  The file
    also defines the weight of a set of validators and proves the facts about it
    that the quorum arguments of [ConsensusPool] rest on. *)

From S2P Require Import Prelude.
From S2P Require Import Messages.

(** ** Data *)

(** The part of a vote account ([vote/src/vote_account.rs]) these functions read. *)
Record VoteAccount := mkVoteAccount {
  va_node_pubkey : Pubkey;
  va_bls_pubkey_compressed : option Z;
  va_authorized_voter : Z -> option Pubkey;
}.

(** [VoteAccountsHashMap], as the sequence of entries its iterator yields: the
    order is the hash map's and is arbitrary, the keys are distinct. *)
Abbreviation VoteAccounts := (list (Z * (Z * VoteAccount))) (only parsing).

Record BLSPubkeyStakeEntry := mkEntry {
  en_vote_account_pubkey : Pubkey;
  en_node_pubkey : Pubkey;
  en_bls_pubkey : Z;
  en_stake : Stake;
}.

Record BLSPubkeyToRankMap := mkRankMap {
  rank_map : gmap Z Z;
  vote_pubkey_to_rank : gmap Z Z;
  sorted_pubkeys : list BLSPubkeyStakeEntry;
}.

Record NodeVoteAccounts := mkNodeVoteAccounts {
  nva_vote_accounts : list Pubkey;
  nva_total_stake : Stake;
}.

(** [VersionedEpochStakes::Current], without the serialization-only fields. *)
Record VersionedEpochStakes := mkEpochStakes {
  es_total_stake : Stake;
  es_node_id_to_vote_accounts : gmap Z NodeVoteAccounts;
  es_epoch_authorized_voters : gmap Z Z;
  es_rank_map : BLSPubkeyToRankMap;
}.

(** ** Operations *)

(** [slice::sort_by] is a stable sort. *)
Fixpoint insert_stable {A} (le : A -> A -> bool) (x : A) (l : list A) : list A :=
  match l with
  | [] => [x]
  | y :: l' => if le x y then x :: l else y :: insert_stable le x l'
  end.
Definition sort_by {A} (le : A -> A -> bool) (l : list A) : list A :=
  foldr (insert_stable le) [] l.

Section rank_map.
(** [bincode::deserialize] of the compressed bytes and the decompression of the
    curve point: external, each may fail. *)
Context (bls_deserialize : Z -> option Z) (bls_affine : Z -> option Z).

Definition bls_pubkey_compressed_bytes_to_bls_pubkey (bytes : Z) : option (Z * Z) :=
  compressed ← bls_deserialize bytes;
  affine ← bls_affine compressed;
  Some (compressed, affine).

Definition stake_entry_of (a : Z * (Z * VoteAccount)) : option (BLSPubkeyStakeEntry * Z) :=
  let '(vote_account_pubkey, (stake, account)) := a in
  if bool_decide (0 < stake) then
    bytes ← va_bls_pubkey_compressed account;
    '(compressed, bls_pubkey) ← bls_pubkey_compressed_bytes_to_bls_pubkey bytes;
    Some (mkEntry vote_account_pubkey (va_node_pubkey account) bls_pubkey stake, compressed)
  else None.

(** Higher stake first, ties by the compressed key. *)
Definition rank_le (a b : BLSPubkeyStakeEntry * Z) : bool :=
  match Z.compare (en_stake b.1) (en_stake a.1) with
  | Lt => true
  | Gt => false
  | Eq => bool_decide (a.2 <= b.2)
  end.

(** The [enumerate] loop; [rank as u16] truncates. *)
Fixpoint rank_loop (rank : Z) (l : list (BLSPubkeyStakeEntry * Z)) (m : BLSPubkeyToRankMap)
    : BLSPubkeyToRankMap :=
  match l with
  | [] => m
  | (entry, compressed) :: l =>
    rank_loop (rank + 1) l
      (mkRankMap (<[compressed := rank mod 2 ^ 16]> (rank_map m))
         (<[en_vote_account_pubkey entry := rank mod 2 ^ 16]> (vote_pubkey_to_rank m))
         (sorted_pubkeys m ++ [entry]))
  end.

Definition rank_map_new (accounts : VoteAccounts) : BLSPubkeyToRankMap :=
  rank_loop 0 (sort_by rank_le (omap stake_entry_of accounts)) (mkRankMap ∅ ∅ []).

Definition get_rank_for_vote_pubkey (m : BLSPubkeyToRankMap) (k : Pubkey) : option Z :=
  vote_pubkey_to_rank m !! k.
Definition get_pubkey_stake_entry (m : BLSPubkeyToRankMap) (index : Z)
    : option BLSPubkeyStakeEntry :=
  if bool_decide (0 <= index) then sorted_pubkeys m !! Z.to_nat index else None.

Definition parse_step (leader_schedule_epoch : Z)
    (acc : Z * gmap Z NodeVoteAccounts * gmap Z Z) (a : Z * (Z * VoteAccount))
    : Z * gmap Z NodeVoteAccounts * gmap Z Z :=
  let '(total, nodes, voters) := acc in
  let '(key, (stake, account)) := a in
  let total := wrapping_add total stake in
  if bool_decide (stake = 0) then (total, nodes, voters)
  else match va_authorized_voter account leader_schedule_epoch with
       | None => (total, nodes, voters)
       | Some authorized_voter =>
         let n := default (mkNodeVoteAccounts [] 0) (nodes !! va_node_pubkey account) in
         (total,
          <[va_node_pubkey account :=
              mkNodeVoteAccounts (nva_vote_accounts n ++ [key]) (wrapping_add (nva_total_stake n) stake)]>
            nodes,
          <[key := authorized_voter]> voters)
       end.

Definition parse_epoch_vote_accounts (accounts : VoteAccounts) (leader_schedule_epoch : Z)
    : Z * gmap Z NodeVoteAccounts * gmap Z Z :=
  foldl (parse_step leader_schedule_epoch) (0, ∅, ∅) accounts.

(** The rank map, which the code builds on first use, is built here. *)
Definition epoch_stakes_new (accounts : VoteAccounts) (leader_schedule_epoch : Z)
    : VersionedEpochStakes :=
  let '(total, nodes, voters) := parse_epoch_vote_accounts accounts leader_schedule_epoch in
  mkEpochStakes total nodes voters (rank_map_new accounts).
End rank_map.

(** ** Weight of a set of validators *)

(** The stake of a vote account by the ranking (0 when it is not ranked). *)
Definition entry_stake (l : list BLSPubkeyStakeEntry) (k : Pubkey) : Z :=
  match filter (fun e => en_vote_account_pubkey e = k) l with
  | [] => 0
  | e :: _ => en_stake e
  end.

Definition weight (w : Pubkey -> Z) (X : gset Z) : Z := sumZ (w <$> elements X).

(** What the pool needs from the stakes of an epoch: every rank has a positive
    stake, no vote account has two ranks, and the ranked stake is at most the
    total, which fits [u64]. *)
Class EpochStakesOk (es : VersionedEpochStakes) : Prop := {
  eso_positive : Forall (fun e => 0 < en_stake e) (sorted_pubkeys (es_rank_map es));
  eso_nodup : NoDup (en_vote_account_pubkey <$> sorted_pubkeys (es_rank_map es));
  eso_total : sumZ (en_stake <$> sorted_pubkeys (es_rank_map es)) <= es_total_stake es;
  eso_u64 : es_total_stake es <= u64_max;
}.

Section weight.
Context (w : Pubkey -> Z).

Lemma weight_empty : weight w ∅ = 0.
Proof. done. Qed.
Lemma weight_insert k X : k ∉ X -> weight w ({[k]} ∪ X) = w k + weight w X.
Proof. intros Hk. unfold weight. by rewrite elements_union_singleton. Qed.
Lemma weight_union X Y : X ## Y -> weight w (X ∪ Y) = weight w X + weight w Y.
Proof.
  intros HXY. unfold weight.
  rewrite elements_disj_union by done. by rewrite fmap_app, sumZ_app.
Qed.

Context (Hw : forall k, 0 <= w k).
Lemma weight_nonneg X : 0 <= weight w X.
Proof. apply sumZ_nonneg, Forall_fmap, Forall_true. exact Hw. Qed.
Lemma weight_mono X Y : X ⊆ Y -> weight w X <= weight w Y.
Proof.
  intros HXY. rewrite (union_difference_L X Y HXY), weight_union by set_solver.
  pose proof (weight_nonneg (Y ∖ X)). lia.
Qed.
End weight.

Lemma entry_stake_nonneg l k : Forall (fun e => 0 < en_stake e) l -> 0 <= entry_stake l k.
Proof.
  intros Hl. unfold entry_stake. destruct (filter _ l) as [|e ?] eqn:E; [done|].
  rewrite Forall_forall in Hl.
  assert (e ∈ filter (fun e => en_vote_account_pubkey e = k) l) as [_ He]%list_elem_of_filter
    by (rewrite E; by left).
  apply Hl in He. lia.
Qed.
Lemma entry_stake_elem l e :
  NoDup (en_vote_account_pubkey <$> l) -> e ∈ l -> entry_stake l (en_vote_account_pubkey e) = en_stake e.
Proof.
  intros Hnd He. unfold entry_stake. induction l as [|e' l IH]; [by apply elem_of_nil in He|].
  csimpl in *. apply NoDup_cons in Hnd as [Hn Hnd]. apply elem_of_cons in He as [->|He].
  - rewrite filter_cons_True by done. done.
  - rewrite filter_cons_False; [auto|]. intros Heq. apply Hn. rewrite Heq. by apply list_elem_of_fmap_2.
Qed.

(** The total weight of any set of ranked validators is at most the epoch's
    total stake. *)
Lemma weight_ranked es X :
  EpochStakesOk es ->
  X ⊆ list_to_set (en_vote_account_pubkey <$> sorted_pubkeys (es_rank_map es)) ->
  weight (entry_stake (sorted_pubkeys (es_rank_map es))) X <= es_total_stake es.
Proof.
  intros [Hpos Hnd Htot Hmax] HX. set (l := sorted_pubkeys (es_rank_map es)) in *.
  etransitivity; [apply weight_mono; [intros; by apply entry_stake_nonneg|exact HX]|].
  unfold weight. rewrite elements_list_to_set by done.
  assert (entry_stake l <$> (en_vote_account_pubkey <$> l) = en_stake <$> l) as ->; [|done].
  rewrite <-list_fmap_compose. apply list_fmap_ext. intros i e He. simpl.
  apply entry_stake_elem; [done|]. by eapply list_elem_of_lookup_2.
Qed.

(** The weight of a set as a sum over a set that contains it, and the double
    counting that follows: when each validator is in at most [n] of the sets
    [V b], their weights sum to at most [n] times the weight of the whole. *)
Lemma weight_restrict w X D :
  X ⊆ D -> weight w X = sumZ ((fun k => if decide (k ∈ X) then w k else 0) <$> elements D).
Proof.
  intros HX. unfold weight.
  rewrite (union_difference_L X D HX), elements_disj_union by set_solver.
  rewrite fmap_app, sumZ_app.
  rewrite (sumZ_fmap_ext (fun k => if decide (k ∈ X) then w k else 0) w (elements X))
    by (intros k Hk%elem_of_elements; case_decide; [done|set_solver]).
  rewrite (sumZ_fmap_ext (fun k => if decide (k ∈ X) then w k else 0) (fun _ => 0) (elements (D ∖ X)))
    by (intros k Hk%elem_of_elements; case_decide; [set_solver|done]).
  assert (forall l : list Z, sumZ ((fun _ => 0) <$> l) = 0) as -> by (induction l; csimpl; unfold sumZ in *; simpl; lia).
  lia.
Qed.

Lemma weight_double_count w (V : Z -> gset Z) D (n : nat) bs :
  (forall k, 0 <= w k) -> (forall b, b ∈ bs -> V b ⊆ D) ->
  (forall k, k ∈ D -> (length (filter (fun b => k ∈ V b) bs) <= n)%nat) ->
  sumZ ((fun b => weight w (V b)) <$> bs) <= Z.of_nat n * weight w D.
Proof.
  intros Hw HV Hn.
  rewrite (sumZ_fmap_ext _ (fun b => sumZ ((fun k => if decide (k ∈ V b) then w k else 0) <$> elements D)))
    by (intros b Hb; by apply weight_restrict, HV).
  rewrite sumZ_swap. unfold weight.
  transitivity (sumZ ((fun k => Z.of_nat n * w k) <$> elements D)).
  - apply sumZ_fmap_le. intros k Hk%elem_of_elements.
    rewrite (sumZ_indicator (fun b => k ∈ V b) (w k)). specialize (Hn k Hk). specialize (Hw k). nia.
  - clear. induction (elements D) as [|k l IH]; csimpl; unfold sumZ in *; simpl in *; lia.
Qed.

(** ** The ranking *)

Lemma insert_stable_perm {A} (le : A -> A -> bool) x l : insert_stable le x l ≡ₚ x :: l.
Proof.
  induction l as [|y l IH]; simpl; [done|]. destruct (le x y); [done|].
  rewrite IH. apply Permutation_swap.
Qed.
Lemma sort_by_perm {A} (le : A -> A -> bool) l : sort_by le l ≡ₚ l.
Proof. unfold sort_by. induction l as [|x l IH]; simpl; [done|]. by rewrite insert_stable_perm, IH. Qed.

Lemma sort_by_sorted {A} (le : A -> A -> bool) l :
  (forall x y, le x y = true \/ le y x = true) ->
  (forall x y z, le x y = true -> le y z = true -> le x z = true) ->
  StronglySorted (fun x y => le x y = true) (sort_by le l).
Proof.
  intros Htot Htrans. unfold sort_by. induction l as [|x l IH]; simpl; [constructor|].
  induction IH as [|y k Hk IHk HF]; simpl; [repeat constructor|].
  destruct (le x y) eqn:E.
  - constructor; [by constructor|]. constructor; [done|].
    eapply Forall_impl; [done|]. simpl. eauto.
  - constructor; [done|]. rewrite insert_stable_perm. constructor; [|done].
    destruct (Htot x y); congruence.
Qed.

Lemma rank_le_spec a b :
  rank_le a b = true <-> en_stake b.1 < en_stake a.1 \/ (en_stake b.1 = en_stake a.1 /\ a.2 <= b.2).
Proof.
  unfold rank_le. destruct (Z.compare_spec (en_stake b.1) (en_stake a.1));
    rewrite ?bool_decide_eq_true; naive_solver lia.
Qed.

Lemma rank_le_total a b : rank_le a b = true \/ rank_le b a = true.
Proof. rewrite !rank_le_spec. lia. Qed.

Section ranking.
Context (bls_deserialize : Z -> option Z) (bls_affine : Z -> option Z).
Abbreviation entries accounts := (omap (stake_entry_of bls_deserialize bls_affine) accounts).
Abbreviation ranked accounts := (sorted_pubkeys (rank_map_new bls_deserialize bls_affine accounts)).

Lemma rank_loop_sorted r l m :
  sorted_pubkeys (rank_loop r l m) = sorted_pubkeys m ++ l.*1.
Proof.
  revert r m. induction l as [|[e c] l IH]; intros r m; simpl; [by rewrite app_nil_r|].
  rewrite IH. simpl. by rewrite <-app_assoc.
Qed.

Lemma rank_loop_rank l : forall r m,
  NoDup (en_vote_account_pubkey <$> l.*1) ->
  (forall k, k ∉ en_vote_account_pubkey <$> l.*1 ->
     vote_pubkey_to_rank (rank_loop r l m) !! k = vote_pubkey_to_rank m !! k) /\
  (forall (i : nat) e, l.*1 !! i = Some e ->
     vote_pubkey_to_rank (rank_loop r l m) !! en_vote_account_pubkey e =
       Some ((r + Z.of_nat i) mod 2 ^ 16)).
Proof.
  induction l as [|[e c] l IH]; intros r m Hnd; csimpl in *; [done|].
  apply NoDup_cons in Hnd as [Hn Hnd].
  destruct (IH (r + 1) (mkRankMap (<[c := r mod 2 ^ 16]> (rank_map m))
    (<[en_vote_account_pubkey e := r mod 2 ^ 16]> (vote_pubkey_to_rank m))
    (sorted_pubkeys m ++ [e])) Hnd) as [Hout Hin]. split.
  - intros k [Hk1 Hk2]%not_elem_of_cons. rewrite Hout by done. simpl. by rewrite lookup_insert_ne.
  - intros [|i] e' He; simpl in He.
    + injection He as <-. rewrite Hout by done. simpl. by rewrite lookup_insert_eq, Z.add_0_r.
    + rewrite (Hin i e' He). do 2 f_equal. lia.
Qed.

Lemma ranked_perm accounts : ranked accounts ≡ₚ (entries accounts).*1.
Proof.
  unfold rank_map_new. rewrite rank_loop_sorted. simpl. by rewrite sort_by_perm.
Qed.

Lemma stake_entry_of_Some a e c :
  stake_entry_of bls_deserialize bls_affine a = Some (e, c) ->
  0 < en_stake e /\ en_vote_account_pubkey e = a.1 /\ en_stake e = a.2.1.
Proof.
  destruct a as [k [st acc]]. unfold stake_entry_of. case_bool_decide; [|done].
  intros Hx. inv_bind. destruct x0. inv_some. done.
Qed.

Lemma entries_spec accounts :
  NoDup accounts.*1 -> Forall (fun a => 0 <= a.2.1) accounts ->
  Forall (fun e => 0 < en_stake e) (entries accounts).*1 /\
  NoDup (en_vote_account_pubkey <$> (entries accounts).*1) /\
  (en_vote_account_pubkey <$> (entries accounts).*1) ⊆ accounts.*1 /\
  sumZ (en_stake <$> (entries accounts).*1) <= sumZ ((fun a => a.2.1) <$> accounts).
Proof.
  induction accounts as [|a l IH]; intros Hnd Hpos; csimpl in *; [repeat constructor; done|].
  apply NoDup_cons in Hnd as [Hn Hnd]. apply Forall_cons in Hpos as [Ha Hpos].
  destruct (IH Hnd Hpos) as (I1 & I2 & I3 & I4).
  destruct (stake_entry_of _ _ a) as [[e c]|] eqn:E; csimpl.
  - apply stake_entry_of_Some in E as (E1 & E2 & E3). split_and!.
    + by constructor.
    + constructor; [|done]. rewrite E2. intros Hin. by apply Hn, I3.
    + rewrite E2. set_solver.
    + unfold sumZ in *. lia.
  - split_and!; [done|done|set_solver|unfold sumZ in *; lia].
Qed.

Lemma parse_total accounts epoch :
  Forall (fun a => 0 <= a.2.1) accounts -> sumZ ((fun a => a.2.1) <$> accounts) <= u64_max ->
  (parse_epoch_vote_accounts accounts epoch).1.1 = sumZ ((fun a => a.2.1) <$> accounts).
Proof.
  intros Hpos Hmax. unfold parse_epoch_vote_accounts.
  assert (forall l acc, (foldl (parse_step epoch) acc l).1.1 =
    foldl wrapping_add acc.1.1 ((fun a : Z * (Z * VoteAccount) => a.2.1) <$> l)) as Hfold.
  { induction l as [|a l IH]; intros acc; [done|]. cbn [foldl fmap list_fmap]. rewrite IH. f_equal.
    destruct acc as [[tot nodes] voters], a as [k [st acc]]; simpl.
    case_bool_decide; [done|]. by destruct (va_authorized_voter acc epoch). }
  rewrite Hfold. simpl. rewrite wrapping_sum_acc; [lia|lia|by apply Forall_fmap|lia].
Qed.
End ranking.

(** Building the stakes of an epoch from the vote accounts establishes what
    the consensus pool relies on: every rank has a positive stake, no vote
    account is ranked twice, the ranked stake is at most the recorded total, and
    the total is the exact sum of the accounts' stakes. *)
Theorem epoch_stakes_new_ok bls_deserialize bls_affine (accounts : VoteAccounts) (epoch : Z)
    (Hkeys : NoDup accounts.*1) (Hpos : Forall (fun a => 0 <= a.2.1) accounts)
    (Hmax : sumZ ((fun a => a.2.1) <$> accounts) <= u64_max) :
  EpochStakesOk (epoch_stakes_new bls_deserialize bls_affine accounts epoch) /\
  es_total_stake (epoch_stakes_new bls_deserialize bls_affine accounts epoch) =
    sumZ ((fun a => a.2.1) <$> accounts).
Proof.
  pose proof (parse_total accounts epoch Hpos Hmax) as Htot.
  destruct (entries_spec bls_deserialize bls_affine accounts Hkeys Hpos) as (I1 & I2 & _ & I4).
  unfold epoch_stakes_new. destruct (parse_epoch_vote_accounts accounts epoch) as [[tot nodes] voters].
  simpl in *. subst tot. split; [|done].
  split; simpl; rewrite ?(ranked_perm bls_deserialize bls_affine accounts); done.
Qed.
Lemma epoch_stakes_new_ok_witness :
  EpochStakesOk (epoch_stakes_new Some Some
    [(1, (10, mkVoteAccount 1 (Some 5) (fun _ => None))); (2, (30, mkVoteAccount 2 (Some 6) (fun _ => Some 2)))] 0).
Proof.
  apply epoch_stakes_new_ok; [|repeat constructor; by vm_compute|by vm_compute].
  apply (bool_decide_unpack _). by vm_compute.
Defined.

(** The ranking: the entries are in order of decreasing stake, and rank and
    vote account are inverse lookups, as long as the ranks fit [u16]. *)
Theorem rank_round_trip bls_deserialize bls_affine (accounts : VoteAccounts) (i : nat) entry
    (Hkeys : NoDup accounts.*1) (Hpos : Forall (fun a => 0 <= a.2.1) accounts)
    (Hlen : Z.of_nat (length accounts) <= 2 ^ 16)
    (Hi : get_pubkey_stake_entry (rank_map_new bls_deserialize bls_affine accounts) (Z.of_nat i) = Some entry) :
  get_rank_for_vote_pubkey (rank_map_new bls_deserialize bls_affine accounts)
    (en_vote_account_pubkey entry) = Some (Z.of_nat i) /\
  forall (j : nat) entry',
    get_pubkey_stake_entry (rank_map_new bls_deserialize bls_affine accounts) (Z.of_nat j) = Some entry' ->
    (i <= j)%nat -> en_stake entry' <= en_stake entry.
Proof.
  set (l := sort_by rank_le (omap (stake_entry_of bls_deserialize bls_affine) accounts)).
  destruct (entries_spec bls_deserialize bls_affine accounts Hkeys Hpos) as (_ & I2 & _ & _).
  assert (NoDup (en_vote_account_pubkey <$> l.*1)) as Hnd by (unfold l; by rewrite sort_by_perm).
  assert (forall n, get_pubkey_stake_entry (rank_map_new bls_deserialize bls_affine accounts) (Z.of_nat n)
            = l.*1 !! n) as Hget.
  { intros n. unfold get_pubkey_stake_entry. rewrite bool_decide_true by lia.
    rewrite Nat2Z.id. unfold rank_map_new. by rewrite rank_loop_sorted. }
  rewrite Hget in Hi. split.
  - unfold get_rank_for_vote_pubkey, rank_map_new.
    rewrite (proj2 (rank_loop_rank l 0 (mkRankMap ∅ ∅ []) Hnd) i entry Hi). f_equal.
    apply Z.mod_small. apply lookup_lt_Some in Hi. rewrite length_fmap in Hi.
    assert (length l <= length accounts)%nat.
    { unfold l. rewrite sort_by_perm. apply omap_length_le. }
    lia.
  - intros j entry' Hj Hij. rewrite Hget in Hj.
    apply list_lookup_fmap_Some in Hi as (a & -> & Ha). apply list_lookup_fmap_Some in Hj as (b & -> & Hb).
    destruct (decide (i = j)) as [->|Hne]; [rewrite Ha in Hb; simplify_eq; lia|].
    assert (StronglySorted (fun x y => rank_le x y = true) l) as Hs.
    { apply sort_by_sorted; [apply rank_le_total|]. intros x y z. rewrite !rank_le_spec. lia. }
    assert (rank_le a b = true) as Hle.
    { clear -Hs Ha Hb Hij Hne. revert i j Ha Hb Hij Hne. induction Hs as [|x k Hk IH HF]; intros i j Ha Hb Hij Hne; [done|].
      destruct i as [|i], j as [|j]; simpl in *; simplify_eq; try lia.
      - rewrite Forall_forall in HF. apply HF. by eapply list_elem_of_lookup_2.
      - eapply IH; eauto; lia. }
    apply rank_le_spec in Hle. lia.
Qed.
Lemma rank_round_trip_witness :
  get_rank_for_vote_pubkey (rank_map_new Some Some
    [(1, (10, mkVoteAccount 1 (Some 5) (fun _ => None))); (2, (30, mkVoteAccount 2 (Some 6) (fun _ => Some 2)))])
    2 = Some 0.
Proof.
  refine (proj1 (rank_round_trip Some Some
    [(1, (10, mkVoteAccount 1 (Some 5) (fun _ => None))); (2, (30, mkVoteAccount 2 (Some 6) (fun _ => Some 2)))]
    0 (mkEntry 2 2 6 30) _ _ _ _)).
  - apply (bool_decide_unpack _). by vm_compute.
  - repeat constructor; by vm_compute.
  - by vm_compute.
  - by vm_compute.
Defined.
