(* ===== verification/VotePools.v ===== *)
(** * Vote pools

    [votor/src/consensus_pool/vote_pool.rs]: the two containers that count the
    stake of the votes of one type in one slot.  A simple pool counts one vote per
    validator; a duplicate-block pool counts, per block, the validators that voted
    for it, with a bound on the number of blocks per validator.  The theorems say
    that the totals are the weights of the sets of voters. *)

From S2P Require Import Prelude.
From S2P Require Import Messages.
From S2P Require Import EpochStakes.

(** ** State and operations *)

Record SimpleVotePool := mkSimple {
  sp_votes : list VoteMessage;
  sp_total_stake : Stake;
  sp_prev_voted_validators : gset Z;
}.

Definition simple_default : SimpleVotePool := mkSimple [] 0 ∅.

Definition simple_add_vote (p : SimpleVotePool) (validator_vote_key : Pubkey)
    (validator_stake : Stake) (vote : VoteMessage) : SimpleVotePool * option Stake :=
  if bool_decide (validator_vote_key ∈ sp_prev_voted_validators p) then (p, None)
  else
    let total := sp_total_stake p +s validator_stake in
    (mkSimple (sp_votes p ++ [vote]) total ({[validator_vote_key]} ∪ sp_prev_voted_validators p),
     Some total).

Definition simple_has_prev_validator_vote (p : SimpleVotePool) (k : Pubkey) : bool :=
  bool_decide (k ∈ sp_prev_voted_validators p).

Record VoteEntry := mkVoteEntry {
  ve_votes : list VoteMessage;
  ve_total_stake_by_key : Stake;
}.

Definition vote_entry_default : VoteEntry := mkVoteEntry [] 0.

Record DuplicateBlockVotePool := mkDup {
  dp_max_entries_per_pubkey : nat;
  dp_vote_entries : gmap Z VoteEntry;
  dp_prev_voted_block_ids : gmap Z (gset Z);
}.

Definition dup_new (max_entries_per_pubkey : nat) : DuplicateBlockVotePool :=
  mkDup max_entries_per_pubkey ∅ ∅.

(** [None] is the panic of [vote.vote.block_id().unwrap()]. *)
Definition dup_add_vote (p : DuplicateBlockVotePool) (validator_vote_key : Pubkey)
    (validator_stake : Stake) (vote : VoteMessage)
    : option (DuplicateBlockVotePool * option Stake) :=
  block_id ← vote_block_id (vm_vote vote);
  let prev := default ∅ (dp_prev_voted_block_ids p !! validator_vote_key) in
  if bool_decide (block_id ∈ prev) || bool_decide (dp_max_entries_per_pubkey p <= size prev)%nat then
    Some (mkDup (dp_max_entries_per_pubkey p) (dp_vote_entries p)
            (<[validator_vote_key := prev]> (dp_prev_voted_block_ids p)), None)
  else
    let entry := default vote_entry_default (dp_vote_entries p !! block_id) in
    let total := ve_total_stake_by_key entry +s validator_stake in
    Some (mkDup (dp_max_entries_per_pubkey p)
            (<[block_id := mkVoteEntry (ve_votes entry ++ [vote]) total]> (dp_vote_entries p))
            (<[validator_vote_key := {[block_id]} ∪ prev]> (dp_prev_voted_block_ids p)),
          Some total).

Definition total_stake_by_block_id (p : DuplicateBlockVotePool) (block_id : Hash) : Stake :=
  match dp_vote_entries p !! block_id with
  | None => 0
  | Some e => ve_total_stake_by_key e
  end.

Definition dup_votes (p : DuplicateBlockVotePool) (block_id : Hash) : option (list VoteMessage) :=
  ve_votes <$> dp_vote_entries p !! block_id.

Definition has_prev_validator_vote_for_block (p : DuplicateBlockVotePool) (k : Pubkey)
    (block_id : Hash) : bool :=
  match dp_prev_voted_block_ids p !! k with
  | None => false
  | Some vs => bool_decide (block_id ∈ vs)
  end.

Definition dup_has_prev_validator_vote (p : DuplicateBlockVotePool) (k : Pubkey) : bool :=
  match dp_prev_voted_block_ids p !! k with None => false | Some _ => true end.

Inductive VotePool :=
  | SimplePool (p : SimpleVotePool)
  | DupPool (p : DuplicateBlockVotePool).

(** The validators that voted for [b]. *)
Definition block_voters (p : DuplicateBlockVotePool) (b : Hash) : gset Z :=
  dom (filter (fun kv => b ∈ kv.2) (dp_prev_voted_block_ids p)).

Lemma elem_of_block_voters p b k :
  k ∈ block_voters p b <-> exists X, dp_prev_voted_block_ids p !! k = Some X /\ b ∈ X.
Proof.
  unfold block_voters. rewrite elem_of_dom. unfold is_Some.
  setoid_rewrite map_lookup_filter_Some. naive_solver.
Qed.
Lemma has_prev_for_block_spec p k b :
  has_prev_validator_vote_for_block p k b = true <-> k ∈ block_voters p b.
Proof.
  rewrite elem_of_block_voters. unfold has_prev_validator_vote_for_block.
  destruct (_ !! k) as [X|]; [rewrite bool_decide_eq_true|]; naive_solver.
Qed.

Lemma block_voters_insert p k X b :
  block_voters (mkDup (dp_max_entries_per_pubkey p) (dp_vote_entries p)
    (<[k := X]> (dp_prev_voted_block_ids p))) b =
  (if decide (b ∈ X) then {[k]} else ∅) ∪ (block_voters p b ∖ {[k]}).
Proof.
  apply set_eq. intros x. rewrite elem_of_union, elem_of_difference, !elem_of_block_voters; simpl.
  rewrite elem_of_singleton. destruct (decide (x = k)) as [->|Hne].
  - rewrite lookup_insert_eq. case_decide; set_solver.
  - rewrite lookup_insert_ne by done. case_decide; set_solver.
Qed.

Lemma dup_prev_spec p k b :
  b ∈ default ∅ (dp_prev_voted_block_ids p !! k) <-> k ∈ block_voters p b.
Proof.
  rewrite elem_of_block_voters. destruct (dp_prev_voted_block_ids p !! k) as [X|]; simpl; set_solver.
Qed.

(** The pool after a counted vote of [k] for [b]. *)
Definition dup_counted (w : Z -> Z) (p : DuplicateBlockVotePool) (k b : Z) (m : VoteMessage) : DuplicateBlockVotePool :=
  let e := default vote_entry_default (dp_vote_entries p !! b) in
  mkDup (dp_max_entries_per_pubkey p)
    (<[b := mkVoteEntry (ve_votes e ++ [m]) (ve_total_stake_by_key e +s w k)]> (dp_vote_entries p))
    (<[k := {[b]} ∪ default ∅ (dp_prev_voted_block_ids p !! k)]> (dp_prev_voted_block_ids p)).

Lemma dup_counted_voters w p k b m x :
  block_voters (dup_counted w p k b m) x =
  if decide (x = b) then {[k]} ∪ block_voters p b else block_voters p x.
Proof.
  change (block_voters (dup_counted w p k b m) x) with (block_voters (mkDup (dp_max_entries_per_pubkey p)
    (dp_vote_entries p) (<[k := {[b]} ∪ default ∅ (dp_prev_voted_block_ids p !! k)]>
    (dp_prev_voted_block_ids p))) x).
  rewrite block_voters_insert. apply set_eq. intros y. pose proof (dup_prev_spec p k x).
  destruct (decide (x = b)) as [->|]; case_decide; destruct (decide (y = k)) as [->|]; set_solver.
Qed.

(** ** Invariants *)

Section pools.
(** The ranked validators [K], their stakes [w], and the validator behind a
    rank; the total stake fits [u64]. *)
Context (K : gset Z) (w : Z -> Z) (key_of : Z -> option Z).

Definition msg_key (m : VoteMessage) : option Z := key_of (vm_rank m).

Record simple_ok (p : SimpleVotePool) : Prop := {
  so_keys : sp_prev_voted_validators p ⊆ K;
  so_total : sp_total_stake p = weight w (sp_prev_voted_validators p);
  so_votes : msg_key <$> sp_votes p ≡ₚ Some <$> elements (sp_prev_voted_validators p);
}.

Record dup_ok (p : DuplicateBlockVotePool) : Prop := {
  do_max : (1 <= dp_max_entries_per_pubkey p)%nat;
  do_keys : dom (dp_prev_voted_block_ids p) ⊆ K;
  do_size k X : dp_prev_voted_block_ids p !! k = Some X ->
                X <> ∅ /\ (size X <= dp_max_entries_per_pubkey p)%nat;
  do_total b : total_stake_by_block_id p b = weight w (block_voters p b);
  do_votes b : msg_key <$> default [] (dup_votes p b) ≡ₚ Some <$> elements (block_voters p b);
}.

Lemma simple_default_ok : simple_ok simple_default.
Proof. split; simpl; [set_solver|done|done]. Qed.
Lemma dup_new_ok n : (1 <= n)%nat -> dup_ok (dup_new n).
Proof.
  intros Hn. assert (forall b, block_voters (dup_new n) b = ∅) as E.
  { intros b. unfold block_voters. simpl. by rewrite map_filter_empty, dom_empty_L. }
  split; simpl; [done|set_solver|done| |]; intros b; rewrite E; done.
Qed.

Lemma block_voters_sub p b : dup_ok p -> block_voters p b ⊆ K.
Proof.
  intros Hp y. rewrite elem_of_block_voters. intros (X & HX & _). apply (do_keys p Hp), elem_of_dom. eauto.
Qed.

(** A refused vote finds the validator's set of blocks in place. *)
Lemma dup_refused_lookup p k b :
  dup_ok p ->
  let prev := default ∅ (dp_prev_voted_block_ids p !! k) in
  bool_decide (b ∈ prev) || bool_decide (dp_max_entries_per_pubkey p <= size prev)%nat = true ->
  dp_prev_voted_block_ids p !! k = Some prev.
Proof.
  intros Hp prev. unfold prev. destruct (dp_prev_voted_block_ids p !! k) as [X|] eqn:EX; [done|].
  cbn [default from_option]. rewrite orb_true_iff, !bool_decide_eq_true. pose proof (do_max p Hp).
  intros [Hb|Hb]; [set_solver|]. change (size (∅ : gset Z)) with 0%nat in Hb. lia.
Qed.

(** [dup_add_vote] counts the vote, or reports that it is a repeated or an
    excess vote and changes nothing. *)
Lemma dup_add_vote_cases p k m b :
  dup_ok p -> vote_block_id (vm_vote m) = Some b ->
  (dup_add_vote p k (w k) m = Some (p, None) /\
     (k ∈ block_voters p b \/
      (dp_max_entries_per_pubkey p <= size (default ∅ (dp_prev_voted_block_ids p !! k) : gset Z))%nat)) \/
  (dup_add_vote p k (w k) m =
     Some (dup_counted w p k b m, Some (total_stake_by_block_id (dup_counted w p k b m) b)) /\
   (k ∉ block_voters p b) /\
   (size (default ∅ (dp_prev_voted_block_ids p !! k) : gset Z) < dp_max_entries_per_pubkey p)%nat).
Proof.
  intros Hp Hb. unfold dup_add_vote. rewrite Hb. cbn [mbind option_bind].
  rewrite <-(dup_prev_spec p k b).
  destruct (bool_decide (b ∈ _) || _) eqn:E.
  - left. split; [|apply orb_true_iff in E; by rewrite !bool_decide_eq_true in E].
    apply dup_refused_lookup in E; [|done]. rewrite (insert_id _ _ _ E). by destruct p.
  - right. apply orb_false_iff in E. rewrite !bool_decide_eq_false in E. destruct E.
    split; [|split; [done|lia]]. unfold total_stake_by_block_id, dup_counted; simpl.
    by rewrite lookup_insert_eq.
Qed.

Context (Hw : forall k, 0 <= w k) (HK : weight w K <= u64_max).

Lemma weight_K_le X : X ⊆ K -> weight w X <= u64_max.
Proof using Hw HK. intros HX. pose proof (weight_mono w Hw X K HX). lia. Qed.

Lemma simple_add_vote_ok p k m :
  simple_ok p -> k ∈ K -> msg_key m = Some k ->
  simple_ok (simple_add_vote p k (w k) m).1.
Proof using Hw HK.
  intros [S1 S2 S3] Hk Hm. unfold simple_add_vote. case_bool_decide as Hin; [done|]. simpl.
  assert (weight w ({[k]} ∪ sp_prev_voted_validators p) <= u64_max) as Hle
    by (apply weight_K_le; set_solver).
  rewrite weight_insert in Hle by done. split; simpl.
  - set_solver.
  - rewrite weight_insert, sat_add_exact by (done || lia). lia.
  - rewrite fmap_app. simpl. rewrite Hm, S3, elements_union_singleton by done. csimpl.
    by rewrite Permutation_app_comm.
Qed.

Lemma dup_counted_total p k b m :
  dup_ok p -> k ∈ K -> k ∉ block_voters p b ->
  total_stake_by_block_id (dup_counted w p k b m) b = weight w (block_voters (dup_counted w p k b m) b).
Proof using Hw HK.
  intros Hp Hk Hkb. rewrite dup_counted_voters, decide_True by done.
  unfold total_stake_by_block_id, dup_counted; simpl. rewrite lookup_insert_eq; simpl.
  assert (ve_total_stake_by_key (default vote_entry_default (dp_vote_entries p !! b))
            = weight w (block_voters p b)) as ->.
  { rewrite <-(do_total p Hp). unfold total_stake_by_block_id. by destruct (_ !! b). }
  assert (weight w ({[k]} ∪ block_voters p b) <= u64_max) as Hle
    by (apply weight_K_le; pose proof (block_voters_sub p b Hp); set_solver).
  rewrite weight_insert in * by done. rewrite sat_add_exact by lia. lia.
Qed.

Lemma dup_counted_ok p k b m :
  dup_ok p -> k ∈ K -> msg_key m = Some k -> k ∉ block_voters p b ->
  (size (default ∅ (dp_prev_voted_block_ids p !! k) : gset Z) < dp_max_entries_per_pubkey p)%nat ->
  dup_ok (dup_counted w p k b m).
Proof using Hw HK.
  intros Hp Hk Hm Hkb Hsz. pose proof Hp as [D0 D1 D2 D3 D4]. split.
  - done.
  - simpl. rewrite dom_insert_L. set_solver.
  - simpl. intros k' X. rewrite lookup_insert. case_decide; [|apply D2]. intros [= <-].
    split; [set_solver|]. rewrite size_union_alt, size_singleton.
    pose proof (subseteq_size (default ∅ (dp_prev_voted_block_ids p !! k) ∖ {[b]})
      (default ∅ (dp_prev_voted_block_ids p !! k)) ltac:(set_solver)). lia.
  - intros x. destruct (decide (x = b)) as [->|Hx]; [by apply dup_counted_total|].
    rewrite dup_counted_voters, decide_False by done. rewrite <-D3.
    unfold total_stake_by_block_id; simpl. by rewrite lookup_insert_ne.
  - intros x. rewrite dup_counted_voters. unfold dup_votes; simpl.
    destruct (decide (x = b)) as [->|Hx]; [|by rewrite lookup_insert_ne; [apply D4|]].
    rewrite lookup_insert_eq; simpl. rewrite fmap_app; simpl.
    rewrite Hm, elements_union_singleton by done. csimpl. rewrite <-(D4 b), Permutation_app_comm.
    unfold dup_votes. by destruct (dp_vote_entries p !! b).
Qed.

Lemma dup_blocks_bound p k bs :
  dup_ok p -> NoDup bs -> (forall b, b ∈ bs -> k ∈ block_voters p b) ->
  (length bs <= dp_max_entries_per_pubkey p)%nat.
Proof using Type.
  clear Hw HK. intros Hp Hnd Hbs. destruct bs as [|b0 bs']; [simpl; lia|]. set (bs := b0 :: bs') in *.
  destruct (proj1 (elem_of_block_voters p b0 k) (Hbs b0 ltac:(by left))) as (X & HX & _).
  destruct (do_size p Hp k X HX) as [_ Hsz]. etransitivity; [|exact Hsz].
  rewrite <-(size_list_to_set (C := gset Z)) by done. apply subseteq_size. intros b Hb%elem_of_list_to_set.
  destruct (proj1 (elem_of_block_voters p b k) (Hbs b Hb)) as (X' & HX' & Hin). congruence.
Qed.
(** Each validator votes for at most [max_entries_per_pubkey] blocks, so the
    stakes of distinct blocks sum to at most that many times the voters' stake. *)
Lemma dup_double_count p bs :
  dup_ok p -> NoDup bs ->
  sumZ ((fun b => weight w (block_voters p b)) <$> bs) <=
  Z.of_nat (dp_max_entries_per_pubkey p) * weight w (dom (dp_prev_voted_block_ids p)).
Proof using Hw.
  intros Hp Hnd. apply weight_double_count; [done| |].
  - intros b _ k Hk. apply elem_of_block_voters in Hk as (X & HX & _). apply elem_of_dom. eauto.
  - intros k _. apply dup_blocks_bound with k; [done|by apply NoDup_filter|].
    intros b [Hb _]%list_elem_of_filter. done.
Qed.
Lemma dup_unique p k b b' :
  dup_ok p -> dp_max_entries_per_pubkey p = 1%nat ->
  k ∈ block_voters p b -> k ∈ block_voters p b' -> b = b'.
Proof using Type.
  clear Hw HK. intros Hp Hmax. rewrite !elem_of_block_voters. intros (X & HX & Hb) (X' & HX' & Hb').
  rewrite HX in HX'. injection HX' as <-. destruct (do_size p Hp k X HX) as [_ Hsz]. rewrite Hmax in Hsz.
  eapply (size_singleton_inv X); [|done|done]. pose proof (size_non_empty_iff X). destruct (decide (size X = 0%nat)); [|lia].
  apply size_empty_inv in e. set_solver.
Qed.
End pools.
