(* ===== verification/Migration.v ===== *)
(** * Migration from TowerBFT to Alpenglow

    [votor-messages/src/migration.rs]: the five phases of the migration, the
    queries the validator's threads make of the phase, and the operations that
    move it on.  An operation that holds the phase lock throughout is one step;
    [wait_for_migration_or_exit], [enable_alpenglow], the shutdown of [PohService]
    and [enable_alpenglow_during_startup] take a lock several times or use atomics
    outside it, so each is a sequence of steps, one per lock section or atomic
    access, that interleave with those of the other threads. *)

From S2P Require Import Prelude.
From S2P Require Import Messages.

(** ** Phases *)

Inductive MigrationPhase :=
  | PreFeatureActivation
  | Migrating (migration_slot : Slot) (genesis_block : option Block)
      (genesis_cert : option Certificate)
  | ReadyToEnable (genesis_cert : Certificate)
  | AlpenglowEnabled (genesis_cert : Certificate)
  | FullAlpenglowEpoch (full_alpenglow_epoch : Z) (genesis_cert : Certificate).

Definition is_pre_feature_activation (p : MigrationPhase) : bool :=
  match p with PreFeatureActivation => true | _ => false end.
Definition is_in_migration (p : MigrationPhase) : bool :=
  match p with Migrating _ _ _ => true | _ => false end.
Definition is_ready_to_enable (p : MigrationPhase) : bool :=
  match p with ReadyToEnable _ => true | _ => false end.
Definition is_alpenglow_enabled (p : MigrationPhase) : bool :=
  match p with AlpenglowEnabled _ | FullAlpenglowEpoch _ _ => true | _ => false end.
Definition is_full_alpenglow_epoch (p : MigrationPhase) : bool :=
  match p with FullAlpenglowEpoch _ _ => true | _ => false end.

Definition is_alpenglow_block (p : MigrationPhase) (slot : Slot) : bool :=
  match p with
  | PreFeatureActivation | Migrating _ _ _ | ReadyToEnable _ => false
  | AlpenglowEnabled genesis_cert => bool_decide (cert_slot (cert_type genesis_cert) < slot)
  | FullAlpenglowEpoch _ _ => true
  end.

Definition qualifies_for_genesis_discovery (p : MigrationPhase) (slot : Slot) : bool :=
  match p with
  | Migrating migration_slot genesis_block _ =>
    bool_decide (genesis_block = None) && bool_decide (migration_slot < slot)
  | _ => false
  end.

Definition should_bank_be_vote_only (p : MigrationPhase) (bank_slot : Slot) : bool :=
  match p with
  | PreFeatureActivation => false
  | Migrating migration_slot _ _ => bool_decide (migration_slot <= bank_slot)
  | ReadyToEnable _ => true
  | AlpenglowEnabled _ | FullAlpenglowEpoch _ _ => false
  end.

Definition should_report_commitment_or_root (p : MigrationPhase) (slot : Slot) : bool :=
  match p with
  | PreFeatureActivation => true
  | Migrating migration_slot _ _ => bool_decide (slot < migration_slot)
  | ReadyToEnable _ | AlpenglowEnabled _ | FullAlpenglowEpoch _ _ => false
  end.

Definition should_root_during_startup (p : MigrationPhase) (slot : Slot) : bool :=
  match p with
  | PreFeatureActivation => true
  | Migrating migration_slot _ _ => bool_decide (slot < migration_slot)
  | ReadyToEnable _ | AlpenglowEnabled _ | FullAlpenglowEpoch _ _ => true
  end.

Definition should_publish_epoch_slots (p : MigrationPhase) (slot : Slot) : bool :=
  match p with
  | PreFeatureActivation | Migrating _ _ _ | ReadyToEnable _ => true
  | AlpenglowEnabled genesis_cert => bool_decide (slot <= cert_slot (cert_type genesis_cert))
  | FullAlpenglowEpoch _ _ => false
  end.

Definition should_send_votor_event := is_alpenglow_block.
Definition should_respond_to_ancestor_hashes_requests := should_publish_epoch_slots.
Definition should_have_alpenglow_ticks := is_alpenglow_block.
Definition should_allow_block_markers := is_alpenglow_block.
Definition should_use_double_merkle_block_id := is_alpenglow_block.
Definition should_allow_fast_leader_handover := is_alpenglow_block.

(** ** Status *)

(** [ms_migration_wait] is the boolean under [migration_wait]'s mutex. *)
Record MigrationStatus := mkMigrationStatus {
  ms_my_pubkey : Pubkey;
  ms_shutdown_poh : bool;
  ms_poh_service_started : bool;
  ms_phase : MigrationPhase;
  ms_migration_wait : bool;
}.

(** The offset of a build without [dev-context-only-utils]. *)
Definition MIGRATION_SLOT_OFFSET : Z := 5000.

Definition status_new (phase : MigrationPhase) : MigrationStatus :=
  let e := is_alpenglow_enabled phase in mkMigrationStatus 0 e false phase e.

Definition with_phase (ms : MigrationStatus) (p : MigrationPhase) : MigrationStatus :=
  mkMigrationStatus (ms_my_pubkey ms) (ms_shutdown_poh ms) (ms_poh_service_started ms) p
    (ms_migration_wait ms).
Definition with_shutdown_poh (ms : MigrationStatus) : MigrationStatus :=
  mkMigrationStatus (ms_my_pubkey ms) true (ms_poh_service_started ms) (ms_phase ms)
    (ms_migration_wait ms).
Definition with_migration_wait (ms : MigrationStatus) : MigrationStatus :=
  mkMigrationStatus (ms_my_pubkey ms) (ms_shutdown_poh ms) (ms_poh_service_started ms)
    (ms_phase ms) true.

(** [get_epoch] is [EpochSchedule::get_epoch], of an external crate. *)
Definition initialize (get_epoch : Slot -> Z) (root_epoch : Z) (ff_activation_slot : option Slot)
    (genesis_cert : option Certificate) : option MigrationStatus :=
  match genesis_cert, ff_activation_slot with
  | None, None => Some (status_new PreFeatureActivation)
  | None, Some activation_slot =>
    Some (status_new (Migrating (activation_slot +s MIGRATION_SLOT_OFFSET) None None))
  | Some cert, Some activation_slot =>
    let migration_epoch := get_epoch activation_slot in
    Some (status_new
      (if bool_decide (migration_epoch < root_epoch)
       then FullAlpenglowEpoch (migration_epoch +s 1) cert
       else AlpenglowEnabled cert))
  | Some _, None => None
  end.

Definition set_pubkey (ms : MigrationStatus) (k : Pubkey) : MigrationStatus :=
  mkMigrationStatus k (ms_shutdown_poh ms) (ms_poh_service_started ms) (ms_phase ms)
    (ms_migration_wait ms).
Definition set_poh_service_started (ms : MigrationStatus) : MigrationStatus :=
  mkMigrationStatus (ms_my_pubkey ms) (ms_shutdown_poh ms) true (ms_phase ms)
    (ms_migration_wait ms).

Definition record_feature_activation (ms : MigrationStatus) (slot : Slot)
    : option (MigrationStatus * Slot) :=
  rust_assert (is_pre_feature_activation (ms_phase ms));;
  let migration_slot := slot +s MIGRATION_SLOT_OFFSET in
  Some (with_phase ms (Migrating migration_slot None None), migration_slot).

Definition migration_slot_of (ms : MigrationStatus) : option Slot :=
  match ms_phase ms with Migrating s _ _ => Some s | _ => None end.
Definition eligible_genesis_block (ms : MigrationStatus) : option Block :=
  match ms_phase ms with Migrating _ b _ => b | _ => None end.

Definition set_genesis_block (ms : MigrationStatus) (discovered : Block)
    : option MigrationStatus :=
  rust_assert (negb (is_pre_feature_activation (ms_phase ms)));;
  match ms_phase ms with
  | Migrating migration_slot genesis_block genesis_cert =>
    rust_assert (match genesis_block with
                 | Some prev => bool_decide (prev = discovered)
                 | None => true
                 end);;
    rust_assert (bool_decide (discovered.1 < migration_slot));;
    match genesis_cert with
    | None => Some (with_phase ms (Migrating migration_slot (Some discovered) None))
    | Some cert =>
      match cert_type cert with
      | CGenesis slot block_id =>
        rust_assert (bool_decide (discovered = (slot, block_id)));;
        Some (with_phase ms (ReadyToEnable cert))
      | _ => None
      end
    end
  | _ => Some ms
  end.

Definition set_genesis_certificate (ms : MigrationStatus) (cert : Certificate)
    : option MigrationStatus :=
  rust_assert (negb (is_pre_feature_activation (ms_phase ms)));;
  match ms_phase ms with
  | Migrating migration_slot genesis_block _ =>
    match cert_type cert with
    | CGenesis slot block_id =>
      rust_assert (bool_decide (slot < migration_slot));;
      match genesis_block with
      | None => Some (with_phase ms (Migrating migration_slot None (Some cert)))
      | Some block =>
        rust_assert (bool_decide (block = (slot, block_id)));;
        Some (with_phase ms (ReadyToEnable cert))
      end
    | _ => None
    end
  | _ => Some ms
  end.

Definition alpenglow_rooted_new_epoch (ms : MigrationStatus) (full_alpenglow_epoch : Z)
    : option MigrationStatus :=
  match ms_phase ms with
  | AlpenglowEnabled genesis_cert =>
    Some (with_phase ms (FullAlpenglowEpoch full_alpenglow_epoch genesis_cert))
  | _ => None
  end.

Definition genesis_certificate (ms : MigrationStatus) : option Certificate :=
  match ms_phase ms with
  | PreFeatureActivation | Migrating _ _ _ => None
  | ReadyToEnable c | AlpenglowEnabled c | FullAlpenglowEpoch _ c => Some c
  end.

(** The outer option is the panic of [expect]. *)
Definition genesis_block (ms : MigrationStatus) : option (option Block) :=
  match genesis_certificate ms with
  | None => Some None
  | Some cert => b ← to_block (cert_type cert); Some (Some b)
  end.

(** ** Operations of several steps

    An operation that takes a lock more than once, or touches an atomic outside
    it, is a function from where its thread stands to where it stands next: one
    call is one lock section or one atomic access, [None] is a panic. *)

(** [wait_for_migration_or_exit]: a round of the loop looks at the exit flag and
    at the boolean under the mutex of the condition variable; once that is set,
    [genesis_block] takes the phase lock. *)
Inductive wait_pc := WtLoop | WtWoken | WtReturned (b : option Block).

Definition wait_for_migration_or_exit (ms : MigrationStatus) (exit : bool) (at_ : wait_pc)
    : option wait_pc :=
  match at_ with
  | WtLoop =>
    if exit then Some (WtReturned None)
    else if ms_migration_wait ms then Some WtWoken
    else Some WtLoop
  | WtWoken => b ← genesis_block ms; b ← b; Some (WtReturned (Some b))
  | WtReturned b => Some (WtReturned b)
  end.

(** [enable_alpenglow]: the assertion under the read lock, the store of
    [shutdown_poh], the wait. *)
Inductive enable_pc := EnCheck | EnStore | EnWait (w : wait_pc).

Definition enable_alpenglow (ms : MigrationStatus) (exit : bool) (at_ : enable_pc)
    : option (MigrationStatus * enable_pc) :=
  match at_ with
  | EnCheck => rust_assert (is_ready_to_enable (ms_phase ms));; Some (ms, EnStore)
  | EnStore => Some (with_shutdown_poh ms, EnWait WtLoop)
  | EnWait w => w' ← wait_for_migration_or_exit ms exit w; Some (ms, EnWait w')
  end.

(** [poh_service_is_shutting_down]: the phase is cloned under the read lock,
    written under the write lock, then the waiters are released. *)
Definition poh_shutdown_read (ms : MigrationStatus) : option Certificate :=
  match ms_phase ms with ReadyToEnable genesis_cert => Some genesis_cert | _ => None end.
Definition poh_shutdown_write (ms : MigrationStatus) (genesis_cert : Certificate)
    : MigrationStatus := with_phase ms (AlpenglowEnabled genesis_cert).
Definition poh_shutdown_notify (ms : MigrationStatus) : MigrationStatus :=
  with_migration_wait ms.

(** [PohService::new] and the thread it spawns, as far as they concern the
    migration: it marks itself started, does not run when Alpenglow is enabled
    already, and when it ends because [shutdown_poh] is set it calls
    [poh_service_is_shutting_down]; [poh_exit] is the validator's exit, or that the
    block creation loop, which takes over its records, is gone. *)
Inductive poh_pc :=
  | PohNotStarted | PohStarted | PohRunning | PohStopping
  | PohRead (c : Certificate) | PohWritten | PohDone.

Definition poh_service (ms : MigrationStatus) (poh_exit : bool) (at_ : poh_pc)
    : option (MigrationStatus * poh_pc) :=
  match at_ with
  | PohNotStarted => Some (set_poh_service_started ms, PohStarted)
  | PohStarted => Some (ms, if is_alpenglow_enabled (ms_phase ms) then PohDone else PohRunning)
  | PohRunning =>
    Some (ms, if poh_exit then PohDone else if ms_shutdown_poh ms then PohStopping else PohRunning)
  | PohStopping => genesis_cert ← poh_shutdown_read ms; Some (ms, PohRead genesis_cert)
  | PohRead genesis_cert => Some (poh_shutdown_write ms genesis_cert, PohWritten)
  | PohWritten => Some (poh_shutdown_notify ms, PohDone)
  | PohDone => Some (ms, PohDone)
  end.

(** [enable_alpenglow_during_startup]: the phase is cloned under the read lock and
    the lock released; [poh_service_started] is loaded; then either
    [enable_alpenglow] runs with an exit flag that is never set, or the three
    writes follow one by one. *)
Inductive startup_pc :=
  | StIdle
  | StRead (c : Certificate)
  | StFull (c : Certificate) (e : enable_pc)
  | StAlone (c : Certificate)
  | StShut (c : Certificate)
  | StWritten (c : Certificate)
  | StReturned (genesis_slot : Slot).

Definition enable_alpenglow_during_startup (ms : MigrationStatus) (at_ : startup_pc)
    : option (MigrationStatus * startup_pc) :=
  match at_ with
  | StIdle =>
    match ms_phase ms with
    | ReadyToEnable genesis_cert => Some (ms, StRead genesis_cert)
    | _ => None
    end
  | StRead c => Some (ms, if ms_poh_service_started ms then StFull c EnCheck else StAlone c)
  | StFull c (EnWait (WtReturned _)) => Some (ms, StReturned (cert_slot (cert_type c)))
  | StFull c e => '(ms', e') ← enable_alpenglow ms false e; Some (ms', StFull c e')
  | StAlone c => Some (with_shutdown_poh ms, StShut c)
  | StShut c => Some (with_phase ms (AlpenglowEnabled c), StWritten c)
  | StWritten c => Some (with_migration_wait ms, StReturned (cert_slot (cert_type c)))
  | StReturned slot => Some (ms, StReturned slot)
  end.

(** ** The threads

    The status the threads share, and where [PohService], the startup and the
    replay stage stand in the operations above. *)
Record system := mkSystem {
  sys : MigrationStatus;
  poh : poh_pc;
  startup : startup_pc;
  replay : enable_pc;
}.

Definition startup_busy (st : startup_pc) : bool :=
  match st with StIdle | StReturned _ => false | _ => true end.

(** The operations that are one section under the phase lock. *)
Inductive phase_step (ms ms' : MigrationStatus) : Prop :=
  | step_activate slot s : record_feature_activation ms slot = Some (ms', s) -> phase_step ms ms'
  | step_block b : set_genesis_block ms b = Some ms' -> phase_step ms ms'
  | step_cert c : set_genesis_certificate ms c = Some ms' -> phase_step ms ms'
  | step_epoch e : alpenglow_rooted_new_epoch ms e = Some ms' -> phase_step ms ms'.

(** A transition is a step of one thread that did not panic.  With [serial] the
    startup and [PohService::new] run one after the other, as they do in
    [Validator::new], whose thread calls both; without it they interleave too.
    The atomics are sequentially consistent. *)
Inductive step (serial : bool) : system -> system -> Prop :=
  | step_phase ms p st r ms' :
      phase_step ms ms' -> step serial (mkSystem ms p st r) (mkSystem ms' p st r)
  | step_replay ms p st r exit ms' r' :
      enable_alpenglow ms exit r = Some (ms', r') ->
      step serial (mkSystem ms p st r) (mkSystem ms' p st r')
  | step_poh ms p st r exit ms' p' :
      (p = PohNotStarted -> serial = true -> startup_busy st = false) ->
      poh_service ms exit p = Some (ms', p') ->
      step serial (mkSystem ms p st r) (mkSystem ms' p' st r)
  | step_startup ms p st r ms' st' :
      enable_alpenglow_during_startup ms st = Some (ms', st') ->
      step serial (mkSystem ms p st r) (mkSystem ms' p st' r).

(** How far the migration is. *)
Definition phase_index (p : MigrationPhase) : Z :=
  match p with
  | PreFeatureActivation => 0 | Migrating _ _ _ => 1 | ReadyToEnable _ => 2
  | AlpenglowEnabled _ => 3 | FullAlpenglowEpoch _ _ => 4
  end.

Definition is_genesis_cert (c : Certificate) : Prop := is_genesis (cert_type c) = true.

(** The certificate in a phase is a genesis certificate; during the migration it
    is for a slot before the migration slot, and a block and a certificate
    are never both there unmatched. *)
Definition phase_ok (p : MigrationPhase) : Prop :=
  match p with
  | PreFeatureActivation => True
  | Migrating s b c =>
    (forall b', b = Some b' -> b'.1 < s) /\
    (forall c', c = Some c' -> is_genesis_cert c' /\ cert_slot (cert_type c') < s) /\
    (b = None \/ c = None)
  | ReadyToEnable c | AlpenglowEnabled c | FullAlpenglowEpoch _ c => is_genesis_cert c
  end.

(** What holds of the status alone. *)
Record status_ok (ms : MigrationStatus) : Prop := {
  so_phase : phase_ok (ms_phase ms);
  so_wait : ms_migration_wait ms = true -> is_alpenglow_enabled (ms_phase ms) = true;
  so_shutdown : ms_shutdown_poh ms = true -> is_Some (genesis_certificate ms);
}.

(** What never is taken back. *)
Record status_le (ms ms' : MigrationStatus) : Prop := {
  le_cert c : genesis_certificate ms = Some c -> genesis_certificate ms' = Some c;
  le_enabled : is_alpenglow_enabled (ms_phase ms) = true -> is_alpenglow_enabled (ms_phase ms') = true;
  le_wait : ms_migration_wait ms = true -> ms_migration_wait ms' = true;
  le_shutdown : ms_shutdown_poh ms = true -> ms_shutdown_poh ms' = true;
  le_started : ms_poh_service_started ms = true -> ms_poh_service_started ms' = true;
}.

(** What a thread knows at each point; it stays true whatever the others do. *)
Definition enable_knows (ms : MigrationStatus) (e : enable_pc) : Prop :=
  match e with
  | EnStore => is_Some (genesis_certificate ms)
  | EnWait WtWoken => ms_migration_wait ms = true
  | _ => True
  end.
Definition poh_knows (ms : MigrationStatus) (p : poh_pc) : Prop :=
  (p <> PohNotStarted -> ms_poh_service_started ms = true) /\
  match p with
  | PohStopping => ms_shutdown_poh ms = true
  | PohRead c => genesis_certificate ms = Some c
  | PohWritten => is_alpenglow_enabled (ms_phase ms) = true
  | _ => True
  end.
Definition startup_knows (ms : MigrationStatus) (st : startup_pc) : Prop :=
  match st with
  | StRead c | StAlone c | StShut c => genesis_certificate ms = Some c
  | StFull c e => ms_poh_service_started ms = true /\ enable_knows ms e
  | StWritten c => is_alpenglow_enabled (ms_phase ms) = true
  | _ => True
  end.

(** With the startup and [PohService::new] in one thread: the startup writes the
    phase itself only before [PohService] starts, and Alpenglow is not enabled
    while one of the two is about to do it. *)
Record serial_ok (s : system) : Prop := {
  se_alone : match startup s with StAlone _ | StShut _ | StWritten _ => poh s = PohNotStarted | _ => True end;
  se_started : ms_poh_service_started (sys s) = true -> poh s <> PohNotStarted;
  se_startup : match startup s with
               | StRead _ | StAlone _ | StShut _ =>
                 poh s = PohNotStarted -> is_alpenglow_enabled (ms_phase (sys s)) = false
               | _ => True
               end;
  se_poh : match poh s with
           | PohRunning | PohStopping | PohRead _ => is_alpenglow_enabled (ms_phase (sys s)) = false
           | _ => True
           end;
}.

Record sys_ok (serial : bool) (s : system) : Prop := {
  sk_status : status_ok (sys s);
  sk_poh : poh_knows (sys s) (poh s);
  sk_startup : startup_knows (sys s) (startup s);
  sk_replay : enable_knows (sys s) (replay s);
  sk_serial : serial = true -> serial_ok s;
}.
Lemma set_genesis_block_phase ms b ms' :
  phase_ok (ms_phase ms) -> set_genesis_block ms b = Some ms' ->
  ms' = with_phase ms (ms_phase ms') /\ phase_ok (ms_phase ms') /\
  (ms_phase ms' = ms_phase ms \/
   exists s bo co, ms_phase ms = Migrating s bo co /\
     (ms_phase ms' = Migrating s (Some b) None \/ exists c, ms_phase ms' = ReadyToEnable c)).
Proof.
  destruct ms as [k sh st ph w]. unfold set_genesis_block; simpl. intros Hok H. inv_bind.
  destruct ph as [|s bo co| | |]; inv_some; simpl in *; try by eauto.
  inv_bind. to_prop. destruct Hok as (O1 & O2 & O3).
  destruct co as [c|].
  - destruct (O2 c eq_refl) as [Hg _]. destruct (cert_type c) eqn:Ec; try done. inv_bind. inv_some.
    split_and!; simpl; [done|done|]. right. exists s, bo, (Some c). eauto.
  - inv_some. simpl. split; [done|split; [|right; eauto 10]].
    split_and!; [|done|by right]. intros b' [= <-]. done.
Qed.

Lemma set_genesis_certificate_phase ms c ms' :
  phase_ok (ms_phase ms) -> set_genesis_certificate ms c = Some ms' ->
  ms' = with_phase ms (ms_phase ms') /\ phase_ok (ms_phase ms') /\
  (ms_phase ms' = ms_phase ms \/
   exists s bo co, ms_phase ms = Migrating s bo co /\
     (ms_phase ms' = Migrating s None (Some c) \/ ms_phase ms' = ReadyToEnable c)).
Proof.
  destruct ms as [k sh st ph w]. unfold set_genesis_certificate; simpl. intros Hok H. inv_bind.
  destruct ph as [|s bo co| | |]; inv_some; simpl in *; try by eauto.
  destruct Hok as (O1 & O2 & O3). destruct (cert_type c) eqn:Ec; try done. inv_bind. to_prop.
  assert (is_genesis_cert c) by (unfold is_genesis_cert; by rewrite Ec).
  destruct bo as [b|]; inv_bind; inv_some; simpl.
  - split_and!; [done|done|right; eauto 10].
  - split; [done|split; [|right; eauto 10]]. split_and!; [done| |by left].
    intros c' [= <-]. split; [done|]. by rewrite Ec.
Qed.

(** ** The status only moves forward *)

#[global] Instance status_le_preorder : PreOrder status_le.
Proof. split; [by intros ms|]. intros x y z [? ? ? ? ?] [? ? ? ? ?]. split; eauto. Qed.

Lemma le_cert_some ms ms' :
  status_le ms ms' -> is_Some (genesis_certificate ms) -> is_Some (genesis_certificate ms').
Proof. intros Hle [c Hc]. exists c. by apply (le_cert _ _ Hle). Qed.

Lemma enable_knows_mono ms ms' e : status_le ms ms' -> enable_knows ms e -> enable_knows ms' e.
Proof.
  intros Hle. destruct e as [| |w]; simpl; intros H; [done|by eapply le_cert_some|].
  destruct w; simpl in *; [done|by apply (le_wait _ _ Hle)|done].
Qed.
Lemma poh_knows_mono ms ms' p : status_le ms ms' -> poh_knows ms p -> poh_knows ms' p.
Proof.
  intros [L1 L2 L3 L4 L5] [K1 K2]. split; [by auto|].
  destruct p; simpl in *; auto.
Qed.
Lemma startup_knows_mono ms ms' st : status_le ms ms' -> startup_knows ms st -> startup_knows ms' st.
Proof.
  intros Hle H. destruct st; simpl in *; try done; try by eapply Hle.
  destruct H. split; [by apply (le_started _ _ Hle)|by eapply enable_knows_mono].
Qed.

(** What a section under the phase lock does to the status. *)
Lemma phase_step_status ms ms' :
  phase_ok (ms_phase ms) -> phase_step ms ms' ->
  ms' = with_phase ms (ms_phase ms') /\ phase_ok (ms_phase ms') /\
  (forall c, genesis_certificate ms = Some c -> genesis_certificate ms' = Some c) /\
  is_alpenglow_enabled (ms_phase ms') = is_alpenglow_enabled (ms_phase ms) /\
  phase_index (ms_phase ms) <= phase_index (ms_phase ms').
Proof.
  intros Hok Hs. unfold genesis_certificate. destruct Hs as [slot s H|b H|c H|e H].
  - unfold record_feature_activation in H. inv_bind. destruct ms as [k sh st ph w]; simpl in *.
    destruct ph; try done. split; [done|split; [naive_solver|]]. split_and!; [done|done|simpl; lia].
  - destruct (set_genesis_block_phase _ _ _ Hok H) as (E & O & HP). do 2 (split; [done|]).
    destruct HP as [->|(x & bo & co & -> & [HP'|[c HP']])]; rewrite ?HP'; simpl; (split_and!; [done|done|lia]).
  - destruct (set_genesis_certificate_phase _ _ _ Hok H) as (E & O & HP). do 2 (split; [done|]).
    destruct HP as [->|(x & bo & co & -> & [HP'|HP'])]; rewrite ?HP'; simpl; (split_and!; [done|done|lia]).
  - unfold alpenglow_rooted_new_epoch in H. destruct ms as [k sh st ph w]; simpl in *.
    destruct ph; try done. inv_some. simpl. split_and!; [done|done|done|done|lia].
Qed.

Lemma phase_step_le ms ms' :
  status_ok ms -> phase_step ms ms' -> status_ok ms' /\ status_le ms ms'.
Proof.
  intros [O1 O2 O3] Hs. destruct (phase_step_status _ _ O1 Hs) as (E & P & Hc & He & _).
  assert (status_le ms ms') as Hle.
  { split; [done|by rewrite He|by rewrite E..]. }
  split; [|done]. split; [done|rewrite He; by rewrite E in *|].
  intros Hsh. apply (le_cert_some ms ms' Hle), O3. by rewrite E in Hsh.
Qed.

Lemma with_shutdown_poh_le ms :
  status_ok ms -> is_Some (genesis_certificate ms) ->
  status_ok (with_shutdown_poh ms) /\ status_le ms (with_shutdown_poh ms).
Proof. by intros [? ? ?] ?. Qed.
Lemma with_migration_wait_le ms :
  status_ok ms -> is_alpenglow_enabled (ms_phase ms) = true ->
  status_ok (with_migration_wait ms) /\ status_le ms (with_migration_wait ms).
Proof. by intros [? ? ?] ?. Qed.
Lemma set_poh_service_started_le ms :
  status_ok ms -> status_ok (set_poh_service_started ms) /\ status_le ms (set_poh_service_started ms).
Proof. by intros [? ? ?]. Qed.
Lemma write_enabled_le ms c :
  status_ok ms -> genesis_certificate ms = Some c ->
  status_ok (with_phase ms (AlpenglowEnabled c)) /\ status_le ms (with_phase ms (AlpenglowEnabled c)).
Proof.
  destruct ms as [k sh st ph w]. intros [O1 O2 O3] Hc. unfold genesis_certificate in Hc; simpl in *.
  assert (phase_ok (AlpenglowEnabled c)) by (by destruct ph; simplify_eq).
  split; split; try done. unfold genesis_certificate; simpl.
  intros c'. destruct ph; naive_solver.
Qed.

(** [enable_alpenglow] writes only [shutdown_poh]. *)
Lemma enable_alpenglow_ok ms exit e ms' e' :
  status_ok ms -> enable_knows ms e -> enable_alpenglow ms exit e = Some (ms', e') ->
  status_ok ms' /\ status_le ms ms' /\ enable_knows ms' e' /\
  ms_phase ms' = ms_phase ms /\ ms_poh_service_started ms' = ms_poh_service_started ms.
Proof.
  intros Ho Hk H. destruct e as [| |w]; simpl in *.
  - destruct (ms_phase ms) eqn:Ep; try done. simpl in H. inv_some. split_and!; [done|done| |done..].
    simpl. unfold genesis_certificate. rewrite Ep. eauto.
  - inv_some. destruct (with_shutdown_poh_le _ Ho Hk). done.
  - inv_bind. split_and!; [done|done| |done..].
    destruct w; simpl in *; [|inv_bind; done|by simplify_eq].
    destruct exit; [by simplify_eq|]. destruct (ms_migration_wait _) eqn:Ew; by simplify_eq.
Qed.

Lemma poh_service_ok ms exit p ms' p' :
  status_ok ms -> poh_knows ms p -> poh_service ms exit p = Some (ms', p') ->
  status_ok ms' /\ status_le ms ms' /\ poh_knows ms' p'.
Proof.
  intros Ho [K1 K2] H. destruct p as [| | | |c| |]; simpl in *; inv_bind; inv_some.
  - destruct (set_poh_service_started_le _ Ho). by split_and!.
  - split_and!; [done|done|]. split; [by auto|]. by destruct (is_alpenglow_enabled _).
  - split_and!; [done|done|]. split; [by auto|]. destruct exit; [done|].
    by destruct (ms_shutdown_poh _) eqn:Esh.
  - split_and!; [done|done|]. split; [by auto|]. unfold poh_shutdown_read, genesis_certificate in *.
    by destruct (ms_phase _); simplify_eq.
  - destruct (write_enabled_le _ _ Ho K2). split_and!; [done|done|]. split; [|done]. intros _. by apply K1.
  - destruct (with_migration_wait_le _ Ho K2). split_and!; [done|done|]. split; [|done]. intros _. by apply K1.
  - split_and!; [done|done|]. by split.
Qed.

Lemma startup_full_inv ms c e ms' st' :
  enable_alpenglow_during_startup ms (StFull c e) = Some (ms', st') ->
  (ms' = ms /\ st' = StReturned (cert_slot (cert_type c))) \/
  exists e', enable_alpenglow ms false e = Some (ms', e') /\ st' = StFull c e'.
Proof.
  intros H. destruct e as [| |[| |w]]; cbn [enable_alpenglow_during_startup] in H;
    [..|left; by simplify_eq]; right;
    (destruct (enable_alpenglow ms false _) as [[? ?]|]; [|done]); simplify_eq/=; eauto.
Qed.

Lemma startup_ok ms st ms' st' :
  status_ok ms -> startup_knows ms st -> enable_alpenglow_during_startup ms st = Some (ms', st') ->
  status_ok ms' /\ status_le ms ms' /\ startup_knows ms' st'.
Proof.
  intros Ho Hk H. destruct st as [|c|c e|c|c|c|slot];
    cbn [startup_knows] in *; try (simpl in H; inv_some).
  - unfold genesis_certificate. destruct (ms_phase ms) eqn:Ep; try done. inv_some.
    split_and!; [done|done|]. simpl. unfold genesis_certificate. by rewrite Ep.
  - split_and!; [done|done|]. by destruct (ms_poh_service_started _) eqn:Es.
  - destruct Hk as [Hs Hk].
    destruct (startup_full_inv _ _ _ _ _ H) as [[-> ->]|(e' & He & ->)].
    + done.
    + destruct (enable_alpenglow_ok _ _ _ _ _ Ho Hk He) as (O & L & K & _ & S). split_and!; [done|done|].
      split; [by rewrite S|done].
  - destruct (with_shutdown_poh_le ms Ho); [by eauto|]. by split_and!.
  - destruct (write_enabled_le _ _ Ho Hk). by split_and!.
  - destruct (with_migration_wait_le _ Ho Hk). by split_and!.
  - by split_and!.
Qed.

(** ** The threads keep the invariant *)

Lemma serial_ok_same ms p st r ms' r' :
  is_alpenglow_enabled (ms_phase ms') = is_alpenglow_enabled (ms_phase ms) ->
  ms_poh_service_started ms' = ms_poh_service_started ms ->
  serial_ok (mkSystem ms p st r) -> serial_ok (mkSystem ms' p st r').
Proof. intros He Hs [S1 S2 S3 S4]. split; simpl in *; by rewrite ?He, ?Hs. Qed.

Lemma serial_poh ms p st r exit ms' p' :
  (p = PohNotStarted -> startup_busy st = false) -> poh_knows ms p ->
  serial_ok (mkSystem ms p st r) -> poh_service ms exit p = Some (ms', p') ->
  serial_ok (mkSystem ms' p' st r).
Proof.
  intros Hb [K1 K2] [S1 S2 S3 S4] H. destruct p; simpl in *; inv_bind; inv_some.
  - specialize (Hb eq_refl). by split; destruct st.
  - destruct (is_alpenglow_enabled _) eqn:E; split; simpl in *; try done; by destruct st.
  - destruct exit; [|destruct (ms_shutdown_poh _)]; split; simpl in *; try done; by destruct st.
  - by split; simpl; destruct st.
  - by split; simpl; destruct st.
  - by split; simpl; destruct st.
  - by split; simpl; destruct st.
Qed.

Lemma serial_startup ms p st r ms' st' :
  status_ok ms -> poh_knows ms p -> startup_knows ms st ->
  serial_ok (mkSystem ms p st r) -> enable_alpenglow_during_startup ms st = Some (ms', st') ->
  serial_ok (mkSystem ms' p st' r).
Proof.
  intros Ho [K1 _] Hk [S1 S2 S3 S4] H. destruct st as [|c|c e|c|c|c|slot]; cbn [startup_knows] in *.
  - simpl in *. destruct (ms_phase ms) eqn:Ep; try done. inv_some. split; simpl; rewrite ?Ep; done.
  - simpl in *. inv_some. destruct (ms_poh_service_started _) eqn:Es; split; simpl in *; try done; [by rewrite Es| |by rewrite Es].
    destruct p; try done; by specialize (K1 ltac:(done)).
  - destruct Hk as [Hs Hk]. destruct (startup_full_inv _ _ _ _ _ H) as [[-> ->]|(e' & He & ->)]; [done|].
    destruct (enable_alpenglow_ok _ _ _ _ _ Ho Hk He) as (_ & _ & _ & HP & HS).
    split; simpl in *; by rewrite ?HP, ?HS.
  - simpl in *. inv_some. by split.
  - simpl in *. inv_some. split; simpl; try done; by rewrite S1.
  - simpl in *. inv_some. split; simpl; try done; by rewrite S1.
  - simpl in *. by simplify_eq.
Qed.

Lemma step_ok serial s s' : sys_ok serial s -> step serial s s' -> sys_ok serial s' /\ status_le (sys s) (sys s').
Proof.
  intros [K1 K2 K3 K4 K5] Hs. destruct Hs; simpl in *.
  - destruct (phase_step_le _ _ K1 H) as [O L]. split; [|done].
    split; simpl; eauto using poh_knows_mono, startup_knows_mono, enable_knows_mono.
    intros Hser. destruct (phase_step_status _ _ (so_phase _ K1) H) as (E & _ & _ & He & _).
    eapply serial_ok_same; [done|by rewrite E|by auto].
  - destruct (enable_alpenglow_ok _ _ _ _ _ K1 K4 H) as (O & L & K & HP & HS). split; [|done].
    split; simpl; eauto using poh_knows_mono, startup_knows_mono.
    intros Hser. eapply serial_ok_same; [by rewrite HP|done|by auto].
  - destruct (poh_service_ok _ _ _ _ _ K1 K2 H0) as (O & L & K). split; [|done].
    split; simpl; eauto using startup_knows_mono, enable_knows_mono.
    intros Hser. exact (serial_poh _ _ _ _ _ _ _ (fun E => H E Hser) K2 (K5 Hser) H0).
  - destruct (startup_ok _ _ _ _ K1 K3 H) as (O & L & K). split; [|done].
    split; simpl; eauto using poh_knows_mono, enable_knows_mono.
    intros Hser. exact (serial_startup _ _ _ _ _ _ K1 K2 K3 (K5 Hser) H).
Qed.

Lemma steps_ok serial s s' :
  sys_ok serial s -> rtc (step serial) s s' -> sys_ok serial s' /\ status_le (sys s) (sys s').
Proof.
  intros Hs Hr. induction Hr as [s|s1 s2 s3 H12 H23 IH]; [done|].
  destruct (step_ok _ _ _ Hs H12) as [O L]. destruct (IH O) as [O' L']. split; [done|]. by etrans.
Qed.

(** The system when the validator has built its status. *)
Definition system_start (ms : MigrationStatus) : system :=
  mkSystem ms PohNotStarted StIdle EnCheck.

Lemma system_start_ok serial p : phase_ok p -> sys_ok serial (system_start (status_new p)).
Proof.
  intros Hp. split; simpl; [|by split|done|done|by split].
  split; simpl; [done|done|]. unfold genesis_certificate; simpl. destruct p; try done; eauto.
Qed.

Lemma initialize_ok get_epoch root_epoch ff gc ms :
  (forall c, gc = Some c -> is_genesis_cert c) -> initialize get_epoch root_epoch ff gc = Some ms ->
  exists p, phase_ok p /\ ms = status_new p.
Proof.
  intros Hgc H. unfold initialize in H. destruct gc as [c|], ff as [a|]; inv_some; eexists; (split; [|done]); simpl.
  - case_bool_decide; simpl; by apply Hgc.
  - split_and!; [done|done|by left].
  - done.
Qed.

(** Once the flag is set there is a genesis block, now and later. *)
Lemma waiter_finds_block ms :
  status_ok ms -> ms_migration_wait ms = true ->
  exists c s h, genesis_certificate ms = Some c /\ cert_type c = CGenesis s h /\
    wait_for_migration_or_exit ms false WtWoken = Some (WtReturned (Some (s, h))).
Proof.
  intros [O1 O2 _] Hw. apply O2 in Hw. unfold wait_for_migration_or_exit, genesis_block, genesis_certificate.
  destruct (ms_phase ms) as [| | |c|e c]; try done;
    simpl in O1; unfold is_genesis_cert in O1; destruct (cert_type c) eqn:Ec; try done;
    exists c; simpl; rewrite Ec; simpl; eauto.
Qed.

Lemma step_monotone s s' :
  sys_ok true s -> step true s s' ->
  phase_index (ms_phase (sys s)) <= phase_index (ms_phase (sys s')) /\
  (forall slot, is_alpenglow_block (ms_phase (sys s)) slot = true ->
                is_alpenglow_block (ms_phase (sys s')) slot = true).
Proof.
  intros [K1 K2 K3 K4 K5] Hs. specialize (K5 eq_refl). destruct K5 as [S1 S2 S3 S4].
  assert (forall ms c, is_alpenglow_enabled (ms_phase ms) = false -> genesis_certificate ms = Some c ->
    phase_index (ms_phase ms) <= 3 /\ forall slot, is_alpenglow_block (ms_phase ms) slot = true -> False) as Hw.
  { intros ms c He Hc. unfold genesis_certificate in Hc. destruct (ms_phase ms); try done. }
  destruct Hs; simpl in *.
  - destruct (phase_step_status _ _ (so_phase _ K1) H) as (_ & _ & Hc & He & Hi). split; [done|].
    unfold genesis_certificate in Hc.
    destruct (ms_phase ms), (ms_phase ms'); simpl in *; try done; try lia;
      naive_solver.
  - destruct (enable_alpenglow_ok _ _ _ _ _ K1 K4 H) as (_ & _ & _ & -> & _). done.
  - destruct p; simpl in *; inv_bind; inv_some; try done.
    destruct (Hw ms c S4 (proj2 K2)) as [Hw1 Hw2]. split; [done|]. intros slot Hsl. by destruct (Hw2 slot).
  - destruct st as [|c|c e|c|c|c|slot]; cbn [startup_knows] in *.
    + simpl in H. destruct (ms_phase ms) eqn:Ep; try done. inv_some. by rewrite Ep.
    + simpl in H. by inv_some.
    + destruct (startup_full_inv _ _ _ _ _ H) as [[-> ->]|(e' & He & ->)]; [done|].
      destruct (enable_alpenglow_ok _ _ _ _ _ K1 (proj2 K3) He) as (_ & _ & _ & -> & _). done.
    + simpl in H. by inv_some.
    + simpl in H. inv_some. destruct (Hw ms c (S3 eq_refl) K3) as [Hw1 Hw2]. split; [done|]. intros slot Hsl. by destruct (Hw2 slot).
    + simpl in H. by inv_some.
    + simpl in H. by inv_some.
Qed.

Lemma steps_monotone s s' :
  sys_ok true s -> rtc (step true) s s' ->
  phase_index (ms_phase (sys s)) <= phase_index (ms_phase (sys s')) /\
  (forall slot, is_alpenglow_block (ms_phase (sys s)) slot = true ->
                is_alpenglow_block (ms_phase (sys s')) slot = true).
Proof.
  intros Hs Hr. induction Hr as [s|s1 s2 s3 H12 H23 IH]; [done|].
  destruct (step_monotone _ _ Hs H12) as [M1 M2].
  destruct (IH (proj1 (step_ok _ _ _ Hs H12))) as [I1 I2]. split; [lia|auto].
Qed.

Lemma not_enabled_ready ms c :
  is_alpenglow_enabled (ms_phase ms) = false -> genesis_certificate ms = Some c ->
  ms_phase ms = ReadyToEnable c.
Proof. unfold genesis_certificate. destruct (ms_phase ms); naive_solver. Qed.

(** ** Theorems *)

(** C14: From a status built by [initialize], with the threads interleaved at
    every lock section and every access to an atomic.  A thread that saw the flag
    of the migration set finds the genesis block whenever it then takes the phase
    lock, the same one at any two moments, so the [expect] of
    [wait_for_migration_or_exit] never fails, in replay and in the startup either;
    and when [PohService] or the startup writes the phase, the certificate it
    cloned earlier is still the genesis certificate.  When moreover the startup and
    [PohService::new] run in one thread, as in [Validator::new], [PohService] never
    reaches the [unreachable] of its shutdown, and both write over the very phase
    they read. *)
Theorem migration_wait_safe serial get_epoch root_epoch ff gc ms s1 s2
    (Hgc : forall c, gc = Some c -> is_genesis_cert c)
    (Hinit : initialize get_epoch root_epoch ff gc = Some ms)
    (Hrun : rtc (step serial) (system_start ms) s1) (Hlater : rtc (step serial) s1 s2) :
  (ms_migration_wait (sys s1) = true -> exists b,
     wait_for_migration_or_exit (sys s1) false WtWoken = Some (WtReturned (Some b)) /\
     wait_for_migration_or_exit (sys s2) false WtWoken = Some (WtReturned (Some b))) /\
  (replay s2 = EnWait WtWoken -> forall exit, is_Some (enable_alpenglow (sys s2) exit (replay s2))) /\
  (forall c, startup s2 = StFull c (EnWait WtWoken) ->
     is_Some (enable_alpenglow_during_startup (sys s2) (startup s2))) /\
  (forall c, poh s2 = PohRead c \/ startup s2 = StShut c -> genesis_certificate (sys s2) = Some c) /\
  (serial = true ->
     (poh s2 = PohStopping -> forall exit, is_Some (poh_service (sys s2) exit (poh s2))) /\
     (forall c, poh s2 = PohRead c \/ startup s2 = StShut c -> ms_phase (sys s2) = ReadyToEnable c)).
Proof.
  destruct (initialize_ok _ _ _ _ _ Hgc Hinit) as (p & Hp & ->).
  destruct (steps_ok _ _ _ (system_start_ok serial p Hp) Hrun) as [O1 _].
  destruct (steps_ok _ _ _ O1 Hlater) as [[K1 [_ K2] K3 K4 K5] L].
  assert (forall c, poh s2 = PohRead c \/ startup s2 = StShut c -> genesis_certificate (sys s2) = Some c) as Hc.
  { intros c [E|E]; [by rewrite E in K2|by rewrite E in K3]. }
  split_and!; [|intros E exit|intros c E|done|intros Hser].
  - intros Hw. destruct (waiter_finds_block _ (sk_status _ _ O1) Hw) as (c & x & h & C1 & T1 & W1).
    destruct (waiter_finds_block _ K1 (le_wait _ _ L Hw)) as (c' & x' & h' & C2 & T2 & W2).
    apply (le_cert _ _ L) in C1. rewrite C1 in C2. injection C2 as <-. rewrite T1 in T2. injection T2 as <- <-. eauto.
  - rewrite E in *. destruct (waiter_finds_block _ K1 K4) as (? & ? & ? & _ & _ & W).
    cbn [enable_alpenglow]. destruct exit; unfold wait_for_migration_or_exit in *; rewrite W; simpl; eauto.
  - rewrite E in *. destruct K3 as [_ K3]. destruct (waiter_finds_block _ K1 K3) as (? & ? & ? & _ & _ & W).
    cbn [enable_alpenglow_during_startup enable_alpenglow]. rewrite W. simpl. eauto.
  - destruct (K5 Hser) as [S1 _ S3 S4]. split.
    + intros E exit. rewrite E in *. destruct (so_shutdown _ K1 K2) as [c Ec]. simpl.
      unfold poh_shutdown_read. rewrite (not_enabled_ready _ c) by done. simpl. eauto.
    + intros c E. apply not_enabled_ready; [|by apply Hc].
      destruct E as [E|E]; rewrite E in *; [done|by apply S3].
Qed.

Module MigrationRun.
(** The genesis block is found and certified, then the startup enables Alpenglow
    before [PohService] starts. *)
Definition cert := mkCertificate (CGenesis 7 9) 0 [].
Definition ready := mkMigrationStatus 0 false false (ReadyToEnable cert) false.
Definition flagged := mkMigrationStatus 0 true false (AlpenglowEnabled cert) true.

Lemma reaches_ready serial :
  rtc (step serial) (system_start (status_new (Migrating 5003 None None))) (system_start ready).
Proof.
  eapply rtc_l; [apply step_phase; eapply (step_block _ _ (7, 9)); reflexivity|].
  eapply rtc_l; [apply step_phase; eapply (step_cert _ _ cert); reflexivity|]. apply rtc_refl.
Qed.
Lemma reaches_shut serial :
  rtc (step serial) (system_start ready) (mkSystem (with_shutdown_poh ready) PohNotStarted (StShut cert) EnCheck).
Proof. do 3 (eapply rtc_l; [eapply step_startup; reflexivity|]). apply rtc_refl. Qed.
Lemma reaches_flagged serial :
  rtc (step serial) (mkSystem (with_shutdown_poh ready) PohNotStarted (StShut cert) EnCheck)
    (mkSystem flagged PohNotStarted (StReturned 7) EnCheck).
Proof. do 2 (eapply rtc_l; [eapply step_startup; reflexivity|]). apply rtc_refl. Qed.
End MigrationRun.

Lemma migration_wait_safe_witness :
  (exists b, wait_for_migration_or_exit MigrationRun.flagged false WtWoken = Some (WtReturned (Some b))) /\
  ms_phase (with_shutdown_poh MigrationRun.ready) = ReadyToEnable MigrationRun.cert.
Proof.
  assert (forall c : Certificate, None = Some c -> is_genesis_cert c) as Hgc by done.
  assert (initialize (fun _ => 0) 0 (Some 3) None = Some (status_new (Migrating 5003 None None))) as Hi by reflexivity.
  pose proof (transitivity (MigrationRun.reaches_ready true) (MigrationRun.reaches_shut true)) as Hshut.
  pose proof (transitivity Hshut (MigrationRun.reaches_flagged true)) as Hflag.
  split.
  - destruct (proj1 (migration_wait_safe true (fun _ => 0) 0 (Some 3) None _ _ _ Hgc Hi
      Hflag (rtc_refl _ _)) eq_refl) as (b & Hb & _).
    exists b. exact Hb.
  - exact (proj2 (proj2 (proj2 (proj2 (proj2 (migration_wait_safe true (fun _ => 0) 0 (Some 3) None _ _ _ Hgc Hi
      Hshut (rtc_refl _ _))))) eq_refl) _ (or_intror eq_refl)).
Defined.

(** With the startup and [PohService::new] in one thread the migration only moves
    forward: the phase never goes back, the genesis certificate never changes once
    the node is ready to enable Alpenglow, and a slot treated as an Alpenglow block
    stays one. *)
Theorem migration_monotone p s'
    (Hp : phase_ok p) (Hrun : rtc (step true) (system_start (status_new p)) s') :
  phase_index p <= phase_index (ms_phase (sys s')) /\
  (forall c, genesis_certificate (status_new p) = Some c -> genesis_certificate (sys s') = Some c) /\
  (forall slot, is_alpenglow_block p slot = true -> is_alpenglow_block (ms_phase (sys s')) slot = true).
Proof.
  pose proof (system_start_ok true p Hp) as Ho.
  destruct (steps_monotone _ _ Ho Hrun) as [M1 M2].
  split_and!; [done|apply (le_cert _ _ (proj2 (steps_ok _ _ _ Ho Hrun)))|done].
Qed.
Lemma migration_monotone_witness :
  genesis_certificate (with_phase (status_new (AlpenglowEnabled MigrationRun.cert))
    (FullAlpenglowEpoch 2 MigrationRun.cert)) = Some MigrationRun.cert.
Proof.
  refine (proj1 (proj2 (migration_monotone (AlpenglowEnabled MigrationRun.cert) (system_start _) _ _)) _ _).
  - reflexivity.
  - eapply rtc_l; [apply step_phase; eapply (step_epoch _ _ 2); reflexivity|]. apply rtc_refl.
  - reflexivity.
Defined.

(** Discovering the genesis block and receiving the genesis certificate
    commute: in either order the node becomes ready to enable Alpenglow with that
    certificate exactly when they agree and precede the migration slot, and panics
    otherwise. *)
Theorem genesis_order_independent ms slot b c
    (Hphase : ms_phase ms = Migrating slot None None) :
  (set_genesis_block ms b ≫= fun ms' => set_genesis_certificate ms' c) =
  (set_genesis_certificate ms c ≫= fun ms' => set_genesis_block ms' b) /\
  (set_genesis_block ms b ≫= fun ms' => set_genesis_certificate ms' c) =
  (if bool_decide (cert_type c = CGenesis b.1 b.2 /\ b.1 < slot)
   then Some (with_phase ms (ReadyToEnable c)) else None).
Proof.
  destruct ms as [k sh st ph w]; simpl in Hphase; subst ph. destruct b as [bs bh].
  unfold set_genesis_block, set_genesis_certificate, rust_assert; simpl.
  destruct (cert_type c) as [| | | | |cs ch] eqn:Ec; repeat (case_bool_decide; simpl; rewrite ?Ec); simplify_eq;
    try done; naive_solver lia.
Qed.
Lemma genesis_order_independent_witness :
  (set_genesis_block (status_new (Migrating 10 None None)) (7, 9) ≫=
     fun ms' => set_genesis_certificate ms' (mkCertificate (CGenesis 7 9) 0 [])) =
  Some (with_phase (status_new (Migrating 10 None None)) (ReadyToEnable (mkCertificate (CGenesis 7 9) 0 []))).
Proof.
  rewrite (proj2 (genesis_order_independent (status_new (Migrating 10 None None)) 10 (7, 9)
    (mkCertificate (CGenesis 7 9) 0 []) eq_refl)). reflexivity.
Defined.

(** The answers of a phase fit together: a slot is handled by TowerBFT or by
    Alpenglow but not both, a bank that is vote-only is neither an Alpenglow block
    nor rooted or reported, and whatever is rooted in steady state may also be
    rooted during startup. *)
Theorem phase_queries_consistent p slot :
  should_publish_epoch_slots p slot = negb (is_alpenglow_block p slot) /\
  (should_bank_be_vote_only p slot && is_alpenglow_block p slot = false) /\
  (should_bank_be_vote_only p slot && should_report_commitment_or_root p slot = false) /\
  (should_report_commitment_or_root p slot = true -> should_root_during_startup p slot = true) /\
  (qualifies_for_genesis_discovery p slot = true -> should_bank_be_vote_only p slot = true).
Proof.
  destruct p; simpl; repeat case_bool_decide; simpl; try done; split_and!; try done; try lia.
Qed.
