(* ===== verification/StakeCounters.v ===== *)
(** * Stake counters of a slot

    [votor/src/consensus_pool/slot_stake_counters.rs] and the counters of
    [votor/src/consensus_pool/stats.rs]: from the stake that voted to notarize or
    to skip a slot, the events [SafeToNotar] and [SafeToSkip] that allow fallback
    votes.  The theorems say that the events are the conditions of the protocol's
    definition, that each is issued once, and that the machine arithmetic computes
    the exact sums. *)

From S2P Require Import Prelude.
From S2P Require Import Messages.

(** ** Statistics *)

Record CertificateStats := mkCertificateStats {
  cs_finalize : Z;
  cs_finalize_fast : Z;
  cs_notarize : Z;
  cs_notarize_fallback : Z;
  cs_skip : Z;
  cs_genesis : Z;
}.

Definition cert_stats_increment (s : CertificateStats) (c : CertificateType) : CertificateStats :=
  let '(mkCertificateStats f ff n nf sk g) := s in
  match c with
  | CFinalize _ => mkCertificateStats (f +s 1) ff n nf sk g
  | CFinalizeFast _ _ => mkCertificateStats f (ff +s 1) n nf sk g
  | CNotarize _ _ => mkCertificateStats f ff (n +s 1) nf sk g
  | CNotarizeFallback _ _ => mkCertificateStats f ff n (nf +s 1) sk g
  | CSkip _ => mkCertificateStats f ff n nf (sk +s 1) g
  | CGenesis _ _ => mkCertificateStats f ff n nf sk (g +s 1)
  end.

Record VoteStats := mkVoteStats {
  vs_finalize : Z;
  vs_notarize : Z;
  vs_notar_fallback : Z;
  vs_skip : Z;
  vs_skip_fallback : Z;
  vs_genesis : Z;
}.

Definition vote_stats_increment (s : VoteStats) (t : VoteType) : VoteStats :=
  let '(mkVoteStats f n nf sk sf g) := s in
  match t with
  | TFinalize => mkVoteStats (f +s 1) n nf sk sf g
  | TNotarize => mkVoteStats f (n +s 1) nf sk sf g
  | TNotarizeFallback => mkVoteStats f n (nf +s 1) sk sf g
  | TSkip => mkVoteStats f n nf (sk +s 1) sf g
  | TSkipFallback => mkVoteStats f n nf sk (sf +s 1) g
  | TGenesis => mkVoteStats f n nf sk sf (g +s 1)
  end.

Record ConsensusPoolStats := mkStats {
  st_conflicting_votes : Z;
  st_event_safe_to_notarize : Z;
  st_event_safe_to_skip : Z;
  st_exist_certs : Z;
  st_exist_votes : Z;
  st_incoming_certs : Z;
  st_incoming_votes : Z;
  st_out_of_range_certs : Z;
  st_out_of_range_votes : Z;
  st_certs_generated : CertificateStats;
  st_certs_ingested : CertificateStats;
  st_ingested_votes : VoteStats;
  st_last_request_time : Z;
}.

(** [Instant::now()] is the argument. *)
Definition stats_default (now : Z) : ConsensusPoolStats :=
  let c := mkCertificateStats 0 0 0 0 0 0 in
  mkStats 0 0 0 0 0 0 0 0 0 c c (mkVoteStats 0 0 0 0 0 0) now.

(** One counter of the statistics. *)
Inductive counter :=
  | conflicting_votes | event_safe_to_notarize | event_safe_to_skip | exist_certs | exist_votes
  | incoming_certs | incoming_votes | out_of_range_certs | out_of_range_votes.

(** [self.stats.c = self.stats.c.saturating_add(1)] on a [u32]. *)
Definition bump (c : counter) (s : ConsensusPoolStats) : ConsensusPoolStats :=
  let '(mkStats a1 a2 a3 a4 a5 a6 a7 a8 a9 g i v t) := s in
  match c with
  | conflicting_votes => mkStats (sat_add32 a1 1) a2 a3 a4 a5 a6 a7 a8 a9 g i v t
  | event_safe_to_notarize => mkStats a1 (sat_add32 a2 1) a3 a4 a5 a6 a7 a8 a9 g i v t
  | event_safe_to_skip => mkStats a1 a2 (sat_add32 a3 1) a4 a5 a6 a7 a8 a9 g i v t
  | exist_certs => mkStats a1 a2 a3 (sat_add32 a4 1) a5 a6 a7 a8 a9 g i v t
  | exist_votes => mkStats a1 a2 a3 a4 (sat_add32 a5 1) a6 a7 a8 a9 g i v t
  | incoming_certs => mkStats a1 a2 a3 a4 a5 (sat_add32 a6 1) a7 a8 a9 g i v t
  | incoming_votes => mkStats a1 a2 a3 a4 a5 a6 (sat_add32 a7 1) a8 a9 g i v t
  | out_of_range_certs => mkStats a1 a2 a3 a4 a5 a6 a7 (sat_add32 a8 1) a9 g i v t
  | out_of_range_votes => mkStats a1 a2 a3 a4 a5 a6 a7 a8 (sat_add32 a9 1) g i v t
  end.

Definition incr_ingested_vote_type (s : ConsensusPoolStats) (ty : VoteType) : ConsensusPoolStats :=
  let '(mkStats a1 a2 a3 a4 a5 a6 a7 a8 a9 g i v t) := s in
  mkStats a1 a2 a3 a4 a5 a6 a7 a8 a9 g i (vote_stats_increment v ty) t.
Definition incr_generated_cert (s : ConsensusPoolStats) (c : CertificateType) : ConsensusPoolStats :=
  let '(mkStats a1 a2 a3 a4 a5 a6 a7 a8 a9 g i v t) := s in
  mkStats a1 a2 a3 a4 a5 a6 a7 a8 a9 (cert_stats_increment g c) i v t.
Definition incr_ingested_cert (s : ConsensusPoolStats) (c : CertificateType) : ConsensusPoolStats :=
  let '(mkStats a1 a2 a3 a4 a5 a6 a7 a8 a9 g i v t) := s in
  mkStats a1 a2 a3 a4 a5 a6 a7 a8 a9 g (cert_stats_increment i c) v t.

Definition STATS_REPORT_INTERVAL : Z := 10 * 10 ^ 9.
Definition stats_maybe_report (s : ConsensusPoolStats) (now : Z) : ConsensusPoolStats :=
  if bool_decide (STATS_REPORT_INTERVAL <= now - st_last_request_time s)
  then stats_default now else s.

(** ** Counters *)

Record SlotStakeCounters := mkCounters {
  my_first_vote : option Vote;
  sc_total_stake : Stake;
  skip_total : Stake;
  notarize_total : Stake;
  notarize_entry_total : gmap Z Z;
  top_notarized_stake : Stake;
  safe_to_notar_sent : list Hash;
  safe_to_skip_sent : bool;
}.

Definition counters_new (total_stake : Stake) : SlotStakeCounters :=
  mkCounters None total_stake 0 0 ∅ 0 [] false.

Definition is_safe_to_notar (c : SlotStakeCounters) (block_id : Hash) (stake : Stake) : option bool :=
  if (match my_first_vote c with
      | Some (Notarize _ b) => bool_decide (b = block_id)
      | _ => false
      end) then Some false
  else
    total ← nonzero_unwrap (sc_total_stake c);
    let notarized_ratio := fraction_new stake total in
    sum ← checked_add (skip_total c) stake;
    let notarized_plus_skip_ratio := fraction_new sum total in
    only ← fraction_ge notarized_ratio SAFE_TO_NOTAR_MIN_NOTARIZE_ONLY;
    if only : bool then Some true
    else
      part ← fraction_ge notarized_ratio SAFE_TO_NOTAR_MIN_NOTARIZE_FOR_NOTARIZE_OR_SKIP;
      if part : bool then fraction_ge notarized_plus_skip_ratio SAFE_TO_NOTAR_MIN_NOTARIZE_AND_SKIP
      else Some false.

Definition is_safe_to_skip (c : SlotStakeCounters) : option bool :=
  match my_first_vote c with
  | Some (Notarize _ _) =>
    let num_stake := skip_total c +s (notarize_total c -s top_notarized_stake c) in
    total ← nonzero_unwrap (sc_total_stake c);
    fraction_ge (fraction_new num_stake total) SAFE_TO_SKIP_THRESHOLD
  | _ => Some false
  end.

(** The loop over [notarize_entry_total]; [c] is the state the checks read. *)
Fixpoint safe_to_notar_loop (c : SlotStakeCounters) (slot : Slot) (entries : list (Z * Z))
    (sent : list Hash) (events : list VotorEvent) (stats : ConsensusPoolStats)
    : option (list Hash * list VotorEvent * ConsensusPoolStats) :=
  match entries with
  | [] => Some (sent, events, stats)
  | (block_id, stake) :: entries =>
    if bool_decide (block_id ∈ sent) then safe_to_notar_loop c slot entries sent events stats
    else
      safe ← is_safe_to_notar c block_id stake;
      if safe : bool then
        safe_to_notar_loop c slot entries (sent ++ [block_id])
          (events ++ [ESafeToNotar (slot, block_id)]) (bump event_safe_to_notarize stats)
      else safe_to_notar_loop c slot entries sent events stats
  end.

(** The first half of [add_vote]: [None] when the vote is of another type. *)
Definition counters_record (c : SlotStakeCounters) (vote : Vote) (entry_stake : Stake)
    : option SlotStakeCounters :=
  let '(mkCounters mine total skip ntotal entries top sent ssent) := c in
  match vote with
  | Skip _ => Some (mkCounters mine total entry_stake ntotal entries top sent ssent)
  | Notarize _ block_id =>
    let old_entry_stake := default 0 (entries !! block_id) in
    Some (mkCounters mine total skip ((ntotal -s old_entry_stake) +s entry_stake)
            (<[block_id := entry_stake]> entries) (Z.max top entry_stake) sent ssent)
  | _ => None
  end.

Definition with_my_first_vote (c : SlotStakeCounters) (v : option Vote) : SlotStakeCounters :=
  let '(mkCounters _ total skip ntotal entries top sent ssent) := c in
  mkCounters v total skip ntotal entries top sent ssent.
Definition with_sent (c : SlotStakeCounters) (sent : list Hash) (ssent : bool) : SlotStakeCounters :=
  let '(mkCounters mine total skip ntotal entries top _ _) := c in
  mkCounters mine total skip ntotal entries top sent ssent.

(** The second half of [add_vote]: the two checks. *)
Definition counters_check (c : SlotStakeCounters) (slot : Slot) (events : list VotorEvent)
    (stats : ConsensusPoolStats) : option (SlotStakeCounters * list VotorEvent * ConsensusPoolStats) :=
  '(sent, events, stats) ←
    safe_to_notar_loop c slot (btree_iter (notarize_entry_total c)) (safe_to_notar_sent c) events stats;
  let c := with_sent c sent (safe_to_skip_sent c) in
  if safe_to_skip_sent c then Some (c, events, stats)
  else
    safe ← is_safe_to_skip c;
    if safe : bool then
      Some (with_sent c sent true, events ++ [ESafeToSkip slot], bump event_safe_to_skip stats)
    else Some (c, events, stats).

Definition counters_add_vote (c : SlotStakeCounters) (vote : Vote) (entry_stake : Stake)
    (is_my_own_vote : bool) (events : list VotorEvent) (stats : ConsensusPoolStats)
    : option (SlotStakeCounters * list VotorEvent * ConsensusPoolStats) :=
  match counters_record c vote entry_stake with
  | None => Some (c, events, stats)
  | Some c =>
    let c := if bool_decide (my_first_vote c = None) && is_my_own_vote
             then with_my_first_vote c (Some vote) else c in
    if bool_decide (my_first_vote c = None) then Some (c, events, stats)
    else counters_check c (vote_slot vote) events stats
  end.

(** ** Specification *)

Definition sum_entries (m : gmap Z Z) : Z := sumZ (map_to_list m).*2.
Definition max_entries (m : gmap Z Z) : Z := foldr Z.max 0 (map_to_list m).*2.

(** The conditions of the protocol: a block is safe to notarize when the node
    voted in the slot, not for that block, and the block has 40% of the stake, or
    20% and with the skip votes 60%; a slot is safe to skip when the node voted to
    notarize in it and the stake that skipped or notarized anything but the block
    with the most stake is 40%. *)
Definition stake_supports_notar (c : SlotStakeCounters) (stake : Z) : Prop :=
  40 * sc_total_stake c <= 100 * stake \/
  (20 * sc_total_stake c <= 100 * stake /\ 60 * sc_total_stake c <= 100 * (skip_total c + stake)).
Definition safe_to_notar_spec (c : SlotStakeCounters) (b : Hash) (stake : Z) : Prop :=
  (exists v, my_first_vote c = Some v /\ forall s, v <> Notarize s b) /\ stake_supports_notar c stake.
Definition safe_to_skip_spec (c : SlotStakeCounters) : Prop :=
  (exists s b, my_first_vote c = Some (Notarize s b)) /\
  40 * sc_total_stake c <=
  100 * (skip_total c + (sum_entries (notarize_entry_total c) - max_entries (notarize_entry_total c))).

#[global] Instance stake_supports_notar_dec c st : Decision (stake_supports_notar c st).
Proof. unfold stake_supports_notar. apply _. Defined.

Definition votes_for (mine : option Vote) (b : Hash) : bool :=
  match mine with Some (Notarize _ b') => bool_decide (b' = b) | _ => false end.
Lemma votes_for_spec mine b : votes_for mine b = false <-> forall s, mine <> Some (Notarize s b).
Proof.
  destruct mine as [[]|]; simpl; try naive_solver. rewrite bool_decide_eq_false. naive_solver.
Qed.

(** The stakes are consistent: each block's stake is non-negative, the stakes of
    all blocks and of the skip votes together are at most the total, and the two
    aggregates kept beside the map are its sum and its maximum. *)
Record counters_ok (c : SlotStakeCounters) : Prop := {
  co_total : 0 < sc_total_stake c <= u64_max;
  co_skip : 0 <= skip_total c;
  co_entries : map_Forall (fun _ st => 0 <= st) (notarize_entry_total c);
  co_sum : notarize_total c = sum_entries (notarize_entry_total c);
  co_bound : skip_total c + sum_entries (notarize_entry_total c) <= sc_total_stake c;
  co_top : top_notarized_stake c = max_entries (notarize_entry_total c);
  co_sent : NoDup (safe_to_notar_sent c);
}.

(** What the caller guarantees of a vote: the new total of the vote's entry does
    not go down, and all the stake counted stays within the total. *)
Definition vote_fits (c : SlotStakeCounters) (vote : Vote) (entry_stake : Stake) : Prop :=
  match vote with
  | Skip _ => skip_total c <= entry_stake /\ entry_stake + sum_entries (notarize_entry_total c) <= sc_total_stake c
  | Notarize _ b =>
    let old := default 0 (notarize_entry_total c !! b) in
    old <= entry_stake /\
    skip_total c + (sum_entries (notarize_entry_total c) - old + entry_stake) <= sc_total_stake c
  | _ => True
  end.

(** ** Sums and maxima of entries *)

Lemma sum_entries_delete m b :
  sum_entries m = default 0 (m !! b) + sum_entries (delete b m).
Proof.
  unfold sum_entries. destruct (m !! b) as [v|] eqn:E; simpl.
  - rewrite <-(map_to_list_delete m b v E). done.
  - by rewrite delete_id.
Qed.
Lemma sum_entries_insert m b v :
  sum_entries (<[b := v]> m) = sum_entries m - default 0 (m !! b) + v.
Proof.
  rewrite (sum_entries_delete m b), (sum_entries_delete (<[b := v]> m) b).
  rewrite lookup_insert_eq, delete_insert_eq. simpl. lia.
Qed.
Lemma sum_entries_lookup_le m b v :
  map_Forall (fun _ st => 0 <= st) m -> m !! b = Some v -> 0 <= v <= sum_entries m.
Proof.
  intros Hm Hb. split; [by apply (Hm b)|]. apply sumZ_elem_le.
  - apply Forall_fmap, Forall_forall. intros [b' v'] Hin. apply elem_of_map_to_list in Hin. by apply (Hm b').
  - apply list_elem_of_fmap. exists (b, v). by rewrite elem_of_map_to_list.
Qed.
Lemma sum_entries_nonneg m : map_Forall (fun _ st => 0 <= st) m -> 0 <= sum_entries m.
Proof.
  intros Hm. apply sumZ_nonneg, Forall_fmap, Forall_forall. intros [b' v'] Hin.
  apply elem_of_map_to_list in Hin. by apply (Hm b').
Qed.

#[global] Instance foldr_max_proper : Proper ((≡ₚ) ==> (=)) (foldr Z.max 0).
Proof. intros l k H. induction H; simpl; lia. Qed.
Lemma max_entries_delete m b :
  map_Forall (fun _ st => 0 <= st) m ->
  max_entries m = Z.max (default 0 (m !! b)) (max_entries (delete b m)).
Proof.
  intros Hm. unfold max_entries. destruct (m !! b) as [v|] eqn:E; simpl.
  - by rewrite <-(map_to_list_delete m b v E).
  - rewrite delete_id by done.
    assert (forall l, 0 <= foldr Z.max 0 l) as H0 by (induction l; simpl; lia).
    pose proof (H0 (map_to_list m).*2). lia.
Qed.
Lemma max_entries_insert m b v :
  map_Forall (fun _ st => 0 <= st) m -> default 0 (m !! b) <= v -> 0 <= v ->
  max_entries (<[b := v]> m) = Z.max (max_entries m) v.
Proof.
  intros Hm Hv Hv0. rewrite (max_entries_delete m b), (max_entries_delete (<[b := v]> m) b);
    [|by apply map_Forall_insert_2|done].
  rewrite lookup_insert_eq, delete_insert_eq. simpl. lia.
Qed.
Lemma max_entries_le_sum m :
  map_Forall (fun _ st => 0 <= st) m -> 0 <= max_entries m <= sum_entries m.
Proof.
  intros Hm. unfold max_entries, sum_entries.
  assert (Forall (fun x => 0 <= x) (map_to_list m).*2) as HF.
  { apply Forall_fmap, Forall_forall. intros [b' v'] Hin. apply elem_of_map_to_list in Hin. by apply (Hm b'). }
  induction HF as [|x l Hx HF IH]; simpl; [done|]. pose proof (sumZ_nonneg l HF). unfold sumZ in *. lia.
Qed.

(** ** The checks compute the conditions *)

Lemma is_safe_to_notar_spec c b st :
  counters_ok c -> 0 <= st -> skip_total c + st <= sc_total_stake c ->
  is_safe_to_notar c b st =
  Some (negb (votes_for (my_first_vote c) b) && bool_decide (stake_supports_notar c st)).
Proof.
  intros Hc H0 Hle. pose proof (co_total c Hc). pose proof (co_skip c Hc).
  unfold is_safe_to_notar. fold (votes_for (my_first_vote c) b).
  destruct (votes_for _ b); [done|]. cbn [negb andb].
  rewrite nonzero_unwrap_Some, checked_add_exact by lia.
  cbn [mbind option_bind]. unfold SAFE_TO_NOTAR_MIN_NOTARIZE_ONLY,
    SAFE_TO_NOTAR_MIN_NOTARIZE_FOR_NOTARIZE_OR_SKIP, SAFE_TO_NOTAR_MIN_NOTARIZE_AND_SKIP.
  rewrite !fraction_ge_spec by (unfold is_u64, u64_max in *; lia). cbn [mbind option_bind].
  unfold stake_supports_notar.
  repeat case_bool_decide; cbn [mbind option_bind]; rewrite ?fraction_ge_spec by (unfold is_u64, u64_max in *; lia);
    repeat case_bool_decide; try done; lia.
Qed.

Lemma is_safe_to_skip_spec c :
  counters_ok c -> exists r, is_safe_to_skip c = Some r /\ (r = true <-> safe_to_skip_spec c).
Proof.
  intros Hc. pose proof (co_total c Hc). pose proof (co_skip c Hc). pose proof (co_bound c Hc).
  pose proof (max_entries_le_sum _ (co_entries c Hc)).
  unfold is_safe_to_skip, safe_to_skip_spec.
  destruct (my_first_vote c) as [[s b| | | | | ]|]; try by (eexists; split; [done|naive_solver]).
  rewrite nonzero_unwrap_Some by lia. cbn [mbind option_bind].
  rewrite (co_sum c Hc), (co_top c Hc), sat_sub_exact, sat_add_exact by lia.
  unfold SAFE_TO_SKIP_THRESHOLD. rewrite fraction_ge_spec by (unfold is_u64, u64_max in *; lia).
  eexists. split; [done|]. rewrite bool_decide_eq_true. split; [|naive_solver lia].
  intros Hle. split; [by eauto|]. lia.
Qed.

Definition newly_safe (c : SlotStakeCounters) (sent : list Hash) (entries : list (Z * Z)) : list Hash :=
  omap (fun e => if negb (bool_decide (e.1 ∈ sent)) && (negb (votes_for (my_first_vote c) e.1) &&
                      bool_decide (stake_supports_notar c e.2))
                 then Some e.1 else None) entries.

Lemma newly_safe_app c sent b entries :
  b ∉ entries.*1 -> newly_safe c (sent ++ [b]) entries = newly_safe c sent entries.
Proof.
  intros Hb. unfold newly_safe. induction entries as [|[b' st] l IH]; [done|]. csimpl in *.
  rewrite IH by set_solver. assert (b' <> b) by set_solver.
  replace (bool_decide (b' ∈ sent ++ [b])) with (bool_decide (b' ∈ sent)); [done|].
  apply bool_decide_ext. rewrite elem_of_app, list_elem_of_singleton. naive_solver.
Qed.

Lemma elem_of_newly_safe c sent entries b :
  b ∈ newly_safe c sent entries <->
  (b ∉ sent) /\ votes_for (my_first_vote c) b = false /\
  exists st, (b, st) ∈ entries /\ stake_supports_notar c st.
Proof.
  unfold newly_safe. rewrite list_elem_of_omap. split.
  - intros ([b' st] & Hin & Hif). simpl in Hif. destruct (negb _ && _) eqn:E; [|done]. inv_some.
    repeat (apply andb_true_iff in E as [? E]; to_prop). to_prop. eauto.
  - intros (H1 & H2 & st & Hin & H3). exists (b, st). split; [done|]. simpl.
    rewrite (bool_decide_false _ H1), H2, (bool_decide_true _ H3). done.
Qed.

Lemma newly_safe_NoDup c sent entries : NoDup entries.*1 -> NoDup (newly_safe c sent entries).
Proof.
  intros Hnd. unfold newly_safe. induction entries as [|[b st] l IH]; [constructor|]. csimpl in *.
  apply NoDup_cons in Hnd as [Hb Hnd]. destruct (_ && _); [|by apply IH].
  constructor; [|by apply IH]. fold (newly_safe c sent l). rewrite elem_of_newly_safe.
  intros (_ & _ & st' & Hin & _). apply Hb, list_elem_of_fmap. by exists (b, st').
Qed.

Lemma safe_to_notar_loop_spec c slot entries : forall sent events stats,
  counters_ok c -> NoDup entries.*1 ->
  Forall (fun e => 0 <= e.2 /\ skip_total c + e.2 <= sc_total_stake c) entries ->
  exists stats', safe_to_notar_loop c slot entries sent events stats =
    Some (sent ++ newly_safe c sent entries,
          events ++ ((fun b => ESafeToNotar (slot, b)) <$> newly_safe c sent entries), stats').
Proof.
  induction entries as [|[b st] l IH]; intros sent events stats Hc Hnd HF; csimpl in *.
  { exists stats. by rewrite !app_nil_r. }
  apply NoDup_cons in Hnd as [Hb Hnd]. apply Forall_cons in HF as [[H0 Hle] HF].
  unfold newly_safe. csimpl. fold (newly_safe c sent l).
  case_bool_decide as Hin; cbn [negb andb]; [by apply IH|].
  rewrite is_safe_to_notar_spec by done. cbn [mbind option_bind].
  destruct (_ && _); [|by apply IH].
  destruct (IH (sent ++ [b]) (events ++ [ESafeToNotar (slot, b)]) (bump event_safe_to_notarize stats) Hc Hnd HF)
    as [stats' ->].
  exists stats'. rewrite newly_safe_app by done. by rewrite <-!app_assoc.
Qed.

Lemma counters_record_ok c vote entry_stake c' :
  counters_ok c -> vote_fits c vote entry_stake ->
  counters_record c vote entry_stake = Some c' ->
  counters_ok c' /\ my_first_vote c' = my_first_vote c /\
  safe_to_notar_sent c' = safe_to_notar_sent c /\ safe_to_skip_sent c' = safe_to_skip_sent c.
Proof.
  intros [C1 C2 C3 C4 C5 C6 C7] Hfit Hrec. destruct c as [mine total skip ntotal entries top sent ssent].
  unfold counters_record in Hrec. simpl in *. destruct vote as [s b|s|s|s b|s|s b]; inv_some; simpl in *.
  - destruct Hfit as [Hold Hle]. pose proof (sum_entries_nonneg _ C3).
    assert (0 <= default 0 (entries !! b) <= sum_entries entries) as Hd.
    { destruct (entries !! b) as [v|] eqn:E; simpl; [by apply (sum_entries_lookup_le entries b)|lia]. }
    split; [|done]. split; simpl; [done|done| | | | |done].
    + apply map_Forall_insert_2; [lia|done].
    + rewrite sum_entries_insert, sat_sub_exact by lia. rewrite sat_add_exact by lia. lia.
    + rewrite sum_entries_insert. lia.
    + rewrite max_entries_insert by (done || lia). lia.
  - split; [|done]. split; simpl; try done; lia.
Qed.

(** What one call of [add_vote] for a skip or notarize vote of a slot does. *)
Record counters_step (c : SlotStakeCounters) (slot : Slot) (c' : SlotStakeCounters)
    (new : list VotorEvent) : Prop := {
  cst_ok : counters_ok c';
  cst_notar b : ESafeToNotar (slot, b) ∈ new <->
    (b ∉ safe_to_notar_sent c) /\
    exists st, notarize_entry_total c' !! b = Some st /\ safe_to_notar_spec c' b st;
  cst_skip : ESafeToSkip slot ∈ new <-> safe_to_skip_sent c = false /\ safe_to_skip_spec c';
  cst_sent b : b ∈ safe_to_notar_sent c' <->
    b ∈ safe_to_notar_sent c \/ ESafeToNotar (slot, b) ∈ new;
  cst_ssent : safe_to_skip_sent c' = true <-> safe_to_skip_sent c = true \/ ESafeToSkip slot ∈ new;
  cst_new : NoDup new /\
    forall e, e ∈ new -> e = ESafeToSkip slot \/ exists b, e = ESafeToNotar (slot, b);
}.

Lemma with_sent_ok c sent ssent : counters_ok c -> NoDup sent -> counters_ok (with_sent c sent ssent).
Proof. intros [] Hnd. destruct c. split; done. Qed.

(** The events for the blocks [new] and, when [skip] holds, for the slot. *)
Definition new_events (slot : Slot) (new : list Hash) (skip : bool) : list VotorEvent :=
  ((fun b => ESafeToNotar (slot, b)) <$> new) ++ (if skip then [ESafeToSkip slot] else []).

Lemma elem_of_new_events slot new skip e :
  e ∈ new_events slot new skip <->
  (e = ESafeToSkip slot /\ skip = true) \/ exists b, e = ESafeToNotar (slot, b) /\ b ∈ new.
Proof.
  unfold new_events. rewrite elem_of_app, list_elem_of_fmap.
  destruct skip; [rewrite list_elem_of_singleton|rewrite elem_of_nil]; naive_solver.
Qed.
Lemma new_events_NoDup slot new skip : NoDup new -> NoDup (new_events slot new skip).
Proof.
  intros Hnd. unfold new_events. apply NoDup_app. split; [|split].
  - apply NoDup_fmap_2; [|done]. intros b b' [= ->]. done.
  - intros e He Hs. apply list_elem_of_fmap in He as (b & -> & _).
    destruct skip; [by apply list_elem_of_singleton in Hs|by apply elem_of_nil in Hs].
  - destruct skip; [apply NoDup_singleton|constructor].
Qed.

Lemma counters_check_eq c slot events stats :
  counters_ok c ->
  exists stats' safe,
    (safe = true <-> safe_to_skip_sent c = false /\ safe_to_skip_spec c) /\
    let new := newly_safe c (safe_to_notar_sent c) (btree_iter (notarize_entry_total c)) in
    counters_check c slot events stats =
      Some (with_sent c (safe_to_notar_sent c ++ new) (safe_to_skip_sent c || safe),
            events ++ new_events slot new safe, stats').
Proof.
  intros Hc. unfold counters_check.
  destruct (safe_to_notar_loop_spec c slot (btree_iter (notarize_entry_total c)) (safe_to_notar_sent c) events stats)
    as [stats' ->]; [done|apply btree_iter_NoDup_keys| |].
  { apply Forall_forall. intros [b st] Hin. apply elem_of_btree_iter in Hin.
    pose proof (sum_entries_lookup_le _ _ _ (co_entries c Hc) Hin). pose proof (co_bound c Hc). simpl. lia. }
  cbn [mbind option_bind]. set (new := newly_safe _ _ _).
  assert (safe_to_skip_sent (with_sent c (safe_to_notar_sent c ++ new) (safe_to_skip_sent c))
            = safe_to_skip_sent c) as -> by (by destruct c).
  destruct (safe_to_skip_sent c) eqn:Es.
  { exists stats', false. split; [naive_solver|]. simpl. unfold new_events. by rewrite app_nil_r. }
  assert (is_safe_to_skip (with_sent c (safe_to_notar_sent c ++ new) false) = is_safe_to_skip c) as ->
    by (by destruct c).
  destruct (is_safe_to_skip_spec c Hc) as (r & -> & Hr). cbn [mbind option_bind].
  destruct r; [exists (bump event_safe_to_skip stats'), true|exists stats', false];
    (split; [naive_solver|]); unfold new_events; rewrite ?app_nil_r, ?app_assoc; [by destruct c|done].
Qed.

Lemma counters_check_step c slot events stats :
  counters_ok c -> my_first_vote c <> None ->
  exists c' new stats', counters_check c slot events stats = Some (c', events ++ new, stats') /\
    counters_step c slot c' new.
Proof.
  intros Hc Hmine. destruct (counters_check_eq c slot events stats Hc) as (stats' & safe & Hsafe & E).
  simpl in E. set (new := newly_safe _ _ _) in E. eexists _, _, stats'. split; [exact E|].
  assert (NoDup new) as Hnew by (apply newly_safe_NoDup, btree_iter_NoDup_keys).
  assert (forall b, b ∈ new <-> (b ∉ safe_to_notar_sent c) /\ exists st, notarize_entry_total c !! b = Some st /\
            safe_to_notar_spec c b st) as Hin.
  { intros b. unfold new. rewrite elem_of_newly_safe, votes_for_spec. setoid_rewrite elem_of_btree_iter.
    unfold safe_to_notar_spec. destruct (my_first_vote c) as [v|]; [|done]. naive_solver. }
  assert (forall b, ESafeToNotar (slot, b) ∈ new_events slot new safe <-> b ∈ new) as He.
  { intros b. rewrite elem_of_new_events. naive_solver. }
  assert (ESafeToSkip slot ∈ new_events slot new safe <-> safe = true) as Hes.
  { rewrite elem_of_new_events. naive_solver. }
  split.
  - apply with_sent_ok; [done|]. apply NoDup_app. split; [apply Hc|]. split; [|done].
    intros b Hb Hb'. by apply Hin in Hb' as [? _].
  - intros b. rewrite He, Hin. by destruct c.
  - rewrite Hes, Hsafe. by destruct c.
  - intros b. rewrite He. destruct c; simpl. by rewrite elem_of_app.
  - rewrite Hes. destruct c; simpl. by rewrite orb_true_iff.
  - split; [by apply new_events_NoDup|]. intros e. rewrite elem_of_new_events. naive_solver.
Qed.

(** ** Stakes only grow, so an event's condition keeps holding *)

Record grows (c c' : SlotStakeCounters) : Prop := {
  gr_total : sc_total_stake c' = sc_total_stake c;
  gr_skip : skip_total c <= skip_total c';
  gr_mine v : my_first_vote c = Some v -> my_first_vote c' = Some v;
  gr_entries b st : notarize_entry_total c !! b = Some st ->
    exists st', notarize_entry_total c' !! b = Some st' /\ st <= st';
  gr_rest : sum_entries (notarize_entry_total c) - max_entries (notarize_entry_total c) <=
            sum_entries (notarize_entry_total c') - max_entries (notarize_entry_total c');
}.

Lemma grows_notar c c' b st :
  grows c c' -> notarize_entry_total c !! b = Some st -> safe_to_notar_spec c b st ->
  exists st', notarize_entry_total c' !! b = Some st' /\ safe_to_notar_spec c' b st'.
Proof.
  intros [G1 G2 G3 G4 G5] Hb [(v & Hv & Hne) Hs]. destruct (G4 b st Hb) as (st' & Hb' & Hle).
  exists st'. split; [done|]. split; [by eauto|].
  unfold stake_supports_notar in *. rewrite G1. lia.
Qed.
Lemma grows_skip c c' : grows c c' -> safe_to_skip_spec c -> safe_to_skip_spec c'.
Proof.
  intros [G1 G2 G3 G4 G5] [(s & b & Hv) Hs]. split; [by eauto|]. rewrite G1. lia.
Qed.

Lemma max_entries_lookup_le m b :
  map_Forall (fun _ st => 0 <= st) m -> default 0 (m !! b) <= max_entries m.
Proof. intros Hm. rewrite (max_entries_delete m b Hm). lia. Qed.

Lemma counters_record_grows c vote entry_stake c' own :
  counters_ok c -> vote_fits c vote entry_stake -> counters_record c vote entry_stake = Some c' ->
  grows c (if bool_decide (my_first_vote c' = None) && own then with_my_first_vote c' (Some vote) else c').
Proof.
  intros [C1 C2 C3 C4 C5 C6 C7] Hfit Hrec. destruct c as [mine total skip ntotal entries top sent ssent].
  unfold counters_record in Hrec. simpl in *. destruct vote as [s b|s|s|s b|s|s b]; inv_some; simpl in *.
  - destruct Hfit as [Hold Hle].
    assert (0 <= default 0 (entries !! b)) as Hd.
    { destruct (entries !! b) eqn:E; simpl; [by apply (C3 b)|lia]. }
    pose proof (max_entries_lookup_le entries b C3).
    assert (forall (b' : Z) st, entries !! b' = Some st ->
      exists st', <[b := entry_stake]> entries !! b' = Some st' /\ st <= st') as HG.
    { intros b' st Hb'. rewrite lookup_insert. case_decide; [subst b'|eauto with lia].
      exists entry_stake. rewrite Hb' in Hold. eauto. }
    case_bool_decide; destruct own; simpl; split; simpl; try done; try lia; try naive_solver;
      rewrite sum_entries_insert, max_entries_insert by (done || lia); lia.
  - case_bool_decide; destruct own; simpl; split; simpl; try done; try lia; naive_solver lia.
Qed.

(** The vote types the counters look at. *)
Definition counted (vote : Vote) : bool :=
  match vote with Skip _ | Notarize _ _ => true | _ => false end.

Lemma counters_record_counted c vote st :
  if counted vote then is_Some (counters_record c vote st) else counters_record c vote st = None.
Proof. destruct c, vote; simpl; eauto. Qed.

Lemma counters_add_vote_step c vote entry_stake own events stats :
  counters_ok c -> vote_fits c vote entry_stake -> counted vote = true ->
  exists c' new stats',
    counters_add_vote c vote entry_stake own events stats = Some (c', events ++ new, stats') /\
    counters_step c (vote_slot vote) c' new /\ grows c c' /\
    my_first_vote c' = match my_first_vote c with
                       | Some v => Some v
                       | None => if own then Some vote else None
                       end.
Proof.
  intros Hc Hfit Hct. unfold counters_add_vote.
  pose proof (counters_record_counted c vote entry_stake) as Hr. rewrite Hct in Hr.
  destruct Hr as [c1 Hrec]. rewrite Hrec.
  destruct (counters_record_ok _ _ _ _ Hc Hfit Hrec) as (Hc1 & Hm & Hsent & Hssent).
  pose proof (counters_record_grows _ _ _ _ own Hc Hfit Hrec) as Hg.
  set (c2 := if _ && own then _ else c1) in *.
  assert (counters_ok c2 /\ safe_to_notar_sent c2 = safe_to_notar_sent c /\
    safe_to_skip_sent c2 = safe_to_skip_sent c /\
    my_first_vote c2 = match my_first_vote c with
                       | Some v => Some v | None => if own then Some vote else None end)
    as (Hc2 & Hsent2 & Hssent2 & Hm2).
  { unfold c2. rewrite <-Hm, <-Hsent, <-Hssent. destruct c1 as [[] ? ? ? ? ? ? ?], own; simpl; split_and!; try done;
      destruct Hc1; by split. }
  case_bool_decide as Hnone.
  - exists c2, [], stats. rewrite app_nil_r. split; [done|]. split; [|done].
    split; [done| | | | |].
    + intros b. rewrite elem_of_nil. split; [done|]. intros (_ & st & _ & (v & Hv & _) & _). congruence.
    + rewrite elem_of_nil. split; [done|]. intros (_ & (s & b & Hv) & _). congruence.
    + intros b. rewrite elem_of_nil, Hsent2. naive_solver.
    + rewrite elem_of_nil, Hssent2. naive_solver.
    + split; [constructor|]. intros e He. by apply elem_of_nil in He.
  - destruct (counters_check_step c2 (vote_slot vote) events stats Hc2 Hnone) as (c' & new & stats' & E & [K1 K2 K3 K4 K5 K6]).
    rewrite Hsent2, Hssent2 in *.
    assert (exists sent ssent, c' = with_sent c2 sent ssent) as (sent & ssent & ->).
    { destruct (counters_check_eq c2 (vote_slot vote) events stats Hc2) as (? & ? & _ & E').
      rewrite E in E'. injection E' as Ec' _ _. eauto. }
    exists (with_sent c2 sent ssent), new, stats'. split; [done|]. split; [by split|].
    rewrite <-Hm2. split; [|by destruct c2]. destruct Hg, c2. by split.
Qed.

(** A run: the votes of one slot with the totals their pools reported. *)
Fixpoint counters_run (c : SlotStakeCounters) (inputs : list (Vote * Stake * bool))
    (events : list VotorEvent) (stats : ConsensusPoolStats)
    : option (SlotStakeCounters * list VotorEvent) :=
  match inputs with
  | [] => Some (c, events)
  | (vote, st, own) :: inputs =>
    '(c, events, stats) ← counters_add_vote c vote st own events stats;
    counters_run c inputs events stats
  end.

(** Each vote of the run fits the state it meets. *)
Fixpoint run_fits (slot : Slot) (c : SlotStakeCounters) (inputs : list (Vote * Stake * bool))
    (stats : ConsensusPoolStats) : Prop :=
  match inputs with
  | [] => True
  | (vote, st, own) :: inputs =>
    vote_slot vote = slot /\ vote_fits c vote st /\
    forall c' events' stats', counters_add_vote c vote st own [] stats = Some (c', events', stats') ->
      run_fits slot c' inputs stats'
  end.

(** The log of events is exactly what the conditions say of the state. *)
Record log_exact (slot : Slot) (c : SlotStakeCounters) (events : list VotorEvent) : Prop := {
  le_nodup : NoDup events;
  le_notar b : ESafeToNotar (slot, b) ∈ events <->
    exists st, notarize_entry_total c !! b = Some st /\ safe_to_notar_spec c b st;
  le_skip : ESafeToSkip slot ∈ events <-> safe_to_skip_spec c;
  le_sent b : b ∈ safe_to_notar_sent c <-> ESafeToNotar (slot, b) ∈ events;
  le_ssent : safe_to_skip_sent c = true <-> ESafeToSkip slot ∈ events;
}.

Lemma log_exact_step slot c c' events new :
  log_exact slot c events -> counters_step c slot c' new -> grows c c' ->
  log_exact slot c' (events ++ new).
Proof.
  intros [L1 L2 L3 L4 L5] [K1 K2 K3 K4 K5 [K6 K7]] Hg. split.
  - apply NoDup_app. split; [done|]. split; [|done]. intros e He Hn.
    destruct (K7 e Hn) as [->|[b ->]].
    + apply K3 in Hn as [Hn _]. apply L5 in He. congruence.
    + apply K2 in Hn as [Hn _]. by apply L4 in He.
  - intros b. rewrite elem_of_app, L2, K2. split.
    + intros [(st & Hb & Hs)|[_ H]]; [by eapply grows_notar|done].
    + intros H. destruct (decide (b ∈ safe_to_notar_sent c)) as [Hin|Hin]; [left|by right].
      by apply L2, L4.
  - rewrite elem_of_app, L3, K3. split.
    + intros [H|[_ H]]; [by eapply grows_skip|done].
    + intros H. destruct (safe_to_skip_sent c) eqn:E; [left; by apply L3, L5|by right].
  - intros b. rewrite K4, elem_of_app, L4. done.
  - rewrite K5, elem_of_app, L5. done.
Qed.

(** The events only accumulate, so a call behaves the same on any prefix. *)
Lemma safe_to_notar_loop_frame c slot entries : forall sent events stats sent' events' stats',
  safe_to_notar_loop c slot entries sent [] stats = Some (sent', events', stats') ->
  safe_to_notar_loop c slot entries sent events stats = Some (sent', events ++ events', stats').
Proof.
  assert (forall entries sent e0 events stats sent' events' stats',
    safe_to_notar_loop c slot entries sent e0 stats = Some (sent', events', stats') ->
    safe_to_notar_loop c slot entries sent (events ++ e0) stats = Some (sent', events ++ events', stats')) as H.
  { clear. induction entries as [|[b st] l IH]; intros sent e0 events stats sent' events' stats'; simpl.
    { intros [= <- <- <-]. done. }
    case_bool_decide; [apply IH|]. destruct (is_safe_to_notar c b st) as [[]|]; simpl; [|apply IH|done].
    intros E. apply (IH _ _ events) in E. by rewrite app_assoc in E. }
  intros sent events stats sent' events' stats' E. apply (H _ _ _ events) in E. by rewrite app_nil_r in E.
Qed.

Lemma counters_add_vote_frame c vote st own events stats c' events' stats' :
  counters_add_vote c vote st own [] stats = Some (c', events', stats') ->
  counters_add_vote c vote st own events stats = Some (c', events ++ events', stats').
Proof.
  unfold counters_add_vote, counters_check. destruct (counters_record c vote st) as [c1|];
    [|intros [= <- <- <-]; by rewrite app_nil_r].
  set (c2 := if _ && own then _ else c1). case_bool_decide; [intros [= <- <- <-]; by rewrite app_nil_r|].
  destruct (safe_to_notar_loop _ _ _ _ [] _) as [[[sent ev] st2]|] eqn:E; [|done].
  rewrite (safe_to_notar_loop_frame _ _ _ _ events _ _ _ _ E). cbn [mbind option_bind].
  destruct (safe_to_skip_sent _); [intros [= <- <- <-]; done|].
  destruct (is_safe_to_skip _) as [[]|]; simpl; intros; inv_some; by rewrite ?app_assoc.
Qed.

(** The stakes after [add_vote] are those the first half recorded. *)
Lemma counters_add_vote_stakes c vote st own events stats c1 c' events' stats' :
  counters_record c vote st = Some c1 ->
  counters_add_vote c vote st own events stats = Some (c', events', stats') ->
  notarize_entry_total c' = notarize_entry_total c1 /\ skip_total c' = skip_total c1 /\
  sc_total_stake c' = sc_total_stake c1.
Proof.
  intros Hrec. unfold counters_add_vote, counters_check. rewrite Hrec.
  assert (forall c2, (exists mine sent ssent, c2 = with_sent (with_my_first_vote c1 mine) sent ssent) ->
    notarize_entry_total c2 = notarize_entry_total c1 /\ skip_total c2 = skip_total c1 /\
    sc_total_stake c2 = sc_total_stake c1) as Hc2.
  { intros c2 (mine & sent & ssent & ->). by destruct c1. }
  assert (exists mine, (if bool_decide (my_first_vote c1 = None) && own then with_my_first_vote c1 (Some vote) else c1)
    = with_my_first_vote c1 mine) as [mine ->].
  { destruct (_ && own); [by eexists|]. exists (my_first_vote c1). by destruct c1. }
  case_bool_decide.
  - intros [= <- <- <-]. apply Hc2. exists mine, (safe_to_notar_sent c1), (safe_to_skip_sent c1). by destruct c1.
  - intros Hx. apply bind_Some in Hx as ([[sent ev] st2] & _ & Hx).
    destruct (safe_to_skip_sent _); [injection Hx as <- <- <-; apply Hc2; by do 3 eexists|].
    apply bind_Some in Hx as ([] & _ & Hx); injection Hx as <- <- <-; apply Hc2; do 3 eexists; by destruct c1.
Qed.

Lemma counters_uncounted c vote st own events stats :
  counted vote = false -> counters_add_vote c vote st own events stats = Some (c, events, stats).
Proof.
  intros Hct. unfold counters_add_vote. pose proof (counters_record_counted c vote st) as Hr.
  rewrite Hct in Hr. by rewrite Hr.
Qed.

Lemma counters_run_exact slot inputs : forall c events stats,
  counters_ok c -> log_exact slot c events -> run_fits slot c inputs stats ->
  exists c' events', counters_run c inputs events stats = Some (c', events') /\
    counters_ok c' /\ log_exact slot c' events'.
Proof.
  induction inputs as [|[[vote st] own] l IH]; intros c events stats Hc HL Hfits; cbn [counters_run run_fits] in *.
  { eauto. }
  destruct Hfits as (Hslot & Hfit & Hrest). destruct (counted vote) eqn:Hct.
  - destruct (counters_add_vote_step c vote st own [] stats Hc Hfit Hct) as (c1 & new & stats1 & E & Hstep & Hg & _).
    simpl in E. rewrite (counters_add_vote_frame _ _ _ _ events _ _ _ _ E). cbn [mbind option_bind].
    rewrite Hslot in Hstep. apply IH; [apply Hstep|by eapply log_exact_step|by eapply Hrest].
  - rewrite counters_uncounted by done. cbn [mbind option_bind].
    apply IH; [done|done|]. eapply (Hrest c []). by apply counters_uncounted.
Qed.

Lemma counters_new_ok total : 0 < total <= u64_max -> counters_ok (counters_new total).
Proof.
  intros Ht. split; simpl; try done.
  - change (sum_entries ∅) with 0. lia.
  - by apply NoDup_nil_2.
Qed.

Lemma log_exact_new slot total : log_exact slot (counters_new total) [].
Proof.
  split; simpl; [by apply NoDup_nil_2|intros b| |intros b|]; rewrite !elem_of_nil; (split; [done|]).
  - intros (st & Hst & _). by rewrite lookup_empty in Hst.
  - intros [(s & b & Hv) _]. done.
  - done.
  - done.
Qed.


(** The run of the witness issues both events. *)
Example safe_events_run :
  snd <$> counters_run (counters_new 100)
    [(Notarize 7 1, 30, true); (Notarize 7 2, 41, false); (Skip 7, 20, false)] [] (stats_default 0) =
  Some [ESafeToNotar (7, 2); ESafeToSkip 7].
Proof. vm_compute. reflexivity. Qed.

(** The first vote of the node in the slot is remembered and decides the
    fallback votes: a call records it when there is none, never replaces it, and no
    event ever asks for a fallback vote for the block it notarized. *)
Theorem my_first_vote_fixed c vote st own events stats
    (Hc : counters_ok c) (Hfit : vote_fits c vote st) (Hct : counted vote = true) :
  exists c' new stats', counters_add_vote c vote st own events stats = Some (c', events ++ new, stats') /\
    my_first_vote c' = match my_first_vote c with
                       | Some v => Some v
                       | None => if own then Some vote else None
                       end /\
    (forall s b, my_first_vote c' = Some (Notarize s b) -> ESafeToNotar (vote_slot vote, b) ∉ new) /\
    (my_first_vote c' = None -> new = []).
Proof.
  destruct (counters_add_vote_step c vote st own events stats Hc Hfit Hct)
    as (c' & new & stats' & E & [K1 K2 K3 K4 K5 [K6 K7]] & _ & Hm).
  exists c', new, stats'. split; [done|]. split; [done|]. split.
  - intros s b Hv Hin. apply K2 in Hin as (_ & x & _ & (v & Hv' & Hne) & _). congruence.
  - intros Hnone. destruct new as [|e new]; [done|]. exfalso.
    destruct (K7 e ltac:(by left)) as [->|[b ->]].
    + pose proof (proj1 K3 ltac:(by left)) as (_ & (s & b & Hv) & _). congruence.
    + pose proof (proj1 (K2 b) ltac:(by left)) as (_ & x & _ & (v & Hv & _) & _). congruence.
Qed.
Lemma my_first_vote_fixed_witness :
  exists c' new stats',
    counters_add_vote (counters_new 100) (Notarize 7 1) 60 true [] (stats_default 0) = Some (c', [] ++ new, stats') /\
    my_first_vote c' = Some (Notarize 7 1) /\
    (forall s b, my_first_vote c' = Some (Notarize s b) -> ESafeToNotar (7, b) ∉ new) /\
    (my_first_vote c' = None -> new = []).
Proof.
  apply (my_first_vote_fixed (counters_new 100) (Notarize 7 1) 60 true [] (stats_default 0));
    [apply counters_new_ok; by vm_compute|by vm_compute|reflexivity].
Defined.
