(* ===== verification/CertBuilder.v ===== *)
(** * Certificate builder

    [votor/src/consensus_pool/certificate_builder.rs]: aggregates the signatures of
    votes and records the ranks of their validators in bitmaps.  BLS aggregation
    and the encoding of bitmaps are external crates ([solana-bls-signatures],
    [solana-signer-store]); they are the fields of [BlsOps], and what the code
    relies on are the laws of [BlsLaws]. *)

From S2P Require Import Prelude.
From S2P Require Import Messages.

(** ** External operations *)

Inductive Decoded :=
  | Base2 (bits : list bool)
  | Base3 (bits0 bits1 : list bool).

Class BlsOps := {
  SignatureProjective : Type;
  BlsError : Type;
  EncodeError : Type;
  DecodeError : Type;
  sig_identity : SignatureProjective;
  aggregate_with : SignatureProjective -> list BLSSignature -> result BlsError SignatureProjective;
  aggregate_with_projective :
    SignatureProjective -> list SignatureProjective -> result BlsError SignatureProjective;
  sig_into : SignatureProjective -> BLSSignature;
  encode_base2 : list bool -> result EncodeError (list Z);
  encode_base3 : list bool -> list bool -> result EncodeError (list Z);
  decode : list Z -> nat -> result DecodeError Decoded;
}.

Definition MAXIMUM_VALIDATORS : nat := 4096.

(** The bit at an index is set. *)
Definition bit (l : list bool) (i : nat) : Prop := l !! i = Some true.

(** [sig_valid] are the signatures that are points of the group. *)
Class BlsLaws `{BlsOps} := {
  sig_valid : BLSSignature -> Prop;
  aggregate_nil s : aggregate_with s [] = Ok s;
  aggregate_ok s l : Forall sig_valid l -> exists s', aggregate_with s l = Ok s';
  aggregate_app s l1 l2 s' : aggregate_with s l1 = Ok s' ->
    aggregate_with s (l1 ++ l2) = aggregate_with s' l2;
  aggregate_projective l1 l2 s1 s2 :
    aggregate_with sig_identity l1 = Ok s1 -> aggregate_with sig_identity l2 = Ok s2 ->
    aggregate_with_projective s1 [s2] = aggregate_with sig_identity (l1 ++ l2);
  encode_base2_decode bits : (length bits <= MAXIMUM_VALIDATORS)%nat ->
    exists bytes, encode_base2 bits = Ok bytes /\
      forall n, (length bits <= n)%nat -> decode bytes n = Ok (Base2 bits);
  encode_base3_decode bits0 bits1 : (length bits0 <= MAXIMUM_VALIDATORS)%nat ->
    length bits0 = length bits1 -> (forall i, ~ (bit bits0 i /\ bit bits1 i)) ->
    exists bytes, encode_base3 bits0 bits1 = Ok bytes /\
      forall n, (length bits0 <= n)%nat -> decode bytes n = Ok (Base3 bits0 bits1);
}.

(** ** Bit vectors *)

Fixpoint last_one (l : list bool) : option nat :=
  match l with
  | [] => None
  | b :: l => match last_one l with
              | Some i => Some (S i)
              | None => if b then Some 0%nat else None
              end
  end.

(** [BitVec::iter_ones]. *)
Fixpoint iter_ones_from (i : nat) (l : list bool) : list nat :=
  match l with
  | [] => []
  | b :: l => (if b then [i] else []) ++ iter_ones_from (S i) l
  end.
Definition iter_ones (l : list bool) : list nat := iter_ones_from 0 l.

Definition default_bitvec : list bool := replicate MAXIMUM_VALIDATORS false.
Arguments MAXIMUM_VALIDATORS : simpl never.
Arguments default_bitvec : simpl never.

(** [bitmap.last_one().map_or(0, |i| i.saturating_add(1))]. *)
Definition used_length (l : list bool) : nat :=
  match last_one l with None => 0%nat | Some i => S i end.

Section builder.
Context `{BlsOps}.

Inductive AggregateError :=
  | AggBls (e : BlsError)
  | InvalidRank (rank : Z)
  | ValidatorAlreadyIncluded.

Inductive BuildError :=
  | Encode (e : EncodeError)
  | BuildBls (e : BlsError).

Definition build_cert_from_bitmap (c : CertificateType) (signature : SignatureProjective)
    (bitmap : list bool) : result EncodeError Certificate :=
  match encode_base2 (resize (used_length bitmap) false bitmap) with
  | Ok bytes => Ok (mkCertificate c (sig_into signature) bytes)
  | Err e => Err e
  end.

Definition build_cert_from_bitmaps (c : CertificateType) (signature : SignatureProjective)
    (bitmap0 bitmap1 : list bool) : result EncodeError Certificate :=
  let new_length := Nat.max (used_length bitmap0) (used_length bitmap1) in
  match encode_base3 (resize new_length false bitmap0) (resize new_length false bitmap1) with
  | Ok bytes => Ok (mkCertificate c (sig_into signature) bytes)
  | Err e => Err e
  end.

Definition try_set_bitmap (bitmap : list bool) (rank : Z) : result AggregateError (list bool) :=
  match bitmap !! Z.to_nat rank with
  | None => Err (InvalidRank rank)
  | Some true => Err ValidatorAlreadyIncluded
  | Some false => Ok (<[Z.to_nat rank := true]> bitmap)
  end.

Inductive BuilderType :=
  | SingleVote (signature : SignatureProjective) (bitmap : list bool)
  | BSkip (signature0 : SignatureProjective) (bitmap0 : list bool)
      (sig_and_bitmap1 : option (SignatureProjective * list bool))
  | BNotarFallback (signature : SignatureProjective) (bitmap0 : list bool)
      (bitmap1 : option (list bool)).

Definition builder_type_new (c : CertificateType) : BuilderType :=
  match c with
  | CSkip _ => BSkip sig_identity default_bitvec None
  | CNotarizeFallback _ _ => BNotarFallback sig_identity default_bitvec None
  | _ => SingleVote sig_identity default_bitvec
  end.

(** The loops over the messages, up to the first error ([Err]) or failed
    assertion ([None]); [x] is what [get_or_insert_with] puts beside a fresh
    second bitmap. *)
Fixpoint set_bits (t0 : VoteType) (msgs : list VoteMessage) (bitmap : list bool)
    : option (result AggregateError (list bool)) :=
  match msgs with
  | [] => Some (Ok bitmap)
  | msg :: msgs =>
    rust_assert (bool_decide (get_type (vm_vote msg) = t0));;
    match try_set_bitmap bitmap (vm_rank msg) with
    | Err e => Some (Err e)
    | Ok bitmap => set_bits t0 msgs bitmap
    end
  end.

Fixpoint set_bits_two {A} (x : A) (t0 t1 : VoteType) (msgs : list VoteMessage) (bitmap0 : list bool)
    (bitmap1 : option (A * list bool))
    : option (result AggregateError (list bool * option (A * list bool))) :=
  match msgs with
  | [] => Some (Ok (bitmap0, bitmap1))
  | msg :: msgs =>
    if bool_decide (get_type (vm_vote msg) = t0) then
      match try_set_bitmap bitmap0 (vm_rank msg) with
      | Err e => Some (Err e)
      | Ok bitmap0 => set_bits_two x t0 t1 msgs bitmap0 bitmap1
      end
    else
      rust_assert (bool_decide (get_type (vm_vote msg) = t1));;
      let '(y, bitmap) := default (x, default_bitvec) bitmap1 in
      match try_set_bitmap bitmap (vm_rank msg) with
      | Err e => Some (Err e)
      | Ok bitmap => set_bits_two x t0 t1 msgs bitmap0 (Some (y, bitmap))
      end
  end.

Definition signatures_of_type (t : VoteType) (msgs : list VoteMessage) : list BLSSignature :=
  vm_signature <$> filter (fun m => get_type (vm_vote m) = t) msgs.

(** [BuilderType::aggregate]; on an error the builder is dropped by the caller,
    so only the success value carries it. *)
Definition builder_aggregate (b : BuilderType) (c : CertificateType) (msgs : list VoteMessage)
    : option (result AggregateError BuilderType) :=
  let vote_types := (limits_and_vote_types c).2 in
  match b with
  | BSkip signature0 bitmap0 sig_and_bitmap1 =>
    rust_assert (bool_decide (length vote_types = 2%nat));;
    t0 ← vote_types !! 0%nat;
    t1 ← vote_types !! 1%nat;
    r ← set_bits_two sig_identity t0 t1 msgs bitmap0 sig_and_bitmap1;
    match r with
    | Err e => Some (Err e)
    | Ok (bitmap0, sig_and_bitmap1) =>
      match aggregate_with signature0 (signatures_of_type t0 msgs) with
      | Err e => Some (Err (AggBls e))
      | Ok signature0 =>
        match sig_and_bitmap1 with
        | None => Some (Ok (BSkip signature0 bitmap0 None))
        | Some (signature, bitmap1) =>
          match aggregate_with signature (signatures_of_type t1 msgs) with
          | Err e => Some (Err (AggBls e))
          | Ok signature => Some (Ok (BSkip signature0 bitmap0 (Some (signature, bitmap1))))
          end
        end
      end
    end
  | BNotarFallback signature bitmap0 bitmap1 =>
    rust_assert (bool_decide (length vote_types = 2%nat));;
    t0 ← vote_types !! 0%nat;
    t1 ← vote_types !! 1%nat;
    r ← set_bits_two tt t0 t1 msgs bitmap0 (pair tt <$> bitmap1);
    match r with
    | Err e => Some (Err e)
    | Ok (bitmap0, bitmap1) =>
      match aggregate_with signature (vm_signature <$> msgs) with
      | Err e => Some (Err (AggBls e))
      | Ok signature => Some (Ok (BNotarFallback signature bitmap0 (snd <$> bitmap1)))
      end
    end
  | SingleVote signature bitmap =>
    rust_assert (bool_decide (length vote_types = 1%nat));;
    t0 ← vote_types !! 0%nat;
    r ← set_bits t0 msgs bitmap;
    match r with
    | Err e => Some (Err e)
    | Ok bitmap =>
      match aggregate_with signature (vm_signature <$> msgs) with
      | Err e => Some (Err (AggBls e))
      | Ok signature => Some (Ok (SingleVote signature bitmap))
      end
    end
  end.

Definition map_encode_err (r : result EncodeError Certificate) : result BuildError Certificate :=
  match r with Ok c => Ok c | Err e => Err (Encode e) end.

Definition builder_build (b : BuilderType) (c : CertificateType) : result BuildError Certificate :=
  match b with
  | SingleVote signature bitmap => map_encode_err (build_cert_from_bitmap c signature bitmap)
  | BSkip signature0 bitmap0 None => map_encode_err (build_cert_from_bitmap c signature0 bitmap0)
  | BSkip signature0 bitmap0 (Some (signature1, bitmap1)) =>
    match aggregate_with_projective signature0 [signature1] with
    | Err e => Err (BuildBls e)
    | Ok signature0 => map_encode_err (build_cert_from_bitmaps c signature0 bitmap0 bitmap1)
    end
  | BNotarFallback signature bitmap0 None =>
    map_encode_err (build_cert_from_bitmap c signature bitmap0)
  | BNotarFallback signature bitmap0 (Some bitmap1) =>
    map_encode_err (build_cert_from_bitmaps c signature bitmap0 bitmap1)
  end.

Record CertificateBuilder := mkBuilder {
  cb_builder_type : BuilderType;
  cb_cert_type : CertificateType;
}.
Definition certificate_builder_new (c : CertificateType) : CertificateBuilder :=
  mkBuilder (builder_type_new c) c.
Definition certificate_builder_aggregate (b : CertificateBuilder) (msgs : list VoteMessage)
    : option (result AggregateError CertificateBuilder) :=
  r ← builder_aggregate (cb_builder_type b) (cb_cert_type b) msgs;
  match r with
  | Err e => Some (Err e)
  | Ok t => Some (Ok (mkBuilder t (cb_cert_type b)))
  end.
Definition certificate_builder_build (b : CertificateBuilder) : result BuildError Certificate :=
  builder_build (cb_builder_type b) (cb_cert_type b).
End builder.

(** ** Bit-vector lemmas *)

Lemma last_one_Some l i : last_one l = Some i -> bit l i /\ (i < length l)%nat.
Proof.
  revert i. induction l as [|b l IH]; intros i Hi; simpl in *; [done|].
  destruct (last_one l) as [j|] eqn:E.
  - injection Hi as <-. destruct (IH j eq_refl). split; [done|lia].
  - destruct b; [|done]. injection Hi as <-. split; [done|lia].
Qed.
Lemma bit_used_length l i : bit l i -> (i < used_length l)%nat.
Proof.
  unfold used_length. revert i. induction l as [|b l IH]; intros i Hi; [done|].
  destruct i as [|i]; simpl in *.
  - unfold bit in Hi. simpl in Hi. injection Hi as ->. destruct (last_one l); lia.
  - specialize (IH i Hi). destruct (last_one l); lia.
Qed.
Lemma used_length_le l n : (forall i, bit l i -> (i < n)%nat) -> (used_length l <= n)%nat.
Proof.
  intros Hn. unfold used_length. destruct (last_one l) as [i|] eqn:E; [|lia].
  apply last_one_Some in E as [E _]. apply Hn in E. lia.
Qed.
Lemma bit_lt l i : bit l i -> (i < length l)%nat.
Proof. apply lookup_lt_Some. Qed.
Lemma bit_resize l n i : (used_length l <= n)%nat -> bit (resize n false l) i <-> bit l i.
Proof.
  intros Hn. unfold bit. split; intros Hi.
  - destruct (decide (i < n)%nat) as [Hin|Hin].
    + destruct (decide (i < length l)%nat) as [Hil|Hil].
      * by rewrite lookup_resize in Hi.
      * rewrite lookup_resize_new in Hi by lia. done.
    + rewrite lookup_resize_old in Hi by lia. done.
  - pose proof (bit_used_length l i Hi). pose proof (bit_lt l i Hi).
    by rewrite lookup_resize by lia.
Qed.
Lemma elem_of_iter_ones l i : i ∈ iter_ones l <-> bit l i.
Proof.
  assert (forall l k i, i ∈ iter_ones_from k l <-> exists j, i = (k + j)%nat /\ bit l j) as Hgen.
  { clear. intros l. induction l as [|b l IH]; intros k i; cbn [iter_ones_from].
    - rewrite elem_of_nil. split; [done|]. by intros (j & _ & Hj).
    - rewrite elem_of_app, IH. split.
      + intros [Hb|(j & -> & Hj)]; [|exists (S j); split; [lia|done]].
        destruct b; [|by apply elem_of_nil in Hb]. apply list_elem_of_singleton in Hb as ->.
        exists 0%nat. split; [lia|done].
      + intros ([|j] & -> & Hj); [left|right; exists j; split; [lia|done]].
        injection Hj as ->. rewrite list_elem_of_singleton. lia. }
  unfold iter_ones. rewrite Hgen. split; [intros (j & -> & Hj); done|]. intros Hi. by exists i.
Qed.

(** ** Correctness of the builder *)

Definition ranks (msgs : list VoteMessage) : list nat := (fun m => Z.to_nat (vm_rank m)) <$> msgs.

(** A full-size bitmap that holds the set of ranks [R]. *)
Definition represents (bitmap : list bool) (R : gset nat) : Prop :=
  length bitmap = MAXIMUM_VALIDATORS /\ forall i, bit bitmap i <-> i ∈ R.

Lemma represents_default : represents default_bitvec ∅.
Proof.
  split; [apply length_replicate|]. intros i. unfold bit, default_bitvec.
  rewrite lookup_replicate. set_solver.
Qed.

(** What a decoded bitmap says: the ranks of the first and second vote type. *)
Definition decodes_to (d : Decoded) (R0 R1 : gset nat) : Prop :=
  match d with
  | Base2 b => (forall i, bit b i <-> i ∈ R0) /\ R1 = ∅
  | Base3 b0 b1 => (forall i, bit b0 i <-> i ∈ R0) /\ (forall i, bit b1 i <-> i ∈ R1)
  end.

Section builder_correct.
Context `{BlsOps, !BlsLaws}.

(** A certificate that carries the validators [R0] and [R1] and the aggregate
    of [sigs]. *)
Record cert_valid (c : CertificateType) (cert : Certificate) (R0 R1 : gset nat)
    (sigs : list BLSSignature) : Prop := {
  cv_type : cert_type cert = c;
  cv_signature : exists s, aggregate_with sig_identity sigs = Ok s /\ cert_signature cert = sig_into s;
  cv_bitmap n : (forall r, r ∈ R0 ∪ R1 -> (r < n)%nat) ->
    exists d, decode (cert_bitmap cert) n = Ok d /\ decodes_to d R0 R1;
  cv_base2 n : R1 = ∅ -> (forall r, r ∈ R0 -> (r < n)%nat) ->
    exists b, decode (cert_bitmap cert) n = Ok (Base2 b) /\ forall i, bit b i <-> i ∈ R0;
}.

(** Messages of one type whose validators are distinct and have valid signatures. *)
Record msgs_ok (t : VoteType) (msgs : list VoteMessage) : Prop := {
  mo_type : Forall (fun m => get_type (vm_vote m) = t) msgs;
  mo_ranks : NoDup (ranks msgs);
  mo_bound : Forall (fun r => (r < MAXIMUM_VALIDATORS)%nat) (ranks msgs);
  mo_sigs : Forall (fun m => sig_valid (vm_signature m)) msgs;
}.

Lemma set_bits_ok t0 msgs : forall bitmap R,
  represents bitmap R -> msgs_ok t0 msgs -> R ## list_to_set (ranks msgs) ->
  exists bitmap', set_bits t0 msgs bitmap = Some (Ok bitmap') /\
    represents bitmap' (R ∪ list_to_set (ranks msgs)).
Proof.
  induction msgs as [|msg msgs IH]; intros bitmap R HR [O1 O2 O3 O4] Hdisj; simpl in *.
  { exists bitmap. split; [done|]. by rewrite union_empty_r_L. }
  apply Forall_cons in O1 as [Ht O1]. apply NoDup_cons in O2 as [Hn O2].
  apply Forall_cons in O3 as [Hb O3]. apply Forall_cons in O4 as [_ O4].
  rewrite bool_decide_true by done. cbn [rust_assert mbind option_bind]. unfold try_set_bitmap.
  destruct HR as [Hlen HR]. set (r := Z.to_nat (vm_rank msg)) in *.
  destruct (lookup_lt_is_Some_2 bitmap r) as [b Hr]; [lia|]. rewrite Hr.
  destruct b; [exfalso; assert (r ∈ R) by (by apply HR); set_solver|].
  destruct (IH (<[r := true]> bitmap) (R ∪ {[r]})) as (bitmap' & E & HR').
  - split; [by rewrite length_insert|]. intros i. unfold bit. rewrite elem_of_union, elem_of_singleton.
    destruct (decide (i = r)) as [->|Hne].
    + rewrite list_lookup_insert_eq by lia. naive_solver.
    + rewrite list_lookup_insert_ne by done. rewrite <-HR. naive_solver.
  - by split.
  - apply disjoint_union_l. split; [set_solver|]. intros x Hx%elem_of_singleton Hx'.
    apply elem_of_list_to_set in Hx'. by subst x.
  - exists bitmap'. split; [done|]. by rewrite union_assoc_L.
Qed.

Definition map_ok {E A B} (f : A -> B) (r : result E A) : result E B :=
  match r with Ok a => Ok (f a) | Err e => Err e end.

Lemma set_bits_two_first {A} (x : A) t0 t1 msgs : forall bitmap0 bitmap1,
  Forall (fun m => get_type (vm_vote m) = t0) msgs ->
  set_bits_two x t0 t1 msgs bitmap0 bitmap1 =
  (map_ok (fun b => (b, bitmap1))) <$> set_bits t0 msgs bitmap0.
Proof.
  induction msgs as [|msg msgs IH]; intros bitmap0 bitmap1 HF; simpl; [done|].
  apply Forall_cons in HF as [Ht HF]. rewrite bool_decide_true by done. simpl.
  destruct (try_set_bitmap bitmap0 (vm_rank msg)); [by apply IH|done].
Qed.
Lemma set_bits_two_second {A} (x : A) t0 t1 msgs : forall bitmap0 y bitmap1,
  t0 <> t1 -> Forall (fun m => get_type (vm_vote m) = t1) msgs ->
  set_bits_two x t0 t1 msgs bitmap0 (Some (y, bitmap1)) =
  (map_ok (fun b => (bitmap0, Some (y, b)))) <$> set_bits t1 msgs bitmap1.
Proof.
  induction msgs as [|msg msgs IH]; intros bitmap0 y bitmap1 Hne HF; simpl; [done|].
  apply Forall_cons in HF as [Ht HF]. rewrite bool_decide_false, bool_decide_true by congruence. simpl.
  destruct (try_set_bitmap bitmap1 (vm_rank msg)); [by apply IH|done].
Qed.
Lemma set_bits_two_fresh {A} (x : A) t0 t1 msg msgs bitmap0 :
  get_type (vm_vote msg) <> t0 ->
  set_bits_two x t0 t1 (msg :: msgs) bitmap0 None =
  set_bits_two x t0 t1 (msg :: msgs) bitmap0 (Some (x, default_bitvec)).
Proof. intros Hne. simpl. by rewrite bool_decide_false. Qed.

Lemma build_base2_ok c s bitmap R sigs :
  represents bitmap R -> aggregate_with sig_identity sigs = Ok s ->
  exists cert, build_cert_from_bitmap c s bitmap = Ok cert /\ cert_valid c cert R ∅ sigs.
Proof.
  intros [Hlen HR] Hs. unfold build_cert_from_bitmap.
  assert (used_length bitmap <= MAXIMUM_VALIDATORS)%nat as Hle.
  { apply used_length_le. intros i Hi. rewrite <-Hlen. by apply bit_lt. }
  destruct (encode_base2_decode (resize (used_length bitmap) false bitmap)) as (bytes & -> & Hd);
    [by rewrite length_resize|].
  eexists. split; [done|]. rewrite length_resize in Hd.
  assert (forall i, bit (resize (used_length bitmap) false bitmap) i <-> i ∈ R) as Hbits.
  { intros i. rewrite bit_resize by lia. apply HR. }
  assert (forall n, (forall r, r ∈ R -> (r < n)%nat) -> (used_length bitmap <= n)%nat) as Hn.
  { intros n Hr. apply used_length_le. intros i Hi. by apply Hr, HR. }
  split; simpl.
  - done.
  - by eauto.
  - intros n Hr. eexists. split; [apply Hd, Hn; set_solver|]. done.
  - intros n _ Hr. eexists. split; [by apply Hd, Hn|]. done.
Qed.

Lemma build_base3_ok c s bitmap0 bitmap1 R0 R1 sigs :
  represents bitmap0 R0 -> represents bitmap1 R1 -> R0 ## R1 -> R1 <> ∅ ->
  aggregate_with sig_identity sigs = Ok s ->
  exists cert, build_cert_from_bitmaps c s bitmap0 bitmap1 = Ok cert /\ cert_valid c cert R0 R1 sigs.
Proof.
  intros [Hlen0 HR0] [Hlen1 HR1] Hdisj Hne Hs. unfold build_cert_from_bitmaps.
  set (n0 := Nat.max (used_length bitmap0) (used_length bitmap1)).
  assert (forall n, (forall r, r ∈ R0 ∪ R1 -> (r < n)%nat) -> (n0 <= n)%nat) as Hn.
  { intros n Hr. unfold n0.
    pose proof (used_length_le bitmap0 n ltac:(intros i Hi; apply Hr; apply HR0 in Hi; set_solver)).
    pose proof (used_length_le bitmap1 n ltac:(intros i Hi; apply Hr; apply HR1 in Hi; set_solver)). lia. }
  assert (n0 <= MAXIMUM_VALIDATORS)%nat as Hle.
  { apply Hn. intros r [Hr%HR0|Hr%HR1]%elem_of_union; apply bit_lt in Hr; lia. }
  assert (forall i, bit (resize n0 false bitmap0) i <-> i ∈ R0) as Hb0
    by (intros i; rewrite bit_resize by (unfold n0; lia); apply HR0).
  assert (forall i, bit (resize n0 false bitmap1) i <-> i ∈ R1) as Hb1
    by (intros i; rewrite bit_resize by (unfold n0; lia); apply HR1).
  destruct (encode_base3_decode (resize n0 false bitmap0) (resize n0 false bitmap1)) as (bytes & -> & Hd).
  { by rewrite length_resize. } { by rewrite !length_resize. }
  { intros i [Hi0%Hb0 Hi1%Hb1]. set_solver. }
  rewrite length_resize in Hd. eexists. split; [done|]. split; simpl.
  - done.
  - by eauto.
  - intros n Hr. eexists. split; [by apply Hd, Hn|]. done.
  - done.
Qed.

Definition rank_set (msgs : list VoteMessage) : gset nat := list_to_set (ranks msgs).

Lemma set_bits_default_ok t msgs :
  msgs_ok t msgs ->
  exists bitmap, set_bits t msgs default_bitvec = Some (Ok bitmap) /\ represents bitmap (rank_set msgs).
Proof.
  intros Hok. destruct (set_bits_ok t msgs _ _ represents_default Hok) as (bitmap & E & HR); [set_solver|].
  exists bitmap. split; [done|]. by rewrite union_empty_l_L in HR.
Qed.

Lemma aggregate_msgs_ok s t msgs :
  msgs_ok t msgs -> exists s', aggregate_with s (vm_signature <$> msgs) = Ok s'.
Proof. intros Hok. apply aggregate_ok, Forall_fmap, Hok. Qed.

Lemma signatures_of_type_same t msgs :
  Forall (fun m => get_type (vm_vote m) = t) msgs -> signatures_of_type t msgs = vm_signature <$> msgs.
Proof.
  intros HF. unfold signatures_of_type.
  induction HF as [|m l Hm HF IH]; [done|]. rewrite filter_cons_True by done. csimpl. by rewrite IH.
Qed.
Lemma signatures_of_type_other t t' msgs :
  t <> t' -> Forall (fun m => get_type (vm_vote m) = t) msgs -> signatures_of_type t' msgs = [].
Proof.
  intros Hne HF. unfold signatures_of_type.
  induction HF as [|m l Hm HF IH]; [done|]. rewrite filter_cons_False by congruence. done.
Qed.

(** The certificate types with one vote type. *)
Lemma builder_single_ok c t msgs :
  builder_type_new c = SingleVote sig_identity default_bitvec ->
  (limits_and_vote_types c).2 = [t] -> msgs_ok t msgs ->
  exists b cert, certificate_builder_aggregate (certificate_builder_new c) msgs = Some (Ok b) /\
    certificate_builder_build b = Ok cert /\ cert_valid c cert (rank_set msgs) ∅ (vm_signature <$> msgs).
Proof.
  intros Hnew Ht Hok. unfold certificate_builder_aggregate, certificate_builder_new.
  cbn [cb_builder_type cb_cert_type]. rewrite Hnew. unfold builder_aggregate. rewrite Ht.
  rewrite bool_decide_true by done. cbn.
  destruct (set_bits_default_ok t msgs Hok) as (bitmap & -> & HR). cbn.
  destruct (aggregate_msgs_ok sig_identity t msgs Hok) as [s Hs]. rewrite Hs. cbn.
  destruct (build_base2_ok c s bitmap _ _ HR Hs) as (cert & E & Hv).
  eexists _, cert. split; [done|]. split; [|done]. unfold certificate_builder_build. cbn. by rewrite E.
Qed.

(** The certificate types with two vote types: the messages of the first type,
    then those of the second. *)
Lemma nf_aggregate_first slot block s b0 msgs b0' s' :
  Forall (fun m => get_type (vm_vote m) = TNotarize) msgs ->
  set_bits TNotarize msgs b0 = Some (Ok b0') -> aggregate_with s (vm_signature <$> msgs) = Ok s' ->
  builder_aggregate (BNotarFallback s b0 None) (CNotarizeFallback slot block) msgs =
  Some (Ok (BNotarFallback s' b0' None)).
Proof.
  intros HF E Hs. unfold builder_aggregate. cbn [limits_and_vote_types snd].
  rewrite bool_decide_true by done. cbn [rust_assert mbind option_bind lookup list_lookup].
  rewrite set_bits_two_first, E by done. cbn. by rewrite Hs.
Qed.
Lemma nf_aggregate_second slot block s b0 msgs b1' s' :
  Forall (fun m => get_type (vm_vote m) = TNotarizeFallback) msgs ->
  set_bits TNotarizeFallback msgs default_bitvec = Some (Ok b1') ->
  aggregate_with s (vm_signature <$> msgs) = Ok s' ->
  builder_aggregate (BNotarFallback s b0 None) (CNotarizeFallback slot block) msgs =
  Some (Ok (BNotarFallback s' b0 (match msgs with [] => None | _ => Some b1' end))).
Proof.
  intros HF E Hs. unfold builder_aggregate. cbn [limits_and_vote_types snd].
  rewrite bool_decide_true by done. cbn [rust_assert mbind option_bind lookup list_lookup].
  destruct msgs as [|m msgs]; [cbn in *; by rewrite Hs|].
  rewrite Hs. cbn [fmap option_fmap option_map].
  rewrite set_bits_two_fresh by (apply Forall_cons in HF as [Ht _]; by rewrite Ht).
  by rewrite set_bits_two_second, E by done.
Qed.
Lemma skip_aggregate_first slot s b0 msgs b0' s' :
  Forall (fun m => get_type (vm_vote m) = TSkip) msgs ->
  set_bits TSkip msgs b0 = Some (Ok b0') -> aggregate_with s (vm_signature <$> msgs) = Ok s' ->
  builder_aggregate (BSkip s b0 None) (CSkip slot) msgs = Some (Ok (BSkip s' b0' None)).
Proof.
  intros HF E Hs. unfold builder_aggregate. cbn [limits_and_vote_types snd].
  rewrite bool_decide_true by done. cbn [rust_assert mbind option_bind lookup list_lookup].
  rewrite set_bits_two_first, E by done. cbn. by rewrite signatures_of_type_same, Hs.
Qed.
Lemma skip_aggregate_second slot s b0 msgs b1' s' :
  Forall (fun m => get_type (vm_vote m) = TSkipFallback) msgs ->
  set_bits TSkipFallback msgs default_bitvec = Some (Ok b1') ->
  aggregate_with sig_identity (vm_signature <$> msgs) = Ok s' ->
  builder_aggregate (BSkip s b0 None) (CSkip slot) msgs =
  Some (Ok (BSkip s b0 (match msgs with [] => None | _ => Some (s', b1') end))).
Proof.
  intros HF E Hs. unfold builder_aggregate. cbn [limits_and_vote_types snd].
  rewrite bool_decide_true by done. cbn [rust_assert mbind option_bind lookup list_lookup].
  destruct msgs as [|m msgs]; [cbn; by rewrite aggregate_nil|].
  rewrite set_bits_two_fresh by (apply Forall_cons in HF as [Ht _]; by rewrite Ht).
  rewrite (signatures_of_type_other TSkipFallback TSkip), aggregate_nil by done.
  rewrite signatures_of_type_same by done.
  rewrite set_bits_two_second, E by done. cbn in Hs |- *. by rewrite Hs.
Qed.

Lemma rank_set_nonempty m msgs : rank_set (m :: msgs) <> ∅.
Proof. unfold rank_set. simpl. set_solver. Qed.

Lemma builder_notar_fallback_ok slot block msgs0 msgs1 :
  msgs_ok TNotarize msgs0 -> msgs_ok TNotarizeFallback msgs1 -> rank_set msgs0 ## rank_set msgs1 ->
  let c := CNotarizeFallback slot block in
  exists b0 b1 cert, certificate_builder_aggregate (certificate_builder_new c) msgs0 = Some (Ok b0) /\
    certificate_builder_aggregate b0 msgs1 = Some (Ok b1) /\ certificate_builder_build b1 = Ok cert /\
    cert_valid c cert (rank_set msgs0) (rank_set msgs1) (vm_signature <$> (msgs0 ++ msgs1)).
Proof.
  intros Hok0 Hok1 Hdisj c. unfold certificate_builder_aggregate.
  destruct (set_bits_default_ok _ _ Hok0) as (bitmap0 & E0 & HR0).
  destruct (set_bits_default_ok _ _ Hok1) as (bitmap1 & E1 & HR1).
  destruct (aggregate_msgs_ok sig_identity _ _ Hok0) as [s0 Hs0].
  destruct (aggregate_msgs_ok s0 _ _ Hok1) as [s1 Hs1].
  assert (aggregate_with sig_identity (vm_signature <$> (msgs0 ++ msgs1)) = Ok s1) as Hs
    by (by rewrite fmap_app, (aggregate_app _ _ _ _ Hs0)).
  exists (mkBuilder (BNotarFallback s0 bitmap0 None) c),
    (mkBuilder (BNotarFallback s1 bitmap0 (match msgs1 with [] => None | _ => Some bitmap1 end)) c).
  unfold c. cbn [certificate_builder_new cb_builder_type cb_cert_type builder_type_new].
  rewrite (nf_aggregate_first slot block _ _ _ _ _ (mo_type _ _ Hok0) E0 Hs0).
  rewrite (nf_aggregate_second slot block _ _ _ _ _ (mo_type _ _ Hok1) E1 Hs1).
  unfold certificate_builder_build. destruct msgs1 as [|m msgs1].
  - rewrite app_nil_r in *. destruct (build_base2_ok c s1 bitmap0 _ _ HR0 Hs) as (cert & E & Hv).
    exists cert. do 2 (split; [done|]). split; [|done]. cbn. fold c. by rewrite E.
  - destruct (build_base3_ok c s1 bitmap0 bitmap1 _ _ _ HR0 HR1 Hdisj (rank_set_nonempty _ _) Hs) as (cert & E & Hv).
    exists cert. do 2 (split; [done|]). split; [|done]. cbn. fold c. by rewrite E.
Qed.

Lemma builder_skip_ok slot msgs0 msgs1 :
  msgs_ok TSkip msgs0 -> msgs_ok TSkipFallback msgs1 -> rank_set msgs0 ## rank_set msgs1 ->
  let c := CSkip slot in
  exists b0 b1 cert, certificate_builder_aggregate (certificate_builder_new c) msgs0 = Some (Ok b0) /\
    certificate_builder_aggregate b0 msgs1 = Some (Ok b1) /\ certificate_builder_build b1 = Ok cert /\
    cert_valid c cert (rank_set msgs0) (rank_set msgs1) (vm_signature <$> (msgs0 ++ msgs1)).
Proof.
  intros Hok0 Hok1 Hdisj c. unfold certificate_builder_aggregate.
  destruct (set_bits_default_ok _ _ Hok0) as (bitmap0 & E0 & HR0).
  destruct (set_bits_default_ok _ _ Hok1) as (bitmap1 & E1 & HR1).
  destruct (aggregate_msgs_ok sig_identity _ _ Hok0) as [s0 Hs0].
  destruct (aggregate_msgs_ok sig_identity _ _ Hok1) as [s1 Hs1].
  pose proof (aggregate_projective _ _ _ _ Hs0 Hs1) as Hp. rewrite <-fmap_app in Hp.
  destruct (aggregate_ok sig_identity (vm_signature <$> (msgs0 ++ msgs1))) as [s Hs].
  { rewrite fmap_app. apply Forall_app; split; apply Forall_fmap; [apply Hok0|apply Hok1]. }
  exists (mkBuilder (BSkip s0 bitmap0 None) c),
    (mkBuilder (BSkip s0 bitmap0 (match msgs1 with [] => None | _ => Some (s1, bitmap1) end)) c).
  unfold c. cbn [certificate_builder_new cb_builder_type cb_cert_type builder_type_new].
  rewrite (skip_aggregate_first slot _ _ _ _ _ (mo_type _ _ Hok0) E0 Hs0).
  rewrite (skip_aggregate_second slot _ _ _ _ _ (mo_type _ _ Hok1) E1 Hs1).
  unfold certificate_builder_build. destruct msgs1 as [|m msgs1].
  - rewrite app_nil_r in *. destruct (build_base2_ok c s0 bitmap0 _ _ HR0 Hs0) as (cert & E & Hv).
    exists cert. do 2 (split; [done|]). split; [|done]. cbn. fold c. by rewrite E.
  - destruct (build_base3_ok c s bitmap0 bitmap1 _ _ _ HR0 HR1 Hdisj (rank_set_nonempty _ _) Hs) as (cert & E & Hv).
    exists cert. do 2 (split; [done|]). split; [|done]. cbn. fold c. rewrite Hp, Hs. by rewrite E.
Qed.
End builder_correct.

(** ** The interface is satisfiable

    A concrete instance: signatures are integers aggregated by addition, a bitmap
    is encoded by a tag and one byte per validator. *)

Definition byte_of_bits (b0 b1 : bool) : Z := (if b0 then 2 else 0) + (if b1 then 1 else 0).
Definition hi_bit (x : Z) : bool := bool_decide (2 <= x).
Definition lo_bit (x : Z) : bool := bool_decide (x = 1).

#[local] Instance additive_bls : BlsOps := {|
  SignatureProjective := Z;
  BlsError := unit;
  EncodeError := unit;
  DecodeError := unit;
  sig_identity := 0;
  aggregate_with s l := Ok (s + sumZ l);
  aggregate_with_projective s l := Ok (s + sumZ l);
  sig_into s := s;
  encode_base2 bits := Ok (0 :: ((fun b => byte_of_bits b false) <$> bits));
  encode_base3 bits0 bits1 := Ok (1 :: zip_with byte_of_bits bits0 bits1);
  decode bytes n :=
    match bytes with
    | [] => Err tt
    | tag :: l =>
      if bool_decide (length l <= n)%nat then
        if bool_decide (tag = 0) then Ok (Base2 (hi_bit <$> l)) else Ok (Base3 (hi_bit <$> l) (lo_bit <$> l))
      else Err tt
    end
|}.

Lemma hi_bit_byte b0 b1 : hi_bit (byte_of_bits b0 b1) = b0.
Proof. by destruct b0, b1. Qed.
Lemma lo_bit_byte b0 b1 : b0 && b1 = false -> lo_bit (byte_of_bits b0 b1) = b1.
Proof. by destruct b0, b1. Qed.
Lemma hi_lo_disjoint x : hi_bit x && lo_bit x = false.
Proof. unfold hi_bit, lo_bit. repeat case_bool_decide; try done. lia. Qed.

#[local] Instance additive_bls_laws : BlsLaws.
Proof.
  refine {| sig_valid := fun _ => True |}; simpl.
  - intros s. f_equal. simpl. lia.
  - eauto.
  - intros s l1 l2 s' [= <-]. f_equal. rewrite sumZ_app. lia.
  - intros l1 l2 s1 s2 [= <-] [= <-]. f_equal. rewrite sumZ_app. simpl. lia.
  - intros bits Hlen. eexists. split; [done|]. intros n Hn. cbn.
    rewrite bool_decide_true by (by rewrite length_fmap). do 2 f_equal.
    rewrite <-list_fmap_compose. clear. induction bits; csimpl; [done|]. by rewrite hi_bit_byte, IHbits.
  - intros bits0 bits1 Hlen Heq Hd. eexists. split; [done|]. intros n Hn. cbn.
    rewrite bool_decide_true by (rewrite length_zip_with; lia).
    assert (hi_bit <$> zip_with byte_of_bits bits0 bits1 = bits0 /\
            lo_bit <$> zip_with byte_of_bits bits0 bits1 = bits1) as [-> ->]; [|done].
    clear Hlen Hn. revert bits1 Heq Hd. induction bits0 as [|b0 bits0 IH]; intros [|b1 bits1] Heq Hd; try done.
    injection Heq as Heq. destruct (IH bits1 Heq (fun i => Hd (S i))) as [I1 I2]. csimpl.
    rewrite I1, I2, hi_bit_byte, lo_bit_byte; [done|].
    specialize (Hd 0%nat). unfold bit in Hd. simpl in Hd. destruct b0, b1; try done. by destruct Hd.
Defined.
