(* ===== verification/Finalization.v ===== *)
(** * Block finalization certificates

    [runtime/src/validated_block_finalization.rs]: the proof that a block is
    finalized (a Finalize and a Notarize certificate of the slot, or a
    FinalizeFast certificate) with the set of vote accounts that signed it. *)

From S2P Require Import Prelude.
From S2P Require Import Messages.
From S2P Require Import EpochStakes.
From S2P Require Import CertBuilder.

(** The part of the root bank the consensus pool reads; [rb_get_epoch] is the
    epoch schedule, of an external crate. *)
Record RootBank := mkRootBank {
  rb_slot : Slot;
  rb_block_id : option Hash;
  rb_get_epoch : Slot -> Z;
  rb_epoch_stakes : gmap Z VersionedEpochStakes;
}.

Definition epoch_stakes_from_slot (bank : RootBank) (slot : Slot) : option VersionedEpochStakes :=
  rb_epoch_stakes bank !! rb_get_epoch bank slot.

(** [BLSPubkeyToRankMap::len]: the number of distinct BLS keys. *)
Definition rank_map_len (m : BLSPubkeyToRankMap) : nat := size (rank_map m).

Inductive ValidatedBlockFinalizationCertKind :=
  | KFinalize (finalize_cert notarize_cert : Certificate)
  | KFastFinalize (cert : Certificate).

Record ValidatedBlockFinalizationCert := mkFinalization {
  fc_kind : ValidatedBlockFinalizationCertKind;
  fc_signers : gset Z;
}.

Section finalization.
Context `{BlsOps}.

Inductive BlockFinalizationCertError :=
  | FcBlsError (c : CertificateType) (e : BlsError)
  | SignatureVerificationFailed (c : CertificateType)
  | InsufficientStake (cert : CertificateType) (got required : Fraction)
  | MissingEpochStakes (c : CertificateType)
  | Base3Finalization (c : CertificateType)
  | FcDecodeError (c : CertificateType) (e : DecodeError).

Definition extract_signers (bank : RootBank) (cert : Certificate)
    : result BlockFinalizationCertError (gset Z) :=
  match epoch_stakes_from_slot bank (cert_slot (cert_type cert)) with
  | None => Err (MissingEpochStakes (cert_type cert))
  | Some epoch_stakes =>
    let rank_map := es_rank_map epoch_stakes in
    match decode (cert_bitmap cert) (rank_map_len rank_map) with
    | Ok (Base2 ranks) =>
      Ok (list_to_set (omap (fun rank => en_vote_account_pubkey <$>
            get_pubkey_stake_entry rank_map (Z.of_nat rank)) (iter_ones ranks)))
    | Ok (Base3 _ _) => Err (Base3Finalization (cert_type cert))
    | Err err => Err (FcDecodeError (cert_type cert) err)
    end
  end.

(** The [expect] on the signers is the panic; the [debug_assert]s are not part of
    a release build. *)
Definition from_validated_slow (finalize_cert notarize_cert : Certificate) (bank : RootBank)
    : option ValidatedBlockFinalizationCert :=
  match extract_signers bank finalize_cert with
  | Ok signers => Some (mkFinalization (KFinalize finalize_cert notarize_cert) signers)
  | Err _ => None
  end.

Definition from_validated_fast (cert : Certificate) (bank : RootBank)
    : option ValidatedBlockFinalizationCert :=
  match extract_signers bank cert with
  | Ok signers => Some (mkFinalization (KFastFinalize cert) signers)
  | Err _ => None
  end.
End finalization.

Definition finalization_slot (f : ValidatedBlockFinalizationCert) : Slot :=
  match fc_kind f with
  | KFinalize finalize_cert _ => cert_slot (cert_type finalize_cert)
  | KFastFinalize cert => cert_slot (cert_type cert)
  end.

Definition finalization_block (f : ValidatedBlockFinalizationCert) : option Block :=
  match fc_kind f with
  | KFinalize _ notarize_cert => to_block (cert_type notarize_cert)
  | KFastFinalize cert => to_block (cert_type cert)
  end.

Definition is_fast (f : ValidatedBlockFinalizationCert) : bool :=
  match fc_kind f with KFastFinalize _ => true | _ => false end.

Definition was_signed_by (f : ValidatedBlockFinalizationCert) (vote_pubkey : Pubkey) : bool :=
  bool_decide (vote_pubkey ∈ fc_signers f).

Definition vote_rewards_input (f : ValidatedBlockFinalizationCert) : gset Z * Slot :=
  (fc_signers f, finalization_slot f).

Definition into_parts (f : ValidatedBlockFinalizationCert)
    : gset Z * Certificate * option Certificate :=
  match fc_kind f with
  | KFinalize finalize_cert notarize_cert => (fc_signers f, finalize_cert, Some notarize_cert)
  | KFastFinalize cert => (fc_signers f, cert, None)
  end.
