(* ===== verification/ConsensusPool.v ===== *)
(** * The consensus pool

    [votor/src/consensus_pool.rs]: stores the votes and certificates a node
    receives, builds certificates when enough stake voted, tracks parent-ready
    slots and the highest finalized slot, and reports what happened as events.
    This file holds the pool and its operations; the files [PoolVotes] to [PoolEvents]
    prove them. *)

From stdpp Require Import strings.
From S2P Require Import Prelude.
From S2P Require Import Messages.
From S2P Require Import ParentReady.
From S2P Require Import EpochStakes.
From S2P Require Import VotePools.
From S2P Require Import StakeCounters.
From S2P Require Import CertBuilder.
From S2P Require Import Finalization.
From S2P Require Import Migration.

(** [GeneratedCertTypes] ([votor/src/generated_cert_types.rs]). *)
Definition has_cert (g : gset CertificateType) (c : CertificateType) : bool := bool_decide (c ∈ g).
Definition insert_cert (g : gset CertificateType) (c : CertificateType) : gset CertificateType :=
  {[c]} ∪ g.
Definition prune_certs (g : gset CertificateType) (root_slot : Slot) : gset CertificateType :=
  filter (fun c => root_slot <= cert_slot c) g.

(** The pool; the cluster info is only used for log messages.  The migration
    status is shared with other threads, which may move it on between calls. *)
Record ConsensusPool := mkPool {
  vote_pools : gmap (Z * VoteType) VotePool;
  completed_certificates : gmap CertificateType Certificate;
  generated_cert_types : gset CertificateType;
  parent_ready_tracker : ParentReadyTracker;
  highest_finalized_slot_cert : option ValidatedBlockFinalizationCert;
  pool_stats : ConsensusPoolStats;
  slot_stake_counters_map : gmap Z SlotStakeCounters;
  migration_status : option MigrationStatus;
  last_pruned_slot : Slot;
}.

Definition with_vote_pools (p : ConsensusPool) x : ConsensusPool :=
  let '(mkPool _ b c d e f g h i) := p in mkPool x b c d e f g h i.
Definition with_completed (p : ConsensusPool) x : ConsensusPool :=
  let '(mkPool a _ c d e f g h i) := p in mkPool a x c d e f g h i.
Definition with_generated (p : ConsensusPool) x : ConsensusPool :=
  let '(mkPool a b _ d e f g h i) := p in mkPool a b x d e f g h i.
Definition with_tracker (p : ConsensusPool) x : ConsensusPool :=
  let '(mkPool a b c _ e f g h i) := p in mkPool a b c x e f g h i.
Definition with_highest (p : ConsensusPool) x : ConsensusPool :=
  let '(mkPool a b c d _ f g h i) := p in mkPool a b c d x f g h i.
Definition with_stats (p : ConsensusPool) x : ConsensusPool :=
  let '(mkPool a b c d e _ g h i) := p in mkPool a b c d e x g h i.
Definition with_counters (p : ConsensusPool) x : ConsensusPool :=
  let '(mkPool a b c d e f _ h i) := p in mkPool a b c d e f x h i.
Definition with_migration (p : ConsensusPool) x : ConsensusPool :=
  let '(mkPool a b c d e f g _ i) := p in mkPool a b c d e f g x i.
Definition with_last_pruned (p : ConsensusPool) x : ConsensusPool :=
  let '(mkPool a b c d e f g h _) := p in mkPool a b c d e f g h x.
Definition bump_stat (c : counter) (p : ConsensusPool) : ConsensusPool :=
  with_stats p (bump c (pool_stats p)).

Definition new_from_root_bank (bank : RootBank) (g : gset CertificateType) (now : Z) : ConsensusPool :=
  let root_block := (rb_slot bank, default 0 (rb_block_id bank)) in
  mkPool ∅ ∅ g (tracker_new root_block) None (stats_default now) ∅ None 0.

Definition new_from_root_bank_pre_migration (bank : RootBank) (g : gset CertificateType)
    (ms : MigrationStatus) (now : Z) : ConsensusPool :=
  with_migration (new_from_root_bank bank g now) (Some ms).

Definition new_vote_pool (t : VoteType) : VotePool :=
  match t with
  | TNotarizeFallback => DupPool (dup_new MAX_ENTRIES_PER_PUBKEY_FOR_NOTARIZE_LITE)
  | TNotarize => DupPool (dup_new MAX_ENTRIES_PER_PUBKEY_FOR_OTHER_TYPES)
  | _ => SimplePool simple_default
  end.

(** The errors of [add_vote], [add_message] and the consensus pool service. *)
Inductive AddVoteError `{BlsOps} :=
  | ConflictingVoteType (t existing : VoteType) (slot : Slot) (k : Pubkey)
  | EpochStakesNotFound (epoch : Z)
  | UnrootedSlot
  | CertificateError (e : BuildError)
  | ChannelDisconnected (name : string)
  | VotingServiceQueueFull
  | VoteInvalidRank (rank : Z).

(** [get_key_and_stakes]; the outer option is the panic on a zero stake. *)
Definition get_key_and_stakes `{BlsOps} (root_bank : RootBank) (slot : Slot) (rank : Z)
    : option (result AddVoteError (Z * Z * Z)) :=
  match epoch_stakes_from_slot root_bank slot with
  | None => Some (Err (EpochStakesNotFound 0))
  | Some epoch_stakes =>
    match get_pubkey_stake_entry (es_rank_map epoch_stakes) rank with
    | None => Some (Err (VoteInvalidRank rank))
    | Some entry =>
      rust_assert (negb (bool_decide (en_stake entry = 0)));;
      Some (Ok (en_vote_account_pubkey entry, en_stake entry, es_total_stake epoch_stakes))
    end
  end.

Definition update_vote_pool (p : ConsensusPool) (vote : VoteMessage) (validator_vote_key : Pubkey)
    (validator_stake : Stake) : option (ConsensusPool * option Stake) :=
  let t := get_type (vm_vote vote) in
  let id := (vote_slot (vm_vote vote), t) in
  match default (new_vote_pool t) (vote_pools p !! id) with
  | SimplePool sp =>
    let '(sp', r) := simple_add_vote sp validator_vote_key validator_stake vote in
    Some (with_vote_pools p (<[id := SimplePool sp']> (vote_pools p)), r)
  | DupPool dp =>
    '(dp', r) ← dup_add_vote dp validator_vote_key validator_stake vote;
    Some (with_vote_pools p (<[id := DupPool dp']> (vote_pools p)), r)
  end.

(** The stake a pool contributes to a certificate; [None] is the panic of
    [expect] on a missing block id. *)
Definition pool_stake (vp : VotePool) (block_id : option Hash) : option Stake :=
  match vp with
  | SimplePool sp => Some (sp_total_stake sp)
  | DupPool dp => b ← block_id; Some (total_stake_by_block_id dp b)
  end.

Fixpoint pool_stakes (p : ConsensusPool) (slot : Slot) (block_id : option Hash)
    (vote_types : list VoteType) : option (list Stake) :=
  match vote_types with
  | [] => Some []
  | t :: ts =>
    match vote_pools p !! (slot, t) with
    | None => pool_stakes p slot block_id ts
    | Some vp => st ← pool_stake vp block_id; l ← pool_stakes p slot block_id ts; Some (st :: l)
    end
  end.

Definition accumulated_stake (p : ConsensusPool) (slot : Slot) (block_id : option Hash)
    (vote_types : list VoteType) : option Stake :=
  l ← pool_stakes p slot block_id vote_types; Some (wrapping_sum l).

(** The votes a pool contributes; the outer option is the panic of [unwrap]. *)
Definition pool_votes (vp : VotePool) (block_id : option Hash) : option (option (list VoteMessage)) :=
  match vp with
  | SimplePool sp => Some (Some (sp_votes sp))
  | DupPool dp => b ← block_id; Some (dup_votes dp b)
  end.

Section pool.
Context `{BlsOps}.

(** The [for_each] over the vote types; an error of [aggregate] is unwrapped. *)
Fixpoint aggregate_votes (p : ConsensusPool) (slot : Slot) (block_id : option Hash)
    (vote_types : list VoteType) (b : CertificateBuilder) : option CertificateBuilder :=
  match vote_types with
  | [] => Some b
  | t :: ts =>
    match vote_pools p !! (slot, t) with
    | None => aggregate_votes p slot block_id ts b
    | Some vp =>
      votes ← pool_votes vp block_id;
      match votes with
      | None => aggregate_votes p slot block_id ts b
      | Some votes =>
        r ← certificate_builder_aggregate b votes;
        match r with
        | Ok b => aggregate_votes p slot block_id ts b
        | Err _ => None
        end
      end
    end
  end.

Definition get_notarize_cert (p : ConsensusPool) (slot : Slot) : option Certificate :=
  find_map (fun kv => match kv.1 with
                      | CNotarize s _ => if bool_decide (slot = s) then Some kv.2 else None
                      | _ => None
                      end) (btree_iter (completed_certificates p)).

Definition get_finalize_cert (p : ConsensusPool) (slot : Slot) : option Certificate :=
  completed_certificates p !! CFinalize slot.

Definition highest_finalized_slot (p : ConsensusPool) : option Slot :=
  finalization_slot <$> highest_finalized_slot_cert p.

(** [self.highest_finalized_slot().is_none_or(f)]. *)
Definition is_none_or (o : option Slot) (f : Slot -> bool) : bool :=
  match o with None => true | Some s => f s end.

Definition tracker_add_block (p : ConsensusPool) (block : Block) (events : list VotorEvent)
    : option (ConsensusPool * list VotorEvent) :=
  '(t, events) ← add_new_notar_fallback_or_stronger (parent_ready_tracker p) block events;
  Some (with_tracker p t, events).

Definition insert_certificate (p : ConsensusPool) (root_bank : RootBank) (c : CertificateType)
    (cert : Certificate) (events : list VotorEvent) : option (ConsensusPool * list VotorEvent) :=
  let p := with_completed p (<[c := cert]> (completed_certificates p)) in
  match c with
  | CNotarizeFallback slot block_id =>
    tracker_add_block p (slot, block_id) (events ++ [EBlockNotarFallback (slot, block_id)])
  | CSkip slot =>
    '(t, events) ← add_new_skip (parent_ready_tracker p) slot events;
    Some (with_tracker p t, events)
  | CNotarize slot block_id =>
    '(p, events) ← tracker_add_block p (slot, block_id) (events ++ [EBlockNotarized (slot, block_id)]);
    match get_finalize_cert p slot with
    | None => Some (p, events)
    | Some finalize_cert =>
      let events := events ++ [EFinalized (slot, block_id) false] in
      if is_none_or (highest_finalized_slot p) (fun s => bool_decide (s < slot)) then
        f ← from_validated_slow finalize_cert cert root_bank;
        Some (with_highest p (Some f), events)
      else Some (p, events)
    end
  | CFinalize slot =>
    match get_notarize_cert p slot with
    | None => Some (p, events)
    | Some notarize_cert =>
      '(_, block_id) ← to_block (cert_type notarize_cert);
      let events := events ++ [EFinalized (slot, block_id) false] in
      if is_none_or (highest_finalized_slot p) (fun s => bool_decide (s < slot)) then
        f ← from_validated_slow cert notarize_cert root_bank;
        Some (with_highest p (Some f), events)
      else Some (p, events)
    end
  | CFinalizeFast slot block_id =>
    '(p, events) ← tracker_add_block p (slot, block_id) (events ++ [EFinalized (slot, block_id) true]);
    if is_none_or (highest_finalized_slot p) (fun s => bool_decide (s <= slot)) then
      f ← from_validated_fast cert root_bank;
      Some (with_highest p (Some f), events)
    else Some (p, events)
  | CGenesis slot block_id =>
    p ← match migration_status p with
        | None => Some p
        | Some ms => ms' ← set_genesis_certificate ms cert; Some (with_migration p (Some ms'))
        end;
    tracker_add_block p (slot, block_id) events
  end.

(** The loop over the certificate types of a vote.  [Err] keeps what the earlier
    iterations did. *)
Fixpoint update_certificates (p : ConsensusPool) (root_bank : RootBank) (slot : Slot)
    (block_id : option Hash) (events : list VotorEvent) (total_stake : Stake)
    (cert_types : list CertificateType) (new_certs : list Certificate)
    : option (ConsensusPool * list VotorEvent * result AddVoteError (list Certificate)) :=
  match cert_types with
  | [] => Some (p, events, Ok new_certs)
  | c :: cs =>
    if bool_decide (is_Some (completed_certificates p !! c)) then
      update_certificates p root_bank slot block_id events total_stake cs new_certs
    else
      let '(limit, vote_types) := limits_and_vote_types c in
      accumulated ← accumulated_stake p slot block_id vote_types;
      total ← nonzero_unwrap total_stake;
      below ← fraction_lt (fraction_new accumulated total) limit;
      if below : bool then
        update_certificates p root_bank slot block_id events total_stake cs new_certs
      else
        builder ← aggregate_votes p slot block_id vote_types (certificate_builder_new c);
        match certificate_builder_build builder with
        | Err e => Some (p, events, Err (CertificateError e))
        | Ok new_cert =>
          '(p, events) ← insert_certificate p root_bank c new_cert events;
          let p := with_generated p (insert_cert (generated_cert_types p) c) in
          let p := with_stats p (incr_generated_cert (pool_stats p) (cert_type new_cert)) in
          update_certificates p root_bank slot block_id events total_stake cs (new_certs ++ [new_cert])
        end
  end.

Definition is_conflicting (vp : VotePool) (validator_vote_key : Pubkey) (block_id : option Hash) : bool :=
  match vp with
  | SimplePool sp => simple_has_prev_validator_vote sp validator_vote_key
  | DupPool dp =>
    match block_id with
    | Some b => has_prev_validator_vote_for_block dp validator_vote_key b
    | None => dup_has_prev_validator_vote dp validator_vote_key
    end
  end.

Definition has_conflicting_vote (p : ConsensusPool) (slot : Slot) (t : VoteType)
    (validator_vote_key : Pubkey) (block_id : option Hash) : option VoteType :=
  find_map (fun ct => match vote_pools p !! (slot, ct) with
                      | Some vp => if is_conflicting vp validator_vote_key block_id then Some ct else None
                      | None => None
                      end) (conflicting_types t).

Definition pool_add_vote (p : ConsensusPool) (root_bank : RootBank) (my_vote_pubkey : Pubkey)
    (vote_message : VoteMessage) (events : list VotorEvent)
    : option (ConsensusPool * list VotorEvent * result AddVoteError (list Certificate)) :=
  let vote := vm_vote vote_message in
  let slot := vote_slot vote in
  r ← get_key_and_stakes root_bank slot (vm_rank vote_message);
  match r with
  | Err e => Some (p, events, Err e)
  | Ok (validator_vote_key, validator_stake, total_stake) =>
    rust_assert (negb (bool_decide (validator_stake = 0)));;
    let p := bump_stat incoming_votes p in
    if bool_decide (slot < rb_slot root_bank) then
      Some (bump_stat out_of_range_votes p, events, Err UnrootedSlot)
    else
      let block_id := vote_block_id vote in
      let t := get_type vote in
      match has_conflicting_vote p slot t validator_vote_key block_id with
      | Some ct =>
        Some (bump_stat conflicting_votes p, events,
              Err (ConflictingVoteType t ct slot validator_vote_key))
      | None =>
        '(p, added) ← update_vote_pool p vote_message validator_vote_key validator_stake;
        match added with
        | None => Some (bump_stat exist_votes p, events, Ok [])
        | Some entry_stake =>
          let counters := default (counters_new total_stake) (slot_stake_counters_map p !! slot) in
          '(counters, events, stats) ←
            counters_add_vote counters vote entry_stake
              (bool_decide (my_vote_pubkey = validator_vote_key)) events (pool_stats p);
          let p := with_counters p (<[slot := counters]> (slot_stake_counters_map p)) in
          let p := with_stats p (incr_ingested_vote_type stats t) in
          update_certificates p root_bank slot block_id events total_stake (vote_to_cert_types vote) []
        end
      end
  end.

Definition add_certificate (p : ConsensusPool) (root_bank : RootBank) (cert : Certificate)
    (events : list VotorEvent)
    : option (ConsensusPool * list VotorEvent * result AddVoteError (list Certificate)) :=
  let c := cert_type cert in
  let p := bump_stat incoming_certs p in
  if bool_decide (cert_slot c < rb_slot root_bank) then
    Some (bump_stat out_of_range_certs p, events, Err UnrootedSlot)
  else if bool_decide (is_Some (completed_certificates p !! c)) then
    Some (bump_stat exist_certs p, events, Ok [])
  else
    '(p, events) ← insert_certificate p root_bank c cert events;
    Some (with_stats p (incr_ingested_cert (pool_stats p) c), events, Ok [cert]).

(** The order of [Option<Slot>]: [None] is below every slot. *)
Definition option_slot_lt (a b : option Slot) : bool :=
  match a, b with
  | None, Some _ => true
  | Some x, Some y => bool_decide (x < y)
  | _, None => false
  end.

Definition add_message (p : ConsensusPool) (root_bank : RootBank) (my_vote_pubkey : Pubkey)
    (message : ConsensusMessage) (events : list VotorEvent)
    : option (ConsensusPool * list VotorEvent * result AddVoteError (option Slot * list Certificate)) :=
  let current := highest_finalized_slot p in
  '(p, events, r) ← match message with
                    | MVote m => pool_add_vote p root_bank my_vote_pubkey m events
                    | MCertificate c => add_certificate p root_bank c events
                    end;
  match r with
  | Err e => Some (p, events, Err e)
  | Ok certs =>
    let new_finalized_slot :=
      if option_slot_lt current (highest_finalized_slot p) then highest_finalized_slot p else None in
    Some (p, events, Ok (new_finalized_slot, certs))
  end.

Definition maybe_prune (p : ConsensusPool) (root_slot : Slot) : ConsensusPool :=
  if bool_decide (root_slot <= last_pruned_slot p) then p
  else
    let p := with_completed p (filter (fun kv => root_slot <= cert_slot kv.1) (completed_certificates p)) in
    let p := with_generated p (prune_certs (generated_cert_types p) root_slot) in
    let p := with_vote_pools p (filter (fun kv => leq (root_slot, TFinalize) kv.1) (vote_pools p)) in
    let p := with_counters p (filter (fun kv => root_slot <= kv.1) (slot_stake_counters_map p)) in
    let p := with_tracker p (tracker_set_root (parent_ready_tracker p) root_slot) in
    with_last_pruned p root_slot.

Definition maybe_report (p : ConsensusPool) (now : Z) : ConsensusPool :=
  with_stats p (stats_maybe_report (pool_stats p) now).

(** Whether a certificate is resent on a standstill; [None] is the [panic!]. *)
Definition standstill_keeps (highest_slot : Slot) (has_fast_finalize : bool) (c : CertificateType)
    : option bool :=
  match Z.compare (cert_slot c) highest_slot, c, has_fast_finalize with
  | Gt, _, _ => Some true
  | Eq, (CFinalize _ | CNotarize _ _), false => Some true
  | Eq, CFinalizeFast _ _, true => Some true
  | Eq, CFinalizeFast _ _, false => None
  | _, _, _ => Some false
  end.

Fixpoint standstill_loop (highest_slot : Slot) (has_fast_finalize : bool)
    (l : list (CertificateType * Certificate)) : option (list Certificate) :=
  match l with
  | [] => Some []
  | (c, cert) :: l =>
    keep ← standstill_keeps highest_slot has_fast_finalize c;
    rest ← standstill_loop highest_slot has_fast_finalize l;
    Some (if keep : bool then cert :: rest else rest)
  end.

Definition get_certs_for_standstill (p : ConsensusPool) : option (list Certificate) :=
  let '(highest_slot, has_fast_finalize) :=
    match highest_finalized_slot_cert p with
    | Some f => (finalization_slot f, is_fast f)
    | None => (0, false)
    end in
  standstill_loop highest_slot has_fast_finalize (btree_iter (completed_certificates p)).
End pool.
