(* ===== verification/PoolVotes.v ===== *)
(** * The votes of the pool

    The part of [ConsensusPool]'s proof that concerns the vote pools: who voted
    for what, that no validator is counted for conflicting votes, that the
    stakes of the pools are the weights of the sets of voters, and the quorum
    arguments built on these. *)

From S2P Require Import Prelude.
From S2P Require Import Messages.
From S2P Require Import EpochStakes.
From S2P Require Import VotePools.
From S2P Require Import CertBuilder.
From S2P Require Import ConsensusPool.

(** ** Stakes of a slot *)

Section stakes.
(** The stakes of the epoch each slot belongs to. *)
Context (E : Slot -> option VersionedEpochStakes).

Definition slot_entries (s : Slot) : list BLSPubkeyStakeEntry :=
  match E s with Some es => sorted_pubkeys (es_rank_map es) | None => [] end.
Definition slot_keys (s : Slot) : gset Z := list_to_set (en_vote_account_pubkey <$> slot_entries s).
Definition slot_weight (s : Slot) : Z -> Z := entry_stake (slot_entries s).
Definition slot_total (s : Slot) : Z :=
  match E s with Some es => es_total_stake es | None => 0 end.
Definition slot_key_of (s : Slot) (rank : Z) : option Z :=
  if bool_decide (0 <= rank) then en_vote_account_pubkey <$> slot_entries s !! Z.to_nat rank else None.

(** What is assumed of the stakes of every epoch: [EpochStakesOk] (proved of
    [epoch_stakes_new]), at most [MAXIMUM_VALIDATORS] ranks, and no BLS key shared
    by two ranks. *)
Definition stakes_ok : Prop := forall s es, E s = Some es ->
  EpochStakesOk es /\
  (length (sorted_pubkeys (es_rank_map es)) <= MAXIMUM_VALIDATORS)%nat /\
  size (rank_map (es_rank_map es)) = length (sorted_pubkeys (es_rank_map es)).

Context (HE : stakes_ok).

Lemma slot_weight_nonneg s k : 0 <= slot_weight s k.
Proof using HE.
  unfold slot_weight, slot_entries. destruct (E s) as [es|] eqn:Es; [|done].
  destruct (HE s es Es) as ([] & _). by apply entry_stake_nonneg.
Qed.
Lemma slot_weight_total s X : X ⊆ slot_keys s -> weight (slot_weight s) X <= slot_total s.
Proof using HE.
  unfold slot_keys, slot_weight, slot_total, slot_entries. destruct (E s) as [es|] eqn:Es.
  - destruct (HE s es Es) as (Hes & _). by apply weight_ranked.
  - intros HX. assert (X = ∅) as -> by (apply set_eq; set_solver). done.
Qed.
Lemma slot_total_u64 s : 0 <= slot_total s <= u64_max.
Proof using HE.
  split; [|unfold slot_total; destruct (E s) as [es|] eqn:Es; [by destruct (HE s es Es) as ([] & _)|done]].
  pose proof (slot_weight_total s ∅ ltac:(set_solver)) as H. by rewrite weight_empty in H.
Qed.
Lemma slot_keys_u64 s : weight (slot_weight s) (slot_keys s) <= u64_max.
Proof using HE.
  pose proof (slot_weight_total s _ (reflexivity (slot_keys s))). pose proof (slot_total_u64 s). lia.
Qed.

Lemma slot_key_of_Some s r k :
  slot_key_of s r = Some k ->
  0 <= r /\ (Z.to_nat r < MAXIMUM_VALIDATORS)%nat /\ k ∈ slot_keys s /\ 0 < slot_weight s k /\
  exists e, slot_entries s !! Z.to_nat r = Some e /\ en_vote_account_pubkey e = k /\
            en_stake e = slot_weight s k.
Proof using HE.
  unfold slot_key_of. case_bool_decide; [|done]. intros (e & He & Hk)%fmap_Some. subst k.
  assert (slot_entries s = match E s with Some es => sorted_pubkeys (es_rank_map es) | None => [] end) as Hs by done.
  destruct (E s) as [es|] eqn:Es; rewrite Hs in He; [|done].
  destruct (HE s es Es) as ([Hpos Hnd _ _] & Hlen & _).
  assert (slot_weight s (en_vote_account_pubkey e) = en_stake e) as Hw.
  { unfold slot_weight. rewrite Hs. apply entry_stake_elem; [done|]. by eapply list_elem_of_lookup_2. }
  split; [done|]. split; [apply lookup_lt_Some in He; lia|]. split; [|split].
  - unfold slot_keys. rewrite Hs. apply elem_of_list_to_set, list_elem_of_fmap_2. by eapply list_elem_of_lookup_2.
  - rewrite Hw. rewrite Forall_forall in Hpos. apply Hpos. by eapply list_elem_of_lookup_2.
  - exists e. by rewrite Hs, Hw.
Qed.
Lemma slot_key_of_inj s r r' k : slot_key_of s r = Some k -> slot_key_of s r' = Some k -> r = r'.
Proof using HE.
  intros H1 H2. destruct (slot_key_of_Some _ _ _ H1) as (? & _ & _ & _ & e & He & Hk & _).
  destruct (slot_key_of_Some _ _ _ H2) as (? & _ & _ & _ & e' & He' & Hk' & _).
  assert (NoDup (en_vote_account_pubkey <$> slot_entries s)) as Hnd.
  { unfold slot_entries. destruct (E s) as [es|] eqn:Es; [|by apply NoDup_nil_2].
    by destruct (HE s es Es) as ([] & _). }
  assert (Z.to_nat r = Z.to_nat r'); [|lia].
  eapply (NoDup_lookup _ _ _ k Hnd); rewrite list_lookup_fmap, ?He, ?He'; simpl; congruence.
Qed.
Lemma slot_total_pos s k : 0 < slot_weight s k -> k ∈ slot_keys s -> 0 < slot_total s.
Proof using HE.
  intros Hw Hk. pose proof (slot_weight_total s {[k]} ltac:(set_solver)) as H.
  unfold weight in H. rewrite elements_singleton in H. simpl in H. lia.
Qed.
End stakes.

(** ** Voters *)

Definition is_dup_type (t : VoteType) : bool :=
  match t with TNotarize | TNotarizeFallback => true | _ => false end.
Definition max_entries_of (t : VoteType) : nat :=
  match t with
  | TNotarizeFallback => MAX_ENTRIES_PER_PUBKEY_FOR_NOTARIZE_LITE
  | _ => MAX_ENTRIES_PER_PUBKEY_FOR_OTHER_TYPES
  end.

(** The validators counted in a pool: for a block, or for any block. *)
Definition pool_voters (vp : VotePool) (ob : option Hash) : gset Z :=
  match vp with
  | SimplePool sp => sp_prev_voted_validators sp
  | DupPool dp => match ob with
                  | Some b => block_voters dp b
                  | None => dom (dp_prev_voted_block_ids dp)
                  end
  end.
Definition voters (p : ConsensusPool) (s : Slot) (t : VoteType) (ob : option Hash) : gset Z :=
  match vote_pools p !! (s, t) with Some vp => pool_voters vp ob | None => ∅ end.

(** A vote is counted for [ob] when its pool has no blocks, or [ob] is its block
    or any block. *)
Definition counts_for (v : Vote) (ob : option Hash) : bool :=
  negb (is_dup_type (get_type v)) || bool_decide (ob = None \/ ob = vote_block_id v).

Lemma is_conflicting_spec vp k ob : is_conflicting vp k ob = bool_decide (k ∈ pool_voters vp ob).
Proof.
  destruct vp as [sp|dp]; [done|]. destruct ob as [b|]; simpl.
  - apply eq_bool_prop_intro. rewrite bool_decide_spec. unfold Is_true.
    pose proof (has_prev_for_block_spec dp k b). destruct (has_prev_validator_vote_for_block dp k b); naive_solver.
  - unfold dup_has_prev_validator_vote. destruct (_ !! k) eqn:Ek; symmetry.
    + apply bool_decide_true, elem_of_dom. eauto.
    + apply bool_decide_false, not_elem_of_dom. done.
Qed.

Lemma find_map_None {A B} (f : A -> option B) l : find_map f l = None -> forall x, x ∈ l -> f x = None.
Proof.
  induction l as [|y l IH]; simpl; intros Hf x Hx; [by apply elem_of_nil in Hx|].
  destruct (f y) eqn:Ey; [done|]. apply elem_of_cons in Hx as [->|Hx]; auto.
Qed.

Lemma has_conflicting_vote_None p s t k ob :
  has_conflicting_vote p s t k ob = None ->
  forall ct, ct ∈ conflicting_types t -> k ∉ voters p s ct ob.
Proof.
  intros Hnone ct Hct. pose proof (find_map_None _ _ Hnone ct Hct) as Hf. simpl in Hf. unfold voters.
  destruct (vote_pools p !! (s, ct)) as [vp|]; [|set_solver].
  rewrite is_conflicting_spec in Hf. by case_bool_decide.
Qed.

(** No validator is counted for two votes that exclude each other. *)
Record conflict_free (p : ConsensusPool) : Prop := {
  cf_finalize_fallback s : voters p s TFinalize None ## voters p s TNotarizeFallback None;
  cf_finalize_skip s : voters p s TFinalize None ## voters p s TSkip None;
  cf_finalize_skip_fallback s : voters p s TFinalize None ## voters p s TSkipFallback None;
  cf_skip_notarize s : voters p s TSkip None ## voters p s TNotarize None;
  cf_skip_skip_fallback s : voters p s TSkip None ## voters p s TSkipFallback None;
  cf_notarize_fallback s b : voters p s TNotarize (Some b) ## voters p s TNotarizeFallback (Some b);
}.

Lemma disjoint_add_l (k : Z) (X Y : gset Z) : X ## Y -> k ∉ Y -> {[k]} ∪ X ## Y.
Proof. intros HXY Hk x [->%elem_of_singleton|Hx]%elem_of_union Hy; [done|by apply (HXY x)]. Qed.
Lemma disjoint_add_r (k : Z) (X Y : gset Z) : X ## Y -> k ∉ X -> X ## {[k]} ∪ Y.
Proof. intros HXY Hk. symmetry. apply disjoint_add_l; [by symmetry|done]. Qed.

Section votes.
Context `{BlsOps, !BlsLaws} (E : Slot -> option VersionedEpochStakes) (HE : stakes_ok E).

(** A message stored in the pool of [t] in slot [s]. *)
Definition msg_fits (s : Slot) (t : VoteType) (m : VoteMessage) : Prop :=
  vote_slot (vm_vote m) = s /\ get_type (vm_vote m) = t /\ sig_valid (vm_signature m).

Definition vote_pool_ok (s : Slot) (t : VoteType) (vp : VotePool) : Prop :=
  match vp with
  | SimplePool sp =>
    is_dup_type t = false /\ simple_ok (slot_keys E s) (slot_weight E s) (slot_key_of E s) sp /\
    Forall (msg_fits s t) (sp_votes sp)
  | DupPool dp =>
    is_dup_type t = true /\ dp_max_entries_per_pubkey dp = max_entries_of t /\
    dup_ok (slot_keys E s) (slot_weight E s) (slot_key_of E s) dp /\
    forall b, Forall (fun m => msg_fits s t m /\ vote_block_id (vm_vote m) = Some b) (default [] (dup_votes dp b))
  end.

Definition vote_pools_ok (m : gmap (Z * VoteType) VotePool) : Prop :=
  forall s t vp, m !! (s, t) = Some vp -> vote_pool_ok s t vp.

Lemma new_vote_pool_ok s t : vote_pool_ok s t (new_vote_pool t).
Proof.
  destruct t; simpl; (split; [done|]);
    try (split; [apply simple_default_ok|by apply Forall_nil]); (split; [done|]);
    (split; [apply dup_new_ok; vm_compute; lia|intros b; by apply Forall_nil]).
Qed.
Lemma new_vote_pool_voters t ob : pool_voters (new_vote_pool t) ob = ∅.
Proof.
  destruct t, ob; simpl; try done; unfold block_voters; simpl; try (by rewrite map_filter_empty, dom_empty_L).
Qed.

Lemma default_pool_ok m s t :
  vote_pools_ok m -> vote_pool_ok s t (default (new_vote_pool t) (m !! (s, t))).
Proof. intros Hm. destruct (m !! (s, t)) eqn:Em; simpl; [by apply Hm|apply new_vote_pool_ok]. Qed.
Lemma default_pool_voters p s t ob :
  pool_voters (default (new_vote_pool t) (vote_pools p !! (s, t))) ob = voters p s t ob.
Proof. unfold voters. destruct (vote_pools p !! (s, t)); simpl; [done|apply new_vote_pool_voters]. Qed.

Lemma vote_block_dup v : is_dup_type (get_type v) = true -> exists b, vote_block_id v = Some b.
Proof. destruct v; simpl; eauto; done. Qed.

(** Adding a vote to the pool of its type. *)
Definition vote_pool_add (vp : VotePool) (k : Pubkey) (st : Stake) (m : VoteMessage)
    : option (VotePool * option Stake) :=
  match vp with
  | SimplePool sp => let '(sp', r) := simple_add_vote sp k st m in Some (SimplePool sp', r)
  | DupPool dp => '(dp', r) ← dup_add_vote dp k st m; Some (DupPool dp', r)
  end.

Lemma update_vote_pool_eq p m k st :
  update_vote_pool p m k st =
  ('(vp', r) ← vote_pool_add (default (new_vote_pool (get_type (vm_vote m)))
       (vote_pools p !! (vote_slot (vm_vote m), get_type (vm_vote m)))) k st m;
   Some (with_vote_pools p (<[(vote_slot (vm_vote m), get_type (vm_vote m)) := vp']> (vote_pools p)), r)).
Proof.
  unfold update_vote_pool, vote_pool_add. destruct (default _ _) as [sp|dp].
  - by destruct (simple_add_vote sp k st m).
  - by destruct (dup_add_vote dp k st m) as [[]|].
Qed.

Lemma vote_pool_add_ok vp k m :
  let s := vote_slot (vm_vote m) in let t := get_type (vm_vote m) in
  vote_pool_ok s t vp -> slot_key_of E s (vm_rank m) = Some k -> sig_valid (vm_signature m) ->
  exists vp' r, vote_pool_add vp k (slot_weight E s k) m = Some (vp', r) /\ vote_pool_ok s t vp' /\
    match r with
    | None => k ∈ pool_voters vp None /\ forall ob, pool_voters vp' ob = pool_voters vp ob
    | Some st => (k ∉ pool_voters vp (vote_block_id (vm_vote m))) /\
        (forall ob, pool_voters vp' ob =
           if counts_for (vm_vote m) ob then {[k]} ∪ pool_voters vp ob else pool_voters vp ob) /\
        st = weight (slot_weight E s) (pool_voters vp' (vote_block_id (vm_vote m)))
    end.
Proof using HE.
  intros s t Hok Hkey Hsig. destruct (slot_key_of_Some E HE _ _ _ Hkey) as (_ & _ & Hk & _).
  pose proof (slot_weight_nonneg E HE s) as Hw. pose proof (slot_keys_u64 E HE s) as Hu.
  unfold counts_for. destruct vp as [sp|dp]; simpl in Hok |- *.
  - destruct Hok as (Hd & Hok & HF). fold t. rewrite Hd. simpl.
    pose proof (simple_add_vote_ok _ _ _ Hw Hu sp k m Hok Hk Hkey) as Hok'.
    unfold simple_add_vote in *. case_bool_decide as Hin; simpl in *.
    + eexists _, None. done.
    + eexists _, (Some _). split; [done|]. split.
      * split_and!; [done|done|]. simpl. apply Forall_app. by repeat constructor.
      * split_and!; [done|done|]. apply (so_total _ _ _ _ Hok').
  - destruct Hok as (Hd & Hmax & Hok & HF). fold t. rewrite Hd. simpl.
    destruct (vote_block_dup (vm_vote m) Hd) as [b Hb].
    destruct (dup_add_vote_cases _ (slot_weight E s) _ dp k m b Hok Hb) as [[-> Hfull]|(-> & Hkb & Hsz)].
    + eexists _, None. split; [done|]. split; [done|]. split; [|done]. simpl. destruct Hfull as [Hkb|Hfull].
      * apply elem_of_block_voters in Hkb as (X & HX & _). apply elem_of_dom. eauto.
      * apply elem_of_dom. destruct (dp_prev_voted_block_ids dp !! k); [by eauto|]. simpl in Hfull.
        rewrite Hmax in Hfull. change (set_size _) with 0%nat in Hfull. clear -Hfull Hd. exfalso.
        unfold max_entries_of in Hfull. destruct t; unfold is_dup_type in Hd; vm_compute in Hfull; lia || done.
    + pose proof (dup_counted_ok _ _ _ Hw Hu dp k b m Hok Hk Hkey Hkb Hsz) as Hok'.
      eexists _, (Some _). split; [done|]. split; [|rewrite Hb; split; [done|split]].
      * split_and!; [done|done|done|]. intros x. unfold dup_votes, dup_counted; simpl.
        rewrite lookup_insert. case_decide as Hx; [subst x|apply HF]. simpl.
        apply Forall_app. split; [|by repeat constructor].
        specialize (HF b). unfold dup_votes in HF. destruct (dp_vote_entries dp !! b); [done|constructor].
      * intros [x|]; simpl; [|by rewrite dom_insert_L].
        rewrite dup_counted_voters. destruct (decide (x = b)) as [->|Hne].
        -- by rewrite bool_decide_true by auto.
        -- rewrite bool_decide_false by naive_solver. done.
      * simpl. by apply (do_total _ _ _ _ Hok').
Qed.

(** How a counted vote of [k] changes the sets of voters. *)
Record vote_counted (p p' : ConsensusPool) (v : Vote) (k : Pubkey) : Prop := {
  vc_same ob : voters p' (vote_slot v) (get_type v) ob =
    if counts_for v ob then {[k]} ∪ voters p (vote_slot v) (get_type v) ob
    else voters p (vote_slot v) (get_type v) ob;
  vc_other s t ob : (s, t) <> (vote_slot v, get_type v) -> voters p' s t ob = voters p s t ob;
}.

Lemma vote_pools_with p x : vote_pools (with_vote_pools p x) = x.
Proof. by destruct p. Qed.

Lemma update_vote_pool_spec p m k :
  let v := vm_vote m in
  vote_pools_ok (vote_pools p) -> slot_key_of E (vote_slot v) (vm_rank m) = Some k ->
  sig_valid (vm_signature m) ->
  exists vps r, update_vote_pool p m k (slot_weight E (vote_slot v) k) = Some (with_vote_pools p vps, r) /\
    vote_pools_ok vps /\
    match r with
    | None => k ∈ voters p (vote_slot v) (get_type v) None /\
        forall s t ob, voters (with_vote_pools p vps) s t ob = voters p s t ob
    | Some st => (k ∉ voters p (vote_slot v) (get_type v) (vote_block_id v)) /\
        vote_counted p (with_vote_pools p vps) v k /\
        st = weight (slot_weight E (vote_slot v))
               (voters (with_vote_pools p vps) (vote_slot v) (get_type v) (vote_block_id v))
    end.
Proof using HE.
  intros v Hok Hkey Hsig. rewrite update_vote_pool_eq. fold v.
  destruct (vote_pool_add_ok _ k m (default_pool_ok _ (vote_slot v) (get_type v) Hok) Hkey Hsig)
    as (vp' & r & Ea & Hok' & Hr). fold v in Ea, Hok', Hr. rewrite Ea. cbn [mbind option_bind].
  set (id := (vote_slot v, get_type v)). exists (<[id := vp']> (vote_pools p)), r.
  assert (forall ob, voters (with_vote_pools p (<[id := vp']> (vote_pools p))) (vote_slot v) (get_type v) ob
    = pool_voters vp' ob) as Hsame.
  { intros ob. unfold voters. rewrite vote_pools_with. unfold id. by rewrite lookup_insert_eq. }
  assert (forall s t ob, (s, t) <> id ->
    voters (with_vote_pools p (<[id := vp']> (vote_pools p))) s t ob = voters p s t ob) as Hother.
  { intros s t ob Hne. unfold voters. rewrite vote_pools_with. by rewrite lookup_insert_ne. }
  split; [done|]. split.
  - intros s t vp. rewrite lookup_insert. case_decide as Hid; [|apply Hok]. injection Hid as <- <-.
    intros [= <-]. done.
  - destruct r as [st|].
    + destruct Hr as (Hk & HV & Hst). rewrite default_pool_voters in Hk. split; [done|]. split; [|by rewrite Hsame].
      split; [|done]. intros ob. by rewrite Hsame, HV, default_pool_voters.
    + destruct Hr as [Hk Hr]. rewrite default_pool_voters in Hk. split; [done|].
      intros s t ob. destruct (decide ((s, t) = id)) as [Hid|Hid]; [|by apply Hother].
      injection Hid as -> ->. by rewrite Hsame, Hr, default_pool_voters.
Qed.

(** A pool without blocks counts a validator once, whatever the block. *)
Lemma voters_simple p s t ob ob' :
  vote_pools_ok (vote_pools p) -> is_dup_type t = false -> voters p s t ob = voters p s t ob'.
Proof.
  intros Hok Ht. unfold voters. destruct (vote_pools p !! (s, t)) as [[sp|dp]|] eqn:Ep; [done| |done].
  destruct (Hok _ _ _ Ep) as (Hd & _). congruence.
Qed.

Lemma conflict_free_counted p p' v k :
  vote_pools_ok (vote_pools p) -> conflict_free p -> vote_counted p p' v k ->
  (forall ct, ct ∈ conflicting_types (get_type v) -> k ∉ voters p (vote_slot v) ct (vote_block_id v)) ->
  conflict_free p'.
Proof.
  intros Hok [C1 C2 C3 C4 C5 C6] [HV HO] Hconf.
  assert (forall s t ob (Q : gset Z -> Prop), Q (voters p s t ob) ->
    (s = vote_slot v -> t = get_type v -> counts_for v ob = true -> Q ({[k]} ∪ voters p s t ob)) ->
    Q (voters p' s t ob)) as Hcase.
  { intros s t ob Q HQ HQ'. destruct (decide ((s, t) = (vote_slot v, get_type v))) as [[= -> ->]|Hne].
    - rewrite HV. destruct (counts_for v ob); auto.
    - by rewrite HO. }
  assert (forall s t t' ob, voters p s t ob ## voters p s t' ob ->
    (counts_for v ob = true -> s = vote_slot v -> t = get_type v -> k ∉ voters p s t' ob) ->
    (counts_for v ob = true -> s = vote_slot v -> t' = get_type v -> k ∉ voters p s t ob) ->
    t <> t' -> voters p' s t ob ## voters p' s t' ob) as Hpair.
  { intros s t t' ob Hd Hl Hr Hne. apply (Hcase s t ob (fun X => X ## _)).
    - apply (Hcase s t' ob (fun X => _ ## X)); [done|]. intros -> -> Hc. apply disjoint_add_r; auto.
    - intros -> -> Hc. rewrite HO by congruence. apply disjoint_add_l; auto. }
  split; intros s; try (intros b); (apply Hpair; [by auto| | |done]); intros Hc -> Ht;
    destruct v as [x b'|x|x|x b'|x|x b']; try discriminate Ht; simpl in *;
    try (apply Hconf; set_solver);
    try (rewrite (voters_simple p _ _ _ (Some b')) by done; apply Hconf; set_solver);
    unfold counts_for in Hc; simpl in Hc; apply bool_decide_eq_true in Hc as [Hc|Hc]; try discriminate;
    injection Hc as ->; apply Hconf; set_solver.
Qed.
End votes.

(** ** Quorums *)

(** The validators whose votes a certificate is made of.  Genesis votes are
    pooled by slot, without their block. *)
Definition cert_voters (p : ConsensusPool) (c : CertificateType) : gset Z :=
  match c with
  | CNotarize s b | CFinalizeFast s b => voters p s TNotarize (Some b)
  | CNotarizeFallback s b => voters p s TNotarize (Some b) ∪ voters p s TNotarizeFallback (Some b)
  | CFinalize s => voters p s TFinalize None
  | CSkip s => voters p s TSkip None ∪ voters p s TSkipFallback None
  | CGenesis s b => voters p s TGenesis (Some b)
  end.

(** The percentage a certificate needs. *)
Definition cert_pct (c : CertificateType) : Z := numerator (limits_and_vote_types c).1.

Section quorum.
Context `{BlsOps, !BlsLaws} (E : Slot -> option VersionedEpochStakes).

Definition quorum (p : ConsensusPool) (c : CertificateType) : Prop :=
  cert_pct c * slot_total E (cert_slot c) <=
  100 * weight (slot_weight E (cert_slot c)) (cert_voters p c).

Lemma voters_sub p s t ob : vote_pools_ok E (vote_pools p) -> voters p s t ob ⊆ slot_keys E s.
Proof.
  intros Hok. unfold voters. destruct (vote_pools p !! (s, t)) as [[sp|dp]|] eqn:Ep; [| |set_solver].
  - destruct (Hok _ _ _ Ep) as (_ & Hs & _). apply Hs.
  - destruct (Hok _ _ _ Ep) as (_ & _ & Hd & _). destruct ob as [b|]; simpl; [|apply Hd].
    by eapply block_voters_sub.
Qed.
Lemma voters_block_sub p s t b : voters p s t (Some b) ⊆ voters p s t None.
Proof.
  unfold voters. destruct (vote_pools p !! (s, t)) as [[sp|dp]|]; [done| |done]. simpl.
  intros k (X & HX & _)%elem_of_block_voters. apply elem_of_dom. eauto.
Qed.
Lemma cert_voters_sub p c : vote_pools_ok E (vote_pools p) -> cert_voters p c ⊆ slot_keys E (cert_slot c).
Proof.
  intros Hok. pose proof (fun s t ob => voters_sub p s t ob Hok) as Hs.
  destruct c; simpl; try apply Hs; apply union_least; apply Hs.
Qed.

Lemma notarize_unique p s k b b' :
  vote_pools_ok E (vote_pools p) ->
  k ∈ voters p s TNotarize (Some b) -> k ∈ voters p s TNotarize (Some b') -> b = b'.
Proof.
  intros Hok. unfold voters. destruct (vote_pools p !! (s, TNotarize)) as [[sp|dp]|] eqn:Ep; [| |set_solver].
  - destruct (Hok _ _ _ Ep) as (Hd & _). done.
  - destruct (Hok _ _ _ Ep) as (_ & Hmax & Hd & _). simpl. by apply (dup_unique _ _ _ dp k b b' Hd).
Qed.

Lemma weight_pair p s t t' ob :
  voters p s t ob ## voters p s t' ob ->
  weight (slot_weight E s) (voters p s t ob ∪ voters p s t' ob) =
  weight (slot_weight E s) (voters p s t ob) + weight (slot_weight E s) (voters p s t' ob).
Proof. apply weight_union. Qed.

Context (HE : stakes_ok E).

Lemma block_double_count p s t bs :
  vote_pools_ok E (vote_pools p) -> is_dup_type t = true -> NoDup bs ->
  sumZ ((fun b => weight (slot_weight E s) (voters p s t (Some b))) <$> bs) <=
  Z.of_nat (max_entries_of t) * weight (slot_weight E s) (voters p s t None).
Proof using HE.
  intros Hok Ht Hnd. pose proof (slot_weight_nonneg E HE s) as Hw.
  unfold voters. destruct (vote_pools p !! (s, t)) as [[sp|dp]|] eqn:Ep.
  - destruct (Hok _ _ _ Ep) as (Hd & _). congruence.
  - destruct (Hok _ _ _ Ep) as (_ & <- & Hd & _). simpl. by apply (dup_double_count _ _ _ Hw dp bs Hd).
  - clear. induction bs as [|b l IH]; csimpl; unfold sumZ in *; simpl in *; rewrite ?weight_empty in *; lia.
Qed.

(** Two sets of voters that together exceed the total stake share a validator. *)
Lemma quorum_intersect s (X Y : gset Z) :
  X ⊆ slot_keys E s -> Y ⊆ slot_keys E s -> X ## Y ->
  weight (slot_weight E s) X + weight (slot_weight E s) Y <= slot_total E s.
Proof using HE.
  intros HX HY Hd. rewrite <-weight_union by done. apply slot_weight_total; [done|].
  by apply union_least.
Qed.

(** Notarize-type quorums (60% or 80%) of one slot are for one block. *)
Lemma quorum_notarize_unique p s c c' b b' :
  vote_pools_ok E (vote_pools p) -> 0 < slot_total E s ->
  c = CNotarize s b \/ c = CFinalizeFast s b -> c' = CNotarize s b' \/ c' = CFinalizeFast s b' ->
  quorum p c -> quorum p c' -> b = b'.
Proof using HE.
  intros Hok Hpos Hc Hc' Hq Hq'.
  assert (60 * slot_total E s <= 100 * weight (slot_weight E s) (voters p s TNotarize (Some b))) as H1
    by (unfold quorum, cert_pct in Hq; destruct Hc as [->| ->]; cbn in Hq; lia).
  assert (60 * slot_total E s <= 100 * weight (slot_weight E s) (voters p s TNotarize (Some b'))) as H2
    by (unfold quorum, cert_pct in Hq'; destruct Hc' as [->| ->]; cbn in Hq'; lia).
  destruct (decide (b = b')) as [|Hne]; [done|]. exfalso.
  pose proof (quorum_intersect s _ _ (voters_sub p s TNotarize (Some b) Hok)
    (voters_sub p s TNotarize (Some b') Hok)) as Hi.
  assert (voters p s TNotarize (Some b) ## voters p s TNotarize (Some b')) as Hd.
  { intros k Hk Hk'. by apply Hne, (notarize_unique p s k). }
  specialize (Hi Hd). lia.
Qed.

(** A slot cannot have quorums to finalize and to skip. *)
Lemma quorum_finalize_skip p s :
  vote_pools_ok E (vote_pools p) -> conflict_free p -> 0 < slot_total E s ->
  quorum p (CFinalize s) -> quorum p (CSkip s) -> False.
Proof using HE.
  intros Hok Hcf Hpos. unfold quorum, cert_pct. cbn. intros Hq Hq'.
  pose proof (quorum_intersect s _ _ (cert_voters_sub p (CFinalize s) Hok) (cert_voters_sub p (CSkip s) Hok)) as Hi.
  simpl in Hi. assert (voters p s TFinalize None ## voters p s TSkip None ∪ voters p s TSkipFallback None) as Hd.
  { apply disjoint_union_r. split; [apply Hcf|apply Hcf]. }
  specialize (Hi Hd). lia.
Qed.

(** At most six blocks of a slot have a notarize-fallback quorum: a validator is
    counted for one notarize and three fallback votes, and each quorum is 60%. *)
Lemma quorum_notar_fallback_bound p s bs :
  vote_pools_ok E (vote_pools p) -> conflict_free p -> 0 < slot_total E s -> NoDup bs ->
  (forall b, b ∈ bs -> quorum p (CNotarizeFallback s b)) -> (length bs <= 6)%nat.
Proof using HE.
  intros Hok Hcf Hpos Hnd Hq.
  pose proof (block_double_count p s TNotarize bs Hok eq_refl Hnd) as HN.
  pose proof (block_double_count p s TNotarizeFallback bs Hok eq_refl Hnd) as HF.
  pose proof (slot_weight_total E HE s _ (voters_sub p s TNotarize None Hok)).
  pose proof (slot_weight_total E HE s _ (voters_sub p s TNotarizeFallback None Hok)).
  assert (sumZ ((fun _ => 60 * slot_total E s) <$> bs) <=
    100 * (sumZ ((fun b => weight (slot_weight E s) (voters p s TNotarize (Some b))) <$> bs) +
           sumZ ((fun b => weight (slot_weight E s) (voters p s TNotarizeFallback (Some b))) <$> bs))) as Hsum.
  { clear HN HF Hnd. induction bs as [|b l IH]; [done|]. csimpl.
    pose proof (Hq b ltac:(by left)) as Hb. unfold quorum, cert_pct in Hb. cbn in Hb.
    rewrite weight_pair in Hb by apply Hcf. specialize (IH ltac:(intros; apply Hq; by right)).
    unfold sumZ in *. simpl. lia. }
  assert (sumZ ((fun _ => 60 * slot_total E s) <$> bs) = Z.of_nat (length bs) * (60 * slot_total E s)) as Hlen.
  { clear. induction bs as [|b l IH]; csimpl; unfold sumZ in *; simpl in *; lia. }
  change (Z.of_nat (max_entries_of TNotarize)) with 1 in HN.
  change (Z.of_nat (max_entries_of TNotarizeFallback)) with 3 in HF.
  assert (Z.of_nat (length bs) * (60 * slot_total E s) <= 400 * slot_total E s) by lia. nia.
Qed.
End quorum.
