(* ===== verification/PoolCerts.v ===== *)
(** * The certificates of the pool

    The stake a certificate type has in the pool, and the certificates the pool
    builds: they carry exactly the validators whose votes were counted, with the
    aggregate of those votes' signatures. *)

From S2P Require Import Prelude.
From S2P Require Import Messages.
From S2P Require Import EpochStakes.
From S2P Require Import VotePools.
From S2P Require Import CertBuilder.
From S2P Require Import ConsensusPool.
From S2P Require Import PoolVotes.

(** The votes of a type the pool aggregates into a certificate. *)
Definition votes_of (p : ConsensusPool) (s : Slot) (t : VoteType) (ob : option Hash) : list VoteMessage :=
  match vote_pools p !! (s, t) with
  | None => []
  | Some (SimplePool sp) => sp_votes sp
  | Some (DupPool dp) => match ob with Some b => default [] (dup_votes dp b) | None => [] end
  end.

(** The block id that goes with a certificate type. *)
Definition block_fits (c : CertificateType) (ob : option Hash) : Prop :=
  match to_block c with Some (_, b) => ob = Some b | None => ob = None end.

Definition cert_types_of (c : CertificateType) : list VoteType := (limits_and_vote_types c).2.

(** The ranks of a set of validators. *)
Definition carries (E : Slot -> option VersionedEpochStakes) (s : Slot) (R : gset nat) (X : gset Z) : Prop :=
  forall r : nat, r ∈ R <-> exists k, slot_key_of E s (Z.of_nat r) = Some k /\ k ∈ X.

Section certs.
Context `{BlsOps, !BlsLaws} (E : Slot -> option VersionedEpochStakes) (HE : stakes_ok E).

Lemma votes_of_perm p s t ob :
  vote_pools_ok E (vote_pools p) -> (is_dup_type t = true -> ob <> None) ->
  msg_key (slot_key_of E s) <$> votes_of p s t ob ≡ₚ Some <$> elements (voters p s t ob).
Proof.
  intros Hok Hob. unfold votes_of, voters. destruct (vote_pools p !! (s, t)) as [[sp|dp]|] eqn:Ep; [| |done].
  - destruct (Hok _ _ _ Ep) as (_ & Hs & _). apply Hs.
  - destruct (Hok _ _ _ Ep) as (Hd & _ & Hdp & _). destruct ob as [b|]; [|by specialize (Hob Hd)]. apply Hdp.
Qed.
Lemma votes_of_fits p s t ob :
  vote_pools_ok E (vote_pools p) -> Forall (msg_fits s t) (votes_of p s t ob).
Proof.
  intros Hok. unfold votes_of. destruct (vote_pools p !! (s, t)) as [[sp|dp]|] eqn:Ep; [| |by apply Forall_nil].
  - by destruct (Hok _ _ _ Ep) as (_ & _ & Hs).
  - destruct (Hok _ _ _ Ep) as (_ & _ & _ & HF). destruct ob as [b|]; [|by apply Forall_nil].
    eapply Forall_impl; [apply HF|]. by intros m [? _].
Qed.

Lemma votes_of_key p s t ob m :
  vote_pools_ok E (vote_pools p) -> (is_dup_type t = true -> ob <> None) -> m ∈ votes_of p s t ob ->
  exists k, slot_key_of E s (vm_rank m) = Some k /\ k ∈ voters p s t ob.
Proof.
  intros Hok Hob Hm. pose proof (votes_of_perm p s t ob Hok Hob) as HP.
  assert (msg_key (slot_key_of E s) m ∈ msg_key (slot_key_of E s) <$> votes_of p s t ob) as Hin
    by (by apply list_elem_of_fmap_2).
  rewrite HP in Hin. apply list_elem_of_fmap in Hin as (k & Hk & Hin). apply elem_of_elements in Hin. eauto.
Qed.

Lemma rank_keys p s t ob :
  vote_pools_ok E (vote_pools p) -> (is_dup_type t = true -> ob <> None) ->
  msg_key (slot_key_of E s) <$> votes_of p s t ob =
  (fun r => slot_key_of E s (Z.of_nat r)) <$> ranks (votes_of p s t ob).
Proof using HE.
  intros Hok Hob. unfold ranks. rewrite <-list_fmap_compose. apply list_fmap_ext. intros i m Hi. simpl.
  destruct (votes_of_key p s t ob m Hok Hob) as (k & Hk & _); [by eapply list_elem_of_lookup_2|].
  destruct (slot_key_of_Some E HE _ _ _ Hk) as (Hr0 & _). unfold msg_key. by rewrite Z2Nat.id.
Qed.

Lemma votes_of_msgs_ok p s t ob :
  vote_pools_ok E (vote_pools p) -> (is_dup_type t = true -> ob <> None) -> msgs_ok t (votes_of p s t ob).
Proof using HE.
  intros Hok Hob. pose proof (votes_of_fits p s t ob Hok) as HF. split.
  - eapply Forall_impl; [exact HF|]. by intros m (_ & ? & _).
  - eapply (NoDup_fmap_1 (fun r => slot_key_of E s (Z.of_nat r))).
    rewrite <-rank_keys, (votes_of_perm p s t ob Hok Hob) by done.
    apply NoDup_fmap_2; [by intros ? ? [=]|apply NoDup_elements].
  - unfold ranks. apply Forall_fmap, Forall_forall. intros m Hm. simpl.
    destruct (votes_of_key p s t ob m Hok Hob Hm) as (k & Hk & _).
    by destruct (slot_key_of_Some E HE _ _ _ Hk) as (_ & ? & _).
  - eapply Forall_impl; [exact HF|]. by intros m (_ & _ & ?).
Qed.

Lemma votes_of_ranks p s t ob :
  vote_pools_ok E (vote_pools p) -> (is_dup_type t = true -> ob <> None) ->
  carries E s (rank_set (votes_of p s t ob)) (voters p s t ob).
Proof using HE.
  intros Hok Hob r. unfold rank_set. rewrite elem_of_list_to_set. split.
  - intros (m & -> & Hm)%list_elem_of_fmap. destruct (votes_of_key p s t ob m Hok Hob Hm) as (k & Hk & Hin).
    destruct (slot_key_of_Some E HE _ _ _ Hk) as (Hr0 & _). exists k. by rewrite Z2Nat.id.
  - intros (k & Hk & Hin). pose proof (votes_of_perm p s t ob Hok Hob) as HP.
    rewrite rank_keys in HP by done.
    assert (Some k ∈ (fun r => slot_key_of E s (Z.of_nat r)) <$> ranks (votes_of p s t ob)) as Hs.
    { rewrite HP. apply list_elem_of_fmap_2. by apply elem_of_elements. }
    apply list_elem_of_fmap in Hs as (r' & Hr' & Hin').
    assert (Z.of_nat r = Z.of_nat r') as Heq by (eapply (slot_key_of_inj E HE); eauto). by apply Nat2Z.inj in Heq as ->.
Qed.

Lemma carries_disjoint s R0 R1 X0 X1 :
  carries E s R0 X0 -> carries E s R1 X1 -> X0 ## X1 -> R0 ## R1.
Proof.
  intros C0 C1 Hd r (k & Hk & H0k)%C0 (k' & Hk' & H1k)%C1. rewrite Hk in Hk'. injection Hk' as <-.
  by apply (Hd k).
Qed.

(** ** Accumulated stake *)

Lemma pool_stakes_spec p s ob ts :
  vote_pools_ok E (vote_pools p) -> (forall t, t ∈ ts -> is_dup_type t = true -> ob <> None) ->
  exists l, pool_stakes p s ob ts = Some l /\ Forall (Z.le 0) l /\
    sumZ l = sumZ ((fun t => weight (slot_weight E s) (voters p s t ob)) <$> ts).
Proof using HE.
  intros Hok. induction ts as [|t ts IH]; intros Hob; cbn [pool_stakes].
  { exists []. split; [done|]. split; [by apply Forall_nil|done]. }
  destruct IH as (l & El & Hpos & Hsum); [intros; apply (Hob t0); [by right|done]|].
  pose proof (weight_nonneg (slot_weight E s) (slot_weight_nonneg E HE s) (voters p s t ob)) as Hw.
  rewrite fmap_cons. change (sumZ (?x :: ?l)) with (x + sumZ l).
  destruct (vote_pools p !! (s, t)) as [vp|] eqn:Ep.
  - assert (pool_stake vp ob = Some (weight (slot_weight E s) (voters p s t ob))) as ->.
    { unfold voters. rewrite Ep. pose proof (Hok _ _ _ Ep) as Hvp. destruct vp as [sp|dp]; simpl in *.
      - destruct Hvp as (_ & Hs & _). by rewrite (so_total _ _ _ _ Hs).
      - destruct Hvp as (Hd & _ & Hdp & _). destruct ob as [b|]; [|by destruct (Hob t ltac:(by left) Hd)].
        simpl. by rewrite (do_total _ _ _ _ Hdp). }
    rewrite El. eexists. split; [done|]. split; [by constructor|].
    change (sumZ (?x :: ?l)) with (x + sumZ l). lia.
  - exists l. split; [done|]. split; [done|]. rewrite Hsum.
    unfold voters at 2. rewrite Ep, weight_empty. lia.
Qed.

Lemma block_fits_dup c ob t :
  block_fits c ob -> t ∈ cert_types_of c -> is_dup_type t = true -> ob <> None.
Proof.
  unfold block_fits, cert_types_of. destruct c; simpl; intros Hob Ht Hd; subst; try done;
    rewrite ?elem_of_cons, ?elem_of_nil in Ht; naive_solver.
Qed.

Lemma cert_voters_sum p c ob :
  vote_pools_ok E (vote_pools p) -> conflict_free p -> block_fits c ob ->
  sumZ ((fun t => weight (slot_weight E (cert_slot c)) (voters p (cert_slot c) t ob)) <$> cert_types_of c) =
  weight (slot_weight E (cert_slot c)) (cert_voters p c).
Proof.
  intros Hok Hcf Hob. unfold block_fits in Hob. unfold cert_types_of.
  destruct c; simpl in *; subst ob; rewrite ?weight_pair by apply Hcf; unfold sumZ; simpl; lia.
Qed.

Lemma accumulated_stake_spec p c ob :
  vote_pools_ok E (vote_pools p) -> conflict_free p -> block_fits c ob ->
  accumulated_stake p (cert_slot c) ob (cert_types_of c) =
  Some (weight (slot_weight E (cert_slot c)) (cert_voters p c)).
Proof using HE.
  intros Hok Hcf Hob. unfold accumulated_stake.
  destruct (pool_stakes_spec p (cert_slot c) ob (cert_types_of c) Hok) as (l & -> & Hpos & Hsum).
  { intros t Ht Hd. by eapply block_fits_dup. }
  cbn [mbind option_bind]. rewrite (cert_voters_sum p c ob) in Hsum by done.
  pose proof (slot_weight_total E HE _ _ (cert_voters_sub E p c Hok)) as Hle.
  pose proof (slot_total_u64 E HE (cert_slot c)). rewrite wrapping_sum_exact by (done || lia).
  by rewrite Hsum.
Qed.

(** ** Building certificates *)

(** The builder has the shape of its certificate type. *)
Definition builder_fits (b : CertificateBuilder) : Prop :=
  length (cert_types_of (cb_cert_type b)) =
  match cb_builder_type b with SingleVote _ _ => 1%nat | _ => 2%nat end.

Lemma builder_new_fits c : builder_fits (certificate_builder_new c).
Proof. by destruct c. Qed.

Lemma two_types {A} (l : list A) : length l = 2%nat -> exists a b, l = [a; b].
Proof. destruct l as [|a [|b [|? ?]]]; try done. eauto. Qed.
Lemma one_type {A} (l : list A) : length l = 1%nat -> exists a, l = [a].
Proof. destruct l as [|a [|? ?]]; try done. eauto. Qed.

Lemma aggregate_nil_noop b :
  builder_fits b -> certificate_builder_aggregate b [] = Some (Ok b).
Proof.
  destruct b as [bt c]. unfold builder_fits, certificate_builder_aggregate, cert_types_of; simpl. intros Hf.
  destruct bt as [sg bm|sg bm o|sg bm o]; simpl in *.
  - destruct (one_type _ Hf) as [t0 ->]. simpl. by rewrite aggregate_nil.
  - destruct (two_types _ Hf) as (t0 & t1 & ->). simpl. rewrite aggregate_nil.
    destruct o as [[s1 b1]|]; [|done]. by rewrite aggregate_nil.
  - destruct (two_types _ Hf) as (t0 & t1 & ->). simpl. rewrite aggregate_nil. by destruct o.
Qed.

Lemma aggregate_fits b msgs b' :
  builder_fits b -> certificate_builder_aggregate b msgs = Some (Ok b') -> builder_fits b'.
Proof.
  destruct b as [bt c]. unfold builder_fits, certificate_builder_aggregate; simpl. intros Hf Hagg.
  apply bind_Some in Hagg as ([bt'|e] & Hb & Hr); [|done]. injection Hr as <-. simpl. rewrite Hf.
  unfold builder_aggregate in Hb. destruct bt as [sg bm|sg bm o|sg bm o]; inv_bind.
  all: repeat match goal with
  | Hx : match ?x with _ => _ end = Some _ |- _ => destruct x; simplify_eq; try done
  end.
Qed.

Lemma aggregate_votes_cons p s ob t ts b :
  vote_pools_ok E (vote_pools p) -> (is_dup_type t = true -> ob <> None) -> builder_fits b ->
  aggregate_votes p s ob (t :: ts) b =
  (r ← certificate_builder_aggregate b (votes_of p s t ob);
   match r with Ok b => aggregate_votes p s ob ts b | Err _ => None end).
Proof.
  intros Hok Hob Hf. cbn [aggregate_votes]. unfold votes_of.
  destruct (vote_pools p !! (s, t)) as [[sp|dp]|] eqn:Ep; cbn [pool_votes mbind option_bind]; [done| |].
  - destruct (Hok _ _ _ Ep) as (Hd & _). destruct ob as [b'|]; [|by specialize (Hob Hd)].
    cbn [mbind option_bind]. destruct (dup_votes dp b'); [done|]. simpl default. by rewrite aggregate_nil_noop.
  - by rewrite aggregate_nil_noop.
Qed.

(** The first and second set of voters of a certificate type. *)
Definition voters0 (p : ConsensusPool) (c : CertificateType) (ob : option Hash) : gset Z :=
  match cert_types_of c with t :: _ => voters p (cert_slot c) t ob | [] => ∅ end.
Definition voters1 (p : ConsensusPool) (c : CertificateType) (ob : option Hash) : gset Z :=
  match cert_types_of c with _ :: t :: _ => voters p (cert_slot c) t ob | _ => ∅ end.
Definition votes_for_cert (p : ConsensusPool) (c : CertificateType) (ob : option Hash) : list VoteMessage :=
  concat ((fun t => votes_of p (cert_slot c) t ob) <$> cert_types_of c).

(** What the pool certifies: the ranks of the counted voters, by vote type, and
    the aggregate of their signatures. *)
Definition pool_certifies (p : ConsensusPool) (c : CertificateType) (ob : option Hash) (cert : Certificate) : Prop :=
  exists R0 R1, cert_valid c cert R0 R1 (vm_signature <$> votes_for_cert p c ob) /\
    carries E (cert_slot c) R0 (voters0 p c ob) /\ carries E (cert_slot c) R1 (voters1 p c ob).

Lemma carries_empty s : carries E s ∅ ∅.
Proof. intros r. set_solver. Qed.

Lemma build_single_cert p c ob t :
  vote_pools_ok E (vote_pools p) -> block_fits c ob -> cert_types_of c = [t] ->
  builder_type_new c = SingleVote sig_identity default_bitvec ->
  exists b cert, aggregate_votes p (cert_slot c) ob (cert_types_of c) (certificate_builder_new c) = Some b /\
    certificate_builder_build b = Ok cert /\ pool_certifies p c ob cert.
Proof using HE.
  intros Hok Hob Ht Hnew.
  assert (is_dup_type t = true -> ob <> None) as Hd.
  { intros Hd. apply (block_fits_dup c ob t Hob); [rewrite Ht; by left|done]. }
  pose proof (votes_of_msgs_ok p (cert_slot c) t ob Hok Hd) as Hm.
  destruct (builder_single_ok c t _ Hnew Ht Hm) as (b & cert & Ea & Eb & Hv).
  exists b, cert. rewrite Ht, aggregate_votes_cons by (done || apply builder_new_fits). rewrite Ea.
  split; [done|]. split; [done|]. exists (rank_set (votes_of p (cert_slot c) t ob)), ∅.
  unfold votes_for_cert, voters0, voters1. rewrite Ht. simpl. rewrite app_nil_r.
  split; [done|]. split; [by apply votes_of_ranks|apply carries_empty].
Qed.

Lemma build_two_cert p c ob t0 t1 :
  vote_pools_ok E (vote_pools p) -> conflict_free p -> block_fits c ob -> cert_types_of c = [t0; t1] ->
  (forall msgs0 msgs1, msgs_ok t0 msgs0 -> msgs_ok t1 msgs1 -> rank_set msgs0 ## rank_set msgs1 ->
    exists b0 b1 cert, certificate_builder_aggregate (certificate_builder_new c) msgs0 = Some (Ok b0) /\
      certificate_builder_aggregate b0 msgs1 = Some (Ok b1) /\ certificate_builder_build b1 = Ok cert /\
      cert_valid c cert (rank_set msgs0) (rank_set msgs1) (vm_signature <$> (msgs0 ++ msgs1))) ->
  voters p (cert_slot c) t0 ob ## voters p (cert_slot c) t1 ob ->
  exists b cert, aggregate_votes p (cert_slot c) ob (cert_types_of c) (certificate_builder_new c) = Some b /\
    certificate_builder_build b = Ok cert /\ pool_certifies p c ob cert.
Proof using HE.
  intros Hok Hcf Hob Ht Hbuild Hdisj.
  assert (forall t, t ∈ [t0; t1] -> is_dup_type t = true -> ob <> None) as Hd.
  { intros t Hin Hd. apply (block_fits_dup c ob t Hob); [by rewrite Ht|done]. }
  pose proof (Hd t0 ltac:(set_solver)) as Hd0. pose proof (Hd t1 ltac:(set_solver)) as Hd1.
  pose proof (votes_of_ranks p (cert_slot c) t0 ob Hok Hd0) as C0.
  pose proof (votes_of_ranks p (cert_slot c) t1 ob Hok Hd1) as C1.
  destruct (Hbuild _ _ (votes_of_msgs_ok p (cert_slot c) t0 ob Hok Hd0)
    (votes_of_msgs_ok p (cert_slot c) t1 ob Hok Hd1) (carries_disjoint _ _ _ _ _ C0 C1 Hdisj))
    as (b0 & b1 & cert & E0 & E1 & Eb & Hv).
  exists b1, cert. rewrite Ht, aggregate_votes_cons by (done || apply builder_new_fits).
  rewrite E0. cbn [mbind option_bind]. rewrite aggregate_votes_cons; [|done|done|].
  2:{ eapply aggregate_fits; [apply builder_new_fits|exact E0]. }
  rewrite E1. split; [done|]. split; [done|].
  eexists _, _. unfold votes_for_cert, voters0, voters1. rewrite Ht. simpl. rewrite app_nil_r. eauto.
Qed.

(** The pool can build a certificate of any type, and it certifies the voters
    the pool counted. *)
Lemma build_cert_ok p c ob :
  vote_pools_ok E (vote_pools p) -> conflict_free p -> block_fits c ob ->
  exists b cert, aggregate_votes p (cert_slot c) ob (cert_types_of c) (certificate_builder_new c) = Some b /\
    certificate_builder_build b = Ok cert /\ pool_certifies p c ob cert.
Proof using HE.
  intros Hok Hcf Hob. destruct c as [s|s b|s b|s b|s|s b].
  - by eapply (build_single_cert p (CFinalize s)).
  - by eapply (build_single_cert p (CFinalizeFast s b)).
  - by eapply (build_single_cert p (CNotarize s b)).
  - pose proof Hob as Hob2. unfold block_fits in Hob2. simpl in Hob2. subst ob. eapply (build_two_cert p (CNotarizeFallback s b)); try done.
    + intros. by apply builder_notar_fallback_ok.
    + apply Hcf.
  - pose proof Hob as Hob2. unfold block_fits in Hob2. simpl in Hob2. subst ob. eapply (build_two_cert p (CSkip s)); try done.
    + intros. by apply builder_skip_ok.
    + apply Hcf.
  - by eapply (build_single_cert p (CGenesis s b)).
Qed.
End certs.
