(* ===== verification/PoolSafety.v ===== *)
(** * Safety of the consensus pool

    The invariant of [ConsensusPool], that every operation keeps it without
    panicking, and the theorems about any sequence of messages and prunings:
    certificates need quorums, quorums exclude each other, fallback events follow
    the stakes, and finalization only moves forward. *)

From S2P Require Import Prelude.
From S2P Require Import Messages.
From S2P Require Import ParentReady.
From S2P Require Import EpochStakes.
From S2P Require Import VotePools.
From S2P Require Import StakeCounters.
From S2P Require Import CertBuilder.
From S2P Require Import Finalization.
From S2P Require Import Migration.
From S2P Require Import ConsensusPool.
From S2P Require Import PoolVotes.
From S2P Require Import PoolCerts.

(** ** Counters follow the votes *)

Section counters.
Context `{BlsOps, !BlsLaws} (E : Slot -> option VersionedEpochStakes) (HE : stakes_ok E).

(** The counters of a slot hold the weights of its skip and notarize voters. *)
Record counters_link (p : ConsensusPool) (s : Slot) (c : SlotStakeCounters) : Prop := {
  cl_ok : counters_ok c;
  cl_total : sc_total_stake c = slot_total E s;
  cl_skip : skip_total c = weight (slot_weight E s) (voters p s TSkip None);
  cl_entry b st : notarize_entry_total c !! b = Some st ->
    st = weight (slot_weight E s) (voters p s TNotarize (Some b));
  cl_absent b : notarize_entry_total c !! b = None -> voters p s TNotarize (Some b) = ∅;
}.

Definition counters_ok_in (p : ConsensusPool) : Prop := forall s,
  match slot_stake_counters_map p !! s with
  | Some c => counters_link p s c
  | None => voters p s TSkip None = ∅ /\ voters p s TNotarize None = ∅
  end.

Lemma sum_entries_link (m : gmap Z Z) (f : Z -> Z) :
  (forall b st, m !! b = Some st -> st = f b) -> sum_entries m = sumZ (f <$> (map_to_list m).*1).
Proof.
  intros Hf. unfold sum_entries. f_equal. rewrite <-list_fmap_compose. apply list_fmap_ext.
  intros i [b st] Hi. simpl. apply Hf. apply elem_of_map_to_list. by eapply list_elem_of_lookup_2.
Qed.

(** Whatever entries the counters hold, together with the skip votes they stay
    within the total. *)
Lemma entries_bound p s (m : gmap Z Z) :
  vote_pools_ok E (vote_pools p) -> conflict_free p ->
  (forall b st, m !! b = Some st -> st = weight (slot_weight E s) (voters p s TNotarize (Some b))) ->
  weight (slot_weight E s) (voters p s TSkip None) + sum_entries m <= slot_total E s.
Proof using HE.
  intros Hok Hcf Hm. rewrite (sum_entries_link m _ Hm).
  pose proof (block_double_count E HE p s TNotarize _ Hok eq_refl (NoDup_fst_map_to_list m)) as Hdc.
  change (Z.of_nat (max_entries_of TNotarize)) with 1 in Hdc.
  pose proof (quorum_intersect E HE s _ _ (voters_sub E p s TSkip None Hok) (voters_sub E p s TNotarize None Hok)
    (cf_skip_notarize p Hcf s)). lia.
Qed.

Lemma counters_default_link p s :
  0 < slot_total E s -> counters_ok_in p ->
  counters_link p s (default (counters_new (slot_total E s)) (slot_stake_counters_map p !! s)).
Proof using HE.
  intros Hpos Hin. specialize (Hin s). destruct (slot_stake_counters_map p !! s) as [c|]; [done|].
  destruct Hin as [H1 H2]. simpl. split; simpl; [|done|by rewrite H1| |].
  - apply counters_new_ok. pose proof (slot_total_u64 E HE s). lia.
  - intros b st Hb. by rewrite lookup_empty in Hb.
  - intros b _. pose proof (voters_block_sub p s TNotarize b). rewrite H2 in *. set_solver.
Qed.

(** The two ways a counted vote changes the counters. *)
Lemma counters_vote_fits p p' v k c :
  vote_pools_ok E (vote_pools p') -> conflict_free p' -> counters_link p (vote_slot v) c ->
  vote_counted p p' v k -> counted v = true ->
  vote_fits c v (weight (slot_weight E (vote_slot v)) (voters p' (vote_slot v) (get_type v) (vote_block_id v))).
Proof using HE.
  intros Hok' Hcf' [L1 L2 L3 L4 L5] [HV HO] Hct. pose proof (slot_weight_nonneg E HE (vote_slot v)) as Hw.
  destruct v as [s b|s|s|s b|s|s b]; try done; simpl in *.
  - assert (default 0 (notarize_entry_total c !! b) = weight (slot_weight E s) (voters p s TNotarize (Some b))) as Hold.
    { destruct (notarize_entry_total c !! b) as [st|] eqn:Eb; simpl; [by apply L4|].
      by rewrite (L5 b Eb), weight_empty. }
    assert (voters p s TNotarize (Some b) ⊆ voters p' s TNotarize (Some b)) as Hsub.
    { rewrite HV. unfold counts_for. simpl. rewrite bool_decide_true by auto. set_solver. }
    rewrite Hold. split; [by apply weight_mono|].
    assert (skip_total c = weight (slot_weight E s) (voters p' s TSkip None)) as -> by (by rewrite HO).
    rewrite <-Hold, <-sum_entries_insert, L2. apply entries_bound; [done|done|].
    intros b' st. rewrite lookup_insert. case_decide as Hb; [by intros [= <-]; subst b'|].
    intros Hst. rewrite (L4 b' st Hst). f_equal. rewrite HV. unfold counts_for. simpl.
    by rewrite bool_decide_false by naive_solver.
  - assert (voters p s TSkip None ⊆ voters p' s TSkip None) as Hsub by (rewrite HV; simpl; set_solver).
    split; [rewrite L3; by apply weight_mono|]. rewrite L2. apply entries_bound; [done|done|].
    intros b' st Hst. rewrite (L4 b' st Hst). by rewrite HO.
Qed.

Lemma counters_add_link p p' v k c own events stats c' events' stats' :
  vote_pools_ok E (vote_pools p') -> conflict_free p' -> counters_link p (vote_slot v) c ->
  vote_counted p p' v k -> counted v = true ->
  counters_add_vote c v (weight (slot_weight E (vote_slot v))
    (voters p' (vote_slot v) (get_type v) (vote_block_id v))) own events stats = Some (c', events', stats') ->
  counters_link p' (vote_slot v) c'.
Proof using HE.
  intros Hok' Hcf' HL HC Hct Hadd.
  pose proof (counters_vote_fits p p' v k c Hok' Hcf' HL HC Hct) as Hfit.
  destruct HL as [L1 L2 L3 L4 L5]. destruct HC as [HV HO].
  destruct (counters_add_vote_step _ _ _ own events stats L1 Hfit Hct) as (c2 & new & st2 & E2 & Hstep & _ & _).
  rewrite Hadd in E2. injection E2 as <- _ _.
  pose proof (counters_record_counted c v (weight (slot_weight E (vote_slot v))
    (voters p' (vote_slot v) (get_type v) (vote_block_id v)))) as Hr. rewrite Hct in Hr. destruct Hr as [c1 Hrec].
  destruct (counters_add_vote_stakes _ _ _ _ _ _ _ _ _ _ Hrec Hadd) as (F1 & F2 & F3).
  destruct c as [mine total skip ntotal entries top sent ssent].
  destruct v as [s b|s|s|s b|s|s b]; try done; simpl in *; injection Hrec as <-; simpl in *.
  - split; [apply Hstep|by rewrite F3|by rewrite F2, HO| |].
    + intros b' st. rewrite F1, lookup_insert. case_decide as Hb; [by intros [= <-]; subst b'|].
      intros Hst. rewrite (L4 b' st Hst), HV. unfold counts_for; simpl. by rewrite bool_decide_false by naive_solver.
    + intros b'. rewrite F1, lookup_insert. case_decide as Hb; [done|]. intros Hn. rewrite HV.
      unfold counts_for; simpl. rewrite bool_decide_false by naive_solver. auto.
  - split; [apply Hstep|by rewrite F3|by rewrite F2| |].
    + intros b' st. rewrite F1, HO by done. apply L4.
    + intros b'. rewrite F1, HO by done. apply L5.
Qed.

(** The votes in the pool support a safety event: those for the block, with the skip
    votes of the slot, or those for anything but a block, whichever it is. *)
Definition event_supported (p : ConsensusPool) (e : VotorEvent) : Prop :=
  let w s := weight (slot_weight E s) in
  match e with
  | ESafeToNotar (s, b) =>
    40 * slot_total E s <= 100 * w s (voters p s TNotarize (Some b)) \/
    (20 * slot_total E s <= 100 * w s (voters p s TNotarize (Some b)) /\
     60 * slot_total E s <= 100 * (w s (voters p s TSkip None) + w s (voters p s TNotarize (Some b))))
  | ESafeToSkip s => forall b,
    40 * slot_total E s <= 100 * (w s (voters p s TSkip None) +
      (w s (voters p s TNotarize None) - w s (voters p s TNotarize (Some b))))
  | _ => True
  end.
Lemma counters_supported p s c c' new :
  vote_pools_ok E (vote_pools p) -> counters_link p s c' -> counters_step c s c' new ->
  forall e, e ∈ new -> event_supported p e.
Proof using HE.
  intros Hok [L1 L2 L3 L4 L5] [_ K2 K3 _ _ [_ K7]] e He. destruct (K7 e He) as [->|[b ->]].
  - apply K3 in He as (_ & _ & Hs). intros b. rewrite L2, L3, (sum_entries_link _ _ L4) in Hs.
    pose proof (block_double_count E HE p s TNotarize _ Hok eq_refl (NoDup_fst_map_to_list (notarize_entry_total c'))) as Hdc.
    change (Z.of_nat (max_entries_of TNotarize)) with 1 in Hdc.
    pose proof (max_entries_lookup_le (notarize_entry_total c') b (co_entries c' L1)) as Hmax.
    assert (default 0 (notarize_entry_total c' !! b) = weight (slot_weight E s) (voters p s TNotarize (Some b))) as Hb.
    { destruct (_ !! b) as [st|] eqn:Eb; simpl; [by apply L4|by rewrite (L5 b Eb), weight_empty]. }
    lia.
  - apply K2 in He as (_ & st & Hst & _ & Hs). unfold stake_supports_notar in Hs. rewrite L2, L3, (L4 b st Hst) in Hs. done.
Qed.

(** Counters of slots the vote does not touch, and votes the counters ignore. *)
Lemma counters_link_same p p' s c :
  (forall ob, voters p' s TSkip ob = voters p s TSkip ob) ->
  (forall ob, voters p' s TNotarize ob = voters p s TNotarize ob) ->
  counters_link p s c -> counters_link p' s c.
Proof using Type.
  intros HS HN [L1 L2 L3 L4 L5]. split; [done|done|by rewrite HS| |].
  - intros b st. rewrite HN. apply L4.
  - intros b. rewrite HN. apply L5.
Qed.
End counters.

(** ** The invariant *)

Lemma find_map_Some {A B} (f : A -> option B) l y :
  find_map f l = Some y -> exists x, x ∈ l /\ f x = Some y.
Proof.
  induction l as [|x l IH]; simpl; [done|]. destruct (f x) eqn:Ex.
  - intros [= <-]. exists x. split; [by left|done].
  - intros Hf. destruct (IH Hf) as (x' & Hx' & Hfx). exists x'. split; [by right|done].
Qed.

Lemma get_notarize_cert_Some p slot cert :
  get_notarize_cert p slot = Some cert ->
  exists b, completed_certificates p !! CNotarize slot b = Some cert.
Proof.
  intros Hg. apply find_map_Some in Hg as ([c cert'] & Hin & Hf). apply elem_of_btree_iter in Hin.
  destruct c; simpl in Hf; try done. case_bool_decide; [|done]. injection Hf as <-. subst. eauto.
Qed.

(** The proof of finalization has the shape its constructor says. *)
Definition finalization_ok (f : ValidatedBlockFinalizationCert) : Prop :=
  match fc_kind f with
  | KFinalize fc nc => exists s b, cert_type fc = CFinalize s /\ cert_type nc = CNotarize s b
  | KFastFinalize c => exists s b, cert_type c = CFinalizeFast s b
  end.

(** The order of [Option<Slot>]. *)
Definition option_slot_le (a b : option Slot) : Prop :=
  match a, b with
  | None, _ => True
  | Some x, Some y => x <= y
  | Some _, None => False
  end.

Lemma option_slot_le_refl a : option_slot_le a a.
Proof. destruct a; simpl; lia || done. Qed.
Lemma option_slot_le_trans a b c : option_slot_le a b -> option_slot_le b c -> option_slot_le a c.
Proof. destruct a, b, c; simpl; lia || done. Qed.

Lemma limits_eq c : limits_and_vote_types c = (from_percentage (cert_pct c), cert_types_of c).
Proof. by destruct c. Qed.
Lemma cert_pct_bound c : 60 <= cert_pct c <= 82.
Proof. destruct c; unfold cert_pct; simpl; lia. Qed.

Section safety.
Context `{BlsOps, !BlsLaws} (E : Slot -> option VersionedEpochStakes) (HE : stakes_ok E).

(** [R s]: the blocks of slot [s] certified by others (received certificates and
    genesis votes).  [U s b]: the validators that ever vote to notarize [b].  The
    capacity of the parent-ready tracker is enough when [R s] with any six blocks
    that can reach a quorum is within it; [fault_capacity] derives this from a bound
    on the faulty stake. *)
Context (R : Slot -> gset Z) (U : Slot -> Z -> gset Z).

Definition certifiable (s : Slot) (b : Hash) : Prop :=
  0 < slot_total E s /\ 60 * slot_total E s <= 100 * weight (slot_weight E s) (U s b).
Definition capacity_ok : Prop := forall s (X : gset Z),
  (size X <= 6)%nat -> (forall b, b ∈ X -> certifiable s b) ->
  (size (R s ∪ X) <= MAX_NOTAR_FALLBACK_BLOCKS)%nat.
Context (Hcap : capacity_ok).

(** Why a block is certified. *)
Definition justified (p : ConsensusPool) (s : Slot) (b : Hash) : Prop :=
  b ∈ R s \/ (0 < slot_total E s /\ quorum E p (CNotarizeFallback s b)).

(** The bitmap of a finalization certificate decodes to one set of ranks. *)
Definition cert_decodes (cert : Certificate) : Prop :=
  is_finalization (cert_type cert) = true ->
  forall es, E (cert_slot (cert_type cert)) = Some es ->
    exists bits, decode (cert_bitmap cert) (rank_map_len (es_rank_map es)) = Ok (Base2 bits).

(** A bank whose epoch stakes are the ones of [E]. *)
Definition bank_fits (bank : RootBank) : Prop :=
  forall s es, epoch_stakes_from_slot bank s = Some es -> E s = Some es.

Record votes_inv (p : ConsensusPool) : Prop := {
  vi_pools : vote_pools_ok E (vote_pools p);
  vi_conflict : conflict_free p;
  vi_counters : counters_ok_in E p;
  vi_voters s b : voters p s TNotarize (Some b) ∪ voters p s TNotarizeFallback (Some b) ⊆ U s b;
  vi_generated c : c ∈ generated_cert_types p -> 0 < slot_total E (cert_slot c) /\ quorum E p c;
}.

Record certs_inv (p : ConsensusPool) (g : Certs) : Prop := {
  ci_generated c : c ∈ generated_cert_types p -> is_Some (completed_certificates p !! c);
  ci_cert c cert : completed_certificates p !! c = Some cert -> cert_type cert = c /\ cert_decodes cert;
  ci_fast s b : is_Some (completed_certificates p !! CFinalizeFast s b) ->
    exists f, highest_finalized_slot_cert p = Some f /\ s <= finalization_slot f /\
              (s = finalization_slot f -> is_fast f = true);
  ci_highest f : highest_finalized_slot_cert p = Some f -> finalization_ok f;
  ci_tracker : refines g (parent_ready_tracker p);
  ci_justified b : b ∈ certified g -> prt_root (parent_ready_tracker p) < b.1 -> justified p b.1 b.2;
  ci_size s : (size (blocks_in_slot g s) <= MAX_NOTAR_FALLBACK_BLOCKS)%nat;
  ci_migration : migration_status p = None;
}.

(** What [insert_certificate] leaves alone. *)
Definition same_votes (p p' : ConsensusPool) : Prop :=
  vote_pools p' = vote_pools p /\ generated_cert_types p' = generated_cert_types p /\
  slot_stake_counters_map p' = slot_stake_counters_map p /\ pool_stats p' = pool_stats p /\
  last_pruned_slot p' = last_pruned_slot p.

Lemma voters_same p p' : vote_pools p' = vote_pools p -> forall s t ob, voters p' s t ob = voters p s t ob.
Proof using HE Hcap. intros Hp s t ob. unfold voters. by rewrite Hp. Qed.
Lemma cert_voters_same p p' c : vote_pools p' = vote_pools p -> cert_voters p' c = cert_voters p c.
Proof using HE Hcap. intros Hp. destruct c; simpl; by rewrite ?(voters_same p p' Hp). Qed.
Lemma quorum_same p p' c : vote_pools p' = vote_pools p -> quorum E p c -> quorum E p' c.
Proof using HE Hcap. intros Hp. unfold quorum. by rewrite (cert_voters_same p p' c Hp). Qed.
Lemma justified_same p p' s b : vote_pools p' = vote_pools p -> justified p s b -> justified p' s b.
Proof using HE Hcap. intros Hp [Hr|[Hpos Hq]]; [by left|right]. split; [done|by eapply quorum_same]. Qed.

Lemma conflict_free_same p p' : vote_pools p' = vote_pools p -> conflict_free p -> conflict_free p'.
Proof using HE Hcap.
  intros Hp [C1 C2 C3 C4 C5 C6]. split; intros; rewrite !(voters_same p p' Hp); auto.
Qed.

(** ** The capacity of the tracker *)

Lemma justified_blocks p s (X : gset Z) :
  votes_inv p -> (forall b, b ∈ X -> justified p s b) -> (size X <= MAX_NOTAR_FALLBACK_BLOCKS)%nat.
Proof using Hcap HE.
  intros HV HX. set (Y := X ∖ R s).
  assert (forall b, b ∈ Y -> 0 < slot_total E s /\ quorum E p (CNotarizeFallback s b)) as HY.
  { intros b [Hb Hn]%elem_of_difference. by destruct (HX b Hb). }
  assert (X ⊆ R s ∪ Y) as Hsub by (unfold Y; intros b Hb; destruct (decide (b ∈ R s)); set_solver).
  etransitivity; [by apply subseteq_size|]. apply Hcap.
  - destruct (decide (Y = ∅)) as [->|Hne]; [rewrite size_empty; lia|].
    destruct (set_choose_L Y Hne) as [b0 Hb0]. destruct (HY b0 Hb0) as [Hpos _].
    unfold size, set_size. simpl.
    apply (quorum_notar_fallback_bound E HE p s (elements Y)); [apply HV|apply HV|done|apply NoDup_elements|].
    intros b Hb%elem_of_elements. by apply HY.
  - intros b Hb. destruct (HY b Hb) as [Hpos Hq]. split; [done|]. unfold quorum, cert_pct in Hq. cbn in Hq.
    pose proof (weight_mono _ (slot_weight_nonneg E HE s) _ _ (vi_voters p HV s b)). lia.
Qed.

Definition hashes_in_slot (g : Certs) (s : Slot) : gset Z :=
  list_to_set (snd <$> elements (blocks_in_slot g s)).
Lemma elem_of_hashes_in_slot g s b : b ∈ hashes_in_slot g s <-> (s, b) ∈ certified g.
Proof using HE Hcap.
  unfold hashes_in_slot, blocks_in_slot. rewrite elem_of_list_to_set, list_elem_of_fmap.
  setoid_rewrite elem_of_elements. setoid_rewrite elem_of_filter. split.
  - intros ([s' b'] & -> & Hs & Hin). simpl in *. by subst s'.
  - intros Hin. by exists (s, b).
Qed.
Lemma blocks_in_slot_hashes g s : size (blocks_in_slot g s) = size (hashes_in_slot g s).
Proof using HE Hcap.
  unfold hashes_in_slot. rewrite size_list_to_set; [by rewrite length_fmap|].
  apply NoDup_fmap_2_strong; [|apply NoDup_elements].
  intros [s1 b1] [s2 b2]. rewrite !elem_of_elements. unfold blocks_in_slot. rewrite !elem_of_filter. simpl.
  intros [-> _] [-> _] ->. done.
Qed.

(** Registering a justified block with the tracker. *)
Lemma tracker_add_block_ok p g s b events :
  votes_inv p -> certs_inv p g -> s + 2 <= u64_max -> justified p s b ->
  let g' := spec_op (prt_root (parent_ready_tracker p)) g (AddNotar (s, b)) in
  exists t new, add_new_notar_fallback_or_stronger (parent_ready_tracker p) (s, b) events = Some (t, events ++ new) /\
    prt_root t = prt_root (parent_ready_tracker p) /\ refines g' t /\
    (forall b, b ∈ certified g' -> prt_root t < b.1 -> justified p b.1 b.2) /\
    (forall s, (size (blocks_in_slot g' s) <= MAX_NOTAR_FALLBACK_BLOCKS)%nat).
Proof using Hcap HE.
  intros HV HC Hrange Hj g'. set (root := prt_root (parent_ready_tracker p)) in *.
  assert (forall x, x ∈ certified g' -> root < x.1 -> justified p x.1 x.2) as Hj'.
  { intros x Hx Hr. unfold g', spec_op in Hx. case_bool_decide; [by apply (ci_justified p g HC)|].
    simpl in Hx. apply elem_of_union in Hx as [->%elem_of_singleton|Hx]; [done|by apply (ci_justified p g HC)]. }
  assert (forall s, (size (blocks_in_slot g' s) <= MAX_NOTAR_FALLBACK_BLOCKS)%nat) as Hsz.
  { intros s'. destruct (decide (root < s')) as [Hlt|Hge].
    - rewrite blocks_in_slot_hashes. apply (justified_blocks p s'); [done|].
      intros b' Hb'%elem_of_hashes_in_slot. by apply (Hj' (s', b')).
    - assert (blocks_in_slot g' s' = blocks_in_slot g s') as ->; [|apply (ci_size p g HC)].
      unfold g', spec_op. case_bool_decide as Hr; [done|]. unfold blocks_in_slot. simpl in *.
      apply set_eq. intros x. rewrite !elem_of_filter, elem_of_union, elem_of_singleton.
      split; [|naive_solver]. intros [Hx [->|Hin]]; [simpl in Hx; lia|done]. }
  destruct (add_notar_refines g (parent_ready_tracker p) (s, b) events (ci_tracker p g HC)) as (t & new & Ea & Hroot & Href & _).
  { split; [done|]. apply Hsz. }
  exists t, new. rewrite Ea. split; [done|]. rewrite Hroot. done.
Qed.

(** ** Inserting a certificate *)

Lemma extract_signers_ok bank cert :
  bank_fits bank -> is_Some (epoch_stakes_from_slot bank (cert_slot (cert_type cert))) ->
  is_finalization (cert_type cert) = true -> cert_decodes cert ->
  exists signers, extract_signers bank cert = Ok signers.
Proof using HE Hcap.
  intros Hbank [es Hes] Hfin Hdec. unfold extract_signers. rewrite Hes.
  destruct (Hdec Hfin es (Hbank _ _ Hes)) as [bits ->]. eauto.
Qed.
Lemma from_validated_slow_ok bank s fc nc :
  bank_fits bank -> is_Some (epoch_stakes_from_slot bank s) -> cert_type fc = CFinalize s -> cert_decodes fc ->
  exists f, from_validated_slow fc nc bank = Some f /\ fc_kind f = KFinalize fc nc.
Proof using HE Hcap.
  intros Hbank Hes Hfc Hdec. destruct (extract_signers_ok bank fc Hbank) as [sg Hsg]; try (by rewrite Hfc); [done|].
  unfold from_validated_slow. rewrite Hsg. eauto.
Qed.
Lemma from_validated_fast_ok bank s b c :
  bank_fits bank -> is_Some (epoch_stakes_from_slot bank s) -> cert_type c = CFinalizeFast s b -> cert_decodes c ->
  exists f, from_validated_fast c bank = Some f /\ fc_kind f = KFastFinalize c.
Proof using HE Hcap.
  intros Hbank Hes Hfc Hdec. destruct (extract_signers_ok bank c Hbank) as [sg Hsg]; try (by rewrite Hfc); [done|].
  unfold from_validated_fast. rewrite Hsg. eauto.
Qed.

(** Storing a certificate and the tracker it leads to. *)
Lemma certs_inv_insert p g c cert t g' :
  certs_inv p g -> cert_type cert = c -> cert_decodes cert -> is_fast_finalization c = false ->
  refines g' t -> (forall b, b ∈ certified g' -> prt_root t < b.1 -> justified p b.1 b.2) ->
  (forall s, (size (blocks_in_slot g' s) <= MAX_NOTAR_FALLBACK_BLOCKS)%nat) ->
  certs_inv (with_tracker (with_completed p (<[c := cert]> (completed_certificates p))) t) g'.
Proof using HE Hcap.
  intros [C1 C2 C3 C4 C5 C6 C7 C8] Hty Hdec Hnf Href Hj Hsz. destruct p as [vp cc gc tr hf st ct ms lp].
  split; simpl in *; try done.
  - intros x Hx. rewrite lookup_insert. case_decide; [by eauto|by apply C1].
  - intros x y. rewrite lookup_insert. case_decide; [intros [= <-]; subst; done|apply C2].
  - intros s b. rewrite lookup_insert. case_decide as Heq; [by rewrite Heq in Hnf|apply C3].
Qed.

(** A new highest finalization. *)
Lemma certs_inv_highest p g f :
  certs_inv p g -> finalization_ok f ->
  (forall f0, highest_finalized_slot_cert p = Some f0 -> finalization_slot f0 < finalization_slot f) ->
  certs_inv (with_highest p (Some f)) g.
Proof using HE Hcap.
  intros [C1 C2 C3 C4 C5 C6 C7 C8] Hf Hlt. destruct p as [vp cc gc tr hf st ct ms lp].
  split; simpl in *; try done.
  - intros s b Hs. destruct (C3 s b Hs) as (f0 & -> & Hle & _). specialize (Hlt f0 eq_refl).
    exists f. split; [done|]. split; [lia|]. lia.
  - intros f' [= <-]. done.
Qed.

(** A fast finalization certificate, stored and, unless a later slot is finalized,
    the new highest. *)
Lemma certs_inv_fast p g s b cert t g' hf :
  certs_inv p g -> cert_type cert = CFinalizeFast s b -> cert_decodes cert ->
  refines g' t -> (forall b, b ∈ certified g' -> prt_root t < b.1 -> justified p b.1 b.2) ->
  (forall s, (size (blocks_in_slot g' s) <= MAX_NOTAR_FALLBACK_BLOCKS)%nat) ->
  (exists f, hf = Some f /\ finalization_ok f /\
     ((fc_kind f = KFastFinalize cert /\
       forall f0, highest_finalized_slot_cert p = Some f0 -> finalization_slot f0 <= s) \/
      (highest_finalized_slot_cert p = Some f /\ s < finalization_slot f))) ->
  certs_inv (with_highest (with_tracker (with_completed p
    (<[CFinalizeFast s b := cert]> (completed_certificates p))) t) hf) g'.
Proof using HE Hcap.
  intros [C1 C2 C3 C4 C5 C6 C7 C8] Hty Hdec Href Hj Hsz (f & -> & Hf & Hcase).
  destruct p as [vp cc gc tr hf st ct ms lp]. split; simpl in *; try done.
  - intros x Hx. rewrite lookup_insert. case_decide; [by eauto|by apply C1].
  - intros x y. rewrite lookup_insert. case_decide; [intros [= <-]; subst; done|apply C2].
  - intros s' b' Hs'. exists f. split; [done|]. destruct Hcase as [[Hk Hle]|[-> Hlt]].
    + unfold is_fast, finalization_slot. rewrite Hk, Hty. simpl. split; [|done].
      rewrite lookup_insert in Hs'. case_decide as Heq; [by injection Heq; lia|].
      destruct (C3 s' b' Hs') as (f0 & Hf0 & Hle0 & _). specialize (Hle f0 Hf0). lia.
    + rewrite lookup_insert in Hs'. case_decide as Heq; [injection Heq as <- <-; lia|].
      destruct (C3 s' b' Hs') as (f0 & Hf0 & Hle0 & Heq0). injection Hf0 as <-. done.
  - intros f' [= <-]. done.
Qed.

Definition inserted (p p' : ConsensusPool) (g' : Certs) (c : CertificateType) (cert : Certificate) : Prop :=
  same_votes p p' /\ certs_inv p' g' /\
  completed_certificates p' = <[c := cert]> (completed_certificates p) /\
  option_slot_le (highest_finalized_slot p) (highest_finalized_slot p') /\
  prt_root (parent_ready_tracker p') = prt_root (parent_ready_tracker p).

(** Where no new finalization results, the new state is the stored certificate
    and the tracker. *)
Lemma inserted_tracker p c cert t g' :
  certs_inv (with_tracker (with_completed p (<[c := cert]> (completed_certificates p))) t) g' ->
  prt_root t = prt_root (parent_ready_tracker p) ->
  inserted p (with_tracker (with_completed p (<[c := cert]> (completed_certificates p))) t) g' c cert.
Proof using HE Hcap.
  intros HC Hr. destruct p as [vp cc gc tr hf st ct ms lp]. split; [done|]. split; [done|].
  split; [done|]. split; [|done]. unfold highest_finalized_slot; simpl. destruct hf; simpl; lia || done.
Qed.

Lemma inserted_highest p c cert p1 g' f :
  inserted p p1 g' c cert -> finalization_ok f ->
  is_none_or (highest_finalized_slot p1) (fun s => bool_decide (s < finalization_slot f)) = true ->
  inserted p (with_highest p1 (Some f)) g' c cert.
Proof using HE Hcap.
  intros (Hs & HC & Hcc & Hle & Hr) Hf Hlt.
  assert (forall f0, highest_finalized_slot_cert p1 = Some f0 -> finalization_slot f0 < finalization_slot f) as Hlt'.
  { intros f0 Hf0. unfold highest_finalized_slot in Hlt. rewrite Hf0 in Hlt. simpl in Hlt. by to_prop. }
  pose proof (certs_inv_highest p1 g' f HC Hf Hlt') as HC'.
  unfold highest_finalized_slot in *. destruct p1 as [vp cc gc tr hf st ct ms lp]; simpl in *.
  split; [done|]. split; [done|]. split; [done|]. split; [|done]. unfold highest_finalized_slot; simpl.
  destruct (highest_finalized_slot_cert p) as [fp|]; simpl in *; [|done].
  destruct hf as [f1|]; simpl in *; [|done]. specialize (Hlt' f1 eq_refl). lia.
Qed.

(** A block certificate that is not a finalization. *)
Lemma insert_block_cert p g s b c cert events :
  votes_inv p -> certs_inv p g -> s + 2 <= u64_max -> justified p s b ->
  cert_type cert = c -> cert_decodes cert -> is_fast_finalization c = false ->
  exists t new g', add_new_notar_fallback_or_stronger (parent_ready_tracker p) (s, b) events = Some (t, events ++ new) /\
    inserted p (with_tracker (with_completed p (<[c := cert]> (completed_certificates p))) t) g' c cert.
Proof using Hcap HE.
  intros HV HC Hr Hj Hty Hdec Hnf.
  destruct (tracker_add_block_ok p g s b events HV HC Hr Hj) as (t & new & Ea & Hroot & Href & Hj' & Hsz).
  exists t, new, (spec_op (prt_root (parent_ready_tracker p)) g (AddNotar (s, b))). split; [done|].
  apply inserted_tracker; [|done]. by apply (certs_inv_insert p g).
Qed.

Lemma tracker_with_completed p x : parent_ready_tracker (with_completed p x) = parent_ready_tracker p.
Proof using HE Hcap. by destruct p. Qed.

Lemma insert_skip_ok p g bank s cert events :
  certs_inv p g -> s + 2 <= u64_max -> cert_type cert = CSkip s -> cert_decodes cert ->
  exists p' g' new, insert_certificate p bank (CSkip s) cert events = Some (p', events ++ new) /\
    inserted p p' g' (CSkip s) cert.
Proof using HE Hcap.
  intros HC Hr Hty Hdec. unfold insert_certificate. rewrite tracker_with_completed.
  destruct (add_skip_refines g (parent_ready_tracker p) s events (ci_tracker p g HC) Hr)
    as (t & new & -> & Hroot & Href & _).
  eexists _, _, new. split; [done|]. apply inserted_tracker; [|done].
  assert (certified (spec_op (prt_root (parent_ready_tracker p)) g (AddSkip s)) = certified g) as Hcert
    by (simpl; by case_bool_decide).
  apply (certs_inv_insert p g); try done.
  - intros b. rewrite Hcert, Hroot. apply (ci_justified p g HC).
  - intros s'. unfold blocks_in_slot. rewrite Hcert. apply (ci_size p g HC).
Qed.

Lemma insert_fast_ok p g bank s b cert events :
  votes_inv p -> certs_inv p g -> bank_fits bank -> is_Some (epoch_stakes_from_slot bank s) ->
  s + 2 <= u64_max -> justified p s b -> cert_type cert = CFinalizeFast s b -> cert_decodes cert ->
  exists p' g' new, insert_certificate p bank (CFinalizeFast s b) cert events = Some (p', events ++ new) /\
    inserted p p' g' (CFinalizeFast s b) cert.
Proof using Hcap HE.
  intros HV HC Hbank Hes Hr Hj Hty Hdec. unfold insert_certificate, tracker_add_block.
  rewrite tracker_with_completed.
  destruct (tracker_add_block_ok p g s b (events ++ [EFinalized (s, b) true]) HV HC Hr Hj)
    as (t & new & -> & Hroot & Href & Hj' & Hsz). cbn [mbind option_bind].
  destruct (from_validated_fast_ok bank s b cert Hbank Hes Hty Hdec) as (f & Ef & Hk).
  assert (finalization_ok f /\ finalization_slot f = s) as [Hfok Hfs].
  { unfold finalization_ok, finalization_slot. rewrite Hk, Hty. eauto. }
  pose proof (fun hf => certs_inv_fast p g s b cert t _ hf HC Hty Hdec Href Hj' Hsz) as HF.
  destruct p as [vp cc gc tr hf st ct ms lp]; unfold highest_finalized_slot; simpl in *.
  destruct (is_none_or _ _) eqn:En.
  - rewrite Ef. eexists _, _, _. split; [simpl; by rewrite <-app_assoc|]. split; [done|]. split; [|split; [done|]].
    + apply HF. exists f. split; [done|]. split; [done|]. left. split; [done|].
      intros f0 ->. simpl in En. by to_prop.
    + split; [|done]. unfold highest_finalized_slot; simpl. destruct hf; simpl in *; [to_prop; lia|done].
  - destruct hf as [f0|]; [|done]. simpl in En. to_prop.
    eexists _, _, _. split; [simpl; by rewrite <-app_assoc|]. split; [done|]. split; [|split; [done|]].
    + apply HF. exists f0. split; [done|]. split; [by apply (ci_highest _ _ HC)|]. right. split; [done|lia].
    + split; [|done]. unfold highest_finalized_slot; simpl. lia.
Qed.

Lemma insert_notarize_ok p g bank s b cert events :
  votes_inv p -> certs_inv p g -> bank_fits bank -> is_Some (epoch_stakes_from_slot bank s) ->
  s + 2 <= u64_max -> justified p s b -> cert_type cert = CNotarize s b -> cert_decodes cert ->
  exists p' g' new, insert_certificate p bank (CNotarize s b) cert events = Some (p', events ++ new) /\
    inserted p p' g' (CNotarize s b) cert.
Proof using Hcap HE.
  intros HV HC Hbank Hes Hr Hj Hty Hdec. unfold insert_certificate, tracker_add_block.
  rewrite tracker_with_completed.
  destruct (insert_block_cert p g s b (CNotarize s b) cert (events ++ [EBlockNotarized (s, b)]) HV HC Hr Hj Hty Hdec eq_refl)
    as (t & new & g' & -> & Hins). cbn [mbind option_bind].
  set (p1 := with_tracker _ _) in *. destruct (get_finalize_cert p1 s) as [fc|] eqn:Efc.
  2:{ eexists _, g', _. split; [by rewrite <-app_assoc|done]. }
  destruct (ci_cert p1 g' (proj1 (proj2 Hins)) _ _ Efc) as [Hfty Hfdec].
  destruct (from_validated_slow_ok bank s fc cert Hbank Hes Hfty Hfdec) as (f & Ef & Hk).
  assert (finalization_ok f /\ finalization_slot f = s) as [Hfok Hfs].
  { unfold finalization_ok, finalization_slot. rewrite Hk, Hfty. eauto. }
  destruct (is_none_or _ _) eqn:En.
  - rewrite Ef. eexists _, g', _. split; [simpl; by rewrite <-!app_assoc|].
    apply inserted_highest; [done|done|]. by rewrite Hfs.
  - eexists _, g', _. split; [by rewrite <-!app_assoc|done].
Qed.

Lemma insert_finalize_ok p g bank s cert events :
  certs_inv p g -> bank_fits bank -> is_Some (epoch_stakes_from_slot bank s) ->
  cert_type cert = CFinalize s -> cert_decodes cert ->
  exists p' g' new, insert_certificate p bank (CFinalize s) cert events = Some (p', events ++ new) /\
    inserted p p' g' (CFinalize s) cert.
Proof using HE Hcap.
  intros HC Hbank Hes Hty Hdec. unfold insert_certificate.
  assert (inserted p (with_completed p (<[CFinalize s := cert]> (completed_certificates p))) g (CFinalize s) cert) as Hins.
  { assert (with_completed p (<[CFinalize s := cert]> (completed_certificates p)) =
      with_tracker (with_completed p (<[CFinalize s := cert]> (completed_certificates p))) (parent_ready_tracker p)) as ->
      by (by destruct p).
    apply inserted_tracker; [|done]. destruct HC as [C1 C2 C3 C4 C5 C6 C7 C8]. by apply (certs_inv_insert p g). }
  set (p1 := with_completed _ _) in *. destruct (get_notarize_cert p1 s) as [nc|] eqn:Enc.
  2:{ exists p1, g, []. by rewrite app_nil_r. }
  apply get_notarize_cert_Some in Enc as [b Enc].
  destruct (ci_cert p1 g (proj1 (proj2 Hins)) _ _ Enc) as [Hnty Hndec]. rewrite Hnty. cbn [to_block mbind option_bind].
  destruct (from_validated_slow_ok bank s cert nc Hbank Hes Hty Hdec) as (f & Ef & Hk).
  assert (finalization_ok f /\ finalization_slot f = s) as [Hfok Hfs].
  { unfold finalization_ok, finalization_slot. rewrite Hk, Hty. eauto. }
  destruct (is_none_or _ _) eqn:En.
  - rewrite Ef. eexists _, g, _. split; [done|]. apply inserted_highest; [done|done|]. by rewrite Hfs.
  - eexists _, g, _. split; [done|done].
Qed.

Lemma insert_certificate_ok p g bank c cert events :
  votes_inv p -> certs_inv p g -> bank_fits bank -> is_Some (epoch_stakes_from_slot bank (cert_slot c)) ->
  cert_slot c + 2 <= u64_max -> (forall s b, to_block c = Some (s, b) -> justified p s b) ->
  cert_type cert = c -> cert_decodes cert ->
  exists p' g' new, insert_certificate p bank c cert events = Some (p', events ++ new) /\
    inserted p p' g' c cert.
Proof using Hcap HE.
  intros HV HC Hbank Hes Hr Hj Hty Hdec. destruct c as [s|s b|s b|s b|s|s b]; cbn [cert_slot] in *.
  - by apply (insert_finalize_ok p g).
  - apply (insert_fast_ok p g); try done. by apply Hj.
  - apply (insert_notarize_ok p g); try done. by apply Hj.
  - unfold insert_certificate, tracker_add_block. rewrite tracker_with_completed.
    destruct (insert_block_cert p g s b (CNotarizeFallback s b) cert (events ++ [EBlockNotarFallback (s, b)]))
      as (t & new & g' & -> & Hins); try done; [by apply Hj|].
    eexists _, g', _. split; [simpl; by rewrite <-app_assoc|done].
  - by apply (insert_skip_ok p g).
  - unfold insert_certificate, tracker_add_block.
    assert (migration_status (with_completed p (<[CGenesis s b := cert]> (completed_certificates p))) = None) as ->.
    { pose proof (ci_migration p g HC). by destruct p. }
    cbn [mbind option_bind]. rewrite tracker_with_completed.
    destruct (insert_block_cert p g s b (CGenesis s b) cert events)
      as (t & new & g' & -> & Hins); try done; [by apply Hj|].
    eexists _, g', _. split; [done|done].
Qed.

(** ** Building certificates after a vote *)

Lemma quorum_justifies p c s b :
  0 < slot_total E (cert_slot c) -> quorum E p c -> to_block c = Some (s, b) -> is_genesis c = false ->
  justified p s b.
Proof using HE Hcap.
  intros Hpos Hq Hb Hg. right.
  assert (forall x, weight (slot_weight E x) (voters p x TNotarize (Some b)) <=
    weight (slot_weight E x) (cert_voters p (CNotarizeFallback x b))) as Hmono.
  { intros x. apply weight_mono; [apply slot_weight_nonneg, HE|]. simpl. set_solver. }
  destruct c; simpl in *; try done; injection Hb as -> ->; split; try done;
    unfold quorum, cert_pct in *; cbn [limits_and_vote_types fst from_percentage numerator cert_slot] in *;
    specialize (Hmono s); simpl in Hmono, Hq |- *; lia.
Qed.

(** A finalization certificate of the pool decodes to its ranks. *)
Lemma pool_certifies_decodes p c ob cert :
  pool_certifies E p c ob cert -> cert_decodes cert.
Proof using HE Hcap.
  intros (R0 & R1 & Hv & C0 & C1) Hfin es Hes. rewrite (cv_type _ _ _ _ _ Hv) in Hfin, Hes.
  destruct (HE _ _ Hes) as (_ & _ & Hlen).
  assert (R1 = ∅) as ->.
  { apply set_eq. intros r. split; [|set_solver]. intros (k & _ & Hk)%C1.
    unfold voters1 in Hk. destruct c; simpl in *; try done; set_solver. }
  destruct (cv_base2 _ _ _ _ _ Hv (rank_map_len (es_rank_map es)) eq_refl) as (bits & Hd & _); [|by eauto].
  intros r (k & Hk & _)%C0. unfold slot_key_of in Hk. rewrite bool_decide_true in Hk by lia.
  apply fmap_Some in Hk as (e & He & _). rewrite Nat2Z.id in He. unfold slot_entries in He. rewrite Hes in He.
  apply lookup_lt_Some in He. unfold rank_map_len. lia.
Qed.

(** The state after the loop of [update_certificates], which leaves the votes
    alone and completes the certificates whose quorum is there. *)
Record updated (p p' : ConsensusPool) (ob : option Hash) (cs : list CertificateType)
    (built : list Certificate) : Prop := {
  up_pools : vote_pools p' = vote_pools p;
  up_counters : slot_stake_counters_map p' = slot_stake_counters_map p;
  up_pruned : last_pruned_slot p' = last_pruned_slot p;
  up_root : prt_root (parent_ready_tracker p') = prt_root (parent_ready_tracker p);
  up_highest : option_slot_le (highest_finalized_slot p) (highest_finalized_slot p');
  up_keep c cert : completed_certificates p !! c = Some cert -> completed_certificates p' !! c = Some cert;
  up_generated : generated_cert_types p ⊆ generated_cert_types p';
  up_new c : is_Some (completed_certificates p' !! c) ->
    is_Some (completed_certificates p !! c) \/ (c ∈ cs /\ quorum E p c /\ c ∈ generated_cert_types p');
  up_complete c : c ∈ cs -> quorum E p c -> completed_certificates p !! c = None ->
    exists cert, cert ∈ built /\ cert_type cert = c /\ completed_certificates p' !! c = Some cert;
  up_built cert : cert ∈ built -> cert_type cert ∈ cs /\ quorum E p (cert_type cert) /\
    pool_certifies E p (cert_type cert) ob cert;
}.

Lemma up_mono p p' ob cs built c :
  updated p p' ob cs built -> is_Some (completed_certificates p !! c) -> is_Some (completed_certificates p' !! c).
Proof using Type. intros HU [x Hx]. exists x. by apply (up_keep _ _ _ _ _ HU). Qed.
Lemma up_stored p p' ob cs built c :
  updated p p' ob cs built -> c ∈ cs -> quorum E p c -> is_Some (completed_certificates p' !! c).
Proof using Type.
  intros HU Hc Hq. destruct (completed_certificates p !! c) as [x|] eqn:Ex.
  - exists x. by apply (up_keep _ _ _ _ _ HU).
  - destruct (up_complete _ _ _ _ _ HU c Hc Hq Ex) as (y & _ & _ & Hy). eauto.
Qed.

Lemma pool_certifies_same p p' c ob cert :
  vote_pools p' = vote_pools p -> pool_certifies E p' c ob cert -> pool_certifies E p c ob cert.
Proof using HE Hcap.
  intros Hp. unfold pool_certifies, voters0, voters1, votes_for_cert, votes_of, voters. by rewrite Hp.
Qed.

Lemma votes_inv_same p p' :
  votes_inv p -> vote_pools p' = vote_pools p -> slot_stake_counters_map p' = slot_stake_counters_map p ->
  (forall c, c ∈ generated_cert_types p' -> 0 < slot_total E (cert_slot c) /\ quorum E p c) -> votes_inv p'.
Proof using HE Hcap.
  intros [V1 V2 V3 V4 V5] Hp Hc Hg. split.
  - by rewrite Hp.
  - by apply (conflict_free_same p).
  - intros s. rewrite Hc. specialize (V3 s). destruct (slot_stake_counters_map p !! s).
    + eapply counters_link_same; [..|exact V3]; intros ob; by apply voters_same.
    + by rewrite !(voters_same p p' Hp).
  - intros s b. rewrite !(voters_same p p' Hp). apply V4.
  - intros c Hc'. destruct (Hg c Hc'). split; [done|by apply (quorum_same p)].
Qed.

Lemma certs_inv_stats p g st : certs_inv p g -> certs_inv (with_stats p st) g.
Proof using HE Hcap. intros [C1 C2 C3 C4 C5 C6 C7 C8]. destruct p. by split. Qed.
Lemma certs_inv_generated p g c :
  certs_inv p g -> is_Some (completed_certificates p !! c) ->
  certs_inv (with_generated p (insert_cert (generated_cert_types p) c)) g.
Proof using HE Hcap.
  intros [C1 C2 C3 C4 C5 C6 C7 C8] Hc. destruct p. split; try done. simpl in *.
  unfold insert_cert. intros x [->%elem_of_singleton|Hx]%elem_of_union; [done|by apply C1].
Qed.
Lemma certs_inv_votes p g vps ct :
  certs_inv p g -> (forall s b, justified p s b -> justified (with_counters (with_vote_pools p vps) ct) s b) ->
  certs_inv (with_counters (with_vote_pools p vps) ct) g.
Proof using HE Hcap.
  intros [C1 C2 C3 C4 C5 C6 C7 C8] Hj. destruct p. split; try done. simpl in *. intros b Hb Hr. by apply Hj, C6.
Qed.

(** The stake test of the loop is the quorum. *)
Lemma quorum_test p c ob :
  votes_inv p -> block_fits c ob -> 0 < slot_total E (cert_slot c) ->
  exists acc below, accumulated_stake p (cert_slot c) ob (cert_types_of c) = Some acc /\
    fraction_lt (fraction_new acc (slot_total E (cert_slot c))) (from_percentage (cert_pct c)) = Some below /\
    (below = false <-> quorum E p c).
Proof using HE Hcap.
  intros HV Hob Hpos. rewrite (accumulated_stake_spec E HE p c ob) by (done || apply HV).
  pose proof (slot_total_u64 E HE (cert_slot c)). pose proof (cert_pct_bound c).
  pose proof (weight_nonneg _ (slot_weight_nonneg E HE (cert_slot c)) (cert_voters p c)).
  pose proof (slot_weight_total E HE _ _ (cert_voters_sub E p c (vi_pools p HV))).
  eexists _, _. split; [done|]. rewrite fraction_lt_spec by (unfold is_u64, u64_max in *; lia).
  split; [done|]. rewrite bool_decide_eq_false. unfold quorum. lia.
Qed.

(** Chaining: what happens to a certificate type, then to the rest. *)
Lemma updated_skip p p' ob c cs built :
  updated p p' ob cs built -> (quorum E p c -> is_Some (completed_certificates p !! c)) ->
  updated p p' ob (c :: cs) built.
Proof using HE Hcap.
  intros [U1 U2 U3 U4 U5 U6 UG U7 U8 U9] Hc. split; try done.
  - intros x Hx. destruct (U7 x Hx) as [|[? ?]]; [by left|right]. split; [by right|done].
  - intros x [->|Hx]%elem_of_cons Hq Hn; [destruct (Hc Hq); congruence|by apply U8].
  - intros x Hx. destruct (U9 x Hx) as (? & ? & ?). split; [by right|done].
Qed.
Lemma updated_build p p1 p' g1 ob c cs cert built :
  inserted p p1 g1 c cert -> completed_certificates p !! c = None -> quorum E p c -> pool_certifies E p c ob cert ->
  updated (with_stats (with_generated p1 (insert_cert (generated_cert_types p1) c))
     (incr_generated_cert (pool_stats p1) c)) p' ob cs built ->
  updated p p' ob (c :: cs) (cert :: built).
Proof using HE Hcap.
  intros ((S1 & S2 & S3 & S4 & S5) & HC & Hcc & Hle & Hr) Hnone Hq Hcert HU.
  assert (cert_type cert = c) as Hty by (destruct Hcert as (? & ? & Hv & _); apply Hv).
  set (p2 := with_stats _ _) in HU.
  assert (vote_pools p2 = vote_pools p1 /\ slot_stake_counters_map p2 = slot_stake_counters_map p1 /\
    last_pruned_slot p2 = last_pruned_slot p1 /\ parent_ready_tracker p2 = parent_ready_tracker p1 /\
    highest_finalized_slot p2 = highest_finalized_slot p1 /\
    completed_certificates p2 = completed_certificates p1 /\
    generated_cert_types p2 = {[c]} ∪ generated_cert_types p1) as (P1 & P2 & P3 & P4 & P5 & P6 & P7)
    by (unfold p2; by destruct p1).
  destruct HU as [U1 U2 U3 U4 U5 U6 UG U7 U8 U9]. rewrite ?P1, ?P2, ?P3, ?P4, ?P5, ?P6, ?P7 in *.
  assert (vote_pools p2 = vote_pools p) as Hvp by congruence.
  split; try congruence.
  - by eapply option_slot_le_trans.
  - intros x y Hx. apply U6. rewrite Hcc, lookup_insert. case_decide; [congruence|done].
  - clear -UG S2. set_solver.
  - intros x Hx. destruct (U7 x Hx) as [Hx'|(Hx' & Hqx & Hgx)]; [|right; split; [by right|split; [by apply (quorum_same p2)|done]]].
    rewrite Hcc, lookup_insert in Hx'. case_decide as Hxc; [|by left]. subst x. right. split; [by left|split; [done|]].
    apply UG. set_solver.
  - intros x Hx Hqx Hnx. destruct (decide (x = c)) as [->|Hne].
    + exists cert. split; [by left|split; [done|]]. apply U6. by rewrite Hcc, lookup_insert_eq.
    + apply elem_of_cons in Hx as [|Hx]; [done|].
      destruct (U8 x Hx) as (y & ? & ? & ?); [by apply (quorum_same p)|by rewrite Hcc, lookup_insert_ne|].
      exists y. split; [by right|done].
  - intros x [->|Hx]%elem_of_cons; [rewrite Hty; split; [by left|done]|].
    destruct (U9 x Hx) as (X1 & X2 & X3). split; [by right|].
    split; [by apply (quorum_same p2)|by apply (pool_certifies_same p p2)].
Qed.

Lemma update_certificates_ok bank slot ob cs : forall p g events acc,
  votes_inv p -> certs_inv p g -> bank_fits bank -> is_Some (epoch_stakes_from_slot bank slot) ->
  slot + 2 <= u64_max -> 0 < slot_total E slot ->
  (forall c, c ∈ cs -> cert_slot c = slot /\ block_fits c ob /\ forall b, c = CGenesis slot b -> b ∈ R slot) ->
  exists p' g' new built,
    update_certificates p bank slot ob events (slot_total E slot) cs acc = Some (p', events ++ new, Ok (acc ++ built)) /\
    votes_inv p' /\ certs_inv p' g' /\ updated p p' ob cs built.
Proof using HE Hcap.
  induction cs as [|c cs IH]; intros p g events acc HV HC Hbank Hes Hr Hpos Hcs; cbn [update_certificates].
  { exists p, g, [], []. rewrite !app_nil_r. split; [done|]. split; [done|]. split; [done|].
    split; try done; try (by left); try (intros ? Hx; by apply elem_of_nil in Hx); apply option_slot_le_refl. }
  destruct (Hcs c ltac:(by left)) as (Hslot & Hob & Hgen).
  assert (forall c, c ∈ cs -> cert_slot c = slot /\ block_fits c ob /\ forall b, c = CGenesis slot b -> b ∈ R slot) as Hcs'
    by (intros x Hx; apply Hcs; by right).
  case_bool_decide as Hdone.
  { destruct (IH p g events acc HV HC Hbank Hes Hr Hpos Hcs') as (p' & g' & new & built & Eu & HV' & HC' & HU).
    exists p', g', new, built. split; [done|]. split; [done|]. split; [done|]. by apply updated_skip. }
  rewrite limits_eq. rewrite <-Hslot in Hpos.
  destruct (quorum_test p c ob HV Hob Hpos) as (st & below & Eacc & Elt & Hbelow).
  rewrite <-Hslot. rewrite Eacc. cbn [mbind option_bind]. rewrite nonzero_unwrap_Some by lia. cbn [mbind option_bind].
  rewrite Elt. cbn [mbind option_bind]. rewrite Hslot in *. destruct below.
  { destruct (IH p g events acc HV HC Hbank Hes Hr Hpos Hcs') as (p' & g' & new & built & Eu & HV' & HC' & HU).
    exists p', g', new, built. split; [done|]. split; [done|]. split; [done|]. apply updated_skip; [done|].
    intros Hq. by apply Hbelow in Hq. }
  pose proof (proj1 Hbelow eq_refl) as Hq.
  destruct (build_cert_ok E HE p c ob (vi_pools p HV) (vi_conflict p HV) Hob) as (b & cert & Ea & Eb & Hcert).
  rewrite Hslot in Ea. rewrite Ea. cbn [mbind option_bind]. rewrite Eb.
  assert (cert_type cert = c) as Hty by (destruct Hcert as (? & ? & Hv & _); apply Hv).
  destruct (insert_certificate_ok p g bank c cert events HV HC Hbank) as (p1 & g1 & new1 & Ei & Hins).
  { by rewrite Hslot. } { by rewrite Hslot. }
  { intros s x Hx. destruct (is_genesis c) eqn:Eg; [|apply (quorum_justifies p c); [by rewrite Hslot|done..]].
    destruct c; try done. simpl in *. injection Hx as <- <-. subst. left. by apply Hgen. }
  { done. } { by eapply pool_certifies_decodes. }
  rewrite Ei. cbn [mbind option_bind]. rewrite Hty.
  pose proof Hins as ((S1 & S2 & S3 & S4 & S5) & HC1 & Hcc & _).
  destruct (IH (with_stats (with_generated p1 (insert_cert (generated_cert_types p1) c))
    (incr_generated_cert (pool_stats (with_generated p1 (insert_cert (generated_cert_types p1) c))) c)) g1 (events ++ new1) (acc ++ [cert]))
    as (p' & g' & new & built & Eu & HV' & HC' & HU); try done.
  - apply (votes_inv_same p); [done|by destruct p1|by destruct p1|]. intros x Hx.
    assert (x ∈ {[c]} ∪ generated_cert_types p1) as [->%elem_of_singleton|Hx']%elem_of_union by (by destruct p1).
    + rewrite Hslot. done.
    + apply (vi_generated p HV). by rewrite <-S2.
  - apply certs_inv_stats, certs_inv_generated; [done|]. rewrite Hcc, lookup_insert_eq. eauto.
  - exists p', g', (new1 ++ new), (cert :: built). split; [rewrite Eu; by rewrite <-!app_assoc|].
    split; [done|]. split; [done|]. eapply updated_build; [exact Hins|by apply eq_None_not_Some|done|done|].
    replace (pool_stats p1) with (pool_stats (with_generated p1 (insert_cert (generated_cert_types p1) c)))
      by (by destruct p1). done.
Qed.
End safety.
