(* ===== verification/PoolOps.v ===== *)
(** * Operations of the consensus pool

    Every operation of [ConsensusPool] keeps the invariant of [PoolSafety] without
    panicking, and what each one returns.  [pool_inv] adds that a certificate
    whose quorum is in the pool has been built. *)

From S2P Require Import Prelude.
From S2P Require Import Messages.
From S2P Require Import ParentReady.
From S2P Require Import EpochStakes.
From S2P Require Import VotePools.
From S2P Require Import StakeCounters.
From S2P Require Import CertBuilder.
From S2P Require Import Finalization.
From S2P Require Import Migration.
From S2P Require Import ConsensusPool.
From S2P Require Import PoolVotes.
From S2P Require Import PoolCerts.
From S2P Require Import PoolSafety.

(** ** Votes a counted vote leaves alone *)

Section counted_votes.

Lemma vote_counted_mono p p' v k s t ob :
  vote_counted p p' v k -> voters p s t ob ⊆ voters p' s t ob.
Proof.
  intros [HV HO]. destruct (decide ((s, t) = (vote_slot v, get_type v))) as [[= -> ->]|Hne].
  - rewrite HV. destruct (counts_for v ob); set_solver.
  - by rewrite HO.
Qed.
Lemma cert_voters_mono p p' c :
  (forall s t ob, voters p s t ob ⊆ voters p' s t ob) -> cert_voters p c ⊆ cert_voters p' c.
Proof. intros Hv. destruct c; simpl; try apply union_mono; apply Hv. Qed.

(** A vote only adds to the certificates it can be part of. *)
Lemma cert_voters_counted p p' v k c :
  vote_counted p p' v k -> c ∉ vote_to_cert_types v -> is_genesis c = false ->
  cert_voters p' c = cert_voters p c.
Proof.
  intros [HV HO] Hc Hg. destruct (decide (cert_slot c = vote_slot v)) as [Hs|Hs].
  - assert (forall b, counts_for v (Some b) = false ->
      voters p' (vote_slot v) (get_type v) (Some b) = voters p (vote_slot v) (get_type v) (Some b)) as HS
      by (intros b Hb; rewrite HV; by rewrite Hb).
    destruct v as [s b|s|s|s b|s|s b], c as [s'|s' b'|s' b'|s' b'|s'|s' b']; simpl in *; subst s'; try done;
      try (rewrite !HO by done; done); rewrite ?not_elem_of_cons in Hc; try (exfalso; clear HV HO HS; naive_solver);
      rewrite HS by (unfold counts_for; simpl; apply bool_decide_eq_false; intros [|[= ->]]; clear HV HO HS; naive_solver);
      rewrite ?HO by done; done.
  - destruct c; simpl in *; rewrite !HO by congruence; done.
Qed.

Context `{BlsOps, !BlsLaws} (E : Slot -> option VersionedEpochStakes) (HE : stakes_ok E).

Lemma quorum_mono p p' c :
  (forall s t ob, voters p s t ob ⊆ voters p' s t ob) -> quorum E p c -> quorum E p' c.
Proof using HE.
  intros Hv. unfold quorum.
  pose proof (weight_mono _ (slot_weight_nonneg E HE (cert_slot c)) _ _ (cert_voters_mono p p' c Hv)). lia.
Qed.
Lemma quorum_counted p p' v k c :
  vote_counted p p' v k -> c ∉ vote_to_cert_types v -> is_genesis c = false ->
  quorum E p' c -> quorum E p c.
Proof using Type. intros HC Hc Hg. unfold quorum. by rewrite (cert_voters_counted p p' v k c). Qed.

(** The counters after a counted vote. *)
Lemma counters_ok_counted p p' v k own events stats :
  vote_pools_ok E (vote_pools p') -> conflict_free p' -> counters_ok_in E p -> 0 < slot_total E (vote_slot v) ->
  vote_counted p p' v k -> slot_stake_counters_map p' = slot_stake_counters_map p ->
  exists c' new stats',
    counters_add_vote (default (counters_new (slot_total E (vote_slot v))) (slot_stake_counters_map p' !! vote_slot v)) v
      (weight (slot_weight E (vote_slot v)) (voters p' (vote_slot v) (get_type v) (vote_block_id v)))
      own events stats = Some (c', events ++ new, stats') /\
    (forall e, e ∈ new -> event_supported E p' e) /\
    forall st, counters_ok_in E (with_stats (with_counters p' (<[vote_slot v := c']> (slot_stake_counters_map p'))) st).
Proof using HE.
  intros Hok Hcf Hin Hpos HC Hmap. rewrite Hmap.
  pose proof (counters_default_link E HE p (vote_slot v) Hpos Hin) as HL.
  set (c0 := default _ _) in *. set (w := weight _ _).
  assert (exists c' new stats', counters_add_vote c0 v w own events stats = Some (c', events ++ new, stats') /\
    (forall e, e ∈ new -> event_supported E p' e) /\ counters_link E p' (vote_slot v) c') as (c' & new & stats' & Ea & Hsup & HL').
  { destruct (counted v) eqn:Ect.
    - destruct (counters_add_vote_step c0 v w own events stats (cl_ok E p _ c0 HL)) as (c' & new & stats' & Ea & Hstep & _);
        [by eapply counters_vote_fits|done|]. exists c', new, stats'. split; [done|].
      assert (counters_link E p' (vote_slot v) c') as HL' by (by eapply counters_add_link).
      split; [by apply (counters_supported E HE p' (vote_slot v) c0 c')|done].
    - exists c0, [], stats. rewrite app_nil_r. split; [by apply counters_uncounted|]. split; [by intros e ?%elem_of_nil|].
      destruct HC as [HV HO]. apply (counters_link_same E p); [..|done]; intros ob; apply HO; by destruct v. }
  exists c', new, stats'. split; [done|]. split; [done|]. intros st s. destruct p' as [vp cc gc tr hf st' ct ms lp]. simpl in *.
  rewrite lookup_insert. case_decide as Hs; [subst s; by destruct HL'; split|].
  specialize (Hin s). destruct HC as [HV HO].
  assert (forall t ob, voters (mkPool vp cc gc tr hf st' ct ms lp) s t ob = voters p s t ob) as Hsame
    by (intros; apply HO; congruence).
  destruct (slot_stake_counters_map p !! s).
  - eapply (counters_link_same E p); [..|exact Hin]; intros ob; apply Hsame.
  - destruct Hin as [H1 H2]. rewrite <-H1 at 1. rewrite <-H2. split; apply Hsame.
Qed.
End counted_votes.

(** ** Votes *)

Section add_vote.
Context `{BlsOps, !BlsLaws} (E : Slot -> option VersionedEpochStakes) (HE : stakes_ok E).
Context (R : Slot -> gset Z) (U : Slot -> Z -> gset Z) (Hcap : capacity_ok E R U).

(** Every certificate whose quorum is in the pool is there, generated or received;
    of the genesis certificates of a slot, whose quorum does not depend on the block,
    one is. *)
Definition holds_cert (p : ConsensusPool) (c : CertificateType) : Prop :=
  match c with
  | CGenesis s _ => exists b, is_Some (completed_certificates p !! CGenesis s b)
  | _ => is_Some (completed_certificates p !! c)
  end.
Definition complete (p : ConsensusPool) : Prop := forall c,
  0 < slot_total E (cert_slot c) -> quorum E p c -> holds_cert p c.

Lemma holds_cert_of p c : is_Some (completed_certificates p !! c) -> holds_cert p c.
Proof using Type. destruct c; simpl; eauto. Qed.
Lemma holds_cert_mono p p' c :
  (forall c, is_Some (completed_certificates p !! c) -> is_Some (completed_certificates p' !! c)) ->
  holds_cert p c -> holds_cert p' c.
Proof using Type. intros Hm. destruct c; simpl; auto. intros [b Hb]. eauto. Qed.

Definition pool_inv (p : ConsensusPool) : Prop :=
  votes_inv E U p /\ (exists g, certs_inv E R p g) /\ complete p.

(** A vote message: its signature is valid (the BLS verifier has checked it), its
    slot leaves room for the slots after it, and its voter is in [U] or its genesis
    block in [R]. *)
Definition vote_input (m : VoteMessage) : Prop :=
  vote_slot (vm_vote m) + 2 <= u64_max /\ sig_valid (vm_signature m) /\
  match vm_vote m with
  | Notarize s b | NotarizeFallback s b => forall k, slot_key_of E s (vm_rank m) = Some k -> k ∈ U s b
  | Genesis s b => b ∈ R s
  | _ => True
  end.

(** What the operations between two prunings only ever extend. *)
Record pool_step (p p' : ConsensusPool) : Prop := {
  ps_voters s t ob : voters p s t ob ⊆ voters p' s t ob;
  ps_completed c : is_Some (completed_certificates p !! c) -> is_Some (completed_certificates p' !! c);
  ps_highest : option_slot_le (highest_finalized_slot p) (highest_finalized_slot p');
  ps_root : prt_root (parent_ready_tracker p') = prt_root (parent_ready_tracker p);
  ps_pruned : last_pruned_slot p' = last_pruned_slot p;
  ps_generated : generated_cert_types p ⊆ generated_cert_types p';
}.

Lemma get_key_and_stakes_spec bank slot rank :
  bank_fits E bank ->
  match get_key_and_stakes bank slot rank with
  | None => False
  | Some (Err e) => (e = EpochStakesNotFound 0 /\ epoch_stakes_from_slot bank slot = None) \/
                    (e = VoteInvalidRank rank /\ slot_key_of E slot rank = None)
  | Some (Ok (k, st, total)) =>
    is_Some (epoch_stakes_from_slot bank slot) /\ slot_key_of E slot rank = Some k /\
    st = slot_weight E slot k /\ total = slot_total E slot
  end.
Proof using HE.
  intros Hbank. unfold get_key_and_stakes. destruct (epoch_stakes_from_slot bank slot) as [es|] eqn:Ees; [|by left].
  pose proof (Hbank _ _ Ees) as HEs.
  assert (slot_key_of E slot rank = en_vote_account_pubkey <$> get_pubkey_stake_entry (es_rank_map es) rank) as Hk.
  { unfold slot_key_of, get_pubkey_stake_entry, slot_entries. rewrite HEs. by case_bool_decide. }
  destruct (get_pubkey_stake_entry (es_rank_map es) rank) as [e|] eqn:Ee; simpl in Hk; [|by right].
  destruct (slot_key_of_Some E HE _ _ _ Hk) as (Hr & _ & _ & Hw & e' & He' & Hke & Hst).
  assert (e' = e) as ->.
  { unfold get_pubkey_stake_entry in Ee. rewrite bool_decide_true in Ee by done.
    unfold slot_entries in He'. rewrite HEs in He'. congruence. }
  rewrite bool_decide_false by lia. simpl. split; [by eauto|]. split; [done|]. split; [done|].
  unfold slot_total. by rewrite HEs.
Qed.

Lemma pool_step_refl p : pool_step p p.
Proof using Type. split; try done. apply option_slot_le_refl. Qed.
Lemma pool_step_trans p1 p2 p3 : pool_step p1 p2 -> pool_step p2 p3 -> pool_step p1 p3.
Proof using Type.
  intros [A1 A2 A3 A4 A5 A6] [B1 B2 B3 B4 B5 B6]. split; try congruence; auto.
  - intros s t ob. etransitivity; [apply A1|apply B1].
  - by eapply option_slot_le_trans.
  - by etransitivity.
Qed.

(** Statistics are not part of the invariant. *)
Lemma pool_inv_stats p st : pool_inv p -> pool_inv (with_stats p st).
Proof using HE Hcap.
  intros (HV & [g HC] & Hco). split; [|split].
  - apply (votes_inv_same E HE R U Hcap p); [done|by destruct p|by destruct p|].
    intros c Hc. apply (vi_generated E U p HV). by destruct p.
  - exists g. by apply certs_inv_stats with U.
  - by destruct p.
Qed.
Lemma pool_step_stats p st : pool_step p (with_stats p st).
Proof using Type. destruct p. split; try done. apply option_slot_le_refl. Qed.

Lemma vote_counted_same p p1 p2 v k :
  vote_pools p2 = vote_pools p1 -> vote_counted p p1 v k -> vote_counted p p2 v k.
Proof using Type.
  intros Hp [HV HO]. assert (forall s t ob, voters p2 s t ob = voters p1 s t ob) as Hs
    by (intros; unfold voters; by rewrite Hp).
  split; intros; rewrite Hs; auto.
Qed.

Lemma justified_mono p p' s b :
  (forall s t ob, voters p s t ob ⊆ voters p' s t ob) -> justified E R p s b -> justified E R p' s b.
Proof using HE Hcap.
  intros Hm [Hr|[Hpos Hq]]; [by left|right]. split; [done|by eapply quorum_mono].
Qed.

(** A vote that is in the pool already. *)
Lemma pool_inv_exist p vps :
  pool_inv p -> vote_pools_ok E vps ->
  (forall s t ob, voters (with_vote_pools p vps) s t ob = voters p s t ob) -> pool_inv (with_vote_pools p vps).
Proof using HE Hcap.
  intros ([V1 V2 V3 V4 V5] & [g HC] & Hco) Hok Hs.
  assert (forall c, quorum E (with_vote_pools p vps) c <-> quorum E p c) as Hq.
  { intros c. split; apply (quorum_mono E HE); intros; by rewrite Hs. }
  split; [split|split].
  - by rewrite vote_pools_with.
  - destruct V2 as [C1 C2 C3 C4 C5 C6]. split; intros; rewrite !Hs; auto.
  - intros s. assert (slot_stake_counters_map (with_vote_pools p vps) = slot_stake_counters_map p) as -> by (by destruct p).
    specialize (V3 s). destruct (slot_stake_counters_map p !! s); [|by rewrite !Hs].
    eapply (counters_link_same E p); [..|exact V3]; intros; apply Hs.
  - intros s b. rewrite !Hs. apply V4.
  - intros c Hc. rewrite Hq. apply V5. by destruct p.
  - exists g. assert (with_vote_pools p vps = with_counters (with_vote_pools p vps) (slot_stake_counters_map p)) as Heq
      by (by destruct p). rewrite Heq. apply (certs_inv_votes E HE R U Hcap); [done|].
    intros s b Hj. rewrite <-Heq. eapply justified_mono; [|exact Hj]. intros; by rewrite Hs.
  - intros c Hpos Hc. apply Hq, Hco in Hc; [by destruct p|done].
Qed.

(** The votes after a counted vote. *)
Lemma votes_inv_counted p p' m k :
  let v := vm_vote m in
  votes_inv E U p -> vote_input m -> slot_key_of E (vote_slot v) (vm_rank m) = Some k ->
  (forall ct, ct ∈ conflicting_types (get_type v) -> k ∉ voters p (vote_slot v) ct (vote_block_id v)) ->
  vote_counted p p' v k -> vote_pools_ok E (vote_pools p') -> counters_ok_in E p' ->
  generated_cert_types p' = generated_cert_types p -> votes_inv E U p'.
Proof using HE Hcap.
  intros v [V1 V2 V3 V4 V5] (_ & _ & Hin) Hkey Hconf HC Hok Hct Hgen.
  split; [done|by apply (conflict_free_counted E HE p p' v k)|done| |].
  - intros s b. destruct HC as [HV HO]. fold v in Hin.
    assert (forall t, t = TNotarize \/ t = TNotarizeFallback ->
      voters p' s t (Some b) ⊆ voters p s t (Some b) ∪ U s b) as Hsub.
    { intros t Ht. destruct (decide ((s, t) = (vote_slot v, get_type v))) as [[= -> ->]|Hne]; [|rewrite HO by done; set_solver].
      rewrite HV. destruct (counts_for v (Some b)) eqn:Ec; [|set_solver].
      assert (k ∈ U (vote_slot v) b); [|set_solver]. clear -Ht Hin Hkey Ec. unfold counts_for in Ec.
      destruct v; simpl in *; try (by destruct Ht); apply bool_decide_eq_true in Ec as [|[= ->]]; auto; done. }
    pose proof (Hsub TNotarize (or_introl eq_refl)) as S1. pose proof (Hsub TNotarizeFallback (or_intror eq_refl)) as S2.
    specialize (V4 s b). clear - V4 S1 S2. set_solver.
  - intros c Hc. rewrite Hgen in Hc. destruct (V5 c Hc) as [Hpos Hq]. split; [done|].
    eapply quorum_mono; [done| |exact Hq]. intros. by eapply vote_counted_mono.
Qed.

(** What [add_vote] returns on each branch, and what it does to the pool. *)
Definition vote_outcome (bank : RootBank) (m : VoteMessage) (p p' : ConsensusPool)
    (r : result AddVoteError (list Certificate)) : Prop :=
  let v := vm_vote m in let s := vote_slot v in let t := get_type v in
  match r with
  | Err (EpochStakesNotFound e) => e = 0 /\ epoch_stakes_from_slot bank s = None /\ p' = p
  | Err (VoteInvalidRank rank) => rank = vm_rank m /\ slot_key_of E s rank = None /\ p' = p
  | Err UnrootedSlot => s < rb_slot bank /\ p' = bump_stat out_of_range_votes (bump_stat incoming_votes p)
  | Err (ConflictingVoteType t' ct s' k) =>
    t' = t /\ s' = s /\ slot_key_of E s (vm_rank m) = Some k /\
    ct ∈ conflicting_types t /\ k ∈ voters p s ct (vote_block_id v) /\
    p' = bump_stat conflicting_votes (bump_stat incoming_votes p)
  | Err (CertificateError _ | ChannelDisconnected _ | VotingServiceQueueFull) => False
  | Ok certs =>
    rb_slot bank <= s /\
    exists k, slot_key_of E s (vm_rank m) = Some k /\
      ((certs = [] /\ k ∈ voters p s t None /\ completed_certificates p' = completed_certificates p /\
        forall s t ob, voters p' s t ob = voters p s t ob) \/
       ((k ∉ voters p s t (vote_block_id v)) /\ vote_counted p p' v k /\
        (forall c, is_Some (completed_certificates p' !! c) ->
           is_Some (completed_certificates p !! c) \/
           (c ∈ vote_to_cert_types v /\ quorum E p' c /\ c ∈ generated_cert_types p')) /\
        (forall c, c ∈ vote_to_cert_types v -> quorum E p' c -> completed_certificates p !! c = None ->
           exists cert, cert ∈ certs /\ cert_type cert = c /\ completed_certificates p' !! c = Some cert) /\
        forall cert, cert ∈ certs -> cert_type cert ∈ vote_to_cert_types v /\
          quorum E p' (cert_type cert) /\ pool_certifies E p' (cert_type cert) (vote_block_id v) cert))
  end.

Lemma has_conflicting_vote_Some p s t k ob ct :
  has_conflicting_vote p s t k ob = Some ct -> ct ∈ conflicting_types t /\ k ∈ voters p s ct ob.
Proof using Type.
  intros (ct' & Hin & Hf)%find_map_Some. unfold voters.
  destruct (vote_pools p !! (s, ct')) as [vp|] eqn:Ep; [|done]. rewrite is_conflicting_spec in Hf.
  case_bool_decide; [|done]. injection Hf as <-. by rewrite Ep.
Qed.

Lemma vote_to_cert_types_fits m c :
  vote_input m -> c ∈ vote_to_cert_types (vm_vote m) ->
  cert_slot c = vote_slot (vm_vote m) /\ block_fits c (vote_block_id (vm_vote m)) /\
  forall b, c = CGenesis (vote_slot (vm_vote m)) b -> b ∈ R (vote_slot (vm_vote m)).
Proof using Type.
  intros (_ & _ & Hin). destruct (vm_vote m); simpl; rewrite !elem_of_cons, elem_of_nil;
    intros Hc; destruct_or?; try done; subst c; simpl; split_and!; try done; naive_solver.
Qed.

(** After a counted vote every quorum is still answered: that of a type the vote
    cannot be part of was there before, that of a genesis certificate for another
    block gives one for the block of the vote. *)
Lemma complete_counted p p2 p' v k :
  complete p -> vote_counted p p2 v k -> vote_pools_ok E (vote_pools p2) ->
  (forall c, quorum E p' c -> quorum E p2 c) ->
  (forall c, is_Some (completed_certificates p !! c) -> is_Some (completed_certificates p' !! c)) ->
  (forall c, c ∈ vote_to_cert_types v -> quorum E p2 c -> is_Some (completed_certificates p' !! c)) -> complete p'.
Proof using Type.
  intros Hco Hcnt Hok Hq2 Hmono Hnew c Hpos Hq%Hq2.
  destruct (decide (c ∈ vote_to_cert_types v)) as [Hc|Hc]; [by apply holds_cert_of, Hnew|].
  destruct (is_genesis c) eqn:Eg.
  - destruct c as [| | | | |s b]; try done. destruct (decide ((s, TGenesis) = (vote_slot v, get_type v))) as [Heq|Hne].
    + destruct v as [| | | | |s' b']; try done. injection Heq as ->. exists b'. apply Hnew; [by left|].
      unfold quorum in *. simpl in *. by rewrite (voters_simple E p2 s' TGenesis (Some b') (Some b)).
    + apply (holds_cert_mono p); [done|]. apply Hco; [done|]. unfold quorum in *. simpl in *.
      destruct Hcnt as [_ HO]. by rewrite <-HO.
  - apply (holds_cert_mono p); [done|]. apply Hco; [done|]. by apply (quorum_counted E p p2 v k c Hcnt Hc Eg).
Qed.

(** The last part of [add_vote]: the vote is in its pool, the counters and the
    certificates follow. *)
Lemma pool_count_vote_ok p vps bank m k own events :
  let v := vm_vote m in let s := vote_slot v in
  pool_inv p -> vote_input m -> bank_fits E bank -> is_Some (epoch_stakes_from_slot bank s) ->
  slot_key_of E s (vm_rank m) = Some k ->
  (forall ct, ct ∈ conflicting_types (get_type v) -> k ∉ voters p s ct (vote_block_id v)) ->
  vote_pools_ok E vps -> vote_counted p (with_vote_pools p vps) v k ->
  let p1 := with_vote_pools p vps in
  exists p' new certs,
    ('(counters, events, stats) ←
       counters_add_vote (default (counters_new (slot_total E s)) (slot_stake_counters_map p1 !! s)) v
         (weight (slot_weight E s) (voters p1 s (get_type v) (vote_block_id v))) own events (pool_stats p1);
     let p := with_counters p1 (<[s := counters]> (slot_stake_counters_map p1)) in
     let p := with_stats p (incr_ingested_vote_type stats (get_type v)) in
     update_certificates p bank s (vote_block_id v) events (slot_total E s) (vote_to_cert_types v) [])
    = Some (p', events ++ new, Ok certs) /\
    pool_inv p' /\ pool_step p p' /\ vote_counted p p' v k /\
    (forall c, is_Some (completed_certificates p' !! c) ->
       is_Some (completed_certificates p !! c) \/
       (c ∈ vote_to_cert_types v /\ quorum E p' c /\ c ∈ generated_cert_types p')) /\
    (forall c, c ∈ vote_to_cert_types v -> quorum E p' c -> completed_certificates p !! c = None ->
       exists cert, cert ∈ certs /\ cert_type cert = c /\ completed_certificates p' !! c = Some cert) /\
    forall cert, cert ∈ certs -> cert_type cert ∈ vote_to_cert_types v /\
      quorum E p' (cert_type cert) /\ pool_certifies E p' (cert_type cert) (vote_block_id v) cert.
Proof using HE Hcap.
  intros v s (HV & [g HC] & Hco) Hin Hbank Hes Hkey Hconf Hok Hcnt p1.
  destruct (slot_key_of_Some E HE _ _ _ Hkey) as (_ & _ & Hk & Hw & _).
  pose proof (slot_total_pos E HE s k Hw Hk) as Hpos.
  assert (vote_pools_ok E (vote_pools p1)) as Hok1 by (unfold p1; by rewrite vote_pools_with).
  assert (conflict_free p1) as Hcf1 by (apply (conflict_free_counted E HE p p1 v k); [apply HV|apply HV|done|done]).
  destruct (counters_ok_counted E HE p p1 v k own events (pool_stats p1)) as (c' & new1 & st' & Ea & _ & Hct);
    [done|done|apply HV|done|done|by unfold p1; destruct p|].
  fold s in Ea. rewrite Ea. cbn [mbind option_bind].
  set (p2 := with_stats _ _).
  assert (vote_pools p2 = vote_pools p1 /\ completed_certificates p2 = completed_certificates p /\
    generated_cert_types p2 = generated_cert_types p /\
    highest_finalized_slot p2 = highest_finalized_slot p /\ parent_ready_tracker p2 = parent_ready_tracker p /\
    last_pruned_slot p2 = last_pruned_slot p) as (P1 & P2 & P3 & P4 & P5 & P6)
    by (unfold p2, p1; by destruct p).
  assert (vote_counted p p2 v k) as Hcnt2 by (by apply (vote_counted_same p p1)).
  assert (forall s t ob, voters p s t ob ⊆ voters p2 s t ob) as Hmono by (intros; by eapply vote_counted_mono).
  assert (votes_inv E U p2) as HV2.
  { apply (votes_inv_counted p p2 m k); try done; [by rewrite P1|apply Hct]. }
  assert (certs_inv E R p2 g) as HC2.
  { apply (certs_inv_stats E HE R U Hcap), (certs_inv_votes E HE R U Hcap); [done|].
    intros s' b. apply justified_mono. intros s0 t ob. etransitivity; [apply Hmono|]. unfold p2, p1. by destruct p. }
  destruct (update_certificates_ok E HE R U Hcap bank s (vote_block_id v) (vote_to_cert_types v) p2 g (events ++ new1) [])
    as (p' & g' & new & certs & Eu & HV' & HC' & HU);
    [done|done|done|done|apply Hin|done|intros c Hc; by apply vote_to_cert_types_fits|].
  pose proof HU as [U1 U2 U3 U4 U5 U6 UG U7 U8 U9].
  assert (forall s t ob, voters p' s t ob = voters p2 s t ob) as Hvs by (intros; unfold voters; by rewrite U1).
  pose proof (fun c => up_mono E p2 p' _ _ _ c HU) as Hkeep. pose proof (fun c => up_stored E p2 p' _ _ _ c HU) as Hst.
  rewrite P2, P3 in *. exists p', (new1 ++ new), certs. rewrite app_assoc. split; [done|].
  assert (forall c, quorum E p' c -> quorum E p2 c) as Hq2 by (intros c; by apply (quorum_same E HE R U Hcap p')).
  split; [split; [done|split; [by exists g'|]]|split; [split|split; [|split; [|split]]]].
  - apply (complete_counted p p2 p' v k); try done. by rewrite P1.
  - intros. rewrite Hvs. apply Hmono.
  - exact Hkeep.
  - by rewrite P4 in U5.
  - by rewrite U4, P5.
  - by rewrite U3, P6.
  - done.
  - by apply (vote_counted_same p p2).
  - intros c Hc. destruct (U7 c Hc) as [|(? & ? & ?)]; [by left|right]. split; [done|].
    split; [by apply (quorum_same E HE R U Hcap p2)|done].
  - intros c Hc Hq Hn. by apply U8, Hn; [|apply Hq2].
  - intros cert Hc. destruct (U9 cert Hc) as (A1 & A2 & A3). split; [done|]. split.
    + by apply (quorum_same E HE R U Hcap p2).
    + by apply (pool_certifies_same E HE R U Hcap p' p2).
Qed.

Lemma voters_stats p st s t ob : voters (with_stats p st) s t ob = voters p s t ob.
Proof using Type. by destruct p. Qed.
Lemma completed_stats p st : completed_certificates (with_stats p st) = completed_certificates p.
Proof using Type. by destruct p. Qed.
Lemma vote_counted_stats p p' st v k : vote_counted (with_stats p st) p' v k -> vote_counted p p' v k.
Proof using Type. intros [HV HO]. split; intros; [rewrite HV|rewrite HO]; by rewrite ?voters_stats. Qed.
Lemma pool_step_from_stats p p' st : pool_step (with_stats p st) p' -> pool_step p p'.
Proof using Type. apply pool_step_trans, pool_step_stats. Qed.

(** [add_vote] never panics, keeps the invariant, and returns what
    [vote_outcome] says. *)
Lemma pool_add_vote_ok p bank my m events :
  pool_inv p -> vote_input m -> bank_fits E bank ->
  exists p' new r, pool_add_vote p bank my m events = Some (p', events ++ new, r) /\
    pool_inv p' /\ pool_step p p' /\ vote_outcome bank m p p' r.
Proof using HE Hcap.
  intros HI Hin Hbank. unfold pool_add_vote.
  pose proof (get_key_and_stakes_spec bank (vote_slot (vm_vote m)) (vm_rank m) Hbank) as Hgk.
  destruct (get_key_and_stakes _ _ _) as [[[[k st] total]|e]|]; [| |done]; cbn [mbind option_bind].
  2:{ exists p, [], (Err e). rewrite app_nil_r. split; [done|]. split; [done|]. split; [apply pool_step_refl|].
    by destruct Hgk as [[-> Hn]|[-> Hn]]. }
  destruct Hgk as (Hes & Hkey & -> & ->). set (v := vm_vote m) in *. set (s := vote_slot v) in *.
  destruct (slot_key_of_Some E HE _ _ _ Hkey) as (_ & _ & _ & Hw & _).
  assert (bool_decide (slot_weight E s k = 0) = false) as -> by (apply bool_decide_eq_false; lia).
  cbn [negb rust_assert mbind option_bind].
  set (p0 := bump_stat incoming_votes p).
  assert (pool_inv p0) as HI0 by (by apply pool_inv_stats).
  case_bool_decide as Hroot.
  { eexists _, [], _. rewrite app_nil_r. split; [done|]. split; [by apply pool_inv_stats|].
    split; [do 2 eapply pool_step_from_stats; apply pool_step_refl|]. by split. }
  destruct (has_conflicting_vote _ _ _ _ _) as [ct|] eqn:Ecf.
  { apply has_conflicting_vote_Some in Ecf as [Hct Hkc]. unfold p0, bump_stat in Hkc. rewrite voters_stats in Hkc.
    eexists _, [], _. rewrite app_nil_r. split; [done|]. split; [by apply pool_inv_stats|].
    split; [do 2 eapply pool_step_from_stats; apply pool_step_refl|]. done. }
  pose proof (has_conflicting_vote_None _ _ _ _ _ Ecf) as Hconf.
  destruct (update_vote_pool_spec E HE p0 m k) as (vps & r & Eu & Hok & Hr); [apply HI0|done|apply Hin|].
  fold v s in Eu, Hr. rewrite Eu. cbn [mbind option_bind]. destruct r as [est|].
  - destruct Hr as (Hk & Hcnt & ->).
    destruct (pool_count_vote_ok p0 vps bank m k (bool_decide (my = k)) events)
      as (p' & new & certs & E2 & HI' & Hst & Hc & Hnew & Hall & Hb); try done.
    fold v s in E2, Hall, Hb. exists p', new, (Ok certs). split; [exact E2|]. split; [done|].
    split; [by eapply pool_step_from_stats|]. fold v s. split; [fold v s; lia|]. exists k. split; [done|]. right.
    unfold p0, bump_stat in Hk, Hnew, Hall. rewrite voters_stats in Hk. rewrite completed_stats in Hnew, Hall.
    split; [done|]. split; [by eapply vote_counted_stats|]. done.
  - destruct Hr as [Hk Hsame]. eexists _, [], _. rewrite app_nil_r. split; [done|].
    split; [apply pool_inv_stats; by apply pool_inv_exist|].
    assert (forall s t ob, voters (bump_stat exist_votes (with_vote_pools p0 vps)) s t ob = voters p s t ob) as Hvs.
    { intros. unfold bump_stat at 1. rewrite voters_stats, Hsame. apply voters_stats. }
    split.
    + split; [intros; by rewrite Hvs|..]; unfold p0; destruct p; try done. apply option_slot_le_refl.
    + fold v s. split; [fold v s; lia|]. exists k. split; [done|]. left. fold v s.
      unfold p0, bump_stat in Hk. rewrite voters_stats in Hk. split; [done|]. split; [done|].
      split; [unfold p0; by destruct p|done].
Qed.

(** ** Certificates *)

(** A received certificate: checked by the verifier, so that its bitmap decodes,
    its block is in [R], and the bank knows its epoch. *)
Definition cert_input (bank : RootBank) (cert : Certificate) : Prop :=
  cert_slot (cert_type cert) + 2 <= u64_max /\ is_Some (epoch_stakes_from_slot bank (cert_slot (cert_type cert))) /\
  cert_decodes E cert /\ forall s b, to_block (cert_type cert) = Some (s, b) -> b ∈ R s.

Definition cert_outcome (bank : RootBank) (cert : Certificate) (p p' : ConsensusPool)
    (r : result AddVoteError (list Certificate)) : Prop :=
  let c := cert_type cert in
  (forall s t ob, voters p' s t ob = voters p s t ob) /\
  generated_cert_types p' = generated_cert_types p /\
  match r with
  | Err UnrootedSlot => cert_slot c < rb_slot bank /\ completed_certificates p' = completed_certificates p
  | Err _ => False
  | Ok certs => rb_slot bank <= cert_slot c /\
    match completed_certificates p !! c with
    | Some _ => certs = [] /\ completed_certificates p' = completed_certificates p
    | None => certs = [cert] /\ completed_certificates p' = <[c := cert]> (completed_certificates p)
    end
  end.

Lemma inserted_pool p p' g g' c cert :
  votes_inv E U p -> certs_inv E R p g -> complete p -> inserted E R p p' g' c cert -> pool_inv p' /\ pool_step p p'.
Proof using HE Hcap.
  intros HV HC Hco ((S1 & S2 & S3 & S4 & S5) & HC' & Hcc & Hle & Hr).
  assert (forall c, is_Some (completed_certificates p !! c) -> is_Some (completed_certificates p' !! c)) as Hm.
  { intros x Hx. rewrite Hcc, lookup_insert. case_decide; [by eauto|done]. }
  split; [split; [|split; [by exists g'|]]|split].
  - apply (votes_inv_same E HE R U Hcap p); try done. intros x Hx. apply HV. by rewrite <-S2.
  - intros x Hpos Hq. apply (holds_cert_mono p p' x Hm), Hco; [done|]. by apply (quorum_same E HE R U Hcap p').
  - intros. by rewrite (voters_same E HE R U Hcap p p').
  - done.
  - done.
  - done.
  - done.
  - by rewrite S2.
Qed.

Lemma add_certificate_ok p bank cert events :
  pool_inv p -> cert_input bank cert -> bank_fits E bank ->
  exists p' new r, add_certificate p bank cert events = Some (p', events ++ new, r) /\
    pool_inv p' /\ pool_step p p' /\ cert_outcome bank cert p p' r.
Proof using HE Hcap.
  intros HI (Hr & Hes & Hdec & HR) Hbank. unfold add_certificate.
  set (p0 := bump_stat incoming_certs p). assert (pool_inv p0) as HI0 by (by apply pool_inv_stats).
  case_bool_decide as Hroot.
  { eexists _, [], _. rewrite app_nil_r. split; [done|]. split; [by apply pool_inv_stats|].
    split; [do 2 eapply pool_step_from_stats; apply pool_step_refl|]. unfold p0. by destruct p. }
  assert (completed_certificates p0 = completed_certificates p) as Hc0 by apply completed_stats.
  case_bool_decide as Hdone; rewrite Hc0 in Hdone.
  { eexists _, [], _. rewrite app_nil_r. split; [done|]. split; [by apply pool_inv_stats|].
    split; [do 2 eapply pool_step_from_stats; apply pool_step_refl|]. unfold cert_outcome.
    split; [unfold p0; by destruct p|]. split; [unfold p0; by destruct p|]. split; [lia|].
    destruct Hdone as [x ->]. unfold p0. by destruct p. }
  destruct HI0 as (HV & [g HC] & Hco).
  destruct (insert_certificate_ok E HE R U Hcap p0 g bank (cert_type cert) cert events HV HC Hbank Hes Hr)
    as (p1 & g1 & new & Ei & Hins); [intros s b Hb; left; by apply HR|done|done|].
  destruct (inserted_pool p0 p1 g g1 _ cert HV HC Hco Hins) as [HI1 Hst1].
  rewrite Ei. cbn [mbind option_bind]. eexists _, new, _. split; [done|]. split; [by apply pool_inv_stats|].
  destruct Hins as ((S1 & S2 & S3 & S4 & S5) & _ & Hcc & _). split; [|split; [|split]].
  - eapply pool_step_from_stats. eapply pool_step_trans; [exact Hst1|apply pool_step_stats].
  - intros. rewrite voters_stats. unfold voters. rewrite S1. unfold p0. by destruct p.
  - transitivity (generated_cert_types p1); [by destruct p1|]. rewrite S2. unfold p0. by destruct p.
  - split; [lia|]. rewrite completed_stats, Hcc, Hc0. by destruct (completed_certificates p !! _) eqn:En; [destruct Hdone; eauto|].
Qed.
End add_vote.
