(* ===== verification/PoolTheorems.v ===== *)
(** * Theorems about the consensus pool

    Pruning, runs of the pool over any sequence of messages, prunings and reports,
    and the properties of every state such a run reaches. *)

From S2P Require Import Prelude.
From S2P Require Import Messages.
From S2P Require Import ParentReady.
From S2P Require Import EpochStakes.
From S2P Require Import VotePools.
From S2P Require Import StakeCounters.
From S2P Require Import CertBuilder.
From S2P Require Import Finalization.
From S2P Require Import Migration.
From S2P Require Import ConsensusPool.
From S2P Require Import PoolVotes.
From S2P Require Import PoolCerts.
From S2P Require Import PoolSafety.
From S2P Require Import PoolOps.

(** ** Pruning *)

Section prune.
Context `{BlsOps, !BlsLaws} (E : Slot -> option VersionedEpochStakes).
Context (R : Slot -> gset Z) (U : Slot -> Z -> gset Z).

(** The state [maybe_prune] leads to when it prunes. *)
Definition pruned (p : ConsensusPool) (root : Slot) : ConsensusPool :=
  mkPool (filter (fun kv => leq (root, TFinalize) kv.1) (vote_pools p))
    (filter (fun kv => root <= cert_slot kv.1) (completed_certificates p))
    (prune_certs (generated_cert_types p) root)
    (tracker_set_root (parent_ready_tracker p) root) (highest_finalized_slot_cert p) (pool_stats p)
    (filter (fun kv => root <= kv.1) (slot_stake_counters_map p)) (migration_status p) root.
Lemma maybe_prune_eq p root :
  maybe_prune p root = if bool_decide (root <= last_pruned_slot p) then p else pruned p root.
Proof. unfold maybe_prune. case_bool_decide; [done|]. by destruct p. Qed.

Lemma leq_root root s t : leq (root, TFinalize) (s, t) <-> root <= s.
Proof.
  unfold leq, prod_leq, leq, Z_leq, VoteType_leq. simpl. split; [by intros []|].
  intros Hs. split; [done|]. destruct (decide (s <= root)); [right; destruct t; simpl; lia|by left].
Qed.

Lemma pruned_pool p root s t :
  vote_pools (pruned p root) !! (s, t) = if bool_decide (root <= s) then vote_pools p !! (s, t) else None.
Proof.
  simpl. case_bool_decide as Hs.
  - destruct (vote_pools p !! (s, t)) as [vp|] eqn:Ep.
    + apply map_lookup_filter_Some. split; [done|]. by apply leq_root.
    + apply map_lookup_filter_None. by left.
  - apply map_lookup_filter_None. right. intros vp _ Hl%leq_root. done.
Qed.
Lemma pruned_voters p root s t ob :
  voters (pruned p root) s t ob = if bool_decide (root <= s) then voters p s t ob else ∅.
Proof. unfold voters. rewrite pruned_pool. by case_bool_decide. Qed.
Lemma pruned_completed p root c :
  completed_certificates (pruned p root) !! c =
  if bool_decide (root <= cert_slot c) then completed_certificates p !! c else None.
Proof.
  simpl. case_bool_decide as Hs.
  - destruct (completed_certificates p !! c) as [x|] eqn:Ep.
    + by apply map_lookup_filter_Some.
    + apply map_lookup_filter_None. by left.
  - apply map_lookup_filter_None. right. intros vp _. done.
Qed.
Lemma pruned_generated p root c :
  c ∈ generated_cert_types (pruned p root) <-> root <= cert_slot c /\ c ∈ generated_cert_types p.
Proof. simpl. unfold prune_certs. by rewrite elem_of_filter. Qed.
Lemma pruned_counters p root s :
  slot_stake_counters_map (pruned p root) !! s =
  if bool_decide (root <= s) then slot_stake_counters_map p !! s else None.
Proof.
  simpl. case_bool_decide as Hs.
  - destruct (slot_stake_counters_map p !! s) as [x|] eqn:Ep.
    + by apply map_lookup_filter_Some.
    + apply map_lookup_filter_None. by left.
  - apply map_lookup_filter_None. right. intros vp _. done.
Qed.

Lemma pruned_cert_voters p root c :
  cert_voters (pruned p root) c = if bool_decide (root <= cert_slot c) then cert_voters p c else ∅.
Proof. destruct c; simpl; rewrite !pruned_voters; case_bool_decide; set_solver. Qed.
Lemma pruned_quorum p root c :
  0 < slot_total E (cert_slot c) -> quorum E (pruned p root) c <-> root <= cert_slot c /\ quorum E p c.
Proof.
  intros Hpos. unfold quorum. rewrite pruned_cert_voters. pose proof (cert_pct_bound c).
  case_bool_decide; [by split; [|intros [_ Hq]]|]. rewrite weight_empty. split; [nia|]. by intros [? _].
Qed.

Lemma pruned_votes_inv p root : votes_inv E U p -> votes_inv E U (pruned p root).
Proof.
  intros [V1 V2 V3 V4 V5]. split.
  - intros s t vp. rewrite pruned_pool. case_bool_decide; [apply V1|done].
  - destruct V2 as [C1 C2 C3 C4 C5 C6]. split; intros; rewrite !pruned_voters; case_bool_decide; auto; set_solver.
  - intros s. rewrite pruned_counters, !pruned_voters. specialize (V3 s). case_bool_decide as Hs; [|done].
    destruct (slot_stake_counters_map p !! s); [|done].
    eapply (counters_link_same E p); [..|exact V3]; intros; rewrite pruned_voters; by rewrite bool_decide_true.
  - intros s b. rewrite !pruned_voters. specialize (V4 s b). case_bool_decide; [done|]. set_solver.
  - intros c [Hs Hc]%pruned_generated. destruct (V5 c Hc) as [Hpos Hq]. split; [done|]. by apply pruned_quorum.
Qed.

Lemma pruned_certs_inv p g root :
  certs_inv E R p g -> prt_root (parent_ready_tracker p) <= root -> certs_inv E R (pruned p root) g.
Proof.
  intros [C1 C2 C3 C4 C5 C6 C7 C8] Hr. split; try done.
  - intros c [Hs Hc]%pruned_generated. rewrite pruned_completed. rewrite bool_decide_true by done. auto.
  - intros c cert. rewrite pruned_completed. case_bool_decide; [apply C2|done].
  - intros s b. rewrite pruned_completed. case_bool_decide; [apply C3|by intros []].
  - by apply set_root_refines.
  - intros b Hb Hs. simpl in Hs. destruct (C6 b Hb) as [?|[Hpos Hq]]; [lia|by left|right].
    split; [done|]. apply pruned_quorum; [done|]. split; [simpl; lia|done].
Qed.

Lemma pruned_complete p root : complete E p -> complete E (pruned p root).
Proof.
  intros Hco c Hpos [Hs Hq]%pruned_quorum; [|done]. specialize (Hco c Hpos Hq).
  assert (forall x, cert_slot x = cert_slot c -> is_Some (completed_certificates p !! x) ->
    is_Some (completed_certificates (pruned p root) !! x)) as Hk
    by (intros x Hx; rewrite pruned_completed, bool_decide_true by lia; done).
  destruct c; simpl in *; try (by apply Hk). destruct Hco as [b' Hco]. exists b'. by apply Hk.
Qed.

Lemma maybe_prune_ok p root :
  pool_inv E R U p -> prt_root (parent_ready_tracker p) <= root ->
  pool_inv E R U (maybe_prune p root) /\ prt_root (parent_ready_tracker (maybe_prune p root)) <= root /\
  highest_finalized_slot (maybe_prune p root) = highest_finalized_slot p.
Proof.
  intros (HV & [g HC] & Hco) Hr. rewrite maybe_prune_eq. case_bool_decide.
  - split; [|done]. split; [done|]. split; [by exists g|done].
  - split; [|split; [simpl; lia|done]]. split; [by apply pruned_votes_inv|].
    split; [exists g; by apply pruned_certs_inv|by apply pruned_complete].
Qed.
End prune.

(** ** Runs *)

(** What the consensus pool service does with its pool: add a message, prune to the
    root, report the statistics. *)
Inductive pool_op :=
  | OpMessage (root_bank : RootBank) (my_vote_pubkey : Pubkey) (message : ConsensusMessage)
  | OpPrune (root_slot : Slot)
  | OpReport (now : Z).

Section run.
Context `{BlsOps}.

Definition pool_apply (p : ConsensusPool) (op : pool_op) (events : list VotorEvent)
    : option (ConsensusPool * list VotorEvent) :=
  match op with
  | OpMessage bank my m => '(p, events, _) ← add_message p bank my m events; Some (p, events)
  | OpPrune root => Some (maybe_prune p root, events)
  | OpReport now => Some (maybe_report p now, events)
  end.
Fixpoint pool_run (p : ConsensusPool) (ops : list pool_op) (events : list VotorEvent)
    : option (ConsensusPool * list VotorEvent) :=
  match ops with
  | [] => Some (p, events)
  | op :: ops => '(p, events) ← pool_apply p op events; pool_run p ops events
  end.

Lemma pool_run_app ops ops' : forall p events,
  pool_run p (ops ++ ops') events = ('(p, events) ← pool_run p ops events; pool_run p ops' events).
Proof.
  induction ops as [|op ops IH]; intros p events; [done|]. cbn [pool_run app].
  destruct (pool_apply p op events) as [[p1 ev1]|]; [|done]. cbn [mbind option_bind]. apply IH.
Qed.

Context `{!BlsLaws} (E : Slot -> option VersionedEpochStakes).
Context (R : Slot -> gset Z) (U : Slot -> Z -> gset Z).

(** The messages have passed signature and certificate verification, banks agree
    with [E], and roots only advance. *)
Definition message_input (bank : RootBank) (m : ConsensusMessage) : Prop :=
  match m with
  | MVote m => vote_input E R U m
  | MCertificate c => cert_input E R bank c
  end.
Fixpoint run_inputs (root : Slot) (ops : list pool_op) : Prop :=
  match ops with
  | [] => True
  | OpMessage bank _ m :: ops => bank_fits E bank /\ message_input bank m /\ run_inputs root ops
  | OpPrune r :: ops => root <= r /\ run_inputs r ops
  | OpReport _ :: ops => run_inputs root ops
  end.

(** The last root pruned to. *)
Fixpoint run_root (root : Slot) (ops : list pool_op) : Slot :=
  match ops with
  | [] => root
  | OpPrune r :: ops => run_root r ops
  | _ :: ops => run_root root ops
  end.
Lemma run_inputs_app ops ops' : forall root,
  run_inputs root (ops ++ ops') -> run_inputs root ops /\ run_inputs (run_root root ops) ops'.
Proof. induction ops as [|[]]; simpl; naive_solver. Qed.

(** The tracker has room for one block certified by others. *)
Lemma capacity_small : (forall s, size (R s) <= 1)%nat -> capacity_ok E R U.
Proof.
  intros HR s X HX _. rewrite size_union_alt. specialize (HR s).
  assert (size (X ∖ R s) <= size X)%nat by (apply subseteq_size; intros b [Hb _]%elem_of_difference; done).
  unfold MAX_NOTAR_FALLBACK_BLOCKS. lia.
Qed.

(** Why the tracker has room: less than a fifth of the stake is faulty.  [G s] are the
    validators of the slot's epoch that keep to the protocol, which has each of them
    vote for at most as many blocks of a slot as the pools take from one validator:
    one notarize vote and three fallback votes.  A block certified by others has the
    votes of 60% of the stake. *)
Record fault_bound (G : Slot -> gset Z) : Prop := {
  fb_ranked s b : U s b ⊆ slot_keys E s;
  fb_received s b : b ∈ R s -> certifiable E U s b;
  fb_faulty s : 0 < slot_total E s ->
    100 * weight (slot_weight E s) (slot_keys E s ∖ G s) < 20 * slot_total E s;
  fb_good s k bs : k ∈ G s -> NoDup bs -> (forall b, b ∈ bs -> k ∈ U s b) ->
    (length bs <= MAX_ENTRIES_PER_PUBKEY_FOR_OTHER_TYPES + MAX_ENTRIES_PER_PUBKEY_FOR_NOTARIZE_LITE)%nat;
}.

(** Counting the votes for certified blocks: each block has 60% of the stake, a good
    validator is counted four times, a faulty one once per block. *)
Lemma certifiable_blocks (HE : stakes_ok E) G s bs :
  fault_bound G -> NoDup bs -> (forall b, b ∈ bs -> certifiable E U s b) ->
  (length bs <= MAX_NOTAR_FALLBACK_BLOCKS)%nat.
Proof.
  intros [F1 F2 F3 F4] Hnd Hbs. destruct bs as [|b0 bs0] eqn:Hcase; [unfold MAX_NOTAR_FALLBACK_BLOCKS; simpl; lia|].
  destruct (Hbs b0 ltac:(by left)) as [Hpos _]. rewrite <-Hcase in *. clear Hcase b0 bs0.
  set (w := slot_weight E s). set (K := slot_keys E s).
  pose proof (slot_weight_nonneg E HE s) as Hw.
  pose proof (weight_double_count w (fun b => U s b ∩ G s) (K ∩ G s) 4 bs Hw
    ltac:(intros b _; specialize (F1 s b); set_solver)) as Hgood.
  pose proof (weight_double_count w (fun b => U s b ∖ G s) (K ∖ G s) (length bs) bs Hw
    ltac:(intros b _; specialize (F1 s b); set_solver) ltac:(intros k _; apply length_filter)) as Hbad.
  assert (forall X, weight w X = weight w (X ∩ G s) + weight w (X ∖ G s)) as Hsplit.
  { intros X. rewrite <-weight_union by (clear; set_solver). f_equal. apply set_eq. intros k. clear.
    destruct (decide (k ∈ G s)); set_solver. }
  assert (Z.of_nat (length bs) * (60 * slot_total E s) <=
    100 * (sumZ ((fun b => weight w (U s b ∩ G s)) <$> bs) + sumZ ((fun b => weight w (U s b ∖ G s)) <$> bs))) as Hsum.
  { clear Hgood Hbad Hnd. induction bs as [|b l IH]; [done|]. csimpl. destruct (Hbs b ltac:(by left)) as [_ Hb].
    fold w in Hb. rewrite (Hsplit (U s b)) in Hb. specialize (IH ltac:(intros; apply Hbs; by right)).
    unfold sumZ in *. simpl in *. lia. }
  assert (sumZ ((fun b => weight w (U s b ∩ G s)) <$> bs) <= 4 * weight w (K ∩ G s)) as Hg.
  { apply Hgood. intros k [_ Hk]%elem_of_intersection. apply (F4 s k); [done|by apply NoDup_filter|].
    intros b [Hb _]%list_elem_of_filter. set_solver. }
  pose proof (F3 s Hpos) as Hf. fold w K in Hf.
  pose proof (slot_weight_total E HE s K ltac:(done)) as Htot. fold w in Htot. rewrite (Hsplit K) in Htot.
  unfold MAX_NOTAR_FALLBACK_BLOCKS. clear -Hsum Hg Hbad Hf Htot Hpos. nia.
Qed.
Lemma fault_capacity (HE : stakes_ok E) G : fault_bound G -> capacity_ok E R U.
Proof.
  intros HF s X _ HX. unfold size, set_size. simpl. apply (certifiable_blocks HE G s); [done|apply NoDup_elements|].
  intros b [Hb|Hb]%elem_of_elements%elem_of_union; [by apply HF|by apply HX].
Qed.

(** A pool created from a root bank and run on [ops]. *)
Record pool_setting (bank0 : RootBank) (ops : list pool_op) : Prop := {
  set_stakes : stakes_ok E;
  set_capacity : capacity_ok E R U;
  set_root : 0 <= rb_slot bank0 /\ rb_slot bank0 + 1 <= u64_max;
  set_inputs : run_inputs (rb_slot bank0) ops;
}.

(** The same with the bound on the faults in the place of the capacity. *)
Record fault_setting (G : Slot -> gset Z) (bank0 : RootBank) (ops : list pool_op) : Prop := {
  fs_stakes : stakes_ok E;
  fs_faults : fault_bound G;
  fs_root : 0 <= rb_slot bank0 /\ rb_slot bank0 + 1 <= u64_max;
  fs_inputs : run_inputs (rb_slot bank0) ops;
}.
Lemma fault_setting_pool G bank0 ops : fault_setting G bank0 ops -> pool_setting bank0 ops.
Proof. intros [? HF ? ?]. split; try done. by eapply fault_capacity. Qed.

Lemma add_message_ok p bank my m events :
  stakes_ok E -> capacity_ok E R U -> pool_inv E R U p -> message_input bank m -> bank_fits E bank ->
  exists p' new r, add_message p bank my m events = Some (p', events ++ new, r) /\
    pool_inv E R U p' /\ pool_step p p'.
Proof.
  intros HE Hcap HI Hin Hbank. unfold add_message.
  assert (exists p' new r, match m with
      | MVote m => pool_add_vote p bank my m events
      | MCertificate c => add_certificate p bank c events
      end = Some (p', events ++ new, r) /\ pool_inv E R U p' /\ pool_step p p') as (p' & new & r & -> & HI' & Hst).
  { destruct m as [m|c].
    - destruct (pool_add_vote_ok E HE R U Hcap p bank my m events) as (p' & new & r & ? & ? & ? & _); try done. by eauto 6.
    - destruct (add_certificate_ok E HE R U Hcap p bank c events) as (p' & new & r & ? & ? & ? & _); try done. by eauto 6. }
  cbn [mbind option_bind]. destruct r; eauto 8.
Qed.

Lemma pool_run_ok (HE : stakes_ok E) (Hcap : capacity_ok E R U) ops : forall p root events,
  pool_inv E R U p -> prt_root (parent_ready_tracker p) <= root -> run_inputs root ops ->
  exists p' new, pool_run p ops events = Some (p', events ++ new) /\ pool_inv E R U p' /\
    option_slot_le (highest_finalized_slot p) (highest_finalized_slot p') /\
    prt_root (parent_ready_tracker p') <= run_root root ops.
Proof.
  induction ops as [|op ops IH]; intros p root events HI Hr Hin; cbn [pool_run].
  { exists p, []. rewrite app_nil_r. split; [done|]. split; [done|]. split; [apply option_slot_le_refl|done]. }
  destruct op as [bank my m|r|now]; cbn [run_inputs pool_apply] in *.
  - destruct Hin as (Hbank & Hm & Hin).
    destruct (add_message_ok p bank my m events) as (p1 & new1 & r & -> & HI1 & [_ _ Hh Hrt _]); try done.
    cbn [mbind option_bind]. destruct (IH p1 root (events ++ new1)) as (p' & new & -> & HI' & Hh' & Hr'); [done|by rewrite Hrt|done|].
    exists p', (new1 ++ new). rewrite app_assoc. split; [done|]. split; [done|]. split; [by eapply option_slot_le_trans|done].
  - destruct Hin as [Hle Hin]. destruct (maybe_prune_ok E R U p r HI ltac:(lia)) as (HI1 & Hr1 & Hh). cbn [mbind option_bind].
    destruct (IH (maybe_prune p r) r events) as (p' & new & -> & HI' & Hh' & Hr'); [done|done|done|]. exists p', new. by rewrite <-Hh.
  - cbn [mbind option_bind]. destruct (IH (maybe_report p now) root events) as (p' & new & -> & HI' & Hh' & Hr');
      [by apply pool_inv_stats|by destruct p|done|]. exists p', new. split; [done|]. split; [done|]. by destruct p.
Qed.

(** The certificates that came in with the messages of a run, and where those of a
    pool come from. *)
Definition received (ops : list pool_op) : list CertificateType :=
  omap (fun op => match op with OpMessage _ _ (MCertificate cert) => Some (cert_type cert) | _ => None end) ops.
Definition from_votes_or (L : list CertificateType) (p : ConsensusPool) : Prop :=
  forall c, is_Some (completed_certificates p !! c) -> c ∈ generated_cert_types p \/ c ∈ L.

Lemma pool_apply_origin (HE : stakes_ok E) (Hcap : capacity_ok E R U) L p op events p' events' root :
  pool_inv E R U p -> run_inputs root [op] -> pool_apply p op events = Some (p', events') ->
  from_votes_or L p -> from_votes_or (L ++ received [op]) p'.
Proof.
  intros HI Hin Ha HL. destruct op as [bank my m|r|now]; simpl in Hin, Ha.
  - destruct Hin as (Hbank & Hm & _). unfold add_message in Ha. destruct m as [m|cert].
    + destruct (pool_add_vote_ok E HE R U Hcap p bank my m events HI Hm Hbank) as (p1 & new & r & Er & _ & Hst & Ho).
      rewrite Er in Ha. cbn [mbind option_bind] in Ha. assert (p1 = p') as -> by (by destruct r; simplify_eq/=).
      intros c Hc. assert (is_Some (completed_certificates p !! c) \/ c ∈ generated_cert_types p') as [Hold|Hg].
      { destruct r as [certs|e].
        2:{ left. destruct e; cbn [vote_outcome] in Ho; try done; destruct_and!; subst p';
            unfold bump_stat in Hc; by rewrite ?completed_stats in Hc. }
        destruct Ho as (_ & k & _ & [(_ & _ & Hsame & _)|(_ & _ & Hnew & _)]); [left; by rewrite <-Hsame|].
        destruct (Hnew c Hc) as [|(_ & _ & ?)]; auto. }
      * destruct (HL c Hold) as [Hg|Hl]; [left; by apply (ps_generated _ _ Hst)|right; set_solver].
      * by left.
    + destruct (add_certificate_ok E HE R U Hcap p bank cert events HI Hm Hbank) as (p1 & new & r & Er & _ & _ & _ & Hg & Ho).
      rewrite Er in Ha. cbn [mbind option_bind] in Ha. assert (p1 = p') as -> by (by destruct r; simplify_eq/=).
      intros c Hc. rewrite Hg. simpl.
      assert (is_Some (completed_certificates p !! c) \/ c = cert_type cert) as [Hold| ->]; [|destruct (HL c Hold); set_solver|set_solver].
      destruct r as [certs|[]]; try done; [destruct Ho as [_ Ho]|left; destruct Ho as [_ Ho]; by rewrite <-Ho].
      destruct (completed_certificates p !! cert_type cert); destruct Ho as [_ Ho]; rewrite Ho in Hc; [by left|].
      rewrite lookup_insert in Hc. case_decide; [by right|by left].
  - injection Ha as <- _. rewrite app_nil_r. rewrite maybe_prune_eq. case_bool_decide; [done|].
    intros c. rewrite pruned_completed, pruned_generated. case_bool_decide; [|by intros []]. intros Hc.
    destruct (HL c Hc); [by left|by right].
  - injection Ha as <- _. rewrite app_nil_r. by destruct p.
Qed.
Lemma pool_run_origin (HE : stakes_ok E) (Hcap : capacity_ok E R U) ops : forall L p root events p' events',
  pool_inv E R U p -> prt_root (parent_ready_tracker p) <= root -> run_inputs root ops ->
  pool_run p ops events = Some (p', events') -> from_votes_or L p -> from_votes_or (L ++ received ops) p'.
Proof.
  induction ops as [|op ops IH]; intros L p root events p' events' HI Hr Hin Hrun HL.
  { simpl in Hrun. injection Hrun as <- _. by rewrite app_nil_r. }
  destruct (run_inputs_app [op] ops root Hin) as [Hin1 Hin2].
  destruct (pool_run_ok HE Hcap [op] p root events HI Hr Hin1) as (p1 & new & Hrun1 & HI1 & _ & Hr1).
  change (op :: ops) with ([op] ++ ops) in Hrun |- *. rewrite pool_run_app, Hrun1 in Hrun. cbn [mbind option_bind] in Hrun.
  unfold received. rewrite omap_app, app_assoc. fold (received [op]) (received ops).
  apply (IH _ p1 _ _ _ _ HI1 Hr1 Hin2 Hrun). simpl in Hrun1.
  destruct (pool_apply p op events) as [[p2 ev2]|] eqn:Ha; [|done]. simpl in Hrun1. injection Hrun1 as <- _.
  by apply (pool_apply_origin HE Hcap L p op events p2 ev2 root).
Qed.

Lemma new_pool_inv bank now :
  0 <= rb_slot bank -> rb_slot bank + 1 <= u64_max -> pool_inv E R U (new_from_root_bank bank ∅ now).
Proof.
  intros H1 H2. assert (forall s t ob, voters (new_from_root_bank bank ∅ now) s t ob = ∅) as Hv.
  { intros. unfold voters. simpl. by rewrite lookup_empty. }
  assert (forall c, cert_voters (new_from_root_bank bank ∅ now) c = ∅) as Hcv.
  { intros c. destruct c; simpl; rewrite !Hv; set_solver. }
  split; [split|split].
  - intros s t vp. simpl. by rewrite lookup_empty.
  - split; intros; rewrite !Hv; set_solver.
  - intros s. simpl. rewrite lookup_empty. done.
  - intros s b. rewrite !Hv. set_solver.
  - intros c Hc. by apply elem_of_empty in Hc.
  - exists (mkCerts {[(rb_slot bank, default 0 (rb_block_id bank))]} ∅). split; try done; simpl.
    + intros s b. rewrite lookup_empty. by intros [].
    + by apply tracker_new_refines.
    + intros b ->%elem_of_singleton. simpl. lia.
    + intros s. transitivity (size ({[(rb_slot bank, default 0 (rb_block_id bank))]} : gset Block)).
      * apply subseteq_size. unfold blocks_in_slot. simpl. intros b [_ Hb]%elem_of_filter. done.
      * rewrite size_singleton. vm_compute. lia.
  - intros c Hpos. unfold quorum. rewrite Hcv, weight_empty. pose proof (cert_pct_bound c). nia.
Qed.

Lemma setting_reaches bank0 ops now :
  pool_setting bank0 ops ->
  exists p events, pool_run (new_from_root_bank bank0 ∅ now) ops [] = Some (p, events) /\ pool_inv E R U p.
Proof.
  intros [HE Hcap [H1 H2] Hin]. destruct (pool_run_ok HE Hcap ops (new_from_root_bank bank0 ∅ now) (rb_slot bank0) [])
    as (p & new & Hrun & HI & _); [by apply new_pool_inv|simpl; lia|done|]. eauto.
Qed.
Lemma setting_inv bank0 ops now p events :
  pool_setting bank0 ops -> pool_run (new_from_root_bank bank0 ∅ now) ops [] = Some (p, events) ->
  stakes_ok E /\ pool_inv E R U p.
Proof.
  intros Hset Hrun. destruct (setting_reaches bank0 ops now Hset) as (p' & ev & Hrun' & HI).
  assert (p' = p) as -> by congruence. split; [apply Hset|done].
Qed.
End run.

(** ** A concrete pool

    Three validators with stakes 45, 30 and 25, and the additive signatures of
    [CertBuilder].  The run notarizes and finalizes block 7 of slot 5, skips slot
    6, refuses a conflicting vote and prunes. *)
Module Example3.
#[export] Existing Instance additive_bls.
#[export] Existing Instance additive_bls_laws.

Definition accounts : VoteAccounts :=
  (fun '(k, st) => (k, (st, mkVoteAccount k (Some (k + 100)) (fun _ => None)))) <$> [(1, 45); (2, 30); (3, 25)].
Definition stakes : VersionedEpochStakes := epoch_stakes_new Some Some accounts 0.
Definition E (_ : Slot) : option VersionedEpochStakes := Some stakes.
Definition R (_ : Slot) : gset Z := {[9]}.
Definition U (_ : Slot) (b : Z) : gset Z := if bool_decide (7 <= b <= 9) then {[1; 2; 3]} else ∅.
Definition G (_ : Slot) : gset Z := {[1; 2; 3]}.
Definition bank : RootBank := mkRootBank 3 (Some 1) (fun _ => 0) {[0 := stakes]}.

Definition vote (v : Vote) (rank : Z) : pool_op := OpMessage bank 1 (MVote (mkVoteMessage v (10 + rank) rank)).
Definition ops : list pool_op :=
  [vote (Notarize 5 7) 0; vote (Notarize 5 7) 1; vote (Finalize 5) 0; OpReport 4; vote (Finalize 5) 1;
   vote (Skip 6) 0; vote (SkipFallback 6) 1; vote (NotarizeFallback 6 8) 2; vote (Notarize 6 8) 0;
   OpMessage bank 1 (MCertificate (mkCertificate (CNotarizeFallback 7 9) 0 [0; 1])); OpPrune 4].

Lemma stakes_ok_E : stakes_ok E.
Proof.
  intros s es [= <-]. split; [split|split].
  - vm_compute. repeat constructor.
  - apply (bool_decide_unpack _). by vm_compute.
  - by vm_compute.
  - by vm_compute.
  - apply (bool_decide_unpack _). by vm_compute.
  - by vm_compute.
Qed.
Lemma keys_E s : slot_keys E s = {[1; 2; 3]}.
Proof. apply (bool_decide_unpack _). by vm_compute. Qed.
Lemma faults_E : fault_bound E R U G.
Proof.
  split.
  - intros s b. rewrite keys_E. unfold U. case_bool_decide; set_solver.
  - intros s b Hb. unfold R in Hb. apply elem_of_singleton in Hb as ->. split; by vm_compute.
  - intros s _. rewrite keys_E. unfold G. rewrite difference_diag_L, weight_empty. by vm_compute.
  - intros s k bs _ Hnd Hbs. transitivity (length [7; 8; 9]); [|unfold MAX_ENTRIES_PER_PUBKEY_FOR_NOTARIZE_LITE; simpl; lia].
    apply submseteq_length, NoDup_submseteq; [done|]. intros b Hb. specialize (Hbs b Hb). unfold U in Hbs.
    case_bool_decide; [|set_solver]. assert (b = 7 \/ b = 8 \/ b = 9) as [->|[-> | ->]] by lia; set_solver.
Qed.
Lemma capacity_R : capacity_ok E R U.
Proof. exact (fault_capacity E R U stakes_ok_E G faults_E). Qed.
Lemma bank_fits_E : bank_fits E bank.
Proof. intros s es. unfold epoch_stakes_from_slot. simpl. by rewrite lookup_singleton_eq. Qed.

Lemma setting : pool_setting E R U bank ops.
Proof.
  split; [apply stakes_ok_E|apply capacity_R|by vm_compute|].
  assert (forall v rank rest root, vote_slot v + 2 <= u64_max ->
    match v with
    | Notarize s b | NotarizeFallback s b => 0 <= rank < 3 /\ 7 <= b <= 9
    | Genesis s b => b = 9
    | _ => True end -> run_inputs E R U root rest -> run_inputs E R U root (vote v rank :: rest)) as Hv.
  { intros v rank rest root Hs Hv Hrest. cbn [run_inputs vote]. split; [apply bank_fits_E|]. split; [|done].
    split; [done|]. split; [done|]. simpl. destruct v; try done; try (by subst; unfold R; apply elem_of_singleton).
    all: intros k Hk; unfold U; rewrite bool_decide_true by lia.
    all: assert (rank = 0 \/ rank = 1 \/ rank = 2) as [->|[-> | ->]] by lia; vm_compute in Hk; injection Hk as <-; set_solver. }
  unfold ops. repeat (apply Hv; [by vm_compute|simpl; lia || done|]); cbn [run_inputs].
  repeat (apply Hv; [by vm_compute|simpl; lia || done|]).
  cbn [run_inputs]. split; [apply bank_fits_E|]. split; [|done].
  split; [by vm_compute|]. split; [eexists; by vm_compute|]. split; [done|]. intros s b [= <- <-]. unfold R. by apply elem_of_singleton.
Qed.

Lemma fault_setting_E : fault_setting E R U G bank ops.
Proof. split; [apply stakes_ok_E|apply faults_E|apply setting..]. Qed.

Definition result : ConsensusPool * list VotorEvent :=
  default (new_from_root_bank bank ∅ 0, []) (pool_run (new_from_root_bank bank ∅ 0) ops []).
Definition final : ConsensusPool := result.1.
Definition events : list VotorEvent := result.2.
Lemma run_final : pool_run (new_from_root_bank bank ∅ 0) ops [] = Some (final, events).
Proof.
  assert (is_Some (pool_run (new_from_root_bank bank ∅ 0) ops [])) as [[p ev] Hr]
    by (apply (bool_decide_unpack _); vm_compute; exact I).
  unfold final, events, result. rewrite Hr. reflexivity.
Qed.
Example final_certs :
  (elements (generated_cert_types final), fst <$> btree_iter (completed_certificates final), events) =
  ([CFinalize 5; CNotarizeFallback 5 7; CSkip 6; CNotarize 5 7],
   [CFinalize 5; CNotarize 5 7; CNotarizeFallback 5 7; CNotarizeFallback 7 9; CSkip 6],
   [EBlockNotarized (5, 7); EBlockNotarFallback (5, 7); EFinalized (5, 7) false;
    EBlockNotarFallback (7, 9); EParentReady 8 (7, 9)]).
Proof. by vm_compute. Qed.
End Example3.

#[local] Existing Instance additive_bls.
#[local] Existing Instance additive_bls_laws.

(** ** Properties *)

(** C8: The pool never panics.  Let less than a fifth of the stake be faulty, and
    every other validator vote for at most four blocks of a slot; let the pool be
    created from a root bank after the migration and given any sequence of verified
    messages, prunings to advancing roots and reports.  Then every [unwrap] and
    [expect] on the way is fine and every assertion holds, the one on
    [MAX_NOTAR_FALLBACK_BLOCKS] included: the certificates a slot can have, received
    or generated, are for at most seven blocks.  Genesis votes and certificates are
    taken to be for blocks with 60% of the stake behind them: the pool adds up genesis
    votes without looking at the block, so that others could be certified too. *)
Theorem pool_run_total `{BlsOps, !BlsLaws} E R U G bank0 ops now (Hset : fault_setting E R U G bank0 ops) :
  exists p events, pool_run (new_from_root_bank bank0 ∅ now) ops [] = Some (p, events).
Proof.
  destruct (setting_reaches E R U bank0 ops now (fault_setting_pool E R U G bank0 ops Hset)) as (p & events & Hrun & _).
  by exists p, events.
Qed.
Lemma pool_run_total_witness :
  exists p events, pool_run (new_from_root_bank Example3.bank ∅ 0) Example3.ops [] = Some (p, events).
Proof. exact (pool_run_total _ _ _ _ _ _ 0 Example3.fault_setting_E). Defined.


(** C10: A pool has a certificate exactly when it should.  Every certificate type it
    generated has its stake in the pool and is stored.  Every type whose votes reach
    the threshold of [limits_and_vote_types] is stored; of the genesis types of a slot,
    whose votes are added up over the blocks, one is.  And whatever is stored was
    generated or was received in a message. *)
Theorem pool_certifies_at_quorum `{BlsOps, !BlsLaws} E R U bank0 ops now p events
    (Hset : pool_setting E R U bank0 ops)
    (Hrun : pool_run (new_from_root_bank bank0 ∅ now) ops [] = Some (p, events)) :
  (forall c, c ∈ generated_cert_types p ->
     0 < slot_total E (cert_slot c) /\ quorum E p c /\ is_Some (completed_certificates p !! c)) /\
  (forall c, 0 < slot_total E (cert_slot c) -> quorum E p c -> holds_cert p c) /\
  (forall c, is_Some (completed_certificates p !! c) -> c ∈ generated_cert_types p \/ c ∈ received ops).
Proof.
  destruct (setting_inv E R U bank0 ops now p events Hset Hrun) as [HE (HV & [g HC] & Hco)]. split; [|split; [done|]].
  - intros c Hc. destruct (vi_generated E U p HV c Hc). split; [done|]. split; [done|]. by apply HC.
  - destruct Hset as [_ Hcap [H1 H2] Hin].
    apply (pool_run_origin E R U HE Hcap ops [] (new_from_root_bank bank0 ∅ now) (rb_slot bank0) [] p events); [by apply new_pool_inv|simpl; lia|done|done|].
    by intros c [].
Qed.
Lemma pool_certifies_at_quorum_witness :
  is_Some (completed_certificates Example3.final !! CSkip 6).
Proof.
  apply (proj1 (proj2 (pool_certifies_at_quorum _ _ _ _ _ 0 _ _ Example3.setting Example3.run_final)) (CSkip 6)); by vm_compute.
Defined.

(** Inclusion and exclusion for weights. *)
Lemma weight_inter w (X Y : gset Z) :
  weight w X + weight w Y = weight w (X ∪ Y) + weight w (X ∩ Y).
Proof.
  assert (Y = (X ∩ Y) ∪ (Y ∖ X)) as HY.
  { apply set_eq. intros k. destruct (decide (k ∈ X)); set_solver. }
  assert (X ∪ Y = X ∪ (Y ∖ X)) as ->.
  { apply set_eq. intros k. destruct (decide (k ∈ X)); set_solver. }
  rewrite (weight_union w X) by set_solver. rewrite HY at 1. rewrite weight_union by set_solver. lia.
Qed.

(** Accountable safety between nodes: if two pools, of different nodes with
    different inputs but the same stakes, generate certificates of one slot, then
    validators with the overlap of the two thresholds voted for both.  Two nodes
    that notarize different blocks, or where one finalizes and the other skips,
    have 20% of the stake on both sides; a fast finalization has 40%. *)
Theorem quorums_overlap_across_pools `{BlsOps, !BlsLaws} E R1 U1 bank1 ops1 now1 p1 ev1 R2 U2 bank2 ops2 now2 p2 ev2 c1 c2
    (Hset1 : pool_setting E R1 U1 bank1 ops1) (Hset2 : pool_setting E R2 U2 bank2 ops2)
    (Hrun1 : pool_run (new_from_root_bank bank1 ∅ now1) ops1 [] = Some (p1, ev1))
    (Hrun2 : pool_run (new_from_root_bank bank2 ∅ now2) ops2 [] = Some (p2, ev2))
    (Hc1 : c1 ∈ generated_cert_types p1) (Hc2 : c2 ∈ generated_cert_types p2)
    (Hslot : cert_slot c1 = cert_slot c2) :
  (cert_pct c1 + cert_pct c2 - 100) * slot_total E (cert_slot c1) <=
  100 * weight (slot_weight E (cert_slot c1)) (cert_voters p1 c1 ∩ cert_voters p2 c2).
Proof.
  destruct (setting_inv E R1 U1 bank1 ops1 now1 p1 ev1 Hset1 Hrun1) as [HE (HV1 & _ & _)].
  destruct (setting_inv E R2 U2 bank2 ops2 now2 p2 ev2 Hset2 Hrun2) as [_ (HV2 & _ & _)].
  destruct (vi_generated E U1 p1 HV1 c1 Hc1) as [_ Q1]. destruct (vi_generated E U2 p2 HV2 c2 Hc2) as [_ Q2].
  unfold quorum in Q1, Q2. rewrite <-Hslot in Q2.
  pose proof (weight_inter (slot_weight E (cert_slot c1)) (cert_voters p1 c1) (cert_voters p2 c2)) as Hie.
  pose proof (slot_weight_total E HE (cert_slot c1) (cert_voters p1 c1 ∪ cert_voters p2 c2)) as Htot.
  pose proof (cert_voters_sub E p1 c1 (vi_pools E U1 p1 HV1)) as S1.
  pose proof (cert_voters_sub E p2 c2 (vi_pools E U2 p2 HV2)) as S2. rewrite <-Hslot in S2.
  specialize (Htot (union_least _ _ _ S1 S2)). lia.
Qed.
Lemma quorums_overlap_across_pools_witness :
  20 * slot_total Example3.E 5 <=
  100 * weight (slot_weight Example3.E 5)
    (cert_voters Example3.final (CFinalize 5) ∩ cert_voters Example3.final (CNotarize 5 7)).
Proof.
  apply (quorums_overlap_across_pools _ _ _ _ _ 0 _ _ _ _ _ _ 0 _ _ (CFinalize 5) (CNotarize 5 7)
    Example3.setting Example3.setting Example3.run_final Example3.run_final); [..|done];
    apply (bool_decide_unpack _); by vm_compute.
Defined.

(** What a pool holds of each validator: no two votes that exclude each other,
    one notarized block per slot, three fallback blocks, and only ranked
    validators of the slot's epoch. *)
Theorem pool_votes_sound `{BlsOps, !BlsLaws} E R U bank0 ops now p events
    (Hset : pool_setting E R U bank0 ops)
    (Hrun : pool_run (new_from_root_bank bank0 ∅ now) ops [] = Some (p, events)) :
  conflict_free p /\
  (forall s k b b', k ∈ voters p s TNotarize (Some b) -> k ∈ voters p s TNotarize (Some b') -> b = b') /\
  (forall s k bs, NoDup bs -> (forall b, b ∈ bs -> k ∈ voters p s TNotarizeFallback (Some b)) ->
     (length bs <= MAX_ENTRIES_PER_PUBKEY_FOR_NOTARIZE_LITE)%nat) /\
  (forall s t ob, voters p s t ob ⊆ slot_keys E s).
Proof.
  destruct (setting_inv E R U bank0 ops now p events Hset Hrun) as [HE (HV & _ & _)].
  split; [apply HV|]. split; [intros s k b b'; by apply (notarize_unique E), HV|].
  split; [|intros; by apply voters_sub, HV].
  intros s k bs Hnd Hbs. destruct bs as [|b0 bs']; [simpl; lia|]. set (bs := b0 :: bs') in *.
  unfold voters in Hbs. destruct (vote_pools p !! (s, TNotarizeFallback)) as [vp|] eqn:Ep; [|set_solver].
  pose proof (vi_pools E U p HV _ _ _ Ep) as Hvp. destruct vp as [sp|dp]; [by destruct Hvp|].
  destruct Hvp as (_ & Hmax & Hd & _). change (max_entries_of _) with MAX_ENTRIES_PER_PUBKEY_FOR_NOTARIZE_LITE in Hmax.
  rewrite <-Hmax. apply (dup_blocks_bound _ _ _ dp k bs Hd Hnd). exact Hbs.
Qed.
Lemma pool_votes_sound_witness : conflict_free Example3.final.
Proof. exact (proj1 (pool_votes_sound _ _ _ _ _ 0 _ _ Example3.setting Example3.run_final)). Defined.

(** Adding a vote to a pool that any run reached: it never panics, only extends
    the pool, and returns what each branch of the code says.  Unknown epochs and
    ranks leave the pool as it was; old slots and conflicting votes only count in
    the statistics, the conflict being with a vote the pool holds; otherwise the
    validator had a vote of that type already and nothing changes, or the vote is
    counted, and the certificates returned are those of the vote's types at quorum,
    each carrying exactly the ranks of its voters. *)
Theorem add_vote_outcome `{BlsOps, !BlsLaws} E R U bank0 ops now p events bank my m
    (Hset : pool_setting E R U bank0 ops)
    (Hrun : pool_run (new_from_root_bank bank0 ∅ now) ops [] = Some (p, events))
    (Hbank : bank_fits E bank) (Hm : vote_input E R U m) :
  exists p' new r, pool_add_vote p bank my m events = Some (p', events ++ new, r) /\
    pool_step p p' /\ vote_outcome E bank m p p' r.
Proof.
  destruct (setting_inv E R U bank0 ops now p events Hset Hrun) as [HE HI].
  destruct (pool_add_vote_ok E HE R U (set_capacity _ _ _ _ _ Hset) p bank my m events HI Hm Hbank)
    as (p' & new & r & Ha & _ & Hst & Ho). by exists p', new, r.
Qed.
Lemma add_vote_outcome_witness :
  exists p' new, pool_add_vote Example3.final Example3.bank 1 (mkVoteMessage (Notarize 5 7) 0 2) Example3.events
    = Some (p', Example3.events ++ new, Ok [mkCertificate (CFinalizeFast 5 7) 21 [0; 2; 2; 2]]) /\
  pool_step Example3.final p'.
Proof.
  destruct (add_vote_outcome _ _ _ _ _ 0 _ _ Example3.bank 1 (mkVoteMessage (Notarize 5 7) 0 2)
    Example3.setting Example3.run_final Example3.bank_fits_E) as (p' & new & r & Ha & Hst & _).
  - split; [by vm_compute|]. split; [done|]. simpl. intros k Hk. vm_compute in Hk. injection Hk as <-.
    by vm_compute.
  - exists p', new. split; [|exact Hst].
    assert (snd <$> pool_add_vote Example3.final Example3.bank 1 (mkVoteMessage (Notarize 5 7) 0 2) Example3.events
      = Some (Ok [mkCertificate (CFinalizeFast 5 7) 21 [0; 2; 2; 2]])) as Hr by (vm_compute; reflexivity).
    rewrite Ha in Hr. injection Hr as ->. exact Ha.
Defined.

(** Adding a received certificate to a pool that any run reached: old ones are
    refused, known ones ignored, and a new one is stored under its type and
    returned; votes and the record of generated certificates are untouched. *)
Theorem add_certificate_outcome `{BlsOps, !BlsLaws} E R U bank0 ops now p events bank cert
    (Hset : pool_setting E R U bank0 ops)
    (Hrun : pool_run (new_from_root_bank bank0 ∅ now) ops [] = Some (p, events))
    (Hbank : bank_fits E bank) (Hc : cert_input E R bank cert) :
  exists p' new r, add_certificate p bank cert events = Some (p', events ++ new, r) /\
    pool_step p p' /\ cert_outcome bank cert p p' r.
Proof.
  destruct (setting_inv E R U bank0 ops now p events Hset Hrun) as [HE HI].
  destruct (add_certificate_ok E HE R U (set_capacity _ _ _ _ _ Hset) p bank cert events HI Hc Hbank)
    as (p' & new & r & Ha & _ & Hst & Ho). by exists p', new, r.
Qed.
Lemma add_certificate_outcome_witness :
  exists p' new, add_certificate Example3.final Example3.bank (mkCertificate (CNotarize 8 9) 0 [0; 1; 1])
    Example3.events = Some (p', Example3.events ++ new, Ok [mkCertificate (CNotarize 8 9) 0 [0; 1; 1]]).
Proof.
  destruct (add_certificate_outcome _ _ _ _ _ 0 _ _ Example3.bank (mkCertificate (CNotarize 8 9) 0 [0; 1; 1])
    Example3.setting Example3.run_final Example3.bank_fits_E) as (p' & new & r & Ha & _).
  - split; [by vm_compute|]. split; [eexists; by vm_compute|]. split; [done|]. intros s b [= <- <-].
    unfold Example3.R. by apply elem_of_singleton.
  - exists p', new.
    assert (snd <$> add_certificate Example3.final Example3.bank (mkCertificate (CNotarize 8 9) 0 [0; 1; 1])
      Example3.events = Some (Ok [mkCertificate (CNotarize 8 9) 0 [0; 1; 1]])) as Hr by (vm_compute; reflexivity).
    rewrite Ha in Hr. injection Hr as ->. exact Ha.
Defined.

(** Finalization only moves forward: more messages, prunings and reports never
    lower the highest finalized slot. *)
Theorem highest_finalized_monotone `{BlsOps, !BlsLaws} E R U bank0 ops ops' now p events p' events'
    (Hset : pool_setting E R U bank0 (ops ++ ops'))
    (Hrun : pool_run (new_from_root_bank bank0 ∅ now) ops [] = Some (p, events))
    (Hrun' : pool_run p ops' events = Some (p', events')) :
  option_slot_le (highest_finalized_slot p) (highest_finalized_slot p').
Proof.
  destruct Hset as [HE Hcap [H1 H2] Hin].
  destruct (run_inputs_app E R U ops ops' (rb_slot bank0) Hin) as [Hin1 Hin2].
  destruct (pool_run_ok E R U HE Hcap ops (new_from_root_bank bank0 ∅ now) (rb_slot bank0) [])
    as (q & new & Hq & HI & _ & Hr); [by apply new_pool_inv|simpl; lia|done|].
  rewrite Hrun in Hq. injection Hq as <- _.
  destruct (pool_run_ok E R U HE Hcap ops' p _ events HI Hr Hin2) as (q' & new' & Hq' & _ & Hle & _).
  rewrite Hrun' in Hq'. by injection Hq' as <- _.
Qed.
Lemma highest_finalized_monotone_witness :
  highest_finalized_slot Example3.final = Some 5 /\
  forall p' ev', pool_run (new_from_root_bank Example3.bank ∅ 0) (take 5 Example3.ops) [] = Some (p', ev') ->
    option_slot_le (highest_finalized_slot p') (highest_finalized_slot Example3.final).
Proof.
  split; [by vm_compute|]. intros p' ev' Hrun.
  apply (highest_finalized_monotone Example3.E Example3.R Example3.U Example3.bank
    (take 5 Example3.ops) (drop 5 Example3.ops) 0 p' ev' Example3.final Example3.events);
    [rewrite take_drop; apply Example3.setting|done|].
  pose proof Example3.run_final as Hall. rewrite <-(take_drop 5 Example3.ops), pool_run_app in Hall.
  rewrite Hrun in Hall. exact Hall.
Defined.
