(* ===== verification/PoolEvents.v ===== *)
(** * Events, standstill and pruning of the consensus pool

    The events of [add_message] against the certificates it stores, the
    certificates [get_certs_for_standstill] resends, what [maybe_prune] keeps, and
    the pooling of genesis votes. *)

From S2P Require Import Prelude.
From S2P Require Import Messages.
From S2P Require Import ParentReady.
From S2P Require Import EpochStakes.
From S2P Require Import VotePools.
From S2P Require Import StakeCounters.
From S2P Require Import CertBuilder.
From S2P Require Import Finalization.
From S2P Require Import Migration.
From S2P Require Import ConsensusPool.
From S2P Require Import PoolVotes.
From S2P Require Import PoolCerts.
From S2P Require Import PoolSafety.
From S2P Require Import PoolOps.
From S2P Require Import PoolTheorems.

#[local] Existing Instance additive_bls.
#[local] Existing Instance additive_bls_laws.

(** ** Standstill *)

Definition proves_slow (c : CertificateType) : bool :=
  match c with CFinalize _ | CNotarize _ _ => true | _ => false end.

(** A certificate is resent when it is above the highest finalized slot, or part of
    the proof that finalized it. *)
Definition resent (highest : option ValidatedBlockFinalizationCert) (c : CertificateType) : bool :=
  match highest with
  | Some f => bool_decide (finalization_slot f < cert_slot c) ||
      bool_decide (cert_slot c = finalization_slot f) &&
        (if is_fast f then is_fast_finalization c else proves_slow c)
  | None => bool_decide (0 < cert_slot c) || bool_decide (cert_slot c = 0) && proves_slow c
  end.

Lemma standstill_loop_spec h fast (keep : CertificateType -> bool) l :
  (forall kv, kv ∈ l -> standstill_keeps h fast kv.1 = Some (keep kv.1)) ->
  standstill_loop h fast l = Some (snd <$> filter (fun kv => keep kv.1 = true) l).
Proof.
  induction l as [|[c cert] l IH]; intros Hk; [done|]. cbn [standstill_loop].
  pose proof (Hk (c, cert) ltac:(by left)) as Hc. simpl in Hc. rewrite Hc. cbn [mbind option_bind].
  rewrite IH by (intros; apply Hk; by right). cbn [mbind option_bind]. rewrite filter_cons. simpl.
  by destruct (keep c).
Qed.
Lemma standstill_keeps_spec h fast c :
  (is_fast_finalization c = true -> cert_slot c = h -> fast = true) ->
  standstill_keeps h fast c = Some (bool_decide (h < cert_slot c) ||
      bool_decide (cert_slot c = h) && (if fast then is_fast_finalization c else proves_slow c)).
Proof.
  intros Hf. unfold standstill_keeps. destruct (Z.compare_spec (cert_slot c) h) as [He|Hl|Hg].
  - rewrite (bool_decide_false (h < cert_slot c)) by lia. rewrite (bool_decide_true (cert_slot c = h)) by done.
    destruct c, fast; simpl in *; try done; by specialize (Hf eq_refl He).
  - rewrite (bool_decide_false (h < cert_slot c)), (bool_decide_false (cert_slot c = h)) by lia. by destruct c.
  - rewrite (bool_decide_true (h < cert_slot c)) by lia. by destruct c.
Qed.

Lemma standstill_certs_ok `{BlsOps, !BlsLaws} E R p g :
  certs_inv E R p g ->
  get_certs_for_standstill p = Some (snd <$> filter (fun kv => resent (highest_finalized_slot_cert p) kv.1 = true)
    (btree_iter (completed_certificates p))).
Proof.
  intros HC. unfold get_certs_for_standstill.
  assert (forall c cert, completed_certificates p !! c = Some cert -> is_fast_finalization c = true ->
    exists f, highest_finalized_slot_cert p = Some f /\ cert_slot c <= finalization_slot f /\
      (cert_slot c = finalization_slot f -> is_fast f = true)) as Hfast.
  { intros c cert Hc Hff. destruct c as [s|s b|s b|s b|s|s b]; try done. apply (ci_fast E R p g HC s b). eauto. }
  destruct (highest_finalized_slot_cert p) as [f|]; apply standstill_loop_spec;
    intros [c cert] Hin; apply elem_of_btree_iter in Hin; simpl; rewrite standstill_keeps_spec; try done.
  - intros Hff He. destruct (Hfast c cert Hin Hff) as (f' & [= <-] & _ & Hf). auto.
  - intros Hff _. by destruct (Hfast c cert Hin Hff) as (f' & ? & _).
Qed.

(** On a standstill the pool resends exactly the certificates above its highest
    finalized slot and those that prove that slot final, and the [panic!] on a fast
    finalization certificate without a fast finalized slot is never reached. *)
Theorem standstill_exact `{BlsOps, !BlsLaws} E R U bank0 ops now p events
    (Hset : pool_setting E R U bank0 ops)
    (Hrun : pool_run (new_from_root_bank bank0 ∅ now) ops [] = Some (p, events)) :
  exists certs, get_certs_for_standstill p = Some certs /\
    forall cert, cert ∈ certs <->
      exists c, completed_certificates p !! c = Some cert /\ resent (highest_finalized_slot_cert p) c = true.
Proof.
  destruct (setting_inv E R U bank0 ops now p events Hset Hrun) as [_ (_ & [g HC] & _)].
  eexists. split; [by eapply standstill_certs_ok|].
  intros cert. rewrite list_elem_of_fmap. split.
  - intros ([c cert'] & -> & [Hr Hin]%list_elem_of_filter). apply elem_of_btree_iter in Hin. eauto.
  - intros (c & Hc & Hr). exists (c, cert). split; [done|]. apply list_elem_of_filter. split; [done|].
    by apply elem_of_btree_iter.
Qed.
Lemma standstill_exact_witness :
  exists certs, get_certs_for_standstill Example3.final = Some certs /\
    cert_type <$> certs = [CFinalize 5; CNotarize 5 7; CNotarizeFallback 7 9; CSkip 6].
Proof.
  destruct (standstill_exact _ _ _ _ _ 0 _ _ Example3.setting Example3.run_final) as (certs & Hc & _).
  exists certs. split; [exact Hc|].
  assert (fmap (M := list) cert_type <$> get_certs_for_standstill Example3.final
    = Some [CFinalize 5; CNotarize 5 7; CNotarizeFallback 7 9; CSkip 6]) as Hv by (vm_compute; reflexivity).
  rewrite Hc in Hv. by injection Hv.
Defined.

(** ** Pruning *)

(** Pruning to a new root forgets the votes, counters, certificates and
    generated types of the slots below it, keeps every one of the root and above
    as it was, and leaves the highest finalized slot alone; a root that is not
    above the last one changes nothing. *)
Theorem prune_exact p root :
  if bool_decide (root <= last_pruned_slot p) then maybe_prune p root = p
  else last_pruned_slot (maybe_prune p root) = root /\
    highest_finalized_slot_cert (maybe_prune p root) = highest_finalized_slot_cert p /\
    (forall s t, vote_pools (maybe_prune p root) !! (s, t) = if bool_decide (root <= s) then vote_pools p !! (s, t) else None) /\
    (forall c, completed_certificates (maybe_prune p root) !! c =
       if bool_decide (root <= cert_slot c) then completed_certificates p !! c else None) /\
    (forall c, c ∈ generated_cert_types (maybe_prune p root) <-> root <= cert_slot c /\ c ∈ generated_cert_types p) /\
    (forall s, slot_stake_counters_map (maybe_prune p root) !! s =
       if bool_decide (root <= s) then slot_stake_counters_map p !! s else None).
Proof.
  rewrite maybe_prune_eq. case_bool_decide; [done|]. split; [done|]. split; [done|].
  split; [intros; apply pruned_pool|]. split; [intros; apply pruned_completed|].
  split; [intros; apply pruned_generated|intros; apply pruned_counters].
Qed.

(** ** Genesis votes *)

(** C16: Genesis votes are added up without their block.  In any pool a run reached, a
    genesis vote for a block [b] by a validator that has no genesis or conflicting vote
    in the slot, which with the genesis votes of the slot for whatever blocks makes
    82% of the stake, gives the pool a genesis certificate for [b].  When the pool had
    none for [b], it generates one with the ranks of all those validators, and returns
    it to be sent. *)
Theorem genesis_votes_ignore_block `{BlsOps, !BlsLaws} E R U bank0 ops now p events bank my m s b k
    (Hset : pool_setting E R U bank0 ops)
    (Hrun : pool_run (new_from_root_bank bank0 ∅ now) ops [] = Some (p, events))
    (Hbank : bank_fits E bank) (Hstakes : is_Some (epoch_stakes_from_slot bank s)) (Hslot : rb_slot bank <= s)
    (Hm : vote_input E R U m) (Hv : vm_vote m = Genesis s b)
    (Hk : slot_key_of E s (vm_rank m) = Some k) (Hfirst : k ∉ voters p s TGenesis None)
    (Hconf : forall t, t ∈ conflicting_types TGenesis -> k ∉ voters p s t (Some b))
    (Hstake : 82 * slot_total E s <= 100 * weight (slot_weight E s) ({[k]} ∪ voters p s TGenesis None)) :
  exists p' new certs, pool_add_vote p bank my m events = Some (p', events ++ new, Ok certs) /\
    is_Some (completed_certificates p' !! CGenesis s b) /\
    (completed_certificates p !! CGenesis s b = None ->
       exists cert, cert ∈ certs /\ completed_certificates p' !! CGenesis s b = Some cert /\
         exists R0 R1, cert_valid (CGenesis s b) cert R0 R1 (vm_signature <$> votes_for_cert p' (CGenesis s b) (Some b)) /\
           carries E s R0 ({[k]} ∪ voters p s TGenesis None)).
Proof.
  destruct (setting_inv E R U bank0 ops now p events Hset Hrun) as [HE HI].
  destruct (pool_add_vote_ok E HE R U (set_capacity _ _ _ _ _ Hset) p bank my m events HI Hm Hbank)
    as (p' & new & r & Ha & HI' & Hst & Ho).
  unfold vote_outcome in Ho. rewrite Hv in Ho. cbn [vote_slot get_type vote_block_id vote_to_cert_types] in Ho.
  assert (forall q x, pool_inv E R U q -> voters q s TGenesis (Some x) = voters q s TGenesis None) as Hall.
  { intros q x (HV & _ & _). apply (voters_simple E q s TGenesis (Some x) None); [apply HV|done]. }
  destruct r as [certs|e].
  2:{ exfalso. destruct Hstakes as [es Hes]. destruct e; try done; destruct_and!;
      first [lia|congruence|simplify_eq; by eapply Hconf]. }
  destruct Ho as (_ & k' & Hk' & Ho). rewrite Hk in Hk'. injection Hk' as <-.
  destruct Ho as [(_ & Hin & _)|(_ & [Hcnt _] & _ & Hnew & Hcerts)]; [done|].
  cbn [vote_slot get_type] in Hcnt.
  assert (voters p' s TGenesis (Some b) = {[k]} ∪ voters p s TGenesis None) as Hvs.
  { rewrite Hcnt, (Hall p b HI). simpl. set_solver. }
  assert (quorum E p' (CGenesis s b)) as Hq by (unfold quorum; simpl; rewrite Hvs; exact Hstake).
  exists p', new, certs. split; [done|]. split.
  - destruct (completed_certificates p !! CGenesis s b) as [x|] eqn:Ex.
    + apply (ps_completed _ _ Hst). by rewrite Ex.
    + destruct (Hnew (CGenesis s b)) as (y & _ & _ & Hy); [by left|done|done|]. by rewrite Hy.
  - intros Hn. destruct (Hnew (CGenesis s b)) as (y & Hy & Hty & Hc); [by left|done|done|].
    exists y. split; [done|]. split; [done|]. destruct (Hcerts y Hy) as (_ & _ & R0 & R1 & Hval & Hr0 & _).
    rewrite Hty in *. exists R0, R1. split; [done|]. simpl in Hr0. rewrite <-Hvs. exact Hr0.
Qed.

Module GenesisExample.
Definition E := Example3.E.
(** Both blocks are let into the tracker. *)
Definition R (_ : Slot) : gset Z := {[7; 8]}.
Definition U (_ : Slot) (_ : Z) : gset Z := ∅.
Definition vote (b : Hash) (rank : Z) : VoteMessage := mkVoteMessage (Genesis 4 b) (10 + rank) rank.
Definition ops : list pool_op := (fun m => OpMessage Example3.bank 1 (MVote m)) <$> [vote 7 0; vote 7 1].

Lemma genesis_setting : pool_setting E R U Example3.bank ops.
Proof.
  split; [apply Example3.stakes_ok_E| |by vm_compute|].
  - intros s X _ HX. assert (X = ∅) as ->; [|unfold R; rewrite union_empty_r_L; vm_compute; lia].
    apply set_eq. intros b. split; [|set_solver]. intros [Hpos Hb]%HX. unfold U in Hb. rewrite weight_empty in Hb. lia.
  - assert (forall x rest, x ∈ R 4 -> run_inputs E R U 3 rest ->
      forall r, run_inputs E R U 3 (OpMessage Example3.bank 1 (MVote (vote x r)) :: rest)) as Hv
      by (intros x rest Hx Hrest r; split; [apply Example3.bank_fits_E|split; [by split|done]]).
    apply Hv; [unfold R; set_solver|]. apply Hv; [unfold R; set_solver|done].
Qed.
Definition reached : ConsensusPool * list VotorEvent :=
  default (new_from_root_bank Example3.bank ∅ 0, []) (pool_run (new_from_root_bank Example3.bank ∅ 0) ops []).
Lemma run_reached : pool_run (new_from_root_bank Example3.bank ∅ 0) ops [] = Some (reached.1, reached.2).
Proof.
  assert (is_Some (pool_run (new_from_root_bank Example3.bank ∅ 0) ops [])) as [[p ev] Hr]
    by (apply (bool_decide_unpack _); vm_compute; exact I).
  unfold reached. rewrite Hr. reflexivity.
Qed.
End GenesisExample.

(** 75% of the stake vote for block 7, and the 25% for block 8 get the certificate. *)
Lemma genesis_votes_ignore_block_witness :
  exists p' new certs, pool_add_vote GenesisExample.reached.1 Example3.bank 1 (GenesisExample.vote 8 2) GenesisExample.reached.2
      = Some (p', GenesisExample.reached.2 ++ new, Ok certs) /\
    is_Some (completed_certificates p' !! CGenesis 4 8).
Proof.
  destruct (genesis_votes_ignore_block GenesisExample.E GenesisExample.R GenesisExample.U Example3.bank GenesisExample.ops 0
    GenesisExample.reached.1 GenesisExample.reached.2 Example3.bank 1 (GenesisExample.vote 8 2) 4 8 3
    GenesisExample.genesis_setting GenesisExample.run_reached Example3.bank_fits_E) as (p' & new & certs & Ha & Hc & _).
  - eexists. by vm_compute.
  - by vm_compute.
  - split; [by vm_compute|]. split; [done|]. simpl. unfold GenesisExample.R. set_solver.
  - reflexivity.
  - reflexivity.
  - apply (bool_decide_unpack _). by vm_compute.
  - intros t Ht. vm_compute in Ht.
    repeat (apply elem_of_cons in Ht as [->|Ht]; [apply (bool_decide_unpack _); by vm_compute|]). by apply elem_of_nil in Ht.
  - by vm_compute.
  - exists p', new, certs. split; [exact Ha|exact Hc].
Defined.

(** Eight such certificates are one more than the tracker of ready parents allows:
    when one validator with 84% of the stake and seven with 2% vote for eight blocks,
    the first seven votes are taken and the eighth ends in the panic of its assertion. *)
Module GenesisPanic.
Definition accounts : VoteAccounts :=
  (fun '(k, st) => (k, (st, mkVoteAccount k (Some (k + 100)) (fun _ => None)))) <$>
    [(1, 84); (2, 2); (3, 2); (4, 2); (5, 2); (6, 2); (7, 2); (8, 2); (9, 2)].
Definition stakes : VersionedEpochStakes := epoch_stakes_new Some Some accounts 0.
Definition bank : RootBank := mkRootBank 3 (Some 1) (fun _ => 0) {[0 := stakes]}.
Definition ops : list pool_op :=
  (fun rank => OpMessage bank 1 (MVote (mkVoteMessage (Genesis 4 (10 + rank)) rank rank))) <$> [0; 1; 2; 3; 4; 5; 6; 7].
End GenesisPanic.
Example genesis_votes_panic :
  is_Some (pool_run (new_from_root_bank GenesisPanic.bank ∅ 0) (take 7 GenesisPanic.ops) []) /\
  pool_run (new_from_root_bank GenesisPanic.bank ∅ 0) GenesisPanic.ops [] = None.
Proof. split; [apply (bool_decide_unpack _); vm_compute; exact I|by vm_compute]. Qed.

(** ** Events of certificates *)

(** The events that are not about ready parents or safe votes: of the pool's, those
    that report certificates. *)
Definition cert_event (e : VotorEvent) : bool :=
  match e with EParentReady _ _ | ESafeToNotar _ | ESafeToSkip _ => false | _ => true end.
Definition event_log (P : VotorEvent -> bool) (events : list VotorEvent) : list VotorEvent :=
  filter (fun e => P e = true) events.
Abbreviation cert_log := (event_log cert_event).

Lemma event_log_app P ev ev' : event_log P (ev ++ ev') = event_log P ev ++ event_log P ev'.
Proof. apply filter_app. Qed.
Lemma event_log_quiet (P : VotorEvent -> bool) ev e : P e = false -> event_log P (ev ++ [e]) = event_log P ev.
Proof. intros He. rewrite event_log_app. unfold event_log at 2. rewrite filter_cons. rewrite He. apply app_nil_r. Qed.
Lemma elem_of_event_log (P : VotorEvent -> bool) ev e : e ∈ event_log P ev <-> P e = true /\ e ∈ ev.
Proof. unfold event_log. by rewrite list_elem_of_filter. Qed.

(** The tracker reports nothing but ready parents. *)
Section tracker_log.
Context (P : VotorEvent -> bool) (HP : forall s b, P (EParentReady s b) = false).
Abbreviation log := (event_log P).

Lemma push_parent_log s b acc : log (push_parent s b acc).2 = log acc.2.
Proof.
  destruct acc as [st ev]. unfold push_parent. case_bool_decide; [done|]. simpl.
  case_bool_decide; [|done]. by apply event_log_quiet.
Qed.
Lemma notar_loop_log fuel b : forall s t ev t' ev',
  notar_loop fuel b s t ev = Some (t', ev') -> log ev' = log ev.
Proof.
  induction fuel as [|fuel IH]; intros s t ev t' ev'; [done|]. cbn [notar_loop]. case_bool_decide; [done|].
  pose proof (push_parent_log s b (entry_or_default (slot_statuses t) s, ev)) as Hp.
  destruct (push_parent _ _ _) as [st ev1]. simpl in Hp. rewrite <-Hp.
  destruct (negb _); [by intros [= _ <-]|]. apply IH.
Qed.
Lemma add_notar_log t b ev t' ev' :
  add_new_notar_fallback_or_stronger t b ev = Some (t', ev') -> log ev' = log ev.
Proof.
  unfold add_new_notar_fallback_or_stronger. case_bool_decide; [by intros [= _ <-]|].
  case_bool_decide; [by intros [= _ <-]|]. destruct (rust_assert _); [|done]. cbn [mbind option_bind].
  apply notar_loop_log.
Qed.
Lemma push_parents_log ps l : forall acc, log (foldl (push_parents_at ps) acc l).2 = log acc.2.
Proof.
  assert (forall s acc, log (foldl (fun a b => push_parent s b a) acc ps).2 = log acc.2) as Hin.
  { intros s. induction ps as [|b ps IH]; intros acc; [done|]. simpl. rewrite IH. apply push_parent_log. }
  induction l as [|s l IH]; intros [t ev]; [done|]. simpl. rewrite IH.
  specialize (Hin s (entry_or_default (slot_statuses t) s, ev)). by destruct (foldl _ _ ps).
Qed.
Lemma add_skip_log t s ev t' ev' : add_new_skip t s ev = Some (t', ev') -> log ev' = log ev.
Proof.
  unfold add_new_skip. case_bool_decide; [by intros [= _ <-]|].
  destruct (future_slots_loop _ _ _) as [l|]; [|done]. cbn [mbind option_bind].
  destruct (_ !! (s -s 1)) as [st|]; [|by intros [= _ <-]]. case_bool_decide; [by intros [= _ <-]|].
  intros [= Hf]. pose proof (push_parents_log (potential_parents_of st) l (mkTracker (<[s := mkStatus true
    (st_notar_fallbacks (entry_or_default (slot_statuses t) s)) (st_parents_ready (entry_or_default (slot_statuses t) s))]>
    (slot_statuses t)) (prt_root t) (highest_with_parent_ready t), ev)) as Hp.
  rewrite Hf in Hp. done.
Qed.
End tracker_log.

(** The counters only report that a fallback vote is safe. *)
Definition safety_event (e : VotorEvent) : Prop :=
  match e with ESafeToNotar _ | ESafeToSkip _ => True | _ => False end.
Definition only_safety (ev ev' : list VotorEvent) : Prop :=
  exists new, ev' = ev ++ new /\ forall e, e ∈ new -> safety_event e.
Lemma only_safety_refl ev : only_safety ev ev.
Proof. exists []. rewrite app_nil_r. split; [done|]. by intros e ?%elem_of_nil. Qed.
Lemma only_safety_snoc ev ev' e : only_safety ev ev' -> safety_event e -> only_safety ev (ev' ++ [e]).
Proof.
  intros (new & -> & Hn) He. exists (new ++ [e]). rewrite app_assoc. split; [done|].
  intros x [Hx| ->%list_elem_of_singleton]%elem_of_app; auto.
Qed.
Lemma only_safety_log ev ev' : only_safety ev ev' -> cert_log ev' = cert_log ev.
Proof.
  intros (new & -> & Hn). rewrite event_log_app. induction new as [|e new IH]; [apply app_nil_r|].
  unfold event_log at 2. rewrite filter_cons_False; [apply IH; set_solver|].
  specialize (Hn e (list_elem_of_here _ _)). by destruct e.
Qed.
Lemma safe_loop_events c slot ev0 l : forall sent ev st sent' ev' st',
  only_safety ev0 ev -> safe_to_notar_loop c slot l sent ev st = Some (sent', ev', st') -> only_safety ev0 ev'.
Proof.
  induction l as [|[b stk] l IH]; intros sent ev st sent' ev' st' Hq; cbn [safe_to_notar_loop]; [by intros [= _ <- _]|].
  case_bool_decide; [by apply IH|]. destruct (is_safe_to_notar c b stk) as [[]|]; [..|done]; cbn [mbind option_bind].
  - apply IH. by apply only_safety_snoc.
  - by apply IH.
Qed.
Lemma counters_events c v stk own ev st c' ev' st' :
  counters_add_vote c v stk own ev st = Some (c', ev', st') -> only_safety ev ev'.
Proof.
  pose proof (only_safety_refl ev) as Hr.
  unfold counters_add_vote, counters_check. destruct (counters_record c v stk) as [c1|]; [|by intros [= _ <- _]].
  case_bool_decide; [by intros [= _ <- _]|].
  destruct (safe_to_notar_loop _ _ _ _ _ _) as [[[sent ev1] st1]|] eqn:El; [|done]. cbn [mbind option_bind].
  apply (safe_loop_events _ _ ev) in El; [|done]. destruct (safe_to_skip_sent _); [by intros [= _ <- _]|].
  destruct (is_safe_to_skip _) as [[]|]; [..|done]; cbn [mbind option_bind]; intros [= _ <- _]; [|done].
  by apply only_safety_snoc.
Qed.

(** ** Certificates against their events *)

Definition slow_final (D : gset CertificateType) (s : Slot) (b : Hash) : Prop :=
  CFinalize s ∈ D /\ CNotarize s b ∈ D.

(** The events [l] report how the stored certificate types grew from [D] to [D']. *)
Record announces (D D' : gset CertificateType) (l : list VotorEvent) : Prop := {
  an_mono : D ⊆ D';
  an_notarized s b : EBlockNotarized (s, b) ∈ l <-> CNotarize s b ∈ D' /\ CNotarize s b ∉ D;
  an_fallback s b : EBlockNotarFallback (s, b) ∈ l <-> CNotarizeFallback s b ∈ D' /\ CNotarizeFallback s b ∉ D;
  an_fast s b : EFinalized (s, b) true ∈ l <-> CFinalizeFast s b ∈ D' /\ CFinalizeFast s b ∉ D;
  an_slow s b : EFinalized (s, b) false ∈ l -> slow_final D' s b /\ ~ slow_final D s b;
  an_slow_all s b : slow_final D' s b -> ~ slow_final D s b -> exists b', EFinalized (s, b') false ∈ l;
}.

Lemma announces_refl D : announces D D [].
Proof. split; [done|..]; intros s b; rewrite ?elem_of_nil; tauto. Qed.
Lemma announces_trans D1 D2 D3 l l' :
  announces D1 D2 l -> announces D2 D3 l' -> announces D1 D3 (l ++ l').
Proof.
  intros [M1 A1 B1 C1 S1 T1] [M2 A2 B2 C2 S2 T2].
  assert (forall x, (x ∈ D2 /\ x ∉ D1) \/ (x ∈ D3 /\ x ∉ D2) <-> x ∈ D3 /\ x ∉ D1) as Hx.
  { intros x. specialize (M1 x). specialize (M2 x). destruct (decide (x ∈ D2)); tauto. }
  assert (forall s b, slow_final D1 s b -> slow_final D2 s b) as M1' by (intros s b []; split; auto).
  assert (forall s b, slow_final D2 s b -> slow_final D3 s b) as M2' by (intros s b []; split; auto).
  split; [by etransitivity|..]; intros s b; rewrite ?elem_of_app.
  - by rewrite A1, A2, Hx.
  - by rewrite B1, B2, Hx.
  - by rewrite C1, C2, Hx.
  - intros [Hl%S1|Hl%S2]; naive_solver.
  - intros H3 H1. setoid_rewrite elem_of_app.
    destruct (decide (CFinalize s ∈ D2 /\ CNotarize s b ∈ D2)) as [H2|H2].
    + destruct (T1 s b H2 H1) as [b' ?]. eauto.
    + destruct (T2 s b H3 H2) as [b' ?]. eauto.
Qed.

(** The events of storing one new certificate. *)
Definition insert_log (D : gset CertificateType) (c : CertificateType) (l : list VotorEvent) : Prop :=
  match c with
  | CNotarize s b => l = EBlockNotarized (s, b) :: (if bool_decide (CFinalize s ∈ D) then [EFinalized (s, b) false] else [])
  | CNotarizeFallback s b => l = [EBlockNotarFallback (s, b)]
  | CFinalizeFast s b => l = [EFinalized (s, b) true]
  | CFinalize s => (exists b, CNotarize s b ∈ D /\ l = [EFinalized (s, b) false]) \/
                   ((forall b, CNotarize s b ∉ D) /\ l = [])
  | CSkip _ | CGenesis _ _ => l = []
  end.
Lemma insert_log_announces D c l : c ∉ D -> insert_log D c l -> announces D ({[c]} ∪ D) l.
Proof.
  intros Hc Hl.
  assert (forall x, x ∈ {[c]} ∪ D /\ x ∉ D <-> x = c) as Hx.
  { intros x. rewrite elem_of_union, elem_of_singleton. split; [tauto|]. intros ->. tauto. }
  split; [set_solver|..]; intros s b; rewrite ?Hx; clear Hx; unfold slow_final; rewrite ?elem_of_union, ?elem_of_singleton;
    destruct c as [s'|s' b'|s' b'|s' b'|s'|s' b']; cbn [insert_log] in Hl; try (destruct Hl as [(b0 & Hb0 & ->)|[Hno ->]]);
    subst; try case_bool_decide; rewrite ?elem_of_cons, ?elem_of_nil; try (split; [naive_solver|congruence]);
    try naive_solver.
  - intros [[[= ->]|?] [|?]] Hn; [done| |done|tauto]. exists b0. by left.
  - intros [[|?] [[= -> ->]|?]] Hn; [done|done| |tauto]. exists b'. by right; left.
Qed.

(** ** The events of the pool's operations *)

Section pool_log.
Context `{BlsOps}.

Definition certs_typed (p : ConsensusPool) : Prop := forall c cert,
  completed_certificates p !! c = Some cert -> cert_type cert = c.
Definition stored (p : ConsensusPool) : gset CertificateType := dom (completed_certificates p).

(** The step from [p] with events [ev] to [p'] with events [ev'] is reported. *)
Definition reported (p : ConsensusPool) (ev : list VotorEvent) (p' : ConsensusPool) (ev' : list VotorEvent) : Prop :=
  exists l, cert_log ev' = cert_log ev ++ l /\ announces (stored p) (stored p') l.

Lemma reported_same p ev p' ev' :
  completed_certificates p' = completed_certificates p -> cert_log ev' = cert_log ev -> reported p ev p' ev'.
Proof.
  intros Hc He. unfold reported, stored. rewrite Hc. exists [].
  rewrite app_nil_r. split; [done|apply announces_refl].
Qed.
Lemma reported_trans p1 ev1 p2 ev2 p3 ev3 :
  reported p1 ev1 p2 ev2 -> reported p2 ev2 p3 ev3 -> reported p1 ev1 p3 ev3.
Proof.
  intros (l & H1 & A1) (l' & H2 & A2). exists (l ++ l'). rewrite app_assoc, <-H1.
  split; [done|by eapply announces_trans].
Qed.

Lemma get_notarize_cert_None p s b : get_notarize_cert p s = None -> CNotarize s b ∉ stored p.
Proof.
  unfold stored. intros Hn [cert Hc]%elem_of_dom. apply elem_of_btree_iter in Hc.
  pose proof (find_map_None _ _ Hn _ Hc) as Hf. simpl in Hf. by rewrite bool_decide_true in Hf.
Qed.

Lemma tracker_add_block_log p b ev p' ev' :
  tracker_add_block p b ev = Some (p', ev') ->
  completed_certificates p' = completed_certificates p /\ cert_log ev' = cert_log ev.
Proof.
  unfold tracker_add_block. destruct (add_new_notar_fallback_or_stronger _ b ev) as [[t ev1]|] eqn:Ea; [|done].
  cbn [mbind option_bind]. intros [= <- <-]. split; [by destruct p|by eapply (add_notar_log cert_event)].
Qed.

Lemma cert_log_one ev e : cert_event e = true -> cert_log (ev ++ [e]) = cert_log ev ++ [e].
Proof. intros He. rewrite event_log_app. unfold event_log at 2. rewrite filter_cons. by rewrite He. Qed.

Lemma completed_with p x : completed_certificates (with_completed p x) = x.
Proof. by destruct p. Qed.

(** Every branch of [insert_certificate] stores the certificate and logs
    [insert_log]. *)
Lemma insert_finalize_log p bank s cert ev p' ev' :
  certs_typed p -> insert_certificate p bank (CFinalize s) cert ev = Some (p', ev') ->
  completed_certificates p' = <[CFinalize s := cert]> (completed_certificates p) /\
  exists l, cert_log ev' = cert_log ev ++ l /\ insert_log (stored p) (CFinalize s) l.
Proof.
  intros Ht. unfold insert_certificate. set (p1 := with_completed p _).
  assert (completed_certificates p1 = <[CFinalize s := cert]> (completed_certificates p)) as H1 by apply completed_with.
  assert (forall b, CNotarize s b ∈ stored p1 <-> CNotarize s b ∈ stored p) as Hst.
  { intros b. unfold stored. rewrite H1. set_solver. }
  destruct (get_notarize_cert p1 s) as [nc|] eqn:En.
  - apply get_notarize_cert_Some in En as [b En].
    assert (completed_certificates p !! CNotarize s b = Some nc) as Enp by (by rewrite H1, lookup_insert_ne in En).
    rewrite (Ht _ _ Enp). cbn [to_block mbind option_bind].
    intros Hr. assert (completed_certificates p' = completed_certificates p1 /\ ev' = ev ++ [EFinalized (s, b) false]) as [-> ->].
    { destruct (is_none_or _ _); [|by injection Hr as <- <-]. destruct (from_validated_slow _ _ _); [|done].
      injection Hr as <- <-. by destruct p1. }
    split; [done|]. exists [EFinalized (s, b) false]. split; [by apply cert_log_one|]. left. exists b. split; [|done].
    unfold stored. apply elem_of_dom. eauto.
  - intros [= <- <-]. split; [done|]. exists []. rewrite app_nil_r. split; [done|]. right. split; [|done].
    intros b. rewrite <-Hst. by apply get_notarize_cert_None.
Qed.

Lemma insert_notarize_log p bank s b cert ev p' ev' :
  insert_certificate p bank (CNotarize s b) cert ev = Some (p', ev') ->
  completed_certificates p' = <[CNotarize s b := cert]> (completed_certificates p) /\
  exists l, cert_log ev' = cert_log ev ++ l /\ insert_log (stored p) (CNotarize s b) l.
Proof.
  unfold insert_certificate. destruct (tracker_add_block _ _ _) as [[p1 ev1]|] eqn:Ea; [|done]. cbn [mbind option_bind].
  apply tracker_add_block_log in Ea as [H1 He1]. rewrite completed_with in H1. rewrite cert_log_one in He1 by done.
  assert (get_finalize_cert p1 s = completed_certificates p !! CFinalize s) as ->.
  { unfold get_finalize_cert. by rewrite H1, lookup_insert_ne. }
  destruct (completed_certificates p !! CFinalize s) as [fc|] eqn:Ef.
  - intros Hr. assert (completed_certificates p' = completed_certificates p1 /\ ev' = ev1 ++ [EFinalized (s, b) false]) as [-> ->].
    { destruct (is_none_or _ _); [|by injection Hr as <- <-]. destruct (from_validated_slow _ _ _); [|done].
      injection Hr as <- <-. by destruct p1. }
    split; [done|]. exists [EBlockNotarized (s, b); EFinalized (s, b) false].
    rewrite cert_log_one, He1, <-app_assoc by done. split; [done|]. simpl.
    by rewrite bool_decide_true by (apply elem_of_dom; eauto).
  - intros [= <- <-]. split; [done|]. exists [EBlockNotarized (s, b)]. split; [done|]. simpl.
    by rewrite bool_decide_false by (by apply not_elem_of_dom).
Qed.

Lemma insert_fast_log p bank s b cert ev p' ev' :
  insert_certificate p bank (CFinalizeFast s b) cert ev = Some (p', ev') ->
  completed_certificates p' = <[CFinalizeFast s b := cert]> (completed_certificates p) /\
  cert_log ev' = cert_log ev ++ [EFinalized (s, b) true].
Proof.
  unfold insert_certificate. destruct (tracker_add_block _ _ _) as [[p1 ev1]|] eqn:Ea; [|done]. cbn [mbind option_bind].
  apply tracker_add_block_log in Ea as [H1 He1]. rewrite completed_with in H1. rewrite cert_log_one in He1 by done.
  destruct (is_none_or _ _); [|by intros [= <- <-]]. destruct (from_validated_fast _ _); [|done].
  intros [= <- <-]. split; [|done]. by destruct p1.
Qed.

Lemma insert_certificate_log p bank c cert ev p' ev' :
  certs_typed p -> insert_certificate p bank c cert ev = Some (p', ev') ->
  completed_certificates p' = <[c := cert]> (completed_certificates p) /\
  exists l, cert_log ev' = cert_log ev ++ l /\ insert_log (stored p) c l.
Proof.
  intros Ht Hins. destruct c as [s|s b|s b|s b|s|s b].
  - by eapply insert_finalize_log.
  - apply insert_fast_log in Hins as [-> ->]. split; [done|]. eexists. by split.
  - by eapply insert_notarize_log.
  - unfold insert_certificate in Hins. apply tracker_add_block_log in Hins as [-> ->]. rewrite completed_with.
    rewrite cert_log_one by done. split; [done|]. eexists. by split.
  - unfold insert_certificate in Hins. destruct (add_new_skip _ _ _) as [[t ev1]|] eqn:Ea; [|done].
    cbn [mbind option_bind] in Hins. injection Hins as <- <-. apply (add_skip_log cert_event) in Ea as ->; [|done].
    split; [by destruct p|]. exists []. by rewrite app_nil_r.
  - unfold insert_certificate in Hins. destruct (match migration_status _ with Some _ => _ | None => _ end) as [p1|] eqn:Em; [|done].
    cbn [mbind option_bind] in Hins. apply tracker_add_block_log in Hins as [-> ->]. split; [|exists []; by rewrite app_nil_r].
    destruct (migration_status _) as [ms|]; [|injection Em as <-; apply completed_with].
    destruct (set_genesis_certificate _ _); [|done]. injection Em as <-. by destruct p.
Qed.
Lemma insert_certificate_typed p bank c cert ev p' ev' :
  certs_typed p -> cert_type cert = c -> insert_certificate p bank c cert ev = Some (p', ev') -> certs_typed p'.
Proof.
  intros Ht Hty Hins. destruct (insert_certificate_log _ _ _ _ _ _ _ Ht Hins) as [Hc _].
  intros x y. rewrite Hc, lookup_insert. case_decide; [intros [= <-]; congruence|apply Ht].
Qed.

Lemma build_type b c cert : builder_build b c = Ok cert -> cert_type cert = c.
Proof.
  assert (forall (r : result EncodeError (list Z)) s, map_encode_err (match r with Ok e => Ok (mkCertificate c s e) | Err e => Err e end)
    = Ok cert -> cert_type cert = c) as Hr by (intros [] s; [by intros [= <-]|done]).
  destruct b as [sg bm|sg0 bm0 [[sg1 bm1]|]|sg bm0 [bm1|]]; cbn [builder_build];
    unfold build_cert_from_bitmap, build_cert_from_bitmaps; try apply Hr.
  destruct (aggregate_with_projective _ _); [apply Hr|done].
Qed.
Lemma aggregate_votes_type p slot ob ts : forall b b',
  aggregate_votes p slot ob ts b = Some b' -> cb_cert_type b' = cb_cert_type b.
Proof.
  induction ts as [|t ts IH]; intros b b'; cbn [aggregate_votes]; [by intros [= <-]|].
  destruct (vote_pools p !! (slot, t)) as [vp|]; [|apply IH].
  destruct (pool_votes vp ob) as [[votes|]|]; [|apply IH|done]. cbn [mbind option_bind].
  unfold certificate_builder_aggregate. destruct (builder_aggregate _ _ _) as [[b1|]|]; [|done|done].
  cbn [mbind option_bind]. intros Ha%IH. exact Ha.
Qed.

(** ** Steps of the pool

    A message changes the certificates, the tracker and the highest finalized slot
    only by [insert_certificate]; so what holds of a quiet step and of the insertion
    of a new certificate, and composes, holds of a message. *)

Definition certs_same (p p' : ConsensusPool) : Prop :=
  completed_certificates p' = completed_certificates p /\ parent_ready_tracker p' = parent_ready_tracker p /\
  highest_finalized_slot_cert p' = highest_finalized_slot_cert p.
Lemma certs_same_typed p p' : certs_typed p -> certs_same p p' -> certs_typed p'.
Proof. intros Ht (Hc & _). unfold certs_typed. by rewrite Hc. Qed.

Section steps.
Context (Q : ConsensusPool -> list VotorEvent -> ConsensusPool -> list VotorEvent -> Prop).
Context (Q_quiet : forall p ev p' ev', certs_typed p -> certs_same p p' -> only_safety ev ev' -> Q p ev p' ev').
Context (Q_trans : forall p1 ev1 p2 ev2 p3 ev3, Q p1 ev1 p2 ev2 -> Q p2 ev2 p3 ev3 -> Q p1 ev1 p3 ev3).
Context (Q_insert : forall p bank c cert ev p' ev', certs_typed p -> cert_type cert = c ->
  completed_certificates p !! c = None -> insert_certificate p bank c cert ev = Some (p', ev') -> Q p ev p' ev').

Lemma update_certificates_steps bank slot ob total cs : forall p ev acc p' ev' r,
  certs_typed p -> update_certificates p bank slot ob ev total cs acc = Some (p', ev', r) ->
  certs_typed p' /\ Q p ev p' ev'.
Proof using Q_quiet Q_trans Q_insert.
  induction cs as [|c cs IH]; intros p ev acc p' ev' r Ht; cbn [update_certificates].
  { intros [= <- <- _]. split; [done|]. by apply Q_quiet; [|split_and!|apply only_safety_refl]. }
  case_bool_decide as Hdone; [by apply IH|]. destruct (limits_and_vote_types c) as [limit ts].
  destruct (accumulated_stake _ _ _ _) as [st|]; [|done]. cbn [mbind option_bind].
  destruct (nonzero_unwrap total) as [tot|]; [|done]. cbn [mbind option_bind].
  destruct (fraction_lt _ _) as [[]|]; [by apply IH| |done]. cbn [mbind option_bind].
  destruct (aggregate_votes _ _ _ _ _) as [b|] eqn:Ea; [|done]. cbn [mbind option_bind].
  destruct (certificate_builder_build b) as [cert|e] eqn:Eb.
  2:{ intros [= <- <- _]. split; [done|]. by apply Q_quiet; [|split_and!|apply only_safety_refl]. }
  assert (cert_type cert = c) as Hty.
  { apply build_type in Eb. apply aggregate_votes_type in Ea. simpl in Ea. congruence. }
  destruct (insert_certificate _ _ _ _ _) as [[p1 ev1]|] eqn:Ei; [|done]. cbn [mbind option_bind].
  pose proof (insert_certificate_typed _ _ _ _ _ _ _ Ht Hty Ei) as Ht1. set (p2 := with_stats _ _). intros Hu.
  assert (certs_same p1 p2) as Hs by (by destruct p1).
  destruct (IH p2 _ _ _ _ _ (certs_same_typed _ _ Ht1 Hs) Hu) as [Ht' HQ]. split; [done|].
  eapply Q_trans; [eapply Q_insert; [done|exact Hty|by apply eq_None_not_Some|exact Ei]|].
  eapply Q_trans; [apply (Q_quiet p1 ev1 p2 ev1); [done|done|apply only_safety_refl]|exact HQ].
Qed.

Lemma pool_add_vote_steps p bank my m ev p' ev' r :
  certs_typed p -> pool_add_vote p bank my m ev = Some (p', ev', r) -> certs_typed p' /\ Q p ev p' ev'.
Proof using Q_quiet Q_trans Q_insert.
  intros Ht.
  assert (forall p', certs_same p p' -> certs_typed p' /\ Q p ev p' ev) as Hq.
  { intros p1 Hs. split; [by eapply certs_same_typed|]. by apply Q_quiet, only_safety_refl. }
  unfold pool_add_vote. destruct (get_key_and_stakes _ _ _) as [[[[k st] total]|e]|]; [| |done]; cbn [mbind option_bind].
  2:{ intros [= <- <- _]. by apply Hq. }
  destruct (rust_assert _); [|done]. cbn [mbind option_bind].
  case_bool_decide. { intros [= <- <- _]. apply Hq. by destruct p. }
  destruct (has_conflicting_vote _ _ _ _ _). { intros [= <- <- _]. apply Hq. by destruct p. }
  destruct (update_vote_pool _ _ _ _) as [[p1 added]|] eqn:Eu; [|done]. cbn [mbind option_bind].
  assert (certs_same p p1) as Hp1.
  { rewrite update_vote_pool_eq in Eu. destruct (vote_pool_add _ _ _ _) as [[]|]; [|done].
    cbn [mbind option_bind] in Eu. injection Eu as <- _. by destruct p. }
  destruct added as [est|]. 2:{ intros [= <- <- _]. apply Hq. by destruct p1. }
  destruct (counters_add_vote _ _ _ _ _ _) as [[[c ev1] st1]|] eqn:Ec; [|done]. cbn [mbind option_bind].
  apply counters_events in Ec. set (p2 := with_stats _ _). intros Hu.
  assert (certs_same p p2) as Hs by (by destruct p1).
  destruct (update_certificates_steps _ _ _ _ _ _ _ _ _ _ _ (certs_same_typed _ _ Ht Hs) Hu) as [Ht' HQ].
  split; [done|]. eapply Q_trans; [by apply (Q_quiet p ev p2 ev1)|exact HQ].
Qed.

Lemma add_message_steps p bank my m ev p' ev' r :
  certs_typed p -> add_message p bank my m ev = Some (p', ev', r) -> certs_typed p' /\ Q p ev p' ev'.
Proof using Q_quiet Q_trans Q_insert.
  intros Ht. unfold add_message.
  assert (forall p' ev' r, match m with
    | MVote m => pool_add_vote p bank my m ev
    | MCertificate c => add_certificate p bank c ev
    end = Some (p', ev', r) -> certs_typed p' /\ Q p ev p' ev') as Hm.
  { clear p' ev' r. intros p' ev' r. destruct m as [m|cert]; [by apply pool_add_vote_steps|].
    assert (forall p', certs_same p p' -> certs_typed p' /\ Q p ev p' ev) as Hq.
    { intros p1 Hs. split; [by eapply certs_same_typed|]. by apply Q_quiet, only_safety_refl. }
    unfold add_certificate. case_bool_decide. { intros [= <- <- _]. apply Hq. by destruct p. }
    case_bool_decide as Hd. { intros [= <- <- _]. apply Hq. by destruct p. }
    destruct (insert_certificate _ _ _ _ _) as [[p1 ev1]|] eqn:Ei; [|done]. cbn [mbind option_bind]. intros [= <- <- _].
    destruct (Hq (bump_stat incoming_certs p)) as [Ht0 HQ0]; [by destruct p|].
    pose proof (insert_certificate_typed _ _ _ _ _ _ _ Ht0 eq_refl Ei) as Ht1. set (p2 := with_stats _ _).
    assert (certs_same p1 p2) as Hs by (by destruct p1). split; [by eapply certs_same_typed|].
    eapply Q_trans; [exact HQ0|]. eapply Q_trans; [by eapply Q_insert; [| |apply eq_None_not_Some|exact Ei]|].
    apply (Q_quiet p1 ev1 p2 ev1); [done|done|apply only_safety_refl]. }
  destruct (match m with MVote _ => _ | MCertificate _ => _ end) as [[[p1 ev1] r1]|]; [|done].
  specialize (Hm p1 ev1 r1 eq_refl). cbn [mbind option_bind]. destruct r1; by intros [= <- <- _].
Qed.
End steps.

Lemma add_message_reported p bank my m ev p' ev' r :
  certs_typed p -> add_message p bank my m ev = Some (p', ev', r) -> certs_typed p' /\ reported p ev p' ev'.
Proof.
  apply (add_message_steps reported).
  - intros p1 ev1 p2 ev2 _ (Hc & _) He. apply reported_same; [done|by apply only_safety_log].
  - apply reported_trans.
  - intros p1 b c cert ev1 p2 ev2 Ht Hty Hnew Hins.
    destruct (insert_certificate_log _ _ _ _ _ _ _ Ht Hins) as [Hc (l & Hl & Hlog)]. exists l. split; [done|].
    unfold stored at 2. rewrite Hc, dom_insert_L. apply insert_log_announces; [|done].
    unfold stored. by apply not_elem_of_dom.
Qed.
End pool_log.

(** The events of a message report the certificates it completes: a block is
    reported notarized, notarized-or-fallback or fast finalized exactly when that
    certificate is new in the pool; a slow finalization is reported only for a
    block with both certificates, not both there before, and whenever a slot gets
    both, one of its blocks is reported. *)
Theorem message_events_exact `{BlsOps, !BlsLaws} E R U bank0 ops now p events bank my m
    (Hset : pool_setting E R U bank0 ops)
    (Hrun : pool_run (new_from_root_bank bank0 ∅ now) ops [] = Some (p, events))
    (Hbank : bank_fits E bank) (Hm : message_input E R U bank m) :
  exists p' new r, add_message p bank my m events = Some (p', events ++ new, r) /\
    announces (dom (completed_certificates p)) (dom (completed_certificates p')) (cert_log new).
Proof.
  destruct (setting_inv E R U bank0 ops now p events Hset Hrun) as [HE HI].
  assert (certs_typed p) as Ht by (destruct HI as (_ & [g HC] & _); intros c cert Hc; by apply (ci_cert E R p g HC)).
  destruct (add_message_ok E R U p bank my m events HE (set_capacity _ _ _ _ _ Hset) HI Hm Hbank)
    as (p' & new & r & Ha & _). exists p', new, r. split; [done|].
  destruct (add_message_reported p bank my m events p' _ r Ht Ha) as (_ & l & Hl & Han).
  rewrite event_log_app in Hl. by apply app_inv_head in Hl as ->.
Qed.
Lemma message_events_exact_witness :
  exists p' new r, add_message Example3.final Example3.bank 1
      (MVote (mkVoteMessage (Notarize 5 7) 0 2)) Example3.events = Some (p', Example3.events ++ new, r) /\
    new = [EFinalized (5, 7) true] /\
    (CFinalizeFast 5 7 ∈ dom (completed_certificates p') /\ CFinalizeFast 5 7 ∉ dom (completed_certificates Example3.final)).
Proof.
  destruct (message_events_exact _ _ _ _ _ 0 _ _ Example3.bank 1 (MVote (mkVoteMessage (Notarize 5 7) 0 2))
    Example3.setting Example3.run_final Example3.bank_fits_E) as (p' & new & r & Ha & Han).
  - split; [by vm_compute|]. split; [done|]. simpl. intros k Hk. vm_compute in Hk. injection Hk as <-.
    by vm_compute.
  - exists p', new, r. split; [exact Ha|].
    assert (new = [EFinalized (5, 7) true]) as Hn.
    { assert ((fun x => x.1.2) <$> add_message Example3.final Example3.bank 1
        (MVote (mkVoteMessage (Notarize 5 7) 0 2)) Example3.events = Some (Example3.events ++ [EFinalized (5, 7) true]))
        as Hr by (vm_compute; reflexivity).
      rewrite Ha in Hr. apply (inj Some) in Hr. apply app_inv_head in Hr. exact Hr. }
    split; [exact Hn|]. apply (an_fast _ _ _ Han). rewrite Hn. apply list_elem_of_here.
Defined.
