(* ===== verification/CertVerify.v ===== *)
(** * Certificate verification

    [bls-cert-verify/src/cert_verify.rs], [Bank::verify_certificate] and its
    callers: the certificate verifier of [core/src/bls_sigverify], the finalization
    certificate of a block footer and the genesis certificate of a block.  BLS
    verification and the serialization of votes are external crates: [BlsVerify]
    and its laws [BlsVerifyLaws], in the ideal form that a key whose aggregate
    verifies has signed the payload. *)

From S2P Require Import Prelude.
From S2P Require Import Messages.
From S2P Require Import EpochStakes.
From S2P Require Import CertBuilder.
From S2P Require Import Finalization.
From S2P Require Import PoolVotes.
From S2P Require Import PoolCerts.
From S2P Require Import PoolSafety.

(** ** External operations *)

Class BlsVerify `{BlsOps} := {
  AggregatePubkey : Type;
  wincode_serialize : Vote -> list Z;
  current_num_threads : nat;
  pubkey_aggregate : list Z -> result BlsError AggregatePubkey;
  pubkey_par_aggregate : list Z -> result BlsError AggregatePubkey;
  verify_signature : AggregatePubkey -> BLSSignature -> list Z -> result BlsError unit;
  verify_distinct_aggregated : list Z -> BLSSignature -> list (list Z) -> result BlsError unit;
  par_verify_distinct_aggregated : list Z -> BLSSignature -> list (list Z) -> result BlsError unit;
  signature_compress : BLSSignature -> option Z;
  signature_uncompress : Z -> result BlsError BLSSignature;
}.

(** [signed pk m]: the holder of [pk] has signed [m], with signature [sig_of pk m].
    Aggregation does not depend on the order, nor on the threads. *)
Class BlsVerifyLaws `{BlsVerify} := {
  signed : Z -> list Z -> Prop;
  sig_of : Z -> list Z -> BLSSignature;
  serialize_inj : Inj (=) (=) wincode_serialize;
  par_aggregate_eq l : pubkey_par_aggregate l = pubkey_aggregate l;
  par_verify_eq l s ms : par_verify_distinct_aggregated l s ms = verify_distinct_aggregated l s ms;
  decode_disjoint bytes n b0 b1 : decode bytes n = Ok (Base3 b0 b1) -> forall i, ~ (bit b0 i /\ bit b1 i);
  verify_sound pks agg sig m : pubkey_aggregate pks = Ok agg -> verify_signature agg sig m = Ok tt ->
    Forall (fun pk => signed pk m) pks;
  distinct_sound pks sig ms : length pks = length ms -> verify_distinct_aggregated pks sig ms = Ok tt ->
    Forall2 signed pks ms;
  compress_uncompress s z : signature_compress s = Some z -> signature_uncompress z = Ok s;
  aggregate_perm s l l' : l ≡ₚ l' -> aggregate_with s l = aggregate_with s l';
  pubkey_aggregate_nil : exists e, pubkey_aggregate [] = Err e;
  pubkey_aggregate_ok pks : pks <> [] -> exists agg, pubkey_aggregate pks = Ok agg;
  verify_complete pks agg s m : pubkey_aggregate pks = Ok agg -> Forall (fun pk => signed pk m) pks ->
    aggregate_with sig_identity ((fun pk => sig_of pk m) <$> pks) = Ok s ->
    verify_signature agg (sig_into s) m = Ok tt;
  distinct_complete pks ms s : pks <> [] -> Forall2 signed pks ms ->
    aggregate_with sig_identity (zip_with sig_of pks ms) = Ok s ->
    verify_distinct_aggregated pks (sig_into s) ms = Ok tt;
}.

(** The trait [AsSignatureAffine]: what a signature of either form is converted to
    before it is verified.  A compressed signature may fail to be a point. *)
Class AsSignatureAffine `{BlsVerify} (S : Type) := as_affine : S -> result BlsError BLSSignature.
#[export] Instance signature_as_affine `{BlsVerify} : AsSignatureAffine BLSSignature := Ok.
Record SignatureCompressed := mkCompressed { compressed_bytes : Z }.
#[export] Instance compressed_as_affine `{BlsVerify} : AsSignatureAffine SignatureCompressed :=
  fun s => signature_uncompress (compressed_bytes s).
Definition verify_as `{BlsVerify} {S} `{!AsSignatureAffine S} (agg : AggregatePubkey) (signature : S) (m : list Z)
    : result BlsError unit :=
  match as_affine signature with Ok s => verify_signature agg s m | Err e => Err e end.

Definition THREAD_POOL_THRESHOLD : nat := 4.

Section verify.
Context `{BlsVerify}.

Inductive VerifyError :=
  | MissingRank
  | MissingRankMap
  | VerifySig (e : BlsError)
  | DecodeFailed (e : DecodeError)
  | WrongEncoding.

Definition get_vote_payloads (c : CertificateType) : Vote * option Vote :=
  match c with
  | CNotarize slot hash | CFinalizeFast slot hash => (Notarize slot hash, None)
  | CFinalize slot => (Finalize slot, None)
  | CGenesis slot hash => (Genesis slot hash, None)
  | CNotarizeFallback slot hash => (Notarize slot hash, Some (NotarizeFallback slot hash))
  | CSkip slot => (Skip slot, Some (SkipFallback slot))
  end.

Definition serialize_vote (v : Vote) : list Z := wincode_serialize v.

Definition aggregate_pubkeys (pubkeys : list Z) : result VerifyError AggregatePubkey :=
  let r := if (current_num_threads <? THREAD_POOL_THRESHOLD)%nat then pubkey_aggregate pubkeys
           else pubkey_par_aggregate pubkeys in
  match r with Ok a => Ok a | Err e => Err (VerifySig e) end.

Definition check_signature {S} `{!AsSignatureAffine S} (payload : list Z) (signature : S) (pubkeys : list Z)
    : result VerifyError unit :=
  match aggregate_pubkeys pubkeys with
  | Err e => Err e
  | Ok agg => match verify_as agg signature payload with Ok u => Ok u | Err e => Err (VerifySig e) end
  end.

(** The callers' closures find the key of a rank and note something about it in a
    variable they capture (its stake is added up, its account joins a set): a lookup
    [rank_map] and an effect [note] on the captured state, which is threaded through
    the calls. *)
Section closure.
Context {St A : Type} (note : St -> A -> St).
Fixpoint collect_loop (rank_map : nat -> option (A * Z)) (ranks : list nat) (pubkeys : list Z) (st : St)
    : result VerifyError (list Z) * St :=
  match ranks with
  | [] => (Ok pubkeys, st)
  | rank :: ranks =>
    match rank_map rank with
    | None => (Err MissingRank, st)
    | Some (a, pubkey) => collect_loop rank_map ranks (pubkeys ++ [pubkey]) (note st a)
    end
  end.
Definition collect_pubkeys (ranks : list bool) (rank_map : nat -> option (A * Z)) (st : St)
    : result VerifyError (list Z) * St :=
  collect_loop rank_map (iter_ones ranks) [] st.

Definition verify_single_vote_signature {S} `{!AsSignatureAffine S} (payload : list Z) (signature : S) (ranks : list bool)
    (rank_map : nat -> option (A * Z)) (st : St) : result VerifyError unit * St :=
  match collect_pubkeys ranks rank_map st with
  | (Err e, st) => (Err e, st)
  | (Ok pubkeys, st) => (check_signature payload signature pubkeys, st)
  end.

Definition verify_base2 {S} `{!AsSignatureAffine S} (payload : list Z) (signature : S) (ranks : list Z) (max_validators : nat)
    (rank_map : nat -> option (A * Z)) (st : St) : result VerifyError unit * St :=
  match decode ranks max_validators with
  | Err e => (Err (DecodeFailed e), st)
  | Ok (Base3 _ _) => (Err WrongEncoding, st)
  | Ok (Base2 ranks) => verify_single_vote_signature payload signature ranks rank_map st
  end.

Definition verify_distinct (payload fallback_payload : list Z) (signature : BLSSignature)
    (primary_pubkeys fallback_pubkeys : list Z) : result VerifyError unit :=
  let all_pubkeys := primary_pubkeys ++ fallback_pubkeys in
  let all_messages := replicate (length primary_pubkeys) payload ++ replicate (length fallback_pubkeys) fallback_payload in
  let r := if (current_num_threads <? THREAD_POOL_THRESHOLD)%nat
           then verify_distinct_aggregated all_pubkeys signature all_messages
           else par_verify_distinct_aggregated all_pubkeys signature all_messages in
  match r with Ok u => Ok u | Err e => Err (VerifySig e) end.

Definition verify_base3 (payload fallback_payload : list Z) (signature : BLSSignature) (ranks : list Z)
    (max_validators : nat) (rank_map : nat -> option (A * Z)) (st : St) : result VerifyError unit * St :=
  match decode ranks max_validators with
  | Err e => (Err (DecodeFailed e), st)
  | Ok (Base2 ranks) => verify_single_vote_signature payload signature ranks rank_map st
  | Ok (Base3 ranks fallback_ranks) =>
    match collect_pubkeys ranks rank_map st with
    | (Err e, st) => (Err e, st)
    | (Ok primary_pubkeys, st) =>
      match collect_pubkeys fallback_ranks rank_map st with
      | (Err e, st) => (Err e, st)
      | (Ok fallback_pubkeys, st) =>
        (if bool_decide (primary_pubkeys = []) then check_signature fallback_payload signature fallback_pubkeys
         else if bool_decide (fallback_pubkeys = []) then check_signature payload signature primary_pubkeys
         else verify_distinct payload fallback_payload signature primary_pubkeys fallback_pubkeys,
         st)
      end
    end
  end.
End closure.

Definition verify_certificate (cert : Certificate) (max_validators : nat) (rank_map : nat -> option (Z * Z))
    : result VerifyError Z :=
  let '(primary_vote, fallback_vote) := get_vote_payloads (cert_type cert) in
  let '(r, total_stake) :=
    match fallback_vote with
    | Some fallback_vote =>
      verify_base3 sat_add (serialize_vote primary_vote) (serialize_vote fallback_vote) (cert_signature cert)
        (cert_bitmap cert) max_validators rank_map 0
    | None =>
      verify_base2 sat_add (serialize_vote primary_vote) (cert_signature cert) (cert_bitmap cert) max_validators rank_map 0
    end in
  match r with Ok _ => Ok total_stake | Err e => Err e end.

(** [Bank::verify_certificate]. *)
Definition rank_lookup (m : BLSPubkeyToRankMap) (rank : nat) : option (Z * Z) :=
  (fun entry => (en_stake entry, en_bls_pubkey entry)) <$> get_pubkey_stake_entry m (Z.of_nat rank).
Definition bank_verify_certificate (bank : RootBank) (cert : Certificate) : result VerifyError (Z * Z) :=
  match epoch_stakes_from_slot bank (cert_slot (cert_type cert)) with
  | None => Err MissingRankMap
  | Some epoch_stakes =>
    let key_to_rank_map := es_rank_map epoch_stakes in
    match verify_certificate cert (rank_map_len key_to_rank_map) (rank_lookup key_to_rank_map) with
    | Ok stake => Ok (stake, es_total_stake epoch_stakes)
    | Err e => Err e
    end
  end.

(** ** The certificate verifier of the node *)

Inductive CertVerifyError :=
  | CertVerifyFailed (e : VerifyError)
  | NotEnoughStake (aggregate_stake : Z) (cert_fraction required_fraction : Fraction)
  | TooFarInFuture (cert_slot root_slot : Slot).

Definition NUM_SLOTS_FOR_VERIFY : Z := 90000.

(** The outer option is the panic on a zero total stake. *)
Definition verify_stake (cert : Certificate) (aggregate_stake total_stake : Z)
    : option (result CertVerifyError unit) :=
  let required_fraction := (limits_and_vote_types (cert_type cert)).1 in
  total_stake ← nonzero_unwrap total_stake;
  let cert_fraction := fraction_new aggregate_stake total_stake in
  enough ← fraction_ge cert_fraction required_fraction;
  Some (if enough : bool then Ok tt else Err (NotEnoughStake aggregate_stake cert_fraction required_fraction)).

(** The [debug_assert] is a panic as well. *)
Definition verify_cert (cert : Certificate) (root_bank : RootBank) : option (result CertVerifyError unit) :=
  let cert_slot := cert_slot (cert_type cert) in
  let root_slot := rb_slot root_bank in
  if bool_decide (cert_slot > root_slot +s NUM_SLOTS_FOR_VERIFY) then Some (Err (TooFarInFuture cert_slot root_slot))
  else
    match bank_verify_certificate root_bank cert with
    | Err e => Some (Err (CertVerifyFailed e))
    | Ok (aggregate_stake, total_stake) =>
      rust_assert (bool_decide (aggregate_stake <= total_stake));;
      verify_stake cert aggregate_stake total_stake
    end.

(** ** Block footers and genesis certificates *)

Record VotesAggregate := mkVotesAggregate {
  vag_signature : Z;
  vag_bitmap : list Z;
}.
Record FinalCertificate := mkFinalCertificate {
  fin_slot : Slot;
  fin_block_id : Hash;
  final_aggregate : VotesAggregate;
  notar_aggregate : option VotesAggregate;
}.
Definition from_certificate (cert : Certificate) : option VotesAggregate :=
  signature ← signature_compress (cert_signature cert);
  Some (mkVotesAggregate signature (cert_bitmap cert)).
Definition uncompress_signature (a : VotesAggregate) : result BlsError BLSSignature :=
  signature_uncompress (vag_signature a).

Definition footer_verify_certificate (bank : RootBank) (cert : Certificate)
    : result BlockFinalizationCertError (Z * Z) :=
  match bank_verify_certificate bank cert with
  | Ok r => Ok r
  | Err _ => Err (SignatureVerificationFailed (cert_type cert))
  end.
Definition certificate_of (c : CertificateType) (a : VotesAggregate) : result BlockFinalizationCertError Certificate :=
  match uncompress_signature a with
  | Ok s => Ok (mkCertificate c s (vag_bitmap a))
  | Err e => Err (FcBlsError c e)
  end.

(** The stake check of one certificate: [None] is a panic, [Some (Err _)] the
    insufficient stake. *)
Definition check_percent (c : CertificateType) (stake total_stake : Z)
    : option (result BlockFinalizationCertError unit) :=
  total ← nonzero_unwrap total_stake;
  let percent := fraction_new stake total in
  let threshold := (limits_and_vote_types c).1 in
  below ← fraction_lt percent threshold;
  Some (if below : bool then Err (InsufficientStake c percent threshold) else Ok tt).

Definition finish_footer (bank : RootBank) (kind : ValidatedBlockFinalizationCertKind) (signers_of : Certificate)
    : result BlockFinalizationCertError ValidatedBlockFinalizationCert :=
  match extract_signers bank signers_of with
  | Ok signers => Ok (mkFinalization kind signers)
  | Err e => Err e
  end.

Definition try_from_footer (final_cert : FinalCertificate) (bank : RootBank)
    : option (result BlockFinalizationCertError ValidatedBlockFinalizationCert) :=
  let '(slot, block_id) := (fin_slot final_cert, fin_block_id final_cert) in
  match notar_aggregate final_cert with
  | Some notar_aggregate =>
    match certificate_of (CNotarize slot block_id) notar_aggregate with
    | Err e => Some (Err e)
    | Ok notarize_cert =>
      match certificate_of (CFinalize slot) (final_aggregate final_cert) with
      | Err e => Some (Err e)
      | Ok finalize_cert =>
        match footer_verify_certificate bank notarize_cert with
        | Err e => Some (Err e)
        | Ok (notarize_stake, total_stake) =>
          match footer_verify_certificate bank finalize_cert with
          | Err e => Some (Err e)
          | Ok (finalize_stake, _) =>
            r ← check_percent (CNotarize slot block_id) notarize_stake total_stake;
            match r with
            | Err e => Some (Err e)
            | Ok _ =>
              r ← check_percent (CFinalize slot) finalize_stake total_stake;
              match r with
              | Err e => Some (Err e)
              | Ok _ => Some (finish_footer bank (KFinalize finalize_cert notarize_cert) finalize_cert)
              end
            end
          end
        end
      end
    end
  | None =>
    match certificate_of (CFinalizeFast slot block_id) (final_aggregate final_cert) with
    | Err e => Some (Err e)
    | Ok fast_finalize_cert =>
      match footer_verify_certificate bank fast_finalize_cert with
      | Err e => Some (Err e)
      | Ok (finalize_stake, total_stake) =>
        r ← check_percent (CFinalizeFast slot block_id) finalize_stake total_stake;
        match r with
        | Err e => Some (Err e)
        | Ok _ => Some (finish_footer bank (KFastFinalize fast_finalize_cert) fast_finalize_cert)
        end
      end
    end
  end.

Definition to_final_certificate (f : ValidatedBlockFinalizationCert) : option FinalCertificate :=
  match fc_kind f with
  | KFinalize finalize_cert notarize_cert =>
    '(_, block_id) ← to_block (cert_type notarize_cert);
    fa ← from_certificate finalize_cert;
    na ← from_certificate notarize_cert;
    Some (mkFinalCertificate (cert_slot (cert_type finalize_cert)) block_id fa (Some na))
  | KFastFinalize cert =>
    '(slot, block_id) ← to_block (cert_type cert);
    fa ← from_certificate cert;
    Some (mkFinalCertificate slot block_id fa None)
  end.

(** [BlockComponentProcessor::verify_genesis_certificate]: the one error it has. *)
Definition verify_genesis_certificate (bank : RootBank) (cert : Certificate) : option (result unit unit) :=
  match bank_verify_certificate bank cert with
  | Err _ => Some (Err tt)
  | Ok (genesis_stake, total_stake) =>
    total ← nonzero_unwrap total_stake;
    below ← fraction_lt (fraction_new genesis_stake total) GENESIS_VOTE_THRESHOLD;
    Some (if below : bool then Err tt else Ok tt)
  end.
End verify.

(** ** What a verified certificate says *)

Lemma iter_ones_from_ge i l r : r ∈ iter_ones_from i l -> (i <= r)%nat.
Proof.
  revert i. induction l as [|b l IH]; intros i; simpl; [by intros ?%elem_of_nil|].
  intros [Hr|Hr%IH]%elem_of_app; [|lia]. destruct b; [apply list_elem_of_singleton in Hr; lia|by apply elem_of_nil in Hr].
Qed.
Lemma iter_ones_NoDup l : NoDup (iter_ones l).
Proof.
  unfold iter_ones. generalize 0%nat. induction l as [|b l IH]; intros i; simpl; [by apply NoDup_nil_2|].
  destruct b; simpl; [|apply IH]. apply NoDup_cons. split; [|apply IH].
  intros Hi%iter_ones_from_ge. lia.
Qed.

Lemma sat_sum_exact l : forall t, 0 <= t -> Forall (fun x => 0 <= x) l -> t + sumZ l <= u64_max ->
  foldl sat_add t l = t + sumZ l.
Proof.
  induction l as [|x l IH]; intros t Ht Hl Hm; [simpl; unfold sumZ; simpl; lia|].
  apply Forall_cons in Hl as [Hx Hl]. change (sumZ (x :: l)) with (x + sumZ l) in *. simpl.
  pose proof (sumZ_nonneg l Hl). rewrite sat_add_exact by lia. rewrite IH by (done || lia). lia.
Qed.

Section verified.
Context `{BlsVerify, !BlsVerifyLaws}.

Lemma collect_loop_spec {St A} (note : St -> A -> St) rm l : forall acc t pks t',
  collect_loop note rm l acc t = (Ok pks, t') ->
  exists ents, Forall2 (fun r e => rm r = Some e) l ents /\ pks = acc ++ ents.*2 /\ t' = foldl note t ents.*1.
Proof.
  induction l as [|r l IH]; intros acc t pks t'; simpl.
  - intros [= <- <-]. exists []. simpl. by rewrite app_nil_r.
  - destruct (rm r) as [[st pk]|] eqn:Er; [|done]. intros (ents & HF & -> & ->)%IH.
    exists ((st, pk) :: ents). split; [by constructor|]. simpl. by rewrite <-app_assoc.
Qed.

(** The thread pool makes no difference. *)
Lemma aggregate_pubkeys_eq pks :
  aggregate_pubkeys pks = match pubkey_aggregate pks with Ok a => Ok a | Err e => Err (VerifySig e) end.
Proof. unfold aggregate_pubkeys. rewrite par_aggregate_eq. by destruct (current_num_threads <? THREAD_POOL_THRESHOLD)%nat. Qed.
Lemma verify_distinct_eq m m' sig pks pks' :
  verify_distinct m m' sig pks pks' =
  match verify_distinct_aggregated (pks ++ pks') sig (replicate (length pks) m ++ replicate (length pks') m') with
  | Ok u => Ok u
  | Err e => Err (VerifySig e)
  end.
Proof. unfold verify_distinct. rewrite par_verify_eq. by destruct (current_num_threads <? THREAD_POOL_THRESHOLD)%nat. Qed.

Lemma check_signature_sound {S} `{!AsSignatureAffine S} m (sig : S) pks :
  check_signature m sig pks = Ok tt -> Forall (fun pk => signed pk m) pks.
Proof.
  unfold check_signature, verify_as. rewrite aggregate_pubkeys_eq.
  destruct (pubkey_aggregate pks) as [agg|] eqn:Ea; [|done]. destruct (as_affine sig) as [s|]; [|done].
  destruct (verify_signature agg s m) as [[]|] eqn:Ev; [|done]. intros _. by eapply verify_sound.
Qed.
Lemma verify_distinct_sound m m' sig pks pks' :
  verify_distinct m m' sig pks pks' = Ok tt ->
  Forall (fun pk => signed pk m) pks /\ Forall (fun pk => signed pk m') pks'.
Proof.
  rewrite verify_distinct_eq. destruct (verify_distinct_aggregated _ _ _) as [[]|] eqn:Ev; [|done]. intros _.
  apply distinct_sound in Ev; [|by rewrite !length_app, !length_replicate].
  apply Forall2_app_inv in Ev as [F1 F2]; [|by rewrite length_replicate].
  assert (forall n x l, Forall2 signed l (replicate n x) -> Forall (fun pk => signed pk x) l) as Hr.
  { clear. intros n x l. revert n. induction l as [|pk l IH]; intros [|n] HF; simpl in HF; [constructor..| |].
    - by inversion HF.
    - apply Forall2_cons in HF as [? ?]. constructor; [done|by eapply IH]. }
  split; by eapply Hr.
Qed.

Lemma check_signature_nonempty {S} `{!AsSignatureAffine S} m (sig : S) pks : check_signature m sig pks = Ok tt -> pks <> [].
Proof.
  unfold check_signature. rewrite aggregate_pubkeys_eq. intros Hc ->.
  destruct pubkey_aggregate_nil as [e He]. by rewrite He in Hc.
Qed.

(** The ranks a certificate names, with their stakes and keys, by vote. *)
Record verified (cert : Certificate) (n : nat) (rm : nat -> option (Z * Z)) (stake : Z)
    (L0 L1 : list nat) (e0 e1 : list (Z * Z)) : Prop := {
  ver_nonempty : e0 ++ e1 <> [];
  ver_nodup : NoDup (L0 ++ L1);
  ver_map : Forall2 (fun r e => rm r = Some e) (L0 ++ L1) (e0 ++ e1);
  ver_length : length L0 = length e0;
  ver_stake : stake = foldl sat_add 0 (e0 ++ e1).*1;
  ver_primary : Forall (fun e => signed e.2 (serialize_vote (get_vote_payloads (cert_type cert)).1)) e0;
  ver_fallback : match (get_vote_payloads (cert_type cert)).2 with
    | Some v => Forall (fun e => signed e.2 (serialize_vote v)) e1
    | None => L1 = [] /\ exists b, decode (cert_bitmap cert) n = Ok (Base2 b) /\ L0 = iter_ones b
    end;
}.

Lemma verify_single_sound {S} `{!AsSignatureAffine S} {St A} (note : St -> A -> St) m (sig : S) bits rm st st' :
  verify_single_vote_signature note m sig bits rm st = (Ok tt, st') ->
  exists ents, Forall2 (fun r e => rm r = Some e) (iter_ones bits) ents /\ st' = foldl note st ents.*1 /\
    Forall (fun e => signed e.2 m) ents /\ ents <> [].
Proof.
  unfold verify_single_vote_signature, collect_pubkeys.
  destruct (collect_loop _ _ _ _ _) as [[pks|] t] eqn:Ec; [|done]. intros [= Hs <-].
  apply collect_loop_spec in Ec as (ents & HF & -> & ->). pose proof (check_signature_nonempty _ _ _ Hs) as Hne.
  apply check_signature_sound in Hs. simpl in Hs, Hne.
  exists ents. split; [done|]. split; [done|]. rewrite Forall_fmap in Hs. split; [done|]. by intros ->.
Qed.
Lemma verified_single cert n rm stake bits :
  decode (cert_bitmap cert) n = Ok (Base2 bits) ->
  verify_single_vote_signature sat_add (serialize_vote (get_vote_payloads (cert_type cert)).1) (cert_signature cert) bits rm 0
    = (Ok tt, stake) -> exists e0, verified cert n rm stake (iter_ones bits) [] e0 [].
Proof.
  intros Hd (ents & HF & Hst & Hs & Hne)%verify_single_sound. exists ents. split; rewrite ?app_nil_r; try done.
  - apply iter_ones_NoDup.
  - by eapply Forall2_length.
  - destruct (get_vote_payloads _).2; [constructor|]. split; [done|]. eauto.
Qed.

Lemma verify_certificate_sound cert n rm stake :
  verify_certificate cert n rm = Ok stake -> exists L0 L1 e0 e1, verified cert n rm stake L0 L1 e0 e1.
Proof.
  unfold verify_certificate. destruct (get_vote_payloads (cert_type cert)) as [v [fv|]] eqn:Ep.
  - unfold verify_base3. destruct (decode (cert_bitmap cert) n) as [[bits|b0 b1]|] eqn:Ed; [| |done].
    + destruct (verify_single_vote_signature _ _ _ _ _ _) as [[[]|] t] eqn:Ev; [|done]. intros [= <-].
      replace v with (get_vote_payloads (cert_type cert)).1 in Ev by (by rewrite Ep).
      destruct (verified_single cert n rm t bits Ed Ev) as [e0 Hv]. eauto.
    + unfold collect_pubkeys. destruct (collect_loop _ _ (iter_ones b0) _ _) as [[p0|] t0] eqn:E0; [|done].
      destruct (collect_loop _ _ (iter_ones b1) _ _) as [[p1|] t1] eqn:E1; [|done].
      apply collect_loop_spec in E0 as (e0 & F0 & -> & ->). apply collect_loop_spec in E1 as (e1 & F1 & -> & ->).
      simpl. set (r := if bool_decide _ then _ else _). destruct r as [[]|] eqn:Er; [|done]. intros [= <-].
      assert (Forall (fun pk => signed pk (serialize_vote v)) e0.*2 /\ Forall (fun pk => signed pk (serialize_vote fv)) e1.*2) as [S0 S1].
      { unfold r in Er. case_bool_decide as G1; [rewrite G1; split; [constructor|by apply check_signature_sound in Er]|].
        case_bool_decide as G2; [rewrite G2; split; [by apply check_signature_sound in Er|constructor]|].
        by apply verify_distinct_sound in Er. }
      assert (e0 ++ e1 <> []) as Hne.
      { unfold r in Er. intros [-> ->]%app_eq_nil. by apply check_signature_nonempty in Er. }
      rewrite Forall_fmap in S0, S1. exists (iter_ones b0), (iter_ones b1), e0, e1.
      split; rewrite ?Ep; try done.
      * apply NoDup_app. split; [apply iter_ones_NoDup|]. split; [|apply iter_ones_NoDup].
        intros i Hi0 Hi1. apply elem_of_iter_ones in Hi0, Hi1. by apply (decode_disjoint _ _ _ _ Ed i).
      * by apply Forall2_app.
      * by eapply Forall2_length.
      * by rewrite fmap_app, foldl_app.
  - unfold verify_base2. destruct (decode (cert_bitmap cert) n) as [[bits|b0 b1]|] eqn:Ed; [|done|done].
    destruct (verify_single_vote_signature _ _ _ _ _ _) as [[[]|] t] eqn:Ev; [|done]. intros [= <-].
    replace v with (get_vote_payloads (cert_type cert)).1 in Ev by (by rewrite Ep).
    destruct (verified_single cert n rm t bits Ed Ev) as [e0 Hv]. eauto.
Qed.
End verified.

(** ** Verification against the stakes of an epoch *)

Section signers.
Context `{BlsVerify, !BlsVerifyLaws} (E : Slot -> option VersionedEpochStakes).

(** Validator [k], ranked in the epoch of slot [s], has signed [v]. *)
Definition signed_vote (s : Slot) (k : Pubkey) (v : Vote) : Prop :=
  exists e, e ∈ slot_entries E s /\ en_vote_account_pubkey e = k /\ signed (en_bls_pubkey e) (serialize_vote v).

(** The votes that make up a certificate. *)
Definition cert_votes (c : CertificateType) : list Vote :=
  let '(v, fv) := get_vote_payloads c in v :: option_list fv.

(** Certificate [cert] is signed by the validators [K], with the weight [stake]. *)
Record signed_by (cert : Certificate) (stake : Z) (K : gset Z) : Prop := {
  sb_keys : K ⊆ slot_keys E (cert_slot (cert_type cert));
  sb_nonempty : K <> ∅;
  sb_stake : stake = weight (slot_weight E (cert_slot (cert_type cert))) K;
  sb_signed k : k ∈ K -> exists v, v ∈ cert_votes (cert_type cert) /\ signed_vote (cert_slot (cert_type cert)) k v;
}.

Context (HE : stakes_ok E).

Lemma rank_lookup_spec s es r st pk :
  E s = Some es -> rank_lookup (es_rank_map es) r = Some (st, pk) ->
  exists e, slot_entries E s !! r = Some e /\ slot_key_of E s (Z.of_nat r) = Some (en_vote_account_pubkey e) /\
    st = slot_weight E s (en_vote_account_pubkey e) /\ pk = en_bls_pubkey e.
Proof using HE.
  intros Hes (e & He & [= -> ->])%fmap_Some. exists e.
  unfold get_pubkey_stake_entry in He. rewrite bool_decide_true, Nat2Z.id in He by lia.
  assert (slot_entries E s !! r = Some e) as Hr by (unfold slot_entries; by rewrite Hes).
  assert (slot_key_of E s (Z.of_nat r) = Some (en_vote_account_pubkey e)) as Hk.
  { unfold slot_key_of. rewrite bool_decide_true, Nat2Z.id, Hr by lia. done. }
  split; [done|]. split; [done|]. split; [|done].
  destruct (slot_key_of_Some E HE _ _ _ Hk) as (_ & _ & _ & _ & e' & He' & _ & Hst).
  rewrite Nat2Z.id, Hr in He'. injection He' as <-. done.
Qed.

(** Distinct ranks have distinct keys, so their stakes add up to a weight. *)
Lemma ranks_weight s es L ents :
  E s = Some es -> NoDup L -> Forall2 (fun r e => rank_lookup (es_rank_map es) r = Some e) L ents ->
  exists ks, Forall2 (fun r k => slot_key_of E s (Z.of_nat r) = Some k) L ks /\ NoDup ks /\
    Forall (fun k => k ∈ slot_keys E s) ks /\
    foldl sat_add 0 ents.*1 = weight (slot_weight E s) (list_to_set ks) /\
    Forall2 (fun k e => exists en, en ∈ slot_entries E s /\ en_vote_account_pubkey en = k /\ e.2 = en_bls_pubkey en) ks ents.
Proof using HE.
  intros Hes Hnd HF.
  assert (exists ks, Forall2 (fun r k => slot_key_of E s (Z.of_nat r) = Some k) L ks /\
    Forall (fun k => k ∈ slot_keys E s) ks /\ ents.*1 = slot_weight E s <$> ks /\
    Forall2 (fun k e => exists en, en ∈ slot_entries E s /\ en_vote_account_pubkey en = k /\ e.2 = en_bls_pubkey en) ks ents)
    as (ks & F1 & F2 & F3 & F4).
  { clear Hnd. induction HF as [|r [st pk] L ents Hr HF IH]; [by exists []|].
    destruct IH as (ks & F1 & F2 & F3 & F4). destruct (rank_lookup_spec s es r st pk Hes Hr) as (e & He & Hk & -> & ->).
    exists (en_vote_account_pubkey e :: ks). split; [by constructor|]. split; [constructor; [|done]|split; [csimpl; by rewrite F3|]].
    - by destruct (slot_key_of_Some E HE _ _ _ Hk) as (_ & _ & ? & _).
    - constructor; [|done]. exists e. split; [by eapply list_elem_of_lookup_2|done]. }
  assert (NoDup ks) as Hks.
  { clear -HE F1 Hnd. induction F1 as [|r k L ks Hk HF IH]; [by apply NoDup_nil_2|].
    apply NoDup_cons in Hnd as [Hr Hnd]. apply NoDup_cons. split; [|by apply IH].
    intros Hin. apply list_elem_of_lookup in Hin as [i Hi]. eapply Forall2_lookup_r in Hi as (r' & Hr' & Hk'); [|exact HF].
    assert (Z.of_nat r = Z.of_nat r') as Heq by (by eapply slot_key_of_inj). apply Hr.
    assert (r = r') as -> by lia. by eapply list_elem_of_lookup_2. }
  exists ks. split; [done|]. split; [done|]. split; [done|]. split; [|done].
  assert (sumZ (slot_weight E s <$> ks) = weight (slot_weight E s) (list_to_set ks)) as Hw.
  { unfold weight. by rewrite elements_list_to_set. }
  rewrite F3, <-Hw. rewrite sat_sum_exact; [lia|lia| |].
  - apply Forall_fmap, Forall_true. intros k. apply slot_weight_nonneg, HE.
  - rewrite Hw. pose proof (slot_total_u64 E HE s).
    pose proof (slot_weight_total E HE s (list_to_set ks)) as Ht. rewrite Forall_forall in F2.
    specialize (Ht ltac:(intros k Hk%elem_of_list_to_set; auto)). lia.
Qed.

Lemma bank_verify_sound bank cert stake total :
  bank_fits E bank -> bank_verify_certificate bank cert = Ok (stake, total) ->
  total = slot_total E (cert_slot (cert_type cert)) /\ exists K, signed_by cert stake K /\
    (is_finalization (cert_type cert) = true -> extract_signers bank cert = Ok K).
Proof using HE.
  intros Hbank. unfold bank_verify_certificate. set (s := cert_slot (cert_type cert)).
  destruct (epoch_stakes_from_slot bank s) as [es|] eqn:Ees; [|done]. pose proof (Hbank _ _ Ees) as Hes.
  destruct (verify_certificate _ _ _) as [st|] eqn:Ev; [|done]. intros [= <- <-].
  split; [unfold slot_total; by rewrite Hes|].
  apply verify_certificate_sound in Ev as (L0 & L1 & e0 & e1 & [V0 V1 V2 V3 V4 V5 V6]).
  destruct (ranks_weight s es (L0 ++ L1) (e0 ++ e1) Hes V1 V2) as (ks & F1 & F2 & F3 & F4 & F5).
  exists (list_to_set ks). split; [|intros Hfin].
  2:{ assert ((get_vote_payloads (cert_type cert)).2 = None) as Hnone by (by destruct (cert_type cert)).
    rewrite Hnone in V6. destruct V6 as (-> & b & Hb & ->). unfold extract_signers. fold s. rewrite Ees, Hb. do 2 f_equal.
    rewrite app_nil_r in F1. clear -F1 Hes. induction F1 as [|r k L ks Hk HF IH]; [done|]. cbn [omap list_omap].
    unfold slot_key_of in Hk. rewrite bool_decide_true in Hk by lia. unfold slot_entries in Hk. rewrite Hes in Hk.
    unfold get_pubkey_stake_entry at 1. rewrite bool_decide_true by lia. rewrite Hk. by rewrite IH. }
  split; fold s.
  - intros k Hk%elem_of_list_to_set. rewrite Forall_forall in F3. auto.
  - intros Hn. apply Forall2_length in F5. destruct ks as [|k ks]; [by destruct (e0 ++ e1)|]. set_solver.
  - by rewrite V4, F4.
  - intros k Hk%elem_of_list_to_set. apply list_elem_of_lookup in Hk as [i Hi].
    destruct (Forall2_lookup_l _ _ _ _ _ F5 Hi) as (e & He & en & Hen & Hk & Hpk).
    apply list_elem_of_lookup_2 in He. apply elem_of_app in He as [He|He].
    + rewrite Forall_forall in V5. specialize (V5 e He). rewrite Hpk in V5.
      exists (get_vote_payloads (cert_type cert)).1. split; [|by exists en].
      unfold cert_votes. destruct (get_vote_payloads (cert_type cert)). by left.
    + unfold cert_votes. destruct (get_vote_payloads (cert_type cert)) as [v [fv|]]; simpl in V6.
      * rewrite Forall_forall in V6. specialize (V6 e He). rewrite Hpk in V6.
        exists fv. split; [by right; left|by exists en].
      * destruct V6 as [-> _]. rewrite app_nil_r in V2. apply Forall2_length in V2. rewrite length_app in V2.
        destruct e1; [by apply elem_of_nil in He|simpl in V2; lia].
Qed.

(** Finalization certificates that verify have a base-2 bitmap. *)
Lemma bank_verify_decodes bank cert r :
  bank_fits E bank -> bank_verify_certificate bank cert = Ok r -> cert_decodes E cert.
Proof.
  intros Hbank. unfold bank_verify_certificate.
  destruct (epoch_stakes_from_slot bank _) as [es|] eqn:Ees; [|done]. pose proof (Hbank _ _ Ees) as Hes.
  destruct (verify_certificate _ _ _) as [st|] eqn:Ev; [|done]. intros _ Hfin es' Hes'.
  assert (es' = es) as -> by congruence.
  apply verify_certificate_sound in Ev as (L0 & L1 & e0 & e1 & [_ _ _ _ _ _ V6]).
  destruct (cert_type cert); simpl in *; try done; destruct V6 as (_ & b & Hb & _); eauto.
Qed.
End signers.
