(* ===== verification/VerifyTheorems.v ===== *)
(** * Theorems about certificate verification

    What a verified certificate proves, that verification never panics, that two
    verified certificates of a slot make the validators that signed both
    accountable, that the certificates of the builder verify with the stake of
    their votes, and the round trip of finalization certificates through block
    footers. *)

From S2P Require Import Prelude.
From S2P Require Import Messages.
From S2P Require Import EpochStakes.
From S2P Require Import CertBuilder.
From S2P Require Import Finalization.
From S2P Require Import PoolVotes.
From S2P Require Import PoolCerts.
From S2P Require Import PoolSafety.
From S2P Require Import PoolOps.
From S2P Require Import PoolTheorems.
From S2P Require Import CertVerify.

Section theorems.
Context `{BlsVerify, !BlsLaws, !BlsVerifyLaws} (E : Slot -> option VersionedEpochStakes) (HE : stakes_ok E).

Lemma signed_by_pos cert stake K : signed_by E cert stake K ->
  0 < stake <= slot_total E (cert_slot (cert_type cert)).
Proof using HE.
  intros [S1 S2 S3 S4]. rewrite S3. split; [|by apply slot_weight_total].
  destruct (set_choose_L K S2) as [k Hk]. destruct (S4 k Hk) as (v & _ & e & He & Hke & _).
  assert (0 < slot_weight E (cert_slot (cert_type cert)) k) as Hw.
  { apply list_elem_of_lookup in He as [i Hi]. 
    assert (slot_key_of E (cert_slot (cert_type cert)) (Z.of_nat i) = Some k) as Hki.
    { unfold slot_key_of. rewrite bool_decide_true, Nat2Z.id, Hi by lia. by rewrite <-Hke. }
    by destruct (slot_key_of_Some E HE _ _ _ Hki) as (_ & _ & _ & ? & _). }
  pose proof (weight_mono _ (slot_weight_nonneg E HE (cert_slot (cert_type cert))) {[k]} K ltac:(set_solver)) as Hm.
  unfold weight in Hm at 1. rewrite elements_singleton in Hm. simpl in Hm. unfold sumZ in Hm. simpl in Hm. lia.
Qed.

(** A certificate whose signers reach the threshold of its type. *)
Definition certified (cert : Certificate) (K : gset Z) : Prop :=
  signed_by E cert (weight (slot_weight E (cert_slot (cert_type cert))) K) K /\
  cert_pct (cert_type cert) * slot_total E (cert_slot (cert_type cert)) <=
  100 * weight (slot_weight E (cert_slot (cert_type cert))) K.

(** The comparisons with a threshold, on stakes of the slot. *)
Lemma threshold_ge s c st :
  0 < st <= slot_total E s ->
  fraction_ge (fraction_new st (slot_total E s)) (limits_and_vote_types c).1 =
  Some (bool_decide (cert_pct c * slot_total E s <= 100 * st)).
Proof using HE.
  intros Hst. rewrite limits_eq. simpl. pose proof (slot_total_u64 E HE s). pose proof (cert_pct_bound c).
  rewrite fraction_ge_spec by (unfold is_u64, u64_max in *; lia). by rewrite (Z.mul_comm st).
Qed.
Lemma threshold_lt s c st :
  0 < st <= slot_total E s ->
  fraction_lt (fraction_new st (slot_total E s)) (limits_and_vote_types c).1 =
  Some (negb (bool_decide (cert_pct c * slot_total E s <= 100 * st))).
Proof using HE.
  intros Hst. rewrite limits_eq. simpl. pose proof (slot_total_u64 E HE s). pose proof (cert_pct_bound c).
  rewrite fraction_lt_spec by (unfold is_u64, u64_max in *; lia). f_equal. rewrite <-bool_decide_not.
  apply bool_decide_ext. lia.
Qed.

(** [verify_cert] returns without panicking, and what it accepts is certified. *)
Lemma verify_cert_spec cert bank :
  bank_fits E bank ->
  exists r, verify_cert cert bank = Some r /\ (r = Ok tt ->
    cert_slot (cert_type cert) <= rb_slot bank +s NUM_SLOTS_FOR_VERIFY /\
    is_Some (epoch_stakes_from_slot bank (cert_slot (cert_type cert))) /\
    cert_decodes E cert /\ exists K, certified cert K).
Proof using HE.
  intros Hbank. unfold verify_cert. case_bool_decide as Hs; [by eexists|].
  destruct (bank_verify_certificate bank cert) as [[st total]|e] eqn:Ev; [|by eexists].
  destruct (bank_verify_sound E HE bank cert st total Hbank Ev) as (-> & K & HK & _).
  pose proof (signed_by_pos _ _ _ HK) as Hpos. rewrite bool_decide_true by lia. cbn [rust_assert mbind option_bind].
  unfold verify_stake. rewrite nonzero_unwrap_Some by lia. cbn [mbind option_bind].
  rewrite threshold_ge by done. cbn [mbind option_bind]. eexists. split; [done|]. case_bool_decide as Hq; [intros _|done].
  pose proof (sb_stake E _ _ _ HK) as Hst. rewrite Hst in HK, Hq.
  split; [lia|]. split; [|split; [|by exists K]].
  - unfold bank_verify_certificate in Ev. by destruct (epoch_stakes_from_slot _ _).
  - by eapply bank_verify_decodes.
Qed.

(** ** Completeness *)

Lemma collect_loop_complete {St A} (note : St -> A -> St) rm l ents : Forall2 (fun r e => rm r = Some e) l ents ->
  forall acc t, collect_loop note rm l acc t = (Ok (acc ++ ents.*2), foldl note t ents.*1).
Proof using Type.
  induction 1 as [|r [st pk] l ents Hr HF IH]; intros acc t; simpl; [by rewrite app_nil_r|].
  rewrite Hr, IH. by rewrite <-app_assoc.
Qed.

Lemma check_signature_complete {S} `{!AsSignatureAffine S} m (sig : S) pks s :
  as_affine sig = Ok (sig_into s) -> pks <> [] -> Forall (fun pk => signed pk m) pks ->
  aggregate_with sig_identity ((fun pk => sig_of pk m) <$> pks) = Ok s ->
  check_signature m sig pks = Ok tt.
Proof using Type.
  intros Hsig Hne Hs Ha. unfold check_signature, verify_as. rewrite Hsig, aggregate_pubkeys_eq.
  destruct (pubkey_aggregate_ok pks Hne) as [agg Hagg]. rewrite Hagg.
  by rewrite (verify_complete pks agg s m Hagg Hs Ha).
Qed.
Lemma verify_distinct_complete m m' pks pks' s :
  pks <> [] -> Forall (fun pk => signed pk m) pks -> Forall (fun pk => signed pk m') pks' ->
  aggregate_with sig_identity (((fun pk => sig_of pk m) <$> pks) ++ ((fun pk => sig_of pk m') <$> pks')) = Ok s ->
  verify_distinct m m' (sig_into s) pks pks' = Ok tt.
Proof using Type.
  intros Hne S1 S2 Ha. rewrite verify_distinct_eq.
  assert (forall x l, Forall (fun pk => signed pk x) l -> Forall2 signed l (replicate (length l) x)) as HF.
  { clear. intros x l. induction 1; simpl; by constructor. }
  assert (forall x l, zip_with sig_of l (replicate (length l) x) = (fun pk => sig_of pk x) <$> l) as Hz.
  { clear. intros x l. induction l; simpl; [done|]. by rewrite IHl. }
  rewrite distinct_complete; [done| |by apply Forall2_app; apply HF|].
  - by destruct pks.
  - rewrite zip_with_app by (by rewrite length_replicate). by rewrite !Hz.
Qed.

(** The signatures the ranks of [l] make for [m]. *)
Definition entry_of `{Inhabited A} (rm : nat -> option (A * Z)) (r : nat) : A * Z := default (inhabitant, 0) (rm r).
Definition rank_sigs `{Inhabited A} (rm : nat -> option (A * Z)) (m : list Z) (l : list nat) : list BLSSignature :=
  (fun r => sig_of (entry_of rm r).2 m) <$> l.
Definition ranks_signed `{Inhabited A} (rm : nat -> option (A * Z)) (m : list Z) (R : gset nat) : Prop :=
  forall r, r ∈ R -> is_Some (rm r) /\ signed (entry_of rm r).2 m.

Lemma bits_elements bits (R : gset nat) : (forall i, bit bits i <-> i ∈ R) -> iter_ones bits ≡ₚ elements R.
Proof using Type.
  intros Hb. apply NoDup_Permutation; [apply iter_ones_NoDup|apply NoDup_elements|].
  intros i. by rewrite elem_of_iter_ones, elem_of_elements.
Qed.
Lemma ranks_collect `{Inhabited A} {St} (note : St -> A -> St) rm m bits (R : gset nat) acc t :
  (forall i, bit bits i <-> i ∈ R) -> ranks_signed rm m R ->
  collect_loop note rm (iter_ones bits) acc t =
    (Ok (acc ++ (entry_of rm <$> iter_ones bits).*2), foldl note t (entry_of rm <$> iter_ones bits).*1) /\
  Forall (fun pk => signed pk m) (entry_of rm <$> iter_ones bits).*2.
Proof using Type.
  intros Hb Hs. assert (Forall (fun r => is_Some (rm r) /\ signed (entry_of rm r).2 m) (iter_ones bits)) as HF.
  { apply Forall_forall. intros r Hr. apply Hs. by apply Hb, elem_of_iter_ones. }
  split.
  - apply collect_loop_complete. apply Forall2_fmap_r, Forall_Forall2_diag.
    eapply Forall_impl; [exact HF|]. intros r [[e He] _]. unfold entry_of. simpl. by rewrite He.
  - rewrite !Forall_fmap. eapply Forall_impl; [exact HF|]. by intros r [_ Hr].
Qed.
Lemma ranks_sigs_pks `{Inhabited A} (rm : nat -> option (A * Z)) m l : (fun pk => sig_of pk m) <$> (entry_of rm <$> l).*2 = rank_sigs rm m l.
Proof using Type. unfold rank_sigs. by rewrite <-!list_fmap_compose. Qed.
Lemma rank_sigs_perm `{Inhabited A} (rm : nat -> option (A * Z)) m l l' : l ≡ₚ l' -> rank_sigs rm m l ≡ₚ rank_sigs rm m l'.
Proof using Type. intros Hl. unfold rank_sigs. by rewrite Hl. Qed.

Lemma verify_single_complete {S} `{!AsSignatureAffine S} `{Inhabited A} {St} (note : St -> A -> St) rm m (sig : S) bits
    (R : gset nat) sigs s t :
  as_affine sig = Ok (sig_into s) -> (forall i, bit bits i <-> i ∈ R) -> ranks_signed rm m R -> R <> ∅ ->
  sigs ≡ₚ rank_sigs rm m (elements R) -> aggregate_with sig_identity sigs = Ok s ->
  verify_single_vote_signature note m sig bits rm t =
  (Ok tt, foldl note t (entry_of rm <$> iter_ones bits).*1).
Proof using Type.
  intros Hsig Hb Hs Hne Hp Ha. unfold verify_single_vote_signature, collect_pubkeys.
  destruct (ranks_collect note rm m bits R [] t Hb Hs) as [-> HF]. simpl. f_equal.
  apply (check_signature_complete m sig _ s); [done| |done|].
  - intros Hn. apply Hne. apply fmap_nil_inv, fmap_nil_inv in Hn. pose proof (bits_elements bits R Hb) as Hbe.
    rewrite Hn in Hbe. apply Permutation_nil_l in Hbe. by apply leibniz_equiv, elements_empty_inv.
  - rewrite ranks_sigs_pks, <-Ha. apply aggregate_perm. rewrite Hp. apply rank_sigs_perm. by apply bits_elements.
Qed.

(** The three ways [verify_base3] checks two groups of keys. *)
Lemma check_groups_complete m m' s e0 e1 :
  e0 ++ e1 <> [] -> Forall (fun pk => signed pk m) e0 -> Forall (fun pk => signed pk m') e1 ->
  aggregate_with sig_identity (((fun pk => sig_of pk m) <$> e0) ++ ((fun pk => sig_of pk m') <$> e1)) = Ok s ->
  (if bool_decide (e0 = []) then check_signature m' (sig_into s) e1
   else if bool_decide (e1 = []) then check_signature m (sig_into s) e0
   else verify_distinct m m' (sig_into s) e0 e1) = Ok tt.
Proof using Type.
  intros Hne F0 F1 Hag. case_bool_decide as D0; [|case_bool_decide as D1].
  - subst e0. by eapply check_signature_complete.
  - subst e1. rewrite app_nil_r in Hag. by eapply check_signature_complete.
  - by apply verify_distinct_complete.
Qed.

(** A certificate with the ranks [R0] and [R1] and their signatures verifies, and
    its stake is the sum over the ranks. *)
Lemma verify_certificate_complete c cert R0 R1 sigs n rm :
  cert_valid c cert R0 R1 sigs -> (forall r, r ∈ R0 ∪ R1 -> (r < n)%nat) -> R0 ∪ R1 <> ∅ ->
  let '(v, fv) := get_vote_payloads c in
  ranks_signed rm (serialize_vote v) R0 ->
  match fv with
  | Some fv => ranks_signed rm (serialize_vote fv) R1 /\
      sigs ≡ₚ rank_sigs rm (serialize_vote v) (elements R0) ++ rank_sigs rm (serialize_vote fv) (elements R1)
  | None => R1 = ∅ /\ sigs ≡ₚ rank_sigs rm (serialize_vote v) (elements R0)
  end ->
  exists l, l ≡ₚ elements R0 ++ elements R1 /\
    verify_certificate cert n rm = Ok (foldl sat_add 0 (entry_of rm <$> l).*1).
Proof using Type.
  intros [V1 (sg & Hagg & Hsig) V3 V4] Hn Hne. destruct (get_vote_payloads c) as [v fv] eqn:Ep. intros S0 Hf.
  unfold verify_certificate. rewrite V1, Ep, Hsig. destruct fv as [fv|].
  - destruct Hf as [S1 Hp]. destruct (V3 n Hn) as (d & Hd & Hdec). unfold verify_base3. rewrite Hd.
    destruct d as [bits|b0 b1]; simpl in Hdec.
    + destruct Hdec as [Hb ->]. rewrite union_empty_r_L in Hne.
      rewrite (verify_single_complete sat_add rm _ _ bits R0 sigs sg); try done.
      * exists (iter_ones bits). split; [|done]. rewrite elements_empty, app_nil_r. by apply bits_elements.
      * rewrite Hp, elements_empty. unfold rank_sigs at 2. simpl. by rewrite app_nil_r.
    + destruct Hdec as [Hb0 Hb1]. unfold collect_pubkeys.
      destruct (ranks_collect sat_add rm _ b0 R0 [] 0 Hb0 S0) as [-> F0]. simpl.
      match goal with |- context [collect_loop _ rm (iter_ones b1) [] ?t] =>
        destruct (ranks_collect sat_add rm _ b1 R1 [] t Hb1 S1) as [-> F1] end. simpl.
      exists (iter_ones b0 ++ iter_ones b1).
      split; [by rewrite (bits_elements b0 R0 Hb0), (bits_elements b1 R1 Hb1)|].
      rewrite !fmap_app, foldl_app.
      set (e0 := (entry_of rm <$> iter_ones b0).*2) in *. set (e1 := (entry_of rm <$> iter_ones b1).*2) in *.
      assert (aggregate_with sig_identity (((fun pk => sig_of pk (serialize_vote v)) <$> e0) ++
        ((fun pk => sig_of pk (serialize_vote fv)) <$> e1)) = Ok sg) as Hag.
      { unfold e0, e1. rewrite !ranks_sigs_pks, <-Hagg. apply aggregate_perm. rewrite Hp.
        by rewrite (rank_sigs_perm _ _ _ _ (bits_elements b0 R0 Hb0)), (rank_sigs_perm _ _ _ _ (bits_elements b1 R1 Hb1)). }
      rewrite check_groups_complete; [done| |done|done|done].
      unfold e0, e1. rewrite <-!fmap_app. intros D%fmap_nil_inv%fmap_nil_inv.
      apply app_eq_nil in D as [D0 D1]. destruct (set_choose_L _ Hne) as [r [Hr|Hr]%elem_of_union].
      * apply Hb0, elem_of_iter_ones in Hr. rewrite D0 in Hr. by apply elem_of_nil in Hr.
      * apply Hb1, elem_of_iter_ones in Hr. rewrite D1 in Hr. by apply elem_of_nil in Hr.
  - destruct Hf as [-> Hp]. rewrite union_empty_r_L in Hne, Hn. destruct (V4 n eq_refl Hn) as (bits & Hd & Hb).
    unfold verify_base2. rewrite Hd. rewrite (verify_single_complete sat_add rm _ _ bits R0 sigs sg); try done.
    exists (iter_ones bits). split; [|done]. rewrite elements_empty, app_nil_r. by apply bits_elements.
Qed.

(** ** From votes to a verified certificate *)

(** Votes for [v] of distinct ranked validators, signed with their keys. *)
Record honest_votes (v : Vote) (msgs : list VoteMessage) : Prop := {
  hv_vote : Forall (fun m => vm_vote m = v) msgs;
  hv_ranks : NoDup (ranks msgs);
  hv_entry : Forall (fun m => sig_valid (vm_signature m) /\ exists e,
    slot_entries E (vote_slot v) !! Z.to_nat (vm_rank m) = Some e /\
    signed (en_bls_pubkey e) (serialize_vote v) /\
    vm_signature m = sig_of (en_bls_pubkey e) (serialize_vote v)) msgs;
}.
Definition msgs_keys (s : Slot) (msgs : list VoteMessage) : gset Z :=
  list_to_set (omap (fun r => slot_key_of E s (Z.of_nat r)) (ranks msgs)).

(** The builder as [update_certificates] drives it, one group per vote type. *)
Fixpoint aggregate_groups (b : CertificateBuilder) (groups : list (list VoteMessage))
    : option (result AggregateError CertificateBuilder) :=
  match groups with
  | [] => Some (Ok b)
  | msgs :: groups =>
    r ← certificate_builder_aggregate b msgs;
    match r with Ok b => aggregate_groups b groups | Err e => Some (Err e) end
  end.

Lemma slot_entries_bound s i e : slot_entries E s !! i = Some e -> (i < MAXIMUM_VALIDATORS)%nat.
Proof using HE.
  unfold slot_entries. destruct (E s) as [es|] eqn:Es; [|done]. destruct (HE s es Es) as (_ & Hl & _).
  intros Hi%lookup_lt_Some. lia.
Qed.
Lemma honest_msgs_ok v msgs : honest_votes v msgs -> msgs_ok (get_type v) msgs.
Proof using HE.
  intros [H1' H2' H3']. split.
  - eapply Forall_impl; [exact H1'|]. by intros m ->.
  - done.
  - unfold ranks. apply Forall_fmap. eapply Forall_impl; [exact H3'|]. intros m (_ & e & He & _).
    by eapply slot_entries_bound.
  - eapply Forall_impl; [exact H3'|]. by intros m [? _].
Qed.

Lemma honest_rank_entry v msgs es r :
  E (vote_slot v) = Some es -> honest_votes v msgs -> r ∈ rank_set msgs ->
  exists e, slot_entries E (vote_slot v) !! r = Some e /\
    rank_lookup (es_rank_map es) r = Some (en_stake e, en_bls_pubkey e) /\
    signed (en_bls_pubkey e) (serialize_vote v).
Proof using Type.
  intros Hes [H1' H2' H3'] Hr. apply elem_of_list_to_set, list_elem_of_fmap in Hr as (m & -> & Hm).
  rewrite Forall_forall in H3'. destruct (H3' m Hm) as (_ & e & He & Hs & _). exists e. split; [done|]. split; [|done].
  unfold rank_lookup, get_pubkey_stake_entry. rewrite bool_decide_true, Nat2Z.id by lia.
  unfold slot_entries in He. rewrite Hes in He. by rewrite He.
Qed.
Lemma honest_ranks_signed v msgs es :
  E (vote_slot v) = Some es -> honest_votes v msgs ->
  ranks_signed (rank_lookup (es_rank_map es)) (serialize_vote v) (rank_set msgs).
Proof using Type.
  intros Hes Hh r Hr. destruct (honest_rank_entry v msgs es r Hes Hh Hr) as (e & _ & Hl & Hs).
  unfold entry_of. rewrite Hl. eauto.
Qed.
Lemma honest_sigs v msgs es :
  E (vote_slot v) = Some es -> honest_votes v msgs ->
  vm_signature <$> msgs ≡ₚ rank_sigs (rank_lookup (es_rank_map es)) (serialize_vote v) (elements (rank_set msgs)).
Proof using Type.
  intros Hes Hh. unfold rank_set.
  etransitivity; [|apply rank_sigs_perm; symmetry; apply elements_list_to_set, Hh]. unfold rank_sigs, ranks.
  rewrite <-list_fmap_compose. apply Permutation_refl', list_fmap_ext. intros i m Hm%list_elem_of_lookup_2. simpl.
  destruct (honest_rank_entry v msgs es (Z.to_nat (vm_rank m)) Hes Hh) as (e & He & Hl & _).
  { apply elem_of_list_to_set, list_elem_of_fmap. by exists m. }
  destruct Hh as [_ _ H3']. rewrite Forall_forall in H3'. destruct (H3' m Hm) as (_ & e' & He' & _ & ->).
  assert (e' = e) as -> by congruence. unfold entry_of. by rewrite Hl.
Qed.

(** The ranks of honest votes, as validators. *)
Lemma honest_keys s msgs0 msgs1 l ks :
  l ≡ₚ elements (rank_set msgs0) ++ elements (rank_set msgs1) ->
  Forall2 (fun r k => slot_key_of E s (Z.of_nat r) = Some k) l ks ->
  list_to_set ks = msgs_keys s (msgs0 ++ msgs1).
Proof using Type.
  intros Hl HF. apply set_eq. intros k. unfold msgs_keys. rewrite !elem_of_list_to_set, list_elem_of_omap.
  assert (forall r, r ∈ l <-> r ∈ ranks (msgs0 ++ msgs1)) as Hr.
  { intros r. rewrite Hl, elem_of_app, !elem_of_elements. unfold rank_set, ranks. rewrite fmap_app, elem_of_app.
    by rewrite !elem_of_list_to_set. }
  setoid_rewrite <-Hr. split.
  - intros Hk. apply list_elem_of_lookup in Hk as [i Hi].
    destruct (Forall2_lookup_r _ _ _ _ _ HF Hi) as (r & Hri & Hk). exists r. split; [by eapply list_elem_of_lookup_2|done].
  - intros (r & Hri & Hk). apply list_elem_of_lookup in Hri as [i Hi].
    destruct (Forall2_lookup_l _ _ _ _ _ HF Hi) as (k' & Hk' & Hkk).
    assert (k' = k) as -> by congruence. by eapply list_elem_of_lookup_2.
Qed.

Lemma ranks_stake s es msgs0 msgs1 l :
  E s = Some es -> l ≡ₚ elements (rank_set msgs0) ++ elements (rank_set msgs1) ->
  rank_set msgs0 ## rank_set msgs1 -> (forall r, r ∈ l -> is_Some (rank_lookup (es_rank_map es) r)) ->
  foldl sat_add 0 (entry_of (rank_lookup (es_rank_map es)) <$> l).*1 =
  weight (slot_weight E s) (msgs_keys s (msgs0 ++ msgs1)).
Proof using HE.
  intros Hes Hl Hd Hsome.
  destruct (ranks_weight E HE s es l (entry_of (rank_lookup (es_rank_map es)) <$> l)) as (ks & F1 & _ & _ & F4 & _); [done| | |].
  - rewrite Hl. apply NoDup_app. split; [apply NoDup_elements|]. split; [|apply NoDup_elements].
    intros r Hr Hr'. apply elem_of_elements in Hr, Hr'. by apply (Hd r).
  - apply Forall2_fmap_r, Forall_Forall2_diag, Forall_forall. intros r Hr. simpl.
    destruct (Hsome r Hr) as [e He]. unfold entry_of. by rewrite He.
  - by rewrite F4, (honest_keys s msgs0 msgs1 l ks).
Qed.

(** The groups of votes of a certificate: its first vote, and its fallback vote
    where it has one, of different validators. *)
Definition honest_groups (c : CertificateType) (msgs0 msgs1 : list VoteMessage) : Prop :=
  honest_votes (get_vote_payloads c).1 msgs0 /\
  match (get_vote_payloads c).2 with Some fv => honest_votes fv msgs1 | None => msgs1 = [] end /\
  rank_set msgs0 ## rank_set msgs1 /\ msgs0 ++ msgs1 <> [].
Definition vote_groups (c : CertificateType) (msgs0 msgs1 : list VoteMessage) : list (list VoteMessage) :=
  match (get_vote_payloads c).2 with Some _ => [msgs0; msgs1] | None => [msgs0] end.

Lemma payload_slots c : vote_slot (get_vote_payloads c).1 = cert_slot c /\
  forall fv, (get_vote_payloads c).2 = Some fv -> vote_slot fv = cert_slot c.
Proof using Type. destruct c; simpl; split; try done; naive_solver. Qed.

Lemma groups_entry c msgs0 msgs1 es r :
  E (cert_slot c) = Some es -> honest_groups c msgs0 msgs1 -> r ∈ rank_set msgs0 ∪ rank_set msgs1 ->
  exists e, slot_entries E (cert_slot c) !! r = Some e /\
    rank_lookup (es_rank_map es) r = Some (en_stake e, en_bls_pubkey e).
Proof using Type.
  destruct (payload_slots c) as [Hs0 Hs1]. intros Hes (H0' & H1' & _ & _) [Hr|Hr]%elem_of_union.
  - destruct (honest_rank_entry _ msgs0 es r ltac:(by rewrite Hs0) H0' Hr) as (e & He & Hl & _).
    rewrite Hs0 in He. eauto.
  - destruct (get_vote_payloads c).2 as [fv|]; [|subst msgs1; by apply elem_of_empty in Hr].
    destruct (honest_rank_entry _ msgs1 es r ltac:(by rewrite (Hs1 _ eq_refl)) H1' Hr) as (e & He & Hl & _).
    rewrite (Hs1 _ eq_refl) in He. eauto.
Qed.

Lemma groups_nonempty c msgs0 msgs1 : honest_groups c msgs0 msgs1 -> rank_set msgs0 ∪ rank_set msgs1 <> ∅.
Proof using HE.
  intros (_ & _ & _ & Hne) Hemp. destruct msgs0 as [|m msgs0]; [destruct msgs1 as [|m msgs1]; [done|]|].
  - pose proof (rank_set_nonempty m msgs1). set_solver.
  - pose proof (rank_set_nonempty m msgs0). set_solver.
Qed.

(** The certificate of the votes in the pool's groups verifies with their weight. *)
Lemma bank_verify_complete bank es c cert msgs0 msgs1 :
  epoch_stakes_from_slot bank (cert_slot c) = Some es -> bank_fits E bank -> honest_groups c msgs0 msgs1 ->
  cert_valid c cert (rank_set msgs0) (rank_set msgs1) (vm_signature <$> (msgs0 ++ msgs1)) ->
  bank_verify_certificate bank cert =
    Ok (weight (slot_weight E (cert_slot c)) (msgs_keys (cert_slot c) (msgs0 ++ msgs1)), slot_total E (cert_slot c)).
Proof using HE.
  intros Hes Hbank Hg Hv. pose proof (Hbank _ _ Hes) as HEs. destruct (HE _ _ HEs) as (_ & _ & Hlen).
  pose proof (fun r => groups_entry c msgs0 msgs1 es r HEs Hg) as Hent.
  destruct (payload_slots c) as [Hs0 Hs1]. pose proof Hg as (Hh0 & Hh1 & Hd & _).
  pose proof (verify_certificate_complete c cert _ _ _ (rank_map_len (es_rank_map es)) (rank_lookup (es_rank_map es)) Hv) as Hcomp.
  destruct (get_vote_payloads c) as [v fv]. simpl in Hh0, Hh1, Hs0, Hs1. destruct Hcomp as (l & Hl & Hver).
  - intros r Hr. destruct (Hent r Hr) as (e & He & _). unfold slot_entries, rank_map_len in *. rewrite HEs in He.
    rewrite Hlen. by apply lookup_lt_Some in He.
  - by eapply groups_nonempty.
  - apply honest_ranks_signed; [by rewrite Hs0|done].
  - rewrite fmap_app. destruct fv as [x|].
    + specialize (Hs1 x eq_refl). split; [apply honest_ranks_signed; [by rewrite Hs1|done]|].
      by rewrite (honest_sigs v msgs0 es), (honest_sigs x msgs1 es) by (rewrite ?Hs0, ?Hs1; done).
    + subst msgs1. split; [done|]. rewrite app_nil_r. apply honest_sigs; [by rewrite Hs0|done].
  - unfold bank_verify_certificate. rewrite (cv_type _ _ _ _ _ Hv), Hes, Hver. f_equal. f_equal;
      [|unfold slot_total; by rewrite HEs].
    apply ranks_stake; [done|done|done|]. intros r Hr. rewrite Hl, elem_of_app, !elem_of_elements in Hr.
    destruct (Hent r) as (e & _ & ->); [by apply elem_of_union|]. eauto.
Qed.

Lemma built_cert_valid c msgs0 msgs1 :
  honest_groups c msgs0 msgs1 ->
  exists b cert, aggregate_groups (certificate_builder_new c) (vote_groups c msgs0 msgs1) = Some (Ok b) /\
    certificate_builder_build b = Ok cert /\
    cert_valid c cert (rank_set msgs0) (rank_set msgs1) (vm_signature <$> (msgs0 ++ msgs1)).
Proof using HE.
  intros (Hh0 & Hh1 & Hd & _). apply honest_msgs_ok in Hh0.
  assert (forall t, (get_vote_payloads c).2 = None -> builder_type_new c = SingleVote sig_identity default_bitvec ->
    (limits_and_vote_types c).2 = [t] -> msgs_ok t msgs0 ->
    exists b cert, aggregate_groups (certificate_builder_new c) [msgs0] = Some (Ok b) /\
      certificate_builder_build b = Ok cert /\
      cert_valid c cert (rank_set msgs0) (rank_set msgs1) (vm_signature <$> (msgs0 ++ msgs1))) as Hsingle.
  { intros t Hn Hnew Ht Hok. rewrite Hn in Hh1. subst msgs1.
    destruct (builder_single_ok c t msgs0 Hnew Ht Hok) as (b & cert & Ha & Hb & Hv).
    exists b, cert. cbn [aggregate_groups]. rewrite Ha. rewrite app_nil_r. done. }
  unfold vote_groups. destruct c as [s|s b|s b|s b|s|s b]; simpl in Hh0, Hh1 |- *;
    try (by apply (Hsingle TNotarize)); try (by apply (Hsingle TFinalize)); try (by apply (Hsingle TGenesis));
    apply honest_msgs_ok in Hh1.
  - destruct (builder_notar_fallback_ok s b msgs0 msgs1 Hh0 Hh1 Hd) as (b0 & b1 & cert & A0 & A1 & B & V).
    exists b1, cert. rewrite A0. cbn [mbind option_bind]. rewrite A1. done.
  - destruct (builder_skip_ok s msgs0 msgs1 Hh0 Hh1 Hd) as (b0 & b1 & cert & A0 & A1 & B & V).
    exists b1, cert. rewrite A0. cbn [mbind option_bind]. rewrite A1. done.
Qed.

(** ** Block footers *)

Lemma check_percent_spec c st s :
  0 < st <= slot_total E s ->
  exists r, check_percent c st (slot_total E s) = Some r /\
    (r = Ok tt <-> cert_pct c * slot_total E s <= 100 * st).
Proof using HE.
  intros Hst. unfold check_percent. rewrite nonzero_unwrap_Some by lia. cbn [mbind option_bind].
  rewrite threshold_lt by done. cbn [mbind option_bind]. eexists. split; [done|]. case_bool_decide; simpl; naive_solver.
Qed.

Lemma footer_verify_sound bank cert st total :
  bank_fits E bank -> footer_verify_certificate bank cert = Ok (st, total) ->
  total = slot_total E (cert_slot (cert_type cert)) /\ 0 < st <= total /\
  exists K, signed_by E cert st K /\ (is_finalization (cert_type cert) = true -> extract_signers bank cert = Ok K).
Proof using HE.
  intros Hbank. unfold footer_verify_certificate. destruct (bank_verify_certificate bank cert) as [r|] eqn:Ev; [|done].
  intros [= ->]. destruct (bank_verify_sound E HE bank cert st total Hbank Ev) as (-> & K & HK & Hx).
  split; [done|]. split; [by eapply signed_by_pos|]. eauto.
Qed.
Lemma signed_certified cert st K :
  signed_by E cert st K -> cert_pct (cert_type cert) * slot_total E (cert_slot (cert_type cert)) <= 100 * st ->
  certified cert K.
Proof using Type. intros HK Hq. pose proof (sb_stake E _ _ _ HK) as Hst. subst st. by split. Qed.

(** What a footer proves: the certificates of its kind, certified, and the signers
    of the finalization. *)
Definition footer_proves (fc : FinalCertificate) (f : ValidatedBlockFinalizationCert) : Prop :=
  match fc_kind f with
  | KFinalize fin nota =>
    cert_type fin = CFinalize (fin_slot fc) /\ cert_type nota = CNotarize (fin_slot fc) (fin_block_id fc) /\
    certified fin (fc_signers f) /\ exists K, certified nota K
  | KFastFinalize cert =>
    cert_type cert = CFinalizeFast (fin_slot fc) (fin_block_id fc) /\ certified cert (fc_signers f)
  end.

Lemma certificate_of_type c a cert : certificate_of c a = Ok cert -> cert_type cert = c.
Proof using Type. unfold certificate_of. destruct (uncompress_signature a); [by intros [= <-]|done]. Qed.

Lemma try_from_footer_spec fc bank :
  bank_fits E bank ->
  exists r, try_from_footer fc bank = Some r /\ forall f, r = Ok f -> footer_proves fc f.
Proof using HE.
  intros Hbank. unfold try_from_footer. destruct (notar_aggregate fc) as [na|].
  - destruct (certificate_of (CNotarize _ _) na) as [nc|] eqn:En; [|by eexists].
    destruct (certificate_of (CFinalize _) _) as [fin|] eqn:Ef; [|by eexists].
    apply certificate_of_type in En, Ef.
    destruct (footer_verify_certificate bank nc) as [[nst ntot]|] eqn:Evn; [|by eexists].
    destruct (footer_verify_certificate bank fin) as [[fst' ftot]|] eqn:Evf; [|by eexists].
    apply footer_verify_sound in Evn as (-> & Hn & Kn & HKn & _); [|done].
    apply footer_verify_sound in Evf as (-> & Hf & Kf & HKf & Hx); [|done]. rewrite En, Ef in *. cbn [cert_slot] in *.
    destruct (check_percent_spec (CNotarize (fin_slot fc) (fin_block_id fc)) nst (fin_slot fc) Hn) as (rn & -> & Hrn).
    cbn [mbind option_bind]. destruct rn as [[]|]; [|by eexists].
    destruct (check_percent_spec (CFinalize (fin_slot fc)) fst' (fin_slot fc) Hf) as (rf & -> & Hrf).
    cbn [mbind option_bind]. destruct rf as [[]|]; [|by eexists].
    eexists. split; [done|]. unfold finish_footer. rewrite (Hx eq_refl). intros f [= <-]. unfold footer_proves. simpl.
    split; [done|]. split; [done|]. split; [|exists Kn]; eapply signed_certified; rewrite ?En, ?Ef; try done;
      [by apply Hrf|by apply Hrn].
  - destruct (certificate_of (CFinalizeFast _ _) _) as [cert|] eqn:Ec; [|by eexists]. apply certificate_of_type in Ec.
    destruct (footer_verify_certificate bank cert) as [[st tot]|] eqn:Ev; [|by eexists].
    apply footer_verify_sound in Ev as (-> & Hst & K & HK & Hx); [|done]. rewrite Ec in *. cbn [cert_slot] in *.
    destruct (check_percent_spec (CFinalizeFast (fin_slot fc) (fin_block_id fc)) st (fin_slot fc) Hst) as (r & -> & Hr).
    cbn [mbind option_bind]. destruct r as [[]|]; [|by eexists].
    eexists. split; [done|]. unfold finish_footer. rewrite (Hx eq_refl). intros f [= <-]. unfold footer_proves. simpl.
    split; [done|]. eapply signed_certified; rewrite ?Ec; [done|]. by apply Hr.
Qed.

(** A certificate that a footer accepts. *)
Definition accepted (bank : RootBank) (cert : Certificate) : Prop :=
  exists st, bank_verify_certificate bank cert = Ok (st, slot_total E (cert_slot (cert_type cert))) /\
    cert_pct (cert_type cert) * slot_total E (cert_slot (cert_type cert)) <= 100 * st.

Lemma from_certificate_of cert a : from_certificate cert = Some a -> certificate_of (cert_type cert) a = Ok cert.
Proof.
  unfold from_certificate. destruct (signature_compress _) as [z|] eqn:Ez; [|done]. intros [= <-].
  unfold certificate_of, uncompress_signature. simpl. rewrite (compress_uncompress _ _ Ez). by destruct cert.
Qed.
Lemma accepted_footer bank cert :
  bank_fits E bank -> accepted bank cert -> is_finalization (cert_type cert) = true \/ is_notarize (cert_type cert) = true ->
  exists st, footer_verify_certificate bank cert = Ok (st, slot_total E (cert_slot (cert_type cert))) /\
    check_percent (cert_type cert) st (slot_total E (cert_slot (cert_type cert))) = Some (Ok tt) /\
    (is_finalization (cert_type cert) = true -> exists K, extract_signers bank cert = Ok K).
Proof.
  intros Hbank (st & Hv & Hq) _. assert (footer_verify_certificate bank cert = Ok (st, slot_total E (cert_slot (cert_type cert)))) as Hf
    by (unfold footer_verify_certificate; by rewrite Hv).
  destruct (footer_verify_sound bank cert st _ Hbank Hf) as (_ & Hst & K & HK & Hx).
  destruct (check_percent_spec (cert_type cert) st (cert_slot (cert_type cert)) Hst) as (r & Hr & Hiff).
  exists st. split; [done|]. split; [|eauto]. rewrite Hr. f_equal. by apply Hiff.
Qed.

Lemma footer_round_trip_aux f fc bank :
  bank_fits E bank -> finalization_ok f -> to_final_certificate f = Some fc ->
  match fc_kind f with
  | KFinalize fin nota => accepted bank fin /\ accepted bank nota
  | KFastFinalize cert => accepted bank cert
  end ->
  exists signers, try_from_footer fc bank = Some (Ok (mkFinalization (fc_kind f) signers)).
Proof.
  intros Hbank Hok Hto Hacc. unfold finalization_ok in Hok. unfold to_final_certificate in Hto.
  destruct (fc_kind f) as [fin nota|cert].
  - destruct Hok as (s & b & Hfin & Hnota), Hacc as [Af An]. rewrite Hnota, Hfin in Hto. cbn [to_block mbind option_bind cert_slot] in Hto.
    destruct (from_certificate fin) as [fa|] eqn:Ef; [|done]. destruct (from_certificate nota) as [na|] eqn:En; [|done].
    cbn [mbind option_bind] in Hto. injection Hto as <-. apply from_certificate_of in Ef, En. rewrite Hfin in Ef. rewrite Hnota in En.
    destruct (accepted_footer bank fin Hbank Af) as (fst' & Vf & Pf & Sf); [left; by rewrite Hfin|].
    destruct (accepted_footer bank nota Hbank An) as (nst & Vn & Pn & _); [right; by rewrite Hnota|].
    rewrite Hfin in Pf, Sf. rewrite Hnota in Pn. destruct (Sf eq_refl) as [K HK]. exists K.
    unfold try_from_footer. simpl. rewrite En, Ef, Vn, Vf, Hnota. simpl in Pn, Pf |- *. rewrite Pn. cbn [mbind option_bind].
    rewrite Pf. cbn [mbind option_bind]. unfold finish_footer. by rewrite HK.
  - destruct Hok as (s & b & Hc). rewrite Hc in Hto. cbn [to_block mbind option_bind] in Hto.
    destruct (from_certificate cert) as [fa|] eqn:Ef; [|done]. cbn [mbind option_bind] in Hto. injection Hto as <-.
    apply from_certificate_of in Ef. rewrite Hc in Ef.
    destruct (accepted_footer bank cert Hbank Hacc) as (st & V & P & Sg); [left; by rewrite Hc|].
    rewrite Hc in P, Sg. destruct (Sg eq_refl) as [K HK]. exists K. unfold try_from_footer. simpl. rewrite Ef, V, Hc.
    simpl in P |- *. rewrite P. cbn [mbind option_bind]. unfold finish_footer. by rewrite HK.
Qed.
End theorems.

(** ** A concrete verifier

    Signatures of the three validators of [Example3], whose BLS keys are 101, 102
    and 103: the first two sign everything, the third only skip votes. *)
Module VerifyExample.
#[export] Existing Instance additive_bls.
#[export] Existing Instance additive_bls_laws.

Definition serialize (v : Vote) : list Z :=
  match v with
  | Notarize s b => [0; s; b] | Finalize s => [1; s] | Skip s => [2; s]
  | NotarizeFallback s b => [3; s; b] | SkipFallback s => [4; s] | Genesis s b => [5; s; b]
  end.
Definition sign (pk : Z) (m : list Z) : Z := pk + sumZ m.

(** The verifier when [signs] tells who signs what. *)
Section oracle.
Context (signs : Z -> list Z -> bool).

Definition all_sign (pks : list Z) (ms : list (list Z)) : result unit unit :=
  if forallb (fun p => signs p.1 p.2) (zip pks ms) then Ok tt else Err tt.

Definition sign_oracle : BlsVerify := {|
  AggregatePubkey := list Z;
  wincode_serialize := serialize;
  current_num_threads := 8%nat;
  pubkey_aggregate l := if bool_decide (l = []) then Err tt else Ok l;
  pubkey_par_aggregate l := if bool_decide (l = []) then Err tt else Ok l;
  verify_signature agg _ m := all_sign agg (replicate (length agg) m);
  verify_distinct_aggregated pks _ ms := all_sign pks ms;
  par_verify_distinct_aggregated pks _ ms := all_sign pks ms;
  signature_compress s := Some s;
  signature_uncompress z := Ok z;
|}.

Lemma all_sign_iff pks ms : length pks = length ms ->
  all_sign pks ms = Ok tt <-> Forall2 (fun pk m => signs pk m = true) pks ms.
Proof.
  unfold all_sign. revert ms. induction pks as [|pk pks IH]; intros [|m ms] Hl; try done; simpl.
  injection Hl as Hl. rewrite Forall2_cons, <-(IH ms Hl). by destruct (signs pk m), (forallb _ _); naive_solver.
Qed.
Lemma Forall2_replicate_iff pks m :
  Forall2 (fun pk m => signs pk m = true) pks (replicate (length pks) m) <-> Forall (fun pk => signs pk m = true) pks.
Proof.
  induction pks; simpl; [split; constructor|]. by rewrite Forall2_cons, Forall_cons, IHpks.
Qed.

Definition sign_oracle_laws : @BlsVerifyLaws _ sign_oracle.
Proof.
  refine {| signed := fun pk m => signs pk m = true; sig_of := sign |}; simpl; try done.
  - intros [] [] Heq; simpl in Heq; congruence.
  - intros bytes n b0 b1. destruct bytes as [|tag l]; [done|]. case_bool_decide; [|done]. case_bool_decide; [done|].
    intros [= <- <-] i [B0 B1]. unfold bit in *. rewrite list_lookup_fmap in B0, B1.
    destruct (l !! i) as [x|]; simpl in *; [|done]. injection B0 as B0. injection B1 as B1.
    pose proof (hi_lo_disjoint x) as Hx. by rewrite B0, B1 in Hx.
  - intros pks agg sig m. case_bool_decide; [done|]. intros [= <-]. rewrite all_sign_iff by (by rewrite length_replicate).
    by rewrite Forall2_replicate_iff.
  - intros pks sig ms Hl. by rewrite all_sign_iff.
  - intros s z [= <-]. done.
  - intros s l l' Hp. f_equal. f_equal. by apply sumZ_perm.
  - by exists tt.
  - intros pks Hne. rewrite bool_decide_false by done. eauto.
  - intros pks agg s m. case_bool_decide; [done|]. intros [= <-] HF _.
    rewrite all_sign_iff by (by rewrite length_replicate). by rewrite Forall2_replicate_iff.
  - intros pks ms s _ HF _. rewrite all_sign_iff; [done|]. by eapply Forall2_length.
Defined.
End oracle.

Definition signs (pk : Z) (m : list Z) : bool :=
  bool_decide (pk = 101) || bool_decide (pk = 102) || (bool_decide (pk = 103) && bool_decide (head m = Some 2)).
#[export] Instance oracle : BlsVerify := sign_oracle signs.
#[export] Instance oracle_laws : BlsVerifyLaws := sign_oracle_laws signs.
End VerifyExample.

(** ** Properties *)

#[local] Existing Instance additive_bls.
#[local] Existing Instance additive_bls_laws.
#[local] Existing Instance VerifyExample.oracle.
#[local] Existing Instance VerifyExample.oracle_laws.

(** The certificate verifier never panics, and a certificate it accepts is not
    too far in the future, decodes, is of a known epoch, and was signed by
    validators that hold the threshold of its type, each with a vote the
    certificate stands for. *)
Theorem verify_cert_certifies `{BlsVerify, !BlsVerifyLaws} E cert bank
    (HE : stakes_ok E) (Hbank : bank_fits E bank) :
  exists r, verify_cert cert bank = Some r /\ (r = Ok tt ->
    cert_slot (cert_type cert) <= rb_slot bank +s NUM_SLOTS_FOR_VERIFY /\
    is_Some (epoch_stakes_from_slot bank (cert_slot (cert_type cert))) /\
    cert_decodes E cert /\ exists K, certified E cert K).
Proof. by apply verify_cert_spec. Qed.
Lemma verify_cert_certifies_witness :
  let cert := mkCertificate (CNotarizeFallback 5 7) 0 [1; 2; 1] in
  verify_cert cert Example3.bank = Some (Ok tt) /\ exists K, certified Example3.E cert K.
Proof.
  intros cert. split; [by vm_compute|].
  destruct (verify_cert_certifies Example3.E cert Example3.bank Example3.stakes_ok_E Example3.bank_fits_E) as (r & Hr & Hok).
  apply Hok. assert (verify_cert cert Example3.bank = Some (Ok tt)) as Hv by (by vm_compute).
  rewrite Hr in Hv. by injection Hv.
Defined.

(** C9: Accountability: when two certificates of one slot are accepted, by any two
    nodes, validators with the overlap of their thresholds have signed a vote for
    each of them.  Two certificates that exclude each other prove that at least 20%
    of the stake voted against the rules. *)
Theorem verified_certs_accountable `{BlsVerify, !BlsVerifyLaws} E cert1 bank1 cert2 bank2
    (HE : stakes_ok E) (Hbank1 : bank_fits E bank1) (Hbank2 : bank_fits E bank2)
    (Hv1 : verify_cert cert1 bank1 = Some (Ok tt)) (Hv2 : verify_cert cert2 bank2 = Some (Ok tt))
    (Hslot : cert_slot (cert_type cert1) = cert_slot (cert_type cert2)) :
  let s := cert_slot (cert_type cert1) in
  exists X : gset Z,
    (cert_pct (cert_type cert1) + cert_pct (cert_type cert2) - 100) * slot_total E s <= 100 * weight (slot_weight E s) X /\
    forall k, k ∈ X -> (exists v, v ∈ cert_votes (cert_type cert1) /\ signed_vote E s k v) /\
                      (exists v, v ∈ cert_votes (cert_type cert2) /\ signed_vote E s k v).
Proof.
  intros s. destruct (verify_cert_spec E HE cert1 bank1 Hbank1) as (r1 & Hr1 & Hk1).
  destruct (verify_cert_spec E HE cert2 bank2 Hbank2) as (r2 & Hr2 & Hk2).
  destruct Hk1 as (_ & _ & _ & K1 & [S1a S1b S1c S1d] & Q1); [congruence|].
  destruct Hk2 as (_ & _ & _ & K2 & [S2a S2b S2c S2d] & Q2); [congruence|].
  rewrite <-Hslot in *. fold s in S1a, S1d, Q1, S2a, S2d, Q2.
  exists (K1 ∩ K2). split; [|intros k [Hk1 Hk2]%elem_of_intersection; split; auto].
  pose proof (weight_inter (slot_weight E s) K1 K2).
  pose proof (slot_weight_total E HE s (K1 ∪ K2) (union_least _ _ _ S1a S2a)). lia.
Qed.
Lemma verified_certs_accountable_witness :
  exists X : gset Z, 20 * slot_total Example3.E 5 <= 100 * weight (slot_weight Example3.E 5) X /\
    forall k, k ∈ X -> (exists v, v ∈ [Notarize 5 7] /\ signed_vote Example3.E 5 k v) /\
                      (exists v, v ∈ [Notarize 5 8] /\ signed_vote Example3.E 5 k v).
Proof.
  set (c1 := mkCertificate (CNotarize 5 7) 0 [0; 2; 2]). set (c2 := mkCertificate (CNotarize 5 8) 0 [0; 2; 2]).
  assert (verify_cert c1 Example3.bank = Some (Ok tt)) as V1 by (vm_compute; reflexivity).
  assert (verify_cert c2 Example3.bank = Some (Ok tt)) as V2 by (vm_compute; reflexivity).
  destruct (verified_certs_accountable Example3.E c1 Example3.bank c2 Example3.bank Example3.stakes_ok_E
    Example3.bank_fits_E Example3.bank_fits_E V1 V2 eq_refl) as (X & HX & Hk).
  change (cert_pct (cert_type c1) + cert_pct (cert_type c2) - 100) with 20 in HX.
  exists X. split; [exact HX|exact Hk].
Defined.

(** C13: From votes to certificate and back: the builder makes a certificate of any
    votes signed by distinct ranked validators, and the bank verifies it and finds
    exactly the stake of the validators that voted. *)
Theorem built_cert_verifies `{BlsVerify, !BlsLaws, !BlsVerifyLaws} E bank es c msgs0 msgs1
    (HE : stakes_ok E) (Hbank : bank_fits E bank) (Hes : epoch_stakes_from_slot bank (cert_slot c) = Some es)
    (Hg : honest_groups E c msgs0 msgs1) :
  exists b cert, aggregate_groups (certificate_builder_new c) (vote_groups c msgs0 msgs1) = Some (Ok b) /\
    certificate_builder_build b = Ok cert /\ cert_type cert = c /\
    bank_verify_certificate bank cert =
      Ok (weight (slot_weight E (cert_slot c)) (msgs_keys E (cert_slot c) (msgs0 ++ msgs1)), slot_total E (cert_slot c)).
Proof.
  destruct (built_cert_valid E HE c msgs0 msgs1 Hg) as (b & cert & Ha & Hb & Hv).
  exists b, cert. split; [done|]. split; [done|]. split; [apply Hv|].
  by apply (bank_verify_complete E HE bank es c cert msgs0 msgs1).
Qed.
Lemma built_cert_verifies_witness :
  let msgs0 := [mkVoteMessage (Notarize 5 7) 113 0] in
  let msgs1 := [mkVoteMessage (NotarizeFallback 5 7) 117 1] in
  exists b cert, aggregate_groups (certificate_builder_new (CNotarizeFallback 5 7)) [msgs0; msgs1] = Some (Ok b) /\
    certificate_builder_build b = Ok cert /\ bank_verify_certificate Example3.bank cert = Ok (75, 100).
Proof.
  intros msgs0 msgs1.
  destruct (built_cert_verifies Example3.E Example3.bank Example3.stakes (CNotarizeFallback 5 7) msgs0 msgs1
    Example3.stakes_ok_E Example3.bank_fits_E) as (b & cert & Ha & Hb & _ & Hv); [by vm_compute| |].
  - split; [|split; [|split; [|done]]].
    + split; [by repeat constructor|apply (bool_decide_unpack _); by vm_compute|].
      constructor; [|constructor]. split; [done|]. eexists. split; [by vm_compute|]. split; by vm_compute.
    + split; [by repeat constructor|apply (bool_decide_unpack _); by vm_compute|].
      constructor; [|constructor]. split; [done|]. eexists. split; [by vm_compute|]. split; by vm_compute.
    + apply (bool_decide_unpack _). by vm_compute.
  - exists b, cert. split; [exact Ha|]. split; [exact Hb|]. rewrite Hv. vm_compute. reflexivity.
Defined.

(** The finalization certificate of a block footer: checking it never panics,
    and if it is accepted, the finalization (and for a slow one the notarization)
    of the block it names was signed by the threshold of the stake, the recorded
    signers being those of the finalization. *)
Theorem footer_accepted_proves `{BlsVerify, !BlsVerifyLaws} E fc bank
    (HE : stakes_ok E) (Hbank : bank_fits E bank) :
  exists r, try_from_footer fc bank = Some r /\ forall f, r = Ok f -> footer_proves E fc f.
Proof. by apply try_from_footer_spec. Qed.
Lemma footer_accepted_proves_witness :
  let fc := mkFinalCertificate 5 7 (mkVotesAggregate 0 [0; 2; 2]) (Some (mkVotesAggregate 0 [0; 2; 2])) in
  exists f, try_from_footer fc Example3.bank = Some (Ok f) /\ footer_proves Example3.E fc f.
Proof.
  intros fc.
  destruct (footer_accepted_proves Example3.E fc Example3.bank Example3.stakes_ok_E Example3.bank_fits_E) as (r & Hr & Hok).
  assert (is_Some (match try_from_footer fc Example3.bank with Some (Ok f) => Some f | _ => None end)) as [f Hf]
    by (eexists; vm_compute; reflexivity).
  rewrite Hr in Hf. destruct r as [f'|]; [|discriminate]. exists f'. split; [exact Hr|]. by apply Hok.
Defined.

(** A finalization certificate whose parts the bank accepts survives the round
    trip through a block footer. *)
Theorem footer_round_trip `{BlsVerify, !BlsVerifyLaws} E f fc bank
    (HE : stakes_ok E) (Hbank : bank_fits E bank) (Hok : finalization_ok f)
    (Hto : to_final_certificate f = Some fc)
    (Hacc : match fc_kind f with
            | KFinalize fin nota => accepted E bank fin /\ accepted E bank nota
            | KFastFinalize cert => accepted E bank cert
            end) :
  exists signers, try_from_footer fc bank = Some (Ok (mkFinalization (fc_kind f) signers)).
Proof. by apply (footer_round_trip_aux E HE f). Qed.
Lemma footer_round_trip_witness :
  let fin := mkCertificate (CFinalize 5) 0 [0; 2; 2] in let nota := mkCertificate (CNotarize 5 7) 0 [0; 2; 2] in
  exists fc signers, to_final_certificate (mkFinalization (KFinalize fin nota) ∅) = Some fc /\
    try_from_footer fc Example3.bank = Some (Ok (mkFinalization (KFinalize fin nota) signers)).
Proof.
  intros fin nota. eexists.
  destruct (footer_round_trip Example3.E (mkFinalization (KFinalize fin nota) ∅) _ Example3.bank
    Example3.stakes_ok_E Example3.bank_fits_E ltac:(by exists 5, 7) eq_refl) as [signers Hs].
  - split; exists 75; by vm_compute.
  - exists signers. split; [reflexivity|exact Hs].
Defined.
