(* ===== verification/BankForks.v ===== *)
(** * Bank forks

    [runtime/src/bank_forks.rs]: the banks of the slots being replayed, with the
    set of descendants of each, the root and the working bank.  A bank is the part
    of [runtime/src/bank.rs] that consensus reads; the scheduler attached to a bank
    is not modelled.  Banks are shared ([Arc<Bank>]): [squash_at] changes the
    squashed bank wherever it is reached from. *)

From S2P Require Import Prelude.
From S2P Require Import Messages.
From S2P Require Import EpochStakes.
From S2P Require Import Migration.
From S2P Require Import CertBuilder.
From S2P Require Import Finalization.

(** ** Banks *)

Inductive ForkBank := mkForkBank {
  fb_bank : RootBank;
  fb_hash : Hash;
  fb_parent_slot : Slot;
  fb_parent : option ForkBank;
  fb_ancestors : gset Slot;
  fb_epoch : Z;
  fb_vote_accounts : gset Pubkey;
  fb_ns_per_slot : Z;
  fb_leader_id : Pubkey;
  fb_check_program_deployment_slot : bool;
}.

Definition fb_slot (b : ForkBank) : Slot := rb_slot (fb_bank b).
Definition fb_block_id (b : ForkBank) : option Hash := rb_block_id (fb_bank b).
Definition bank_frozen (b : ForkBank) : bool := negb (bool_decide (fb_hash b = 0)).
Definition fb_parent_block_id (b : ForkBank) : option Hash := fb_parent b ≫= fb_block_id.
Definition proper_ancestors (b : ForkBank) : gset Slot := fb_ancestors b ∖ {[fb_slot b]}.
Definition get_vote_account (b : ForkBank) (k : Pubkey) : bool := bool_decide (k ∈ fb_vote_accounts b).
Definition get_rank_map (b : RootBank) (slot : Slot) : option BLSPubkeyToRankMap :=
  es_rank_map <$> epoch_stakes_from_slot b slot.

Fixpoint bank_parents (b : ForkBank) : list ForkBank :=
  match fb_parent b with
  | Some p => p :: bank_parents p
  | None => []
  end.

Definition with_parent (b : ForkBank) (hash : Hash) (parent : option ForkBank) : ForkBank :=
  mkForkBank (fb_bank b) hash (fb_parent_slot b) parent (fb_ancestors b) (fb_epoch b)
    (fb_vote_accounts b) (fb_ns_per_slot b) (fb_leader_id b) (fb_check_program_deployment_slot b).

(** [Bank::squash] of the bank of [slot], seen from [b]: the bank is frozen and
    loses its parent.  [freeze] is the hash a bank gets when it is frozen. *)
Fixpoint squash_at (freeze : ForkBank -> Hash) (slot : Slot) (b : ForkBank) : ForkBank :=
  if bool_decide (fb_slot b = slot)
  then with_parent b (if bank_frozen b then fb_hash b else freeze b) None
  else with_parent b (fb_hash b) (match fb_parent b with
                                  | Some p => Some (squash_at freeze slot p)
                                  | None => None
                                  end).

(** ** The forks *)

(** [bf_sharable_root] and [bf_sharable_working] are the banks of
    [SharableBanks], by slot. *)
Record BankForks := mkBankForks {
  bf_banks : gmap Slot ForkBank;
  bf_descendants : gmap Slot (gset Slot);
  bf_root : Slot;
  bf_working_slot : Slot;
  bf_sharable_root : Slot;
  bf_sharable_working : Slot;
  bf_highest_slot_at_startup : Slot;
  bf_migration_status : MigrationStatus;
}.

Definition with_banks (f : BankForks) banks descendants : BankForks :=
  mkBankForks banks descendants (bf_root f) (bf_working_slot f) (bf_sharable_root f)
    (bf_sharable_working f) (bf_highest_slot_at_startup f) (bf_migration_status f).
Definition with_working (f : BankForks) (slot : Slot) : BankForks :=
  mkBankForks (bf_banks f) (bf_descendants f) (bf_root f) slot (bf_sharable_root f)
    slot (bf_highest_slot_at_startup f) (bf_migration_status f).

Definition forks_get (f : BankForks) (slot : Slot) : option ForkBank := bf_banks f !! slot.
Definition forks_bank_hash (f : BankForks) (slot : Slot) : option Hash := fb_hash <$> forks_get f slot.
Definition forks_block_id (f : BankForks) (slot : Slot) : option Hash := forks_get f slot ≫= fb_block_id.
Definition forks_is_frozen (f : BankForks) (slot : Slot) : bool :=
  default false (bank_frozen <$> forks_get f slot).
Definition get_with_checked_hash (f : BankForks) (slot : Slot) (expected_hash : Hash)
    : option (option ForkBank) :=
  match forks_get f slot with
  | Some b => rust_assert (bool_decide (fb_hash b = expected_hash));; Some (Some b)
  | None => Some None
  end.
Definition forks_ancestors (f : BankForks) : gmap Slot (gset Slot) :=
  (fun b => filter (fun k => bf_root f <= k) (proper_ancestors b)) <$> bf_banks f.
Definition frozen_banks (f : BankForks) : gmap Slot ForkBank :=
  filter (fun e => bank_frozen e.2 = true) (bf_banks f).
Definition active_bank_slots (f : BankForks) : list Slot :=
  (btree_iter (filter (fun e => bank_frozen e.2 = false) (bf_banks f))).*1.
Definition highest_frozen_bank (f : BankForks) : option ForkBank :=
  iter_max (omap (fun e => if bank_frozen e.2 then Some (fb_slot e.2) else None) (btree_iter (bf_banks f)))
    ≫= forks_get f.
Definition find_highest_slot (f : BankForks) : option Slot :=
  iter_max (fb_slot <$> (btree_iter (bf_banks f)).*2).
(** Indexing a map with a missing key panics. *)
Definition working_bank (f : BankForks) : option ForkBank := bf_banks f !! bf_working_slot f.
Definition root_bank (f : BankForks) : option ForkBank := bf_banks f !! bf_sharable_root f.

(** [self.working_slot = self.find_highest_slot(); ...store(self.working_bank())]. *)
Definition update_working (f : BankForks) : option BankForks :=
  s ← find_highest_slot f;
  _ ← bf_banks f !! s;
  Some (with_working f s).

(** [descendants.entry(p).or_default().insert(slot)] for every proper ancestor. *)
Definition add_descendant (slot : Slot) (d : gmap Slot (gset Slot)) (parent : Slot) : gmap Slot (gset Slot) :=
  <[parent := {[slot]} ∪ default ∅ (d !! parent)]> d.
Definition entry_default (d : gmap Slot (gset Slot)) (slot : Slot) : gmap Slot (gset Slot) :=
  <[slot := default ∅ (d !! slot)]> d.

Fixpoint insert_parents (banks : gmap Slot ForkBank) (parents : list ForkBank) : gmap Slot ForkBank :=
  match parents with
  | [] => banks
  | p :: ps =>
    match banks !! fb_slot p with
    | Some _ => <[fb_slot p := p]> banks
    | None => insert_parents (<[fb_slot p := p]> banks) ps
    end
  end.

(** [migration_status] is the result of [initialize_migration_status]. *)
Definition new_rw_arc (root_bank : ForkBank) (migration_status : MigrationStatus) : BankForks :=
  let root_slot := fb_slot root_bank in
  let banks := insert_parents {[root_slot := root_bank]} (bank_parents root_bank) in
  let descendants := foldl (add_descendant root_slot) (entry_default ∅ root_slot)
                       (elements (proper_ancestors root_bank)) in
  mkBankForks banks descendants root_slot root_slot root_slot root_slot 0 migration_status.

Definition initialize_migration_status (root_bank : ForkBank) (ff_activation_slot : option Slot)
    (genesis_cert : option Certificate) : option MigrationStatus :=
  let get_epoch := rb_get_epoch (fb_bank root_bank) in
  initialize get_epoch (get_epoch (fb_slot root_bank)) ff_activation_slot genesis_cert.

Definition forks_insert (f : BankForks) (bank : ForkBank) : option BankForks :=
  let bank := if bool_decide (bf_root f < bf_highest_slot_at_startup f)
              then mkForkBank (fb_bank bank) (fb_hash bank) (fb_parent_slot bank) (fb_parent bank)
                     (fb_ancestors bank) (fb_epoch bank) (fb_vote_accounts bank) (fb_ns_per_slot bank)
                     (fb_leader_id bank) true
              else bank in
  let slot := fb_slot bank in
  rust_assert (bool_decide (bf_banks f !! slot = None));;
  let descendants := foldl (add_descendant slot) (entry_default (bf_descendants f) slot)
                       (elements (proper_ancestors bank)) in
  update_working (with_banks f (<[slot := bank]> (bf_banks f)) descendants).

Definition insert_from_ledger (f : BankForks) (bank : ForkBank) : option BankForks :=
  forks_insert (mkBankForks (bf_banks f) (bf_descendants f) (bf_root f) (bf_working_slot f)
    (bf_sharable_root f) (bf_sharable_working f) (Z.max (bf_highest_slot_at_startup f) (fb_slot bank))
    (bf_migration_status f)) bank.

(** One ancestor of [remove]: [None] is the [panic!]. *)
Definition remove_descendant (banks : gmap Slot ForkBank) (slot : Slot)
    (r : option (gmap Slot (gset Slot))) (parent : Slot) : option (gmap Slot (gset Slot)) :=
  d ← r;
  ds ← (d !! parent : option (gset Slot));
  let s : gset Slot := ds ∖ {[slot]} in
  Some (if bool_decide (s = ∅) && bool_decide (banks !! parent = None) then delete parent d
        else <[parent := s]> d).

Definition forks_remove (f : BankForks) (slot : Slot) : option (BankForks * option ForkBank) :=
  match bf_banks f !! slot with
  | None => Some (f, None)
  | Some bank =>
    let banks := delete slot (bf_banks f) in
    d ← foldl (remove_descendant banks slot) (Some (bf_descendants f)) (elements (proper_ancestors bank));
    s ← (d !! slot : option (gset Slot));
    let d := if bool_decide (s = ∅) then delete slot d else d in
    f ← update_working (with_banks f banks d);
    Some (f, Some bank)
  end.

(** [expect] makes a missing slot a panic. *)
Fixpoint dump_slots (f : BankForks) (slots : list Slot) : option (BankForks * list ForkBank) :=
  match slots with
  | [] => Some (f, [])
  | slot :: slots =>
    '(f, b) ← forks_remove f slot;
    b ← b;
    '(f, bs) ← dump_slots f slots;
    Some (f, b :: bs)
  end.

(** ** Setting the root *)

(** Which slots [get_non_rooted] keeps; [None] is an index out of the map. *)
Definition keep_slot (f : BankForks) (root highest_super_majority_root slot : Slot) : option bool :=
  if bool_decide (slot = root) then Some true
  else
    d ← (bf_descendants f !! root : option (gset Slot));
    if bool_decide (slot ∈ d) then Some true
    else if bool_decide (slot < root) && bool_decide (highest_super_majority_root <= slot) then
      ds ← (bf_descendants f !! slot : option (gset Slot));
      Some (bool_decide (root ∈ ds))
    else Some false.

Fixpoint non_rooted (f : BankForks) (root hsmr : Slot) (slots : list Slot) : option (list Slot) :=
  match slots with
  | [] => Some []
  | s :: slots =>
    keep ← keep_slot f root hsmr s;
    rest ← non_rooted f root hsmr slots;
    Some (if keep : bool then rest else s :: rest)
  end.
Definition get_non_rooted (f : BankForks) (root : Slot) (highest_super_majority_root : option Slot)
    : option (list Slot) :=
  non_rooted f root (default root highest_super_majority_root) (btree_iter (bf_banks f)).*1.

Fixpoint remove_all (f : BankForks) (slots : list Slot) : option (BankForks * list ForkBank) :=
  match slots with
  | [] => Some (f, [])
  | s :: slots =>
    '(f, b) ← forks_remove f s;
    '(f, bs) ← remove_all f slots;
    Some (f, option_list b ++ bs)
  end.
Definition prune_non_rooted (f : BankForks) (root : Slot) (hsmr : option Slot)
    : option (BankForks * list ForkBank) :=
  slots ← get_non_rooted f root hsmr;
  remove_all f slots.

(** The squashing of the new root: [handle_new_roots] of the snapshot controller may
    squash a bank of the rooted chain, and the root is squashed if it did not. *)
Definition squash_rooted (freeze : ForkBank -> Hash) (snapshot : option Slot) (root : Slot)
    (banks : gmap Slot ForkBank) : gmap Slot ForkBank :=
  let banks := match snapshot with
               | Some s => squash_at freeze s <$> banks
               | None => banks
               end in
  if bool_decide (snapshot = Some root) then banks else squash_at freeze root <$> banks.

(** [freeze] is the hash of a bank frozen by [squash]; [snapshot] is the bank of
    the rooted chain the snapshot controller squashes, if any.  The [unwrap] of the
    new epoch's stakes, in the log message, is the assertion. *)
Definition forks_set_root (freeze : ForkBank -> Hash) (snapshot : option Slot) (f : BankForks) (root : Slot)
    (highest_super_majority_root : option Slot) : option (BankForks * list ForkBank) :=
  old_root ← root_bank f;
  rb ← forks_get f root;
  ms ← (if bool_decide (fb_epoch old_root <> fb_epoch rb) then
          rust_assert (bool_decide (is_Some (rb_epoch_stakes (fb_bank rb) !! fb_epoch rb)));;
          let p := ms_phase (bf_migration_status f) in
          if is_alpenglow_enabled p && negb (is_full_alpenglow_epoch p)
          then alpenglow_rooted_new_epoch (bf_migration_status f) (fb_epoch rb)
          else Some (bf_migration_status f)
        else Some (bf_migration_status f));
  let banks := squash_rooted freeze snapshot root (bf_banks f) in
  prune_non_rooted
    (mkBankForks banks (bf_descendants f) root (bf_working_slot f) root (bf_sharable_working f)
       (bf_highest_slot_at_startup f) ms)
    root highest_super_majority_root.

(** ** Relationship *)

Inductive BlockRelation := RAncestor | REqual | RDescendant | RUnrelated | RUnknown.

Definition relationship (f : BankForks) (a b : Slot) : BlockRelation :=
  let known s := bool_decide (bf_root f <= s) && bool_decide (s <= bf_working_slot f) in
  if known a && known b then
    if bool_decide (a = b) then REqual
    else if match bf_banks f !! b with Some bank => bool_decide (a ∈ fb_ancestors bank) | None => false end
    then RAncestor
    else if match bf_descendants f !! b with Some s => bool_decide (a ∈ s) | None => false end
    then RDescendant
    else RUnrelated
  else RUnknown.

(** ** Invariant *)

(** Bank [s] has slot [p] among its proper ancestors. *)
Definition descends (banks : gmap Slot ForkBank) (s p : Slot) : Prop :=
  exists b, banks !! s = Some b /\ p ∈ proper_ancestors b.

(** The map of descendants is the inverse of the banks' ancestors: the slots below
    [p], and no entry where neither [p] nor a descendant of it has a bank. *)
Definition below (banks : gmap Slot ForkBank) (p : Slot) : gset Slot :=
  dom (filter (fun e => p ∈ proper_ancestors e.2) banks).
Definition descendants_of (banks : gmap Slot ForkBank) (p : Slot) : option (gset Slot) :=
  if bool_decide (below banks p = ∅) && bool_decide (banks !! p = None) then None
  else Some (below banks p).
Definition descendants_ok (banks : gmap Slot ForkBank) (d : gmap Slot (gset Slot)) : Prop :=
  forall p, d !! p = descendants_of banks p.

Lemma elem_of_below banks p s : s ∈ below banks p <-> descends banks s p.
Proof.
  unfold below, descends. rewrite elem_of_dom. unfold is_Some.
  setoid_rewrite map_lookup_filter_Some. done.
Qed.
Lemma descendants_of_default banks p : default ∅ (descendants_of banks p) = below banks p.
Proof.
  unfold descendants_of. destruct (bool_decide (below banks p = ∅)) eqn:E; to_prop; [|done].
  destruct (bool_decide _); [by rewrite E|done].
Qed.
Lemma descendants_of_bank banks p b : banks !! p = Some b -> descendants_of banks p = Some (below banks p).
Proof. intros Hb. unfold descendants_of. rewrite (bool_decide_false (banks !! p = None)), andb_false_r; [done|congruence]. Qed.

Record forks_ok (f : BankForks) : Prop := {
  fo_slot s b : bf_banks f !! s = Some b -> fb_slot b = s;
  fo_descendants : descendants_ok (bf_banks f) (bf_descendants f);
  fo_root : is_Some (bf_banks f !! bf_root f);
  fo_sharable : bf_sharable_root f = bf_root f /\ bf_sharable_working f = bf_working_slot f;
  fo_working : is_Some (bf_banks f !! bf_working_slot f);
  fo_highest s : is_Some (bf_banks f !! s) -> s <= bf_working_slot f;
}.

Lemma update_working_ok f :
  (forall s b, bf_banks f !! s = Some b -> fb_slot b = s) -> is_Some (bf_banks f !! bf_root f) ->
  exists w, update_working f = Some (with_working f w) /\ is_Some (bf_banks f !! w) /\
    forall s, is_Some (bf_banks f !! s) -> s <= w.
Proof.
  intros Hslot [rb Hroot]. unfold update_working, find_highest_slot.
  assert (forall s, s ∈ fb_slot <$> (btree_iter (bf_banks f)).*2 <-> is_Some (bf_banks f !! s)) as Hin.
  { intros s. rewrite !list_elem_of_fmap. split.
    - intros (b & -> & ([s' b'] & -> & He)%list_elem_of_fmap). simpl. apply elem_of_btree_iter in He.
      rewrite (Hslot _ _ He). by eexists.
    - intros [b Hb]. exists b. split; [symmetry; by apply Hslot|]. apply list_elem_of_fmap.
      exists (s, b). split; [done|]. by apply elem_of_btree_iter. }
  destruct (iter_max _) as [w|] eqn:Hw.
  - apply iter_max_Some in Hw as [Hw Hmax]. apply Hin in Hw as [b Hb]. exists w. simpl. rewrite Hb.
    split_and!; [done|by eexists|]. intros s Hs. apply (Hmax s). by apply Hin.
  - apply iter_max_None in Hw. specialize (Hin (bf_root f)). rewrite Hw in Hin.
    destruct Hin as [_ Hin]. destruct (elem_of_nil (bf_root f)) as [He _]. destruct He. apply Hin. by eexists.
Qed.

(** ** Inserting *)

Lemma add_descendants_lookup slot l d p :
  foldl (add_descendant slot) d l !! p =
    if bool_decide (p ∈ l) then Some ({[slot]} ∪ default ∅ (d !! p)) else d !! p.
Proof.
  revert d. induction l as [|q l IH]; intros d; simpl; [done|].
  rewrite IH. unfold add_descendant. destruct (decide (q = p)) as [<-|Hne].
  - rewrite lookup_insert_eq, (bool_decide_true (q ∈ q :: l)) by (by left). simpl.
    case_bool_decide; [f_equal; set_solver|done].
  - rewrite lookup_insert_ne by done.
    rewrite (bool_decide_ext (p ∈ q :: l) (p ∈ l)); [done|]. set_solver.
Qed.

Lemma below_insert banks slot b p :
  banks !! slot = None ->
  below (<[slot := b]> banks) p = if bool_decide (p ∈ proper_ancestors b) then {[slot]} ∪ below banks p else below banks p.
Proof.
  intros Hnone. apply set_eq. intros s. rewrite elem_of_below. unfold descends.
  assert (s ∈ below banks p -> s <> slot) as Hne by (intros (? & ? & _)%elem_of_below ->; congruence).
  case_bool_decide as Hp; rewrite ?elem_of_union, ?elem_of_singleton, ?elem_of_below in *; unfold descends in *;
    (destruct (decide (s = slot)) as [->|Hs]; [rewrite lookup_insert_eq, Hnone|rewrite lookup_insert_ne by done]); naive_solver.
Qed.

Lemma insert_descendants banks d slot b :
  descendants_ok banks d -> banks !! slot = None ->
  descendants_ok (<[slot := b]> banks)
    (foldl (add_descendant slot) (entry_default d slot) (elements (proper_ancestors b))).
Proof.
  intros Hd Hnone p. rewrite add_descendants_lookup.
  assert (default ∅ (entry_default d slot !! p) = below banks p) as Hold.
  { unfold entry_default. destruct (decide (slot = p)) as [<-|Hne];
      [rewrite lookup_insert_eq|rewrite lookup_insert_ne by done]; simpl; by rewrite Hd, descendants_of_default. }
  rewrite Hold. unfold descendants_of. rewrite below_insert by done.
  rewrite (bool_decide_ext (p ∈ elements (proper_ancestors b)) (p ∈ proper_ancestors b)) by apply elem_of_elements.
  destruct (bool_decide (p ∈ proper_ancestors b)) eqn:Hp.
  { by rewrite (bool_decide_false (_ ∪ _ = ∅)) by set_solver. }
  unfold entry_default. destruct (decide (slot = p)) as [<-|Hne].
  - rewrite !lookup_insert_eq, Hd, descendants_of_default, (bool_decide_false (Some b = None)), andb_false_r by done. done.
  - rewrite !lookup_insert_ne by done. apply Hd.
Qed.

Lemma forks_insert_ok f b :
  forks_ok f -> bf_banks f !! fb_slot b = None ->
  exists f', forks_insert f b = Some f' /\ forks_ok f' /\ bf_root f' = bf_root f /\
    forall s, is_Some (bf_banks f' !! s) <-> s = fb_slot b \/ is_Some (bf_banks f !! s).
Proof.
  intros [S D R [Hr _] W M] Hnone. unfold forks_insert.
  set (b' := if bool_decide (bf_root f < bf_highest_slot_at_startup f) then _ else b).
  assert (fb_slot b' = fb_slot b) as Hb by (subst b'; by case_bool_decide). rewrite Hb.
  rewrite bool_decide_true by done. cbn [mbind option_bind rust_assert].
  match goal with |- context [update_working ?g] =>
    destruct (update_working_ok g) as (w & Hw & Hw1 & Hw2) end; simpl in *.
  { intros s x. destruct (decide (fb_slot b = s)) as [<-|]; [rewrite lookup_insert_eq|rewrite lookup_insert_ne by done; apply S].
    by intros [= <-]. }
  { rewrite lookup_insert_is_Some. destruct (decide (fb_slot b = bf_root f)) as [|]; naive_solver. }
  rewrite Hw. eexists. split; [done|]. split; [|split; [done|]].
  - split; simpl; [| | | |done|done].
    + intros s x. destruct (decide (fb_slot b = s)) as [<-|]; [rewrite lookup_insert_eq|rewrite lookup_insert_ne by done; apply S].
      by intros [= <-].
    + by apply insert_descendants.
    + rewrite lookup_insert_is_Some. destruct (decide (fb_slot b = bf_root f)) as [|]; naive_solver.
    + done.
  - intros s. simpl. rewrite lookup_insert_is_Some. destruct (decide (s = fb_slot b)); naive_solver.
Qed.

(** ** Removing *)

Lemma remove_descendants_lookup banks slot l d :
  NoDup l -> (forall p, p ∈ l -> is_Some (d !! p)) ->
  exists d', foldl (remove_descendant banks slot) (Some d) l = Some d' /\
    forall p, d' !! p = if bool_decide (p ∈ l) then
                          D ← d !! p;
                          if bool_decide (D ∖ {[slot]} = ∅) && bool_decide (banks !! p = None) then None
                          else Some (D ∖ {[slot]})
                        else d !! p.
Proof.
  revert d. induction l as [|q l IH]; intros d Hnd Hsome; [by eexists|].
  apply NoDup_cons in Hnd as [Hq Hnd]. destruct (Hsome q ltac:(by left)) as [D HD].
  set (d1 := if bool_decide (D ∖ {[slot]} = ∅) && bool_decide (banks !! q = None) then delete q d
             else <[q := D ∖ {[slot]}]> d).
  assert (remove_descendant banks slot (Some d) q = Some d1) as Hstep.
  { unfold remove_descendant. simpl. by rewrite HD. }
  cbn [foldl]. rewrite Hstep.
  assert (forall p, p <> q -> d1 !! p = d !! p) as Hd1.
  { intros p Hp. subst d1. destruct (_ && _); [by rewrite lookup_delete_ne|by rewrite lookup_insert_ne]. }
  destruct (IH d1 Hnd) as (d' & -> & Hd').
  { intros p Hp. rewrite Hd1 by (intros ->; done). apply Hsome. by right. }
  exists d'. split; [done|]. intros p. rewrite Hd'. destruct (decide (p = q)) as [->|Hne].
  - rewrite (bool_decide_false (q ∈ l)) by done. rewrite bool_decide_true by (by left). rewrite HD. subst d1. simpl.
    destruct (_ && _); [by rewrite lookup_delete_eq|by rewrite lookup_insert_eq].
  - rewrite Hd1 by done. rewrite (bool_decide_ext (p ∈ q :: l) (p ∈ l)); [done|]. set_solver.
Qed.

Lemma below_delete banks slot b p :
  banks !! slot = Some b ->
  below (delete slot banks) p = if bool_decide (p ∈ proper_ancestors b) then below banks p ∖ {[slot]} else below banks p.
Proof.
  intros Hb. apply set_eq. intros s. rewrite elem_of_below. unfold descends.
  case_bool_decide as Hp; rewrite ?elem_of_difference, ?elem_of_singleton, ?elem_of_below; unfold descends;
    (destruct (decide (s = slot)) as [->|Hs]; [rewrite lookup_delete_eq, ?Hb|rewrite lookup_delete_ne by done]); naive_solver.
Qed.

Lemma remove_descendants_ok banks d slot b :
  descendants_ok banks d -> banks !! slot = Some b -> fb_slot b = slot ->
  exists d1, foldl (remove_descendant (delete slot banks) slot) (Some d) (elements (proper_ancestors b)) = Some d1 /\
    d1 !! slot = Some (below banks slot) /\
    descendants_ok (delete slot banks) (if bool_decide (below banks slot = ∅) then delete slot d1 else d1).
Proof.
  intros Hd Hb Hs.
  assert (forall p, p ∈ proper_ancestors b -> d !! p = Some (below banks p)) as Hanc.
  { intros p Hp. rewrite Hd. unfold descendants_of. rewrite bool_decide_false; [done|].
    assert (slot ∈ below banks p) by (apply elem_of_below; by exists b). set_solver. }
  destruct (remove_descendants_lookup (delete slot banks) slot (elements (proper_ancestors b)) d) as (d1 & -> & Hd1).
  { apply NoDup_elements. } { intros p Hp%elem_of_elements. rewrite Hanc by done. by eexists. }
  assert (slot ∉ proper_ancestors b) as Hself by (unfold proper_ancestors; set_solver).
  assert (d1 !! slot = Some (below banks slot)) as Hslot.
  { rewrite Hd1, bool_decide_false by (by rewrite elem_of_elements). rewrite Hd. by eapply descendants_of_bank. }
  exists d1. split_and!; [done..|]. intros p. unfold descendants_of. rewrite (below_delete _ _ _ p Hb).
  destruct (decide (p = slot)) as [->|Hne].
  - rewrite lookup_delete_eq, (bool_decide_false (slot ∈ _)), (bool_decide_true (None = None)), andb_true_r by done.
    case_bool_decide; [by rewrite lookup_delete_eq|done].
  - transitivity (d1 !! p); [case_bool_decide; [by rewrite lookup_delete_ne|done]|].
    rewrite Hd1, (bool_decide_ext (p ∈ elements (proper_ancestors b)) (p ∈ proper_ancestors b)) by apply elem_of_elements.
    case_bool_decide as Hp; [by rewrite (Hanc p Hp)|]. rewrite Hd, lookup_delete_ne by done. done.
Qed.

Lemma forks_remove_ok f slot b :
  forks_ok f -> bf_banks f !! slot = Some b -> slot <> bf_root f ->
  exists f', forks_remove f slot = Some (f', Some b) /\ forks_ok f' /\ bf_root f' = bf_root f /\
    bf_banks f' = delete slot (bf_banks f) /\ bf_migration_status f' = bf_migration_status f.
Proof.
  intros [S D R [Hr _] W M] Hb Hne. unfold forks_remove. rewrite Hb.
  destruct (remove_descendants_ok _ _ _ _ D Hb (S _ _ Hb)) as (d1 & Hfold & Hd1 & Hok).
  rewrite Hfold. cbn [mbind option_bind]. rewrite Hd1. cbn [mbind option_bind].
  assert (forall s x, delete slot (bf_banks f) !! s = Some x -> fb_slot x = s) as S'.
  { intros s x [_ Hx]%lookup_delete_Some. by apply S. }
  assert (is_Some (delete slot (bf_banks f) !! bf_root f)) as R' by (by rewrite lookup_delete_ne).
  match goal with |- context [update_working ?g] =>
    destruct (update_working_ok g S' R') as (w & Hw & Hw1 & Hw2) end.
  rewrite Hw. eexists. split_and!; [done| |done..]. split; simpl; done.
Qed.

(** ** Setting the root *)

(** The table of [prune_non_rooted]: the root, its descendants, and its ancestors
    from the highest confirmed root on. *)
Definition rooted (banks : gmap Slot ForkBank) (root hsmr slot : Slot) : Prop :=
  slot = root \/ descends banks slot root \/ (hsmr <= slot < root /\ descends banks root slot).

#[global] Instance descends_dec banks s p : Decision (descends banks s p).
Proof.
  refine (cast_if (decide (s ∈ below banks p))); [by apply elem_of_below|by rewrite <-elem_of_below].
Defined.
#[global] Instance rooted_dec banks root hsmr s : Decision (rooted banks root hsmr s).
Proof. unfold rooted. apply _. Defined.

Lemma squash_at_slot freeze s b : fb_slot (squash_at freeze s b) = fb_slot b.
Proof. destruct b; simpl. by case_bool_decide. Qed.
Lemma squash_at_ancestors freeze s b : proper_ancestors (squash_at freeze s b) = proper_ancestors b.
Proof. unfold proper_ancestors. rewrite squash_at_slot. f_equal. destruct b; simpl. by case_bool_decide. Qed.

Lemma descends_fmap (g : ForkBank -> ForkBank) banks s p :
  (forall b, proper_ancestors (g b) = proper_ancestors b) -> descends (g <$> banks) s p <-> descends banks s p.
Proof.
  intros Hg. unfold descends. setoid_rewrite lookup_fmap. setoid_rewrite fmap_Some. split.
  - intros (b & (x & Hx & ->) & Hp). rewrite Hg in Hp. eauto.
  - intros (b & Hb & Hp). exists (g b). rewrite Hg. eauto.
Qed.
Lemma descendants_fmap (g : ForkBank -> ForkBank) banks d :
  (forall b, proper_ancestors (g b) = proper_ancestors b) -> descendants_ok banks d -> descendants_ok (g <$> banks) d.
Proof.
  intros Hg Hd p. rewrite Hd. unfold descendants_of.
  assert (below (g <$> banks) p = below banks p) as ->.
  { apply set_eq. intros s. rewrite !elem_of_below. by apply descends_fmap. }
  rewrite (bool_decide_ext (banks !! p = None) ((g <$> banks) !! p = None)); [done|].
  by rewrite lookup_fmap, fmap_None.
Qed.
Lemma forks_ok_fmap (g : ForkBank -> ForkBank) f :
  (forall b, proper_ancestors (g b) = proper_ancestors b) -> (forall b, fb_slot (g b) = fb_slot b) ->
  forks_ok f -> forks_ok (with_banks f (g <$> bf_banks f) (bf_descendants f)).
Proof.
  intros Hg Hs [S D R Sh W M]. split; simpl; [|by apply descendants_fmap|by rewrite lookup_fmap, fmap_is_Some
    |done|by rewrite lookup_fmap, fmap_is_Some|intros s; rewrite lookup_fmap, fmap_is_Some; apply M].
  intros s b. rewrite lookup_fmap. intros (x & Hx & ->)%fmap_Some. rewrite Hs. by apply S.
Qed.

Section keep.
Context (f : BankForks) (Hf : descendants_ok (bf_banks f) (bf_descendants f)).

Lemma keep_slot_spec root hsmr s :
  is_Some (bf_banks f !! root) -> is_Some (bf_banks f !! s) ->
  exists keep, keep_slot f root hsmr s = Some keep /\ (keep = true <-> rooted (bf_banks f) root hsmr s).
Proof using Hf.
  intros [rb Hr] [b Hb]. unfold keep_slot, rooted. case_bool_decide as E1; [exists true; tauto|].
  rewrite (Hf root), (descendants_of_bank _ _ _ Hr). cbn [mbind option_bind].
  match goal with |- context [bool_decide (s ∈ ?X)] => destruct (bool_decide (s ∈ X)) eqn:E2 end; to_prop;
    rewrite elem_of_below in E2; [exists true; tauto|].
  destruct (bool_decide (s < root)) eqn:E3, (bool_decide (hsmr <= s)) eqn:E4; to_prop; simpl;
    try (exists false; split; [done|]; split; [done|lia || tauto]).
  rewrite (Hf s), (descendants_of_bank _ _ _ Hb). simpl. eexists. split; [done|].
  rewrite bool_decide_eq_true, elem_of_below. naive_solver.
Qed.

Lemma non_rooted_spec root hsmr l :
  is_Some (bf_banks f !! root) -> (forall s, s ∈ l -> is_Some (bf_banks f !! s)) -> NoDup l ->
  exists out, non_rooted f root hsmr l = Some out /\ NoDup out /\
    forall s, s ∈ out <-> s ∈ l /\ ~ rooted (bf_banks f) root hsmr s.
Proof using Hf.
  intros Hr. induction l as [|s l IH]; intros Hl Hnd; simpl; [exists []; split_and!; [done|by constructor|set_solver]|].
  apply NoDup_cons in Hnd as [Hs Hnd]. destruct (IH ltac:(set_solver) Hnd) as (out & -> & Hnd' & Hout).
  destruct (keep_slot_spec root hsmr s Hr ltac:(set_solver)) as (keep & -> & Hkeep). simpl.
  exists (if keep then out else s :: out). split; [done|]. destruct keep.
  - split; [done|]. intros s'. rewrite Hout, elem_of_cons. naive_solver.
  - split; [apply NoDup_cons; rewrite Hout; naive_solver|]. intros s'. rewrite !elem_of_cons, Hout.
    split; [|naive_solver]. intros [->|[? ?]]; [|naive_solver]. split; [by left|]. intros Hx. by apply Hkeep in Hx.
Qed.
End keep.

Lemma remove_all_ok f l :
  forks_ok f -> NoDup l -> (forall s, s ∈ l -> is_Some (bf_banks f !! s) /\ s <> bf_root f) ->
  exists f' removed, remove_all f l = Some (f', removed) /\ forks_ok f' /\ bf_root f' = bf_root f /\
    bf_migration_status f' = bf_migration_status f /\ fb_slot <$> removed = l /\
    forall s, bf_banks f' !! s = if bool_decide (s ∈ l) then None else bf_banks f !! s.
Proof.
  revert f. induction l as [|s l IH]; intros f Hf Hnd Hl; simpl.
  { eexists _, []. split_and!; try done. }
  apply NoDup_cons in Hnd as [Hs Hnd]. destruct (Hl s ltac:(by left)) as [[b Hb] Hne].
  destruct (forks_remove_ok f s b Hf Hb Hne) as (f1 & -> & Hf1 & Hr1 & Hb1 & Hm1). cbn [mbind option_bind].
  destruct (IH f1 Hf1 Hnd) as (f' & removed & -> & Hf' & Hr' & Hm' & Hrem & Hlook).
  { intros s' Hs'. rewrite Hb1, Hr1, lookup_delete_ne by (intros ->; done). apply Hl. by right. }
  eexists _, _. split_and!; [done|done|congruence|congruence| |].
  - csimpl. by rewrite Hrem, (fo_slot _ Hf _ _ Hb).
  - intros s'. rewrite Hlook, Hb1. destruct (decide (s' = s)) as [->|Hne'].
    + rewrite lookup_delete_eq, (bool_decide_true (s ∈ s :: l)) by (by left). by case_bool_decide.
    + rewrite lookup_delete_ne by done. rewrite (bool_decide_ext (s' ∈ s :: l) (s' ∈ l)); [done|]. set_solver.
Qed.

(** The epoch change of [do_set_root_return_metrics] cannot panic: the new root
    knows the stakes of its epoch. *)
Definition root_epoch_known (b : ForkBank) : Prop := is_Some (rb_epoch_stakes (fb_bank b) !! fb_epoch b).

(** What squashing does not change of a bank. *)
Definition same_bank (b b' : ForkBank) : Prop :=
  fb_bank b' = fb_bank b /\ fb_epoch b' = fb_epoch b /\ fb_ns_per_slot b' = fb_ns_per_slot b.
Lemma squash_at_same freeze s b : same_bank b (squash_at freeze s b).
Proof. destruct b; simpl. by case_bool_decide. Qed.

(** The banks after the squashing: the same slots and ancestors. *)
Lemma squashed_banks freeze (snapshot : option Slot) root (banks : gmap Slot ForkBank) :
  exists g : ForkBank -> ForkBank, squash_rooted freeze snapshot root banks = g <$> banks /\
    (forall b, proper_ancestors (g b) = proper_ancestors b) /\ (forall b, fb_slot (g b) = fb_slot b) /\
    (forall b, same_bank b (g b)).
Proof.
  unfold squash_rooted. destruct snapshot as [s|]; case_bool_decide; [| |done|].
  2: exists (squash_at freeze root ∘ squash_at freeze s); rewrite map_fmap_compose.
  1: exists (squash_at freeze s).
  3: exists (squash_at freeze root).
  all: split; [done|]; split_and!; intros; simpl; rewrite ?squash_at_ancestors, ?squash_at_slot; try done;
    try apply squash_at_same.
  destruct (squash_at_same freeze s b) as (E1 & E2 & E3).
  destruct (squash_at_same freeze root (squash_at freeze s b)) as (E1' & E2' & E3'). split_and!; congruence.
Qed.

Lemma prune_non_rooted_ok f hsmr :
  forks_ok f ->
  exists f' removed, prune_non_rooted f (bf_root f) hsmr = Some (f', removed) /\ forks_ok f' /\
    bf_root f' = bf_root f /\ bf_migration_status f' = bf_migration_status f /\
    (forall s, bf_banks f' !! s =
       if decide (rooted (bf_banks f) (bf_root f) (default (bf_root f) hsmr) s) then bf_banks f !! s else None) /\
    (forall s, s ∈ fb_slot <$> removed <->
       is_Some (bf_banks f !! s) /\ ~ rooted (bf_banks f) (bf_root f) (default (bf_root f) hsmr) s).
Proof.
  intros Hf. unfold prune_non_rooted, get_non_rooted.
  assert (forall s, s ∈ (btree_iter (bf_banks f)).*1 <-> is_Some (bf_banks f !! s)) as Hkeys.
  { intros s. rewrite list_elem_of_fmap. split.
    - intros ([s' b] & -> & He%elem_of_btree_iter). by eexists.
    - intros [b Hb]. exists (s, b). split; [done|]. by apply elem_of_btree_iter. }
  destruct (non_rooted_spec f (fo_descendants _ Hf) (bf_root f) (default (bf_root f) hsmr) (btree_iter (bf_banks f)).*1)
    as (out & -> & Hnd & Hout); [apply Hf|apply Hkeys|apply btree_iter_NoDup_keys|].
  cbn [mbind option_bind].
  destruct (remove_all_ok f out Hf Hnd) as (f' & removed & -> & Hf' & Hr' & Hm' & Hrem & Hlook).
  { intros s [Hs Hns]%Hout. split; [by apply Hkeys|]. intros ->. apply Hns. by left. }
  exists f', removed. split_and!; [done..| |].
  - intros s. rewrite Hlook. case_bool_decide as Hs; rewrite Hout in Hs; case_decide; try done; [tauto|].
    apply eq_None_not_Some. rewrite <-Hkeys. tauto.
  - intros s. rewrite Hrem, Hout, Hkeys. done.
Qed.

(** Setting the root; its only panic is the unknown epoch. *)
Lemma forks_set_root_gen freeze snapshot f root rb hsmr :
  forks_ok f -> bf_banks f !! root = Some rb ->
  root_epoch_known rb \/ is_Some (forks_set_root freeze snapshot f root hsmr) ->
  exists f' removed, forks_set_root freeze snapshot f root hsmr = Some (f', removed) /\ forks_ok f' /\
    bf_root f' = root /\
    (forall s, is_Some (bf_banks f' !! s) <->
       is_Some (bf_banks f !! s) /\ rooted (bf_banks f) root (default root hsmr) s) /\
    (forall s, s ∈ fb_slot <$> removed <->
       is_Some (bf_banks f !! s) /\ ~ rooted (bf_banks f) root (default root hsmr) s) /\
    (forall s b', bf_banks f' !! s = Some b' -> exists b, bf_banks f !! s = Some b /\ same_bank b b').
Proof.
  intros Hf Hrb. unfold forks_set_root, root_bank, forks_get.
  destruct (fo_root _ Hf) as [old Hold]. rewrite (proj1 (fo_sharable _ Hf)), Hold, Hrb. cbn [mbind option_bind].
  intros Hep. match goal with |- context [mbind _ ?m] => assert (exists ms, m = Some ms) as [ms Hms] end.
  { case_bool_decide; [|by eexists]. destruct Hep as [Hep|[? Hep]]; [|by apply bind_Some in Hep as (ms & ? & _); exists ms].
    rewrite bool_decide_true by done. cbn [mbind option_bind rust_assert].
    unfold alpenglow_rooted_new_epoch. destruct (ms_phase _); simpl; by eexists. }
  rewrite Hms. clear Hep Hms.
  cbn [mbind option_bind]. destruct (squashed_banks freeze snapshot root (bf_banks f)) as (g & -> & Hg & Hgs & Hsame).
  set (f1 := mkBankForks _ _ _ _ _ _ _ _).
  assert (forks_ok f1) as Hf1.
  { apply (forks_ok_fmap g (mkBankForks (bf_banks f) (bf_descendants f) root (bf_working_slot f) root
      (bf_sharable_working f) (bf_highest_slot_at_startup f) ms) Hg Hgs).
    destruct Hf as [S D R [Sr Sw] W M]. by split; simpl. }
  destruct (prune_non_rooted_ok f1 hsmr Hf1) as (f' & removed & Hp & Hf' & Hr' & _ & Hlook & Hrem).
  change (bf_root f1) with root in *. rewrite Hp. exists f', removed.
  assert (forall s, rooted (bf_banks f1) root (default root hsmr) s <-> rooted (bf_banks f) root (default root hsmr) s) as Hrooted
    by (intros s; unfold rooted; subst f1; simpl; by rewrite !descends_fmap).
  assert (forall s, is_Some (bf_banks f1 !! s) <-> is_Some (bf_banks f !! s)) as Hkeys
    by (intros s; subst f1; simpl; by rewrite lookup_fmap, fmap_is_Some).
  split_and!; [done..| | |].
  - intros s. rewrite Hlook, <-Hkeys, <-Hrooted. case_decide; [tauto|]. split; [by intros []|tauto].
  - intros s. by rewrite Hrem, Hkeys, Hrooted.
  - intros s b'. rewrite Hlook. case_decide; [|done]. subst f1. simpl. rewrite lookup_fmap.
    intros (b & Hb & ->)%fmap_Some. eauto.
Qed.
Lemma forks_set_root_ok freeze snapshot f root rb hsmr :
  forks_ok f -> bf_banks f !! root = Some rb -> root_epoch_known rb ->
  exists f' removed, forks_set_root freeze snapshot f root hsmr = Some (f', removed) /\ forks_ok f' /\
    bf_root f' = root /\
    (forall s, is_Some (bf_banks f' !! s) <->
       is_Some (bf_banks f !! s) /\ rooted (bf_banks f) root (default root hsmr) s) /\
    (forall s, s ∈ fb_slot <$> removed <->
       is_Some (bf_banks f !! s) /\ ~ rooted (bf_banks f) root (default root hsmr) s).
Proof.
  intros Hf Hrb Hep. destruct (forks_set_root_gen freeze snapshot f root rb hsmr Hf Hrb) as (f' & removed & Hs); [by left|].
  exists f', removed. tauto.
Qed.

(** ** Reachable forks *)

(** The forks a validator can have: created from a root bank that was loaded from
    genesis or a snapshot (so without its parents), changed by inserting banks of
    new slots, removing banks other than the root, and advancing the root. *)
Inductive forks_step (f : BankForks) : BankForks -> Prop :=
  | step_insert b f' : bf_banks f !! fb_slot b = None -> forks_insert f b = Some f' -> forks_step f f'
  | step_ledger b f' : bf_banks f !! fb_slot b = None -> insert_from_ledger f b = Some f' -> forks_step f f'
  | step_remove s r f' : s <> bf_root f -> forks_remove f s = Some (f', r) -> forks_step f f'
  | step_set_root freeze snapshot root rb hsmr removed f' :
    bf_banks f !! root = Some rb -> root_epoch_known rb ->
    forks_set_root freeze snapshot f root hsmr = Some (f', removed) -> forks_step f f'.

Lemma new_rw_arc_ok b ms : fb_parent b = None -> forks_ok (new_rw_arc b ms).
Proof.
  intros Hp. unfold new_rw_arc. assert (bank_parents b = []) as -> by (destruct b; simpl in *; by subst).
  split; simpl.
  - intros s x [<- <-]%lookup_singleton_Some. done.
  - apply (insert_descendants ∅ ∅ (fb_slot b) b); [|done].
    intros p. unfold descendants_of. rewrite !lookup_empty. rewrite bool_decide_true; [done|].
    apply set_eq. intros s. rewrite elem_of_below. unfold descends. setoid_rewrite lookup_empty. set_solver.
  - by rewrite lookup_singleton_eq.
  - done.
  - by rewrite lookup_singleton_eq.
  - intros s [x [<- _]%lookup_singleton_Some]. lia.
Qed.

Lemma forks_step_ok f f' : forks_ok f -> forks_step f f' -> forks_ok f'.
Proof.
  intros Hf [b f1 Hn Hs|b f1 Hn Hs|s r f1 Hn Hs|fr sn root rb hsmr rem f1 Hb He Hs].
  - destruct (forks_insert_ok f b Hf Hn) as (f2 & ? & ? & _). congruence.
  - unfold insert_from_ledger in Hs. match type of Hs with forks_insert ?g _ = _ =>
      destruct (forks_insert_ok g b) as (f2 & ? & ? & _); [destruct Hf; by split|done|congruence] end.
  - destruct (bf_banks f !! s) as [b|] eqn:Hb.
    + destruct (forks_remove_ok f s b Hf Hb Hn) as (f2 & ? & ? & _). congruence.
    + unfold forks_remove in Hs. rewrite Hb in Hs. by inv_some.
  - destruct (forks_set_root_ok fr sn f root rb hsmr Hf Hb He) as (f2 & ? & ? & ? & _). congruence.
Qed.

(** C19: Setting the root keeps exactly the rooted forks.  Whatever banks were
    inserted, removed and rooted before, setting the root to a bank of the forks
    does not panic, and afterwards the banks are the new root, its descendants and,
    from the highest confirmed root on, its ancestors; the banks returned are the
    others; and the working bank is the highest of those kept. *)
Theorem set_root_keeps_rooted b ms f freeze snapshot root rb hsmr
    (Hnew : fb_parent b = None) (Hrun : rtc forks_step (new_rw_arc b ms) f)
    (Hroot : bf_banks f !! root = Some rb) (Hepoch : root_epoch_known rb) :
  exists f' removed, forks_set_root freeze snapshot f root hsmr = Some (f', removed) /\
    bf_root f' = root /\
    (forall s, is_Some (bf_banks f' !! s) <->
       is_Some (bf_banks f !! s) /\ rooted (bf_banks f) root (default root hsmr) s) /\
    (forall s, s ∈ fb_slot <$> removed <->
       is_Some (bf_banks f !! s) /\ ~ rooted (bf_banks f) root (default root hsmr) s) /\
    is_Some (bf_banks f' !! bf_working_slot f') /\
    (forall s, is_Some (bf_banks f' !! s) -> s <= bf_working_slot f') /\
    (forall p D s, bf_descendants f' !! p = Some D -> s ∈ D <-> descends (bf_banks f') s p).
Proof.
  assert (forks_ok f) as Hf.
  { pose proof (new_rw_arc_ok b ms Hnew) as H0. clear Hroot. induction Hrun as [|f0 f1 f2 Hs _ IH]; [done|].
    apply IH. by eapply forks_step_ok. }
  destruct (forks_set_root_ok freeze snapshot f root rb hsmr Hf Hroot Hepoch) as (f' & removed & Heq & Hf' & Hr & Hk & Hrem).
  exists f', removed. split_and!; [done..|apply Hf'|apply Hf'|].
  intros p D s Hd. rewrite (fo_descendants _ Hf' p) in Hd. unfold descendants_of in Hd.
  destruct (_ && _); [done|]. injection Hd as <-. apply elem_of_below.
Qed.

(** The example of the comment on [prune_non_rooted]: banks 0 to 6, of which 2 and 4
    are not rooted when the root becomes 3. *)
Module ForksExample.
Definition bank (slot parent : Slot) (ancestors : list Slot) : ForkBank :=
  mkForkBank (mkRootBank slot (Some slot) (fun _ => 0) {[0 := mkEpochStakes 0 ∅ ∅ (mkRankMap ∅ ∅ [])]})
    1 parent None (list_to_set (slot :: ancestors)) 0 ∅ 0 0 false.
Definition tree : list ForkBank :=
  [bank 1 0 [0]; bank 2 0 [0]; bank 3 1 [1; 0]; bank 4 2 [2; 0]; bank 5 3 [3; 1; 0]; bank 6 3 [3; 1; 0]].
Definition grow (f : BankForks) : option BankForks :=
  foldl (fun r b => f ← r; forks_insert f b) (Some f) tree.

Lemma grow_steps f l f' :
  foldl (fun r b => f ← r; forks_insert f b) (Some f) l = Some f' -> rtc forks_step f f'.
Proof.
  revert f. induction l as [|b l IH]; intros f; simpl; [intros [= ->]; constructor|].
  destruct (forks_insert f b) as [f1|] eqn:Hb.
  - intros Hl. eapply rtc_l; [|by apply IH]. eapply (step_insert f b); [|done].
    unfold forks_insert in Hb. case_bool_decide; simpl in Hb; inv_bind; by to_prop.
  - clear. intros H. exfalso. induction l as [|c l IH]; simpl in H; [done|auto].
Qed.
Definition forks0 : BankForks := new_rw_arc (bank 0 0 []) (status_new PreFeatureActivation).
Definition forks : BankForks := default forks0 (grow forks0).
Lemma forks_reached : rtc forks_step forks0 forks.
Proof. apply (grow_steps _ tree). vm_compute. reflexivity. Qed.
End ForksExample.

Lemma set_root_keeps_rooted_witness :
  exists f' removed, forks_set_root (fun _ => 1) None ForksExample.forks 3 (Some 0) = Some (f', removed) /\
    bf_root f' = 3 /\ is_Some (bf_banks f' !! 1) /\ is_Some (bf_banks f' !! 6) /\
    2 ∈ fb_slot <$> removed /\ 4 ∈ fb_slot <$> removed.
Proof.
  destruct (set_root_keeps_rooted (ForksExample.bank 0 0 []) (status_new PreFeatureActivation) ForksExample.forks
    (fun _ => 1) None 3 (ForksExample.bank 3 1 [1; 0]) (Some 0)) as (f' & removed & Heq & Hr & Hk & Hrem & _).
  - reflexivity.
  - exact ForksExample.forks_reached.
  - vm_compute. reflexivity.
  - eexists. vm_compute. reflexivity.
  - exists f', removed. rewrite !Hk, !Hrem. split; [exact Heq|]. split; [exact Hr|].
    split_and!; apply (bool_decide_unpack _); vm_compute; exact I.
Defined.
