(* ===== verification/VoteHistory.v ===== *)
(** * The votes a node has cast

    [votor/src/vote_history.rs]: the record a validator keeps of its own votes,
    from which it decides what it may still vote for.  The history is compared
    with the plain list of the votes added to it ([history_rel]): every query
    about a slot at or above the root is answered as that list says, and the
    assertions of [add_vote] hold exactly when the vote is allowed by it. *)

From S2P Require Import Prelude.
From S2P Require Import Messages.

Record VoteHistory := mkVoteHistory {
  vh_node_pubkey : Pubkey;
  vh_voted : gset Slot;
  vh_voted_notar : gmap Slot Hash;
  vh_voted_notar_fallback : gmap Slot (gset Hash);
  vh_voted_skip_fallback : gset Slot;
  vh_skipped : gset Slot;
  vh_its_over : gset Slot;
  vh_votes_cast : gmap Slot (list Vote);
  vh_notarized_blocks : gset Block;
  vh_parent_ready_slots : gmap Slot (gset Block);
  vh_root : Slot;
}.

Definition vote_history_new (node_pubkey : Pubkey) (root : Slot) : VoteHistory :=
  mkVoteHistory node_pubkey ∅ ∅ ∅ ∅ ∅ ∅ ∅ ∅ ∅ root.

(** ** Queries

    The queries about the node's votes assert that the slot is not below the
    root: [None] is the panic. *)

Definition voted (h : VoteHistory) (slot : Slot) : option bool :=
  rust_assert (bool_decide (vh_root h <= slot));;
  Some (bool_decide (slot ∈ vh_voted h)).
Definition voted_notar (h : VoteHistory) (slot : Slot) : option (option Hash) :=
  rust_assert (bool_decide (vh_root h <= slot));;
  Some (vh_voted_notar h !! slot).
Definition voted_notar_fallback (h : VoteHistory) (slot : Slot) (block_id : Hash) : option bool :=
  rust_assert (bool_decide (vh_root h <= slot));;
  Some (match vh_voted_notar_fallback h !! slot with
        | Some v => bool_decide (block_id ∈ v)
        | None => false
        end).
Definition voted_skip_fallback (h : VoteHistory) (slot : Slot) : option bool :=
  rust_assert (bool_decide (vh_root h <= slot));;
  Some (bool_decide (slot ∈ vh_voted_skip_fallback h)).
Definition skipped (h : VoteHistory) (slot : Slot) : option bool :=
  rust_assert (bool_decide (vh_root h <= slot));;
  Some (bool_decide (slot ∈ vh_skipped h)).
Definition its_over (h : VoteHistory) (slot : Slot) : option bool :=
  rust_assert (bool_decide (vh_root h <= slot));;
  Some (bool_decide (slot ∈ vh_its_over h)).

(** The iteration order of the [HashMap] is unspecified; the model's is by slot. *)
Definition votes_cast_since (h : VoteHistory) (slot : Slot) : list Vote :=
  concat (btree_iter (filter (fun e => slot < e.1) (vh_votes_cast h))).*2.

Definition bad_window (h : VoteHistory) (slot : Slot) : option bool :=
  rust_assert (bool_decide (vh_root h <= slot));;
  Some (bool_decide (slot ∈ vh_skipped h)
        || bool_decide (is_Some (vh_voted_notar_fallback h !! slot))
        || bool_decide (slot ∈ vh_voted_skip_fallback h)).

Definition is_block_notarized (h : VoteHistory) (block : Block) : bool :=
  bool_decide (block ∈ vh_notarized_blocks h).
Definition is_parent_ready (h : VoteHistory) (slot : Slot) (parent : Block) : bool :=
  match vh_parent_ready_slots h !! slot with
  | Some ps => bool_decide (parent ∈ ps)
  | None => false
  end.
Definition highest_parent_ready_slot (h : VoteHistory) : option Slot :=
  iter_max (map_to_list (vh_parent_ready_slots h)).*1.

(** ** Updates *)

Definition with_votes (h : VoteHistory) voted voted_notar nf sf skipped over cast : VoteHistory :=
  mkVoteHistory (vh_node_pubkey h) voted voted_notar nf sf skipped over cast
    (vh_notarized_blocks h) (vh_parent_ready_slots h) (vh_root h).

Definition push_cast (h : VoteHistory) (vote : Vote) : gmap Slot (list Vote) :=
  <[vote_slot vote := default [] (vh_votes_cast h !! vote_slot vote) ++ [vote]]> (vh_votes_cast h).

Definition vh_add_vote (h : VoteHistory) (vote : Vote) : option VoteHistory :=
  rust_assert (bool_decide (vh_root h <= vote_slot vote));;
  h ← match vote with
      | Notarize s b =>
        rust_assert (bool_decide (s ∉ vh_voted h));;
        rust_assert (bool_decide (vh_voted_notar h !! s = None));;
        Some (with_votes h ({[s]} ∪ vh_voted h) (<[s := b]> (vh_voted_notar h))
                (vh_voted_notar_fallback h) (vh_voted_skip_fallback h) (vh_skipped h)
                (vh_its_over h) (vh_votes_cast h))
      | Finalize s =>
        sk ← skipped h s; rust_assert (negb sk);;
        Some (with_votes h (vh_voted h) (vh_voted_notar h)
                (vh_voted_notar_fallback h) (vh_voted_skip_fallback h) (vh_skipped h)
                ({[s]} ∪ vh_its_over h) (vh_votes_cast h))
      | Skip s =>
        Some (with_votes h ({[s]} ∪ vh_voted h) (vh_voted_notar h)
                (vh_voted_notar_fallback h) (vh_voted_skip_fallback h) ({[s]} ∪ vh_skipped h)
                (vh_its_over h) (vh_votes_cast h))
      | NotarizeFallback s b =>
        v ← voted h s; rust_assert v;;
        o ← its_over h s; rust_assert (negb o);;
        Some (with_votes h (vh_voted h) (vh_voted_notar h)
                (<[s := {[b]} ∪ default ∅ (vh_voted_notar_fallback h !! s)]> (vh_voted_notar_fallback h))
                (vh_voted_skip_fallback h) ({[s]} ∪ vh_skipped h)
                (vh_its_over h) (vh_votes_cast h))
      | SkipFallback s =>
        v ← voted h s; rust_assert v;;
        o ← its_over h s; rust_assert (negb o);;
        Some (with_votes h (vh_voted h) (vh_voted_notar h)
                (vh_voted_notar_fallback h) ({[s]} ∪ vh_voted_skip_fallback h) ({[s]} ∪ vh_skipped h)
                (vh_its_over h) (vh_votes_cast h))
      | Genesis _ _ => Some h
      end;
  Some (with_votes h (vh_voted h) (vh_voted_notar h) (vh_voted_notar_fallback h)
          (vh_voted_skip_fallback h) (vh_skipped h) (vh_its_over h) (push_cast h vote)).

Definition with_blocks (h : VoteHistory) notarized ready : VoteHistory :=
  mkVoteHistory (vh_node_pubkey h) (vh_voted h) (vh_voted_notar h) (vh_voted_notar_fallback h)
    (vh_voted_skip_fallback h) (vh_skipped h) (vh_its_over h) (vh_votes_cast h)
    notarized ready (vh_root h).

Definition add_block_notarized (h : VoteHistory) (block : Block) : VoteHistory :=
  if bool_decide (block.1 < vh_root h) then h
  else with_blocks h ({[block]} ∪ vh_notarized_blocks h) (vh_parent_ready_slots h).

Definition add_parent_ready (h : VoteHistory) (slot : Slot) (parent : Block) : VoteHistory * bool :=
  if bool_decide (slot < vh_root h) then (h, false)
  else
    match vh_parent_ready_slots h !! slot with
    | Some ps =>
      (with_blocks h (vh_notarized_blocks h) (<[slot := {[parent]} ∪ ps]> (vh_parent_ready_slots h)), false)
    | None =>
      (with_blocks h (vh_notarized_blocks h) (<[slot := {[parent]}]> (vh_parent_ready_slots h)), true)
    end.

Definition retain_slots (root : Slot) (s : gset Slot) : gset Slot := filter (fun x => root <= x) s.
Definition retain_keys {A} (root : Slot) (m : gmap Slot A) : gmap Slot A :=
  filter (fun e => root <= e.1) m.

Definition vh_set_root (h : VoteHistory) (root : Slot) : VoteHistory :=
  mkVoteHistory (vh_node_pubkey h) (retain_slots root (vh_voted h))
    (retain_keys root (vh_voted_notar h)) (retain_keys root (vh_voted_notar_fallback h))
    (retain_slots root (vh_voted_skip_fallback h)) (retain_slots root (vh_skipped h))
    (retain_slots root (vh_its_over h)) (retain_keys root (vh_votes_cast h))
    (filter (fun b => root <= b.1) (vh_notarized_blocks h))
    (retain_keys root (vh_parent_ready_slots h)) root.

(** ** The list of votes as the specification *)

(** [v] decides slot [s] first: it notarizes a block of [s] or skips [s]. *)
Definition first_vote (s : Slot) (v : Vote) : Prop :=
  match v with Notarize s' _ | Skip s' => s' = s | _ => False end.
(** [v] puts slot [s] into the bad window: it skips or falls back. *)
Definition bad_vote (s : Slot) (v : Vote) : Prop :=
  match v with Skip s' | SkipFallback s' | NotarizeFallback s' _ => s' = s | _ => False end.

Definition has_first (L : list Vote) (s : Slot) : Prop := exists v, v ∈ L /\ first_vote s v.
Definition has_bad (L : list Vote) (s : Slot) : Prop := exists v, v ∈ L /\ bad_vote s v.

(** [h] is the history of the votes [L]: below the root it may have forgotten,
    from the root on it is exact. *)
Record history_rel (h : VoteHistory) (L : list Vote) : Prop := {
  hr_voted s : vh_root h <= s -> s ∈ vh_voted h <-> has_first L s;
  hr_notar s b : vh_root h <= s -> vh_voted_notar h !! s = Some b <-> Notarize s b ∈ L;
  hr_notar_fallback s b : vh_root h <= s ->
    b ∈ default ∅ (vh_voted_notar_fallback h !! s) <-> NotarizeFallback s b ∈ L;
  hr_fallback_key s X : vh_voted_notar_fallback h !! s = Some X -> X <> ∅;
  hr_skip_fallback s : vh_root h <= s -> s ∈ vh_voted_skip_fallback h <-> SkipFallback s ∈ L;
  hr_skipped s : vh_root h <= s -> s ∈ vh_skipped h <-> has_bad L s;
  hr_its_over s : vh_root h <= s -> s ∈ vh_its_over h <-> Finalize s ∈ L;
  hr_cast s : vh_root h <= s ->
    default [] (vh_votes_cast h !! s) = filter (fun v => vote_slot v = s) L;
}.

(** What the assertions of [add_vote] ask of the votes so far. *)
Definition assertable (L : list Vote) (v : Vote) : Prop :=
  match v with
  | Notarize s _ => ~ has_first L s
  | Finalize s => ~ has_bad L s
  | NotarizeFallback s _ | SkipFallback s => has_first L s /\ Finalize s ∉ L
  | Skip _ | Genesis _ _ => True
  end.

Lemma assert_root h s : rust_assert (bool_decide (vh_root h <= s)) = Some tt <-> vh_root h <= s.
Proof. unfold rust_assert. case_bool_decide; naive_solver. Qed.
Ltac at_root Hs :=
  rewrite (proj2 (assert_root _ _) Hs); cbn [mbind option_bind].

Lemma has_first_snoc L v s : has_first (L ++ [v]) s <-> has_first L s \/ first_vote s v.
Proof. unfold has_first. set_solver. Qed.
Lemma has_bad_snoc L v s : has_bad (L ++ [v]) s <-> has_bad L s \/ bad_vote s v.
Proof. unfold has_bad. set_solver. Qed.
Lemma notarize_first L s b : Notarize s b ∈ L -> has_first L s.
Proof. by exists (Notarize s b). Qed.
Lemma skip_first L s : Skip s ∈ L -> has_first L s.
Proof. by exists (Skip s). Qed.
Lemma fallback_bad L s b : NotarizeFallback s b ∈ L -> has_bad L s.
Proof. by exists (NotarizeFallback s b). Qed.
Lemma skip_fallback_bad L s : SkipFallback s ∈ L -> has_bad L s.
Proof. by exists (SkipFallback s). Qed.
Lemma skip_bad L s : Skip s ∈ L -> has_bad L s.
Proof. by exists (Skip s). Qed.
#[export] Hint Resolve notarize_first skip_first fallback_bad skip_fallback_bad skip_bad : votor.

Section queries.
Context (h : VoteHistory) (L : list Vote) (Hrel : history_rel h L) (s : Slot) (Hs : vh_root h <= s).

Lemma voted_spec : voted h s = Some (bool_decide (s ∈ vh_voted h)).
Proof using Hs. unfold voted. by at_root Hs. Qed.
Lemma voted_true : voted h s = Some true <-> has_first L s.
Proof using Hrel Hs. rewrite voted_spec, <-(hr_voted _ _ Hrel s Hs). case_bool_decide; naive_solver. Qed.
Lemma voted_false : voted h s = Some false <-> ~ has_first L s.
Proof using Hrel Hs. rewrite voted_spec, <-(hr_voted _ _ Hrel s Hs). case_bool_decide; naive_solver. Qed.
Lemma voted_notar_spec : voted_notar h s = Some (vh_voted_notar h !! s).
Proof using Hs. unfold voted_notar. by at_root Hs. Qed.
Lemma its_over_spec : its_over h s = Some (bool_decide (s ∈ vh_its_over h)).
Proof using Hs. unfold its_over. by at_root Hs. Qed.
Lemma skipped_spec : skipped h s = Some (bool_decide (s ∈ vh_skipped h)).
Proof using Hs. unfold skipped. by at_root Hs. Qed.
Lemma skip_fallback_spec : voted_skip_fallback h s = Some (bool_decide (s ∈ vh_voted_skip_fallback h)).
Proof using Hs. unfold voted_skip_fallback. by at_root Hs. Qed.
Lemma notar_fallback_spec b :
  voted_notar_fallback h s b = Some (bool_decide (b ∈ default ∅ (vh_voted_notar_fallback h !! s))).
Proof using Hs.
  unfold voted_notar_fallback. at_root Hs. destruct (vh_voted_notar_fallback h !! s); [done|].
  by rewrite bool_decide_false by apply not_elem_of_empty.
Qed.
(** The three tests of [bad_window] are the one of [skipped]. *)
Lemma bad_window_spec : bad_window h s = Some (bool_decide (s ∈ vh_skipped h)).
Proof using Hrel Hs.
  unfold bad_window. at_root Hs. f_equal. destruct Hrel as [_ _ Hnf Hkey Hsf Hsk _ _].
  destruct (bool_decide_reflect (s ∈ vh_skipped h)) as [|Hn]; [done|]. rewrite (Hsk s Hs) in Hn.
  rewrite (bool_decide_false (s ∈ vh_voted_skip_fallback h))
    by (rewrite (Hsf s Hs); eauto with votor).
  rewrite bool_decide_false; [done|]. intros [X HX]. destruct (set_choose_L X (Hkey _ _ HX)) as [b Hb].
  apply Hn, (fallback_bad L s b), (Hnf s b Hs). by rewrite HX.
Qed.
End queries.

Lemma history_rel_new k root : history_rel (vote_history_new k root) [].
Proof.
  split; intros; simpl; unfold has_first, has_bad; rewrite ?lookup_empty; simpl; set_solver.
Qed.

(** The record of a vote that passed the assertions. *)
Lemma cast_push h L v s :
  history_rel h L -> vh_root h <= s ->
  default [] (push_cast h v !! s) = filter (fun w => vote_slot w = s) (L ++ [v]).
Proof.
  intros Hrel Hs. rewrite filter_app, <-(hr_cast _ _ Hrel s Hs). unfold push_cast.
  destruct (decide (vote_slot v = s)) as [<-|Hne].
  - rewrite lookup_insert_eq. simpl. by rewrite filter_cons_True.
  - rewrite lookup_insert_ne by done. rewrite filter_cons_False by done. by rewrite filter_nil, app_nil_r.
Qed.

(** One field of [history_rel] after a vote. *)
Ltac history_field Hrel fld :=
  intros; simpl in *;
  rewrite ?has_first_snoc, ?has_bad_snoc, ?elem_of_app, ?list_elem_of_singleton,
    ?elem_of_union, ?elem_of_singleton, <-(fld _ _ Hrel) by done;
  clear; naive_solver.
Ltac history_fields Hrel :=
  split; [try solve [history_field Hrel hr_voted]|try solve [history_field Hrel hr_notar]
         |try solve [history_field Hrel hr_notar_fallback]|try solve [exact (hr_fallback_key _ _ Hrel)]
         |try solve [history_field Hrel hr_skip_fallback]|try solve [history_field Hrel hr_skipped]
         |try solve [history_field Hrel hr_its_over]|by intros; apply (cast_push _ _ _ _ Hrel)].

(** Adding a vote: the assertions test [assertable], and the result is the
    history of the longer list. *)
Lemma vh_add_vote_ok h L v :
  history_rel h L -> vh_root h <= vote_slot v -> assertable L v ->
  exists h', vh_add_vote h v = Some h' /\ history_rel h' (L ++ [v]) /\ vh_root h' = vh_root h /\
    vh_node_pubkey h' = vh_node_pubkey h /\ vh_notarized_blocks h' = vh_notarized_blocks h /\
    vh_parent_ready_slots h' = vh_parent_ready_slots h.
Proof.
  intros Hrel Hs Ha. unfold vh_add_vote. at_root Hs.
  destruct v as [s b|s|s|s b|s|s b]; simpl in Hs, Ha.
  - rewrite (bool_decide_true (s ∉ _)) by (by rewrite (hr_voted _ _ Hrel s Hs)).
    rewrite bool_decide_true.
    2:{ apply eq_None_not_Some. intros [b' Hb']. apply (hr_notar _ _ Hrel s b' Hs) in Hb'. eauto with votor. }
    cbn [mbind option_bind rust_assert]. eexists. split_and!; [done| |done..]. history_fields Hrel.
    intros s' b' Hs'. simpl in *. rewrite elem_of_app, list_elem_of_singleton.
    destruct (decide (s = s')) as [<-|Hne].
    + rewrite lookup_insert_eq. split; [intros [= ->]; by right|].
      intros [Hin|[= ->]]; [|done]. destruct Ha; eauto with votor.
    + rewrite lookup_insert_ne, (hr_notar _ _ Hrel s' b' Hs') by done. clear -Hne. naive_solver.
  - rewrite (skipped_spec _ _ Hs). rewrite bool_decide_false by (by rewrite (hr_skipped _ _ Hrel s Hs)).
    cbn [mbind option_bind rust_assert negb]. eexists. split_and!; [done| |done..]. history_fields Hrel.
  - cbn [mbind option_bind]. eexists. split_and!; [done| |done..]. history_fields Hrel.
  - destruct Ha as [Ha1 Ha2]. rewrite (proj2 (voted_true _ _ Hrel _ Hs) Ha1), (its_over_spec _ _ Hs).
    rewrite bool_decide_false by (by rewrite (hr_its_over _ _ Hrel s Hs)).
    cbn [mbind option_bind rust_assert negb]. eexists. split_and!; [done| |done..]. history_fields Hrel.
    + intros s' b' Hs'. simpl in *. rewrite elem_of_app, list_elem_of_singleton, <-(hr_notar_fallback _ _ Hrel) by done.
      destruct (decide (s = s')) as [<-|Hne].
      * rewrite lookup_insert_eq. simpl. set_solver.
      * rewrite lookup_insert_ne by done. clear -Hne. naive_solver.
    + simpl. intros s' X. destruct (decide (s = s')) as [<-|Hne].
      * rewrite lookup_insert_eq. intros [= <-]. set_solver.
      * rewrite lookup_insert_ne by done. apply (hr_fallback_key _ _ Hrel).
  - destruct Ha as [Ha1 Ha2]. rewrite (proj2 (voted_true _ _ Hrel _ Hs) Ha1), (its_over_spec _ _ Hs).
    rewrite bool_decide_false by (by rewrite (hr_its_over _ _ Hrel s Hs)).
    cbn [mbind option_bind rust_assert negb]. eexists. split_and!; [done| |done..]. history_fields Hrel.
  - cbn [mbind option_bind]. eexists. split_and!; [done| |done..]. history_fields Hrel.
Qed.

(** The assertions hold for no other vote. *)
Lemma vh_add_vote_assertable h L v h' :
  history_rel h L -> vh_add_vote h v = Some h' -> vh_root h <= vote_slot v /\ assertable L v.
Proof.
  intros Hrel Hadd. unfold vh_add_vote in Hadd. inv_bind. to_prop. split; [done|].
  destruct v as [s b|s|s|s b|s|s b]; simpl in *; [| |done|..|done];
    unfold rust_assert, voted, skipped, its_over in *; inv_bind; to_prop.
  - by rewrite <-(hr_voted _ _ Hrel s).
  - by rewrite <-(hr_skipped _ _ Hrel s).
  - by rewrite <-(hr_voted _ _ Hrel s), <-(hr_its_over _ _ Hrel s).
  - by rewrite <-(hr_voted _ _ Hrel s), <-(hr_its_over _ _ Hrel s).
Qed.

Lemma elem_of_retain root (X : gset Slot) s : s ∈ retain_slots root X <-> root <= s /\ s ∈ X.
Proof. unfold retain_slots. by rewrite elem_of_filter. Qed.
Lemma lookup_retain {A} root (m : gmap Slot A) s :
  retain_keys root m !! s = if bool_decide (root <= s) then m !! s else None.
Proof.
  unfold retain_keys. case_bool_decide as Hs.
  - destruct (m !! s) as [x|] eqn:Hm.
    + by apply map_lookup_filter_Some_2.
    + apply map_lookup_filter_None. by left.
  - apply map_lookup_filter_None. right. intros x _. done.
Qed.

(** A new root forgets only what is below it. *)
Lemma vh_set_root_ok h L root :
  history_rel h L -> vh_root h <= root -> history_rel (vh_set_root h root) L.
Proof.
  intros [R1 R2 R3 R4 R5 R6 R7 R8] Hr.
  split; simpl; intros s; intros; rewrite ?elem_of_retain, ?lookup_retain, ?bool_decide_true in * by done;
    try (first [rewrite R1 by lia|rewrite R2 by lia|rewrite R3 by lia|rewrite R5 by lia|rewrite R6 by lia
               |rewrite R7 by lia|rewrite R8 by lia]; tauto).
  case_bool_decide; [by eapply R4|done].
Qed.
Lemma add_block_notarized_ok h L b : history_rel h L -> history_rel (add_block_notarized h b) L.
Proof. intros [? ? ? ? ? ? ? ?]. unfold add_block_notarized. case_bool_decide; by split. Qed.
Lemma add_parent_ready_ok h L s b : history_rel h L -> history_rel (add_parent_ready h s b).1 L.
Proof.
  intros [? ? ? ? ? ? ? ?]. unfold add_parent_ready.
  case_bool_decide; [by split|]. destruct (_ !! s); by split.
Qed.

(** The votes resent after a standstill are those cast above the slot. *)
Lemma votes_cast_since_spec h L s v :
  history_rel h L -> vh_root h <= s + 1 -> v ∈ votes_cast_since h s <-> v ∈ L /\ s < vote_slot v.
Proof.
  intros Hrel Hs. unfold votes_cast_since. rewrite list_elem_of_In, in_concat. split.
  - intros (l & ([s' l'] & -> & He)%list_elem_of_In%list_elem_of_fmap & Hv%list_elem_of_In). simpl in Hv.
    apply elem_of_btree_iter, map_lookup_filter_Some in He as [Hl Hlt]. simpl in Hlt.
    pose proof (hr_cast _ _ Hrel s' ltac:(lia)) as Hc. rewrite Hl in Hc. simpl in Hc. subst l'.
    apply list_elem_of_filter in Hv as [<- Hv]. done.
  - intros [Hv Hlt]. pose proof (hr_cast _ _ Hrel (vote_slot v) ltac:(lia)) as Hc.
    assert (v ∈ default [] (vh_votes_cast h !! vote_slot v)) as Hin by (rewrite Hc; by apply list_elem_of_filter).
    destruct (vh_votes_cast h !! vote_slot v) as [l|] eqn:El; [|by apply elem_of_nil in Hin].
    exists l. split; [|by apply list_elem_of_In]. apply list_elem_of_In, list_elem_of_fmap. exists (vote_slot v, l). split; [done|].
    apply elem_of_btree_iter. by apply map_lookup_filter_Some_2.
Qed.

(** ** Runs of a history *)

Inductive history_op :=
  | OpVote (v : Vote)
  | OpNotarized (b : Block)
  | OpParentReady (s : Slot) (b : Block)
  | OpSetRoot (root : Slot).

Definition history_apply (h : VoteHistory) (op : history_op) : option VoteHistory :=
  match op with
  | OpVote v => vh_add_vote h v
  | OpNotarized b => Some (add_block_notarized h b)
  | OpParentReady s b => Some (add_parent_ready h s b).1
  | OpSetRoot root => rust_assert (bool_decide (vh_root h <= root));; Some (vh_set_root h root)
  end.
Definition history_run (h : VoteHistory) (ops : list history_op) : option VoteHistory :=
  foldl (fun r op => h ← r; history_apply h op) (Some h) ops.
Definition op_votes (ops : list history_op) : list Vote :=
  omap (fun op => match op with OpVote v => Some v | _ => None end) ops.

Lemma history_run_snoc h ops op : history_run h (ops ++ [op]) = history_run h ops ≫= fun h => history_apply h op.
Proof. unfold history_run. by rewrite foldl_app. Qed.

Lemma history_run_rel k root ops h :
  history_run (vote_history_new k root) ops = Some h -> history_rel h (op_votes ops).
Proof.
  revert h. induction ops as [|op ops IH] using rev_ind; intros h.
  { intros [= <-]. apply history_rel_new. }
  rewrite history_run_snoc. intros (h0 & H0 & Hop)%bind_Some. specialize (IH h0 H0).
  unfold op_votes. rewrite omap_app. fold (op_votes ops).
  destruct op as [v|b|s b|r]; simpl in *; rewrite ?app_nil_r.
  - destruct (vh_add_vote_assertable _ _ _ _ IH Hop) as [Hs Ha].
    destruct (vh_add_vote_ok _ _ _ IH Hs Ha) as (h' & Heq & Hrel & _). congruence.
  - inv_some. by apply add_block_notarized_ok.
  - inv_some. by apply add_parent_ready_ok.
  - inv_bind. to_prop. by apply vh_set_root_ok.
Qed.

(** C17: A vote history is exact.  After any run of it (votes, notarized blocks,
    ready parents, advancing roots) every query about a slot from the root on
    answers as the list of the votes added says, the votes to resend are those
    above the given slot, and a further vote passes the assertions of [add_vote]
    exactly when it does not contradict that list. *)
Theorem history_exact k root ops h
    (Hrun : history_run (vote_history_new k root) ops = Some h) :
  let L := op_votes ops in
  (forall s, vh_root h <= s ->
     (voted h s = Some true <-> has_first L s) /\ (voted h s = Some false <-> ~ has_first L s) /\
     (forall b, voted_notar h s = Some (Some b) <-> Notarize s b ∈ L) /\
     (forall b, voted_notar_fallback h s b = Some true <-> NotarizeFallback s b ∈ L) /\
     (voted_skip_fallback h s = Some true <-> SkipFallback s ∈ L) /\
     (its_over h s = Some true <-> Finalize s ∈ L) /\
     (bad_window h s = Some true <-> has_bad L s) /\
     (forall v, v ∈ votes_cast_since h s <-> v ∈ L /\ s < vote_slot v)) /\
  (forall v, is_Some (vh_add_vote h v) <-> vh_root h <= vote_slot v /\ assertable L v).
Proof.
  intros L. pose proof (history_run_rel _ _ _ _ Hrun) as Hrel. fold L in Hrel.
  assert (forall b b' : bool, Some b = Some b' <-> b = b') as Hb by (split; congruence).
  split.
  - intros s Hs. rewrite (voted_notar_spec h s Hs), (skip_fallback_spec h s Hs), (its_over_spec h s Hs),
      (bad_window_spec h L Hrel s Hs), !Hb, !bool_decide_eq_true.
    split_and!; [by apply voted_true|by apply voted_false| | | | | |].
    + intros b. rewrite <-(hr_notar _ _ Hrel s b Hs). split; congruence.
    + intros b. rewrite (notar_fallback_spec h s Hs), Hb, bool_decide_eq_true. by apply (hr_notar_fallback _ _ Hrel).
    + by apply (hr_skip_fallback _ _ Hrel).
    + by apply (hr_its_over _ _ Hrel).
    + by apply (hr_skipped _ _ Hrel).
    + intros v. apply votes_cast_since_spec; [done|lia].
  - intros v. split.
    + intros [h' Hh']. by eapply vh_add_vote_assertable.
    + intros [Hs Ha]. destruct (vh_add_vote_ok _ _ _ Hrel Hs Ha) as (h' & -> & _). by eexists.
Qed.
Lemma history_exact_witness :
  exists h, history_run (vote_history_new 7 0)
    [OpVote (Notarize 1 5); OpVote (Finalize 1); OpVote (Skip 2); OpVote (NotarizeFallback 2 9); OpSetRoot 2] = Some h /\
    (NotarizeFallback 2 9 ∈ votes_cast_since h 2 <-> False) /\ ~ is_Some (vh_add_vote h (Notarize 2 9)).
Proof.
  eexists. split; [vm_compute; reflexivity|].
  match goal with |- context [vh_add_vote ?h _] =>
    pose proof (history_exact 7 0 [OpVote (Notarize 1 5); OpVote (Finalize 1); OpVote (Skip 2);
      OpVote (NotarizeFallback 2 9); OpSetRoot 2] h ltac:(vm_compute; reflexivity)) as [Hq Hv] end.
  split.
  - destruct (Hq 2 ltac:(vm_compute; discriminate)) as (_ & _ & _ & _ & _ & _ & _ & ->). simpl. lia.
  - rewrite Hv. simpl. intros [_ Hn]. apply Hn. exists (Skip 2). split; [|done]. apply list_elem_of_In. simpl. tauto.
Defined.
