(* ===== verification/VoteStorage.v ===== *)
(** * Saving and restoring the vote history

    [votor/src/vote_history_storage.rs] and the [save]/[restore] methods of
    [votor/src/vote_history.rs]: the history is serialized, signed with the node's
    identity and written to a file named after it.  [bincode] and the signature
    scheme are external; [StorageOps] holds what the code calls of them and
    [StorageLaws] their documented behaviour.  The calls to the file system of a
    load may fail ([LoadIo]).  The code syncs neither the new file nor its directory,
    so a crash of the process ([crashed]) and a loss of power ([power_lost]) are
    different: the first leaves what was written so far, the second what the
    operating system had put on the disk. *)

From S2P Require Import Prelude.
From S2P Require Import Messages.
From S2P Require Import VoteHistory.

Record Keypair := mkKeypair { kp_pubkey : Pubkey; kp_secret : Z }.
#[global] Instance Keypair_eq_dec : EqDecision Keypair.
Proof. solve_decision. Defined.

(** The first field is the ed25519 signature, the second the serialized history;
    [node_pubkey] is skipped by [serde]. *)
Record SavedVoteHistory := mkSavedVoteHistory {
  svh_signature : Z;
  svh_data : list Z;
  svh_node_pubkey : Pubkey;
}.

Inductive IoErrorKind := NotFound | OtherIo.
Inductive VoteHistoryError :=
  | VhIoError (kind : IoErrorKind)
  | SerializeError
  | InvalidSignature
  | WrongVoteHistory
  | HardFork (slot : Slot).

Definition is_file_missing (e : VoteHistoryError) : bool :=
  match e with VhIoError NotFound => true | _ => false end.

Class StorageOps := {
  bincode_history : VoteHistory -> option (list Z);
  unbincode_history : list Z -> option VoteHistory;
  bincode_saved : Z * list Z -> list Z;
  unbincode_saved : list Z -> option (Z * list Z);
  sign_message : Keypair -> list Z -> Z;
  sig_verify : Pubkey -> Z -> list Z -> bool;
}.
Class StorageLaws `{StorageOps} := {
  history_round_trip h : exists data, bincode_history h = Some data /\ unbincode_history data = Some h;
  saved_round_trip x : unbincode_saved (bincode_saved x) = Some x;
  sign_verifies kp data : sig_verify (kp_pubkey kp) (sign_message kp data) data = true;
}.

(** The files of the directory, by name: [vote_history-<pubkey>.bin] and the
    [.bin.new] a new version is written to. *)
Inductive file_name := BinFile (node_pubkey : Pubkey) | BinNewFile (node_pubkey : Pubkey).
#[global] Instance file_name_eq_dec : EqDecision file_name.
Proof. solve_decision. Defined.
#[global] Instance file_name_countable : Countable file_name.
Proof.
  apply (inj_countable (fun f => match f with BinFile k => inl k | BinNewFile k => inr k end)
    (fun s => Some (match s with inl k => BinFile k | inr k => BinNewFile k end))). by intros [].
Defined.
Abbreviation files := (gmap file_name (list Z)).

(** What the operating system answers to the calls of a load: the error each of
    them fails with, if any.  An error while reading reaches the code through
    [bincode]. *)
Record LoadIo := mkLoadIo {
  io_create_dir_all : option IoErrorKind;
  io_open : option IoErrorKind;
  io_read : option IoErrorKind;
}.
Definition io_fine : LoadIo := mkLoadIo None None None.

(** The same for a store; a write may fail after some of the bytes. *)
Record StoreIo := mkStoreIo {
  io_create : option IoErrorKind;
  io_write : option nat;
  io_rename : option IoErrorKind;
}.
Definition store_fine : StoreIo := mkStoreIo None None None.

Section storage.
Context `{StorageOps}.

Definition saved_new (h : VoteHistory) (keypair : Keypair) : result VoteHistoryError SavedVoteHistory :=
  if bool_decide (vh_node_pubkey h <> kp_pubkey keypair) then Err WrongVoteHistory
  else
    match bincode_history h with
    | None => Err SerializeError
    | Some data => Ok (mkSavedVoteHistory (sign_message keypair data) data (kp_pubkey keypair))
    end.

(** [None] is the failed [assert_eq!] on a value that was not just deserialized. *)
Definition try_into_vote_history (saved : SavedVoteHistory) (node_pubkey : Pubkey)
    : option (result VoteHistoryError VoteHistory) :=
  rust_assert (bool_decide (svh_node_pubkey saved = 0));;
  Some (if negb (sig_verify node_pubkey (svh_signature saved) (svh_data saved)) then Err InvalidSignature
        else
          match unbincode_history (svh_data saved) with
          | None => Err SerializeError
          | Some h => if bool_decide (vh_node_pubkey h <> node_pubkey) then Err WrongVoteHistory else Ok h
          end).

Definition serialize_into (saved : SavedVoteHistory) : list Z :=
  bincode_saved (svh_signature saved, svh_data saved).

Definition storage_load (io : LoadIo) (fs : files) (node_pubkey : Pubkey)
    : option (result VoteHistoryError VoteHistory) :=
  match io_create_dir_all io with
  | Some kind => Some (Err (VhIoError kind))
  | None =>
    match io_open io, fs !! BinFile node_pubkey with
    | Some kind, _ => Some (Err (VhIoError kind))
    | None, None => Some (Err (VhIoError NotFound))
    | None, Some bytes =>
      match io_read io, unbincode_saved bytes with
      | Some _, _ => Some (Err SerializeError)
      | None, None => Some (Err SerializeError)
      | None, Some (signature, data) => try_into_vote_history (mkSavedVoteHistory signature data 0) node_pubkey
      end
    end
  end.

(** The writes of [store], in order: create the new file (or truncate it), write
    the bytes, rename it over the old one.  None of them is synced. *)
Inductive fs_step :=
  | CreateFile (f : file_name)
  | WriteBytes (f : file_name) (bytes : list Z)
  | RenameFile (from to : file_name).
Definition fs_apply (fs : files) (s : fs_step) : files :=
  match s with
  | CreateFile f => <[f := []]> fs
  | WriteBytes f bytes => <[f := default [] (fs !! f) ++ bytes]> fs
  | RenameFile from to =>
    match fs !! from with Some bytes => <[to := bytes]> (delete from fs) | None => fs end
  end.
Definition store_steps (saved : SavedVoteHistory) : list fs_step :=
  let new := BinNewFile (svh_node_pubkey saved) in
  [CreateFile new; WriteBytes new (serialize_into saved); RenameFile new (BinFile (svh_node_pubkey saved))].
Definition storage_store_io (io : StoreIo) (fs : files) (saved : SavedVoteHistory)
    : files * result VoteHistoryError unit :=
  let filename := BinFile (svh_node_pubkey saved) in
  let new_filename := BinNewFile (svh_node_pubkey saved) in
  match io_create io with
  | Some kind => (fs, Err (VhIoError kind))
  | None =>
    let fs := fs_apply fs (CreateFile new_filename) in
    match io_write io with
    | Some n => (fs_apply fs (WriteBytes new_filename (take n (serialize_into saved))), Err SerializeError)
    | None =>
      let fs := fs_apply fs (WriteBytes new_filename (serialize_into saved)) in
      match io_rename io with
      | Some kind => (fs, Err (VhIoError kind))
      | None => (fs_apply fs (RenameFile new_filename filename), Ok tt)
      end
    end
  end.

(** A store in which every call succeeds. *)
Definition storage_store (fs : files) (saved : SavedVoteHistory) : files :=
  foldl fs_apply fs (store_steps saved).

(** [NullVoteHistoryStorage]. *)
Definition null_load (node_pubkey : Pubkey) : result VoteHistoryError VoteHistory := Err (VhIoError OtherIo).
Definition null_store (saved : SavedVoteHistory) : result VoteHistoryError unit := Ok tt.

Definition vh_save (io : StoreIo) (fs : files) (h : VoteHistory) (node_keypair : Keypair)
    : files * result VoteHistoryError unit :=
  match saved_new h node_keypair with
  | Err e => (fs, Err e)
  | Ok saved => storage_store_io io fs saved
  end.
Definition vh_restore (io : LoadIo) (fs : files) (node_pubkey : Pubkey)
    : option (result VoteHistoryError VoteHistory) :=
  storage_load io fs node_pubkey.

(** What a crash of the process during [store] can leave behind: some of the steps
    done, or the new file cut short.  What the process wrote is in the caches of the
    operating system, which outlive it. *)
Inductive crashed (fs : files) (saved : SavedVoteHistory) : files -> Prop :=
  | crash_between n : crashed fs saved (foldl fs_apply fs (take n (store_steps saved)))
  | crash_writing k :
    crashed fs saved (<[BinNewFile (svh_node_pubkey saved) := take k (serialize_into saved)]>
                        (fs_apply fs (CreateFile (BinNewFile (svh_node_pubkey saved))))).

(** What a loss of power during [store], or after it, can leave behind.  The
    directory holds the result of some of the steps, in order; the content of the new
    file, which was not synced, may have reached the disk in part, the rest being
    absent or zeros. *)
Definition torn (full bytes : list Z) : Prop :=
  exists k z, bytes = take k full ++ replicate z 0 /\ (length bytes <= length full)%nat.
Inductive power_lost (fs : files) (saved : SavedVoteHistory) : files -> Prop :=
  | lost_after n bytes : torn (serialize_into saved) bytes ->
    power_lost fs saved
      (foldl fs_apply fs
        (take n [CreateFile (BinNewFile (svh_node_pubkey saved)); WriteBytes (BinNewFile (svh_node_pubkey saved)) bytes;
                 RenameFile (BinNewFile (svh_node_pubkey saved)) (BinFile (svh_node_pubkey saved))])).

Lemma saved_new_Ok h kp saved :
  saved_new h kp = Ok saved ->
  vh_node_pubkey h = kp_pubkey kp /\ svh_node_pubkey saved = kp_pubkey kp /\
  bincode_history h = Some (svh_data saved) /\ svh_signature saved = sign_message kp (svh_data saved).
Proof.
  unfold saved_new. case_bool_decide as Hk; [done|]. destruct (bincode_history h); [|done].
  intros [= <-]. done.
Qed.

Lemma store_lookup fs saved f :
  storage_store fs saved !! f =
    if bool_decide (f = BinFile (svh_node_pubkey saved)) then Some (serialize_into saved)
    else if bool_decide (f = BinNewFile (svh_node_pubkey saved)) then None
    else fs !! f.
Proof.
  unfold storage_store, store_steps. simpl. rewrite lookup_insert_eq. simpl. rewrite lookup_insert_eq.
  case_bool_decide as E1; [subst; by rewrite lookup_insert_eq|]. rewrite lookup_insert_ne by done.
  case_bool_decide as E2; [subst; by rewrite lookup_delete_eq|].
  by rewrite lookup_delete_ne, !lookup_insert_ne by done.
Qed.

Lemma store_load `{!StorageLaws} fs h kp saved :
  saved_new h kp = Ok saved -> storage_load io_fine (storage_store fs saved) (kp_pubkey kp) = Some (Ok h).
Proof.
  intros (Hk & Hs & Hd & Hsig)%saved_new_Ok. unfold storage_load.
  rewrite store_lookup, Hs, bool_decide_true by done. unfold serialize_into. rewrite saved_round_trip.
  unfold try_into_vote_history. simpl. rewrite Hsig, sign_verifies. simpl.
  destruct (history_round_trip h) as (data & Hh & Hu). rewrite Hh in Hd. injection Hd as Hd. rewrite <-Hd, Hu.
  by rewrite bool_decide_false by (intros Hn; by apply Hn).
Qed.

Lemma crash_load `{!StorageLaws} fs h kp saved fs' :
  saved_new h kp = Ok saved -> crashed fs saved fs' ->
  storage_load io_fine fs' (kp_pubkey kp) = storage_load io_fine fs (kp_pubkey kp) \/
  storage_load io_fine fs' (kp_pubkey kp) = Some (Ok h).
Proof.
  intros Hsaved. pose proof (saved_new_Ok _ _ _ Hsaved) as (_ & Hk & _).
  assert (forall f l, f <> BinFile (kp_pubkey kp) ->
    storage_load io_fine (<[f := l]> fs) (kp_pubkey kp) = storage_load io_fine fs (kp_pubkey kp)) as Hother.
  { intros f l Hf. unfold storage_load. by rewrite lookup_insert_ne. }
  intros [n|k].
  - destruct n as [|[|[|n]]].
    + by left.
    + left. simpl. rewrite Hk. by apply Hother.
    + left. simpl. rewrite Hk, lookup_insert_eq, insert_insert_eq. by apply Hother.
    + right. assert (take (S (S (S n))) (store_steps saved) = store_steps saved) as -> by (simpl; by rewrite take_nil).
      by apply store_load.
  - left. simpl. rewrite Hk, insert_insert_eq. by apply Hother.
Qed.

(** A store that succeeds has done all its steps; one that fails leaves what a crash of
    the process at that point would. *)
Lemma storage_store_io_spec io fs saved :
  match storage_store_io io fs saved with
  | (fs', Ok _) => fs' = storage_store fs saved
  | (fs', Err _) => crashed fs saved fs'
  end.
Proof.
  unfold storage_store_io. destruct (io_create io); [apply (crash_between fs saved 0)|].
  destruct (io_write io) as [n|].
  - pose proof (crash_writing fs saved n) as Hc. simpl in *. rewrite lookup_insert_eq. exact Hc.
  - destruct (io_rename io); [apply (crash_between fs saved 2)|done].
Qed.

Lemma load_Ok io fs k h :
  storage_load io fs k = Some (Ok h) -> io = io_fine /\ vh_node_pubkey h = k /\
  exists signature data, sig_verify k signature data = true /\ unbincode_history data = Some h.
Proof.
  unfold storage_load, try_into_vote_history. destruct io as [[?|] [?|] r]; simpl; try done.
  destruct (fs !! _); [|done]. destruct r as [?|]; [done|].
  destruct (unbincode_saved _) as [[sg d]|]; [|done]. simpl.
  destruct (sig_verify k sg d) eqn:Hv; [|done]. simpl. destruct (unbincode_history d) eqn:Hd; [|done].
  case_bool_decide; [done|]. intros. inv_some. split_and!; [done|done|by eauto].
Qed.
Lemma load_total io fs k : is_Some (storage_load io fs k).
Proof.
  unfold storage_load, try_into_vote_history. destruct (io_create_dir_all io), (io_open io), (io_read io); simpl; eauto;
    destruct (fs !! _); eauto; destruct (unbincode_saved _) as [[? ?]|]; simpl; eauto.
Qed.

(** A loss of power can leave the file of the saved history as it was, or any torn
    version of the new bytes in it. *)
Lemma power_lost_lookup fs saved fs' f :
  power_lost fs saved fs' -> f <> BinNewFile (svh_node_pubkey saved) ->
  fs' !! f = fs !! f \/
  (f = BinFile (svh_node_pubkey saved) /\ exists bytes, torn (serialize_into saved) bytes /\ fs' !! f = Some bytes).
Proof.
  intros [n bytes Ht] Hf. destruct n as [|[|[|n]]]; simpl.
  - by left.
  - left. by rewrite lookup_insert_ne.
  - left. by rewrite !lookup_insert_ne.
  - rewrite take_nil. simpl. rewrite lookup_insert_eq. simpl. rewrite lookup_insert_eq.
    destruct (decide (f = BinFile (svh_node_pubkey saved))) as [->|Hne].
    + right. split; [done|]. exists bytes. by rewrite lookup_insert_eq.
    + left. by rewrite lookup_insert_ne, lookup_delete_ne, !lookup_insert_ne.
Qed.
Lemma load_lookup io fs fs' k : fs' !! BinFile k = fs !! BinFile k -> storage_load io fs' k = storage_load io fs k.
Proof. unfold storage_load. by intros ->. Qed.
End storage.

(** C18: What becomes of a saved history.  Once it is stored, a load of it for the
    node's identity gives it back and every other identity loads what it did before.
    A crash of the process at any point of storing leaves the old history or the new
    one, never a torn file.  A loss of power is not covered by this, as the code syncs
    neither the file nor the directory: it leaves the old history or a torn version of
    the new file, also after [store] has returned, and other identities are still
    untouched.  A store that returns an error leaves what a crash of the process
    would.  In any case a load answers, a call to the operating system that fails makes
    it an error, and a history that loads is that of the identity, with its
    signature. *)
Theorem saved_history_survives `{StorageOps, !StorageLaws} fs h kp saved
    (Hsaved : saved_new h kp = Ok saved) :
  storage_load io_fine (storage_store fs saved) (kp_pubkey kp) = Some (Ok h) /\
  (forall k, k <> kp_pubkey kp -> storage_load io_fine (storage_store fs saved) k = storage_load io_fine fs k) /\
  (forall fs', crashed fs saved fs' ->
     storage_load io_fine fs' (kp_pubkey kp) = storage_load io_fine fs (kp_pubkey kp) \/
     storage_load io_fine fs' (kp_pubkey kp) = Some (Ok h)) /\
  (forall fs', power_lost fs saved fs' ->
     (forall k, k <> kp_pubkey kp -> storage_load io_fine fs' k = storage_load io_fine fs k) /\
     (storage_load io_fine fs' (kp_pubkey kp) = storage_load io_fine fs (kp_pubkey kp) \/
      exists bytes, torn (serialize_into saved) bytes /\ fs' !! BinFile (kp_pubkey kp) = Some bytes)) /\
  (forall io, match storage_store_io io fs saved with
              | (fs', Ok _) => fs' = storage_store fs saved
              | (fs', Err _) => crashed fs saved fs'
              end) /\
  (forall io k, is_Some (storage_load io fs k)) /\
  (forall io k h', storage_load io fs k = Some (Ok h') -> io = io_fine /\ vh_node_pubkey h' = k /\
     exists signature data, sig_verify k signature data = true /\ unbincode_history data = Some h').
Proof.
  pose proof (saved_new_Ok _ _ _ Hsaved) as (_ & Hk & _). split_and!.
  - by apply store_load.
  - intros k Hne. apply load_lookup. rewrite store_lookup, Hk, !bool_decide_false by congruence. done.
  - intros fs'. by apply crash_load.
  - intros fs' Hlost. split.
    + intros k Hne. apply load_lookup. destruct (power_lost_lookup _ _ _ (BinFile k) Hlost) as [?|[[= ?] _]]; congruence.
    + rewrite <-Hk. destruct (power_lost_lookup _ _ _ (BinFile (svh_node_pubkey saved)) Hlost) as [?|[_ ?]];
        [done|left; by apply load_lookup|by right].
  - intros io. apply storage_store_io_spec.
  - intros io k. apply load_total.
  - intros io k h'. apply load_Ok.
Qed.

(** The limit is real: after a store that returned, a loss of power may bring the old
    history back, or leave a file that does not load. *)
Lemma power_loss_forgets `{StorageOps} fs saved :
  power_lost fs saved fs /\
  exists fs', power_lost fs saved fs' /\ fs' !! BinFile (svh_node_pubkey saved) = Some [].
Proof.
  assert (torn (serialize_into saved) []) as Ht by (exists 0%nat, 0%nat; split; [done|simpl; lia]).
  split; [apply (lost_after fs saved 0 [] Ht)|].
  eexists. split; [apply (lost_after fs saved 3 [] Ht)|]. simpl.
  rewrite lookup_insert_eq. simpl. rewrite lookup_insert_eq. simpl. by rewrite lookup_insert_eq.
Qed.

(** An instance of the laws: the history is its [encode]d number, and a node signs
    with its key. *)
#[local] Instance Vote_countable : Countable Vote.
Proof.
  apply (inj_countable' (fun v => (vote_type_index (get_type v), vote_slot v, default 0 (vote_block_id v)))
    (fun '(t, s, b) => match t with
       | 0 => Finalize s | 1 => Notarize s b | 2 => NotarizeFallback s b
       | 3 => Skip s | 4 => SkipFallback s | _ => Genesis s b end)). by intros [].
Defined.
#[local] Instance VoteHistory_eq_dec : EqDecision VoteHistory.
Proof. solve_decision. Defined.
#[local] Instance VoteHistory_countable : Countable VoteHistory.
Proof.
  apply (inj_countable' (fun h => (vh_node_pubkey h, vh_voted h, vh_voted_notar h, vh_voted_notar_fallback h,
      vh_voted_skip_fallback h, vh_skipped h, vh_its_over h, vh_votes_cast h, vh_notarized_blocks h,
      vh_parent_ready_slots h, vh_root h))
    (fun '(a, b, c, d, e, f, g, i, j, k, l) => mkVoteHistory a b c d e f g i j k l)). by intros [].
Defined.
#[local] Instance encode_storage : StorageOps := {|
  bincode_history h := Some [Zpos (encode h)];
  unbincode_history data := match data with [Zpos p] => decode p | _ => None end;
  bincode_saved x := x.1 :: x.2;
  unbincode_saved l := match l with x :: d => Some (x, d) | [] => None end;
  sign_message kp _ := kp_pubkey kp;
  sig_verify k s _ := bool_decide (s = k);
|}.
#[local] Instance encode_storage_laws : StorageLaws.
Proof.
  split.
  - intros h. exists [Zpos (encode h)]. split; [done|]. apply decode_encode.
  - by intros [].
  - intros kp data. simpl. by apply bool_decide_true.
Defined.

Lemma saved_history_survives_witness :
  exists saved, saved_new (vote_history_new 3 0) (mkKeypair 3 1) = Ok saved /\
    storage_load io_fine (storage_store ∅ saved) 3 = Some (Ok (vote_history_new 3 0)).
Proof.
  eexists. split; [unfold saved_new; simpl; reflexivity|].
  match goal with |- context [storage_store ∅ ?sv] =>
    exact (proj1 (saved_history_survives ∅ (vote_history_new 3 0) (mkKeypair 3 1) sv eq_refl)) end.
Defined.
