(* ===== verification/Voting.v ===== *)
(** * Producing votes

    [votor/src/voting_utils.rs] and [votor/src/commitment.rs]: a vote is recorded
    in the vote history, signed with the BLS key of the node's rank, and handed to
    the node's own consensus pool and to the voting service.  The derivation of BLS
    keys, BLS signing and the serialization of votes are external ([VotingOps]). *)

From S2P Require Import Prelude.
From S2P Require Import Messages.
From S2P Require Import EpochStakes.
From S2P Require Import CertBuilder.
From S2P Require Import Finalization.
From S2P Require Import BankForks.
From S2P Require Import VoteHistory.
From S2P Require Import VoteStorage.

(** ** Channels

    The sending half of a [crossbeam] channel: what was sent, whether the receiver
    is still there and whether a bounded channel is full.  A blocking [send] fails
    only when the receiver is gone. *)

Record Sender (A : Type) := mkSender { sent : list A; connected : bool; full : bool }.
Arguments mkSender {A} sent connected full.
Arguments sent {A} s.
Arguments connected {A} s.
Arguments full {A} s.

Definition push_sent {A} (s : Sender A) (x : A) : Sender A := mkSender (sent s ++ [x]) (connected s) (full s).
Definition send {A} (s : Sender A) (x : A) : Sender A * bool :=
  if connected s then (push_sent s x, true) else (s, false).

Inductive TrySendError := TrySendFull | TrySendDisconnected.
Definition try_send {A} (s : Sender A) (x : A) : Sender A * result TrySendError unit :=
  if negb (connected s) then (s, Err TrySendDisconnected)
  else if full s then (s, Err TrySendFull)
  else (push_sent s x, Ok tt).

(** ** Commitment *)

Inductive CommitmentType := CtNotarize | CtFinalized.
Record CommitmentAggregationData := mkCommitment { commitment_type : CommitmentType; commitment_slot : Slot }.

(** The only error is the disconnected channel; a full one is logged. *)
Definition update_commitment_cache (t : CommitmentType) (slot : Slot) (s : Sender CommitmentAggregationData)
    : Sender CommitmentAggregationData * bool :=
  match try_send s (mkCommitment t slot) with
  | (s, Err TrySendDisconnected) => (s, false)
  | (s, Err TrySendFull) => (s, true)
  | (s, Ok _) => (s, true)
  end.

(** ** Votes *)

Class VotingOps := {
  BLSKeypair : Type;
  derive_from_signer : Keypair -> option BLSKeypair;
  bls_public : BLSKeypair -> Z;
  bls_sign : BLSKeypair -> list Z -> BLSSignature;
  vote_bytes : Vote -> list Z;
}.

Inductive GenerateVoteTxResult :=
  | NonVoting
  | HotSpare
  | WaitForStartupVerification
  | WaitToVoteSlot (slot : Slot)
  | NoRankFound
  | NoAuthorizedVoter (k : Pubkey) (epoch : Z)
  | VoteAccountNotFound (k : Pubkey)
  | GenTx
  | GenConsensusMessage (m : ConsensusMessage).

Definition is_non_voting (r : GenerateVoteTxResult) : bool := match r with NonVoting => true | _ => false end.
Definition is_hot_spare (r : GenerateVoteTxResult) : bool := match r with HotSpare => true | _ => false end.
Definition is_invalid_config (r : GenerateVoteTxResult) : bool :=
  match r with NoAuthorizedVoter _ _ | VoteAccountNotFound _ => true | _ => false end.
Definition is_transient_error (r : GenerateVoteTxResult) : bool :=
  match r with
  | NonVoting | HotSpare | WaitForStartupVerification | WaitToVoteSlot _ | NoRankFound => true
  | _ => false
  end.

Inductive VoteError :=
  | TransientError (r : GenerateVoteTxResult)
  | InvalidConfig (r : GenerateVoteTxResult)
  | ConsensusPoolError
  | CommitmentSenderError
  | SavedVoteHistoryError (e : VoteHistoryError).

Inductive BLSOp :=
  | PushVote (message : ConsensusMessage) (slot : Slot) (saved : SavedVoteHistory)
  | PushCertificate (certificate : Certificate).

Section voting.
Context `{VotingOps, StorageOps}.

(** [sharable_banks] is the root bank passed to the functions; [bls_sender] and the
    metrics channel belong to the event loop. *)
Record VotingContext := mkVotingContext {
  vc_vote_history : VoteHistory;
  vc_vote_account_pubkey : Pubkey;
  vc_identity_keypair : Keypair;
  vc_authorized_voter_keypairs : list Keypair;
  vc_derived_bls_keypairs : gmap Pubkey BLSKeypair;
  vc_own_vote_sender : Sender (list ConsensusMessage);
  vc_commitment_sender : Sender CommitmentAggregationData;
  vc_wait_to_vote_slot : option Slot;
}.

Definition with_history (c : VotingContext) (h : VoteHistory) : VotingContext :=
  mkVotingContext h (vc_vote_account_pubkey c) (vc_identity_keypair c) (vc_authorized_voter_keypairs c)
    (vc_derived_bls_keypairs c) (vc_own_vote_sender c) (vc_commitment_sender c) (vc_wait_to_vote_slot c).
Definition with_derived (c : VotingContext) (d : gmap Pubkey BLSKeypair) : VotingContext :=
  mkVotingContext (vc_vote_history c) (vc_vote_account_pubkey c) (vc_identity_keypair c)
    (vc_authorized_voter_keypairs c) d (vc_own_vote_sender c) (vc_commitment_sender c) (vc_wait_to_vote_slot c).
Definition with_own_vote_sender (c : VotingContext) (s : Sender (list ConsensusMessage)) : VotingContext :=
  mkVotingContext (vc_vote_history c) (vc_vote_account_pubkey c) (vc_identity_keypair c)
    (vc_authorized_voter_keypairs c) (vc_derived_bls_keypairs c) s (vc_commitment_sender c) (vc_wait_to_vote_slot c).
Definition with_commitment_sender (c : VotingContext) (s : Sender CommitmentAggregationData) : VotingContext :=
  mkVotingContext (vc_vote_history c) (vc_vote_account_pubkey c) (vc_identity_keypair c)
    (vc_authorized_voter_keypairs c) (vc_derived_bls_keypairs c) (vc_own_vote_sender c) s (vc_wait_to_vote_slot c).

Definition get_or_insert_bls_keypair (derived : gmap Pubkey BLSKeypair) (k : Keypair)
    : gmap Pubkey BLSKeypair * option BLSKeypair :=
  match derived !! kp_pubkey k with
  | Some b => (derived, Some b)
  | None =>
    match derive_from_signer k with
    | Some b => (<[kp_pubkey k := b]> derived, Some b)
    | None => (derived, None)
    end
  end.

(** The [find_map] over the authorized voters; [None] is the panic of a key that
    cannot be derived. *)
Fixpoint find_bls_keypair (derived : gmap Pubkey BLSKeypair) (keys : list Keypair) (expected_bls_pubkey : Z)
    : option (gmap Pubkey BLSKeypair * option BLSKeypair) :=
  match keys with
  | [] => Some (derived, None)
  | k :: keys =>
    let '(derived, b) := get_or_insert_bls_keypair derived k in
    b ← b;
    if bool_decide (bls_public b = expected_bls_pubkey) then Some (derived, Some b)
    else find_bls_keypair derived keys expected_bls_pubkey
  end.

Definition generate_vote_tx (vote : Vote) (bank : ForkBank) (vote_account_pubkey : Pubkey)
    (identity_keypair : Keypair) (authorized_voter_keypairs : list Keypair) (wait_to_vote_slot : option Slot)
    (derived : gmap Pubkey BLSKeypair) : option (gmap Pubkey BLSKeypair * GenerateVoteTxResult) :=
  if negb (get_vote_account bank vote_account_pubkey)
  then Some (derived, VoteAccountNotFound vote_account_pubkey)
  else
    match (slot ← wait_to_vote_slot; if bool_decide (vote_slot vote < slot) then Some slot else None) with
    | Some slot => Some (derived, WaitToVoteSlot slot)
    | None =>
      rank_map ← get_rank_map (fb_bank bank) (vote_slot vote);
      match get_rank_for_vote_pubkey rank_map vote_account_pubkey with
      | None => Some (derived, NoRankFound)
      | Some my_rank =>
        entry ← get_pubkey_stake_entry rank_map my_rank;
        if bool_decide (en_vote_account_pubkey entry <> vote_account_pubkey)
        then Some (derived, VoteAccountNotFound vote_account_pubkey)
        else if bool_decide (en_node_pubkey entry <> kp_pubkey identity_keypair)
        then Some (derived, HotSpare)
        else
          '(derived, b) ← find_bls_keypair derived authorized_voter_keypairs (en_bls_pubkey entry);
          match b with
          | None => Some (derived, NonVoting)
          | Some b =>
            Some (derived, GenConsensusMessage (MVote
              (mkVoteMessage vote (bls_sign b (vote_bytes vote)) my_rank)))
          end
      end
    end.

Definition insert_vote_and_create_bls_message (vote : Vote) (is_refresh : bool) (bank : ForkBank)
    (c : VotingContext) : option (VotingContext * result VoteError BLSOp) :=
  c ← (if is_refresh then Some c
       else h ← vh_add_vote (vc_vote_history c) vote; Some (with_history c h));
  '(derived, r) ← generate_vote_tx vote bank (vc_vote_account_pubkey c) (vc_identity_keypair c)
    (vc_authorized_voter_keypairs c) (vc_wait_to_vote_slot c) (vc_derived_bls_keypairs c);
  let c := with_derived c derived in
  match r with
  | GenConsensusMessage message =>
    let '(s, ok) := send (vc_own_vote_sender c) [message] in
    let c := with_own_vote_sender c s in
    if ok : bool then
      match saved_new (vc_vote_history c) (vc_identity_keypair c) with
      | Err e => Some (c, Err (SavedVoteHistoryError e))
      | Ok saved => Some (c, Ok (PushVote message (vote_slot vote) saved))
      end
    else Some (c, Err ConsensusPoolError)
  | e => Some (c, Err (if is_transient_error e then TransientError e else InvalidConfig e))
  end.

Definition generate_vote_message (vote : Vote) (is_refresh : bool) (bank : ForkBank) (c : VotingContext)
    : option (VotingContext * result VoteError (option BLSOp)) :=
  '(c, r) ← insert_vote_and_create_bls_message vote is_refresh bank c;
  Some (c, match r with
           | Ok bls_op => Ok (Some bls_op)
           | Err (InvalidConfig _) | Err (TransientError _) => Ok None
           | Err e => Err e
           end).

(** ** What producing a vote does *)

(** The [panic!]s of [generate_vote_tx] are excluded: the root bank knows the stakes
    of the slot's epoch, its rank map is consistent, and the node's own BLS keys can
    be derived. *)
Definition voting_ready (bank : ForkBank) (keys : list Keypair) (slot : Slot) : Prop :=
  (exists m, get_rank_map (fb_bank bank) slot = Some m /\
     forall k r, get_rank_for_vote_pubkey m k = Some r -> is_Some (get_pubkey_stake_entry m r)) /\
  forall k, k ∈ keys -> is_Some (derive_from_signer k).

(** The votes in a list of messages sent to the node's own pool. *)
Definition message_votes (ms : list ConsensusMessage) : list Vote :=
  omap (fun m => match m with MVote m => Some (vm_vote m) | MCertificate _ => None end) ms.

Lemma find_bls_keypair_total derived keys pk :
  (forall k, k ∈ keys -> is_Some (derive_from_signer k)) ->
  exists d b, find_bls_keypair derived keys pk = Some (d, b).
Proof.
  revert derived. induction keys as [|k keys IH]; intros derived Hk; simpl; [by eauto|].
  destruct (Hk k ltac:(by left)) as [b Hb].
  assert (exists d b, get_or_insert_bls_keypair derived k = (d, Some b)) as (d & b' & ->).
  { unfold get_or_insert_bls_keypair. destruct (_ !! _); [by eauto|]. rewrite Hb. by eauto. }
  simpl. case_bool_decide; [by eauto|]. apply IH. intros k' Hk'. apply Hk. by right.
Qed.

Lemma generate_vote_tx_message vote bank k id keys wait derived d m :
  generate_vote_tx vote bank k id keys wait derived = Some (d, GenConsensusMessage m) ->
  exists vm, m = MVote vm /\ vm_vote vm = vote.
Proof.
  unfold generate_vote_tx. destruct (negb _); [done|]. destruct (mbind _ _); [done|].
  intros (rm & _ & He)%bind_Some. destruct (get_rank_for_vote_pubkey rm k); [|done].
  apply bind_Some in He as (e & _ & He). case_bool_decide; [done|]. case_bool_decide; [done|].
  apply bind_Some in He as ([d' b] & _ & He). destruct b; [|done]. injection He as <- <-. by eexists.
Qed.
Lemma generate_vote_tx_total vote bank k id keys wait derived :
  voting_ready bank keys (vote_slot vote) ->
  is_Some (generate_vote_tx vote bank k id keys wait derived).
Proof.
  intros [(rm & Hrm & Hrank) Hkeys]. unfold generate_vote_tx.
  destruct (negb _); [done|]. destruct (mbind _ _); [done|]. rewrite Hrm. cbn [mbind option_bind].
  destruct (get_rank_for_vote_pubkey rm k) as [r|] eqn:Hr; [|done].
  destruct (Hrank k r Hr) as [e ->]. cbn [mbind option_bind]. case_bool_decide; [done|]. case_bool_decide; [done|].
  destruct (find_bls_keypair_total derived keys (en_bls_pubkey e) Hkeys) as (d & b & ->). simpl. by destruct b.
Qed.

(** What a call leaves alone. *)
Definition same_voter (c c' : VotingContext) : Prop :=
  vc_vote_account_pubkey c' = vc_vote_account_pubkey c /\
  vc_identity_keypair c' = vc_identity_keypair c /\
  vc_authorized_voter_keypairs c' = vc_authorized_voter_keypairs c /\
  vc_wait_to_vote_slot c' = vc_wait_to_vote_slot c.
Definition same_blocks (h h' : VoteHistory) : Prop :=
  vh_root h' = vh_root h /\ vh_node_pubkey h' = vh_node_pubkey h /\
  vh_notarized_blocks h' = vh_notarized_blocks h /\ vh_parent_ready_slots h' = vh_parent_ready_slots h.

(** The outcome of a call for [vote]: the message sent to the own pool is the one
    returned, and it is for [vote]. *)
Definition vote_result (vote : Vote) (c c' : VotingContext) (r : result VoteError (option BLSOp)) : Prop :=
  match r with
  | Ok (Some op) => exists m saved, op = PushVote (MVote m) (vote_slot vote) saved /\ vm_vote m = vote /\
      saved_new (vc_vote_history c') (vc_identity_keypair c') = Ok saved /\
      sent (vc_own_vote_sender c') = sent (vc_own_vote_sender c) ++ [[MVote m]]
  | Ok None => sent (vc_own_vote_sender c') = sent (vc_own_vote_sender c)
  | Err e => (e = ConsensusPoolError /\ vc_own_vote_sender c' = vc_own_vote_sender c) \/
      exists x m, e = SavedVoteHistoryError x /\ vm_vote m = vote /\
        sent (vc_own_vote_sender c') = sent (vc_own_vote_sender c) ++ [[MVote m]]
  end.

(** In the lemmas below the voter may be [ready] (then there is no panic) or not. *)
Lemma generate_message_ok (ready : bool) vote bank c0 c :
  (ready = true -> voting_ready bank (vc_authorized_voter_keypairs c) (vote_slot vote)) ->
  vc_own_vote_sender c = vc_own_vote_sender c0 ->
  match insert_vote_and_create_bls_message vote true bank c with
  | None => ready = false
  | Some (c', r) =>
    vc_vote_history c' = vc_vote_history c /\ same_voter c c' /\ vc_commitment_sender c' = vc_commitment_sender c /\
    vote_result vote c0 c' (match r with
           | Ok bls_op => Ok (Some bls_op)
           | Err (InvalidConfig _) | Err (TransientError _) => Ok None
           | Err e => Err e
           end)
  end.
Proof.
  intros Hready Hs0. unfold insert_vote_and_create_bls_message. cbn [mbind option_bind].
  destruct (generate_vote_tx _ _ _ _ _ _ _) as [[d r]|] eqn:Hgen; cbn [mbind option_bind].
  2: { destruct ready; [|done]. destruct (generate_vote_tx_total vote bank (vc_vote_account_pubkey c) (vc_identity_keypair c)
      (vc_authorized_voter_keypairs c) (vc_wait_to_vote_slot c) (vc_derived_bls_keypairs c) (Hready eq_refl)). congruence. }
  destruct r as [| | | | | | | |m]; try (split_and!; try done; simpl; by rewrite Hs0).
  destruct (generate_vote_tx_message _ _ _ _ _ _ _ _ _ Hgen) as (vm & -> & Hv). unfold send. simpl.
  destruct (connected _) eqn:Hconn.
  - destruct (saved_new _ _) as [sv|e] eqn:Hsv; split_and!; try done; simpl.
    + exists vm, sv. rewrite <-Hs0. done.
    + right. exists e, vm. rewrite <-Hs0. done.
  - split_and!; try done. left. split; [done|]. simpl. done.
Qed.

Lemma generate_refresh_ok ready vote bank c :
  (ready = true -> voting_ready bank (vc_authorized_voter_keypairs c) (vote_slot vote)) ->
  match generate_vote_message vote true bank c with
  | None => ready = false
  | Some (c', r) =>
    vc_vote_history c' = vc_vote_history c /\ same_voter c c' /\
    vc_commitment_sender c' = vc_commitment_sender c /\ vote_result vote c c' r
  end.
Proof.
  intros Hready. unfold generate_vote_message. pose proof (generate_message_ok ready vote bank c c Hready eq_refl) as Hgen.
  destruct (insert_vote_and_create_bls_message _ _ _ _) as [[c' r]|]; [|done]. cbn [mbind option_bind]. tauto.
Qed.

Lemma generate_vote_ok ready vote bank c L :
  (ready = true -> voting_ready bank (vc_authorized_voter_keypairs c) (vote_slot vote)) ->
  history_rel (vc_vote_history c) L -> vh_root (vc_vote_history c) <= vote_slot vote -> assertable L vote ->
  match generate_vote_message vote false bank c with
  | None => ready = false
  | Some (c', r) =>
    history_rel (vc_vote_history c') (L ++ [vote]) /\ same_blocks (vc_vote_history c) (vc_vote_history c') /\
    same_voter c c' /\ vc_commitment_sender c' = vc_commitment_sender c /\ vote_result vote c c' r
  end.
Proof.
  intros Hready Hrel Hs Ha. unfold generate_vote_message, insert_vote_and_create_bls_message.
  destruct (vh_add_vote_ok _ _ _ Hrel Hs Ha) as (h & -> & Hrel' & Hroot & Hk & Hn & Hp). cbn [mbind option_bind].
  pose proof (generate_message_ok ready vote bank c (with_history c h) Hready eq_refl) as Hgen.
  unfold insert_vote_and_create_bls_message in Hgen. cbn [mbind option_bind] in Hgen.
  match goal with |- context [mbind _ (mbind ?k ?m)] => destruct (mbind k m) as [[c' r]|] end; [|done].
  cbn [mbind option_bind]. destruct Hgen as (Hh & Hsame & Hcs & Hr). rewrite Hh. simpl. done.
Qed.
End voting.
