(* ===== verification/Timers.v ===== *)
(** * Skip timers

    [votor/src/timer_manager.rs] and [timer_manager/{timers,stats}.rs]: for every
    leader window with a ready parent a timer fires first the event for a crashed
    leader and then, slot by slot, the timeout of each slot of the window.
    Durations and instants are nanoseconds; the scaling of the timeouts during a
    standstill is computed in [f64], here with the Standard Library's specification
    of IEEE 754 binary64. *)

From Corelib Require Import Floats.SpecFloat.
From S2P Require Import Prelude.
From S2P Require Import Messages.
From S2P Require Import Voting.

Abbreviation Duration := Z (only parsing).
Abbreviation Instant := Z (only parsing).

Definition NANOS_PER_SEC : Z := 1000000000.
(** [Instant::checked_add]: seconds are an [i64]. *)
Definition instant_max : Z := (2 ^ 63 - 1) * NANOS_PER_SEC + (NANOS_PER_SEC - 1).
Definition instant_checked_add (t : Instant) (d : Duration) : option Instant :=
  if bool_decide (t + d <= instant_max) then Some (t + d) else None.

Definition DELTA : Duration := 250 * 1000000.
Definition DELTA_TIMEOUT : Duration := DELTA * 3.
Definition DELTA_STANDSTILL : Duration := 10000 * 1000000.

(** ** Floating point *)

Definition f64_of_Z (z : Z) : spec_float := binary_normalize 53 1024 z 0 false.
Definition f64_mul : spec_float -> spec_float -> spec_float := SFmul 53 1024.
Definition f64_div : spec_float -> spec_float -> spec_float := SFdiv 53 1024.
Definition f64_add : spec_float -> spec_float -> spec_float := SFadd 53 1024.
Definition f64_one : spec_float := f64_of_Z 1.
(** The literal [1.05_f64]. *)
Definition f64_1_05 : spec_float := S754_finite false 4728779608739021 (-52).

(** [f64::min]: the other argument if one is NaN. *)
Definition f64_min (x y : spec_float) : spec_float :=
  match x, y with
  | S754_nan, _ => y
  | _, S754_nan => x
  | _, _ => if SFltb y x then y else x
  end.

(** [f64::powi] as compiled: repeated squaring from the low bit, and the reciprocal
    for a negative exponent. *)
Fixpoint powi_loop (r a : spec_float) (b : positive) : spec_float :=
  match b with
  | xH => f64_mul r a
  | xO b => powi_loop r (f64_mul a a) b
  | xI b => powi_loop (f64_mul r a) (f64_mul a a) b
  end.
Definition f64_powi (a : spec_float) (n : Z) : spec_float :=
  match n with
  | Z0 => f64_one
  | Zpos p => powi_loop f64_one a p
  | Zneg p => f64_div f64_one (powi_loop f64_one a p)
  end.

(** [Duration::as_secs_f64]. *)
Definition as_secs_f64 (d : Duration) : spec_float :=
  f64_add (f64_of_Z (d / NANOS_PER_SEC)) (f64_div (f64_of_Z (d mod NANOS_PER_SEC)) (f64_of_Z NANOS_PER_SEC)).

(** [n / 2 ^ k] rounded to the nearest integer, ties to even. *)
Definition round_shift (n k : Z) : Z :=
  let q := n / 2 ^ k in
  let r := n mod 2 ^ k in
  match Z.compare (2 * r) (2 ^ k) with
  | Lt => q
  | Gt => q + 1
  | Eq => if Z.even q then q else q + 1
  end.
(** [Duration::from_secs_f64]: rounded to nanoseconds; it panics on a negative
    number, a NaN and a number of seconds that does not fit [u64]. *)
Definition from_secs_f64 (x : spec_float) : option Duration :=
  match x with
  | S754_zero _ => Some 0
  | S754_finite false m e =>
    let ns := if bool_decide (0 <= e) then Zpos m * NANOS_PER_SEC * 2 ^ e
              else round_shift (Zpos m * NANOS_PER_SEC) (- e) in
    if bool_decide (ns / NANOS_PER_SEC <= u64_max) then Some ns else None
  | _ => None
  end.

Definition MAX_TIMEOUT_SECS : spec_float := f64_of_Z 3600.

(** [u64 as i32]. *)
Definition as_i32 (x : Z) : Z := (x + 2 ^ 31) mod 2 ^ 32 - 2 ^ 31.

Definition calculate_timeout_multiplier (slot : Slot) (standstill_slot : option Slot) : spec_float :=
  match standstill_slot with
  | None => f64_one
  | Some standstill_slot =>
    let slots_since_standstill := slot -s standstill_slot in
    let leader_windows := slots_since_standstill / NUM_CONSECUTIVE_LEADER_SLOTS in
    f64_powi f64_1_05 (as_i32 leader_windows)
  end.

(** ** One timer *)

Inductive TimerState :=
  | WaitDeltaTimeout (window : list Slot) (timeout : Instant) (scaled_delta_block : Duration)
  | WaitDeltaBlock (window : list Slot) (timeout : Instant) (scaled_delta_block : Duration)
  | Done.

Definition scale_timeout (d : Duration) (timeout_multiplier : spec_float) : option Duration :=
  from_secs_f64 (f64_min (f64_mul (as_secs_f64 d) timeout_multiplier) MAX_TIMEOUT_SECS).

(** The range [slot..=last]. *)
Definition slot_window (slot : Slot) : list Slot :=
  seqZ slot (last_of_consecutive_leader_slots slot - slot + 1).

Definition timer_state_new (slot : Slot) (delta_timeout delta_block : Duration) (now : Instant)
    (timeout_multiplier : spec_float) : option (TimerState * Instant) :=
  let window := slot_window slot in
  rust_assert (negb (bool_decide (window = [])));;
  scaled_delta_timeout ← scale_timeout delta_timeout timeout_multiplier;
  scaled_delta_block ← scale_timeout delta_block timeout_multiplier;
  timeout ← instant_checked_add now scaled_delta_timeout;
  Some (WaitDeltaTimeout window timeout scaled_delta_block, timeout).

Definition timer_progress (st : TimerState) (now : Instant) : option (TimerState * option VotorEvent) :=
  match st with
  | WaitDeltaTimeout window timeout scaled_delta_block =>
    rust_assert (negb (bool_decide (window = [])));;
    if bool_decide (now < timeout) then Some (st, None)
    else
      slot ← head window;
      new_timeout ← instant_checked_add timeout scaled_delta_block;
      Some (WaitDeltaBlock window new_timeout scaled_delta_block, Some (ETimeoutCrashedLeader slot))
  | WaitDeltaBlock window timeout scaled_delta_block =>
    rust_assert (negb (bool_decide (window = [])));;
    if bool_decide (now < timeout) then Some (st, None)
    else
      slot ← head window;
      let window := tail window in
      match window with
      | [] => Some (Done, Some (ETimeout slot))
      | _ :: _ =>
        timeout ← instant_checked_add timeout scaled_delta_block;
        Some (WaitDeltaBlock window timeout scaled_delta_block, Some (ETimeout slot))
      end
  | Done => Some (Done, None)
  end.

Definition next_fire (st : TimerState) : option Instant :=
  match st with
  | WaitDeltaTimeout _ timeout _ | WaitDeltaBlock _ timeout _ => Some timeout
  | Done => None
  end.

(** ** The timers *)

(** The binary heap pops the least pair of instant and slot: a sorted list. *)
Fixpoint heap_push (x : Instant * Slot) (heap : list (Instant * Slot)) : list (Instant * Slot) :=
  match heap with
  | [] => [x]
  | y :: rest => if decide (leq x y) then x :: heap else y :: heap_push x rest
  end.

Record TimerManagerStats := mkTimerStats {
  ts_max_heap_size : Z;
  ts_set_timeout_count : Z;
  ts_set_timeout_succeed_count : Z;
  ts_last_report : Instant;
}.
Definition timer_stats_new (now : Instant) : TimerManagerStats := mkTimerStats 0 0 0 now.
Definition TIMER_STATS_REPORT_INTERVAL : Duration := 10 * NANOS_PER_SEC.
Definition timer_stats_maybe_report (s : TimerManagerStats) (now : Instant) : TimerManagerStats :=
  if bool_decide (now - ts_last_report s < TIMER_STATS_REPORT_INTERVAL) then s else timer_stats_new now.
Definition incr_timeout_count_with_heap_size (s : TimerManagerStats) (size : nat) (new_timer_inserted : bool)
    (now : Instant) : TimerManagerStats :=
  timer_stats_maybe_report
    (mkTimerStats (Z.max (ts_max_heap_size s) (Z.of_nat size)) (ts_set_timeout_count s +s 1)
       (if new_timer_inserted then ts_set_timeout_succeed_count s +s 1 else ts_set_timeout_succeed_count s)
       (ts_last_report s)) now.

Record Timers := mkTimers {
  tm_delta_timeout : Duration;
  tm_timers : gmap Slot TimerState;
  tm_heap : list (Instant * Slot);
  tm_event_sender : Sender VotorEvent;
  tm_stats : TimerManagerStats;
}.

Definition timers_new (delta_timeout : Duration) (event_sender : Sender VotorEvent) (now : Instant) : Timers :=
  mkTimers delta_timeout ∅ [] event_sender (timer_stats_new now).

Definition with_timers (t : Timers) timers heap sender : Timers :=
  mkTimers (tm_delta_timeout t) timers heap sender (tm_stats t).

Definition heap_in_sync (t : Timers) : bool := bool_decide (length (tm_heap t) = size (tm_timers t)).

Definition set_timeouts (t : Timers) (slot : Slot) (now : Instant) (standstill_slot : option Slot)
    (delta_block : Duration) : option Timers :=
  rust_assert (heap_in_sync t);;
  let timeout_multiplier := calculate_timeout_multiplier slot standstill_slot in
  '(timer, next_fire) ← timer_state_new slot (tm_delta_timeout t) delta_block now timeout_multiplier;
  let '(timers, heap, inserted) :=
    match tm_timers t !! slot with
    | Some _ => (tm_timers t, tm_heap t, false)
    | None => (<[slot := timer]> (tm_timers t), heap_push (next_fire, slot) (tm_heap t), true)
    end in
  Some (mkTimers (tm_delta_timeout t) timers heap (tm_event_sender t)
          (incr_timeout_count_with_heap_size (tm_stats t) (length heap) inserted now)).

Definition min_timeout (ret : option Instant) (next_fire : Instant) : option Instant :=
  Some (match ret with Some r => Z.min r next_fire | None => next_fire end).

(** The loop of [progress]: [None] is a failed assertion, a failed [unwrap] or the end
    of the fuel. *)
Fixpoint progress_loop (fuel : nat) (t : Timers) (now : Instant) (ret_timeout : option Instant)
    : option (Timers * option Instant) :=
  match fuel with
  | O => None
  | S fuel =>
    rust_assert (heap_in_sync t);;
    match tm_heap t with
    | [] => Some (t, ret_timeout)
    | (fire, slot) :: heap =>
      if bool_decide (now < fire) then
        Some (with_timers t (tm_timers t) (heap_push (fire, slot) heap) (tm_event_sender t),
              min_timeout ret_timeout fire)
      else
        timer ← tm_timers t !! slot;
        let timers := delete slot (tm_timers t) in
        '(timer, event) ← timer_progress timer now;
        sender ← match event with
                 | Some e => let '(s, ok) := send (tm_event_sender t) e in rust_assert ok;; Some s
                 | None => Some (tm_event_sender t)
                 end;
        match next_fire timer with
        | Some fire =>
          progress_loop fuel (with_timers t (<[slot := timer]> timers) (heap_push (fire, slot) heap) sender)
            now (min_timeout ret_timeout fire)
        | None => progress_loop fuel (with_timers t timers heap sender) now ret_timeout
        end
    end
  end.

(** The events a timer can still fire. *)
Definition timer_length (st : TimerState) : nat :=
  match st with
  | WaitDeltaTimeout w _ _ => S (length w)
  | WaitDeltaBlock w _ _ => length w
  | Done => 0
  end.
Definition progress_fuel (t : Timers) : nat :=
  S (sum_list (timer_length <$> (map_to_list (tm_timers t)).*2)).

Definition timers_progress (t : Timers) (now : Instant) : option (Timers * option Instant) :=
  rust_assert (heap_in_sync t);;
  progress_loop (progress_fuel t) t now None.

(** ** Bounds of the scaled timeouts *)

Definition f64_nonneg (x : spec_float) : Prop :=
  match x with
  | S754_zero s | S754_infinity s | S754_finite s _ _ => s = false
  | S754_nan => True
  end.
(** The mantissa of a binary64 has 53 bits. *)
Definition mantissa53 (x : spec_float) : Prop :=
  match x with S754_finite _ m _ => Zpos m < 2 ^ 53 | _ => True end.

Lemma digits2_bound m : Zpos m < 2 ^ Zpos (digits2_pos m).
Proof.
  induction m as [m IH|m IH|]; cbn [digits2_pos]; [..|done];
    rewrite Pos2Z.inj_succ, Z.pow_succ_r by lia; lia.
Qed.
Lemma shr_1_spec r : 0 <= shr_m r -> shr_m (shr_1 r) = shr_m r / 2.
Proof.
  destruct r as [[|[p|p|]|p] a b]; simpl; intros Hr; try done; try lia.
  - rewrite (Pos2Z.inj_xI p). apply (Z.div_unique _ 2 _ 1); lia.
  - rewrite (Pos2Z.inj_xO p). apply (Z.div_unique _ 2 _ 0); lia.
Qed.
Lemma shr_iter_spec p r : 0 <= shr_m r -> shr_m (SpecFloat.iter_pos shr_1 p r) = shr_m r / 2 ^ Zpos p.
Proof.
  revert r. induction p as [p IH|p IH|]; intros r Hr; cbn [SpecFloat.iter_pos].
  - assert (0 <= shr_m (shr_1 r)) by (rewrite shr_1_spec by done; apply Z.div_pos; lia).
    assert (0 <= shr_m (SpecFloat.iter_pos shr_1 p (shr_1 r))) by (rewrite IH by done; apply Z.div_pos; lia).
    rewrite !IH, shr_1_spec by done. rewrite !Z.div_div by lia. f_equal.
    replace (Zpos p~1) with (1 + Zpos p + Zpos p) by lia. rewrite !Z.pow_add_r by lia. ring.
  - assert (0 <= shr_m (SpecFloat.iter_pos shr_1 p r)) by (rewrite IH by done; apply Z.div_pos; lia).
    rewrite !IH by done. rewrite Z.div_div by lia. f_equal.
    replace (Zpos p~0) with (Zpos p + Zpos p) by lia. rewrite !Z.pow_add_r by lia. ring.
  - rewrite shr_1_spec by done. by rewrite Z.pow_1_r.
Qed.

(** A rounded mantissa has at most 53 bits, and keeps the sign. *)
Lemma shr_fexp_bound m e m' e' :
  0 <= m -> shr_fexp 53 1024 m e loc_Exact = (m', e') -> 0 <= shr_m m' < 2 ^ 53.
Proof.
  intros Hm. unfold shr_fexp, shr. simpl shr_record_of_loc.
  assert (m < 2 ^ Zdigits2 m) as Hd by (destruct m; [done|apply digits2_bound|lia]).
  assert (0 <= Zdigits2 m) as Hd0 by (destruct m; simpl; lia).
  destruct (_ - e) as [|p|p] eqn:En; intros [= <- <-]; unfold fexp in En.
  - simpl. split; [done|]. eapply Z.lt_le_trans; [done|]. apply Z.pow_le_mono_r; lia.
  - rewrite shr_iter_spec by done. simpl. split; [apply Z.div_pos; lia|].
    apply Z.div_lt_upper_bound; [lia|]. rewrite <-Z.pow_add_r by lia.
    eapply Z.lt_le_trans; [done|]. apply Z.pow_le_mono_r; lia.
  - simpl. split; [done|]. eapply Z.lt_le_trans; [done|]. apply Z.pow_le_mono_r; lia.
Qed.
Lemma round_aux_ok s m e l :
  0 <= m -> mantissa53 (binary_round_aux 53 1024 s m e l) /\
  (s = false -> f64_nonneg (binary_round_aux 53 1024 s m e l)).
Proof.
  intros Hm. unfold binary_round_aux.
  destruct (shr_fexp 53 1024 m e l) as [r1 e1] eqn:E1.
  assert (0 <= shr_m r1) as Hr1.
  { unfold shr_fexp, shr in E1. assert (0 <= shr_m (shr_record_of_loc m l)) by (by destruct l as [|[]]).
    destruct (_ - e); simplify_eq; [done| |done]. rewrite shr_iter_spec by done. apply Z.div_pos; lia. }
  destruct (shr_fexp 53 1024 (round_nearest_even _ _) e1 loc_Exact) as [r2 e2] eqn:E2.
  assert (0 <= shr_m r2 < 2 ^ 53) as Hr2.
  { eapply shr_fexp_bound; [|exact E2]. unfold round_nearest_even. destruct (loc_of_shr_record r1) as [|[]]; try lia.
    destruct (Z.even _); lia. }
  destruct (shr_m r2) as [|p|p]; [done| |lia]. destruct (_ <=? _); simpl; [split; [lia|done]|done].
Qed.

Lemma f64_mul_ok x y :
  f64_nonneg x -> f64_nonneg y -> f64_nonneg (f64_mul x y) /\ mantissa53 (f64_mul x y).
Proof.
  unfold f64_mul. destruct x, y; simpl; intros; subst; try done.
  split; apply round_aux_ok; done.
Qed.
Lemma normalize_nonneg z e : 0 <= z -> f64_nonneg (binary_normalize 53 1024 z e false).
Proof.
  intros Hz. unfold binary_normalize. destruct z; [done| |lia]. unfold binary_round.
  destruct (shl_align _ _ _). apply round_aux_ok; done.
Qed.
Lemma f64_of_Z_nonneg z : 0 <= z -> f64_nonneg (f64_of_Z z).
Proof. apply normalize_nonneg. Qed.
Lemma f64_div_nonneg x y : f64_nonneg x -> f64_nonneg y -> f64_nonneg (f64_div x y).
Proof.
  unfold f64_div. destruct x as [| | |s m e], y as [| | |s' m' e']; simpl; intros; subst; try done.
  destruct (SFdiv_core_binary 53 1024 (Zpos m) e (Zpos m') e') as [[q e1] l] eqn:E. apply round_aux_ok; [|done].
  unfold SFdiv_core_binary in E. destruct (Z.div_eucl _ _) as [q' r] eqn:Eq. injection E as -> _ _.
  match type of Eq with Z.div_eucl ?a ?b = _ => assert (q = a / b) as -> by (unfold Z.div; by rewrite Eq) end.
  apply Z.div_pos; [|lia].
  destruct (e - e' - _); [lia| |lia]. apply Z.shiftl_nonneg. lia.
Qed.

Lemma f64_add_nonneg x y : f64_nonneg x -> f64_nonneg y -> f64_nonneg (f64_add x y).
Proof.
  unfold f64_add. destruct x as [| | |s m e], y as [| | |s' m' e']; intros Hx Hy; simpl in Hx, Hy; subst; try done.
  apply normalize_nonneg. simpl. lia.
Qed.
Lemma as_secs_nonneg d : 0 <= d -> f64_nonneg (as_secs_f64 d).
Proof.
  intros Hd. unfold as_secs_f64. apply f64_add_nonneg; [|apply f64_div_nonneg]; apply f64_of_Z_nonneg.
  - apply Z.div_pos; [done|]. by vm_compute.
  - by apply Z.mod_pos_bound.
  - by vm_compute.
Qed.
Lemma powi_loop_nonneg r a b : f64_nonneg r -> f64_nonneg a -> f64_nonneg (powi_loop r a b).
Proof.
  revert r a. induction b as [b IH|b IH|]; intros r a Hr Ha; simpl.
  - apply IH; by apply f64_mul_ok.
  - apply IH; [done|]. by apply f64_mul_ok.
  - by apply f64_mul_ok.
Qed.
Lemma multiplier_nonneg slot standstill : f64_nonneg (calculate_timeout_multiplier slot standstill).
Proof.
  unfold calculate_timeout_multiplier. destruct standstill; [|by vm_compute]. unfold f64_powi.
  destruct (as_i32 _); [by vm_compute|by apply powi_loop_nonneg|].
  apply f64_div_nonneg; [by vm_compute|by apply powi_loop_nonneg].
Qed.

Definition MAX_TIMEOUT : Duration := 3600 * NANOS_PER_SEC.

Lemma round_shift_bound n k b : 0 <= n -> 0 <= k -> n <= b * 2 ^ k -> 0 <= round_shift n k <= b.
Proof.
  intros Hn Hk Hb. unfold round_shift. assert (0 < 2 ^ k) as Hp by lia.
  pose proof (Z.div_mod n (2 ^ k) ltac:(lia)). pose proof (Z.mod_pos_bound n (2 ^ k) Hp).
  assert (0 <= n / 2 ^ k) by (apply Z.div_pos; lia).
  assert (n / 2 ^ k <= b) by (apply Z.div_le_upper_bound; lia).
  assert (n / 2 ^ k = b -> n mod 2 ^ k = 0) by nia.
  destruct (Z.compare_spec (2 * (n mod 2 ^ k)) (2 ^ k)); [destruct (Z.even _)| |]; lia.
Qed.

Lemma compare_not_Lt (c m : positive) :
  match Pos.compare_cont Eq c m with Lt => true | _ => false end = false -> Zpos m <= Zpos c.
Proof. change (Pos.compare_cont Eq c m) with (Pos.compare c m). destruct (Pos.compare_spec c m); [subst; lia|done|lia]. Qed.

(** The scaling never panics, and never exceeds an hour. *)
Lemma scale_timeout_ok d m :
  0 <= d -> f64_nonneg m -> exists x, scale_timeout d m = Some x /\ 0 <= x <= MAX_TIMEOUT.
Proof.
  intros Hd Hm. unfold scale_timeout.
  destruct (f64_mul_ok _ _ (as_secs_nonneg d Hd) Hm) as [Hnn H53].
  generalize dependent (f64_mul (as_secs_f64 d) m). intros x Hnn H53.
  assert (exists x, from_secs_f64 MAX_TIMEOUT_SECS = Some x /\ 0 <= x <= MAX_TIMEOUT) as Hmax
    by (exists MAX_TIMEOUT; by vm_compute).
  change MAX_TIMEOUT_SECS with (S754_finite false 7916483719987200 (-41)) in *. unfold f64_min.
  destruct x as [s|s| |s mx ex]; simpl in Hnn, H53; subst; try done; [by exists 0|].
  destruct (SFltb _ _) eqn:Hlt; [done|]. unfold SFltb, SFcompare in Hlt. simpl.
  assert (ex < 0 /\ Zpos mx * NANOS_PER_SEC <= MAX_TIMEOUT * 2 ^ (- ex)) as [Hex Hbound].
  { unfold MAX_TIMEOUT, NANOS_PER_SEC. destruct (Z.compare_spec (-41) ex) as [<-|?|Hex]; [|done|].
    - split; [done|]. change (2 ^ (- -41)) with 2199023255552. apply compare_not_Lt in Hlt. lia.
    - split; [lia|]. assert (2 ^ 42 <= 2 ^ (- ex)) by (apply Z.pow_le_mono_r; lia). lia. }
  rewrite (bool_decide_false (0 <= ex)) by lia.
  assert (0 <= round_shift (Zpos mx * NANOS_PER_SEC) (- ex) <= MAX_TIMEOUT) as Hr
    by (apply round_shift_bound; unfold NANOS_PER_SEC in *; lia).
  eexists. split; [|exact Hr]. rewrite bool_decide_true; [done|].
  etransitivity; [apply Z.div_le_mono; [|apply Hr]; done|by vm_compute].
Qed.

(** ** The agenda of a timer

    The specification of a timer: the events it has still to fire, each with its
    deadline. *)

Fixpoint block_agenda (window : list Slot) (t : Instant) (d : Duration) : list (Instant * VotorEvent) :=
  match window with
  | [] => []
  | s :: window => (t, ETimeout s) :: block_agenda window (t + d) d
  end.
Definition agenda (st : TimerState) : list (Instant * VotorEvent) :=
  match st with
  | WaitDeltaTimeout ((s :: _) as w) t d => (t, ETimeoutCrashedLeader s) :: block_agenda w (t + d) d
  | WaitDeltaBlock w t d => block_agenda w t d
  | _ => []
  end.

(** A timer in the map: there is something to fire, and no deadline overflows. *)
Definition timer_ok (st : TimerState) : Prop :=
  match st with
  | WaitDeltaTimeout w t d => w <> [] /\ 0 <= d /\ t + Z.of_nat (length w) * d <= instant_max
  | WaitDeltaBlock w t d => w <> [] /\ 0 <= d /\ t + (Z.of_nat (length w) - 1) * d <= instant_max
  | Done => False
  end.

Lemma agenda_length st : timer_ok st -> length (agenda st) = timer_length st.
Proof.
  assert (forall w t d, length (block_agenda w t d) = length w) as Hb
    by (induction w as [|s w IH]; intros t d; simpl; [done|by rewrite IH]).
  destruct st as [[|s w] t d|w t d|]; simpl; [naive_solver|rewrite Hb; naive_solver..|done].
Qed.
Lemma block_agenda_ge w t d x : 0 <= d -> x ∈ block_agenda w t d -> t <= x.1.
Proof.
  intros Hd. revert t. induction w as [|s w IH]; intros t; simpl; [set_solver|].
  intros [->|Hx]%elem_of_cons; [simpl; lia|]. specialize (IH _ Hx). lia.
Qed.
Lemma agenda_fire st x : timer_ok st -> x ∈ agenda st -> exists t, next_fire st = Some t /\ t <= x.1.
Proof.
  destruct st as [[|s w] t d|w t d|]; simpl; [set_solver| |intros (_ & Hd & _) Hx|done].
  - intros (_ & Hd & _) [->|[->|Hx]%elem_of_cons]%elem_of_cons; eexists; (split; [done|]); simpl; try lia.
    apply block_agenda_ge in Hx; lia.
  - eexists. split; [done|]. by eapply block_agenda_ge.
Qed.

(** One step of the state machine fires the head of the agenda when it is due. *)
Lemma timer_progress_spec st :
  timer_ok st -> exists t e rest, agenda st = (t, e) :: rest /\ next_fire st = Some t /\
    forall now, t <= now -> exists st', timer_progress st now = Some (st', Some e) /\ agenda st' = rest /\
      ((rest = [] /\ next_fire st' = None) \/ (rest <> [] /\ timer_ok st')).
Proof.
  assert (forall n d, 0 <= d -> 1 <= n -> d <= n * d) as Hmul by (intros; nia).
  destruct st as [[|s w] t d|[|s w] t d|]; cbn [timer_ok agenda block_agenda next_fire timer_progress];
    [naive_solver| |naive_solver| |done]; intros (_ & Hd & Hmax); cbn [length] in Hmax; rewrite Nat2Z.inj_succ in Hmax.
  - eexists _, _, _. split; [done|]. split; [done|]. intros now Hnow.
    pose proof (Hmul (Z.succ (Z.of_nat (length w))) d Hd ltac:(lia)).
    rewrite (bool_decide_false (now < t)) by lia. unfold instant_checked_add. rewrite (bool_decide_true (t + d <= _)) by lia.
    simpl. eexists. split; [done|]. split; [done|]. right. split; [done|]. split; [done|]. split; [done|]. cbn [length]. lia.
  - eexists _, _, _. split; [done|]. split; [done|]. intros now Hnow. rewrite (bool_decide_false (now < t)) by lia.
    destruct w as [|s' w]; cbn [tail head mbind option_bind rust_assert negb]; [eexists; split; [done|]; split; [done|]; by left|].
    unfold instant_checked_add. cbn [length] in Hmax. rewrite Nat2Z.inj_succ in Hmax.
    pose proof (Hmul (Z.succ (Z.of_nat (length w))) d Hd ltac:(lia)).
    rewrite (bool_decide_true (t + d <= _)) by lia. simpl. eexists.
    split; [done|]. split; [done|]. right. split; [done|]. split; [done|]. split; [done|]. cbn [length]. lia.
Qed.

(** ** The timers as a map of agendas *)

Definition heap_of (timers : gmap Slot TimerState) : list (Instant * Slot) :=
  (fun e => (default 0 (next_fire e.2), e.1)) <$> map_to_list timers.
Definition agenda_of (timers : gmap Slot TimerState) (s : Slot) : list (Instant * VotorEvent) :=
  default [] (agenda <$> timers !! s).
Definition due (now : Instant) (timers : gmap Slot TimerState) : list (Instant * VotorEvent) :=
  concat ((fun e => filter (fun x => x.1 <= now) (agenda e.2)) <$> map_to_list timers).

Record timers_ok (t : Timers) : Prop := {
  tk_timers : map_Forall (fun _ st => timer_ok st) (tm_timers t);
  tk_heap : tm_heap t ≡ₚ heap_of (tm_timers t);
  tk_sorted : StronglySorted leq (tm_heap t);
  tk_connected : connected (tm_event_sender t) = true;
}.

Lemma heap_push_perm x heap : heap_push x heap ≡ₚ x :: heap.
Proof.
  induction heap as [|y heap IH]; simpl; [done|]. case_decide; [done|]. rewrite IH. constructor.
Qed.
Lemma heap_push_sorted x heap : StronglySorted leq heap -> StronglySorted leq (heap_push x heap).
Proof.
  induction 1 as [|y heap Hs IH Hall]; simpl; [by repeat constructor|]. case_decide as Hxy.
  - constructor; [by constructor|]. constructor; [done|]. eapply Forall_impl; [done|]. intros z Hz. simpl in Hz.
    by eapply leq_trans.
  - constructor; [done|]. apply Forall_forall. intros z. rewrite heap_push_perm. intros [->|Hz]%elem_of_cons.
    + destruct (leq_total x y); [done|done].
    + by eapply Forall_forall in Hall.
Qed.
Lemma heap_in_sync_ok t : timers_ok t -> heap_in_sync t = true.
Proof.
  intros [_ Hh _ _]. unfold heap_in_sync. apply bool_decide_true. rewrite Hh. unfold heap_of.
  rewrite length_fmap. apply length_map_to_list.
Qed.

Lemma heap_of_delete timers s st fire :
  timers !! s = Some st -> next_fire st = Some fire ->
  heap_of timers ≡ₚ (fire, s) :: heap_of (delete s timers).
Proof. intros Hs Hf. unfold heap_of. rewrite <-(map_to_list_delete _ _ _ Hs). csimpl. by rewrite Hf. Qed.
Lemma heap_of_insert timers s st fire :
  timers !! s = None -> next_fire st = Some fire ->
  heap_of (<[s := st]> timers) ≡ₚ (fire, s) :: heap_of timers.
Proof. intros Hs Hf. unfold heap_of. rewrite map_to_list_insert by done. csimpl. by rewrite Hf. Qed.
Lemma due_delete now timers s st :
  timers !! s = Some st -> due now timers ≡ₚ filter (fun x => x.1 <= now) (agenda st) ++ due now (delete s timers).
Proof. intros Hs. unfold due. rewrite <-(map_to_list_delete _ _ _ Hs). done. Qed.
Lemma due_insert now timers s st :
  timers !! s = None -> due now (<[s := st]> timers) ≡ₚ filter (fun x => x.1 <= now) (agenda st) ++ due now timers.
Proof. intros Hs. unfold due. rewrite map_to_list_insert by done. done. Qed.

(** What a call of [progress] has to do, as a relation on the states: fire what is
    due, in order of the deadlines, and keep the rest. *)
Record progressed (t : Timers) (now : Instant) (t' : Timers) (evs : list (Instant * VotorEvent)) : Prop := {
  pg_ok : timers_ok t';
  pg_delta : tm_delta_timeout t' = tm_delta_timeout t;
  pg_sent : sent (tm_event_sender t') = sent (tm_event_sender t) ++ evs.*2;
  pg_due : evs ≡ₚ due now (tm_timers t);
  pg_sorted : StronglySorted (fun x y => x.1 <= y.1) evs;
  pg_agenda s : agenda_of (tm_timers t') s = filter (fun x => now < x.1) (agenda_of (tm_timers t) s);
  pg_future fire s : (fire, s) ∈ tm_heap t' -> now < fire;
}.

Lemma filter_not_due now (l : list (Instant * VotorEvent)) fire :
  (forall x, x ∈ l -> fire <= x.1) -> now < fire ->
  filter (fun x => x.1 <= now) l = [] /\ filter (fun x => now < x.1) l = l.
Proof.
  intros Hl Hf. induction l as [|x l IH]; [done|]. destruct IH as [IH1 IH2]; [set_solver|].
  pose proof (Hl x ltac:(by left)). rewrite filter_cons_False, filter_cons_True by lia. by rewrite IH1, IH2.
Qed.

Lemma timers_fire t x s st :
  timers_ok t -> tm_timers t !! s = Some st -> x ∈ agenda st ->
  exists fire, (fire, s) ∈ tm_heap t /\ next_fire st = Some fire /\ fire <= x.1.
Proof.
  intros [Hall Hh _ _] Hs Hx. destruct (agenda_fire st x (Hall s st Hs) Hx) as (fire & Hf & Hle).
  exists fire. split; [|done]. rewrite Hh, (heap_of_delete _ _ _ _ Hs Hf). by left.
Qed.
Lemma due_ge t now x fire :
  timers_ok t -> (forall f s, (f, s) ∈ tm_heap t -> fire <= f) -> x ∈ due now (tm_timers t) -> fire <= x.1.
Proof.
  intros Hok Hmin. unfold due. rewrite list_elem_of_In, in_concat.
  intros (l & ([s st] & -> & Hs%elem_of_map_to_list)%list_elem_of_In%list_elem_of_fmap & Hx%list_elem_of_In). simpl in Hx.
  apply list_elem_of_filter in Hx as [_ Hx]. destruct (timers_fire t x s st Hok Hs Hx) as (f & Hin & _ & Hle).
  specialize (Hmin f s Hin). lia.
Qed.

(** Nothing is due before the least deadline of the heap. *)
Lemma progressed_stop t now :
  timers_ok t -> (forall f s, (f, s) ∈ tm_heap t -> now < f) -> progressed t now t [].
Proof.
  intros Hok Hmin.
  assert (forall s st, tm_timers t !! s = Some st -> filter (fun x => x.1 <= now) (agenda st) = [] /\
    filter (fun x => now < x.1) (agenda st) = agenda st) as Hst.
  { intros s st Hs. apply (filter_not_due now _ (now + 1)); [|lia]. intros x Hx.
    destruct (timers_fire t x s st Hok Hs Hx) as (f & Hin & _ & Hle). specialize (Hmin f s Hin). lia. }
  split; [done|done|by rewrite app_nil_r| |constructor| |done].
  - destruct (due now (tm_timers t)) as [|x l] eqn:Hd; [done|].
    assert (x ∈ due now (tm_timers t)) as Hx by (rewrite Hd; by left).
    unfold due in Hx. rewrite list_elem_of_In, in_concat in Hx.
    destruct Hx as (l' & ([s st] & -> & Hs%elem_of_map_to_list)%list_elem_of_In%list_elem_of_fmap & Hx).
    simpl in Hx. by rewrite (proj1 (Hst s st Hs)) in Hx.
  - intros s. unfold agenda_of. destruct (tm_timers t !! s) as [st|] eqn:Hs; [|done]. simpl.
    symmetry. by apply (Hst s).
Qed.

Definition measure (timers : gmap Slot TimerState) : nat := sum_list (timer_length <$> (map_to_list timers).*2).
Lemma measure_delete timers s st :
  timers !! s = Some st -> measure timers = (timer_length st + measure (delete s timers))%nat.
Proof.
  intros Hs. unfold measure. rewrite <-(map_to_list_delete _ _ _ Hs). done.
Qed.
Lemma measure_insert timers s st :
  timers !! s = None -> measure (<[s := st]> timers) = (timer_length st + measure timers)%nat.
Proof. intros Hs. unfold measure. rewrite map_to_list_insert by done. done. Qed.

Lemma heap_head t fire slot heap :
  timers_ok t -> tm_heap t = (fire, slot) :: heap ->
  exists st, tm_timers t !! slot = Some st /\ next_fire st = Some fire /\
    heap ≡ₚ heap_of (delete slot (tm_timers t)) /\ StronglySorted leq heap /\
    forall f s, (f, s) ∈ heap -> fire <= f.
Proof.
  intros [Hall Hh Hs _] Heq. rewrite Heq in Hh, Hs.
  assert ((fire, slot) ∈ heap_of (tm_timers t)) as Hin by (rewrite <-Hh; by left).
  apply list_elem_of_fmap in Hin as ([s st] & [= -> ->] & Hst%elem_of_map_to_list). simpl in *.
  pose proof (Hall s st Hst) as Hok. destruct (timer_progress_spec st Hok) as (fire & _ & _ & _ & Hf & _).
  rewrite Hf in *. simpl in *. exists st. split; [done|]. split; [done|].
  apply StronglySorted_inv in Hs as [Hs Hge]. split; [|split; [done|]].
  - apply (Permutation_cons_inv (a := (fire, s))). by rewrite Hh, (heap_of_delete _ _ _ _ Hst Hf).
  - intros f s' Hx. rewrite Forall_forall in Hge. specialize (Hge _ Hx). unfold leq, prod_leq in Hge.
    simpl in Hge. destruct Hge as [Hge _]. exact Hge.
Qed.

(** One timer fires. *)
Lemma progress_fire fuel t now ret fire slot heap :
  timers_ok t -> tm_heap t = (fire, slot) :: heap -> fire <= now ->
  exists t1 e ret1, progress_loop (S fuel) t now ret = progress_loop fuel t1 now ret1 /\ timers_ok t1 /\
    (measure (tm_timers t1) < measure (tm_timers t))%nat /\ tm_delta_timeout t1 = tm_delta_timeout t /\
    sent (tm_event_sender t1) = sent (tm_event_sender t) ++ [e] /\
    due now (tm_timers t) ≡ₚ (fire, e) :: due now (tm_timers t1) /\
    (forall s, agenda_of (tm_timers t) s = (if decide (s = slot) then [(fire, e)] else []) ++ agenda_of (tm_timers t1) s) /\
    (forall f s, (f, s) ∈ tm_heap t1 -> fire <= f).
Proof.
  intros Hok Heq Hnow. destruct (heap_head t fire slot heap Hok Heq) as (st & Hst & Hf & Hperm & Hsort & Hge).
  pose proof (tk_timers _ Hok slot st Hst) as Hstok.
  destruct (timer_progress_spec st Hstok) as (fire' & e & rest & Hag & Hf' & Hstep).
  assert (fire' = fire) as -> by congruence. destruct (Hstep now Hnow) as (st' & Hprog & Hag' & Hcase).
  pose proof (agenda_length st Hstok) as Hlen. rewrite Hag in Hlen. simpl in Hlen.
  cbn [progress_loop]. rewrite heap_in_sync_ok by done. rewrite Heq. cbn [rust_assert mbind option_bind].
  rewrite bool_decide_false by lia. rewrite Hst. cbn [mbind option_bind]. rewrite Hprog. cbn [mbind option_bind].
  unfold send. rewrite (tk_connected _ Hok). cbn [rust_assert mbind option_bind].
  assert (delete slot (tm_timers t) !! slot = None) as Hnone by apply lookup_delete_eq.
  assert (map_Forall (fun _ st => timer_ok st) (delete slot (tm_timers t))) as Hdel.
  { apply map_Forall_delete, Hok. }
  assert (forall s, s <> slot -> agenda_of (tm_timers t) s = agenda_of (delete slot (tm_timers t)) s) as Hother.
  { intros s Hne. unfold agenda_of. by rewrite lookup_delete_ne. }
  assert (agenda_of (tm_timers t) slot = (fire, e) :: rest) as Hself by (unfold agenda_of; by rewrite Hst; simpl).
  destruct Hcase as [[-> Hnf]|[Hrest Hok']].
  - rewrite Hnf. eexists _, e, ret. split; [done|]. simpl.
    split; [split; simpl; [done|done|done|apply Hok]|]. split; [rewrite (measure_delete _ _ _ Hst); lia|].
    split_and!; [done|done| | |done].
    + rewrite (due_delete now _ _ _ Hst), Hag, filter_cons_True by done. done.
    + intros s. case_decide as Hs; [|by apply Hother]. subst. rewrite Hself. unfold agenda_of. by rewrite Hnone.
  - pose proof (timer_progress_spec st' Hok') as (fire1 & e1 & rest1 & Hag1 & Hf1 & _). rewrite Hf1.
    assert (fire <= fire1) as Hle.
    { destruct (agenda_fire st (fire1, e1) Hstok) as (f & Hff & Hle); [rewrite Hag, <-Hag', Hag1; right; by left|].
      rewrite Hf in Hff. simpl in Hle. injection Hff as <-. done. }
    eexists _, e, _. split; [done|]. simpl. split_and!.
    + split; simpl; [by apply map_Forall_insert_2| |by apply heap_push_sorted|apply Hok].
      by rewrite heap_push_perm, (heap_of_insert _ _ _ _ Hnone Hf1), Hperm.
    + rewrite (measure_delete _ _ _ Hst), measure_insert by done.
      rewrite <-(agenda_length st'), Hag' by done. lia.
    + done.
    + done.
    + rewrite (due_delete now _ _ _ Hst), (due_insert now _ _ _ Hnone), Hag, Hag', filter_cons_True by done. done.
    + intros s. case_decide as Hs; [rewrite Hs, Hself; unfold agenda_of; rewrite lookup_insert_eq; simpl; by rewrite Hag'|].
      unfold agenda_of. by rewrite lookup_insert_ne, lookup_delete_ne by done.
    + intros f s. rewrite heap_push_perm. intros [[= -> ->]|Hx]%elem_of_cons; [done|]. by eapply Hge.
Qed.

Lemma progress_loop_ok fuel t now ret :
  timers_ok t -> (measure (tm_timers t) < fuel)%nat ->
  exists t' r evs, progress_loop fuel t now ret = Some (t', r) /\ progressed t now t' evs /\
    (forall f s, (f, s) ∈ tm_heap t' -> exists x, r = Some x /\ x <= f).
Proof.
  revert t ret. induction fuel as [|fuel IH]; intros t ret Hok Hfuel; [lia|].
  destruct (tm_heap t) as [|[fire slot] heap] eqn:Heq.
  - exists t, ret, []. simpl. rewrite heap_in_sync_ok by done. rewrite Heq. split; [done|].
    split; [apply progressed_stop; [done|]; rewrite Heq; set_solver|set_solver].
  - destruct (decide (now < fire)) as [Hlt|Hge].
    + destruct (heap_head t fire slot heap Hok Heq) as (_ & _ & _ & _ & _ & Hmin).
      exists t, (min_timeout ret fire), []. simpl. rewrite heap_in_sync_ok by done. rewrite Heq.
      cbn [rust_assert mbind option_bind]. rewrite bool_decide_true by done.
      assert (heap_push (fire, slot) heap = tm_heap t) as ->.
      { pose proof (tk_sorted _ Hok) as Hs. rewrite Heq in *. destruct heap as [|y heap]; [done|]. simpl.
        apply StronglySorted_inv in Hs as [_ Hall]. apply Forall_inv in Hall. by rewrite decide_True. }
      split; [by destruct t|].
      assert (forall f s, (f, s) ∈ (fire, slot) :: heap -> fire <= f) as Hmin'.
      { intros f s [[= -> ->]|Hx]%elem_of_cons; [done|by eapply Hmin]. }
      split; [apply progressed_stop; [done|]; rewrite Heq; intros f s Hx; specialize (Hmin' f s Hx); lia|].
      intros f s Hx. specialize (Hmin' f s Hx). eexists. split; [done|]. destruct ret; simpl; lia.
    + destruct (progress_fire fuel t now ret fire slot heap Hok Heq ltac:(lia)) as
        (t1 & e & ret1 & -> & Hok1 & Hm & Hdelta & Hsent & Hdue & Hag & Hmin).
      destruct (IH t1 ret1 Hok1 ltac:(lia)) as (t' & r & evs & -> & [P1 P2 P3 P4 P5 P6 P7] & Hr).
      exists t', r, ((fire, e) :: evs). split; [done|]. split; [|done]. split; [done|congruence| | | | |done].
      * rewrite P3, Hsent. by rewrite <-app_assoc.
      * by rewrite Hdue, P4.
      * constructor; [done|]. apply Forall_forall. intros x. rewrite P4. by apply due_ge.
      * intros s. rewrite P6, Hag. rewrite filter_app. case_decide; [|done].
        rewrite filter_cons_False by (simpl; lia). done.
Qed.

(** Setting the timeouts of a window: a timer with the schedule of the window,
    unless the window has one already. *)
Lemma set_timeouts_ok t slot now standstill delta_block :
  timers_ok t -> is_u64 slot -> 0 <= tm_delta_timeout t -> 0 <= delta_block ->
  now + 5 * MAX_TIMEOUT <= instant_max ->
  exists t' dt db, set_timeouts t slot now standstill delta_block = Some t' /\ timers_ok t' /\
    tm_delta_timeout t' = tm_delta_timeout t /\ tm_event_sender t' = tm_event_sender t /\
    0 <= dt <= MAX_TIMEOUT /\ 0 <= db <= MAX_TIMEOUT /\
    scale_timeout (tm_delta_timeout t) (calculate_timeout_multiplier slot standstill) = Some dt /\
    scale_timeout delta_block (calculate_timeout_multiplier slot standstill) = Some db /\
    tm_timers t' = match tm_timers t !! slot with
                   | Some _ => tm_timers t
                   | None => <[slot := WaitDeltaTimeout (slot_window slot) (now + dt) db]> (tm_timers t)
                   end.
Proof.
  intros Hok Hu Hdt Hdb Hnow. pose proof (leader_window_bounds slot Hu) as (Hw1 & Hw2 & _ & _).
  destruct (scale_timeout_ok _ _ Hdt (multiplier_nonneg slot standstill)) as (dt & Edt & Bdt).
  destruct (scale_timeout_ok _ _ Hdb (multiplier_nonneg slot standstill)) as (db & Edb & Bdb).
  assert (1 <= Z.of_nat (length (slot_window slot)) <= 4) as Hlen.
  { unfold slot_window. rewrite length_seqZ. lia. }
  assert (slot_window slot <> []) as Hne by (intros He; rewrite He in Hlen; simpl in Hlen; lia).
  unfold set_timeouts, timer_state_new. rewrite heap_in_sync_ok by done. cbn [rust_assert mbind option_bind].
  rewrite (bool_decide_false (slot_window slot = [])) by done. cbn [negb rust_assert mbind option_bind].
  rewrite Edt. cbn [mbind option_bind]. rewrite Edb. cbn [mbind option_bind].
  unfold instant_checked_add. rewrite bool_decide_true by lia. cbn [mbind option_bind].
  destruct (tm_timers t !! slot) as [st|] eqn:Hst; eexists _, dt, db; (split; [done|]); simpl.
  - split; [destruct Hok; by split|]. split_and!; first [done|lia].
  - split; [|split_and!; first [done|lia]]. destruct Hok as [K1 K2 K3 K4]. split; simpl; [|..|by apply heap_push_sorted|done].
    + apply map_Forall_insert_2; [|exact K1]. cbn [timer_ok]. split_and!; [exact Hne|lia|nia].
    + by rewrite heap_push_perm, (heap_of_insert _ _ (WaitDeltaTimeout _ _ _) (now + dt) Hst eq_refl), K2.
Qed.

(** ** Runs *)

Inductive timer_op :=
  | OpSetTimeouts (slot : Slot) (now : Instant) (standstill_slot : option Slot) (delta_block : Duration)
  | OpProgress (now : Instant).

Definition timer_op_ok (op : timer_op) : Prop :=
  match op with
  | OpSetTimeouts slot now _ delta_block =>
    is_u64 slot /\ 0 <= delta_block /\ now + 5 * MAX_TIMEOUT <= instant_max
  | OpProgress _ => True
  end.
Definition timer_apply (t : Timers) (op : timer_op) : option Timers :=
  match op with
  | OpSetTimeouts slot now standstill_slot delta_block => set_timeouts t slot now standstill_slot delta_block
  | OpProgress now => fst <$> timers_progress t now
  end.
Definition timers_run (t : Timers) (ops : list timer_op) : option Timers :=
  foldl (fun r op => t ← r; timer_apply t op) (Some t) ops.

Lemma timers_progress_ok t now :
  timers_ok t -> exists t' r evs, timers_progress t now = Some (t', r) /\ progressed t now t' evs /\
    (forall f s, (f, s) ∈ tm_heap t' -> exists x, r = Some x /\ x <= f).
Proof.
  intros Hok. unfold timers_progress. rewrite heap_in_sync_ok by done. cbn [rust_assert mbind option_bind].
  apply progress_loop_ok; [done|]. unfold progress_fuel, measure. lia.
Qed.

Lemma timers_run_ok delta sender now0 ops :
  0 <= delta -> connected sender = true -> Forall timer_op_ok ops ->
  exists t, timers_run (timers_new delta sender now0) ops = Some t /\ timers_ok t /\ tm_delta_timeout t = delta.
Proof.
  intros Hd Hc. induction ops as [|op ops IH] using rev_ind; intros Hops.
  { eexists. split; [done|]. split; [|done]. split; simpl; [apply map_Forall_empty|done|constructor|done]. }
  apply Forall_app in Hops as [Hops Hop%Forall_inv]. destruct (IH Hops) as (t & Hrun & Hok & Hdt).
  unfold timers_run in *. rewrite foldl_app, Hrun. cbn [foldl mbind option_bind].
  destruct op as [slot now ss db|now]; simpl in *.
  - destruct Hop as (Hu & Hdb & Hnow). rewrite <-Hdt in Hd.
    destruct (set_timeouts_ok t slot now ss db Hok Hu Hd Hdb Hnow) as (t' & dt & d & -> & Hok' & Hdt' & _).
    exists t'. split; [done|]. split; [done|congruence].
  - destruct (timers_progress_ok t now Hok) as (t' & r & evs & -> & Hp & _). exists t'. split; [done|].
    split; [apply Hp|]. rewrite (pg_delta _ _ _ _ Hp). done.
Qed.

(** The schedule of a window: the crashed-leader event after the first timeout, then
    a timeout for each slot at intervals of the block time. *)
Definition schedule (slot : Slot) (first : Instant) (delta_block : Duration) : list (Instant * VotorEvent) :=
  (first, ETimeoutCrashedLeader slot) ::
  imap (fun i s => (first + (Z.of_nat i + 1) * delta_block, ETimeout s)) (slot_window slot).

Lemma block_agenda_imap w t d :
  block_agenda w (t + d) d = imap (fun i s => (t + (Z.of_nat i + 1) * d, ETimeout s)) w.
Proof.
  revert t. induction w as [|s w IH]; intros t; [done|]. cbn [block_agenda imap]. f_equal; [f_equal; simpl; lia|].
  rewrite IH. apply imap_ext. intros i x _. simpl. f_equal. lia.
Qed.

(** C20: The timers keep their schedule.  Whatever windows were set and whenever
    [progress] was called before, nothing panics; setting the timeouts of a window
    without a timer schedules the crashed-leader event and one timeout per slot of
    the window, at the timeouts scaled by the standstill and capped at an hour; and
    [progress] sends exactly the events due, in the order of their deadlines, keeps
    the others, and returns an instant no later than the next deadline. *)
Theorem timers_on_schedule delta sender now0 ops
    (Hd : 0 <= delta) (Hc : connected sender = true) (Hops : Forall timer_op_ok ops) :
  exists t, timers_run (timers_new delta sender now0) ops = Some t /\
  (forall slot now ss db, timer_op_ok (OpSetTimeouts slot now ss db) -> agenda_of (tm_timers t) slot = [] ->
     exists t' d1 d2, set_timeouts t slot now ss db = Some t' /\
       scale_timeout delta (calculate_timeout_multiplier slot ss) = Some d1 /\
       scale_timeout db (calculate_timeout_multiplier slot ss) = Some d2 /\
       0 <= d1 <= MAX_TIMEOUT /\ 0 <= d2 <= MAX_TIMEOUT /\
       agenda_of (tm_timers t') slot = schedule slot (now + d1) d2 /\
       forall s, s <> slot -> agenda_of (tm_timers t') s = agenda_of (tm_timers t) s) /\
  (forall now, exists t' r evs, timers_progress t now = Some (t', r) /\
     sent (tm_event_sender t') = sent (tm_event_sender t) ++ evs.*2 /\
     evs ≡ₚ due now (tm_timers t) /\ StronglySorted (fun x y => x.1 <= y.1) evs /\
     (forall s, agenda_of (tm_timers t') s = filter (fun x => now < x.1) (agenda_of (tm_timers t) s)) /\
     (forall s x, x ∈ agenda_of (tm_timers t') s -> exists y, r = Some y /\ y <= x.1)).
Proof.
  destruct (timers_run_ok delta sender now0 ops Hd Hc Hops) as (t & Hrun & Hok & Hdt). exists t. split; [done|]. split.
  - intros slot now ss db (Hu & Hdb & Hnow) Hnone. rewrite <-Hdt in Hd |- *.
    destruct (set_timeouts_ok t slot now ss db Hok Hu Hd Hdb Hnow) as (t' & d1 & d2 & Hset & _ & _ & _ & B1 & B2 & S1 & S2 & Htm).
    exists t', d1, d2. rewrite Htm. unfold agenda_of in *. destruct (tm_timers t !! slot) as [st|] eqn:Hst.
    { simpl in Hnone. pose proof (tk_timers _ Hok slot st Hst) as Hst'.
      destruct (timer_progress_spec st Hst') as (? & ? & ? & ? & _). congruence. }
    split_and!; try first [done|lia].
    + rewrite lookup_insert_eq. cbn [fmap option_fmap option_map default agenda]. unfold schedule.
      pose proof (leader_window_bounds slot Hu) as (Hw & _). unfold slot_window.
      destruct (seqZ slot _) as [|s w] eqn:Hw'.
      { apply (f_equal length) in Hw'. rewrite length_seqZ in Hw'. simpl in Hw'. lia. }
      assert (s = slot) as ->.
      { pose proof (f_equal (lookup 0%nat) Hw') as Hl. rewrite lookup_seqZ_lt in Hl by lia. simpl in Hl. by injection Hl as <-; lia. }
      by rewrite block_agenda_imap.
    + intros s Hs. by rewrite lookup_insert_ne.
  - intros now. destruct (timers_progress_ok t now Hok) as (t' & r & evs & Heq & [P1 P2 P3 P4 P5 P6 P7] & Hr).
    exists t', r, evs. split_and!; [done..|]. intros s x Hx. unfold agenda_of in Hx.
    destruct (tm_timers t' !! s) as [st|] eqn:Hst; [|by apply elem_of_nil in Hx].
    destruct (timers_fire t' x s st P1 Hst Hx) as (f & Hin & _ & Hle). destruct (Hr f s Hin) as (y & -> & Hy).
    exists y. split; [done|lia].
Qed.
Lemma timers_on_schedule_witness :
  exists t, timers_run (timers_new DELTA_TIMEOUT (mkSender [] true false) 0)
      [OpSetTimeouts 52 0 None 400000000; OpProgress 800000000] = Some t /\
    sent (tm_event_sender t) = [ETimeoutCrashedLeader 52] /\
    exists t' r (evs : list (Z * VotorEvent)), timers_progress t 1550000000 = Some (t', r) /\
      agenda_of (tm_timers t') 52 = [(1950000000, ETimeout 54); (2350000000, ETimeout 55)] /\
      sent (tm_event_sender t') = sent (tm_event_sender t) ++ evs.*2.
Proof.
  destruct (timers_on_schedule DELTA_TIMEOUT (mkSender [] true false) 0
    [OpSetTimeouts 52 0 None 400000000; OpProgress 800000000]) as (t & Hrun & _ & Hp).
  - by vm_compute.
  - reflexivity.
  - repeat constructor; by vm_compute.
  - exists t. split; [exact Hrun|]. destruct (Hp 1550000000) as (t' & r & evs & Heq & Hsent & _ & _ & Hag & _).
    assert (Hf : (fun x : Timers => (sent (tm_event_sender x), agenda_of (tm_timers x) 52)) <$>
      timers_run (timers_new DELTA_TIMEOUT (mkSender [] true false) 0)
      [OpSetTimeouts 52 0 None 400000000; OpProgress 800000000] =
      Some ([ETimeoutCrashedLeader 52], [(1150000000, ETimeout 52); (1550000000, ETimeout 53);
        (1950000000, ETimeout 54); (2350000000, ETimeout 55)])) by (vm_compute; reflexivity).
    rewrite Hrun in Hf. injection Hf as Hf1 Hf2. split; [exact Hf1|].
    exists t', r, evs. split; [exact Heq|]. split; [|exact Hsent]. rewrite Hag, Hf2. reflexivity.
Defined.

(** The instant returned may be one that has passed, and there may be no timer left:
    the last slot of a window, whose two events are both due. *)
Lemma progress_returns_stale :
  exists t r, timers_run (timers_new DELTA_TIMEOUT (mkSender [] true false) 0) [OpSetTimeouts 7 0 None 400000000] = Some t /\
    snd <$> timers_progress t 5000000000 = Some (Some r) /\ r < 5000000000 /\
    (fun x => tm_heap x.1) <$> timers_progress t 5000000000 = Some [].
Proof. eexists _, 1150000000. split; [vm_compute; reflexivity|]. split; [|split]; vm_compute; reflexivity. Qed.
