(* ===== verification/PoolService.v ===== *)
(** * The consensus pool service

    [votor/src/consensus_pool_service.rs]: the thread that owns the consensus pool.
    It adds the messages it receives, prunes to the root, hands new certificates to
    the voting service, sends the pool's events to the event handler, and decides
    when this node produces its leader windows.  One turn of its loop is
    [ingest_iteration]; what other threads may change meanwhile (the root bank, the
    clock, the outcome of a non-blocking send) is an argument of the turn. *)

From stdpp Require Import strings.
From S2P Require Import Prelude.
From S2P Require Import Messages.
From S2P Require Import ParentReady.
From S2P Require Import EpochStakes.
From S2P Require Import VotePools.
From S2P Require Import StakeCounters.
From S2P Require Import CertBuilder.
From S2P Require Import Finalization.
From S2P Require Import Migration.
From S2P Require Import ConsensusPool.
From S2P Require Import VoteHistory.
From S2P Require Import VoteStorage.
From S2P Require Import Voting.
From S2P Require Import Timers.

(** ** Statistics *)

Record ServiceStats := mkServiceStats {
  ss_add_message_failed : Z;
  ss_certificates_sent : Z;
  ss_certificates_dropped : Z;
  ss_new_finalized_slot : Z;
  ss_parent_ready_missed_window : Z;
  ss_parent_ready_produce_window : Z;
  ss_received_votes : Z;
  ss_received_certificates : Z;
  ss_standstill : bool;
  ss_prune_old_state_called : Z;
  ss_last_request_time : Instant;
}.
Definition service_stats_new (now : Instant) : ServiceStats := mkServiceStats 0 0 0 0 0 0 0 0 false 0 now.

Inductive service_counter :=
  | add_message_failed | certificates_sent | certificates_dropped | new_finalized_slot
  | parent_ready_missed_window | parent_ready_produce_window | received_votes | received_certificates
  | prune_old_state_called.

(** [stats.c += n] on a [Saturating<usize>]. *)
Definition service_stats_add (c : service_counter) (n : Z) (s : ServiceStats) : ServiceStats :=
  let '(mkServiceStats a1 a2 a3 a4 a5 a6 a7 a8 b a9 t) := s in
  match c with
  | add_message_failed => mkServiceStats (a1 +s n) a2 a3 a4 a5 a6 a7 a8 b a9 t
  | certificates_sent => mkServiceStats a1 (a2 +s n) a3 a4 a5 a6 a7 a8 b a9 t
  | certificates_dropped => mkServiceStats a1 a2 (a3 +s n) a4 a5 a6 a7 a8 b a9 t
  | new_finalized_slot => mkServiceStats a1 a2 a3 (a4 +s n) a5 a6 a7 a8 b a9 t
  | parent_ready_missed_window => mkServiceStats a1 a2 a3 a4 (a5 +s n) a6 a7 a8 b a9 t
  | parent_ready_produce_window => mkServiceStats a1 a2 a3 a4 a5 (a6 +s n) a7 a8 b a9 t
  | received_votes => mkServiceStats a1 a2 a3 a4 a5 a6 (a7 +s n) a8 b a9 t
  | received_certificates => mkServiceStats a1 a2 a3 a4 a5 a6 a7 (a8 +s n) b a9 t
  | prune_old_state_called => mkServiceStats a1 a2 a3 a4 a5 a6 a7 a8 b (a9 +s n) t
  end.
Definition with_standstill (b : bool) (s : ServiceStats) : ServiceStats :=
  let '(mkServiceStats a1 a2 a3 a4 a5 a6 a7 a8 _ a9 t) := s in mkServiceStats a1 a2 a3 a4 a5 a6 a7 a8 b a9 t.
Definition SERVICE_REPORT_INTERVAL : Duration := 10 * NANOS_PER_SEC.
Definition service_maybe_report (now : Instant) (s : ServiceStats) : ServiceStats :=
  if bool_decide (SERVICE_REPORT_INTERVAL <= now - ss_last_request_time s) then service_stats_new now else s.

(** ** State *)

Section service.
Context `{BlsOps, StorageOps}.

(** The bounded channel to the voting service.  [bs_outcomes] are the results of the
    next calls of [try_send], which the receiver decides; with none left it has
    room. *)
Record BlsSender := mkBlsSender { bs_sent : list BLSOp; bs_outcomes : list (result TrySendError unit) }.
Definition bls_try_send (c : BlsSender) (op : BLSOp) : BlsSender * result TrySendError unit :=
  match bs_outcomes c with
  | [] => (mkBlsSender (bs_sent c ++ [op]) [], Ok tt)
  | Ok _ :: l => (mkBlsSender (bs_sent c ++ [op]) l, Ok tt)
  | Err e :: l => (mkBlsSender (bs_sent c) l, Err e)
  end.

(** The parts of [ConsensusPoolContext] the service only reads: its identity, its
    vote account, the leader schedule and the blockstore. *)
Record ServiceContext := mkServiceContext {
  cx_id : Pubkey;
  cx_my_vote_pubkey : Pubkey;
  cx_slot_leader_at : Slot -> RootBank -> option Pubkey;
  cx_has_existing_shreds : Slot -> bool;
}.

(** The local variables of [consensus_pool_ingest_loop], the channels and what is
    shared with other threads. *)
Record Service := mkService {
  sv_pool : ConsensusPool;
  sv_events : list VotorEvent;
  sv_standstill_timer : Instant;
  sv_stats : ServiceStats;
  sv_highest_parent_ready : Slot;
  sv_kick_off_parent_ready : bool;
  sv_exit : bool;
  sv_bls_sender : BlsSender;
  sv_event_sender : Sender VotorEvent;
  sv_commitment_sender : Sender CommitmentAggregationData;
  sv_highest_finalized : option ValidatedBlockFinalizationCert;
}.

Definition sv_with_pool (s : Service) pool events : Service :=
  let '(mkService _ _ t st h k x b e c f) := s in mkService pool events t st h k x b e c f.
Definition sv_with_stats (s : Service) st : Service :=
  let '(mkService p ev t _ h k x b e c f) := s in mkService p ev t st h k x b e c f.
Definition sv_count (c : service_counter) (n : Z) (s : Service) : Service :=
  sv_with_stats s (service_stats_add c n (sv_stats s)).
Definition sv_with_timer (s : Service) t : Service :=
  let '(mkService p ev _ st h k x b e c f) := s in mkService p ev t st h k x b e c f.
Definition sv_with_parent_ready (s : Service) h k : Service :=
  let '(mkService p ev t st _ _ x b e c f) := s in mkService p ev t st h k x b e c f.
Definition sv_with_exit (s : Service) : Service :=
  let '(mkService p ev t st h k _ b e c f) := s in mkService p ev t st h k true b e c f.
Definition sv_with_bls (s : Service) b : Service :=
  let '(mkService p ev t st h k x _ e c f) := s in mkService p ev t st h k x b e c f.
Definition sv_with_event_sender (s : Service) e : Service :=
  let '(mkService p ev t st h k x b _ c f) := s in mkService p ev t st h k x b e c f.
Definition sv_with_commitment (s : Service) c : Service :=
  let '(mkService p ev t st h k x b e _ f) := s in mkService p ev t st h k x b e c f.
Definition sv_with_finalized (s : Service) f : Service :=
  let '(mkService p ev t st h k x b e c _) := s in mkService p ev t st h k x b e c f.
Definition sv_push (s : Service) (e : VotorEvent) : Service := sv_with_pool s (sv_pool s) (sv_events s ++ [e]).

(** ** Messages *)

Fixpoint send_certificates_from (i num_certs : Z) (certs : list Certificate) (s : Service)
    : Service * result AddVoteError unit :=
  match certs with
  | [] => (s, Ok tt)
  | certificate :: certs =>
    let '(b, r) := bls_try_send (sv_bls_sender s) (PushCertificate certificate) in
    let s := sv_with_bls s b in
    match r with
    | Ok _ => send_certificates_from (i + 1) num_certs certs (sv_count certificates_sent 1 s)
    | Err TrySendDisconnected => (s, Err (ChannelDisconnected "VotingService"))
    | Err TrySendFull => (sv_count certificates_dropped (num_certs -s i) s, Err VotingServiceQueueFull)
    end
  end.
Definition send_certificates (certs : list Certificate) (s : Service) : Service * result AddVoteError unit :=
  send_certificates_from 0 (Z.of_nat (length certs)) certs s.

Definition maybe_update_root_and_send_new_certificates (now : Instant) (bank : RootBank)
    (new_finalized : option Slot) (certs : list Certificate) (s : Service) : Service * result AddVoteError unit :=
  let s := match new_finalized with
           | Some _ =>
             let s := sv_count new_finalized_slot 1 (sv_with_timer s now) in
             sv_with_finalized s (highest_finalized_slot_cert (sv_pool s))
           | None => s
           end in
  let s := sv_with_pool s (maybe_prune (sv_pool s) (rb_slot bank)) (sv_events s) in
  let s := sv_count prune_old_state_called 1 s in
  send_certificates certs s.

Definition add_message_and_maybe_update_commitment (cx : ServiceContext) (root_bank : RootBank)
    (message : ConsensusMessage) (s : Service)
    : option (Service * result AddVoteError (option Slot * list Certificate)) :=
  '(p, events, r) ← add_message (sv_pool s) root_bank (cx_my_vote_pubkey cx) message (sv_events s);
  let s := sv_with_pool s p events in
  match r with
  | Err e => Some (s, Err e)
  | Ok (None, certs) => Some (s, Ok (None, certs))
  | Ok (Some new_finalized, certs) =>
    let '(c, ok) := update_commitment_cache CtFinalized new_finalized (sv_commitment_sender s) in
    let s := sv_with_commitment s c in
    if ok : bool then Some (sv_with_stats s (with_standstill false (sv_stats s)), Ok (Some new_finalized, certs))
    else Some (s, Err (ChannelDisconnected "CommitmentSender"))
  end.

(** A message with the root banks and the time the service reads while it handles it. *)
Record Delivery := mkDelivery {
  dl_message : ConsensusMessage;
  dl_root : RootBank;
  dl_prune_root : RootBank;
  dl_now : Instant;
}.

Definition process_consensus_message (cx : ServiceContext) (d : Delivery) (s : Service)
    : option (Service * result AddVoteError unit) :=
  let s := match dl_message d with
           | MCertificate _ => sv_count received_certificates 1 s
           | MVote _ => sv_count received_votes 1 s
           end in
  '(s, r) ← add_message_and_maybe_update_commitment cx (dl_root d) (dl_message d) s;
  match r with
  | Err e => Some (s, Err e)
  | Ok (new_finalized, certs) =>
    Some (maybe_update_root_and_send_new_certificates (dl_now d) (dl_prune_root d) new_finalized certs s)
  end.

(** The loop over a batch; [Err tt] is the early return on a disconnected channel. *)
Fixpoint process_messages (cx : ServiceContext) (ds : list Delivery) (s : Service)
    : option (Service * result unit unit) :=
  match ds with
  | [] => Some (s, Ok tt)
  | d :: ds =>
    '(s, r) ← process_consensus_message cx d s;
    match r with
    | Ok _ => process_messages cx ds s
    | Err (ChannelDisconnected _) => Some (sv_with_exit s, Err tt)
    | Err _ => process_messages cx ds (sv_count add_message_failed 1 s)
    end
  end.

(** ** Leader windows *)

Definition parent_ready_slots (events : list VotorEvent) : list Slot :=
  omap (fun e => match e with EParentReady slot _ => Some slot | _ => None end) events.

(** [None] is the [unreachable!]. *)
Definition add_produce_block_event (cx : ServiceContext) (root_bank : RootBank) (now : Instant) (s : Service)
    : option Service :=
  match iter_max (parent_ready_slots (sv_events s)) with
  | None => Some s
  | Some new_highest =>
    if bool_decide (new_highest <= sv_highest_parent_ready s) then Some s
    else
      let s := sv_with_parent_ready s new_highest (sv_kick_off_parent_ready s) in
      match cx_slot_leader_at cx new_highest root_bank with
      | None => Some (sv_with_exit s)
      | Some leader =>
        if negb (bool_decide (leader = cx_id cx)) then Some s
        else
          let start := new_highest in
          let last := last_of_consecutive_leader_slots start in
          if existsb (cx_has_existing_shreds cx) (seqZ start (last - start + 1)) then Some s
          else match block_production_parent (parent_ready_tracker (sv_pool s)) start with
               | MissedWindow => Some (sv_count parent_ready_missed_window 1 s)
               | ParentNotReady => None
               | Parent parent =>
                 Some (sv_count parent_ready_produce_window 1
                         (sv_push s (EProduceWindow (mkLeaderWindowInfo start last parent now))))
               end
      end
  end.

(** The larger of two blocks, by slot and then by hash. *)
Definition block_max (a b : Block) : Block := if decide (leq a b) then b else a.

(** The first parent-ready event, for the genesis block of the migration or for the
    root the node started from. *)
Definition kick_off (ms : MigrationStatus) (root_bank : RootBank) (s : Service) : option Service :=
  if sv_kick_off_parent_ready s || negb (is_alpenglow_enabled (ms_phase ms)) then Some s
  else
    g ← genesis_block ms;
    genesis ← g;
    let root_block := (rb_slot root_bank, default 0 (rb_block_id root_bank)) in
    let block := block_max genesis root_block in
    start ← checked_add block.1 1;
    Some (sv_with_parent_ready (sv_push s (EParentReady start block)) start true).

(** ** The loop *)

Definition standstill_step (now : Instant) (s : Service) : option (Service * result unit unit) :=
  if bool_decide (DELTA_STANDSTILL < now - sv_standstill_timer s) then
    let s := if sv_kick_off_parent_ready s
             then sv_push s (EStandstill (default 0 (highest_finalized_slot (sv_pool s)))) else s in
    let s := sv_with_timer (sv_with_stats s (with_standstill true (sv_stats s))) now in
    certs ← get_certs_for_standstill (sv_pool s);
    match send_certificates certs s with
    | (s, Err (ChannelDisconnected _)) => Some (sv_with_exit s, Err tt)
    | (s, _) => Some (s, Ok tt)
    end
  else Some (s, Ok tt).

(** [events.drain(..).try_for_each(send)]: what is left after a failure is dropped. *)
Fixpoint send_all (events : list VotorEvent) (c : Sender VotorEvent) : Sender VotorEvent * bool :=
  match events with
  | [] => (c, true)
  | e :: events => let '(c, ok) := send c e in if ok : bool then send_all events c else (c, false)
  end.
Definition send_events (s : Service) : Service * result unit unit :=
  let '(c, ok) := send_all (sv_events s) (sv_event_sender s) in
  let s := sv_with_event_sender (sv_with_pool s (sv_pool s) []) c in
  if ok : bool then (s, Ok tt) else (sv_with_exit s, Err tt).

(** What the [select!] of a turn gives: nothing within a second, a disconnected
    channel, or the messages that were waiting. *)
Inductive Received := RecvTimeout | RecvDisconnected | RecvMessages (ds : list Delivery).
(** A turn: the migration status and the root banks the service reads, the times
    before and after it waits, and what it receives. *)
Record Turn := mkTurn {
  tu_migration : MigrationStatus;
  tu_kick_off_root : RootBank;
  tu_leader_root : RootBank;
  tu_now : Instant;
  tu_received : Received;
  tu_end : Instant;
}.

Definition ingest_iteration (cx : ServiceContext) (t : Turn) (s : Service) : option (Service * result unit unit) :=
  s ← kick_off (tu_migration t) (tu_kick_off_root t) s;
  s ← add_produce_block_event cx (tu_leader_root t) (tu_now t) s;
  '(s, r) ← standstill_step (tu_now t) s;
  match r with
  | Err _ => Some (s, Err tt)
  | Ok _ =>
    match send_events s with
    | (s, Err _) => Some (s, Err tt)
    | (s, Ok _) =>
      match tu_received t with
      | RecvTimeout => Some (s, Ok tt)
      | RecvDisconnected => Some (sv_with_exit s, Err tt)
      | RecvMessages ds =>
        '(s, r) ← process_messages cx ds s;
        match r with
        | Err _ => Some (s, Err tt)
        | Ok _ =>
          let s := sv_with_stats s (service_maybe_report (tu_end t) (sv_stats s)) in
          Some (sv_with_pool s (maybe_report (sv_pool s) (tu_end t)) (sv_events s), Ok tt)
        end
      end
    end
  end.

(** The state before the first turn. *)
Definition service_start (ms : MigrationStatus) (root_bank : RootBank) (g : gset CertificateType) (now : Instant)
    (bls : BlsSender) (events : Sender VotorEvent) (commitment : Sender CommitmentAggregationData)
    (shared : option ValidatedBlockFinalizationCert) : Service :=
  let pool := if is_alpenglow_enabled (ms_phase ms) then new_from_root_bank root_bank g now
              else new_from_root_bank_pre_migration root_bank g ms now in
  mkService pool [] now (service_stats_new now) (rb_slot root_bank) false false bls events commitment shared.

(** [while !exit]: the turns of the loop until it ends. *)
Fixpoint consensus_pool_ingest_loop (cx : ServiceContext) (turns : list Turn) (s : Service)
    : option (Service * result unit unit) :=
  match turns with
  | [] => Some (s, Ok tt)
  | t :: turns =>
    if sv_exit s then Some (s, Ok tt)
    else '(s, r) ← ingest_iteration cx t s;
         match r with Ok _ => consensus_pool_ingest_loop cx turns s | Err _ => Some (s, Err tt) end
  end.
End service.
