(* ===== verification/ServiceTheorems.v ===== *)
(** * Theorems about the consensus pool service

    The tracker of the pool is ahead of everything that is certified ([pool_leads]),
    so that the parent of a leader window is there when the service asks for it; the
    invariant of the service; and its properties: it never panics, produces each
    leader window at most once and on a ready parent, and shares the pool's highest
    finalized slot. *)

From stdpp Require Import strings.
From S2P Require Import Prelude.
From S2P Require Import Messages.
From S2P Require Import ParentReady.
From S2P Require Import EpochStakes.
From S2P Require Import VotePools.
From S2P Require Import StakeCounters.
From S2P Require Import CertBuilder.
From S2P Require Import Finalization.
From S2P Require Import Migration.
From S2P Require Import ConsensusPool.
From S2P Require Import PoolVotes.
From S2P Require Import PoolCerts.
From S2P Require Import PoolSafety.
From S2P Require Import PoolOps.
From S2P Require Import PoolTheorems.
From S2P Require Import PoolEvents.
From S2P Require Import VoteHistory.
From S2P Require Import VoteStorage.
From S2P Require Import Voting.
From S2P Require Import Timers.
From S2P Require Import PoolService.

(** ** The tracker leads *)

Abbreviation hwpr := highest_with_parent_ready.

(** The highest slot with a ready parent is above the root, has a ready parent and
    is above every slot that has one. *)
Record tracker_high (t : ParentReadyTracker) : Prop := {
  th_root : prt_root t + 1 <= hwpr t;
  th_ready : ready_at (slot_statuses t) (hwpr t) <> [];
  th_high s : ready_at (slot_statuses t) s <> [] -> s <= hwpr t;
}.
Record tracker_leads (t : ParentReadyTracker) : Prop := {
  tl_high : tracker_high t;
  tl_nf s : nf_at (slot_statuses t) s <> [] -> s + 1 <= hwpr t;
}.

(** A step of the tracker: the highest slot only grows, and reported slots are not
    above it. *)
Record tracker_step (t t' : ParentReadyTracker) (ev ev' : list VotorEvent) : Prop := {
  ts_root : prt_root t' = prt_root t;
  ts_high : hwpr t <= hwpr t';
  ts_events s b : EParentReady s b ∈ ev' -> EParentReady s b ∈ ev \/ s <= hwpr t';
}.
Lemma tracker_step_refl t ev : tracker_step t t ev ev.
Proof. split; [done|lia|]. intros s b. by left. Qed.
Lemma tracker_step_trans t1 t2 t3 ev1 ev2 ev3 :
  tracker_step t1 t2 ev1 ev2 -> tracker_step t2 t3 ev2 ev3 -> tracker_step t1 t3 ev1 ev3.
Proof.
  intros [R1 H1 E1] [R2 H2 E2]. split; [congruence|lia|].
  intros s b He. destruct (E2 s b He) as [He2|]; [|by right]. destruct (E1 s b He2); [by left|right; lia].
Qed.

Lemma push_parent_ready s b st ev st' ev' :
  push_parent s b (st, ev) = (st', ev') ->
  st_parents_ready st' <> [] /\ st_notar_fallbacks st' = st_notar_fallbacks st /\
  forall s' b', EParentReady s' b' ∈ ev' -> EParentReady s' b' ∈ ev \/ s' = s.
Proof.
  unfold push_parent. case_bool_decide as Hb; intros [= <- <-].
  - split; [by intros Hn; rewrite Hn in Hb; apply elem_of_nil in Hb|]. split; [done|]. by left.
  - split; [by destruct (st_parents_ready st)|]. split; [done|]. intros s' b'. case_bool_decide; [|by left].
    rewrite elem_of_app, list_elem_of_singleton. intros [?|[= -> ->]]; [by left|by right].
Qed.

(** Setting the status of [s] to one with a ready parent, and the highest slot to at
    least [s]. *)
Lemma set_ready_high t s st h :
  tracker_high t -> st_parents_ready st <> [] -> h = Z.max s (hwpr t) ->
  tracker_high (mkTracker (<[s := st]> (slot_statuses t)) (prt_root t) h).
Proof.
  intros [R Re Hi] Hst ->. split; simpl.
  - lia.
  - destruct (Z.max_spec s (hwpr t)) as [[Hlt ->]|[Hle ->]].
    + by rewrite entry_insert_ne by lia.
    + by rewrite entry_insert.
  - intros x. destruct (decide (s = x)) as [->|]; [lia|]. rewrite entry_insert_ne by done. intros Hx%Hi. lia.
Qed.

Lemma notar_loop_leads fuel b : forall s t ev t' ev',
  tracker_high t -> notar_loop fuel b s t ev = Some (t', ev') ->
  tracker_high t' /\ tracker_step t t' ev ev' /\ s <= hwpr t' /\
  forall x, nf_at (slot_statuses t') x = nf_at (slot_statuses t) x.
Proof.
  induction fuel as [|fuel IH]; intros s t ev t' ev' Ht; [done|]. cbn [notar_loop]. case_bool_decide; [done|].
  destruct (push_parent s b (entry_or_default (slot_statuses t) s, ev)) as [st ev1] eqn:Ep.
  pose proof (push_parent_ready _ _ _ _ _ _ Ep) as (Hst & Hnf & He). set (h := if bool_decide _ then _ else _).
  assert (h = Z.max s (hwpr t)) as Hh.
  { subst h. case_bool_decide as Hb; [|done]. assert (s <= hwpr t); [|lia]. apply (th_high _ Ht).
    intros Hn. rewrite Hn in Hb. by apply elem_of_nil in Hb. }
  set (t1 := mkTracker _ _ _). pose proof (set_ready_high t s st h Ht Hst Hh) as Ht1. fold t1 in Ht1.
  assert (forall x, nf_at (slot_statuses t1) x = nf_at (slot_statuses t) x) as Hnf1.
  { intros x. simpl. destruct (decide (s = x)) as [<-|]; [by rewrite entry_insert|by rewrite entry_insert_ne]. }
  assert (tracker_step t t1 ev ev1) as Hs1.
  { split; [done|simpl; lia|]. intros s' b' [?| ->]%He; [by left|right; simpl; lia]. }
  destruct (negb _).
  - intros [= <- <-]. split; [done|]. split; [done|]. split; [simpl; lia|done].
  - intros Hl. destruct (IH _ _ _ _ _ Ht1 Hl) as (Ht' & Hs' & Hle & Hnf'). split; [done|].
    split; [by eapply tracker_step_trans|]. split; [lia|]. intros x. by rewrite Hnf', Hnf1.
Qed.

Lemma add_notar_leads t b ev t' ev' :
  tracker_leads t -> add_new_notar_fallback_or_stronger t b ev = Some (t', ev') ->
  tracker_leads t' /\ tracker_step t t' ev ev' /\ b.1 + 1 <= hwpr t'.
Proof.
  intros [Ht Hnf]. unfold add_new_notar_fallback_or_stronger. case_bool_decide as Hr.
  { intros [= <- <-]. split; [done|]. split; [apply tracker_step_refl|]. pose proof (th_root _ Ht). lia. }
  case_bool_decide as Hin.
  { intros [= <- <-].
    assert (forall x, entry_or_default (<[b.1 := entry_or_default (slot_statuses t) b.1]> (slot_statuses t)) x
      = entry_or_default (slot_statuses t) x) as He.
    { intros x. destruct (decide (b.1 = x)) as [<-|]; [by rewrite entry_insert|by rewrite entry_insert_ne]. }
    destruct Ht as [R Re Hi]. split; [split; [split; simpl; [done|by rewrite He|]|simpl]; intros x; rewrite He; auto|].
    split; [split; simpl; [done|lia|by left]|]. simpl. apply Hnf. intros Hn. rewrite Hn in Hin. by apply elem_of_nil in Hin. }
  destruct (rust_assert _); [|done]. cbn [mbind option_bind]. set (t1 := mkTracker _ _ _). intros Hl.
  assert (tracker_high t1) as Ht1.
  { assert (forall x, ready_at (slot_statuses t1) x = ready_at (slot_statuses t) x) as He.
    { intros x. simpl. destruct (decide (b.1 = x)) as [<-|]; [by rewrite entry_insert|by rewrite entry_insert_ne]. }
    destruct Ht as [R Re Hi]. split; [done|by rewrite He|]. intros x. rewrite He. apply Hi. }
  assert (b.1 +s 1 = b.1 + 1) as Hsat.
  { cbn [notar_loop] in Hl. destruct (bool_decide (u64_max < b.1 +s 1 + 1)) eqn:Hov; [done|].
    apply bool_decide_eq_false in Hov. unfold sat_add in *. lia. }
  rewrite Hsat in Hl.
  destruct (notar_loop_leads _ _ _ _ _ _ _ Ht1 Hl) as (Ht' & [Sr Sh Se] & Hle & Hnf').
  split; [|by split]. split; [done|]. intros s. rewrite Hnf'. simpl in Sh.
  destruct (decide (b.1 = s)) as [<-|]; [done|]. simpl. rewrite entry_insert_ne by done. intros Hs%Hnf. lia.
Qed.

Lemma push_parents_leads ps l : forall t ev,
  ps <> [] -> tracker_high t ->
  tracker_high (foldl (push_parents_at ps) (t, ev) l).1 /\
  tracker_step t (foldl (push_parents_at ps) (t, ev) l).1 ev (foldl (push_parents_at ps) (t, ev) l).2 /\
  forall x, nf_at (slot_statuses (foldl (push_parents_at ps) (t, ev) l).1) x = nf_at (slot_statuses t) x.
Proof.
  induction l as [|s l IH]; intros t ev Hps Ht; [by split; [|split; [apply tracker_step_refl|]]|]. cbn [foldl].
  assert (forall ps st ev st' ev', foldl (fun a b => push_parent s b a) (st, ev) ps = (st', ev') ->
    (ps <> [] \/ st_parents_ready st <> [] -> st_parents_ready st' <> []) /\ st_notar_fallbacks st' = st_notar_fallbacks st /\
    forall s' b', EParentReady s' b' ∈ ev' -> EParentReady s' b' ∈ ev \/ s' = s) as Hin.
  { clear. induction ps as [|b ps IH]; intros st ev st' ev'; cbn [foldl].
    - intros [= <- <-]. split; [by intros []|]. split; [done|]. by left.
    - destruct (push_parent s b (st, ev)) as [st1 ev1] eqn:Ep. intros Hf.
      destruct (push_parent_ready _ _ _ _ _ _ Ep) as (Hst & Hnf & He). destruct (IH _ _ _ _ Hf) as (H1 & H2 & H3).
      split; [intros _; apply H1; by right|]. split; [congruence|]. intros s' b' [?|?]%H3; [by apply He|by right]. }
  cbn [push_parents_at]. destruct (foldl (fun a b => push_parent s b a) (entry_or_default (slot_statuses t) s, ev) ps) as [st ev1] eqn:Ef.
  destruct (Hin _ _ _ _ _ Ef) as (Hst & Hnf & He).
  set (t1 := mkTracker _ _ _).
  assert (tracker_high t1) as Ht1 by (apply set_ready_high; [done|by apply Hst; left|done]).
  destruct (IH t1 ev1 Hps Ht1) as (H1 & H2 & H3). split; [done|]. split.
  - eapply tracker_step_trans; [|exact H2]. split; [done|simpl; lia|]. intros s' b' [?| ->]%He; [by left|right; simpl; lia].
  - intros x. rewrite H3. simpl. destruct (decide (s = x)) as [<-|]; [by rewrite entry_insert|by rewrite entry_insert_ne].
Qed.

Lemma add_skip_leads t s ev t' ev' :
  tracker_leads t -> add_new_skip t s ev = Some (t', ev') -> tracker_leads t' /\ tracker_step t t' ev ev'.
Proof.
  intros [Ht Hnf]. unfold add_new_skip. case_bool_decide.
  { intros [= <- <-]. split; [done|apply tracker_step_refl]. }
  set (m := <[s := _]> _). set (t1 := mkTracker m _ _).
  assert (forall x, ready_at m x = ready_at (slot_statuses t) x /\ nf_at m x = nf_at (slot_statuses t) x) as Hm.
  { intros x. subst m. destruct (decide (s = x)) as [<-|]; [by rewrite entry_insert|by rewrite entry_insert_ne]. }
  assert (tracker_leads t1) as [Ht1 Hnf1].
  { destruct Ht as [R Re Hi]. split; [split; simpl; [done|by rewrite (proj1 (Hm _))|]|simpl]; intros x.
    - rewrite (proj1 (Hm _)). apply Hi.
    - rewrite (proj2 (Hm _)). apply Hnf. }
  assert (tracker_step t t1 ev ev) as Hs1 by (split; [done|simpl; lia|by left]).
  destruct (future_slots_loop _ _ _) as [l|]; [|done]. cbn [mbind option_bind].
  destruct (m !! (s -s 1)) as [st|]; [|by intros [= <- <-]]. case_bool_decide as Hps; [by intros [= <- <-]|].
  destruct (push_parents_leads (potential_parents_of st) l t1 ev Hps Ht1) as (H1 & H2 & H3).
  destruct (foldl _ _ l) as [t2 ev2]. intros [= <- <-]. simpl in *. split; [|by eapply tracker_step_trans].
  split; [done|]. intros x. rewrite H3. intros Hx%Hnf1. pose proof (ts_high _ _ _ _ H2). simpl in *. lia.
Qed.

Lemma set_root_leads t r : tracker_leads t -> r + 1 <= hwpr t -> tracker_leads (tracker_set_root t r).
Proof.
  intros [[R Re Hi] Hnf] Hr.
  assert (forall s, entry_or_default (slot_statuses (tracker_set_root t r)) s =
    if bool_decide (r <= s) then entry_or_default (slot_statuses t) s else default_status) as He.
  { intros s. unfold entry_or_default, tracker_set_root. simpl. rewrite map_lookup_filter.
    destruct (slot_statuses t !! s) as [st|]; simpl; [|by case_bool_decide].
    case_guard; case_bool_decide; simpl in *; try done; lia. }
  split; [split|]; [done| |intros s..]; rewrite He; simpl.
  - by rewrite bool_decide_true by lia.
  - case_bool_decide; [apply Hi|done].
  - case_bool_decide; [apply Hnf|done].
Qed.

Lemma tracker_new_leads rb : rb.1 + 1 <= u64_max -> tracker_leads (tracker_new rb).
Proof.
  intros Hr. assert (rb.1 +s 1 = rb.1 + 1) as Hs by (unfold sat_add; lia).
  unfold tracker_new. split; [split|]; simpl; rewrite ?Hs.
  - lia.
  - by rewrite entry_insert.
  - intros s. destruct (decide (rb.1 + 1 = s)) as [<-|]; [lia|]. rewrite entry_insert_ne by done.
    destruct (decide (rb.1 = s)) as [<-|]; [lia|]. by rewrite entry_insert_ne by done.
  - intros s. destruct (decide (rb.1 + 1 = s)) as [<-|]; [by rewrite entry_insert|]. rewrite entry_insert_ne by done.
    destruct (decide (rb.1 = s)) as [<-|]; [lia|]. by rewrite entry_insert_ne by done.
Qed.

(** The parent of the highest slot with one, and of no slot above it, is asked for. *)
Lemma leads_parent t s : tracker_high t -> s <= hwpr t -> block_production_parent t s <> ParentNotReady.
Proof.
  intros [_ Re _] Hs. unfold block_production_parent. case_bool_decide; [done|].
  assert (s = hwpr t) as -> by lia. unfold entry_or_default in Re.
  destruct (slot_statuses t !! hwpr t) as [st|]; simpl in *; [|done].
  destruct (iter_min (st_parents_ready st)) eqn:Em; [done|]. by apply iter_min_None in Em.
Qed.

(** ** The pool leads *)

Abbreviation lead p := (hwpr (parent_ready_tracker p)).

(** The tracker is ahead of the certified blocks and of the highest finalized slot. *)
Record pool_leads (p : ConsensusPool) : Prop := {
  pl_tracker : tracker_leads (parent_ready_tracker p);
  pl_certs c s b : is_Some (completed_certificates p !! c) -> to_block c = Some (s, b) -> s + 1 <= lead p;
  pl_final f : highest_finalized_slot p = Some f -> f + 1 <= lead p;
}.
Definition lead_step (p : ConsensusPool) (ev : list VotorEvent) (p' : ConsensusPool) (ev' : list VotorEvent) : Prop :=
  pool_leads p -> pool_leads p' /\ tracker_step (parent_ready_tracker p) (parent_ready_tracker p') ev ev'.

Section pool_leads.
Context `{BlsOps}.

Lemma lead_step_quiet p ev p' ev' : certs_same p p' -> only_safety ev ev' -> lead_step p ev p' ev'.
Proof.
  intros (Hc & Ht & Hf) (new & -> & Hn) [L1 L2 L3]. unfold highest_finalized_slot in *. split.
  - split; unfold highest_finalized_slot; rewrite ?Hc, ?Ht, ?Hf; done.
  - rewrite Ht. split; [done|lia|]. intros s b [?|He%Hn]%elem_of_app; [by left|done].
Qed.
Lemma lead_step_trans p1 ev1 p2 ev2 p3 ev3 :
  lead_step p1 ev1 p2 ev2 -> lead_step p2 ev2 p3 ev3 -> lead_step p1 ev1 p3 ev3.
Proof. intros H12 H23 H1. destruct (H12 H1) as [H2 S1]. destruct (H23 H2) as [H3 S2]. eauto using tracker_step_trans. Qed.

(** The new state has one more certificate and the tracker [t]. *)
Lemma lead_with_tracker p c cert t ev ev' p' :
  pool_leads p -> tracker_leads t -> tracker_step (parent_ready_tracker p) t ev ev' ->
  (forall s b, to_block c = Some (s, b) -> s + 1 <= hwpr t) ->
  completed_certificates p' = <[c := cert]> (completed_certificates p) -> parent_ready_tracker p' = t ->
  (forall f, highest_finalized_slot p' = Some f -> highest_finalized_slot p = Some f \/ f + 1 <= hwpr t) ->
  pool_leads p' /\ tracker_step (parent_ready_tracker p) (parent_ready_tracker p') ev ev'.
Proof.
  intros [L1 L2 L3] Ht Hs Hb Hc <- Hf. pose proof (ts_high _ _ _ _ Hs). split; [|done]. split; [done| |].
  - intros x s b. rewrite Hc, lookup_insert. case_decide as Heq; [subst; intros _; apply Hb|].
    intros Hx Hxb. pose proof (L2 x s b Hx Hxb). lia.
  - intros f [Hp|?]%Hf; [|done]. pose proof (L3 f Hp). lia.
Qed.

Lemma tracker_step_event t t' ev ev' e :
  (forall s b, e <> EParentReady s b) -> tracker_step t t' (ev ++ [e]) ev' -> tracker_step t t' ev ev'.
Proof.
  intros He [R Hi Ev]. split; [done|done|]. intros s b Hin. destruct (Ev s b Hin) as [Hin'|]; [|by right].
  apply elem_of_app in Hin' as [?|Hx%list_elem_of_singleton]; [by left|]. by destruct (He s b).
Qed.
Lemma tracker_step_snoc t t' ev ev' e :
  (forall s b, e <> EParentReady s b) -> tracker_step t t' ev ev' -> tracker_step t t' ev (ev' ++ [e]).
Proof.
  intros He [R Hi Ev]. split; [done|done|]. intros s b [?|Hx%list_elem_of_singleton]%elem_of_app; [auto|].
  by destruct (He s b).
Qed.

(** A finalization the pool now holds is of the slot of its first certificate. *)
Lemma finalized_leads p p1 f c t :
  finalization_slot f = cert_slot c -> cert_slot c + 1 <= hwpr t ->
  forall f', highest_finalized_slot (with_highest p1 (Some f)) = Some f' ->
    highest_finalized_slot p = Some f' \/ f' + 1 <= hwpr t.
Proof. intros Hf Hc f'. destruct p1; simpl. intros [= <-]. right. by rewrite Hf. Qed.

Lemma insert_finalize_leads p bank s cert ev p' ev' :
  certs_typed p -> cert_type cert = CFinalize s ->
  insert_certificate p bank (CFinalize s) cert ev = Some (p', ev') -> lead_step p ev p' ev'.
Proof.
  intros Hty Hct Hins HL. pose proof (proj1 (insert_certificate_log _ _ _ _ _ _ _ Hty Hins)) as Hcc.
  unfold insert_certificate in Hins. set (p1 := with_completed p _) in Hins.
  assert (parent_ready_tracker p1 = parent_ready_tracker p) as Hp1 by (by destruct p).
  assert (highest_finalized_slot p1 = highest_finalized_slot p) as Hf1 by (by destruct p).
  destruct (get_notarize_cert p1 s) as [nc|] eqn:En.
  2:{ injection Hins as <- <-. eapply (lead_with_tracker p (CFinalize s) cert (parent_ready_tracker p)); try done;
        [apply HL|apply tracker_step_refl|rewrite Hf1; auto]. }
  destruct (to_block (cert_type nc)) as [[? b]|]; [|done]. cbn [mbind option_bind] in Hins.
  assert (s + 1 <= lead p) as Hs.
  { apply get_notarize_cert_Some in En as [b' En]. eapply (pl_certs _ HL (CNotarize s b')); [|done].
    unfold p1 in En. rewrite completed_with, lookup_insert_ne in En by done. eauto. }
  assert (tracker_step (parent_ready_tracker p) (parent_ready_tracker p) ev (ev ++ [EFinalized (s, b) false])) as Hst
    by (apply tracker_step_snoc; [done|apply tracker_step_refl]).
  assert (ev' = ev ++ [EFinalized (s, b) false] /\ parent_ready_tracker p' = parent_ready_tracker p /\
    forall f, highest_finalized_slot p' = Some f -> highest_finalized_slot p = Some f \/ f + 1 <= lead p) as (-> & Htr & Hf).
  { destruct (is_none_or _ _); [|injection Hins as <- <-; rewrite Hf1; auto].
    destruct (from_validated_slow _ _ _) as [f|] eqn:Ef; [|done]. injection Hins as <- <-.
    split; [done|]. split; [by destruct p|]. apply (finalized_leads p p1 f (CFinalize s)); [|done].
    unfold from_validated_slow in Ef. destruct (extract_signers _ _); [|done]. injection Ef as <-.
    unfold finalization_slot; simpl. by rewrite Hct. }
  eapply (lead_with_tracker p (CFinalize s) cert (parent_ready_tracker p)); try done. apply HL.
Qed.

(** A block certificate goes to the tracker first. *)
Lemma add_block_leads p p1 e b ev p2 ev2 :
  pool_leads p -> parent_ready_tracker p1 = parent_ready_tracker p -> highest_finalized_slot p1 = highest_finalized_slot p ->
  (forall s b, e <> Some (EParentReady s b)) ->
  tracker_add_block p1 b (ev ++ option_list e) = Some (p2, ev2) ->
  tracker_leads (parent_ready_tracker p2) /\ tracker_step (parent_ready_tracker p) (parent_ready_tracker p2) ev ev2 /\
  b.1 + 1 <= lead p2 /\ highest_finalized_slot p2 = highest_finalized_slot p.
Proof.
  intros HL Ht Hf He. unfold tracker_add_block. rewrite Ht.
  destruct (add_new_notar_fallback_or_stronger _ _ _) as [[t ev1]|] eqn:Ea; [|done]. cbn [mbind option_bind]. intros [= <- <-].
  apply add_notar_leads in Ea as (Ht' & Hst & Hb); [|apply HL].
  assert (parent_ready_tracker (with_tracker p1 t) = t) as -> by (by destruct p1). rewrite <-Hf. split; [done|]. split; [|split; [done|by destruct p1]].
  destruct e as [e|]; simpl in Hst; [|by rewrite app_nil_r in Hst]. apply tracker_step_event in Hst; [done|].
  intros s b' ->. by destruct (He s b').
Qed.

Lemma insert_fast_leads p bank s b cert ev p' ev' :
  certs_typed p -> cert_type cert = CFinalizeFast s b ->
  insert_certificate p bank (CFinalizeFast s b) cert ev = Some (p', ev') -> lead_step p ev p' ev'.
Proof.
  intros Hty Hct Hins HL. pose proof (proj1 (insert_certificate_log _ _ _ _ _ _ _ Hty Hins)) as Hcc.
  unfold insert_certificate in Hins. destruct (tracker_add_block _ _ _) as [[p2 ev2]|] eqn:Ea; [|done].
  cbn [mbind option_bind] in Hins.
  apply (add_block_leads p _ (Some (EFinalized (s, b) true))) in Ea as (Ht & Hst & Hb & Hf2); [|by destruct p..|done].
  assert (ev' = ev2 /\ parent_ready_tracker p' = parent_ready_tracker p2 /\
    forall f, highest_finalized_slot p' = Some f -> highest_finalized_slot p = Some f \/ f + 1 <= lead p2) as (-> & Htr & Hf).
  { destruct (is_none_or _ _); [|injection Hins as <- <-; rewrite Hf2; auto].
    destruct (from_validated_fast _ _) as [f|] eqn:Ef; [|done]. injection Hins as <- <-.
    split; [done|]. split; [by destruct p2|]. apply (finalized_leads p p2 f (CFinalizeFast s b)); [|done].
    unfold from_validated_fast in Ef. destruct (extract_signers _ _); [|done]. injection Ef as <-.
    unfold finalization_slot; simpl. by rewrite Hct. }
  eapply (lead_with_tracker p (CFinalizeFast s b) cert (parent_ready_tracker p2)); try done. by intros s' b' [= <- <-].
Qed.

Lemma insert_notarize_leads p bank s b cert ev p' ev' :
  certs_typed p -> cert_type cert = CNotarize s b ->
  insert_certificate p bank (CNotarize s b) cert ev = Some (p', ev') -> lead_step p ev p' ev'.
Proof.
  intros Hty Hct Hins HL. pose proof (proj1 (insert_certificate_log _ _ _ _ _ _ _ Hty Hins)) as Hcc.
  unfold insert_certificate in Hins. destruct (tracker_add_block _ _ _) as [[p2 ev2]|] eqn:Ea; [|done].
  cbn [mbind option_bind] in Hins. pose proof (proj1 (tracker_add_block_log _ _ _ _ _ Ea)) as Hc2. rewrite completed_with in Hc2.
  apply (add_block_leads p _ (Some (EBlockNotarized (s, b)))) in Ea as (Ht & Hst & Hb & Hf2); [|by destruct p..|done].
  assert (tracker_step (parent_ready_tracker p) (parent_ready_tracker p2) ev ev' /\ parent_ready_tracker p' = parent_ready_tracker p2 /\
    forall f, highest_finalized_slot p' = Some f -> highest_finalized_slot p = Some f \/ f + 1 <= lead p2) as (Hst' & Htr & Hf).
  { destruct (get_finalize_cert p2 s) as [fc|] eqn:Efc; [|injection Hins as <- <-; rewrite Hf2; auto].
    assert (cert_type fc = CFinalize s) as Hfty.
    { apply Hty. unfold get_finalize_cert in Efc. by rewrite Hc2, lookup_insert_ne in Efc. }
    assert (tracker_step (parent_ready_tracker p) (parent_ready_tracker p2) ev (ev2 ++ [EFinalized (s, b) false]))
      by (by apply tracker_step_snoc).
    destruct (is_none_or _ _); [|injection Hins as <- <-; rewrite Hf2; auto].
    destruct (from_validated_slow _ _ _) as [f|] eqn:Ef; [|done]. injection Hins as <- <-. split; [done|].
    split; [by destruct p2|]. apply (finalized_leads p p2 f (CFinalize s)); [|done].
    unfold from_validated_slow in Ef. destruct (extract_signers _ _); [|done]. injection Ef as <-.
    unfold finalization_slot; simpl. by rewrite Hfty. }
  eapply (lead_with_tracker p (CNotarize s b) cert (parent_ready_tracker p2)); try done. by intros s' b' [= <- <-].
Qed.

Lemma insert_certificate_leads p bank c cert ev p' ev' :
  certs_typed p -> cert_type cert = c -> insert_certificate p bank c cert ev = Some (p', ev') -> lead_step p ev p' ev'.
Proof.
  intros Hty Hct Hins. destruct c as [s|s b|s b|s b|s|s b];
    [by eapply insert_finalize_leads|by eapply insert_fast_leads|by eapply insert_notarize_leads|..];
    intros HL; pose proof (proj1 (insert_certificate_log _ _ _ _ _ _ _ Hty Hins)) as Hcc; unfold insert_certificate in Hins.
  - apply (add_block_leads p _ (Some (EBlockNotarFallback (s, b)))) in Hins as (Ht & Hst & Hb & Hf); [|by destruct p..|done].
    eapply (lead_with_tracker p (CNotarizeFallback s b) cert); try done; [by intros s' b' [= <- <-]|rewrite Hf; auto].
  - destruct (add_new_skip _ _ _) as [[t ev1]|] eqn:Ea; [|done]. cbn [mbind option_bind] in Hins. injection Hins as <- <-.
    assert (parent_ready_tracker (with_completed p (<[CSkip s:=cert]> (completed_certificates p))) = parent_ready_tracker p) as Hp
      by (by destruct p). rewrite Hp in Ea. apply add_skip_leads in Ea as (Ht' & Hst); [|apply HL].
    eapply (lead_with_tracker p (CSkip s) cert t); try done; [by destruct p|destruct p; auto].
  - destruct (match migration_status _ with Some _ => _ | None => _ end) as [p2|] eqn:Em; [|done]. cbn [mbind option_bind] in Hins.
    assert (parent_ready_tracker p2 = parent_ready_tracker p /\ highest_finalized_slot p2 = highest_finalized_slot p) as [Hp2 Hf2].
    { destruct (migration_status _); [|injection Em as <-; by destruct p]. destruct (set_genesis_certificate _ _); [|done].
      injection Em as <-. by destruct p. }
    rewrite <-(app_nil_r ev) in Hins.
    apply (add_block_leads p p2 None) in Hins as (Ht & Hst & Hb & Hf); try done.
    eapply (lead_with_tracker p (CGenesis s b) cert); try done; [by intros s' b' [= <- <-]|rewrite Hf; auto].
Qed.

Lemma add_message_leads p bank my m ev p' ev' r :
  certs_typed p -> add_message p bank my m ev = Some (p', ev', r) -> certs_typed p' /\ lead_step p ev p' ev'.
Proof.
  apply (add_message_steps lead_step).
  - intros p1 ev1 p2 ev2 _. apply lead_step_quiet.
  - apply lead_step_trans.
  - intros p1 b c cert ev1 p2 ev2 Ht Hty _. by apply insert_certificate_leads.
Qed.

Lemma maybe_prune_leads p r : pool_leads p -> r + 1 <= lead p -> pool_leads (maybe_prune p r) /\ lead (maybe_prune p r) = lead p.
Proof.
  intros HL Hr. rewrite maybe_prune_eq. case_bool_decide; [done|]. split; [|done]. split; [by apply set_root_leads; [apply HL|]| |apply HL].
  intros c s b. rewrite pruned_completed. case_bool_decide; [apply HL|by intros []].
Qed.
End pool_leads.

(** The pool never asks for a leader window. *)
Definition windows_of (ev : list VotorEvent) : list LeaderWindowInfo :=
  omap (fun e => match e with EProduceWindow w => Some w | _ => None end) ev.
Lemma windows_app ev ev' : windows_of (ev ++ ev') = windows_of ev ++ windows_of ev'.
Proof. apply omap_app. Qed.
Lemma windows_log ev : windows_of (cert_log ev) = windows_of ev.
Proof.
  induction ev as [|e ev IH]; [done|]. change (e :: ev) with ([e] ++ ev). rewrite windows_app, <-IH.
  unfold event_log. change ([e] ++ ev) with (e :: ev). rewrite filter_cons.
  case_decide as He; [apply (windows_app [e])|]. by destruct e.
Qed.
Lemma add_message_windows `{BlsOps} p bank my m ev p' ev' r :
  certs_typed p -> add_message p bank my m ev = Some (p', ev', r) -> windows_of ev' = windows_of ev.
Proof.
  intros Ht Ha. refine (proj2 (add_message_steps (fun _ ev _ ev' => windows_of ev' = windows_of ev) _ _ _ _ _ _ _ _ _ _ _ Ht Ha)).
  - intros _ ev1 _ ev2 _ _ Hs. by rewrite <-(windows_log ev2), (only_safety_log _ _ Hs), windows_log.
  - congruence.
  - intros p1 b c cert ev1 p2 ev2 Ht1 _ _ Hins. destruct (insert_certificate_log _ _ _ _ _ _ _ Ht1 Hins) as [_ (l & Hl & Hlog)].
    rewrite <-(windows_log ev2), Hl, windows_app, windows_log. replace (windows_of l) with (@nil LeaderWindowInfo); [apply app_nil_r|].
    destruct c; simpl in Hlog; try (destruct Hlog as [(? & _ & ->)|[_ ->]]); try subst l; try done; by case_bool_decide.
Qed.

(** ** The invariant of the service *)

Section service_inv.
Context `{BlsOps, !BlsLaws, StorageOps}.
Context (E : Slot -> option VersionedEpochStakes) (R : Slot -> gset Z) (U : Slot -> Z -> gset Z).
Context (HE : stakes_ok E) (Hcap : capacity_ok E R U).
Context (cx : ServiceContext) (root0 : Slot).

(** No root the service reads is above this slot: the root it started from, or a slot
    its pool has finalized. *)
Definition final_bound (p : ConsensusPool) : Slot := Z.max root0 (default root0 (highest_finalized_slot p)).

(** [lo] is the last root the pool was pruned to. *)
Record service_inv (lo : Slot) (s : Service) : Prop := {
  si_pool : pool_inv E R U (sv_pool s);
  si_leads : pool_leads (sv_pool s);
  si_root0 : root0 + 1 <= lead (sv_pool s);
  si_root : prt_root (parent_ready_tracker (sv_pool s)) <= lo;
  si_events x b : EParentReady x b ∈ sv_events s -> x <= lead (sv_pool s) \/ x <= sv_highest_parent_ready s;
  si_shared : finalization_slot <$> sv_highest_finalized s = highest_finalized_slot (sv_pool s);
}.

(** What messages leave alone, and what sending and counting do. *)
Definition frame (s s' : Service) : Prop :=
  sv_event_sender s' = sv_event_sender s /\ sv_kick_off_parent_ready s' = sv_kick_off_parent_ready s.
Lemma service_frame_trans s1 s2 s3 : frame s1 s2 -> frame s2 s3 -> frame s1 s3.
Proof using Type. intros [] []. split; congruence. Qed.
Definition same_state (s s' : Service) : Prop :=
  sv_pool s' = sv_pool s /\ sv_events s' = sv_events s /\ sv_highest_parent_ready s' = sv_highest_parent_ready s /\
  sv_highest_finalized s' = sv_highest_finalized s /\ frame s s'.
Lemma same_state_trans s1 s2 s3 : same_state s1 s2 -> same_state s2 s3 -> same_state s1 s3.
Proof using Type. intros (? & ? & ? & ? & ?) (? & ? & ? & ? & ?). split_and!; [congruence..|by eapply service_frame_trans]. Qed.
Lemma service_inv_same lo s s' : same_state s s' -> service_inv lo s -> service_inv lo s'.
Proof using Type.
  intros (Hp & He & Hh & Hf & _) [I1 I2 I3 I4 I5 I6]. split; rewrite ?Hp, ?He, ?Hh, ?Hf; done.
Qed.
Lemma count_same c n s : same_state s (sv_count c n s).
Proof using Type. by destruct s. Qed.

Lemma send_certificates_same certs : forall i n s,
  same_state s (send_certificates_from i n certs s).1.
Proof using Type.
  induction certs as [|c certs IH]; intros i n s; [by destruct s|]. cbn [send_certificates_from].
  destruct (bls_try_send _ _) as [b [u|[]]]; [|by destruct s..].
  eapply same_state_trans; [|apply IH]. by destruct s.
Qed.

Lemma final_bound_leads lo s : service_inv lo s -> final_bound (sv_pool s) + 1 <= lead (sv_pool s).
Proof using Type.
  intros [_ [_ _ Lf] I3 _ _ _]. unfold final_bound. destruct (highest_finalized_slot _) as [f|]; simpl; [|lia].
  specialize (Lf f eq_refl). lia.
Qed.

(** A message whose banks have the stakes of [E], with a root to prune to between
    [lo] and [hi]. *)
Definition delivery_ok (lo hi : Slot) (d : Delivery) : Prop :=
  bank_fits E (dl_root d) /\ message_input E R U (dl_root d) (dl_message d) /\ lo <= rb_slot (dl_prune_root d) <= hi.

Definition disconnected {A} (r : result AddVoteError A) : bool :=
  match r with Err (ChannelDisconnected _) => true | _ => false end.

(** Errors of the pool do not change what it has finalized. *)
Lemma add_message_error p bank my m ev p' ev' e :
  pool_inv E R U p -> message_input E R U bank m -> bank_fits E bank ->
  add_message p bank my m ev = Some (p', ev', Err e) ->
  highest_finalized_slot p' = highest_finalized_slot p /\ forall name, e <> ChannelDisconnected name.
Proof using HE Hcap.
  intros HI Hm Hbank. unfold add_message. destruct m as [m|c].
  - destruct (pool_add_vote_ok E HE R U Hcap p bank my m ev HI Hm Hbank) as (p1 & new & r & -> & _ & _ & Ho).
    cbn [mbind option_bind]. destruct r as [|e']; [done|]. intros [= <- <- <-].
    destruct e'; simpl in Ho; try done; split; try done; destruct Ho as (_ & Ho); decompose [and] Ho; subst; by destruct p.
  - unfold add_certificate. case_bool_decide; cbn [mbind option_bind]; [intros [= <- <- <-]; by destruct p|].
    case_bool_decide; cbn [mbind option_bind]; [done|]. by destruct (insert_certificate _ _ _ _ _) as [[]|].
Qed.
Lemma add_message_finalized p bank my m ev p' ev' o certs :
  add_message p bank my m ev = Some (p', ev', Ok (o, certs)) ->
  o = (if option_slot_lt (highest_finalized_slot p) (highest_finalized_slot p') then highest_finalized_slot p' else None).
Proof using Type.
  unfold add_message. destruct (match m with MVote _ => _ | MCertificate _ => _ end) as [[[p1 ev1] [l|]]|]; [|done..].
  cbn [mbind option_bind]. by intros [= <- _ <- _].
Qed.

Lemma inv_typed p : pool_inv E R U p -> certs_typed p.
Proof using Type. intros (_ & [g HC] & _) c cert Hc. by apply (ci_cert E R p g HC). Qed.

(** What a message does to the pool. *)
Definition pool_taken (s : Service) (p : ConsensusPool) (ev : list VotorEvent) : Prop :=
  pool_inv E R U p /\ pool_leads p /\ tracker_step (parent_ready_tracker (sv_pool s)) (parent_ready_tracker p) (sv_events s) ev /\
  option_slot_le (highest_finalized_slot (sv_pool s)) (highest_finalized_slot p) /\ windows_of ev = windows_of (sv_events s).

Lemma message_taken lo hi d s :
  service_inv lo s -> delivery_ok lo hi d ->
  exists p ev r, add_message (sv_pool s) (dl_root d) (cx_my_vote_pubkey cx) (dl_message d) (sv_events s) = Some (p, ev, r) /\
    pool_taken s p ev.
Proof using HE Hcap.
  intros HI (Hbank & Hm & _). pose proof (inv_typed _ (si_pool _ _ HI)) as Ht.
  destruct (add_message_ok E R U _ (dl_root d) (cx_my_vote_pubkey cx) (dl_message d) (sv_events s) HE Hcap (si_pool _ _ HI) Hm Hbank)
    as (p & new & r & Ha & HI' & Hst). exists p, (sv_events s ++ new), r. split; [done|].
  destruct (add_message_leads _ _ _ _ _ _ _ _ Ht Ha) as [_ HL]. destruct (HL (si_leads _ _ HI)) as [HL' Hts].
  split; [done|]. split; [done|]. split; [done|]. split; [apply Hst|]. by eapply add_message_windows.
Qed.

Lemma taken_inv lo s p ev s' :
  service_inv lo s -> pool_taken s p ev -> sv_pool s' = p -> sv_events s' = ev ->
  sv_highest_parent_ready s' = sv_highest_parent_ready s ->
  finalization_slot <$> sv_highest_finalized s' = highest_finalized_slot p -> service_inv lo s'.
Proof using Type.
  intros [I1 I2 I3 I4 I5 I6] (P1 & P2 & [T1 T2 T3] & _) <- <- Hh Hf. split; [done|done|lia|lia| |done].
  intros x b [Hx|?]%T3; [|by left]. rewrite Hh. destruct (I5 x b Hx); [left; lia|by right].
Qed.

Definition sv_pruned (r : Slot) (s : Service) : Service := sv_with_pool s (maybe_prune (sv_pool s) r) (sv_events s).
Lemma pruned_inv lo r s :
  service_inv lo s -> lo <= r -> r + 1 <= lead (sv_pool s) ->
  service_inv r (sv_pruned r s) /\ lead (sv_pool (sv_pruned r s)) = lead (sv_pool s).
Proof using Type.
  intros [I1 I2 I3 I4 I5 I6] Hlo Hr.
  destruct (maybe_prune_ok E R U (sv_pool s) r I1 ltac:(lia)) as (Q1 & Q2 & Q3).
  destruct (maybe_prune_leads (sv_pool s) r I2 Hr) as [Q4 Q5].
  destruct s as [p ev tm st h k x b es c f]; simpl in *. split; [|done].
  split; simpl; rewrite ?Q5; [done|done|done|done|done|congruence].
Qed.
Lemma inv_later lo lo' s : lo <= lo' -> service_inv lo s -> service_inv lo' s.
Proof using Type. intros Hle [I1 I2 I3 I4 I5 I6]. split; try done. lia. Qed.

(** The new finalization, if there is one, is shared before the pool is pruned. *)
Lemma update_root_inv lo hi d s o certs :
  service_inv lo (sv_with_finalized s (highest_finalized_slot_cert (sv_pool s))) ->
  (o = None -> finalization_slot <$> sv_highest_finalized s = highest_finalized_slot (sv_pool s)) ->
  delivery_ok lo hi d -> hi + 1 <= lead (sv_pool s) ->
  exists s' r, maybe_update_root_and_send_new_certificates (dl_now d) (dl_prune_root d) o certs s = (s', r) /\
    service_inv (rb_slot (dl_prune_root d)) s' /\ lead (sv_pool s') = lead (sv_pool s) /\
    frame s s' /\ sv_highest_parent_ready s' = sv_highest_parent_ready s /\ sv_events s' = sv_events s.
Proof using Type.
  intros HI Hsh (_ & _ & Hlo & Hle) Hhi. unfold maybe_update_root_and_send_new_certificates. set (s1 := match o with Some _ => _ | None => s end).
  assert (service_inv lo s1 /\ sv_pool s1 = sv_pool s /\ frame s s1 /\
    sv_highest_parent_ready s1 = sv_highest_parent_ready s /\ sv_events s1 = sv_events s) as (HI1 & Hp & Hes & Hh & Hev).
  { subst s1. destruct HI as [I1 I2 I3 I4 I5 I6], o as [sl|], s; simpl in *; split_and!; try done; split; try done. by apply Hsh. }
  rewrite <-Hp in Hhi |- *. clearbody s1.
  destruct (pruned_inv lo (rb_slot (dl_prune_root d)) s1 HI1 Hlo ltac:(lia)) as [HI2 Hl2].
  set (s2 := sv_count _ _ _). assert (same_state (sv_pruned (rb_slot (dl_prune_root d)) s1) s2) as Hs2 by apply count_same.
  pose proof (send_certificates_same certs 0 (Z.of_nat (length certs)) s2) as Hs3.
  pose proof (same_state_trans _ _ _ Hs2 Hs3) as Hs. unfold send_certificates.
  destruct (send_certificates_from _ _ _ s2) as [s' r]. simpl in Hs. exists s', r. split; [done|].
  split; [by eapply service_inv_same|]. destruct Hs as (E1 & E2 & E3 & _ & E5). rewrite E1, E2, E3.
  split; [done|]. split; [eapply service_frame_trans; [exact Hes|]; by eapply service_frame_trans; [|exact E5]; destruct s1|].
  rewrite <-Hh, <-Hev. by destruct s1.
Qed.

(** One message: the service does not panic, and unless a channel is gone it keeps
    its invariant. *)
Lemma process_message_inv lo hi d s :
  service_inv lo s -> delivery_ok lo hi d -> hi + 1 <= lead (sv_pool s) ->
  exists s' r, process_consensus_message cx d s = Some (s', r) /\ frame s s' /\
    sv_highest_parent_ready s' = sv_highest_parent_ready s /\ windows_of (sv_events s') = windows_of (sv_events s) /\
    (disconnected r = false -> service_inv (rb_slot (dl_prune_root d)) s' /\ lead (sv_pool s) <= lead (sv_pool s')).
Proof using HE Hcap.
  intros HI0 Hd Hhi. unfold process_consensus_message. set (s0 := match dl_message d with MVote _ => _ | _ => _ end).
  assert (same_state s s0) as Hs by (unfold s0; destruct (dl_message d); apply count_same).
  pose proof (service_inv_same _ _ _ Hs HI0) as HI. destruct Hs as (Hp & Hev & Hh & _ & Hsnd).
  rewrite <-Hp in Hhi |- *. rewrite <-Hev, <-Hh. clearbody s0.
  cut (exists s' r, ('(s, r) ← add_message_and_maybe_update_commitment cx (dl_root d) (dl_message d) s0;
      match r with
      | Err e => Some (s, Err e)
      | Ok (new_finalized, certs) =>
        Some (maybe_update_root_and_send_new_certificates (dl_now d) (dl_prune_root d) new_finalized certs s)
      end) = Some (s', r) /\ frame s0 s' /\
    sv_highest_parent_ready s' = sv_highest_parent_ready s0 /\ windows_of (sv_events s') = windows_of (sv_events s0) /\
    (disconnected r = false -> service_inv (rb_slot (dl_prune_root d)) s' /\ lead (sv_pool s0) <= lead (sv_pool s'))).
  { intros (s' & r & ? & ? & ?). exists s', r. split; [done|]. split; [by eapply service_frame_trans|done]. }
  clear HI0 Hp Hev Hh Hsnd s.
  unfold add_message_and_maybe_update_commitment. pose proof Hd as (Hbank & Hm & Hlo & Hle).
  destruct (message_taken _ _ _ _ HI Hd) as (p & ev & r & Ha & Htk). rewrite Ha. cbn [mbind option_bind].
  pose proof Htk as (_ & _ & [_ Hlead _] & Hfle & Hw). destruct r as [[o certs]|e].
  2:{ destruct (add_message_error _ _ _ _ _ _ _ _ (si_pool _ _ HI) Hm Hbank Ha) as [Hf _].
      eexists _, _. split; [done|]. assert (service_inv lo (sv_with_pool s0 p ev)) as HI'.
      { eapply taken_inv; [exact HI|exact Htk|by destruct s0..|]. rewrite Hf, <-(si_shared _ _ HI). by destruct s0. }
      split_and!; [by destruct s0..|]. intros _. split; [by apply (inv_later lo)|by destruct s0]. }
  pose proof (add_message_finalized _ _ _ _ _ _ _ _ _ Ha) as Ho.
  assert (forall s1, sv_pool s1 = p -> sv_events s1 = ev -> sv_highest_parent_ready s1 = sv_highest_parent_ready s0 ->
    frame s0 s1 -> sv_highest_finalized s1 = sv_highest_finalized s0 ->
    exists s' r, Some (maybe_update_root_and_send_new_certificates (dl_now d) (dl_prune_root d) o certs s1) = Some (s', r) /\
      frame s0 s' /\ sv_highest_parent_ready s' = sv_highest_parent_ready s0 /\
      windows_of (sv_events s') = windows_of (sv_events s0) /\
      (disconnected r = false -> service_inv (rb_slot (dl_prune_root d)) s' /\ lead (sv_pool s0) <= lead (sv_pool s'))) as Hupd.
  { intros s1 Hp1 Hev1 Hh1 Hes1 Hf1.
    destruct (update_root_inv lo hi d s1 o certs) as (s' & r & -> & HI' & Hl' & H1' & H2' & H3').
    - eapply taken_inv; [exact HI|exact Htk|by destruct s1..|]. rewrite Hp1. by destruct s1.
    - intros Hn. rewrite Hf1, (si_shared _ _ HI), Hp1. rewrite Hn in Ho.
      destruct (highest_finalized_slot (sv_pool s0)), (highest_finalized_slot p); simpl in *; try done.
      case_bool_decide; [done|]. f_equal. lia.
    - done.
    - rewrite Hp1. lia.
    - exists s', r. rewrite H2', H3', Hl', Hp1, Hev1. split; [done|]. split; [by eapply service_frame_trans|done]. }
  destruct o as [sl|]; [|apply Hupd; by destruct s0].
  destruct (update_commitment_cache _ _ _) as [c ok] eqn:Ec. cbn [mbind option_bind].
  destruct ok; [apply Hupd; by destruct s0|]. eexists _, _. split; [done|]. split_and!; [by destruct s0..|done].
Qed.

(** A batch, with roots that do not go back. *)
Fixpoint deliveries_ok (lo hi : Slot) (ds : list Delivery) : Prop :=
  match ds with
  | [] => True
  | d :: ds => delivery_ok lo hi d /\ deliveries_ok (rb_slot (dl_prune_root d)) hi ds
  end.
Fixpoint last_root (lo : Slot) (ds : list Delivery) : Slot :=
  match ds with [] => lo | d :: ds => last_root (rb_slot (dl_prune_root d)) ds end.

Lemma process_messages_inv hi ds : forall lo s,
  service_inv lo s -> deliveries_ok lo hi ds -> hi + 1 <= lead (sv_pool s) ->
  exists s' r, process_messages cx ds s = Some (s', r) /\ frame s s' /\
    (r = Ok tt -> service_inv (last_root lo ds) s' /\ sv_highest_parent_ready s' = sv_highest_parent_ready s /\
       windows_of (sv_events s') = windows_of (sv_events s)).
Proof using HE Hcap.
  induction ds as [|d ds IH]; intros lo s HI Hds Hhi; [by eexists _, _|]. cbn [process_messages last_root].
  destruct Hds as [Hd Hds]. destruct (process_message_inv lo hi d s HI Hd Hhi) as (s1 & r & -> & Hes & Hh & Hw & Hinv).
  cbn [mbind option_bind].
  assert (disconnected r = false -> forall s2, same_state s1 s2 ->
    exists s' r, process_messages cx ds s2 = Some (s', r) /\ frame s s' /\
    (r = Ok tt -> service_inv (last_root (rb_slot (dl_prune_root d)) ds) s' /\
       sv_highest_parent_ready s' = sv_highest_parent_ready s /\ windows_of (sv_events s') = windows_of (sv_events s))) as Hnext.
  { intros Hr s2 Hs2. destruct (Hinv Hr) as [HI1 Hl1]. pose proof (service_inv_same _ _ _ Hs2 HI1) as HI2.
    destruct Hs2 as (P1 & P2 & P3 & _ & P5).
    destruct (IH _ s2 HI2 Hds) as (s' & r' & Hp & He' & Hok'); [rewrite P1; lia|]. exists s', r'. split; [done|].
    split; [eapply service_frame_trans; [exact Hes|]; by eapply service_frame_trans|]. intros Hr'. destruct (Hok' Hr') as (? & ? & ?). split; [done|]. rewrite <-Hh, <-Hw, <-P2, <-P3. done. }
  destruct r as [u|e]; [by apply Hnext|].
  destruct e; try (apply Hnext; [done|apply count_same]). eexists _, _. split; [done|]. split; [by destruct s, s1|done].
Qed.

(** ** Leader windows *)

(** The window [w] is this node's to produce: its slots follow the ones before, the
    node is their leader and has no data of them yet, and the parent is the least of
    the ready ones, no later slot having one. *)
Record window_ok (s : Service) (w : LeaderWindowInfo) : Prop := {
  wo_start : sv_highest_parent_ready s < start_slot w;
  wo_end : end_slot w = last_of_consecutive_leader_slots (start_slot w);
  wo_leader : exists bank, cx_slot_leader_at cx (start_slot w) bank = Some (cx_id cx);
  wo_fresh x : start_slot w <= x <= end_slot w -> cx_has_existing_shreds cx x = false;
  wo_parent : exists g, refines g (parent_ready_tracker (sv_pool s)) /\ parent_ready g (start_slot w) (parent_block w) /\
    (forall b, parent_ready g (start_slot w) b -> leq (parent_block w) b) /\
    (forall x b, start_slot w < x -> ~ parent_ready g x b);
}.

Lemma elem_of_ready_slots x ev : x ∈ parent_ready_slots ev -> exists b, EParentReady x b ∈ ev.
Proof using Type.
  unfold parent_ready_slots. rewrite list_elem_of_omap. intros (e & He & Hx). destruct e; try done. injection Hx as ->. eauto.
Qed.

Lemma produce_block_inv lo bank now s :
  service_inv lo s ->
  exists s', add_produce_block_event cx bank now s = Some s' /\ service_inv lo s' /\ sv_pool s' = sv_pool s /\
    frame s s' /\ sv_highest_parent_ready s <= sv_highest_parent_ready s' /\
    exists new, windows_of (sv_events s') = windows_of (sv_events s) ++ new /\ (length new <= 1)%nat /\
      forall w, w ∈ new -> window_ok s w /\ start_slot w = sv_highest_parent_ready s'.
Proof using Type.
  intros HI. unfold add_produce_block_event.
  assert (forall s', service_inv lo s' -> sv_pool s' = sv_pool s -> frame s s' ->
    sv_highest_parent_ready s <= sv_highest_parent_ready s' -> sv_events s' = sv_events s ->
    service_inv lo s' /\ sv_pool s' = sv_pool s /\
    frame s s' /\ sv_highest_parent_ready s <= sv_highest_parent_ready s' /\
    exists new, windows_of (sv_events s') = windows_of (sv_events s) ++ new /\ (length new <= 1)%nat /\
      forall w, w ∈ new -> window_ok s w /\ start_slot w = sv_highest_parent_ready s') as Hsame.
  { intros s' ? ? ? ? Hev. split_and!; try done. exists []. rewrite Hev, app_nil_r. split_and!; [done|simpl; lia|].
    by intros w ?%elem_of_nil. }
  destruct (iter_max _) as [n|] eqn:Em; [|eexists; split; [done|]; apply Hsame; try done; lia].
  case_bool_decide as Hn; [eexists; split; [done|]; apply Hsame; try done; lia|].
  apply iter_max_Some in Em as [Hin _]. apply elem_of_ready_slots in Hin as [b0 Hin].
  assert (n <= lead (sv_pool s)) as Hlead by (destruct (si_events _ _ HI n b0 Hin); lia).
  set (s1 := sv_with_parent_ready s n (sv_kick_off_parent_ready s)).
  assert (service_inv lo s1) as HI1.
  { destruct HI as [I1 I2 I3 I4 I5 I6], s; simpl in *. split; try done; simpl. intros x b Hx. destruct (I5 x b Hx); [by left|right; lia]. }
  assert (sv_pool s1 = sv_pool s /\ frame s s1 /\ sv_events s1 = sv_events s /\
    sv_highest_parent_ready s1 = n) as (Q1 & Q2 & Q3 & Q4) by (by destruct s).
  assert (forall s', same_state s1 s' -> service_inv lo s' /\ sv_pool s' = sv_pool s /\
    frame s s' /\ sv_highest_parent_ready s <= sv_highest_parent_ready s' /\
    exists new, windows_of (sv_events s') = windows_of (sv_events s) ++ new /\ (length new <= 1)%nat /\
      forall w, w ∈ new -> window_ok s w /\ start_slot w = sv_highest_parent_ready s') as Hs1.
  { intros s' Hs'. pose proof (service_inv_same _ _ _ Hs' HI1). destruct Hs' as (? & ? & ? & ? & ?). apply Hsame; [done|congruence|by eapply service_frame_trans|lia|congruence]. }
  destruct (cx_slot_leader_at cx n bank) as [leader|] eqn:Eld; [|eexists; split; [done|]; apply Hs1; by destruct s1].
  case_bool_decide as Hme; simpl; [|eexists; split; [done|]; by apply Hs1].
  destruct (existsb _ _) eqn:Ex; [eexists; split; [done|]; by apply Hs1|]. rewrite Q1.
  destruct (block_production_parent _ n) as [| |b] eqn:Ebp;
    [eexists; split; [done|]; apply Hs1, count_same|by destruct (leads_parent _ n (tl_high _ (pl_tracker _ (si_leads _ _ HI))) Hlead)|].
  eexists. split; [done|]. set (w := mkLeaderWindowInfo _ _ _ _).
  assert (window_ok s w) as Hw.
  { split; simpl; [lia|done|by exists bank; subst leader| |].
    - intros x Hx. destruct (cx_has_existing_shreds cx x) eqn:Esh; [|done]. exfalso.
      assert (existsb (cx_has_existing_shreds cx) (seqZ n (last_of_consecutive_leader_slots n - n + 1)) = true) as Ht; [|congruence].
      apply existsb_exists. exists x. split; [|done]. apply list_elem_of_In, elem_of_seqZ. lia.
    - destruct (si_pool _ _ HI) as (_ & [g HC] & _). exists g. split; [apply HC|].
      pose proof (block_production_parent_spec g _ n (ci_tracker _ _ _ _ HC)) as Hbp. rewrite Ebp in Hbp. apply Hbp.
      unfold block_production_parent in Ebp. case_bool_decide; [done|].
      pose proof (th_root _ (tl_high _ (pl_tracker _ (si_leads _ _ HI)))). lia. }
  assert (service_inv lo (sv_push s1 (EProduceWindow w))) as HI2.
  { destruct HI1 as [I1 I2 I3 I4 I5 I6], s1; simpl in *. split; try done; simpl.
    intros x b' [?|[=]%list_elem_of_singleton]%elem_of_app. by eapply I5. }
  pose proof (service_inv_same _ _ _ (count_same parent_ready_produce_window 1 _) HI2) as HI3.
  split; [done|]. clear HI1 HI2 HI3 Hs1. destruct s, s1; simpl in *. subst. split_and!; try done; [lia|].
  exists [w]. rewrite windows_app. split_and!; [done|simpl; lia|]. by intros w' ->%list_elem_of_singleton.
Qed.

(** Before the first turn nothing has been reported. *)
Definition fresh (s : Service) : Prop :=
  sv_kick_off_parent_ready s = false -> sv_events s = [] /\ sv_highest_parent_ready s = root0.

Lemma kick_off_inv lo ms bank s g :
  service_inv lo s -> fresh s -> root0 <= rb_slot bank -> is_alpenglow_enabled (ms_phase ms) = true ->
  genesis_block ms = Some (Some g) -> g.1 + 1 <= u64_max -> rb_slot bank + 1 <= u64_max ->
  exists s', kick_off ms bank s = Some s' /\ service_inv lo s' /\ sv_pool s' = sv_pool s /\
    sv_event_sender s' = sv_event_sender s /\ sv_kick_off_parent_ready s' = true /\
    sv_highest_parent_ready s <= sv_highest_parent_ready s' /\ windows_of (sv_events s') = windows_of (sv_events s).
Proof using Type.
  intros HI Hf Hb0 Hms Hg Hg1 Hb1. unfold kick_off. rewrite Hms. destruct (sv_kick_off_parent_ready s) eqn:Ek; simpl.
  { exists s. split_and!; try done; lia. }
  rewrite Hg. cbn [mbind option_bind]. destruct (Hf Ek) as [Hev Hh].
  set (b := block_max g (rb_slot bank, default 0 (rb_block_id bank))).
  assert (b.1 + 1 <= u64_max /\ root0 <= b.1) as [Hb Hb2].
  { unfold b, block_max. case_decide as Hl; [done|]. split; [done|]. destruct (decide (g.1 < rb_slot bank)); [|lia].
    destruct Hl. unfold leq, prod_leq, leq, Z_leq. simpl. lia. }
  rewrite checked_add_exact by done. cbn [mbind option_bind]. eexists. split; [done|].
  destruct HI as [I1 I2 I3 I4 I5 I6], s; simpl in *; subst. split; [|split_and!; try done; lia].
  split; try done; simpl. intros x b' [[= -> ->]|?%elem_of_nil]%elem_of_cons; [|done]. right. lia.
Qed.

Lemma standstill_inv lo now s :
  service_inv lo s ->
  exists s' r, standstill_step now s = Some (s', r) /\ service_inv lo s' /\ frame s s' /\ sv_pool s' = sv_pool s /\
    sv_highest_parent_ready s' = sv_highest_parent_ready s /\ windows_of (sv_events s') = windows_of (sv_events s).
Proof using Type.
  intros HI. unfold standstill_step. case_bool_decide; [|by eexists _, _].
  set (s1 := if sv_kick_off_parent_ready s then _ else s). set (s2 := sv_with_timer _ now).
  assert (service_inv lo s2 /\ frame s s2 /\ sv_pool s2 = sv_pool s /\
    sv_highest_parent_ready s2 = sv_highest_parent_ready s /\ windows_of (sv_events s2) = windows_of (sv_events s))
    as (HI2 & Hf2 & Hp2 & Hh2 & Hw2).
  { subst s2 s1. destruct HI as [I1 I2 I3 I4 I5 I6], s as [p ev tm st h k x b es c f]; simpl in *.
    destruct k; simpl; rewrite ?windows_app, ?app_nil_r; (split; [split; try done; simpl|by split_and!]).
    intros y b' [?|[=]%list_elem_of_singleton]%elem_of_app. by eapply I5. }
  clearbody s2. destruct (si_pool _ _ HI2) as (_ & [g HC] & _). rewrite (standstill_certs_ok _ _ _ _ HC). cbn [mbind option_bind].
  unfold send_certificates. set (certs := snd <$> _).
  pose proof (send_certificates_same certs 0 (Z.of_nat (length certs)) s2) as Hs.
  destruct (send_certificates_from _ _ _ s2) as [s3 r3]. simpl in Hs.
  pose proof (service_inv_same _ _ _ Hs HI2) as HI3. destruct Hs as (P1 & P2 & P3 & P4 & P5).
  assert (forall s', same_state s3 s' -> service_inv lo s' /\ frame s s' /\ sv_pool s' = sv_pool s /\
    sv_highest_parent_ready s' = sv_highest_parent_ready s /\ windows_of (sv_events s') = windows_of (sv_events s)) as Hend.
  { intros s' Hs'. split; [by eapply service_inv_same|]. destruct Hs' as (Q1 & Q2 & Q3 & Q4 & Q5).
    split; [eauto using service_frame_trans|]. rewrite Q1, Q2, Q3, P1, P2, P3. done. }
  destruct r3 as [u|[]]; eexists _, _; (split; [done|]); apply Hend; by destruct s3.
Qed.

Lemma send_all_sent ev : forall c c', send_all ev c = (c', true) -> sent c' = sent c ++ ev.
Proof using Type.
  induction ev as [|e ev IH]; intros c c'; cbn [send_all]; [intros [= ->]; by rewrite app_nil_r|].
  unfold send. destruct (connected c); [|done]. intros ->%IH. simpl. by rewrite <-app_assoc.
Qed.

(** ** Turns of the loop *)

(** The leader windows the service has asked for. *)
Definition windows (s : Service) : list LeaderWindowInfo := windows_of (sent (sv_event_sender s) ++ sv_events s).

Definition deliveries (t : Turn) : list Delivery := match tu_received t with RecvMessages ds => ds | _ => [] end.
Record turn_ok (lo : Slot) (s : Service) (t : Turn) : Prop := {
  to_enabled : is_alpenglow_enabled (ms_phase (tu_migration t)) = true;
  to_genesis : exists g, genesis_block (tu_migration t) = Some (Some g) /\ g.1 + 1 <= u64_max;
  to_root : root0 <= rb_slot (tu_kick_off_root t) /\ rb_slot (tu_kick_off_root t) + 1 <= u64_max;
  to_deliveries : deliveries_ok lo (final_bound (sv_pool s)) (deliveries t);
}.

(** A turn from [s] to [s']. *)
Record turned (lo : Slot) (s s' : Service) : Prop := {
  td_inv : service_inv lo s';
  td_kick : sv_kick_off_parent_ready s' = true;
  td_highest : sv_highest_parent_ready s <= sv_highest_parent_ready s';
  td_windows : exists new, windows s' = windows s ++ new /\ (length new <= 1)%nat /\
    forall w, w ∈ new -> window_ok s w /\ start_slot w <= sv_highest_parent_ready s';
}.

Lemma send_events_inv lo s s' :
  service_inv lo s -> send_events s = (s', Ok tt) ->
  service_inv lo s' /\ windows s' = windows s /\ sv_pool s' = sv_pool s /\ sv_events s' = [] /\
  sv_kick_off_parent_ready s' = sv_kick_off_parent_ready s /\ sv_highest_parent_ready s' = sv_highest_parent_ready s.
Proof using Type.
  intros [I1 I2 I3 I4 I5 I6]. unfold send_events. destruct (send_all _ _) as [c []] eqn:Es; [|done]. intros [= <-].
  apply send_all_sent in Es. destruct s; simpl in *. split; [split; try done; simpl; by intros x b ?%elem_of_nil|].
  unfold windows; simpl. by rewrite Es, app_nil_r.
Qed.

Lemma iteration_inv lo t s :
  service_inv lo s -> fresh s -> turn_ok lo s t ->
  exists s' r, ingest_iteration cx t s = Some (s', r) /\ (r = Ok tt -> turned (last_root lo (deliveries t)) s s').
Proof using HE Hcap.
  intros HI Hf [Hms (g & Hg & Hg1) [Hr0 Hr1] Hds]. unfold ingest_iteration.
  destruct (kick_off_inv lo _ (tu_kick_off_root t) s g HI Hf Hr0 Hms Hg Hg1 Hr1) as (s1 & -> & HI1 & P1 & Es1 & K1 & H1' & W1).
  cbn [mbind option_bind].
  destruct (produce_block_inv lo (tu_leader_root t) (tu_now t) s1 HI1) as (s2 & -> & HI2 & P2 & [Es2 K2] & H2' & new & W2 & Hlen & Hnew).
  cbn [mbind option_bind].
  destruct (standstill_inv lo (tu_now t) s2 HI2) as (s3 & r3 & -> & HI3 & [Es3 K3] & P3 & H3' & W3). cbn [mbind option_bind].
  destruct r3 as [u|]; [|by eexists _, _]. destruct (send_events s3) as [s4 [u4|]] eqn:Es4; [|by eexists _, _]. destruct u4.
  destruct (send_events_inv lo s3 s4 HI3 Es4) as (HI4 & W4 & P4 & Ev4 & K4 & H4').
  assert (windows s4 = windows s ++ new) as HW.
  { rewrite W4. unfold windows. rewrite !windows_app, W3, W2, W1, Es3, Es2, Es1. by rewrite app_assoc. }
  assert (forall lo' s', service_inv lo' s' -> sv_kick_off_parent_ready s' = sv_kick_off_parent_ready s4 ->
    sv_highest_parent_ready s' = sv_highest_parent_ready s4 -> windows s' = windows s4 -> turned lo' s s') as Hdone.
  { intros lo' s' HI' K' H' W'. split; [done|congruence|lia|]. exists new. rewrite W', HW. split_and!; [done|done|].
    intros w Hw. destruct (Hnew w Hw) as [[O1 O2 O3 O4 O5] O6]. rewrite P1 in O5. split; [split; [lia|done..]|lia]. }
  unfold deliveries in *. destruct (tu_received t) as [| |ds].
  - eexists _, _. split; [done|]. intros _. by apply Hdone.
  - by eexists _, _.
  - assert (final_bound (sv_pool s) + 1 <= lead (sv_pool s4)) as Hle.
    { rewrite P4, P3, P2, P1. by eapply final_bound_leads. }
    destruct (process_messages_inv _ ds lo s4 HI4 Hds Hle) as (s5 & r5 & -> & [Es5 K5] & Hok). cbn [mbind option_bind].
    destruct r5 as [u5|]; [|by eexists _, _]. destruct u5. destruct (Hok eq_refl) as (HI5 & H5' & W5). eexists _, _. split; [done|]. intros _.
    destruct HI5 as [I1 I2 I3 I4 I5 I6]. destruct s5 as [p5 ev5 tm5 st5 h5 k5 x5 b5 es5 c5 f5]; simpl in *.
    apply Hdone; try done; [|unfold windows; simpl; by rewrite !windows_app, W5, Ev4, Es5].
    split; simpl; try done; [by apply pool_inv_stats|by destruct p5, I2|by destruct p5..].
Qed.
End service_inv.

(** ** Runs *)

Section service_run.
Context `{BlsOps, !BlsLaws, StorageOps}.
Context (E : Slot -> option VersionedEpochStakes) (R : Slot -> gset Z) (U : Slot -> Z -> gset Z).
Context (cx : ServiceContext) (bank0 : RootBank).
(** What is known of every turn. *)
Context (T : Turn -> Prop).

(** Other threads take from the channels or close them, and set the exit flag. *)
Definition service_env (s s' : Service) : Prop := exists x bls es cm,
  sent es = sent (sv_event_sender s) /\
  s' = mkService (sv_pool s) (sv_events s) (sv_standstill_timer s) (sv_stats s) (sv_highest_parent_ready s)
         (sv_kick_off_parent_ready s) x bls es cm (sv_highest_finalized s).

(** The service of a node that starts from [bank0] after the migration. *)
Inductive service_run : Slot -> Service -> Prop :=
  | run_start ms now bls es cm :
    is_alpenglow_enabled (ms_phase ms) = true -> sent es = [] ->
    service_run (rb_slot bank0) (service_start ms bank0 ∅ now bls es cm None)
  | run_turn lo s t s' :
    service_run lo s -> sv_exit s = false -> turn_ok E R U (rb_slot bank0) lo s t -> T t ->
    ingest_iteration cx t s = Some (s', Ok tt) -> service_run (last_root lo (deliveries t)) s'
  | run_env lo s s' : service_run lo s -> service_env s s' -> service_run lo s'.

Record service_setting : Prop := {
  sg_stakes : stakes_ok E;
  sg_capacity : capacity_ok E R U;
  sg_root : 0 <= rb_slot bank0 /\ rb_slot bank0 + 1 <= u64_max;
}.

(** The same with the bound on the faults in the place of the capacity. *)
Record service_fault_setting (G : Slot -> gset Z) : Prop := {
  sf_stakes : stakes_ok E;
  sf_faults : fault_bound E R U G;
  sf_root : 0 <= rb_slot bank0 /\ rb_slot bank0 + 1 <= u64_max;
}.
Lemma service_fault_setting_ok G : service_fault_setting G -> service_setting.
Proof. intros [? HF ?]. split; try done. by eapply fault_capacity. Qed.

Lemma service_run_inv lo s :
  service_setting -> service_run lo s ->
  service_inv E R U (rb_slot bank0) lo s /\ fresh (rb_slot bank0) s /\
  forall w, w ∈ windows s -> start_slot w <= sv_highest_parent_ready s.
Proof.
  intros [HE Hcap [Hr0 Hr1]]. induction 1 as [ms now bls es cm Hms Hw|lo s t s' _ (HI & Hf & Hw) Hx Ht _ Hit|lo s s' _ (HI & Hf & Hw) Henv].
  - unfold service_start. rewrite Hms. split; [split; simpl; try done|split; [done|]].
    + by apply new_pool_inv.
    + split; [by apply tracker_new_leads|by intros c s b []|done].
    + rewrite sat_add_exact by lia. lia.
    + by intros x b ?%elem_of_nil.
    + unfold windows; simpl. rewrite app_nil_r, Hw. by intros w ?%elem_of_nil.
  - destruct (iteration_inv E R U HE Hcap cx (rb_slot bank0) lo t s HI Hf Ht) as (s1 & r & Hit' & Hok).
    rewrite Hit in Hit'. injection Hit' as <- <-. destruct (Hok eq_refl) as [HI' Hk Hh (new & HW & _ & Hnew)].
    split; [done|]. split; [intros ?; congruence|]. rewrite HW. intros w [Hw'%Hw|Hw'%Hnew]%elem_of_app; [lia|apply Hw'].
  - destruct Henv as (x & bls & es & cm & Hs & ->). split; [|split]; [|done|unfold windows in *; simpl; by rewrite Hs].
    destruct HI as [I1 I2 I3 I4 I5 I6]. by split.
Qed.
End service_run.

(** ** A concrete service

    The validators of [Example3].  The first turn reports the root as the parent of
    slot 4 and receives a certificate for block 9 of slot 7; in the second the node,
    leader of slot 8, is told to produce its window on that block. *)
Module ServiceExample.
#[export] Existing Instance additive_bls.
#[export] Existing Instance additive_bls_laws.
#[export] Existing Instance encode_storage.

Definition cx : ServiceContext :=
  mkServiceContext 1 1 (fun s _ => if bool_decide (8 <= s) then Some 1 else Some 2) (fun _ => false).
Definition ms : MigrationStatus := status_new (FullAlpenglowEpoch 0 (mkCertificate (CGenesis 2 1) 0 [])).
Definition start : Service :=
  service_start ms Example3.bank ∅ 0 (mkBlsSender [] []) (mkSender [] true false) (mkSender [] true false) None.
Definition turn1 : Turn :=
  mkTurn ms Example3.bank Example3.bank 5 (RecvMessages
    [mkDelivery (MCertificate (mkCertificate (CNotarizeFallback 7 9) 0 [0; 1])) Example3.bank Example3.bank 6]) 7.
Definition turn2 : Turn := mkTurn ms Example3.bank Example3.bank 8 RecvTimeout 9.
Definition after (t : Turn) (s : Service) : Service :=
  match ingest_iteration cx t s with Some (s', _) => s' | None => s end.
Definition s1 : Service := after turn1 start.
Definition s2 : Service := after turn2 s1.

Lemma setting_ok : service_setting Example3.E Example3.R Example3.U Example3.bank.
Proof. split; [apply Example3.stakes_ok_E|apply Example3.capacity_R|by vm_compute]. Qed.
Lemma fault_setting_ok : service_fault_setting Example3.E Example3.R Example3.U Example3.bank Example3.G.
Proof. split; [apply Example3.stakes_ok_E|apply Example3.faults_E|by vm_compute]. Qed.
Lemma service_started : service_run Example3.E Example3.R Example3.U cx Example3.bank (fun _ => True) 3 start.
Proof. by apply (run_start _ _ _ _ Example3.bank (fun _ => True)). Qed.
Lemma turn1_ok : turn_ok Example3.E Example3.R Example3.U 3 3 start turn1.
Proof.
  split; [done|by exists (2, 1)|by vm_compute|]. cbn [deliveries turn1 tu_received deliveries_ok]. split; [|done].
  split; [apply Example3.bank_fits_E|]. split; [|by vm_compute]. simpl. split; [by vm_compute|].
  split; [eexists; by vm_compute|]. split; [done|]. intros s b [= <- <-]. unfold Example3.R. by apply elem_of_singleton.
Qed.
Lemma ran1 : ingest_iteration cx turn1 start = Some (s1, Ok tt).
Proof.
  assert (snd <$> ingest_iteration cx turn1 start = Some (Ok tt)) as Hr by (by vm_compute).
  unfold s1, after. destruct (ingest_iteration cx turn1 start) as [[s r]|]; [|done]. simpl in Hr. by injection Hr as ->.
Qed.
Lemma reached1 : service_run Example3.E Example3.R Example3.U cx Example3.bank (fun _ => True) 3 s1.
Proof. exact (run_turn _ _ _ _ _ _ 3 start turn1 s1 service_started eq_refl turn1_ok I ran1). Qed.
Lemma turn2_ok : turn_ok Example3.E Example3.R Example3.U 3 3 s1 turn2.
Proof. split; [done|by exists (2, 1)|by vm_compute|done]. Qed.
Lemma ran2 : ingest_iteration cx turn2 s1 = Some (s2, Ok tt).
Proof.
  assert (snd <$> ingest_iteration cx turn2 s1 = Some (Ok tt)) as Hr by (by vm_compute).
  unfold s2, after. destruct (ingest_iteration cx turn2 s1) as [[s r]|]; [|done]. simpl in Hr. by injection Hr as ->.
Qed.
Example events_reported : sent (sv_event_sender s2) =
  [EParentReady 4 (3, 1); EBlockNotarFallback (7, 9); EParentReady 8 (7, 9);
   EProduceWindow (mkLeaderWindowInfo 8 11 (7, 9) 8)].
Proof. by vm_compute. Qed.
End ServiceExample.

#[local] Existing Instance additive_bls.
#[local] Existing Instance additive_bls_laws.
#[local] Existing Instance encode_storage.

(** ** Properties *)

(** C22: The consensus pool service never panics, when the node starts it after the
    migration.  Let less than a fifth of the stake be faulty and every other validator
    vote for at most four blocks of a slot, and let the roots the service reads be the
    one it started from or slots its pool has finalized.  Then, after any turns the
    service has run, with other threads taking from its channels or closing them in
    between, the next turn ends: its pool's assertions hold, the one on
    [MAX_NOTAR_FALLBACK_BLOCKS] included, the certificates to resend on a standstill
    are consistent, the genesis block of the migration is known, and the
    [unreachable!] for a leader window without a ready parent is not reached. *)
Theorem service_never_panics `{BlsOps, !BlsLaws, StorageOps} E R U G cx bank0 T lo s t
    (Hset : service_fault_setting E R U bank0 G) (Hrun : service_run E R U cx bank0 T lo s)
    (Hturn : turn_ok E R U (rb_slot bank0) lo s t) :
  exists s' r, ingest_iteration cx t s = Some (s', r).
Proof.
  pose proof (service_fault_setting_ok E R U bank0 G Hset) as Hset'.
  destruct (service_run_inv E R U cx bank0 T lo s Hset' Hrun) as (HI & Hf & _).
  destruct (iteration_inv E R U (sg_stakes _ _ _ _ Hset') (sg_capacity _ _ _ _ Hset') cx (rb_slot bank0) lo t s HI Hf Hturn)
    as (s' & r & Hit & _). by exists s', r.
Qed.
Lemma service_never_panics_witness : exists s' r, ingest_iteration ServiceExample.cx ServiceExample.turn2 ServiceExample.s1 = Some (s', r).
Proof.
  exact (service_never_panics _ _ _ _ _ _ _ 3 _ _ ServiceExample.fault_setting_ok ServiceExample.reached1 ServiceExample.turn2_ok).
Defined.


(** The finalization certificate the service shares with the block creation loop
    is of the pool's highest finalized slot. *)
Theorem shared_finalization_current `{BlsOps, !BlsLaws, StorageOps} E R U cx bank0 T lo s
    (Hset : service_setting E R U bank0) (Hrun : service_run E R U cx bank0 T lo s) :
  finalization_slot <$> sv_highest_finalized s = highest_finalized_slot (sv_pool s).
Proof. apply (service_run_inv E R U cx bank0 T lo s Hset Hrun). Qed.
Lemma shared_finalization_current_witness :
  finalization_slot <$> sv_highest_finalized ServiceExample.s1 = highest_finalized_slot (sv_pool ServiceExample.s1).
Proof. exact (shared_finalization_current _ _ _ _ _ _ 3 _ ServiceExample.setting_ok ServiceExample.reached1). Defined.
