(* ===== verification/Evidence.v ===== *)
(** * What the events of a pool prove

    Every certificate in a pool, and every event it reports, rests on votes that
    validators have signed, if the messages given to the pool do: those the pool
    counted, or those a received certificate was made of.  The invariant is shown for
    a run of the pool and, through it, for the service that owns the pool. *)

From S2P Require Import Prelude.
From S2P Require Import Messages.
From S2P Require Import ParentReady.
From S2P Require Import EpochStakes.
From S2P Require Import VotePools.
From S2P Require Import StakeCounters.
From S2P Require Import CertBuilder.
From S2P Require Import Finalization.
From S2P Require Import Migration.
From S2P Require Import ConsensusPool.
From S2P Require Import PoolVotes.
From S2P Require Import PoolCerts.
From S2P Require Import PoolSafety.
From S2P Require Import PoolOps.
From S2P Require Import PoolTheorems.
From S2P Require Import PoolEvents.
From S2P Require Import CertVerify.
From S2P Require Import VoteHistory.
From S2P Require Import VoteStorage.
From S2P Require Import Voting.
From S2P Require Import Timers.
From S2P Require Import PoolService.
From S2P Require Import ServiceTheorems.

(** ** Safety events come from the counters *)

Definition is_safety (e : VotorEvent) : bool :=
  match e with ESafeToNotar _ | ESafeToSkip _ => true | _ => false end.
Abbreviation safety_log := (event_log is_safety).

Section safety_log.
Context `{BlsOps}.

Lemma tracker_add_block_safety p b ev p' ev' :
  tracker_add_block p b ev = Some (p', ev') -> vote_pools p' = vote_pools p /\ safety_log ev' = safety_log ev.
Proof.
  unfold tracker_add_block. destruct (add_new_notar_fallback_or_stronger _ b ev) as [[t ev1]|] eqn:Ea; [|done].
  cbn [mbind option_bind]. intros [= <- <-]. split; [by destruct p|by eapply (add_notar_log is_safety)].
Qed.
Lemma insert_certificate_safety p bank c cert ev p' ev' :
  insert_certificate p bank c cert ev = Some (p', ev') -> vote_pools p' = vote_pools p /\ safety_log ev' = safety_log ev.
Proof.
  unfold insert_certificate. set (p0 := with_completed _ _). assert (vote_pools p0 = vote_pools p) as <- by (by destruct p).
  clearbody p0. assert (forall e, is_safety e = false -> safety_log (ev ++ [e]) = safety_log ev) as Hq by (intros; by apply event_log_quiet).
  assert (forall p1 ev1 f, vote_pools (with_highest p1 f) = vote_pools p1 /\ safety_log ev1 = safety_log ev1) as Hh by (by intros []).
  destruct c as [s|s b|s b|s b|s|s b].
  - destruct (get_notarize_cert _ _) as [nc|]; [|by intros [= <- <-]].
    destruct (to_block _) as [[s' b]|]; [|done]. cbn [mbind option_bind].
    destruct (is_none_or _ _); [|intros [= <- <-]; by rewrite Hq].
    destruct (from_validated_slow _ _ _); [|done]. cbn [mbind option_bind]. intros [= <- <-]. rewrite Hq by done. apply Hh.
  - destruct (tracker_add_block _ _ _) as [[p1 ev1]|] eqn:Ea; [|done]. cbn [mbind option_bind].
    apply tracker_add_block_safety in Ea as [<- Hl]. rewrite Hq in Hl by done. rewrite <-Hl.
    destruct (is_none_or _ _); [|by intros [= <- <-]].
    destruct (from_validated_fast _ _); [|done]. cbn [mbind option_bind]. intros [= <- <-]. apply Hh.
  - destruct (tracker_add_block _ _ _) as [[p1 ev1]|] eqn:Ea; [|done]. cbn [mbind option_bind].
    apply tracker_add_block_safety in Ea as [<- Hl]. rewrite Hq in Hl by done. rewrite <-Hl.
    assert (forall e, is_safety e = false -> safety_log (ev1 ++ [e]) = safety_log ev1) as Hq1 by (intros; by apply event_log_quiet).
    destruct (get_finalize_cert _ _); [|by intros [= <- <-]]. destruct (is_none_or _ _); [|intros [= <- <-]; by rewrite Hq1].
    destruct (from_validated_slow _ _ _); [|done]. cbn [mbind option_bind]. intros [= <- <-]. rewrite Hq1 by done. apply Hh.
  - intros [<- Hl]%tracker_add_block_safety. by rewrite Hq in Hl.
  - destruct (add_new_skip _ _ _) as [[t ev1]|] eqn:Ea; [|done]. cbn [mbind option_bind]. intros [= <- <-].
    split; [by destruct p0|by eapply (add_skip_log is_safety)].
  - destruct (match migration_status _ with Some _ => _ | None => _ end) as [p1|] eqn:Em; [|done].
    cbn [mbind option_bind]. intros [-> Hl]%tracker_add_block_safety. split; [|done].
    destruct (migration_status _); [|by injection Em as <-]. destruct (set_genesis_certificate _ _); [|done].
    injection Em as <-. by destruct p0.
Qed.
Lemma update_certificates_safety bank slot ob total cs : forall p ev acc p' ev' r,
  update_certificates p bank slot ob ev total cs acc = Some (p', ev', r) ->
  vote_pools p' = vote_pools p /\ safety_log ev' = safety_log ev.
Proof.
  induction cs as [|c cs IH]; intros p ev acc p' ev' r; cbn [update_certificates]; [by intros [= <- <- _]|].
  case_bool_decide; [apply IH|]. destruct (limits_and_vote_types c) as [limit ts].
  destruct (accumulated_stake _ _ _ _) as [st|]; [|done]. cbn [mbind option_bind].
  destruct (nonzero_unwrap total) as [tot|]; [|done]. cbn [mbind option_bind].
  destruct (fraction_lt _ _) as [[]|]; [by apply IH| |done]. cbn [mbind option_bind].
  destruct (aggregate_votes _ _ _ _ _) as [b|]; [|done]. cbn [mbind option_bind].
  destruct (certificate_builder_build b) as [cert|e]; [|by intros [= <- <- _]].
  destruct (insert_certificate _ _ _ _ _) as [[p1 ev1]|] eqn:Ei; [|done]. cbn [mbind option_bind].
  apply insert_certificate_safety in Ei as [<- <-]. intros [-> ->]%IH. by destruct p1.
Qed.
End safety_log.

(** ** Evidence *)

Section evidence.
Context `{BlsOps, !BlsLaws} (E : Slot -> option VersionedEpochStakes) (HE : stakes_ok E).
Context (R : Slot -> gset Z) (U : Slot -> Z -> gset Z) (Hcap : capacity_ok E R U).
(** [signs s k v]: the validator [k], ranked in the epoch of slot [s], signed [v]. *)
Context (signs : Slot -> Pubkey -> Vote -> Prop).
Abbreviation w s := (weight (slot_weight E s)).

(** A certificate of type [c] can be made of signed votes. *)
Definition backed (c : CertificateType) : Prop := exists K,
  K ⊆ slot_keys E (cert_slot c) /\ cert_pct c * slot_total E (cert_slot c) <= 100 * w (cert_slot c) K /\
  0 < slot_total E (cert_slot c) /\
  forall k, k ∈ K -> exists v, v ∈ cert_votes c /\ signs (cert_slot c) k v.

(** What an event proves. *)
Definition proves (e : VotorEvent) : Prop :=
  match e with
  | ESafeToNotar (s, b) => exists X Y, X ⊆ slot_keys E s /\ Y ⊆ slot_keys E s /\
      (forall k, k ∈ X -> signs s k (Notarize s b)) /\ (forall k, k ∈ Y -> signs s k (Skip s)) /\
      (40 * slot_total E s <= 100 * w s X \/
       (20 * slot_total E s <= 100 * w s X /\ 60 * slot_total E s <= 100 * w s (X ∪ Y)))
  | ESafeToSkip s => forall b, exists X, X ⊆ slot_keys E s /\ 40 * slot_total E s <= 100 * w s X /\
      forall k, k ∈ X -> signs s k (Skip s) \/ exists b', b' <> b /\ signs s k (Notarize s b')
  | EBlockNotarized (s, b) => backed (CNotarize s b)
  | EBlockNotarFallback (s, b) => backed (CNotarizeFallback s b)
  | EFinalized (s, b) true => backed (CFinalizeFast s b)
  | EFinalized (s, b) false => backed (CFinalize s) /\ backed (CNotarize s b)
  | _ => True
  end.

(** A message that rests on signed votes. *)
Definition message_signed (m : ConsensusMessage) : Prop :=
  match m with
  | MVote m => forall k, slot_key_of E (vote_slot (vm_vote m)) (vm_rank m) = Some k ->
      signs (vote_slot (vm_vote m)) k (vm_vote m)
  | MCertificate cert => is_genesis (cert_type cert) = false -> backed (cert_type cert)
  end.

(** The votes in the pool are signed, its certificates are backed and the events
    reported are proved. *)
Definition voters_signed (p : ConsensusPool) : Prop := forall s t ob k, k ∈ voters p s t ob ->
  exists v, vote_slot v = s /\ get_type v = t /\ counts_for v ob = true /\ signs s k v /\
    k ∈ voters p s t (vote_block_id v).
Record evidence (p : ConsensusPool) (ev : list VotorEvent) : Prop := {
  ev_voters : voters_signed p;
  ev_certs c : is_Some (completed_certificates p !! c) -> is_genesis c = false -> backed c;
  ev_events e : e ∈ ev -> proves e;
}.

Lemma signed_notarize p s b k : voters_signed p -> k ∈ voters p s TNotarize (Some b) -> signs s k (Notarize s b).
Proof using Type.
  intros Hs Hk. destruct (Hs _ _ _ _ Hk) as (v & Hv & Ht & Hc & Hsg & _). destruct v; try done. simpl in *. subst.
  unfold counts_for in Hc. simpl in Hc. apply bool_decide_eq_true in Hc as [|[= ->]]; done.
Qed.
Lemma signed_fallback p s b k :
  voters_signed p -> k ∈ voters p s TNotarizeFallback (Some b) -> signs s k (NotarizeFallback s b).
Proof using Type.
  intros Hs Hk. destruct (Hs _ _ _ _ Hk) as (v & Hv & Ht & Hc & Hsg & _). destruct v; try done. simpl in *. subst.
  unfold counts_for in Hc. simpl in Hc. apply bool_decide_eq_true in Hc as [|[= ->]]; done.
Qed.
Lemma signed_simple p s k v :
  is_dup_type (get_type v) = false -> get_type v <> TGenesis -> voters_signed p -> vote_slot v = s ->
  k ∈ voters p s (get_type v) None -> signs s k v.
Proof using Type.
  intros Hd Hg Hs <- Hk. destruct (Hs _ _ _ _ Hk) as (v' & Hv & Ht & _ & Hsg & _).
  by destruct v, v'; simpl in *; try done; subst.
Qed.

Lemma quorum_backed p c :
  vote_pools_ok E (vote_pools p) -> voters_signed p -> is_genesis c = false -> 0 < slot_total E (cert_slot c) ->
  quorum E p c -> backed c.
Proof using Type.
  intros Hok Hs Hg Hpos Hq. exists (cert_voters p c). split; [by apply cert_voters_sub|]. split; [done|]. split; [done|].
  destruct c as [s|s b|s b|s b|s|s b]; simpl; intros k; rewrite ?elem_of_union; try done; unfold cert_votes; simpl.
  - intros Hk. exists (Finalize s). split; [by left|]. by apply (signed_simple p s k (Finalize s)).
  - intros Hk. exists (Notarize s b). split; [by left|]. by apply (signed_notarize p).
  - intros Hk. exists (Notarize s b). split; [by left|]. by apply (signed_notarize p).
  - intros [Hk|Hk]; [exists (Notarize s b); split; [by left|by apply (signed_notarize p)]|].
    exists (NotarizeFallback s b). split; [right; by left|]. by apply (signed_fallback p).
  - intros [Hk|Hk]; [exists (Skip s); split; [by left|by apply (signed_simple p s k (Skip s))]|].
    exists (SkipFallback s). split; [right; by left|]. by apply (signed_simple p s k (SkipFallback s)).
Qed.

(** What the pool's votes support is proved. *)
Lemma supported_proves p e :
  vote_pools_ok E (vote_pools p) -> conflict_free p -> voters_signed p -> is_safety e = true ->
  event_supported E p e -> proves e.
Proof using HE.
  intros Hok Hcf Hs He Hsup. pose proof (fun s t ob => voters_sub E p s t ob Hok) as Hsub.
  assert (forall s k, k ∈ voters p s TSkip None -> signs s k (Skip s)) as Hskip by (intros s k; by apply (signed_simple p s k (Skip s))).
  destruct e as [| | | | | | |[s b]|s| | | |]; try done; simpl in *.
  - exists (voters p s TNotarize (Some b)), (voters p s TSkip None). split; [apply Hsub|]. split; [apply Hsub|].
    split; [intros k; by apply signed_notarize|]. split; [apply Hskip|]. rewrite weight_union; [lia|].
    intros k Hk Hk'. apply (cf_skip_notarize p Hcf s k Hk'). by apply (voters_block_sub p s TNotarize b).
  - intros b. set (N := voters p s TNotarize None). set (Nb := voters p s TNotarize (Some b)).
    assert (Nb ⊆ N) as HNb by apply voters_block_sub.
    exists (voters p s TSkip None ∪ N ∖ Nb). split; [apply union_least; [apply Hsub|]; intros k [Hk _]%elem_of_difference; by apply (Hsub s TNotarize None)|].
    assert (w s N = w s Nb + w s (N ∖ Nb)) as HN.
    { rewrite <-weight_union by (clear; set_solver). by rewrite <-union_difference_L. }
    split.
    + rewrite weight_union; [specialize (Hsup b); unfold N, Nb in *; lia|].
      intros k Hk [Hk' _]%elem_of_difference. by apply (cf_skip_notarize p Hcf s k).
    + intros k [Hk|[Hk Hn]%elem_of_difference]%elem_of_union; [left; by apply Hskip|right].
      destruct (Hs _ _ _ _ Hk) as (v & Hv & Ht & _ & Hsg & Hkb). destruct v as [s' b'| | | | |]; try done. simpl in *. subst s'.
      exists b'. split; [|done]. by intros ->.
Qed.

(** ** One message *)

Lemma pool_add_vote_safety p bank my m ev p' ev' r :
  pool_inv E R U p -> vote_input E R U m -> bank_fits E bank -> pool_add_vote p bank my m ev = Some (p', ev', r) ->
  forall e, e ∈ ev' -> is_safety e = true -> e ∈ ev \/ event_supported E p' e.
Proof using HE Hcap.
  intros HI Hin Hbank. unfold pool_add_vote.
  pose proof (get_key_and_stakes_spec E HE bank (vote_slot (vm_vote m)) (vm_rank m) Hbank) as Hgk.
  destruct (get_key_and_stakes _ _ _) as [[[[k st] total]|e]|]; [| |done]; cbn [mbind option_bind]; [|intros [= <- <- _]; auto].
  destruct Hgk as (Hes & Hkey & -> & ->). set (v := vm_vote m) in *. set (s := vote_slot v) in *.
  destruct (slot_key_of_Some E HE _ _ _ Hkey) as (_ & _ & Hk & Hw & _).
  destruct (rust_assert _); [|done]. cbn [mbind option_bind]. set (p0 := bump_stat incoming_votes p).
  assert (pool_inv E R U p0) as (HV & _ & _) by (by apply pool_inv_stats).
  case_bool_decide; [intros [= <- <- _]; auto|].
  destruct (has_conflicting_vote _ _ _ _ _) as [ct|] eqn:Ecf; [intros [= <- <- _]; auto|].
  pose proof (has_conflicting_vote_None _ _ _ _ _ Ecf) as Hconf.
  destruct (update_vote_pool_spec E HE p0 m k) as (vps & r0 & Eu & Hok & Hr); [apply HV|done|apply Hin|].
  fold v s in Eu, Hr. rewrite Eu. cbn [mbind option_bind]. destruct r0 as [est|]; [|intros [= <- <- _]; auto].
  destruct Hr as (_ & Hcnt & ->). set (p1 := with_vote_pools p0 vps) in *.
  assert (vote_pools_ok E (vote_pools p1)) as Hok1 by (unfold p1; by rewrite vote_pools_with).
  destruct (counters_ok_counted E HE p0 p1 v k (bool_decide (my = k)) ev (pool_stats p1)) as (c' & new & st' & Ea & Hsup & _);
    [done|by apply (conflict_free_counted E HE p0 p1 v k); [apply HV|apply HV|..]|apply HV|by eapply slot_total_pos|done|by unfold p1; destruct p0|].
  fold s in Ea. rewrite Ea. cbn [mbind option_bind]. intros [Hp Hlog]%update_certificates_safety e He Hse.
  assert (e ∈ safety_log ev') as Hin' by (by apply elem_of_event_log). rewrite Hlog in Hin'.
  apply elem_of_event_log in Hin' as [_ [|Hnew]%elem_of_app]; [by left|right]. apply Hsup in Hnew.
  assert (forall s t ob, voters p' s t ob = voters p1 s t ob) as Hvs by (intros; unfold voters; rewrite Hp; by destruct p1).
  destruct e as [| | | | | | |[? ?]| | | | |]; try done; simpl in *; setoid_rewrite Hvs; done.
Qed.
Lemma add_certificate_safety p bank cert ev p' ev' r :
  add_certificate p bank cert ev = Some (p', ev', r) -> safety_log ev' = safety_log ev.
Proof using Type.
  unfold add_certificate. case_bool_decide; [by intros [= _ <- _]|]. case_bool_decide; [by intros [= _ <- _]|].
  destruct (insert_certificate _ _ _ _ _) as [[p1 ev1]|] eqn:Ei; [|done]. cbn [mbind option_bind].
  intros [= _ <- _]. by eapply insert_certificate_safety.
Qed.

Lemma voters_signed_counted p p' v k :
  voters_signed p -> vote_counted p p' v k -> signs (vote_slot v) k v -> voters_signed p'.
Proof using Type.
  intros Hs Hc Hsg s t ob x Hx. pose proof (fun s t ob => vote_counted_mono p p' v k s t ob Hc) as Hm.
  assert (x ∈ voters p s t ob \/ (s = vote_slot v /\ t = get_type v /\ counts_for v ob = true /\ x = k)) as [Hx'|(-> & -> & Hcf & ->)].
  { destruct Hc as [HV HO]. destruct (decide ((s, t) = (vote_slot v, get_type v))) as [[= -> ->]|Hne]; [|rewrite HO in Hx by done; by left].
    rewrite HV in Hx. destruct (counts_for v ob); [|by left]. apply elem_of_union in Hx as [->%elem_of_singleton|]; auto. }
  - destruct (Hs _ _ _ _ Hx') as (v' & ? & ? & ? & ? & ?). exists v'. split_and!; try done. by apply Hm.
  - exists v. split_and!; try done. rewrite (vc_same _ _ _ _ Hc).
    assert (counts_for v (vote_block_id v) = true) as ->; [|clear; set_solver].
    unfold counts_for. rewrite bool_decide_true by auto. by destruct (negb _).
Qed.
Lemma voters_signed_same p p' : (forall s t ob, voters p' s t ob = voters p s t ob) -> voters_signed p -> voters_signed p'.
Proof using Type. intros Hv Hs s t ob k. rewrite Hv. setoid_rewrite Hv. apply Hs. Qed.

(** The certificates a message completes are reported with their evidence. *)
Lemma reported_proves p ev p' ev' :
  reported p ev p' ev' -> (forall c, is_Some (completed_certificates p' !! c) -> is_genesis c = false -> backed c) ->
  forall e, e ∈ ev' -> cert_event e = true -> e ∈ ev \/ proves e.
Proof using Type.
  intros (l & Hl & [A0 A1 A2 A3 A4 _]) Hb e He Hc.
  assert (e ∈ cert_log ev') as Hin by (by apply elem_of_event_log). rewrite Hl in Hin.
  apply elem_of_app in Hin as [[_ ?]%elem_of_event_log|Hin]; [by left|right]. unfold stored in *.
  assert (forall c, c ∈ dom (completed_certificates p') -> is_genesis c = false -> backed c) as Hd
    by (intros c Hx; by apply Hb, elem_of_dom).
  destruct e as [|[s b]|[s b]| | | | | | | |[s b] []| |]; try done; simpl.
  - apply Hd; [by apply A1|done].
  - apply Hd; [by apply A2|done].
  - apply Hd; [by apply A3|done].
  - destruct (A4 s b Hin) as [[H1 H2] _]. split; by apply Hd.
Qed.

Lemma events_proved p ev p' ev' :
  evidence p ev -> voters_signed p' -> (forall c, is_Some (completed_certificates p' !! c) -> is_genesis c = false -> backed c) ->
  reported p ev p' ev' -> (forall e, e ∈ ev' -> is_safety e = true -> e ∈ ev \/ proves e) -> evidence p' ev'.
Proof using Type.
  intros [_ _ Hev] Hv Hb Hrep Hsaf. split; [done|done|]. intros e He.
  destruct (cert_event e) eqn:Ec; [destruct (reported_proves _ _ _ _ Hrep Hb e He Ec); auto|].
  destruct (is_safety e) eqn:Es; [destruct (Hsaf e He Es); auto|]. by destruct e.
Qed.

Lemma evidence_message p bank my m ev p' ev' r :
  pool_inv E R U p -> evidence p ev -> message_input E R U bank m -> bank_fits E bank -> message_signed m ->
  add_message p bank my m ev = Some (p', ev', r) -> pool_inv E R U p' /\ evidence p' ev'.
Proof using HE Hcap.
  intros HI Hev Hin Hbank Hm Ha. pose proof Hev as [Hs Hb _].
  destruct (add_message_ok E R U p bank my m ev HE Hcap HI Hin Hbank) as (p1 & new & r1 & Ha' & HI' & _).
  rewrite Ha in Ha'. injection Ha' as <- -> <-. split; [done|].
  destruct (add_message_reported p bank my m ev _ _ _ (inv_typed E R U p HI) Ha) as [_ Hrep].
  pose proof HI' as (HV' & _ & _). unfold add_message in Ha. destruct m as [m|cert].
  - destruct (pool_add_vote_ok E HE R U Hcap p bank my m ev HI Hin Hbank) as (p1 & new1 & r1 & Hv & _ & _ & Ho).
    rewrite Hv in Ha. cbn [mbind option_bind] in Ha.
    assert (p1 = p' /\ ev ++ new1 = ev ++ new) as [-> Hnew] by (destruct r1; by injection Ha).
    assert (voters_signed p' /\ forall c, is_Some (completed_certificates p' !! c) ->
      is_Some (completed_certificates p !! c) \/ (0 < slot_total E (cert_slot c) /\ quorum E p' c)) as [Hs' Hc'].
    { destruct r1 as [certs|e]; simpl in Ho.
      - destruct Ho as (_ & k & Hkey & [(_ & _ & Hcc & Hvs)|(_ & Hcnt & Hcc & _)]).
        + split; [by apply (voters_signed_same p)|]. rewrite Hcc. auto.
        + split; [apply (voters_signed_counted p p' (vm_vote m) k); try done; by apply Hm|].
          intros c Hc. destruct (Hcc c Hc) as [|(Hct & Hq & _)]; [by left|right]. split; [|done].
          destruct (slot_key_of_Some E HE _ _ _ Hkey) as (_ & _ & Hk & Hw & _).
          rewrite (proj1 (vote_to_cert_types_fits E R U m c Hin Hct)). by eapply slot_total_pos.
      - assert (vote_pools p' = vote_pools p /\ completed_certificates p' = completed_certificates p) as [Hvp Hcc]
          by (destruct e; try done; decompose [and] Ho; subst; by destruct p).
        split; [apply (voters_signed_same p); [intros; unfold voters; by rewrite Hvp|done]|]. rewrite Hcc. auto. }
    assert (forall c, is_Some (completed_certificates p' !! c) -> is_genesis c = false -> backed c) as Hb'.
    { intros c Hc Hg. destruct (Hc' c Hc) as [|[Hpos Hq]]; [by apply Hb|]. by apply (quorum_backed p'); [apply HV'|..]. }
    apply (events_proved p ev); try done. intros e He Hse. rewrite <-Hnew in He.
    destruct (pool_add_vote_safety p bank my m ev p' _ r1 HI Hin Hbank Hv e He Hse) as [|Hsup]; [by left|right].
    apply (supported_proves p'); [apply HV'|apply HV'|done..].
  - destruct (add_certificate_ok E HE R U Hcap p bank cert ev HI Hin Hbank) as (p1 & new1 & r1 & Hv & _ & _ & Ho).
    rewrite Hv in Ha. cbn [mbind option_bind] in Ha.
    assert (p1 = p' /\ ev ++ new1 = ev ++ new) as [-> Hnew] by (destruct r1; by injection Ha).
    destruct Ho as (Hvs & _ & Ho). apply (events_proved p ev); try done.
    + by apply (voters_signed_same p).
    + assert (completed_certificates p' = completed_certificates p \/
        completed_certificates p' = <[cert_type cert := cert]> (completed_certificates p)) as [Hcc|Hcc].
      { destruct r1 as [certs|e]; [|destruct e; try done; left; apply Ho]. destruct Ho as [_ Ho].
        destruct (completed_certificates p !! _); [left|right]; apply Ho. }
      * rewrite Hcc. apply Hb.
      * rewrite Hcc. intros c. rewrite lookup_insert. case_decide as Heq; [subst c; intros _; apply Hm|apply Hb].
    + intros e He Hse. left. rewrite <-Hnew in He. apply add_certificate_safety in Hv.
      assert (e ∈ safety_log (ev ++ new1)) as Hin' by (by apply elem_of_event_log). rewrite Hv in Hin'.
      by apply elem_of_event_log in Hin' as [_ ?].
Qed.

(** ** Runs of the pool *)

Lemma evidence_prune p root ev : evidence p ev -> evidence (maybe_prune p root) ev.
Proof using Type.
  intros [Hs Hb He]. rewrite maybe_prune_eq. case_bool_decide; [done|]. split; [|intros c|done].
  - intros s t ob k. rewrite pruned_voters. case_bool_decide as Hr; [|by intros ?%elem_of_empty]. intros Hk.
    destruct (Hs _ _ _ _ Hk) as (v & ? & ? & ? & ? & ?). exists v. rewrite pruned_voters, bool_decide_true by done. done.
  - rewrite pruned_completed. case_bool_decide; [apply Hb|by intros []].
Qed.
Lemma evidence_events p ev ev' : evidence p ev -> (forall e, e ∈ ev' -> e ∈ ev \/ proves e) -> evidence p ev'.
Proof using Type. intros [Hs Hb He] Hsub. split; [done|done|]. intros e Hin. destruct (Hsub e Hin); auto. Qed.
Lemma evidence_report p now ev : evidence p ev -> evidence (maybe_report p now) ev.
Proof using Type. intros [Hs Hb He]. by destruct p. Qed.

Definition op_signed (op : pool_op) : Prop :=
  match op with OpMessage _ _ m => message_signed m | _ => True end.
Lemma evidence_run ops : forall p root ev p' ev',
  pool_inv E R U p -> prt_root (parent_ready_tracker p) <= root -> run_inputs E R U root ops -> Forall op_signed ops ->
  evidence p ev -> pool_run p ops ev = Some (p', ev') -> evidence p' ev'.
Proof using HE Hcap.
  induction ops as [|op ops IH]; intros p root ev p' ev' HI Hr Hin Hs Hev; cbn [pool_run]; [by intros [= <- <-]|].
  apply Forall_cons in Hs as [Hop Hs]. destruct op as [bank my m|r|now]; cbn [run_inputs pool_apply] in *.
  - destruct Hin as (Hbank & Hm & Hin).
    destruct (add_message_ok E R U p bank my m ev HE Hcap HI Hm Hbank) as (p1 & new & r & Ha & _ & [_ _ _ Hrt _]).
    rewrite Ha. cbn [mbind option_bind]. destruct (evidence_message _ _ _ _ _ _ _ _ HI Hev Hm Hbank Hop Ha) as [HI1 Hev1].
    apply (IH p1 root); try done. by rewrite Hrt.
  - destruct Hin as [Hle Hin]. destruct (maybe_prune_ok E R U p r HI ltac:(lia)) as (HI1 & Hr1 & _). cbn [mbind option_bind].
    apply (IH _ r); try done. by apply evidence_prune.
  - cbn [mbind option_bind]. apply (IH _ root); [by apply pool_inv_stats|by destruct p|done|done|by apply evidence_report].
Qed.

Lemma evidence_new bank now : evidence (new_from_root_bank bank ∅ now) [].
Proof using Type.
  split.
  - intros s t ob k. unfold voters. simpl. by rewrite lookup_empty.
  - intros c. simpl. rewrite lookup_empty. by intros [].
  - by intros e ?%elem_of_nil.
Qed.
End evidence.

(** ** The service runs its pool *)

Section service_pool.
Context `{BlsOps, !BlsLaws, StorageOps} (E : Slot -> option VersionedEpochStakes).
Context (R : Slot -> gset Z) (U : Slot -> Z -> gset Z) (cx : ServiceContext).

Lemma run_inputs_later ops : forall lo lo', lo <= lo' -> run_inputs E R U lo' ops -> run_inputs E R U lo ops.
Proof using Type.
  induction ops as [|[bank my m|r|now] ops IH]; intros lo lo' Hle; cbn [run_inputs]; [done| | |by apply IH].
  - intros (? & ? & ?). split_and!; [done|done|by eapply IH].
  - intros [? ?]. split; [lia|done].
Qed.

(** The operations on the pool while the messages [ds] are handled. *)
Definition ops_of (ds : list Delivery) (ops : list pool_op) : Prop :=
  forall bank my m, OpMessage bank my m ∈ ops -> exists d, d ∈ ds /\ m = dl_message d.

Lemma same_pool s s' : same_state s s' ->
  sv_pool s' = sv_pool s /\ sv_events s' = sv_events s /\ sv_event_sender s' = sv_event_sender s.
Proof using Type. intros (? & ? & _ & _ & ? & _). done. Qed.
Lemma update_root_ops now bank o certs s :
  let s' := (maybe_update_root_and_send_new_certificates now bank o certs s).1 in
  sv_pool s' = maybe_prune (sv_pool s) (rb_slot bank) /\ sv_events s' = sv_events s /\ sv_event_sender s' = sv_event_sender s.
Proof using Type.
  unfold maybe_update_root_and_send_new_certificates, send_certificates. set (s1 := match o with Some _ => _ | None => s end).
  assert (sv_pool s1 = sv_pool s /\ sv_events s1 = sv_events s /\ sv_event_sender s1 = sv_event_sender s) as (<- & <- & <-)
    by (unfold s1; destruct o, s; done).
  set (s2 := sv_count _ _ _). destruct (same_pool _ _ (send_certificates_same certs 0 (Z.of_nat (length certs)) s2)) as (-> & -> & ->).
  unfold s2. by destruct s1.
Qed.

Lemma process_message_ops lo hi d s s' r :
  delivery_ok E R U lo hi d -> process_consensus_message cx d s = Some (s', r) ->
  sv_event_sender s' = sv_event_sender s /\
  exists ops, pool_run (sv_pool s) ops (sv_events s) = Some (sv_pool s', sv_events s') /\ ops_of [d] ops /\
    forall rest, run_inputs E R U (rb_slot (dl_prune_root d)) rest -> run_inputs E R U lo (ops ++ rest).
Proof using Type.
  intros (Hbank & Hm & Hlo & _). unfold process_consensus_message.
  set (s0 := match dl_message d with MVote _ => _ | _ => _ end).
  assert (same_state s s0) as (<- & <- & <-)%same_pool by (unfold s0; destruct (dl_message d); apply count_same). clearbody s0.
  unfold add_message_and_maybe_update_commitment.
  destruct (add_message _ _ _ _ _) as [[[p ev] r0]|] eqn:Ha; [|done]. cbn [mbind option_bind].
  set (msg := OpMessage (dl_root d) (cx_my_vote_pubkey cx) (dl_message d)).
  assert (pool_run (sv_pool s0) [msg] (sv_events s0) = Some (p, ev)) as Hone
    by (cbn [pool_run pool_apply msg]; by rewrite Ha).
  assert (forall s1, sv_pool s1 = p -> sv_events s1 = ev -> sv_event_sender s1 = sv_event_sender s0 ->
    sv_event_sender s1 = sv_event_sender s0 /\ exists ops, pool_run (sv_pool s0) ops (sv_events s0) = Some (sv_pool s1, sv_events s1) /\
      ops_of [d] ops /\ forall rest, run_inputs E R U (rb_slot (dl_prune_root d)) rest -> run_inputs E R U lo (ops ++ rest)) as Hmsg.
  { intros s1 <- <- Hs1. split; [done|]. exists [msg]. split; [done|]. split.
    - intros bank my m [= -> -> ->]%list_elem_of_singleton. exists d. split; [by left|done].
    - intros rest Hrest. cbn [app run_inputs msg]. split_and!; [done|done|]. by eapply run_inputs_later. }
  assert (forall s1 o certs, sv_pool s1 = p -> sv_events s1 = ev -> sv_event_sender s1 = sv_event_sender s0 ->
    Some (maybe_update_root_and_send_new_certificates (dl_now d) (dl_prune_root d) o certs s1) = Some (s', r) ->
    sv_event_sender s' = sv_event_sender s0 /\ exists ops, pool_run (sv_pool s0) ops (sv_events s0) = Some (sv_pool s', sv_events s') /\
      ops_of [d] ops /\ forall rest, run_inputs E R U (rb_slot (dl_prune_root d)) rest -> run_inputs E R U lo (ops ++ rest)) as Hupd.
  { intros s1 o certs Hp1 He1 Hs1 Hu. injection Hu as Hu.
    pose proof (update_root_ops (dl_now d) (dl_prune_root d) o certs s1) as Hur. rewrite Hu in Hur. simpl in Hur.
    destruct Hur as (Hp & He & Hsn). split; [congruence|].
    exists [msg; OpPrune (rb_slot (dl_prune_root d))]. split.
    - change (pool_run (sv_pool s0) ([msg] ++ [OpPrune (rb_slot (dl_prune_root d))]) (sv_events s0) = Some (sv_pool s', sv_events s')).
      rewrite pool_run_app, Hone. cbn [mbind option_bind pool_run pool_apply]. by rewrite Hp, He, Hp1, He1.
    - split; [intros bank my m [[= -> -> ->]|[=]%list_elem_of_singleton]%elem_of_cons; exists d; split; [by left|done]|].
      intros rest Hrest. cbn [app run_inputs msg]. done. }
  destruct r0 as [[o certs]|e]; [|intros [= <- <-]; apply Hmsg; by destruct s0].
  destruct o as [sl|]; [|apply Hupd; by destruct s0].
  destruct (update_commitment_cache _ _ _) as [c ok]. cbn [mbind option_bind].
  destruct ok; [apply Hupd; by destruct s0|]. cbn [mbind option_bind]. intros [= <- <-]. apply Hmsg; by destruct s0.
Qed.

Lemma process_messages_ops hi ds : forall lo s s' r,
  deliveries_ok E R U lo hi ds -> process_messages cx ds s = Some (s', r) ->
  sv_event_sender s' = sv_event_sender s /\
  exists ops, pool_run (sv_pool s) ops (sv_events s) = Some (sv_pool s', sv_events s') /\ ops_of ds ops /\ run_inputs E R U lo ops.
Proof using Type.
  induction ds as [|d ds IH]; intros lo s s' r Hds; cbn [process_messages].
  { intros [= <- <-]. split; [done|]. exists []. split; [done|]. split; [by intros bank my m ?%elem_of_nil|done]. }
  destruct Hds as [Hd Hds]. destruct (process_consensus_message cx d s) as [[s1 r1]|] eqn:Em; [|done]. cbn [mbind option_bind].
  destruct (process_message_ops lo hi d s s1 r1 Hd Em) as (Hs1 & ops1 & Hr1 & Ho1 & Hin1).
  assert (forall s2, same_state s1 s2 -> process_messages cx ds s2 = Some (s', r) ->
    sv_event_sender s' = sv_event_sender s /\
    exists ops, pool_run (sv_pool s) ops (sv_events s) = Some (sv_pool s', sv_events s') /\ ops_of (d :: ds) ops /\ run_inputs E R U lo ops) as Hnext.
  { intros s2 (P1 & P2 & P3)%same_pool Hp. destruct (IH _ _ _ _ Hds Hp) as (Hs' & ops & Hr & Ho & Hin). split; [congruence|].
    exists (ops1 ++ ops). split; [|split; [|by apply Hin1]].
    - rewrite pool_run_app, Hr1. cbn [mbind option_bind]. by rewrite <-P1, <-P2.
    - intros bank my m [Hm|Hm]%elem_of_app; [destruct (Ho1 _ _ _ Hm) as (d' & ->%list_elem_of_singleton & ->); exists d; split; [by left|done]|].
      destruct (Ho _ _ _ Hm) as (d' & Hd' & ->). exists d'. split; [by right|done]. }
  destruct r1 as [u|e]; [apply Hnext; by destruct s1|].
  destruct e; try (apply Hnext, count_same). intros [= <- <-]. split; [by destruct s1|].
  exists ops1. split; [by destruct s1|]. split; [|rewrite <-(app_nil_r ops1); by apply Hin1].
  intros bank my m Hm. destruct (Ho1 _ _ _ Hm) as (d' & ->%list_elem_of_singleton & ->). exists d. split; [by left|done].
Qed.

(** The events the service adds on its own are not about votes and certificates. *)
Definition own_event (e : VotorEvent) : Prop :=
  match e with EParentReady _ _ | EProduceWindow _ | EStandstill _ => True | _ => False end.
Definition quiet (s s' : Service) : Prop :=
  sv_pool s' = sv_pool s /\ sv_event_sender s' = sv_event_sender s /\
  forall e, e ∈ sv_events s' -> e ∈ sv_events s \/ own_event e.
Lemma quiet_trans s1 s2 s3 : quiet s1 s2 -> quiet s2 s3 -> quiet s1 s3.
Proof using Type.
  intros (P1 & S1 & E1) (P2 & S2 & E2). split; [congruence|]. split; [congruence|].
  intros e He. destruct (E2 e He) as [He'|]; [|by right]. by apply E1.
Qed.
Lemma quiet_same s s' : same_state s s' -> quiet s s'.
Proof using Type. intros (P1 & P2 & P3)%same_pool. split; [done|]. split; [done|]. rewrite P2. by left. Qed.
Lemma quiet_push s e : own_event e -> quiet s (sv_push s e).
Proof using Type.
  intros He. destruct s. split; [done|]. split; [done|]. simpl.
  intros e' [?| ->%list_elem_of_singleton]%elem_of_app; auto.
Qed.
Lemma kick_off_quiet ms bank s s' : kick_off ms bank s = Some s' -> quiet s s'.
Proof using Type.
  unfold kick_off. destruct (_ || _); [intros [= <-]; by apply quiet_same; destruct s|].
  destruct (genesis_block ms) as [[g|]|]; [|done..]. cbn [mbind option_bind].
  destruct (checked_add _ _) as [start|]; [|done]. cbn [mbind option_bind]. intros [= <-].
  destruct (quiet_push s (EParentReady start (block_max g (rb_slot bank, default 0 (rb_block_id bank)))) I) as (P & S & Hev).
  set (s1 := sv_push _ _) in *. clearbody s1. destruct s1. by split.
Qed.
Lemma produce_block_quiet bank now s s' : add_produce_block_event cx bank now s = Some s' -> quiet s s'.
Proof using Type.
  unfold add_produce_block_event.
  assert (quiet s s) as Hr by (by apply quiet_same; destruct s).
  destruct (iter_max _) as [h|]; [|by intros [= <-]]. case_bool_decide; [by intros [= <-]|].
  set (s1 := sv_with_parent_ready s _ _). assert (quiet s s1) as Hq1 by (destruct s; by split; [|split; [|left]]).
  destruct (cx_slot_leader_at _ _ _); [|intros [= <-]; by destruct s; split; [|split; [|left]]].
  destruct (negb _); [by intros [= <-]|]. destruct (existsb _ _); [by intros [= <-]|].
  destruct (block_production_parent _ _); [intros [= <-]|done|intros [= <-]].
  - eapply quiet_trans; [exact Hq1|]. apply quiet_same, count_same.
  - eapply quiet_trans; [exact Hq1|]. eapply quiet_trans; [|apply quiet_same, count_same]. by apply quiet_push.
Qed.
Lemma standstill_quiet now s s' r : standstill_step now s = Some (s', r) -> quiet s s'.
Proof using Type.
  unfold standstill_step. case_bool_decide; [|intros [= <- _]; by apply quiet_same; destruct s].
  set (s1 := if sv_kick_off_parent_ready s then _ else _).
  assert (quiet s s1) as Hq1 by (unfold s1; destruct (sv_kick_off_parent_ready s); [by apply quiet_push|by apply quiet_same; destruct s]).
  set (s2 := sv_with_timer _ _). assert (quiet s1 s2) as Hq2 by (apply quiet_same; by destruct s1).
  pose proof (quiet_trans _ _ _ Hq1 Hq2) as Hq3. clearbody s2.
  destruct (get_certs_for_standstill _) as [certs|]; [|done]. cbn [mbind option_bind]. unfold send_certificates.
  pose proof (quiet_same _ _ (send_certificates_same certs 0 (Z.of_nat (length certs)) s2)) as Hq4.
  destruct (send_certificates_from _ _ _ s2) as [s3 r3]. simpl in Hq4. pose proof (quiet_trans _ _ _ Hq3 Hq4) as Hq5.
  destruct r3 as [|[]]; intros [= <- <-]; try done. eapply quiet_trans; [exact Hq5|]. by apply quiet_same; destruct s3.
Qed.

(** A turn sends what was waiting and runs the pool on the messages received. *)
Lemma iteration_ops hi lo t s s' :
  deliveries_ok E R U lo hi (deliveries t) -> ingest_iteration cx t s = Some (s', Ok tt) ->
  (forall e, e ∈ sent (sv_event_sender s') -> e ∈ sent (sv_event_sender s) \/ e ∈ sv_events s \/ own_event e) /\
  exists ops, pool_run (sv_pool s) ops [] = Some (sv_pool s', sv_events s') /\ ops_of (deliveries t) ops /\ run_inputs E R U lo ops.
Proof using Type.
  intros Hds. unfold ingest_iteration.
  destruct (kick_off _ _ s) as [s1|] eqn:E1; [|done]. cbn [mbind option_bind]. apply kick_off_quiet in E1.
  destruct (add_produce_block_event _ _ _ s1) as [s2|] eqn:E2; [|done]. cbn [mbind option_bind]. apply produce_block_quiet in E2.
  destruct (standstill_step _ s2) as [[s3 r3]|] eqn:E3; [|done]. cbn [mbind option_bind]. apply standstill_quiet in E3.
  destruct (quiet_trans _ _ _ E1 (quiet_trans _ _ _ E2 E3)) as (P3 & S3 & Hev3). clear E1 E2 E3.
  destruct r3 as [u3|]; [|done]. unfold send_events.
  destruct (send_all _ _) as [c ok] eqn:Es. destruct ok; [|done]. apply send_all_sent in Es.
  set (s4 := sv_with_event_sender _ _).
  assert (sv_pool s4 = sv_pool s /\ sv_events s4 = [] /\ sv_event_sender s4 = c) as (P4 & V4 & S4) by (unfold s4; rewrite <-P3; by destruct s3).
  assert (forall e, e ∈ sent c -> e ∈ sent (sv_event_sender s) \/ e ∈ sv_events s \/ own_event e) as Hsent.
  { intros e. rewrite Es, S3, elem_of_app. intros [?|He]; [by left|right]. by apply Hev3. }
  assert (forall s', sv_pool s' = sv_pool s -> sv_events s' = [] -> sv_event_sender s' = c ->
    (forall e, e ∈ sent (sv_event_sender s') -> e ∈ sent (sv_event_sender s) \/ e ∈ sv_events s \/ own_event e) /\
    exists ops, pool_run (sv_pool s) ops [] = Some (sv_pool s', sv_events s') /\ ops_of (deliveries t) ops /\ run_inputs E R U lo ops) as Hnone.
  { intros s0 -> -> ->. split; [done|]. exists []. split; [done|]. split; [by intros bank my m ?%elem_of_nil|done]. }
  clearbody s4. unfold deliveries in *. destruct (tu_received t) as [| |ds]; [intros [= <-]; by apply Hnone|done|].
  destruct (process_messages cx ds s4) as [[s5 [u5|]]|] eqn:Ep; [|done..]. cbn [mbind option_bind]. intros [= <-].
  destruct (process_messages_ops hi ds lo s4 s5 (Ok u5) Hds Ep) as (S5 & ops & Hrun & Hops & Hin).
  rewrite P4, V4 in Hrun. set (s6 := sv_with_stats s5 _).
  assert (sv_pool s6 = sv_pool s5 /\ sv_events s6 = sv_events s5 /\ sv_event_sender s6 = c) as (P6 & V6 & S6)
    by (unfold s6; rewrite <-S4, <-S5; by destruct s5). clearbody s6.
  split; [by destruct s6; simpl in *; rewrite S6|]. exists (ops ++ [OpReport (tu_end t)]). split; [|split].
  - rewrite pool_run_app, Hrun. cbn [mbind option_bind pool_run pool_apply]. rewrite <-P6, <-V6. by destruct s6.
  - intros bank my m [Hm|[=]%list_elem_of_singleton]%elem_of_app. by eapply Hops.
  - clear - Hin. revert lo Hin. induction ops as [|[bank my m|r|now] ops IH]; intros lo; cbn [app run_inputs]; naive_solver.
Qed.
End service_pool.

(** Everything a service's pool holds, and every event the service sent, rests on
    signed votes, if the messages it received do. *)
Definition turn_signed (E : Slot -> option VersionedEpochStakes) (signs : Slot -> Pubkey -> Vote -> Prop) (t : Turn) : Prop :=
  forall d, d ∈ deliveries t -> message_signed E signs (dl_message d).
Lemma service_evidence `{BlsOps, !BlsLaws, StorageOps} E R U cx bank0 signs lo s :
  service_setting E R U bank0 -> service_run E R U cx bank0 (turn_signed E signs) lo s ->
  evidence E signs (sv_pool s) (sent (sv_event_sender s) ++ sv_events s).
Proof.
  intros Hset. pose proof Hset as [HE Hcap _].
  induction 1 as [ms now bls es cm Hms Hes|lo s t s' Hrun IH Hx Ht Hsg Hit|lo s s' _ IH (x & bls & es & cm & Hs & ->)].
  - unfold service_start. rewrite Hms. simpl. rewrite Hes. apply evidence_new.
  - destruct (service_run_inv E R U cx bank0 _ lo s Hset Hrun) as (HI & _ & _).
    destruct (iteration_ops E R U cx _ lo t s s' (to_deliveries _ _ _ _ _ _ _ Ht) Hit) as (Hsent & ops & Hops & Hof & Hin).
    assert (evidence E signs (sv_pool s') (sv_events s')) as Hev.
    { apply (evidence_run E HE R U Hcap signs ops (sv_pool s) lo []); try done; [apply HI|apply HI| |].
      - apply Forall_forall. intros [bank my m|r|now'] Hop; [|done..]. destruct (Hof _ _ _ Hop) as (d & Hd & ->). by apply Hsg.
      - apply (evidence_events _ _ _ _ [] IH). by intros e ?%elem_of_nil. }
    destruct Hev as [V1 V2 V3]. split; [done|done|]. intros e [He|He]%elem_of_app; [|by apply V3].
    destruct (Hsent e He) as [?|[?|Hown]]; [apply (ev_events _ _ _ _ IH), elem_of_app; auto..|by destruct e].
  - simpl. by rewrite Hs.
Qed.
