(* ===== verification/Banlist.v ===== *)
(** * The ban list

    [net-utils/src/banlist.rs] and the list of banned peers of the streamer,
    [SimpleQosBanlist] of [streamer/src/nonblocking/simple_qos.rs].  The signature
    verifier bans the peers that send it invalid messages; the streamer refuses their
    connections.  The list behaves as if it only remembered the last ban of each peer,
    whatever was pruned or forgotten in between. *)

From S2P Require Import Prelude.
From S2P Require Import Messages.
From S2P Require Import Voting.
From S2P Require Import Timers.

Section banlist.
Context {T : Type} `{Countable T}.

Record Banlist := mkBanlist { banned : gmap T Instant }.
Definition banlist_default : Banlist := mkBanlist ∅.

Definition banlist_ban (l : Banlist) (now : Instant) (id : T) (timeout : Duration) : Banlist * bool :=
  match instant_checked_add now timeout with
  | None => (l, false)
  | Some expires_at => (mkBanlist (<[id := expires_at]> (banned l)), bool_decide (is_Some (banned l !! id)))
  end.

(** [is_banned] first looks with the read lock; if the ban has run out it takes the
    write lock and looks again, at the list as other threads have left it. *)
Definition is_banned_read (l : Banlist) (now : Instant) (id : T) : option bool :=
  match banned l !! id with
  | None => Some false
  | Some expires_at => if bool_decide (expires_at > now) then Some true else None
  end.
Definition is_banned_write (l : Banlist) (now : Instant) (id : T) : Banlist * bool :=
  match banned l !! id with
  | None => (l, false)
  | Some expires_at =>
    if bool_decide (expires_at > now) then (l, true) else (mkBanlist (delete id (banned l)), false)
  end.
Definition banlist_is_banned (l : Banlist) (between : Banlist -> Banlist) (now : Instant) (id : T) : Banlist * bool :=
  match is_banned_read l now id with
  | Some answer => (l, answer)
  | None => is_banned_write (between l) now id
  end.
Definition banlist_prune (l : Banlist) (now : Instant) : Banlist :=
  mkBanlist (filter (fun e => e.2 > now) (banned l)).

(** ** What the list promises *)

(** A step of some thread that holds the lock, with the time it has read.  The
    code reads the clock before it takes the lock, so the times of successive steps
    are in no order; each is only no later than the moment its lock is held. *)
Inductive BanStep :=
  | StepBan (now : Instant) (id : T) (timeout : Duration)
  | StepForget (now : Instant) (id : T)
  | StepPrune (now : Instant).
Definition step_time (st : BanStep) : Instant :=
  match st with StepBan now _ _ | StepForget now _ | StepPrune now => now end.
Definition ban_step (l : Banlist) (st : BanStep) : Banlist :=
  match st with
  | StepBan now id timeout => fst (banlist_ban l now id timeout)
  | StepForget now id => fst (is_banned_write l now id)
  | StepPrune now => banlist_prune l now
  end.

(** The end of the last ban of [id]. *)
Definition last_ban (e : option Instant) (id : T) (st : BanStep) : option Instant :=
  match st with
  | StepBan now id' timeout =>
    if bool_decide (id = id') then match instant_checked_add now timeout with Some t => Some t | None => e end else e
  | _ => e
  end.
Definition banned_at (e : option Instant) (now : Instant) : Prop := exists t, e = Some t /\ now < t.
#[global] Instance banned_at_dec e now : Decision (banned_at e now).
Proof.
  destruct e as [t|]; [|right; by intros (? & ? & _)].
  destruct (decide (now < t)); [left; by exists t|right; intros (? & [= <-] & ?); lia].
Defined.

Lemma is_banned_write_answer l now id : snd (is_banned_write l now id) = bool_decide (banned_at (banned l !! id) now).
Proof.
  unfold is_banned_write. destruct (banned l !! id) as [t|]; [case_bool_decide|]; cbn [snd]; symmetry.
  - apply bool_decide_eq_true. exists t. split; [done|lia].
  - apply bool_decide_eq_false. intros (? & [= <-] & ?). lia.
  - apply bool_decide_eq_false. by intros (? & ? & _).
Qed.

(** The list has at most forgotten bans that had run out by the time [hi], a time
    no step so far has read beyond. *)
Definition remembers (l : Banlist) (e : T -> option Instant) (hi : Instant) : Prop := forall id,
  banned l !! id = e id \/ (banned l !! id = None /\ exists t, e id = Some t /\ t <= hi).

Lemma remembers_step l e hi st : remembers l e hi -> step_time st <= hi ->
  remembers (ban_step l st) (fun id => last_ban (e id) id st) hi.
Proof.
  intros Hl Hle id. specialize (Hl id).
  destruct st as [now id' timeout|now id'|now]; simpl in *.
  - unfold banlist_ban. destruct (instant_checked_add now timeout) as [t|]; simpl; [|by case_bool_decide].
    case_bool_decide as Heq; [subst; rewrite lookup_insert_eq; by left|by rewrite lookup_insert_ne].
  - unfold is_banned_write. destruct (banned l !! id') as [t|] eqn:El; [case_bool_decide|]; simpl; try done.
    destruct (decide (id' = id)) as [->|]; [|by rewrite lookup_delete_ne]. rewrite lookup_delete_eq. right. split; [done|].
    rewrite El in Hl. destruct Hl as [Hl|[? _]]; [|done]. exists t. split; [done|lia].
  - rewrite map_lookup_filter. destruct (banned l !! id) as [t|] eqn:El; simpl; [|done].
    destruct Hl as [Hl|[? _]]; [|done]. destruct (decide (t > now)) as [Ht|Ht].
    + left. by rewrite option_guard_True.
    + right. rewrite option_guard_False by done. split; [done|]. exists t. split; [done|lia].
Qed.
Lemma remembers_answer l e hi id : remembers l e hi ->
  (forall now, banned_at (banned l !! id) now -> banned_at (e id) now) /\
  (banned_at (e id) hi -> banned_at (banned l !! id) hi).
Proof.
  intros Hl. destruct (Hl id) as [->|(-> & t & -> & Ht)]; [done|].
  split; [by intros now (? & ? & _)|intros (? & [= <-] & ?); lia].
Qed.
Lemma banned_at_later e now now' : now <= now' -> banned_at e now' -> banned_at e now.
Proof. intros Hle (t & -> & Ht). exists t. split; [done|lia]. Qed.

Definition ban_steps (sts : list BanStep) : Banlist := foldl ban_step banlist_default sts.
Definition last_bans (sts : list BanStep) (id : T) : option Instant := foldl (fun e st => last_ban e id st) None sts.

Lemma steps_remember sts hi : forall l e, remembers l e hi -> Forall (fun st => step_time st <= hi) sts ->
  remembers (foldl ban_step l sts) (fun id => foldl (fun e st => last_ban e id st) (e id) sts) hi.
Proof.
  induction sts as [|st sts IH]; intros l e Hl Hok; simpl; [done|].
  apply Forall_cons in Hok as [Hle Hok]. apply (IH _ (fun id => last_ban (e id) id st)); [|done].
  by apply remembers_step.
Qed.
Lemma ban_steps_remember sts hi :
  Forall (fun st => step_time st <= hi) sts -> remembers (ban_steps sts) (last_bans sts) hi.
Proof. intros Hok. apply (steps_remember sts hi _ (fun _ => None)); [by left|done]. Qed.

(** The steps that come before the lock section in which a lookup decides: those
    before its read lock, and, when that finds a ban that has run out, those other
    threads take before it gets the write lock. *)
Definition decided_after (sts between : list BanStep) (now : Instant) (id : T) : list BanStep :=
  match is_banned_read (ban_steps sts) now id with Some _ => sts | None => sts ++ between end.

Lemma is_banned_decided sts between now id :
  (banlist_is_banned (ban_steps sts) (fun l => foldl ban_step l between) now id).2 =
  bool_decide (banned_at (banned (ban_steps (decided_after sts between now id)) !! id) now).
Proof.
  unfold decided_after, banlist_is_banned. destruct (is_banned_read _ _ _) as [answer|] eqn:Er.
  - unfold is_banned_read in Er. simpl. destruct (banned (ban_steps sts) !! id) as [t|].
    + case_bool_decide; [|done]. injection Er as <-. symmetry. apply bool_decide_eq_true. exists t. split; [done|lia].
    + injection Er as <-. symmetry. apply bool_decide_eq_false. by intros (? & ? & _).
  - rewrite is_banned_write_answer. unfold ban_steps. by rewrite foldl_app.
Qed.
End banlist.
Arguments Banlist T {_ _}.
Arguments BanStep T : clear implicits.

(** ** The streamer's list

    A ban also asks the streamer to close the connections of the peer. *)

Record SimpleQosBanlist := mkQosBanlist {
  qos_banlist : Banlist Pubkey;
  eviction_sender : Sender Pubkey;
}.
Definition qos_ban (l : SimpleQosBanlist) (now : Instant) (pubkey : Pubkey) (timeout : Duration)
    : SimpleQosBanlist * bool :=
  let '(b, ret) := banlist_ban (qos_banlist l) now pubkey timeout in
  match try_send (eviction_sender l) pubkey with
  | (s, Ok _) => (mkQosBanlist b s, ret)
  | (s, Err TrySendFull) => (mkQosBanlist b s, ret)
  | (s, Err TrySendDisconnected) => (mkQosBanlist b s, ret)
  end.

Lemma qos_ban_banlist l now pubkey timeout :
  qos_banlist (qos_ban l now pubkey timeout).1 = (banlist_ban (qos_banlist l) now pubkey timeout).1.
Proof.
  unfold qos_ban. destruct (banlist_ban _ _ _ _) as [b ret]. by destruct (try_send _ _) as [s [|[]]].
Qed.

(** ** Properties *)

(** C31: Bans last as long as they should.  Let the threads run any sequence of bans,
    lookups and prunes, also while a lookup that read the clock at [now] waits for the
    write lock, each with a time read at any moment before it held the lock; let
    [held] be the moment the lookup holds the lock it decides under.  If the last ban
    of the peer goes on beyond [held], the lookup says banned, whatever was pruned or
    forgotten; if it says banned, that ban goes on beyond [now].  So only a ban
    that ends while the lookup runs may be answered either way, and the answer is
    exact when no earlier step has read a later time. *)
Theorem ban_lasts {T} `{Countable T} (sts between : list (BanStep T)) now held id
    (Hnow : now <= held)
    (Hread : Forall (fun st => step_time st <= held) (decided_after sts between now id)) :
  let answer := (banlist_is_banned (ban_steps sts) (fun l => foldl ban_step l between) now id).2 in
  let last := last_bans (decided_after sts between now id) id in
  (banned_at last held -> answer = true) /\ (answer = true -> banned_at last now) /\
  (Forall (fun st => step_time st <= now) (decided_after sts between now id) ->
     answer = bool_decide (banned_at last now)).
Proof.
  simpl. rewrite is_banned_decided. revert Hread. generalize (decided_after sts between now id) as all.
  intros all Hread. destruct (remembers_answer _ _ _ id (ban_steps_remember all held Hread)) as [A1 A2].
  split_and!.
  - intros Hb. apply bool_decide_eq_true, (banned_at_later _ now held); auto.
  - intros Hb. apply A1. by apply bool_decide_eq_true in Hb.
  - intros Hexact. apply bool_decide_ext. split; [apply A1|].
    apply (remembers_answer _ _ _ id (ban_steps_remember all now Hexact)).
Qed.
Lemma ban_lasts_witness :
  let sts := [StepBan 10 1 100; StepPrune 60; StepBan 70 2 100; StepForget 65 1] in
  let between := [StepPrune 119; StepBan 125 1 50; StepPrune 118] in
  (banlist_is_banned (ban_steps sts) (fun l => foldl ban_step l between) 120 1).2 = true /\
  (banlist_is_banned (ban_steps sts) (fun l => foldl ban_step l between) 120 2).2 = true.
Proof.
  intros sts between. split.
  - apply (ban_lasts sts between 120 130 1); [lia| |].
    + change (Forall (fun st => step_time st <= 130) (sts ++ between)). unfold sts, between; simpl.
      repeat (constructor; [simpl; lia|]); constructor.
    + exists 175. split; [vm_compute; reflexivity|lia].
  - apply (ban_lasts sts between 120 121 2); [lia| |].
    + change (Forall (fun st => step_time st <= 121) sts). unfold sts; simpl.
      repeat (constructor; [simpl; lia|]); constructor.
    + exists 170. split; [vm_compute; reflexivity|lia].
Defined.

(** A ban that has run out but was not forgotten yet makes [ban] answer that the
    peer was banned already. *)
Example expired_ban_reported : (banlist_ban (ban_steps [StepBan 0 1 10]) 50 1 10).2 = true /\
  (banlist_is_banned (ban_steps [StepBan 0 1 10]) id 50 1).2 = false.
Proof. split; vm_compute; reflexivity. Qed.
