(* ===== verification/Rewards.v ===== *)
(** * Reward certificates

    The leader of a slot proves in its block's footer which validators voted eight
    slots earlier.  [votor/src/consensus_rewards.rs] and [consensus_rewards/entry*]
    collect the notarize and skip votes and build the two reward certificates of
    [votor-messages/src/reward_certificate.rs];
    [runtime/src/validated_reward_certificate.rs] checks them and extracts the
    validators to pay.  [RewardTheorems] proves that the two sides agree. *)

From S2P Require Import Prelude.
From S2P Require Import Messages.
From S2P Require Import EpochStakes.
From S2P Require Import CertBuilder.
From S2P Require Import Finalization.
From S2P Require Import CertVerify.
From S2P Require Import BankForks.
From S2P Require Import VoteHistory.
From S2P Require Import VoteStorage.
From S2P Require Import Voting.
From S2P Require Import BankForks.

(** ** External operations

    [bincode] and the iteration order of a [HashMap] and a [HashSet], which is
    arbitrary. *)

Class RewardOps := {
  bincode_serialize : Vote -> list Z;
  hash_iter : forall {A : Type}, gmap Z A -> list (Z * A);
  hash_set_iter : gset Z -> list Z;
}.
Class RewardLaws `{BlsVerify, RewardOps} := {
  bincode_wincode v : bincode_serialize v = wincode_serialize v;
  hash_iter_perm {A} (m : gmap Z A) : hash_iter m ≡ₚ map_to_list m;
  hash_set_iter_perm (X : gset Z) : hash_set_iter X ≡ₚ elements X;
  encode_base2_length bits bytes : (length bits <= MAXIMUM_VALIDATORS)%nat -> encode_base2 bits = Ok bytes ->
    Z.of_nat (length bytes) <= 65535;
  sig_into_compress s : is_Some (signature_compress (sig_into s));
}.

(** ** Messages *)

Definition NUM_SLOTS_FOR_REWARD : Z := 8.
Inductive RewardCertError := InvalidBitmap.
Record SkipRewardCertificate := mkSkipReward {
  skr_slot : Slot;
  skr_signature : SignatureCompressed;
  skr_bitmap : list Z;
}.
Record NotarRewardCertificate := mkNotarReward {
  nor_slot : Slot;
  nor_block_id : Hash;
  nor_signature : SignatureCompressed;
  nor_bitmap : list Z;
}.
Definition skip_reward_try_new (slot : Slot) (signature : SignatureCompressed) (bitmap : list Z)
    : result RewardCertError SkipRewardCertificate :=
  if bool_decide (Z.of_nat (length bitmap) > 65535) then Err InvalidBitmap
  else Ok (mkSkipReward slot signature bitmap).
Definition notar_reward_try_new (slot : Slot) (block_id : Hash) (signature : SignatureCompressed) (bitmap : list Z)
    : result RewardCertError NotarRewardCertificate :=
  if bool_decide (Z.of_nat (length bitmap) > 65535) then Err InvalidBitmap
  else Ok (mkNotarReward slot block_id signature bitmap).

Record BuildRewardCertsRespSucc := mkRewardCerts {
  brs_skip : option SkipRewardCertificate;
  brs_notar : option NotarRewardCertificate;
  brs_validators : list Pubkey;
}.
Definition reward_certs_default : BuildRewardCertsRespSucc := mkRewardCerts None None [].

(** ** Collecting votes *)

Section rewards.
Context `{BlsVerify, RewardOps}.

Inductive BuildRewardCertsRespError :=
  | RewardCertTryNew (e : RewardCertError)
  | RewardEncode (e : EncodeError).
Inductive RewardAddError :=
  | RewardInvalidRank
  | RewardDuplicate
  | RewardBls (e : BlsError).
Inductive BuildSigBitmapError :=
  | BitmapEncode (e : EncodeError)
  | BitmapEmpty.

Record PartialCert := mkPartial {
  pc_signature : SignatureProjective;
  pc_bitvec : list bool;
  pc_cnt : Z;
  pc_validators : list Pubkey;
}.
Definition partial_new (max_validators : nat) : PartialCert :=
  mkPartial sig_identity (replicate max_validators false) 0 [].
Definition partial_wants_vote (p : PartialCert) (rank : Z) : bool :=
  match pc_bitvec p !! Z.to_nat rank with None => false | Some ind => negb ind end.

(** The certificate as the call leaves it and what it returns; [None] is the
    [unwrap] of an unknown rank.  The account is pushed before the signature is
    aggregated, so it stays when that fails. *)
Definition partial_add_vote (p : PartialCert) (m : BLSPubkeyToRankMap) (rank : Z) (signature : BLSSignature)
    : option (PartialCert * result RewardAddError unit) :=
  match pc_bitvec p !! Z.to_nat rank with
  | None => Some (p, Err RewardInvalidRank)
  | Some true => Some (p, Err RewardDuplicate)
  | Some false =>
    entry ← get_pubkey_stake_entry m rank;
    let validators := pc_validators p ++ [en_vote_account_pubkey entry] in
    match aggregate_with (pc_signature p) [signature] with
    | Err e => Some (mkPartial (pc_signature p) (pc_bitvec p) (pc_cnt p) validators, Err (RewardBls e))
    | Ok s => Some (mkPartial s (<[Z.to_nat rank := true]> (pc_bitvec p)) (pc_cnt p +s 1) validators, Ok tt)
    end
  end.

(** [None] is the [unwrap] of the compression. *)
Definition build_sig_bitmap (p : PartialCert)
    : option (result BuildSigBitmapError (SignatureCompressed * list Z * list Pubkey)) :=
  if bool_decide (pc_cnt p = 0) then Some (Err BitmapEmpty)
  else
    match encode_base2 (resize (used_length (pc_bitvec p)) false (pc_bitvec p)) with
    | Err e => Some (Err (BitmapEncode e))
    | Ok bitmap =>
      z ← signature_compress (sig_into (pc_signature p));
      Some (Ok (mkCompressed z, bitmap, pc_validators p))
    end.
Definition votes_seen (p : PartialCert) : Z := pc_cnt p.

Record NotarEntry := mkNotarEntry {
  ne_voted : gset Z;
  ne_partials : gmap Z PartialCert;
}.
Definition notar_entry_new : NotarEntry := mkNotarEntry ∅ ∅.
Definition notar_wants_vote (e : NotarEntry) (rank : Z) : bool := negb (bool_decide (rank ∈ ne_voted e)).
Definition notar_add_vote (e : NotarEntry) (m : BLSPubkeyToRankMap) (rank : Z) (signature : BLSSignature)
    (block_id : Hash) (max_validators : nat) : option (NotarEntry * result RewardAddError unit) :=
  if bool_decide (rank ∈ ne_voted e) then Some (e, Err RewardDuplicate)
  else
    let voted := {[rank]} ∪ ne_voted e in
    let partial := default (partial_new max_validators) (ne_partials e !! block_id) in
    '(partial, res) ← partial_add_vote partial m rank signature;
    let partials := <[block_id := partial]> (ne_partials e) in
    match res with
    | Err err => Some (mkNotarEntry (voted ∖ {[rank]}) partials, Err err)
    | Ok _ => Some (mkNotarEntry voted partials, Ok tt)
    end.

(** [Iterator::max_by_key]: the last of the elements with the largest key. *)
Definition max_by_key {A} (key : A -> Z) (l : list A) : option A :=
  foldl (fun best x => match best with
                       | Some b => Some (if bool_decide (key b <= key x) then x else b)
                       | None => Some x
                       end) None l.

Definition notar_build_cert (e : NotarEntry) (reward_slot : Slot)
    : option (result BuildRewardCertsRespError (option (NotarRewardCertificate * list Pubkey))) :=
  match max_by_key (fun x => votes_seen x.2) (hash_iter (ne_partials e)) with
  | None => Some (Ok None)
  | Some (block_id, partial) =>
    r ← build_sig_bitmap partial;
    Some match r with
    | Err BitmapEmpty => Ok None
    | Err (BitmapEncode e) => Err (RewardEncode e)
    | Ok (signature, bitmap, validators) =>
      match notar_reward_try_new reward_slot block_id signature bitmap with
      | Err e => Err (RewardCertTryNew e)
      | Ok cert => Ok (Some (cert, validators))
      end
    end
  end.

Record RewardEntry := mkRewardEntry {
  re_skip : PartialCert;
  re_notar : NotarEntry;
  re_max_validators : nat;
}.
Definition reward_entry_new (max_validators : nat) : RewardEntry :=
  mkRewardEntry (partial_new max_validators) notar_entry_new max_validators.
Definition entry_wants_vote (e : RewardEntry) (vote : VoteMessage) : bool :=
  match vm_vote vote with
  | Skip _ => partial_wants_vote (re_skip e) (vm_rank vote)
  | Notarize _ _ => notar_wants_vote (re_notar e) (vm_rank vote)
  | _ => false
  end.
Definition entry_add_vote (e : RewardEntry) (m : BLSPubkeyToRankMap) (vote : VoteMessage)
    : option (RewardEntry * result RewardAddError unit) :=
  match vm_vote vote with
  | Notarize _ block_id =>
    '(notar, r) ← notar_add_vote (re_notar e) m (vm_rank vote) (vm_signature vote) block_id (re_max_validators e);
    Some (mkRewardEntry (re_skip e) notar (re_max_validators e), r)
  | Skip _ =>
    '(skip, r) ← partial_add_vote (re_skip e) m (vm_rank vote) (vm_signature vote);
    Some (mkRewardEntry skip (re_notar e) (re_max_validators e), r)
  | _ => Some (e, Ok tt)
  end.

(** The skip certificate of an entry, and the two certificates together. *)
Definition skip_build_cert (p : PartialCert) (reward_slot : Slot)
    : option (result BuildRewardCertsRespError (option (SkipRewardCertificate * list Pubkey))) :=
  r ← build_sig_bitmap p;
  Some match r with
  | Err BitmapEmpty => Ok None
  | Err (BitmapEncode e) => Err (RewardEncode e)
  | Ok (signature, bitmap, validators) =>
    match skip_reward_try_new reward_slot signature bitmap with
    | Err e => Err (RewardCertTryNew e)
    | Ok cert => Ok (Some (cert, validators))
    end
  end.
Definition combine_certs (skip : option (SkipRewardCertificate * list Pubkey))
    (notar : option (NotarRewardCertificate * list Pubkey)) : BuildRewardCertsRespSucc :=
  match skip, notar with
  | None, None => mkRewardCerts None None []
  | Some (skip_cert, skip_validators), None => mkRewardCerts (Some skip_cert) None skip_validators
  | None, Some (notar_cert, notar_validators) => mkRewardCerts None (Some notar_cert) notar_validators
  | Some (skip_cert, skip_validators), Some (notar_cert, notar_validators) =>
    mkRewardCerts (Some skip_cert) (Some notar_cert) (skip_validators ++ notar_validators)
  end.
Definition entry_build_certs (e : RewardEntry) (reward_slot : Slot)
    : option (result BuildRewardCertsRespError BuildRewardCertsRespSucc) :=
  r ← notar_build_cert (re_notar e) reward_slot;
  match r with
  | Err e => Some (Err e)
  | Ok notar =>
    r ← skip_build_cert (re_skip e) reward_slot;
    match r with
    | Err e => Some (Err e)
    | Ok skip => Some (Ok (combine_certs skip notar))
    end
  end.

(** ** The container

    The node's identity and the leader schedule are arguments. *)

Definition wants_vote (id : Pubkey) (slot_leader_at : Slot -> option Pubkey) (root_slot : Slot) (vote : VoteMessage)
    : bool :=
  match vm_vote vote with
  | Notarize _ _ | Skip _ =>
    let slot := vote_slot (vm_vote vote) in
    if bool_decide (slot +s NUM_SLOTS_FOR_REWARD <= root_slot) then false
    else match slot_leader_at (slot +s NUM_SLOTS_FOR_REWARD) with
         | None => false
         | Some leader => bool_decide (leader = id)
         end
  | _ => false
  end.

Abbreviation RewardVotes := (gmap Z RewardEntry) (only parsing).
(** [BTreeMap::split_off]: what is at or above the key is kept. *)
Definition split_off {A} (m : gmap Z A) (slot : Slot) : gmap Z A := filter (fun x => slot <= x.1) m.
Definition rewards_wants_vote (id : Pubkey) (slot_leader_at : Slot -> option Pubkey) (votes : RewardVotes)
    (root_slot : Slot) (vote : VoteMessage) : bool :=
  if negb (wants_vote id slot_leader_at root_slot vote) then false
  else match votes !! vote_slot (vm_vote vote) with
       | None => true
       | Some entry => entry_wants_vote entry vote
       end.
Definition rewards_add_vote (id : Pubkey) (slot_leader_at : Slot -> option Pubkey) (votes : RewardVotes)
    (root_bank : RootBank) (vote : VoteMessage) : option RewardVotes :=
  let slot := vote_slot (vm_vote vote) in
  match get_rank_map root_bank slot with
  | None => Some votes
  | Some rank_map =>
    let max_validators := rank_map_len rank_map in
    let root_slot := rb_slot root_bank in
    let votes := split_off votes (root_slot -s NUM_SLOTS_FOR_REWARD) in
    if negb (rewards_wants_vote id slot_leader_at votes root_slot vote) then Some votes
    else
      let entry := default (reward_entry_new max_validators) (votes !! slot) in
      '(entry, _) ← entry_add_vote entry rank_map vote;
      Some (<[slot := entry]> votes)
  end.
Definition rewards_build_certs (votes : RewardVotes) (bank_slot : Slot)
    : option (RewardVotes * result BuildRewardCertsRespError BuildRewardCertsRespSucc) :=
  match checked_sub bank_slot NUM_SLOTS_FOR_REWARD with
  | None => Some (votes, Ok reward_certs_default)
  | Some reward_slot =>
    let votes := split_off votes reward_slot in
    match votes !! reward_slot with
    | None => Some (votes, Ok reward_certs_default)
    | Some entry =>
      r ← entry_build_certs entry reward_slot;
      Some (delete reward_slot votes, r)
    end
  end.

(** One turn of the loop of [run]: a request, a batch of votes with the root bank
    read for it, a disconnected channel or the timeout.  The boolean says whether
    the loop goes on. *)
Inductive RewardMessage :=
  | RewardBuild (bank_slot : Slot)
  | RewardVote (bank : RootBank) (votes : list VoteMessage)
  | RewardDisconnected
  | RewardTimeout.
Record ConsensusRewards := mkConsensusRewards {
  cr_votes : gmap Z RewardEntry;
  cr_reward_certs_sender : Sender (result BuildRewardCertsRespError BuildRewardCertsRespSucc);
}.
Fixpoint rewards_add_votes (id : Pubkey) (slot_leader_at : Slot -> option Pubkey) (votes : RewardVotes)
    (bank : RootBank) (msgs : list VoteMessage) : option RewardVotes :=
  match msgs with
  | [] => Some votes
  | vote :: msgs =>
    votes ← rewards_add_vote id slot_leader_at votes bank vote;
    rewards_add_votes id slot_leader_at votes bank msgs
  end.
Definition rewards_turn (id : Pubkey) (slot_leader_at : Slot -> option Pubkey) (c : ConsensusRewards)
    (msg : RewardMessage) : option (ConsensusRewards * bool) :=
  match msg with
  | RewardBuild bank_slot =>
    '(votes, resp) ← rewards_build_certs (cr_votes c) bank_slot;
    let '(sender, ok) := send (cr_reward_certs_sender c) resp in
    Some (mkConsensusRewards votes sender, ok)
  | RewardVote bank msgs =>
    votes ← rewards_add_votes id slot_leader_at (cr_votes c) bank msgs;
    Some (mkConsensusRewards votes (cr_reward_certs_sender c), true)
  | RewardDisconnected => Some (c, false)
  | RewardTimeout => Some (c, true)
  end.
Fixpoint rewards_run (id : Pubkey) (slot_leader_at : Slot -> option Pubkey) (c : ConsensusRewards)
    (msgs : list RewardMessage) : option ConsensusRewards :=
  match msgs with
  | [] => Some c
  | msg :: msgs =>
    '(c, go_on) ← rewards_turn id slot_leader_at c msg;
    if go_on : bool then rewards_run id slot_leader_at c msgs else Some c
  end.

(** ** Checking reward certificates *)

Inductive ValidatedRewardError :=
  | InvalidSlotNumbers (current_slot : Slot) (notar_slot skip_slot : option Slot)
  | NoRankMap
  | BlsCertVerify (e : VerifyError)
  | RewardVerifySig (e : BlsError).

Definition extract_slot (current_slot : Slot) (skip : option SkipRewardCertificate)
    (notar : option NotarRewardCertificate) : result ValidatedRewardError (option Slot) :=
  let check slot :=
    if negb (bool_decide (slot +s NUM_SLOTS_FOR_REWARD = current_slot)) then
      Err (InvalidSlotNumbers current_slot (nor_slot <$> notar) (skr_slot <$> skip))
    else Ok (Some slot) in
  match skip, notar with
  | None, None => Ok None
  | Some s, None => check (skr_slot s)
  | None, Some n => check (nor_slot n)
  | Some s, Some n =>
    if negb (bool_decide (skr_slot s = nor_slot n)) then
      Err (InvalidSlotNumbers current_slot (Some (nor_slot n)) (Some (skr_slot s)))
    else check (skr_slot s)
  end.

Record ValidatedRewardCert := mkValidatedReward {
  vr_validators : gset Z;
  vr_reward_slot : Slot;
}.

(** The closure: the key of a rank, its vote account joining the set. *)
Definition reward_lookup (m : BLSPubkeyToRankMap) (rank : nat) : option (Pubkey * Z) :=
  (fun entry => (en_vote_account_pubkey entry, en_bls_pubkey entry)) <$> get_pubkey_stake_entry m (Z.of_nat rank).
Definition add_account (validators : gset Z) (k : Pubkey) : gset Z := {[k]} ∪ validators.

Definition reward_try_new (bank : RootBank) (skip : option SkipRewardCertificate)
    (notar : option NotarRewardCertificate) : result ValidatedRewardError (option ValidatedRewardCert) :=
  match extract_slot (rb_slot bank) skip notar with
  | Err e => Err e
  | Ok None => Ok None
  | Ok (Some reward_slot) =>
    match epoch_stakes_from_slot bank reward_slot with
    | None => Err NoRankMap
    | Some epoch_stakes =>
      let rank_map := es_rank_map epoch_stakes in
      let max_validators := rank_map_len rank_map in
      let '(r, validators) :=
        match skip with
        | Some skip =>
          verify_base2 add_account (bincode_serialize (Skip (skr_slot skip))) (skr_signature skip) (skr_bitmap skip)
            max_validators (reward_lookup rank_map) ∅
        | None => (Ok tt, ∅)
        end in
      match r with
      | Err e => Err (BlsCertVerify e)
      | Ok _ =>
        let '(r, validators) :=
          match notar with
          | Some notar =>
            verify_base2 add_account (bincode_serialize (Notarize (nor_slot notar) (nor_block_id notar)))
              (nor_signature notar) (nor_bitmap notar) max_validators (reward_lookup rank_map) validators
          | None => (Ok tt, validators)
          end in
        match r with
        | Err e => Err (BlsCertVerify e)
        | Ok _ => if bool_decide (validators = ∅) then Ok None
                  else Ok (Some (mkValidatedReward validators reward_slot))
        end
      end
    end
  end.
Definition reward_into_parts (c : ValidatedRewardCert) : Slot * gset Z := (vr_reward_slot c, vr_validators c).
End rewards.
