(* ===== verification/RewardTheorems.v ===== *)
(** * What a reward certificate pays

    The certificates that [Rewards] builds name exactly the validators whose votes
    the leader collected, and every node that replays the block accepts them; no
    accepted certificate pays a validator that did not vote. *)

From S2P Require Import Prelude.
From S2P Require Import Messages.
From S2P Require Import EpochStakes.
From S2P Require Import CertBuilder.
From S2P Require Import Finalization.
From S2P Require Import PoolVotes.
From S2P Require Import PoolCerts.
From S2P Require Import PoolSafety.
From S2P Require Import PoolTheorems.
From S2P Require Import CertVerify.
From S2P Require Import VerifyTheorems.
From S2P Require Import BankForks.
From S2P Require Import VoteHistory.
From S2P Require Import VoteStorage.
From S2P Require Import Voting.
From S2P Require Import Rewards.

(** ** The votes that count

    The first vote of each rank, in the order of arrival. *)

Definition firsts (l : list VoteMessage) : list VoteMessage :=
  foldl (fun acc m => if decide (vm_rank m ∈ vm_rank <$> acc) then acc else acc ++ [m]) [] l.
Definition skip_votes (s : Slot) (l : list VoteMessage) : list VoteMessage :=
  firsts (filter (fun m => vm_vote m = Skip s) l).
Definition is_notarize_of (s : Slot) (v : Vote) : bool :=
  match v with Notarize s' _ => bool_decide (s' = s) | _ => false end.
Definition notar_votes (s : Slot) (l : list VoteMessage) : list VoteMessage :=
  firsts (filter (fun m => is_notarize_of s (vm_vote m)) l).
Definition notar_votes_for (s : Slot) (b : Hash) (l : list VoteMessage) : list VoteMessage :=
  filter (fun m => vm_vote m = Notarize s b) (notar_votes s l).

Lemma firsts_snoc l m :
  firsts (l ++ [m]) = if decide (vm_rank m ∈ vm_rank <$> firsts l) then firsts l else firsts l ++ [m].
Proof. unfold firsts. by rewrite foldl_app. Qed.
Lemma firsts_incl l m : m ∈ firsts l -> m ∈ l.
Proof.
  induction l as [|m' l IH] using rev_ind; [done|]. rewrite firsts_snoc, elem_of_app.
  case_decide; [auto|]. rewrite elem_of_app. naive_solver.
Qed.
Lemma skip_votes_snoc s l m :
  skip_votes s (l ++ [m]) =
  if decide (vm_vote m = Skip s) then
    if decide (vm_rank m ∈ vm_rank <$> skip_votes s l) then skip_votes s l else skip_votes s l ++ [m]
  else skip_votes s l.
Proof.
  unfold skip_votes. rewrite filter_app, filter_cons, filter_nil. case_decide; [apply firsts_snoc|]. by rewrite app_nil_r.
Qed.
Lemma notar_votes_snoc s l m :
  notar_votes s (l ++ [m]) =
  if is_notarize_of s (vm_vote m) then
    if decide (vm_rank m ∈ vm_rank <$> notar_votes s l) then notar_votes s l else notar_votes s l ++ [m]
  else notar_votes s l.
Proof.
  unfold notar_votes. rewrite filter_app, filter_cons, filter_nil. case_decide as Hd.
  - rewrite firsts_snoc. apply Is_true_true in Hd. by rewrite Hd.
  - apply Is_true_false in Hd. by rewrite Hd, app_nil_r.
Qed.
Lemma notar_votes_for_snoc s b l m :
  notar_votes_for s b (l ++ [m]) =
  if decide (vm_vote m = Notarize s b) then
    if decide (vm_rank m ∈ vm_rank <$> notar_votes s l) then notar_votes_for s b l else notar_votes_for s b l ++ [m]
  else notar_votes_for s b l.
Proof.
  unfold notar_votes_for. rewrite notar_votes_snoc. destruct (decide (vm_vote m = Notarize s b)) as [Hv|Hv].
  - rewrite Hv. simpl. rewrite bool_decide_true by done. case_decide; [done|].
    by rewrite filter_app, filter_cons_True, filter_nil.
  - destruct (is_notarize_of s (vm_vote m)); [|done]. case_decide; [done|].
    by rewrite filter_app, filter_cons_False, filter_nil, app_nil_r.
Qed.

(** ** Partial certificates *)

Section rewards.
Context `{BlsVerify, !BlsLaws, !BlsVerifyLaws, RewardOps, !RewardLaws}.
Context (E : Slot -> option VersionedEpochStakes) (HE : stakes_ok E).

(** A vote signed with the key of its rank. *)
Definition authentic (m : VoteMessage) : Prop :=
  0 <= vm_rank m /\ sig_valid (vm_signature m) /\ exists e,
    slot_entries E (vote_slot (vm_vote m)) !! Z.to_nat (vm_rank m) = Some e /\
    signed (en_bls_pubkey e) (serialize_vote (vm_vote m)) /\
    vm_signature m = sig_of (en_bls_pubkey e) (serialize_vote (vm_vote m)).

(** [p] is the aggregate of the votes [msgs] for [v]. *)
Record partial_holds (v : Vote) (n : nat) (msgs : list VoteMessage) (p : PartialCert) : Prop := {
  ph_votes : honest_votes E v msgs;
  ph_ranks : Forall (fun m => 0 <= vm_rank m) msgs;
  ph_length : length (pc_bitvec p) = n;
  ph_bits i : bit (pc_bitvec p) i <-> i ∈ rank_set msgs;
  ph_signature : aggregate_with sig_identity (vm_signature <$> msgs) = Ok (pc_signature p);
  ph_cnt : pc_cnt p = Z.of_nat (length msgs);
  ph_validators : Forall2 (fun m k => slot_key_of E (vote_slot v) (vm_rank m) = Some k) msgs (pc_validators p);
}.

Lemma partial_new_holds v n : partial_holds v n [] (partial_new n).
Proof using Type.
  split; simpl; try done.
  - split; [constructor|by apply NoDup_nil_2|constructor].
  - apply length_replicate.
  - intros i. unfold bit. rewrite lookup_replicate. clear. set_solver.
  - apply aggregate_nil.
Qed.

(** A rank is in the bitmap when a vote of it was counted. *)
Lemma partial_bit v n msgs p m : partial_holds v n msgs p -> 0 <= vm_rank m -> (Z.to_nat (vm_rank m) < n)%nat ->
  pc_bitvec p !! Z.to_nat (vm_rank m) = Some (bool_decide (vm_rank m ∈ vm_rank <$> msgs)).
Proof using Type.
  intros Hp Hr Hn. destruct (lookup_lt_is_Some_2 (pc_bitvec p) (Z.to_nat (vm_rank m))) as [x Hx]; [by rewrite (ph_length _ _ _ _ Hp)|].
  rewrite Hx. f_equal. pose proof (ph_bits _ _ _ _ Hp (Z.to_nat (vm_rank m))) as Hb. unfold bit in Hb. rewrite Hx in Hb.
  assert (Z.to_nat (vm_rank m) ∈ rank_set msgs <-> vm_rank m ∈ vm_rank <$> msgs) as Hs.
  { unfold rank_set, ranks. rewrite elem_of_list_to_set, !list_elem_of_fmap. split; intros (m' & Hm' & Hin); exists m'; split; try done; [|lia].
    pose proof (ph_ranks _ _ _ _ Hp) as Hall. rewrite Forall_forall in Hall. specialize (Hall m' Hin). lia. }
  rewrite Hs in Hb. clear -Hb. symmetry. destruct x; [apply bool_decide_true, Hb; done|apply bool_decide_false]. by intros ?%Hb.
Qed.

Lemma partial_count v n msgs p : partial_holds v n msgs p -> (length msgs <= MAXIMUM_VALIDATORS)%nat.
Proof using HE.
  intros Hp. assert (length (ranks msgs) <= MAXIMUM_VALIDATORS)%nat as Hl.
  { transitivity (length (seq 0 MAXIMUM_VALIDATORS)); [|by rewrite length_seq].
    apply submseteq_length, NoDup_submseteq; [apply (ph_votes _ _ _ _ Hp)|].
    intros r Hr. apply elem_of_seq. split; [lia|]. apply list_elem_of_fmap in Hr as (m & -> & Hm).
    pose proof (hv_entry _ _ _ (ph_votes _ _ _ _ Hp)) as Hv. rewrite Forall_forall in Hv.
    destruct (Hv m Hm) as (_ & e & He & _). by eapply slot_entries_bound. }
  unfold ranks in Hl. by rewrite length_fmap in Hl.
Qed.

Section at_slot.
Context (es : VersionedEpochStakes).
Local Abbreviation n := (rank_map_len (es_rank_map es)).
Local Abbreviation rm := (es_rank_map es).

Lemma authentic_rank m : E (vote_slot (vm_vote m)) = Some es -> authentic m -> (Z.to_nat (vm_rank m) < n)%nat.
Proof using HE.
  intros Hes (_ & _ & e & He & _). unfold slot_entries in He. rewrite Hes in He. apply lookup_lt_Some in He.
  destruct (HE _ _ Hes) as (_ & _ & Hsz). unfold rank_map_len. by rewrite Hsz.
Qed.
Lemma authentic_entry m : E (vote_slot (vm_vote m)) = Some es -> authentic m -> exists e,
  get_pubkey_stake_entry rm (vm_rank m) = Some e /\
  slot_key_of E (vote_slot (vm_vote m)) (vm_rank m) = Some (en_vote_account_pubkey e).
Proof using Type.
  intros Hes (Hr & _ & e & He & _). exists e. unfold get_pubkey_stake_entry, slot_key_of. rewrite !bool_decide_true by done.
  rewrite He. split; [|done]. unfold slot_entries in He. by rewrite Hes in He.
Qed.

Lemma partial_add_duplicate v msgs p m : E (vote_slot v) = Some es -> partial_holds v n msgs p ->
  vm_vote m = v -> authentic m -> vm_rank m ∈ vm_rank <$> msgs ->
  partial_add_vote p rm (vm_rank m) (vm_signature m) = Some (p, Err RewardDuplicate) /\
  partial_wants_vote p (vm_rank m) = false.
Proof using HE.
  intros Hes Hp <- Ha Hin. pose proof (authentic_rank m Hes Ha) as Hn. destruct Ha as (Hr & _).
  unfold partial_add_vote, partial_wants_vote. rewrite (partial_bit _ _ _ _ m Hp Hr Hn). by rewrite bool_decide_true.
Qed.

Lemma partial_add_new v msgs p m : E (vote_slot v) = Some es -> partial_holds v n msgs p ->
  vm_vote m = v -> authentic m -> vm_rank m ∉ vm_rank <$> msgs ->
  partial_wants_vote p (vm_rank m) = true /\
  exists p', partial_add_vote p rm (vm_rank m) (vm_signature m) = Some (p', Ok tt) /\
    partial_holds v n (msgs ++ [m]) p'.
Proof using HE.
  intros Hes Hp <- Ha Hin. pose proof (authentic_rank m Hes Ha) as Hn. pose proof (partial_count _ _ _ _ Hp) as Hc.
  destruct (authentic_entry m Hes Ha) as (e & He & Hk). pose proof Ha as (Hr & Hval & e' & He' & Hs & Hsig).
  unfold partial_add_vote, partial_wants_vote. rewrite (partial_bit _ _ _ _ m Hp Hr Hn), bool_decide_false by done.
  split; [done|]. rewrite He. simpl. destruct Hp as [[V1 V2 V3] P2 P3 P4 P5 P6 P7].
  destruct (aggregate_ok (pc_signature p) [vm_signature m]) as [s Hagg]; [by constructor|]. rewrite Hagg.
  eexists. split; [done|]. split; simpl.
  - split.
    + apply Forall_app. split; [done|by constructor].
    + unfold ranks in *. rewrite fmap_app. apply NoDup_app. split; [done|]. split; [|apply NoDup_singleton].
      intros r Hr1 Hr2. apply list_elem_of_singleton in Hr2 as ->. apply Hin.
      apply list_elem_of_fmap in Hr1 as (m' & Heq & Hm'). apply list_elem_of_fmap. exists m'. split; [|done].
      rewrite Forall_forall in P2. specialize (P2 m' Hm'). lia.
    + apply Forall_app. split; [done|]. constructor; [|done]. eauto 10.
  - apply Forall_app. split; [done|by constructor].
  - by rewrite length_insert.
  - intros i. unfold rank_set, ranks in *. rewrite fmap_app, list_to_set_app, elem_of_union, <-P4. simpl.
    unfold bit. destruct (decide (i = Z.to_nat (vm_rank m))) as [->|Hi].
    + rewrite list_lookup_insert_eq by (by rewrite P3). split; [|done]. intros _. right. clear. set_solver.
    + rewrite list_lookup_insert_ne by done. split; [by left|]. intros [?|Hx]; [done|].
      clear -Hx Hi. set_solver.
  - rewrite fmap_app. by rewrite (aggregate_app _ _ _ _ P5).
  - rewrite P6, length_app. simpl. rewrite sat_add_exact; [lia|]. unfold MAXIMUM_VALIDATORS, u64_max in *. lia.
  - apply Forall2_app; [done|]. by constructor.
Qed.

(** ** Building *)

Lemma entry_key r : (entry_of (reward_lookup rm) r).2 = (entry_of (rank_lookup rm) r).2.
Proof using Type. unfold entry_of, reward_lookup, rank_lookup. by destruct (get_pubkey_stake_entry rm (Z.of_nat r)). Qed.
Lemma reward_ranks_signed v msgs : E (vote_slot v) = Some es -> honest_votes E v msgs ->
  ranks_signed (reward_lookup rm) (serialize_vote v) (rank_set msgs).
Proof using Type.
  intros Hes Hh r Hr. destruct (honest_ranks_signed E v msgs es Hes Hh r Hr) as [Hl Hs]. rewrite entry_key. split; [|done].
  unfold reward_lookup, rank_lookup in *. by destruct (get_pubkey_stake_entry rm (Z.of_nat r)).
Qed.
Lemma reward_sigs v msgs : E (vote_slot v) = Some es -> honest_votes E v msgs ->
  vm_signature <$> msgs ≡ₚ rank_sigs (reward_lookup rm) (serialize_vote v) (elements (rank_set msgs)).
Proof using Type.
  intros Hes Hh. rewrite (honest_sigs E v msgs es Hes Hh). unfold rank_sigs.
  apply Permutation_refl', list_fmap_ext. intros i r _. by rewrite entry_key.
Qed.

Lemma fold_accounts l : forall V, foldl add_account V l = list_to_set l ∪ V.
Proof using Type.
  clear. induction l as [|k l IH]; intros V; simpl; [by rewrite union_empty_l_L|]. rewrite IH. unfold add_account. set_solver.
Qed.
Lemma slot_key_lookup s r : E s = Some es ->
  slot_key_of E s (Z.of_nat r) = fst <$> reward_lookup rm r.
Proof using Type.
  intros Hes. unfold slot_key_of, reward_lookup, get_pubkey_stake_entry. rewrite bool_decide_true by lia.
  unfold slot_entries. rewrite Hes. by rewrite <-option_fmap_compose.
Qed.
Lemma reward_accounts v msgs bits : E (vote_slot v) = Some es -> honest_votes E v msgs ->
  (forall i, bit bits i <-> i ∈ rank_set msgs) ->
  list_to_set (entry_of (reward_lookup rm) <$> iter_ones bits).*1 = msgs_keys E (vote_slot v) msgs.
Proof using Type.
  intros Hes Hh Hb. apply set_eq. intros k. unfold msgs_keys. rewrite !elem_of_list_to_set, list_elem_of_omap, <-list_fmap_compose, list_elem_of_fmap.
  apply exist_proper. intros r. rewrite elem_of_iter_ones, Hb. unfold rank_set. rewrite elem_of_list_to_set.
  rewrite (slot_key_lookup _ r Hes). split.
  - intros [-> Hr]. split; [done|]. destruct (reward_ranks_signed v msgs Hes Hh r) as [[e He] _]; [by apply elem_of_list_to_set|].
    simpl. unfold entry_of. by rewrite He.
  - intros [Hr Hk]. split; [|done]. simpl. unfold entry_of. by destruct (reward_lookup rm r); [injection Hk as <-|].
Qed.
Lemma partial_accounts v msgs p : partial_holds v n msgs p -> list_to_set (pc_validators p) = msgs_keys E (vote_slot v) msgs.
Proof using Type.
  intros Hp. pose proof (ph_validators _ _ _ _ Hp) as HF. pose proof (ph_ranks _ _ _ _ Hp) as Hr. clear -HF Hr.
  unfold msgs_keys, ranks. induction HF as [|m k msgs l Hmk HF IH]; [done|]. apply Forall_cons in Hr as [Hr0 Hr].
  simpl. rewrite Z2Nat.id by done. rewrite Hmk. simpl. by rewrite IH.
Qed.

Lemma partial_build v msgs p : E (vote_slot v) = Some es -> partial_holds v n msgs p -> msgs <> [] ->
  exists z bitmap, build_sig_bitmap p = Some (Ok (mkCompressed z, bitmap, pc_validators p)) /\
    Z.of_nat (length bitmap) <= 65535 /\ forall V,
    verify_base2 add_account (bincode_serialize v) (mkCompressed z) bitmap n (reward_lookup rm) V =
    (Ok tt, msgs_keys E (vote_slot v) msgs ∪ V).
Proof using HE H4.
  intros Hes Hp Hne. destruct (HE _ _ Hes) as (_ & Hmax & Hsz).
  assert (used_length (pc_bitvec p) <= n)%nat as Hu.
  { rewrite <-(ph_length _ _ _ _ Hp). apply used_length_le. apply bit_lt. }
  destruct (encode_base2_decode (resize (used_length (pc_bitvec p)) false (pc_bitvec p))) as (bytes & Henc & Hdec).
  { rewrite length_resize. unfold rank_map_len in Hu. lia. }
  destruct (sig_into_compress (pc_signature p)) as [z Hz].
  exists z, bytes. split; [|split].
  - unfold build_sig_bitmap. rewrite bool_decide_false by (rewrite (ph_cnt _ _ _ _ Hp); destruct msgs; simpl; [done|lia]).
    rewrite Henc, Hz. done.
  - eapply encode_base2_length; [|done]. rewrite length_resize. unfold rank_map_len in Hu. lia.
  - intros V. unfold verify_base2. rewrite Hdec by (by rewrite length_resize). rewrite bincode_wincode.
    assert (forall i, bit (resize (used_length (pc_bitvec p)) false (pc_bitvec p)) i <-> i ∈ rank_set msgs) as Hbits.
    { intros i. rewrite bit_resize by done. apply (ph_bits _ _ _ _ Hp). }
    rewrite (verify_single_complete add_account _ _ _ _ (rank_set msgs) (vm_signature <$> msgs) (pc_signature p)).
    + rewrite fold_accounts, (reward_accounts v msgs); [done|done|apply Hp|done].
    + simpl. by apply compress_uncompress.
    + done.
    + by apply reward_ranks_signed; [|apply Hp].
    + destruct msgs as [|m msgs]; [done|]. unfold rank_set, ranks. simpl. clear. set_solver.
    + apply reward_sigs; [done|apply Hp].
    + apply Hp.
Qed.

(** ** Entries *)

Record notar_holds (s : Slot) (L : list VoteMessage) (e : NotarEntry) : Prop := {
  nh_voted r : r ∈ ne_voted e <-> r ∈ vm_rank <$> notar_votes s L;
  nh_some b p : ne_partials e !! b = Some p ->
    partial_holds (Notarize s b) n (notar_votes_for s b L) p /\ notar_votes_for s b L <> [];
  nh_none b : ne_partials e !! b = None -> notar_votes_for s b L = [];
}.
(** The entry of slot [s] after the votes [L]. *)
Record entry_holds (s : Slot) (L : list VoteMessage) (e : RewardEntry) : Prop := {
  eh_skip : partial_holds (Skip s) n (skip_votes s L) (re_skip e);
  eh_notar : notar_holds s L (re_notar e);
  eh_max : re_max_validators e = n;
}.

Lemma entry_new_holds s : entry_holds s [] (reward_entry_new n).
Proof using Type.
  split; [apply partial_new_holds| |done]. split; simpl.
  - intros r. clear. set_solver.
  - intros b p. by rewrite lookup_empty.
  - done.
Qed.
(** Votes that change nothing. *)
Lemma entry_holds_eq s L L' e : skip_votes s L' = skip_votes s L -> notar_votes s L' = notar_votes s L ->
  entry_holds s L e -> entry_holds s L' e.
Proof using Type.
  intros E1 E2 [H1' [N1 N2 N3] H3']. assert (forall b, notar_votes_for s b L' = notar_votes_for s b L) as E3.
  { intros b. unfold notar_votes_for. by rewrite E2. }
  split; [by rewrite E1| |done]. split; intros *; rewrite ?E2, ?E3; eauto.
Qed.

Lemma notar_partial s L e b : notar_holds s L e ->
  partial_holds (Notarize s b) n (notar_votes_for s b L) (default (partial_new n) (ne_partials e !! b)).
Proof using Type.
  intros [_ N2 N3]. destruct (ne_partials e !! b) as [p|] eqn:Ep; simpl; [by apply N2|].
  rewrite (N3 b Ep). apply partial_new_holds.
Qed.
Lemma notar_add_new s L e b m : E s = Some es -> notar_holds s L e -> vm_vote m = Notarize s b -> authentic m ->
  vm_rank m ∉ vm_rank <$> notar_votes s L ->
  exists e', notar_add_vote e rm (vm_rank m) (vm_signature m) b n = Some (e', Ok tt) /\ notar_holds s (L ++ [m]) e'.
Proof using HE.
  intros Hes He Hv Ha Hin. destruct (partial_add_new (Notarize s b) (notar_votes_for s b L)
    (default (partial_new n) (ne_partials e !! b)) m) as (_ & p' & Hadd & Hp'); [done|by apply notar_partial|done|done| |].
  { intros (x & Hx & Hi)%list_elem_of_fmap. apply Hin, list_elem_of_fmap. exists x. split; [done|].
    by apply list_elem_of_filter in Hi as [_ Hi]. }
  destruct He as [N1 N2 N3]. unfold notar_add_vote. rewrite bool_decide_false by (by rewrite N1). rewrite Hadd. simpl.
  eexists. split; [done|]. split; simpl.
  - intros r. rewrite notar_votes_snoc, Hv. simpl. rewrite bool_decide_true, decide_False by done.
    rewrite fmap_app, elem_of_app, elem_of_union, N1. clear. set_solver.
  - intros b' p. rewrite notar_votes_for_snoc, Hv, lookup_insert_Some. intros [[<- <-]|[Hne Hp]].
    + rewrite decide_True, decide_False by done. split; [done|]. by destruct (notar_votes_for s b L).
    + rewrite decide_False by congruence. by apply N2.
  - intros b' Hb'. apply lookup_insert_None in Hb' as [Hb' Hne]. rewrite notar_votes_for_snoc, Hv, decide_False by congruence.
    by apply N3.
Qed.

Lemma entry_add s L e m : E s = Some es -> entry_holds s L e -> authentic m -> vote_slot (vm_vote m) = s ->
  if entry_wants_vote e m then
    exists e' r, entry_add_vote e rm m = Some (e', r) /\ entry_holds s (L ++ [m]) e'
  else entry_holds s (L ++ [m]) e.
Proof using HE.
  intros Hes He Ha Hs. unfold entry_wants_vote, entry_add_vote.
  assert (forall v, vm_vote m = v -> v <> Skip s -> is_notarize_of s v = false -> entry_holds s (L ++ [m]) e) as Hother.
  { intros v Hv Hns Hnn. apply (entry_holds_eq s L); [| |done].
    - by rewrite skip_votes_snoc, Hv, decide_False.
    - by rewrite notar_votes_snoc, Hv, Hnn. }
  destruct (vm_vote m) as [s' b|s'|s'|s' b|s'|s' b] eqn:Hv; simpl in Hs; subst s'; try (by apply (Hother _ eq_refl)).
  - unfold notar_wants_vote. destruct (decide (vm_rank m ∈ vm_rank <$> notar_votes s L)) as [Hin|Hin].
    + rewrite bool_decide_true by (by apply (nh_voted _ _ _ (eh_notar _ _ _ He))). simpl.
      apply (entry_holds_eq s L); [| |done].
      * rewrite skip_votes_snoc, decide_False; [done|congruence].
      * rewrite notar_votes_snoc, Hv. simpl. rewrite bool_decide_true by done. by rewrite decide_True.
    + rewrite bool_decide_false by (by rewrite (nh_voted _ _ _ (eh_notar _ _ _ He))). simpl.
      destruct He as [H1' H2' H3']. rewrite H3'. destruct (notar_add_new s L (re_notar e) b m) as (e' & -> & He'); try done.
      simpl. eexists _, _. split; [done|]. split; [|done|done]. rewrite skip_votes_snoc, decide_False; [done|congruence].
  - pose proof (eh_skip _ _ _ He) as Hp.
    destruct (decide (vm_rank m ∈ vm_rank <$> skip_votes s L)) as [Hin|Hin].
    + destruct (partial_add_duplicate (Skip s) _ _ m Hes Hp Hv Ha Hin) as [_ ->].
      apply (entry_holds_eq s L); [| |done].
      * rewrite skip_votes_snoc. by rewrite decide_True, decide_True.
      * by rewrite notar_votes_snoc, Hv.
    + destruct (partial_add_new (Skip s) _ _ m Hes Hp Hv Ha Hin) as (-> & p' & -> & Hp'). simpl.
      eexists _, _. split; [done|]. destruct He as [H1' [N1 N2 N3] H3'].
      split; simpl; [by rewrite skip_votes_snoc, decide_True, decide_False| |done].
      split; intros *; rewrite ?notar_votes_snoc, ?notar_votes_for_snoc, Hv; simpl; rewrite ?decide_False by congruence; eauto.
Qed.

(** ** The certificates of an entry *)

Lemma max_by_key_spec {A} (key : A -> Z) (l : list A) :
  match max_by_key key l with
  | None => l = []
  | Some x => x ∈ l /\ forall y, y ∈ l -> key y <= key x
  end.
Proof using Type.
  clear. unfold max_by_key. induction l as [|x l IH] using rev_ind; [done|]. rewrite foldl_app. simpl.
  destruct (foldl _ None l) as [b|].
  - destruct IH as [Hb Hmax]. case_bool_decide; (split; [set_solver|]); intros y [Hy|Hy]%elem_of_app;
      try (apply list_elem_of_singleton in Hy as ->); try specialize (Hmax y Hy); lia.
  - subst l. split; [set_solver|]. intros y ->%list_elem_of_singleton. lia.
Qed.

(** The certificate of the votes [msgs], with the accounts it pays. *)
Definition skip_valid (s : Slot) (msgs : list VoteMessage) (c : option (SkipRewardCertificate * list Pubkey)) : Prop :=
  match c with
  | None => msgs = []
  | Some (c, l) => msgs <> [] /\ skr_slot c = s /\ list_to_set l = msgs_keys E s msgs /\ forall V,
      verify_base2 add_account (bincode_serialize (Skip s)) (skr_signature c) (skr_bitmap c) n (reward_lookup rm) V =
      (Ok tt, msgs_keys E s msgs ∪ V)
  end.
Definition notar_valid (s : Slot) (b : Hash) (msgs : list VoteMessage)
    (c : option (NotarRewardCertificate * list Pubkey)) : Prop :=
  match c with
  | None => msgs = []
  | Some (c, l) => msgs <> [] /\ nor_slot c = s /\ nor_block_id c = b /\ list_to_set l = msgs_keys E s msgs /\ forall V,
      verify_base2 add_account (bincode_serialize (Notarize s b)) (nor_signature c) (nor_bitmap c) n (reward_lookup rm) V =
      (Ok tt, msgs_keys E s msgs ∪ V)
  end.

Lemma skip_build_ok s msgs p : E s = Some es -> partial_holds (Skip s) n msgs p ->
  exists c, skip_build_cert p s = Some (Ok c) /\ skip_valid s msgs c.
Proof using HE H4.
  intros Hes Hp. unfold skip_build_cert. destruct (decide (msgs = [])) as [->|Hne].
  - unfold build_sig_bitmap. rewrite bool_decide_true by apply (ph_cnt _ _ _ _ Hp). by exists None.
  - destruct (partial_build (Skip s) msgs p Hes Hp Hne) as (z & bitmap & -> & Hlen & Hver). simpl.
    unfold skip_reward_try_new. rewrite bool_decide_false by lia. eexists. split; [done|]. simpl.
    rewrite (partial_accounts _ _ _ Hp). done.
Qed.
Lemma notar_build_ok s L e : E s = Some es -> notar_holds s L e ->
  exists b c, notar_build_cert e s = Some (Ok c) /\ notar_valid s b (notar_votes_for s b L) c /\
    forall b', (length (notar_votes_for s b' L) <= length (notar_votes_for s b L))%nat.
Proof using HE H4.
  intros Hes [_ N2 N3]. unfold notar_build_cert.
  pose proof (max_by_key_spec (fun x : Z * PartialCert => votes_seen x.2) (hash_iter (ne_partials e))) as Hm.
  destruct (max_by_key _ _) as [[b p]|].
  - destruct Hm as [Hin Hmax]. rewrite hash_iter_perm in Hin. apply elem_of_map_to_list in Hin.
    destruct (N2 b p Hin) as [Hp Hne]. destruct (partial_build (Notarize s b) _ p Hes Hp Hne) as (z & bitmap & -> & Hlen & Hver).
    simpl. unfold notar_reward_try_new. rewrite bool_decide_false by lia. eexists b, _. split; [done|]. split.
    + simpl. rewrite (partial_accounts _ _ _ Hp). done.
    + intros b'. destruct (ne_partials e !! b') as [p'|] eqn:Ep'; [|rewrite (N3 b' Ep'); simpl; lia].
      destruct (N2 b' p' Ep') as [Hp' _]. specialize (Hmax (b', p')). simpl in Hmax. unfold votes_seen in Hmax.
      rewrite (ph_cnt _ _ _ _ Hp), (ph_cnt _ _ _ _ Hp') in Hmax. apply Nat2Z.inj_le, Hmax.
      rewrite hash_iter_perm. by apply elem_of_map_to_list.
  - assert (forall b, notar_votes_for s b L = []) as Hnil.
    { intros b. apply N3. pose proof (hash_iter_perm (ne_partials e)) as Hperm. rewrite Hm in Hperm.
      apply Permutation_nil_l in Hperm. symmetry in Hperm. apply map_to_list_empty_iff in Hperm. by rewrite Hperm. }
    exists 0, None. split; [done|]. split; [by apply Hnil|]. intros b'. by rewrite !Hnil.
Qed.

(** What a replaying node concludes. *)
Definition reward_of (s : Slot) (V : gset Z) : option ValidatedRewardCert :=
  if bool_decide (V = ∅) then None else Some (mkValidatedReward V s).

Lemma msgs_keys_nil s : msgs_keys E s [] = ∅.
Proof using Type. done. Qed.
Lemma certs_accepted s b skips notars sc nc bank :
  s + NUM_SLOTS_FOR_REWARD <= u64_max -> skip_valid s skips sc -> notar_valid s b notars nc ->
  rb_slot bank = s + NUM_SLOTS_FOR_REWARD -> epoch_stakes_from_slot bank s = Some es ->
  let r := combine_certs sc nc in let V := msgs_keys E s skips ∪ msgs_keys E s notars in
  list_to_set (brs_validators r) = V /\ reward_try_new bank (brs_skip r) (brs_notar r) = Ok (reward_of s V).
Proof using Type.
  intros Hmax Hsc Hnc Hb Hes. cbv zeta. unfold reward_try_new, extract_slot.
  destruct sc as [[sc sl]|], nc as [[nc nl]|]; simpl in *.
  - destruct Hsc as (_ & Hs & Hsl & Hsv), Hnc as (_ & Hs' & Hb' & Hnl & Hnv).
    rewrite Hs, Hs', Hb'. rewrite bool_decide_true by done. simpl. rewrite sat_add_exact, bool_decide_true by lia. simpl.
    rewrite Hes, Hsv, Hnv. simpl. rewrite list_to_set_app_L, Hsl, Hnl, union_empty_r_L. split; [done|].
    rewrite (union_comm_L (msgs_keys E s notars)). unfold reward_of. by case_bool_decide.
  - subst notars. destruct Hsc as (_ & Hs & Hsl & Hsv). rewrite Hs, sat_add_exact, bool_decide_true by lia. simpl.
    rewrite Hes, Hsv. simpl. rewrite msgs_keys_nil, Hsl, !union_empty_r_L. split; [done|]. unfold reward_of. by case_bool_decide.
  - subst skips. destruct Hnc as (_ & Hs' & Hb' & Hnl & Hnv). rewrite Hs', Hb', sat_add_exact, bool_decide_true by lia. simpl.
    rewrite Hes, Hnv. simpl. rewrite msgs_keys_nil, Hnl, union_empty_r_L, union_empty_l_L. split; [done|]. unfold reward_of. by case_bool_decide.
  - subst. rewrite !msgs_keys_nil, union_empty_r_L. split; [done|]. unfold reward_of. by rewrite bool_decide_true.
Qed.
End at_slot.

(** ** The container *)

Lemma other_slot_votes t L m : vote_slot (vm_vote m) <> t ->
  skip_votes t (L ++ [m]) = skip_votes t L /\ notar_votes t (L ++ [m]) = notar_votes t L.
Proof using Type.
  intros Hne. rewrite skip_votes_snoc, notar_votes_snoc. split.
  - destruct (decide _) as [Hv|]; [|done]. by rewrite Hv in Hne.
  - destruct (is_notarize_of t (vm_vote m)) eqn:Ev; [|done]. destruct (vm_vote m); simpl in Ev; try done.
    apply bool_decide_eq_true in Ev. by subst.
Qed.

(** Every entry holds some votes of its slot, that of slot [t] those of [L]. *)
Record rewards_inv (t : Slot) (L : list VoteMessage) (votes : gmap Z RewardEntry) : Prop := {
  ri_entries s e : votes !! s = Some e -> exists es M, E s = Some es /\ entry_holds es s M e;
  ri_entry es e : E t = Some es -> votes !! t = Some e -> entry_holds es t L e;
  ri_none : votes !! t = None -> skip_votes t L = [] /\ notar_votes t L = [];
}.

Lemma rewards_inv_empty t : rewards_inv t [] ∅.
Proof using Type. split; [intros s e|intros es e|]; by rewrite ?lookup_empty. Qed.
Lemma rewards_inv_eq t L L' votes : skip_votes t L' = skip_votes t L -> notar_votes t L' = notar_votes t L ->
  rewards_inv t L votes -> rewards_inv t L' votes.
Proof using Type.
  intros E1 E2 [R1 R2 R3]. split; [done| |by rewrite E1, E2].
  intros es e Hes He. eapply entry_holds_eq; [done|done|]. by apply R2.
Qed.
Lemma rewards_inv_split t L votes k : k <= t -> rewards_inv t L votes -> rewards_inv t L (split_off votes k).
Proof using Type.
  intros Hk [R1 R2 R3]. unfold split_off. split.
  - intros s e [He _]%map_lookup_filter_Some. eauto.
  - intros es e Hes [He _]%map_lookup_filter_Some. eauto.
  - intros [Hn|Hn]%map_lookup_filter_None; [eauto|]. apply R3.
    destruct (votes !! t) as [e|] eqn:Et; [|done]. by specialize (Hn e eq_refl).
Qed.
(** Before its first vote slot [t] has the empty entry. *)
Lemma rewards_inv_entry t L votes es : E t = Some es -> rewards_inv t L votes ->
  entry_holds es t L (default (reward_entry_new (rank_map_len (es_rank_map es))) (votes !! t)).
Proof using Type.
  intros Hes [_ R2 R3]. destruct (votes !! t) as [e|]; simpl; [by apply R2|]. destruct (R3 eq_refl) as [E1 E2].
  apply (entry_holds_eq es t []); [by rewrite E1|by rewrite E2|apply entry_new_holds].
Qed.

(** The setting: this node leads slot [t + 8], whose reward slot is [t]. *)
Record reward_slot_ok (id : Pubkey) (leader : Slot -> option Pubkey) (t : Slot) (es : VersionedEpochStakes) : Prop := {
  rs_stakes : E t = Some es;
  rs_bounds : 0 <= t /\ t + NUM_SLOTS_FOR_REWARD <= u64_max;
  rs_leader : leader (t + NUM_SLOTS_FOR_REWARD) = Some id;
}.
(** A root bank read while the votes of [t] are collected. *)
Record reward_bank_ok (t : Slot) (es : VersionedEpochStakes) (bank : RootBank) : Prop := {
  rk_fits : bank_fits E bank;
  rk_stakes : epoch_stakes_from_slot bank t = Some es;
  rk_slot : 0 <= rb_slot bank < t + NUM_SLOTS_FOR_REWARD;
}.

Lemma wants_vote_target id leader t es bank m : reward_slot_ok id leader t es -> reward_bank_ok t es bank ->
  vote_slot (vm_vote m) = t -> wants_vote id leader (rb_slot bank) m = false ->
  forall L, skip_votes t (L ++ [m]) = skip_votes t L /\ notar_votes t (L ++ [m]) = notar_votes t L.
Proof using Type.
  intros [_ Hb Hl] [_ _ Hslot] Hs Hw L. rewrite skip_votes_snoc, notar_votes_snoc.
  unfold wants_vote in Hw. rewrite Hs, sat_add_exact, bool_decide_false, Hl, bool_decide_true in Hw by (done || lia).
  by destruct (vm_vote m).
Qed.

(** The first vote of a slot is wanted. *)
Lemma entry_new_wants es m id leader root : E (vote_slot (vm_vote m)) = Some es -> authentic m ->
  wants_vote id leader root m = true ->
  entry_wants_vote (reward_entry_new (rank_map_len (es_rank_map es))) m = true.
Proof using HE.
  intros Hes Ha Hw. pose proof (authentic_rank es m Hes Ha) as Hr. unfold wants_vote in Hw. unfold entry_wants_vote.
  destruct (vm_vote m); try done.
  simpl. unfold partial_wants_vote. simpl. by rewrite lookup_replicate_2.
Qed.

(** A vote at the entry of its slot, which holds the votes [M]. *)
Lemma rewards_slot_step es s M votes m id leader root :
  E s = Some es -> vote_slot (vm_vote m) = s -> authentic m ->
  entry_holds es s M (default (reward_entry_new (rank_map_len (es_rank_map es))) (votes !! s)) ->
  exists e', entry_holds es s (M ++ [m]) e' /\ (wants_vote id leader root m = true ->
    (if negb (rewards_wants_vote id leader votes root m) then Some votes
     else '(entry, _) ← entry_add_vote (default (reward_entry_new (rank_map_len (es_rank_map es))) (votes !! s)) (es_rank_map es) m;
          Some (<[s := entry]> votes)) = Some (<[s := e']> votes)).
Proof using HE.
  intros Hes Hs Ha He. pose proof (entry_add es s M _ m Hes He Ha Hs) as Hadd. unfold rewards_wants_vote.
  destruct (entry_wants_vote (default _ _) m) eqn:Ew.
  - destruct Hadd as (e' & r & -> & He'). exists e'. split; [done|]. intros ->. simpl. rewrite Hs.
    destruct (votes !! s) as [e|]; simpl in *; [by rewrite Ew|done].
  - eexists. split; [exact Hadd|]. intros Hw. rewrite Hw. simpl. rewrite Hs. destruct (votes !! s) as [e|] eqn:Ev; simpl in *.
    + rewrite Ew. simpl. by rewrite insert_id.
    + subst s. by rewrite (entry_new_wants es m id leader root) in Ew.
Qed.

Lemma rewards_add_ok id leader t es bank L votes m :
  reward_slot_ok id leader t es -> reward_bank_ok t es bank -> rewards_inv t L votes -> authentic m ->
  exists votes', rewards_add_vote id leader votes bank m = Some votes' /\ rewards_inv t (L ++ [m]) votes'.
Proof using HE.
  intros Hset Hbank Hinv Ha. pose proof (rs_stakes _ _ _ _ Hset) as Hes. unfold rewards_add_vote, get_rank_map.
  set (s := vote_slot (vm_vote m)).
  assert (s <> t -> forall v, rewards_inv t L v -> rewards_inv t (L ++ [m]) v) as Hother.
  { intros Hne v. destruct (other_slot_votes t L m Hne). by apply rewards_inv_eq. }
  destruct (epoch_stakes_from_slot bank s) as [es'|] eqn:Es'; simpl.
  2: { eexists. split; [done|]. apply Hother; [|done]. intros ->. by rewrite (rk_stakes _ _ _ Hbank) in Es'. }
  pose proof (rk_fits _ _ _ Hbank _ _ Es') as HEs.
  apply (rewards_inv_split _ _ _ (rb_slot bank -s NUM_SLOTS_FOR_REWARD)) in Hinv.
  2: { pose proof (rk_slot _ _ _ Hbank). pose proof (rs_bounds _ _ _ _ Hset). unfold sat_sub, NUM_SLOTS_FOR_REWARD in *. lia. }
  set (votes1 := split_off votes _) in *. clearbody votes1.
  destruct (wants_vote id leader (rb_slot bank) m) eqn:Ew.
  2: { unfold rewards_wants_vote. rewrite Ew. eexists. split; [done|]. destruct (decide (s = t)) as [Hst|Hst]; [|by apply Hother].
       destruct (wants_vote_target id leader t es bank m Hset Hbank Hst Ew L). by eapply rewards_inv_eq. }
  assert (exists M, entry_holds es' s M (default (reward_entry_new (rank_map_len (es_rank_map es'))) (votes1 !! s)) /\
    (s = t -> M = L)) as (M & HM & HML).
  { destruct (decide (s = t)) as [Hst|Hst].
    - rewrite Hst in *. exists L. split; [|done]. by apply rewards_inv_entry.
    - destruct (votes1 !! s) as [e|] eqn:Ee; simpl.
      + destruct (ri_entries _ _ _ Hinv _ _ Ee) as (es2 & M & Hes2 & HM). assert (es2 = es') as -> by congruence. by exists M.
      + exists []. split; [apply entry_new_holds|done]. }
  destruct (rewards_slot_step es' s M votes1 m id leader (rb_slot bank) HEs eq_refl Ha HM) as (e' & He' & Hstep).
  eexists. split; [by apply Hstep|]. destruct Hinv as [R1 R2 R3]. split.
  - intros s' e [[<- <-]|[_ Hs']]%lookup_insert_Some; [by exists es', (M ++ [m])|eauto].
  - intros es2 e Hes2 [[Hst <-]|[Hst He]]%lookup_insert_Some.
    + rewrite (HML Hst), Hst in He'. by assert (es2 = es') as -> by congruence.
    + destruct (other_slot_votes t L m Hst). eapply entry_holds_eq; [done|done|]. by apply R2.
  - intros [Hn Hst]%lookup_insert_None. destruct (other_slot_votes t L m Hst) as [-> ->]. by apply R3.
Qed.

(** Earlier certificates are built without touching slot [t]. *)
Lemma entry_build_total es s M e : E s = Some es -> entry_holds es s M e ->
  exists b sc nc, entry_build_certs e s = Some (Ok (combine_certs sc nc)) /\
    skip_valid es s (skip_votes s M) sc /\ notar_valid es s b (notar_votes_for s b M) nc /\
    forall b', (length (notar_votes_for s b' M) <= length (notar_votes_for s b M))%nat.
Proof using HE H4.
  intros Hes [He1 He2 _]. destruct (notar_build_ok es s M _ Hes He2) as (b & nc & Hn & Hnv & Hmax).
  destruct (skip_build_ok es s _ _ Hes He1) as (sc & Hs & Hsv). exists b, sc, nc. split; [|done].
  unfold entry_build_certs. rewrite Hn. simpl. rewrite Hs. done.
Qed.
Lemma rewards_build_ok t L votes bank_slot : bank_slot < t + NUM_SLOTS_FOR_REWARD -> rewards_inv t L votes ->
  exists votes' r, rewards_build_certs votes bank_slot = Some (votes', r) /\ rewards_inv t L votes'.
Proof using HE H4.
  intros Hlt Hinv. unfold rewards_build_certs, checked_sub. case_bool_decide as Hb; [|eauto].
  apply (rewards_inv_split _ _ _ (bank_slot - NUM_SLOTS_FOR_REWARD)) in Hinv; [|lia].
  destruct (split_off votes _ !! _) as [e|] eqn:Ee; [|eauto].
  destruct (ri_entries _ _ _ Hinv _ _ Ee) as (es & M & Hes & HM).
  destruct (entry_build_total es _ M e Hes HM) as (b & sc & nc & -> & _). simpl. eexists _, _. split; [done|].
  destruct Hinv as [R1 R2 R3]. split.
  - intros s e' [_ He']%lookup_delete_Some. eauto.
  - intros es' e' Hes' [_ He']%lookup_delete_Some. eauto.
  - rewrite lookup_delete_ne by lia. done.
Qed.

(** ** The loop *)

(** Messages while the votes of slot [t] are collected: requests for earlier blocks
    (the block creation loop asks in increasing order) and verified votes. *)
Definition reward_msg_ok (t : Slot) (es : VersionedEpochStakes) (m : RewardMessage) : Prop :=
  match m with
  | RewardBuild bank_slot => bank_slot < t + NUM_SLOTS_FOR_REWARD
  | RewardVote bank votes => reward_bank_ok t es bank /\ Forall authentic votes
  | RewardDisconnected => False
  | RewardTimeout => True
  end.
Definition collected (msgs : list RewardMessage) : list VoteMessage :=
  concat ((fun m => match m with RewardVote _ votes => votes | _ => [] end) <$> msgs).

Lemma rewards_add_votes_ok id leader t es bank vs : forall L votes,
  reward_slot_ok id leader t es -> reward_bank_ok t es bank -> rewards_inv t L votes -> Forall authentic vs ->
  exists votes', rewards_add_votes id leader votes bank vs = Some votes' /\ rewards_inv t (L ++ vs) votes'.
Proof using HE.
  induction vs as [|m vs IH]; intros L votes Hset Hbank Hinv Hvs; simpl; [exists votes; by rewrite app_nil_r|].
  apply Forall_cons in Hvs as [Hm Hvs]. destruct (rewards_add_ok id leader t es bank L votes m) as (votes1 & -> & H1'); try done.
  simpl. destruct (IH (L ++ [m]) votes1) as (votes2 & -> & H2'); try done. exists votes2. by rewrite <-app_assoc in H2'.
Qed.
Lemma rewards_run_ok id leader t es msgs : forall L c,
  reward_slot_ok id leader t es -> Forall (reward_msg_ok t es) msgs -> connected (cr_reward_certs_sender c) = true ->
  rewards_inv t L (cr_votes c) ->
  exists c', rewards_run id leader c msgs = Some c' /\ rewards_inv t (L ++ collected msgs) (cr_votes c') /\
    connected (cr_reward_certs_sender c') = true.
Proof using HE H4.
  induction msgs as [|m msgs IH]; intros L c Hset Hms Hc Hinv; simpl.
  { exists c. unfold collected. simpl. by rewrite app_nil_r. }
  apply Forall_cons in Hms as [Hm Hms]. destruct m as [b|bank vs| |]; simpl in *.
  - destruct (rewards_build_ok t L _ b Hm Hinv) as (votes1 & r & -> & H1'). simpl. unfold send. rewrite Hc.
    by apply (IH L (mkConsensusRewards votes1 (push_sent _ r))).
  - destruct Hm as [Hb Hvs]. destruct (rewards_add_votes_ok id leader t es bank vs L (cr_votes c)) as (votes1 & -> & H1'); try done.
    simpl. destruct (IH (L ++ vs) (mkConsensusRewards votes1 (cr_reward_certs_sender c))) as (c' & Hc' & Hi & Hcc); try done.
    exists c'. by rewrite <-app_assoc in Hi.
  - done.
  - by apply IH.
Qed.

(** The accounts that slot [t]'s certificates pay when they name block [b]. *)
Definition rewarded (t : Slot) (b : Hash) (L : list VoteMessage) : gset Z :=
  msgs_keys E t (skip_votes t L) ∪ msgs_keys E t (notar_votes_for t b L).

Lemma rewards_final_build t es L votes : 0 <= t -> t + NUM_SLOTS_FOR_REWARD <= u64_max -> E t = Some es -> rewards_inv t L votes ->
  exists votes' resp b, rewards_build_certs votes (t + NUM_SLOTS_FOR_REWARD) = Some (votes', Ok resp) /\
    (forall b', (length (notar_votes_for t b' L) <= length (notar_votes_for t b L))%nat) /\
    list_to_set (brs_validators resp) = rewarded t b L /\
    forall bank, rb_slot bank = t + NUM_SLOTS_FOR_REWARD -> epoch_stakes_from_slot bank t = Some es ->
      reward_try_new bank (brs_skip resp) (brs_notar resp) = Ok (reward_of t (rewarded t b L)).
Proof using HE H4.
  intros H0' Hmax Hes Hinv. unfold rewards_build_certs, checked_sub. rewrite bool_decide_true by lia.
  replace (t + NUM_SLOTS_FOR_REWARD - NUM_SLOTS_FOR_REWARD) with t by lia.
  apply (rewards_inv_split _ _ _ t) in Hinv; [|lia]. destruct (split_off votes t !! t) as [e|] eqn:Ee.
  - pose proof (ri_entry _ _ _ Hinv es e Hes Ee) as He.
    destruct (entry_build_total es t L e Hes He) as (b & sc & nc & -> & Hsv & Hnv & Hm). simpl.
    eexists _, _, b. split; [done|]. split; [done|].
    split; [|intros bank Hb Hbs; by apply (certs_accepted es t b _ _ sc nc)].
    unfold rewarded. destruct sc as [[sc sl]|], nc as [[nc nl]|]; simpl in *.
    + destruct Hsv as (_ & _ & <- & _), Hnv as (_ & _ & _ & <- & _). by rewrite list_to_set_app_L.
    + rewrite Hnv, msgs_keys_nil, union_empty_r_L. apply Hsv.
    + rewrite Hsv, msgs_keys_nil, union_empty_l_L. apply Hnv.
    + by rewrite Hsv, Hnv, msgs_keys_nil, union_empty_r_L.
  - destruct (ri_none _ _ _ Hinv Ee) as [E1 E2].
    assert (forall b, notar_votes_for t b L = []) as E3 by (intros b; unfold notar_votes_for; by rewrite E2).
    eexists _, _, 0. split; [done|]. split; [intros b'; by rewrite !E3|].
    unfold rewarded. rewrite E1, E3, msgs_keys_nil, union_empty_r_L. split; [done|]. intros bank _ _.
    unfold reward_of. by rewrite bool_decide_true.
Qed.

(** ** Accepted certificates *)

Lemma extract_slot_spec current skip notar s : extract_slot current skip notar = Ok (Some s) ->
  s +s NUM_SLOTS_FOR_REWARD = current /\ (forall c, skip = Some c -> skr_slot c = s) /\
  (forall c, notar = Some c -> nor_slot c = s).
Proof using Type.
  clear. unfold extract_slot. destruct skip as [c|], notar as [c'|]; [| | |done]; simpl.
  - case_bool_decide as Hc; [|done]. case_bool_decide; [|done]. simpl. intros [= <-]. split; [done|].
    by split; intros ? [= <-].
  - case_bool_decide; [|done]. intros [= <-]. split; [done|]. by split; intros ? [=]; subst.
  - case_bool_decide; [|done]. intros [= <-]. split; [done|]. by split; intros ? [=]; subst.
Qed.

Lemma accounts_sound s v es {S} `{!AsSignatureAffine S} (sig : S) bitmap V V' :
  E s = Some es ->
  verify_base2 add_account (bincode_serialize v) sig bitmap (rank_map_len (es_rank_map es)) (reward_lookup (es_rank_map es)) V
    = (Ok tt, V') ->
  forall k, k ∈ V' -> k ∈ V \/ signed_vote E s k v.
Proof using H4.
  intros Hes. unfold verify_base2. destruct (decode _ _) as [[bits|]|]; [|done|done].
  intros (ents & HF & -> & Hs & _)%verify_single_sound k. rewrite fold_accounts, elem_of_union, elem_of_list_to_set.
  intros [Hk|Hk]; [right|by left]. apply list_elem_of_fmap in Hk as ([k' pk] & -> & Hin).
  apply list_elem_of_lookup in Hin as [i Hi]. destruct (Forall2_lookup_r _ _ _ _ _ HF Hi) as (r & _ & Hr).
  unfold reward_lookup in Hr. apply fmap_Some in Hr as (e & He & [= -> ->]). exists e. simpl. split; [|split; [done|]].
  - unfold get_pubkey_stake_entry in He. case_bool_decide; [|done]. unfold slot_entries. rewrite Hes. by eapply list_elem_of_lookup_2.
  - rewrite Forall_forall in Hs. specialize (Hs (en_vote_account_pubkey e, en_bls_pubkey e)).
    unfold serialize_vote. rewrite <-bincode_wincode. apply Hs. by eapply list_elem_of_lookup_2.
Qed.
End rewards.

(** ** Example: the validators of [Example3] *)

Module RewardExample.
#[export] Existing Instance additive_bls.
#[export] Existing Instance additive_bls_laws.
#[export] Existing Instance VerifyExample.oracle.
#[export] Existing Instance VerifyExample.oracle_laws.
#[export] Instance reward_oracle : RewardOps := {|
  bincode_serialize := VerifyExample.serialize;
  hash_iter := fun A m => map_to_list m;
  hash_set_iter := elements;
|}.
#[export] Instance reward_oracle_laws : RewardLaws.
Proof.
  split; try done.
  - intros bits bytes Hl [= <-]. simpl. rewrite length_fmap. unfold MAXIMUM_VALIDATORS in Hl. lia.
Qed.
Definition leader (s : Slot) : option Pubkey := if bool_decide (s = 13) then Some 50 else None.
Definition vote (v : Vote) (pk rank : Z) : VoteMessage := mkVoteMessage v (VerifyExample.sign pk (VerifyExample.serialize v)) rank.
Definition msgs : list RewardMessage :=
  [RewardBuild 12; RewardVote Example3.bank [vote (Notarize 5 7) 101 0; vote (Notarize 5 7) 102 1]; RewardTimeout;
   RewardVote Example3.bank [vote (Skip 5) 103 2; vote (Notarize 5 7) 101 0]].
End RewardExample.

(** ** Properties *)

#[local] Existing Instance additive_bls.
#[local] Existing Instance additive_bls_laws.
#[local] Existing Instance VerifyExample.oracle.
#[local] Existing Instance VerifyExample.oracle_laws.
#[local] Existing Instance RewardExample.reward_oracle.
#[local] Existing Instance RewardExample.reward_oracle_laws.

(** C25: The leader of slot [t + 8] is paid for exactly what it collected.  Whatever
    verified votes and requests for earlier blocks the rewards thread has handled, it
    does not panic, and the certificates it answers with are accepted by every node
    that replays the block; the accounts they pay are those whose skip vote for [t]
    arrived and those whose first notarize vote for [t] was for the block with the
    most such votes. *)
Theorem reward_certs_exact `{BlsVerify, !BlsLaws, !BlsVerifyLaws, RewardOps, !RewardLaws} E id leader t es sender msgs
    (HE : stakes_ok E) (Hset : reward_slot_ok E id leader t es) (Hsend : connected sender = true)
    (Hmsgs : Forall (reward_msg_ok E t es) msgs) :
  let L := collected msgs in
  exists c c' resp b,
    rewards_run id leader (mkConsensusRewards ∅ sender) msgs = Some c /\
    rewards_turn id leader c (RewardBuild (t + NUM_SLOTS_FOR_REWARD)) = Some (c', true) /\
    sent (cr_reward_certs_sender c') = sent (cr_reward_certs_sender c) ++ [Ok resp] /\
    (forall b', (length (notar_votes_for t b' L) <= length (notar_votes_for t b L))%nat) /\
    list_to_set (brs_validators resp) = rewarded E t b L /\
    forall bank, rb_slot bank = t + NUM_SLOTS_FOR_REWARD -> epoch_stakes_from_slot bank t = Some es ->
      reward_try_new bank (brs_skip resp) (brs_notar resp) = Ok (reward_of t (rewarded E t b L)).
Proof.
  intros L. pose proof Hset as [Hes [H0' Hmax] _].
  destruct (rewards_run_ok E HE id leader t es msgs [] (mkConsensusRewards ∅ sender) Hset Hmsgs Hsend (rewards_inv_empty E t))
    as (c & Hrun & Hinv & Hc).
  destruct (rewards_final_build E HE t es L (cr_votes c) H0' Hmax Hes Hinv) as (votes' & resp & b & Hb & Hrest).
  exists c, (mkConsensusRewards votes' (push_sent (cr_reward_certs_sender c) (Ok resp))), resp, b.
  split; [done|]. split; [|done]. cbn [rewards_turn]. rewrite Hb. simpl. unfold send. by rewrite Hc.
Qed.
Lemma reward_certs_exact_witness :
  exists c' resp b, sent (cr_reward_certs_sender c') = [Ok reward_certs_default; Ok resp] /\
    rewarded Example3.E 5 b (collected RewardExample.msgs) = {[1; 2; 3]} /\
    reward_try_new (mkRootBank 13 None (fun _ => 0) {[0 := Example3.stakes]}) (brs_skip resp) (brs_notar resp) =
    Ok (Some (mkValidatedReward {[1; 2; 3]} 5)).
Proof.
  assert (forall v pk rank, In (pk, rank) [(101, 0); (102, 1); (103, 2)] -> VerifyExample.signs pk (VerifyExample.serialize v) = true ->
    authentic Example3.E (RewardExample.vote v pk rank)) as Hauth.
  { intros v pk rank Hin Hs. split; [|split; [done|]].
    - destruct Hin as [[= <- <-]|[[= <- <-]|[[= <- <-]|[]]]]; done.
    - destruct Hin as [[= <- <-]|[[= <- <-]|[[= <- <-]|[]]]]; eexists; (split; [vm_compute; reflexivity|]; split; [exact Hs|reflexivity]). }
  assert (reward_bank_ok Example3.E 5 Example3.stakes Example3.bank) as Hbank
    by (split; [apply Example3.bank_fits_E|vm_compute; reflexivity|by vm_compute]).
  destruct (reward_certs_exact Example3.E 50 RewardExample.leader 5 Example3.stakes (mkSender [] true false) RewardExample.msgs
    Example3.stakes_ok_E) as (c & c' & resp & b & Hrun & Hturn & Hsent & Hmax & Hval & Hacc).
  - split; [reflexivity|by vm_compute|by vm_compute].
  - reflexivity.
  - unfold RewardExample.msgs. repeat (apply Forall_cons; split); try (split; [exact Hbank|]); try apply Forall_nil_2; try done.
    all: repeat (apply Forall_cons; split; [apply Hauth; [simpl; tauto|by vm_compute]|]); try apply Forall_nil_2.
  - assert (notar_votes 5 (collected RewardExample.msgs) =
      [RewardExample.vote (Notarize 5 7) 101 0; RewardExample.vote (Notarize 5 7) 102 1]) as Hnv by (vm_compute; reflexivity).
    assert (b = 7) as ->.
    { destruct (decide (b = 7)) as [|Hb]; [done|]. exfalso. specialize (Hmax 7). unfold notar_votes_for in Hmax.
      rewrite Hnv, !(filter_cons_False (fun m => vm_vote m = Notarize 5 b)) in Hmax by (unfold RewardExample.vote; simpl; congruence).
      vm_compute in Hmax. lia. }
    assert (rewarded Example3.E 5 7 (collected RewardExample.msgs) = {[1; 2; 3]}) as Hr by (vm_compute; reflexivity).
    exists c', resp, 7. split; [|split; [exact Hr|]].
    + rewrite Hsent. assert (sent (cr_reward_certs_sender c) = [Ok reward_certs_default]) as ->; [|done].
      assert (Some (sent (cr_reward_certs_sender c)) = Some [Ok reward_certs_default]) as Heq; [|by injection Heq].
      etransitivity; [symmetry; exact (f_equal (option_map (fun c => sent (cr_reward_certs_sender c))) Hrun)|]. vm_compute. reflexivity.
    + rewrite Hr in Hacc. rewrite Hacc; [|reflexivity|vm_compute; reflexivity]. vm_compute. reflexivity.
Defined.

(** C26: Nobody is paid for a vote it did not cast: from any certificates a leader may
    put into a footer, the accounts that are rewarded have signed a skip vote for the
    reward slot, or a notarize vote for the one block the certificate names, and the
    reward slot is eight slots before the block. *)
Theorem reward_accepted_sound `{BlsVerify, !BlsVerifyLaws, RewardOps, !RewardLaws} E bank skip notar vr
    (Hbank : bank_fits E bank) (Hok : reward_try_new bank skip notar = Ok (Some vr)) :
  vr_validators vr <> ∅ /\ vr_reward_slot vr +s NUM_SLOTS_FOR_REWARD = rb_slot bank /\
  forall k, k ∈ vr_validators vr ->
    (is_Some skip /\ signed_vote E (vr_reward_slot vr) k (Skip (vr_reward_slot vr))) \/
    (exists c, notar = Some c /\ signed_vote E (vr_reward_slot vr) k (Notarize (vr_reward_slot vr) (nor_block_id c))).
Proof.
  unfold reward_try_new in Hok. destruct (extract_slot _ skip notar) as [[s|]|] eqn:Ex; [|done|done].
  destruct (extract_slot_spec _ _ _ _ Ex) as (Hs & Hss & Hns).
  destruct (epoch_stakes_from_slot bank s) as [es|] eqn:Ees; [|done]. apply Hbank in Ees.
  destruct (match skip with Some _ => _ | None => _ end) as [[[]|] V] eqn:E1; [|done].
  destruct (match notar with Some _ => _ | None => _ end) as [[[]|] V'] eqn:E2; [|done].
  case_bool_decide as Hne; [done|]. injection Hok as <-. simpl. split; [done|]. split; [done|]. intros k Hk.
  assert (k ∈ V' -> k ∈ V \/ exists c, notar = Some c /\ signed_vote E s k (Notarize s (nor_block_id c))) as HV'.
  { intros Hk'. destruct notar as [c|]; [|injection E2 as <-; by left].
    rewrite (Hns c eq_refl) in E2. destruct (accounts_sound E s _ es _ _ _ _ Ees E2 k Hk'); eauto. }
  destruct (HV' Hk) as [HkV|]; [|by right]. left. destruct skip as [c|]; [|injection E1 as <-; set_solver].
  rewrite (Hss c eq_refl) in E1. destruct (accounts_sound E s _ es _ _ _ _ Ees E1 k HkV); [set_solver|eauto].
Qed.
Lemma reward_accepted_sound_witness :
  let skip := mkSkipReward 5 (mkCompressed 0) [0; 0; 0; 2] in
  let notar := mkNotarReward 5 7 (mkCompressed 0) [0; 2] in
  let bank := mkRootBank 13 None (fun _ => 0) {[0 := Example3.stakes]} in
  reward_try_new bank (Some skip) (Some notar) = Ok (Some (mkValidatedReward {[1; 3]} 5)) /\
  ((is_Some (Some skip) /\ signed_vote Example3.E 5 3 (Skip 5)) \/
   (exists c, Some notar = Some c /\ signed_vote Example3.E 5 3 (Notarize 5 (nor_block_id c)))).
Proof.
  intros skip notar bank.
  assert (reward_try_new bank (Some skip) (Some notar) = Ok (Some (mkValidatedReward {[1; 3]} 5))) as Hok by (vm_compute; reflexivity).
  split; [exact Hok|].
  assert (bank_fits Example3.E bank) as Hb by (intros s es; unfold epoch_stakes_from_slot; simpl; by rewrite lookup_singleton_eq).
  destruct (reward_accepted_sound Example3.E bank _ _ _ Hb Hok) as (_ & _ & Hk). apply (Hk 3). simpl. set_solver.
Defined.
