(* ===== verification/VoteReward.v ===== *)
(** * Paying vote rewards

    [runtime/src/block_component_processor/vote_reward.rs] and
    [vote_reward/epoch_inflation_account_state.rs]: the validators of a block's
    reward certificates, and the block's leader, are credited with their share of
    the epoch's inflation.  The credits live in the vote accounts: the part of
    [programs/vote/src/vote_state/handler.rs] this uses is modelled here too.  The
    serialization of a vote state is external ([VoteStateOps]). *)

From S2P Require Import Prelude.
From S2P Require Import Messages.
From S2P Require Import EpochStakes.
From S2P Require Import CertBuilder.
From S2P Require Import Finalization.
From S2P Require Import CertVerify.
From S2P Require Import BankForks.
From S2P Require Import Rewards.

(** ** Vote states *)

(** [Lockout::new] has a confirmation count of one. *)
Record LandedVote := mkLandedVote { lv_slot : Slot; lv_confirmation_count : Z; lv_latency : Z }.

(** The fields of [VoteStateV4] that rewards change; [Rest] are the others. *)
Record VoteStateV4 (Rest : Type) := mkVoteState {
  vs_epoch_credits : list (Z * Z * Z);
  vs_root_slot : option Slot;
  vs_votes : list LandedVote;
  vs_rest : Rest;
}.
Arguments mkVoteState {Rest} _ _ _ _.
Arguments vs_epoch_credits {Rest} _.
Arguments vs_root_slot {Rest} _.
Arguments vs_votes {Rest} _.
Arguments vs_rest {Rest} _.
Inductive VoteStateVersions (Rest : Type) :=
  | VsUninitialized
  | VsV1_14_11
  | VsV3
  | VsV4 (state : VoteStateV4 Rest).
Arguments VsUninitialized {Rest}.
Arguments VsV1_14_11 {Rest}.
Arguments VsV3 {Rest}.
Arguments VsV4 {Rest} _.

(** The fields of an [AccountSharedData]. *)
Record Account := mkAccount {
  ac_lamports : Z;
  ac_data : list Z;
  ac_owner : Z;
  ac_executable : bool;
  ac_rent_epoch : Z;
}.

(** [bincode] of vote states, where serializing into a buffer fails when the state
    does not fit, and [AccountSharedData::new] with the lamports, the length of the
    data and the owner it is given; what a new account has in its other fields is up
    to it. *)
Class VoteStateOps := {
  VoteStateRest : Type;
  vote_state_deserialize : list Z -> option (VoteStateVersions VoteStateRest);
  vote_state_serialize_into : VoteStateV4 VoteStateRest -> list Z -> option (list Z);
  account_shared_data_new : Z -> nat -> Z -> Account;
}.
Class VoteStateLaws `{VoteStateOps} := {
  vote_state_round_trip s buffer data : vote_state_serialize_into s buffer = Some data ->
    length data = length buffer /\ vote_state_deserialize data = Some (VsV4 s);
  account_new_lamports lamports space owner : ac_lamports (account_shared_data_new lamports space owner) = lamports;
  account_new_space lamports space owner : length (ac_data (account_shared_data_new lamports space owner)) = space;
  account_new_owner lamports space owner : ac_owner (account_shared_data_new lamports space owner) = owner;
}.

Definition MAX_EPOCH_CREDITS_HISTORY : nat := 64.

Section handler.
Context {Rest : Type}.
Implicit Type s : VoteStateV4 Rest.

Definition with_epoch_credits s l : VoteStateV4 Rest := mkVoteState l (vs_root_slot s) (vs_votes s) (vs_rest s).
Definition set_root_slot s r : VoteStateV4 Rest := mkVoteState (vs_epoch_credits s) r (vs_votes s) (vs_rest s).
Definition set_votes s v : VoteStateV4 Rest := mkVoteState (vs_epoch_credits s) (vs_root_slot s) v (vs_rest s).
Definition try_new_from_vote_state_versions (v : VoteStateVersions Rest) : option (VoteStateV4 Rest) :=
  match v with VsV4 s => Some s | VsV3 | VsV1_14_11 | VsUninitialized => None end.

(** The entry of [epoch], at the end of the list; [removelast] and [snoc] are the
    updates through [last_mut]. *)
Definition credits_entry (epoch : Z) (l : list (Z * Z * Z)) : list (Z * Z * Z) :=
  match last l with
  | None => l ++ [(epoch, 0, 0)]
  | Some (e, credits, prev_credits) =>
    if negb (bool_decide (epoch = e)) then
      let l := if negb (bool_decide (credits = prev_credits)) then l ++ [(epoch, credits, credits)]
               else removelast l ++ [(epoch, credits, prev_credits)] in
      if (MAX_EPOCH_CREDITS_HISTORY <? length l)%nat then tail l else l
    else l
  end.
Definition increment_credits s (epoch credits : Z) : VoteStateV4 Rest :=
  let l := credits_entry epoch (vs_epoch_credits s) in
  with_epoch_credits s
    match last l with
    | Some (e, c, p) => removelast l ++ [(e, c +s credits, p)]
    | None => l
    end.
Definition state_credits s : Z := match last (vs_epoch_credits s) with None => 0 | Some (_, c, _) => c end.

Definition update_vote_state s (reward_slot : Slot) (reward_epoch reward : Z) (validator_vote_pubkey : Pubkey)
    (final_cert_input : option (gset Z * Slot)) : VoteStateV4 Rest :=
  let s := increment_credits s reward_epoch reward in
  let s := match final_cert_input with
           | Some (signers, slot) => if bool_decide (validator_vote_pubkey ∈ signers) then set_root_slot s (Some slot) else s
           | None => s
           end in
  let latest_root_or_reward := Z.max (default reward_slot (vs_root_slot s)) reward_slot in
  set_votes s [mkLandedVote latest_root_or_reward 1 0].
End handler.

(** ** Epoch inflation *)

Record EpochInflationState := mkInflation {
  max_possible_validator_reward : Z;
  slots_per_epoch : Z;
  inflation_epoch : Z;
}.
Record EpochInflationAccountState := mkInflationAccount {
  inflation_current : EpochInflationState;
  inflation_prev : option EpochInflationState;
}.
Definition get_epoch_state (a : EpochInflationAccountState) (epoch : Z) : option EpochInflationState :=
  if bool_decide (inflation_epoch (inflation_current a) = epoch) then Some (inflation_current a)
  else match inflation_prev a with
       | Some prev => if bool_decide (inflation_epoch prev = epoch) then Some prev else None
       | None => None
       end.

(** [None] is a panic: the division by zero, and the conversion to [u64].  The
    products are of [u128] and cannot overflow. *)
Definition calculate_reward (e : EpochInflationState) (total_stake_lamports validator_stake_lamports : Z)
    : option (Z * Z) :=
  let numerator := max_possible_validator_reward e * validator_stake_lamports in
  let denominator := slots_per_epoch e * total_stake_lamports in
  rust_assert (negb (bool_decide (denominator = 0)));;
  let reward_lamports := numerator / denominator in
  rust_assert (bool_decide (reward_lamports <= u64_max));;
  let validator_reward_lamports := reward_lamports / 2 in
  let leader_reward_lamports := reward_lamports - validator_reward_lamports in
  Some (validator_reward_lamports, leader_reward_lamports).

(** ** Payment *)

(** What the payment reads of the bank and changes in it: the stakes of the epoch of
    a slot, the inflation account, the vote accounts, the leader and the accounts
    stored in this block. *)
Record PayBank := mkPayBank {
  pb_slot : Slot;
  pb_get_epoch : Slot -> Z;
  pb_epoch_stakes : Slot -> option (gmap Z Z * Z);
  pb_inflation : option EpochInflationAccountState;
  pb_vote_accounts : gmap Z Account;
  pb_leader_vote_address : Pubkey;
  pb_stored : gmap Z Account;
}.
Definition pb_epoch (b : PayBank) : Z := pb_get_epoch b (pb_slot b).
Definition store_accounts (b : PayBank) (l : list (Z * Account)) : PayBank :=
  mkPayBank (pb_slot b) (pb_get_epoch b) (pb_epoch_stakes b) (pb_inflation b) (pb_vote_accounts b)
    (pb_leader_vote_address b) (foldl (fun m x => <[x.1 := x.2]> m) (pb_stored b) l).

Definition inflation_from_bank (calculate_epoch_inflation_rewards : Z -> Z -> Z) (slots : Z) (b : PayBank)
    (prev_epoch prev_epoch_capitalization additional_validator_rewards : Z) : EpochInflationState :=
  mkInflation
    (calculate_epoch_inflation_rewards (wrapping_add prev_epoch_capitalization additional_validator_rewards) prev_epoch)
    slots (pb_epoch b).
(** The account is written and read back through the bank as a value. *)
Definition set_state (b : PayBank) (state : EpochInflationAccountState) : PayBank :=
  mkPayBank (pb_slot b) (pb_get_epoch b) (pb_epoch_stakes b) (Some state) (pb_vote_accounts b)
    (pb_leader_vote_address b) (pb_stored b).
Definition new_epoch_update_account (calculate_epoch_inflation_rewards : Z -> Z -> Z) (slots : Z) (b : PayBank)
    (prev_epoch prev_epoch_capitalization additional_validator_rewards : Z) : PayBank :=
  let prev := inflation_current <$> pb_inflation b in
  let current := inflation_from_bank calculate_epoch_inflation_rewards slots b prev_epoch prev_epoch_capitalization
    additional_validator_rewards in
  set_state b (mkInflationAccount current prev).

Inductive CalcVoteRewardError :=
  | MissingEpochInflationAccountState (current_slot : Slot)
  | MissingRewardEpochStakes (reward_slot current_slot : Slot)
  | MissingRewardSlotValidator (k : Pubkey) (reward_slot current_slot : Slot)
  | NoEpochValidatorStake (reward_epoch : Z) (current_slot : Slot).

Section payment.
Context `{VoteStateOps, RewardOps}.

Definition update_vote_account (current_epoch : Z) (reward_slot : Slot) (account : Account) (k : Pubkey) (reward : Z)
    (final_cert_input : option (gset Z * Slot)) : option Account :=
  versions ← vote_state_deserialize (ac_data account);
  handle ← try_new_from_vote_state_versions versions;
  let handle := update_vote_state handle reward_slot current_epoch reward k final_cert_input in
  let paid_account :=
    account_shared_data_new (ac_lamports account) (length (ac_data account)) (ac_owner account) in
  data ← vote_state_serialize_into handle (ac_data paid_account);
  Some (mkAccount (ac_lamports paid_account) data (ac_owner paid_account)
    (ac_executable paid_account) (ac_rent_epoch paid_account)).

(** In a build with debug assertions the missing inflation account is a panic and
    not the error.  The loop over the validators: the paid accounts and the leader's reward so far.
    The outer option is a panic. *)
Fixpoint reward_loop (b : PayBank) (epoch_state : EpochInflationState) (reward_slot : Slot)
    (reward_slot_accounts : gmap Z Z) (reward_slot_total_stake : Z) (final_cert_input : option (gset Z * Slot))
    (validators : list Pubkey) (paid : list (Z * Account)) (total_leader_reward : Z)
    : option (result CalcVoteRewardError (list (Z * Account) * Z)) :=
  match validators with
  | [] => Some (Ok (paid, total_leader_reward))
  | k :: validators =>
    match reward_slot_accounts !! k with
    | None => Some (Err (MissingRewardSlotValidator k reward_slot (pb_slot b)))
    | Some stake =>
      '(validator_reward, add_leader_reward) ← calculate_reward epoch_state reward_slot_total_stake stake;
      let total_leader_reward := total_leader_reward +s add_leader_reward in
      let go paid total := reward_loop b epoch_state reward_slot reward_slot_accounts reward_slot_total_stake
        final_cert_input validators paid total in
      if bool_decide (pb_leader_vote_address b = k) then go paid (total_leader_reward +s validator_reward)
      else match pb_vote_accounts b !! k with
           | None => go paid total_leader_reward
           | Some account =>
             match update_vote_account (pb_epoch b) reward_slot account k validator_reward final_cert_input with
             | Some data => go (paid ++ [(k, data)]) total_leader_reward
             | None => go paid total_leader_reward
             end
           end
    end
  end.

Definition pay_leader (b : PayBank) (reward_slot : Slot) (final_cert_input : option (gset Z * Slot))
    (paid : list (Z * Account)) (total_leader_reward : Z) : list (Z * Account) :=
  if negb (bool_decide (total_leader_reward = 0)) then
    match pb_vote_accounts b !! pb_leader_vote_address b with
    | Some leader_account =>
      match update_vote_account (pb_epoch b) reward_slot leader_account (pb_leader_vote_address b) total_leader_reward
              final_cert_input with
      | Some data => paid ++ [(pb_leader_vote_address b, data)]
      | None => paid
      end
    | None => paid
    end
  else paid.

Definition calc_vote_rewards_update_vote_states (b : PayBank) (reward_cert : option ValidatedRewardCert)
    (final_cert_input : option (gset Z * Slot)) : option (result CalcVoteRewardError PayBank) :=
  match reward_cert with
  | None => Some (Ok b)
  | Some reward_cert =>
    let '(reward_slot, validators_to_reward) := reward_into_parts reward_cert in
    let current_slot := pb_slot b in
    match pb_epoch_stakes b reward_slot with
    | None => Some (Err (MissingRewardEpochStakes reward_slot current_slot))
    | Some (reward_slot_accounts, reward_slot_total_stake) =>
      let reward_epoch := pb_get_epoch b reward_slot in
      match pb_inflation b with
      | None => Some (Err (MissingEpochInflationAccountState current_slot))
      | Some inflation =>
        match get_epoch_state inflation reward_epoch with
        | None => Some (Err (NoEpochValidatorStake reward_epoch current_slot))
        | Some epoch_state =>
          r ← reward_loop b epoch_state reward_slot reward_slot_accounts reward_slot_total_stake final_cert_input
                (hash_set_iter validators_to_reward) [] 0;
          match r with
          | Err e => Some (Err e)
          | Ok (paid, total_leader_reward) =>
            Some (Ok (store_accounts b (pay_leader b reward_slot final_cert_input paid total_leader_reward)))
          end
        end
      end
    end
  end.
End payment.

(** ** Vote states stay well formed *)

(** Epochs in increasing order, each starting from the credits the one before ended
    with, and not more than [MAX_EPOCH_CREDITS_HISTORY] of them. *)
Record credits_chain (l : list (Z * Z * Z)) : Prop := {
  cc_bounds : Forall (fun x => 0 <= x.2 <= x.1.2 /\ x.1.2 <= u64_max) l;
  cc_next i x y : l !! i = Some x -> l !! S i = Some y -> x.1.1 < y.1.1 /\ y.2 = x.1.2;
}.
Definition credits_wf (l : list (Z * Z * Z)) : Prop :=
  credits_chain l /\ (length l <= MAX_EPOCH_CREDITS_HISTORY)%nat.

Lemma credits_chain_snoc l x : credits_chain l -> 0 <= x.2 <= x.1.2 -> x.1.2 <= u64_max ->
  (forall y, last l = Some y -> y.1.1 < x.1.1 /\ x.2 = y.1.2) -> credits_chain (l ++ [x]).
Proof.
  intros [W2 W3] Hx Hm Hy. split.
  - apply Forall_app. split; [done|by constructor].
  - intros i a b Ha Hb. destruct (decide (S i < length l)%nat) as [Hi|Hi].
    + rewrite lookup_app_l in Ha, Hb by lia. by apply (W3 i).
    + assert (S i = length l) as Hi'.
      { apply lookup_lt_Some in Hb. rewrite length_app in Hb. simpl in Hb. lia. }
      rewrite lookup_app_l in Ha by lia. rewrite Hi', list_lookup_middle in Hb by done. injection Hb as <-.
      apply Hy. rewrite last_lookup, <-Hi'. done.
Qed.
Lemma credits_chain_init l x : credits_chain (l ++ [x]) -> credits_chain l /\
  (0 <= x.2 <= x.1.2 /\ x.1.2 <= u64_max) /\ forall y, last l = Some y -> y.1.1 < x.1.1 /\ x.2 = y.1.2.
Proof.
  intros [W2 W3]. apply Forall_app in W2 as [W2 [Wx _]%Forall_cons]. split; [|split; [done|]].
  - split; [done|]. intros i a b Ha Hb. apply (W3 i); by apply lookup_app_l_Some.
  - intros y Hy. rewrite last_lookup in Hy. destruct (length l) as [|n] eqn:El; [by destruct l|]. simpl in Hy.
    apply (W3 n); [by apply lookup_app_l_Some|]. by rewrite <-El, list_lookup_middle.
Qed.
Lemma credits_chain_tail l : credits_chain l -> credits_chain (tail l).
Proof.
  intros [W2 W3]. destruct l as [|x l]; [done|]. split; simpl in *; [by apply Forall_cons in W2 as [_ ?]|].
  intros i a b Ha Hb. by apply (W3 (S i)).
Qed.

Definition list_credits (l : list (Z * Z * Z)) : Z := match last l with None => 0 | Some (_, c, _) => c end.

(** After [credits_entry] the last entry is of the epoch and carries the credits. *)
Lemma credits_entry_spec epoch l : credits_wf l -> (forall y, last l = Some y -> y.1.1 <= epoch) ->
  exists l0 p, credits_entry epoch l = l0 ++ [(epoch, list_credits l, p)] /\
    credits_wf (l0 ++ [(epoch, list_credits l, p)]).
Proof.
  intros [Hc Hlen] He. unfold credits_entry, list_credits. destruct (last l) as [[[e c] p]|] eqn:El.
  2: { apply last_None in El as ->. exists [], 0. split; [done|]. split; [|simpl; unfold MAX_EPOCH_CREDITS_HISTORY; lia].
       split; [constructor; [simpl; unfold u64_max; lia|constructor]|]. intros i x y _ Hy. by destruct i. }
  apply last_Some in El as [l0 ->]. pose proof (credits_chain_init _ _ Hc) as (H0 & Hb & Hnext). simpl in Hb.
  specialize (He _ eq_refl). simpl in He. rewrite length_app in Hlen. simpl in Hlen.
  destruct (decide (epoch = e)) as [->|Hne].
  { rewrite bool_decide_true by done. simpl. exists l0, p. split; [done|]. split; [done|]. rewrite length_app. simpl. lia. }
  rewrite bool_decide_false by done. simpl. destruct (decide (c = p)) as [->|Hcp].
  - rewrite bool_decide_true by done. simpl. rewrite removelast_last, length_app. simpl.
    destruct (Nat.ltb_spec MAX_EPOCH_CREDITS_HISTORY (length l0 + 1)); [lia|].
    exists l0, p. split; [done|]. split; [|rewrite length_app; simpl; lia].
    apply credits_chain_snoc; simpl; [done|lia|lia|]. intros y Hy. destruct (Hnext y Hy). simpl in *. lia.
  - rewrite bool_decide_false by done. simpl. rewrite !length_app. simpl.
    assert (credits_chain ((l0 ++ [(e, c, p)]) ++ [(epoch, c, c)])) as Hc'.
    { apply credits_chain_snoc; simpl; [done|lia|lia|]. intros y Hy. rewrite last_snoc in Hy. injection Hy as <-. simpl. lia. }
    destruct (Nat.ltb_spec MAX_EPOCH_CREDITS_HISTORY (length l0 + 1 + 1)).
    + exists (tail (l0 ++ [(e, c, p)])), c.
      assert (tail ((l0 ++ [(e, c, p)]) ++ [(epoch, c, c)]) = tail (l0 ++ [(e, c, p)]) ++ [(epoch, c, c)]) as Ht by (by destruct l0).
      rewrite Ht. split; [done|]. rewrite <-Ht. split; [by apply credits_chain_tail|].
      rewrite length_tl, !length_app. simpl. lia.
    + exists (l0 ++ [(e, c, p)]), c. split; [done|]. split; [done|]. rewrite !length_app. simpl. lia.
Qed.

Lemma increment_credits_spec {Rest} (s : VoteStateV4 Rest) epoch credits :
  credits_wf (vs_epoch_credits s) -> (forall y, last (vs_epoch_credits s) = Some y -> y.1.1 <= epoch) -> 0 <= credits ->
  credits_wf (vs_epoch_credits (increment_credits s epoch credits)) /\
  state_credits (increment_credits s epoch credits) = state_credits s +s credits /\
  exists c p, last (vs_epoch_credits (increment_credits s epoch credits)) = Some (epoch, c, p).
Proof.
  intros Hw He Hc. unfold increment_credits. destruct (credits_entry_spec epoch _ Hw He) as (l0 & p & -> & [Hch Hlen]).
  rewrite last_snoc, removelast_last. unfold state_credits. simpl. rewrite last_snoc. split; [|split; [done|eauto]].
  apply credits_chain_init in Hch as (H0 & Hb & Hnext). simpl in *. rewrite length_app in Hlen.
  split; [|rewrite length_app; simpl in *; lia]. apply credits_chain_snoc; simpl; [done| | |done].
  - unfold sat_add. lia.
  - unfold sat_add. lia.
Qed.

(** ** Shares *)

Definition share (e : EpochInflationState) (total stake : Z) : Z :=
  max_possible_validator_reward e * stake / (slots_per_epoch e * total).

Lemma sum_div_le (f : Z -> Z) d l : 0 < d -> sumZ ((fun k => f k / d) <$> l) <= sumZ (f <$> l) / d.
Proof.
  intros Hd. induction l as [|k l IH]; [done|]. change (f k / d + sumZ ((fun k => f k / d) <$> l) <= (f k + sumZ (f <$> l)) / d).
  pose proof (Z.mul_div_le (f k) d Hd). pose proof (Z.mul_div_le (sumZ (f <$> l)) d Hd).
  apply Z.div_le_lower_bound; [done|]. nia.
Qed.
Lemma sum_scale (f : Z -> Z) c l : sumZ ((fun k => c * f k) <$> l) = c * sumZ (f <$> l).
Proof.
  induction l as [|k l IH]; [unfold sumZ; simpl; lia|].
  change (c * f k + sumZ ((fun k => c * f k) <$> l) = c * (f k + sumZ (f <$> l))). lia.
Qed.
(** The shares of one slot are within the inflation of one slot. *)
Lemma shares_bound e total (stake : Z -> Z) V :
  0 <= max_possible_validator_reward e -> 0 < slots_per_epoch e -> 0 < total -> weight stake V <= total ->
  weight (fun k => share e total (stake k)) V <= max_possible_validator_reward e / slots_per_epoch e.
Proof.
  intros HM HS HT HV. unfold weight, share in *.
  etransitivity; [apply (sum_div_le (fun k => max_possible_validator_reward e * stake k)); nia|].
  rewrite sum_scale. rewrite <-(Z.div_mul_cancel_r (max_possible_validator_reward e) (slots_per_epoch e) total) by lia.
  apply Z.div_le_mono; [nia|]. apply Z.mul_le_mono_nonneg_l; lia.
Qed.
Lemma share_nonneg e total stake : 0 <= max_possible_validator_reward e -> 0 < slots_per_epoch e -> 0 < total -> 0 <= stake ->
  0 <= share e total stake.
Proof. intros. unfold share. apply Z.div_pos; nia. Qed.

(** ** Payments *)

(** After the first bank of an epoch has updated the account, the state of the epoch
    and the one that was current before are found, and no other. *)
Lemma new_epoch_states calc slots b prev_epoch cap add e :
  (forall i, pb_inflation b = Some i -> inflation_epoch (inflation_current i) < pb_epoch b) ->
  pb_inflation (new_epoch_update_account calc slots b prev_epoch cap add) ≫= (fun i => get_epoch_state i e) =
  if bool_decide (e = pb_epoch b) then Some (inflation_from_bank calc slots b prev_epoch cap add)
  else i ← pb_inflation b; if bool_decide (inflation_epoch (inflation_current i) = e) then Some (inflation_current i) else None.
Proof.
  intros Hlt. unfold new_epoch_update_account, set_state. cbn [pb_inflation mbind option_bind]. unfold get_epoch_state.
  cbn [inflation_current inflation_prev inflation_from_bank inflation_epoch].
  destruct (pb_inflation b) as [i|]; simpl; repeat case_bool_decide; try done; subst; done.
Qed.

Section payments.
Context `{VoteStateOps, RewardOps}.
Context (b : PayBank) (e : EpochInflationState) (total : Z) (accounts : gmap Z Z).
Context (reward_slot : Slot) (fin : option (gset Z * Slot)).

Definition stake_of (k : Pubkey) : Z := default 0 (accounts !! k).
Definition validator_share (k : Pubkey) : Z := share e total (stake_of k) / 2.
Definition leader_share (k : Pubkey) : Z := share e total (stake_of k) - validator_share k.
(** What the leader is owed for the certified votes of [l], its own included. *)
Definition leader_due (l : list Pubkey) : Z :=
  sumZ ((fun k => leader_share k + (if bool_decide (pb_leader_vote_address b = k) then validator_share k else 0)) <$> l).
Definition paid_account (k : Pubkey) (reward : Z) : option Account :=
  account ← pb_vote_accounts b !! k;
  update_vote_account (pb_epoch b) reward_slot account k reward fin.
Definition paid_validator (k : Pubkey) : option (Z * Account) :=
  if bool_decide (pb_leader_vote_address b = k) then None else pair k <$> paid_account k (validator_share k).

Context (HM : 0 <= max_possible_validator_reward e <= u64_max) (HS : 0 < slots_per_epoch e) (HT : 0 < total).
Context (Hstakes : forall k st, accounts !! k = Some st -> 0 <= st <= total).

Lemma share_ok k : 0 <= share e total (stake_of k) <= max_possible_validator_reward e.
Proof using HM HS HT Hstakes.
  assert (0 <= stake_of k <= total) as Hs.
  { unfold stake_of. destruct (accounts !! k) as [st|] eqn:Ek; simpl; [by eapply Hstakes|lia]. }
  split; [apply share_nonneg; lia|]. unfold share.
  transitivity (max_possible_validator_reward e * total / (slots_per_epoch e * total)); [|rewrite Z.div_mul_cancel_r by lia; apply Z.div_le_upper_bound; nia].
  apply Z.div_le_mono; [by apply Z.mul_pos_pos|]. apply Z.mul_le_mono_nonneg_l; lia.
Qed.
Lemma shares_split k : 0 <= validator_share k /\ 0 <= leader_share k /\ validator_share k + leader_share k = share e total (stake_of k).
Proof using HM HS HT Hstakes.
  pose proof (share_ok k). unfold leader_share, validator_share. split; [apply Z.div_pos; lia|]. split; [|lia].
  pose proof (Z.div_le_upper_bound (share e total (stake_of k)) 2 (share e total (stake_of k))). lia.
Qed.
Lemma calculate_reward_ok k st : accounts !! k = Some st ->
  calculate_reward e total st = Some (validator_share k, leader_share k).
Proof using HM HS HT Hstakes.
  intros Hk. pose proof (share_ok k) as Hok. unfold calculate_reward, validator_share, leader_share, validator_share, share, stake_of in *.
  rewrite Hk in *. simpl in *. assert (0 < slots_per_epoch e * total) by (by apply Z.mul_pos_pos).
  rewrite (bool_decide_false (_ = 0)) by lia. rewrite bool_decide_true by lia. done.
Qed.

Lemma leader_due_cons k l : leader_due (k :: l) =
  leader_share k + (if bool_decide (pb_leader_vote_address b = k) then validator_share k else 0) + leader_due l.
Proof using Type. done. Qed.
Lemma leader_due_nonneg l : 0 <= leader_due l.
Proof using HM HS HT Hstakes.
  induction l as [|k l IH]; [done|]. rewrite leader_due_cons. pose proof (shares_split k). case_bool_decide; lia.
Qed.

Lemma reward_loop_spec l : forall paid due, Forall (fun k => is_Some (accounts !! k)) l ->
  0 <= due -> due + leader_due l <= u64_max ->
  reward_loop b e reward_slot accounts total fin l paid due = Some (Ok (paid ++ omap paid_validator l, due + leader_due l)).
Proof using HM HS HT Hstakes.
  induction l as [|k l IH]; intros paid due Hl Hdue Hmax; simpl.
  { rewrite app_nil_r. unfold leader_due, sumZ. simpl. by rewrite Z.add_0_r. }
  apply Forall_cons in Hl as [[st Hst] Hl]. rewrite Hst, (calculate_reward_ok k st Hst). simpl.
  rewrite leader_due_cons in *. pose proof (shares_split k). pose proof (leader_due_nonneg l).
  unfold paid_validator at 1, paid_account. case_bool_decide as Hk.
  - rewrite !sat_add_exact by (rewrite ?sat_add_exact; lia). rewrite IH by (done || lia). do 3 f_equal. lia.
  - rewrite sat_add_exact by lia. destruct (pb_vote_accounts b !! k) as [account|]; simpl; [|rewrite IH by (done || lia); do 3 f_equal; lia].
    destruct (update_vote_account _ _ _ _ _ _) as [a|]; simpl; rewrite IH by (done || lia).
    + rewrite <-app_assoc. do 3 f_equal. lia.
    + do 3 f_equal. lia.
Qed.

(** What each account is owed: the leader nothing or the sum, the others their half. *)
Definition reward_due (V : gset Z) (k : Pubkey) : option Z :=
  if bool_decide (pb_leader_vote_address b = k) then
    if bool_decide (leader_due (elements V) = 0) then None else Some (leader_due (elements V))
  else if bool_decide (k ∈ V) then Some (validator_share k) else None.

Lemma leader_due_perm l l' : l ≡ₚ l' -> leader_due l = leader_due l'.
Proof using Type. intros Hl. unfold leader_due. apply sumZ_perm. by rewrite Hl. Qed.
(** The leader's part and the others' halves are the shares. *)
Lemma dues_total l :
  leader_due l + sumZ ((fun k => if bool_decide (pb_leader_vote_address b = k) then 0 else validator_share k) <$> l) =
  sumZ ((fun k => share e total (stake_of k)) <$> l).
Proof using HM HS HT Hstakes.
  induction l as [|k l IH]; [done|]. rewrite leader_due_cons. pose proof (shares_split k) as (_ & _ & Hk). revert IH.
  generalize (leader_due l). intros d IH. rewrite !fmap_cons. unfold sumZ in *. simpl. case_bool_decide; lia.
Qed.
Lemma leader_due_le l : leader_due l <= sumZ ((fun k => share e total (stake_of k)) <$> l).
Proof using HM HS HT Hstakes.
  rewrite <-dues_total. assert (forall l, 0 <= sumZ ((fun k => if bool_decide (pb_leader_vote_address b = k) then 0 else validator_share k) <$> l)); [|pose proof (H1 l); lia].
  intros l'. apply sumZ_nonneg, Forall_fmap, Forall_forall. intros k _. simpl. pose proof (shares_split k). case_bool_decide; lia.
Qed.

Lemma paid_validator_Some k x : paid_validator k = Some x <->
  x.1 = k /\ pb_leader_vote_address b <> k /\ paid_account k (validator_share k) = Some x.2.
Proof using Type.
  unfold paid_validator. case_bool_decide as Hk; [split; [done|by intros (_ & ? & _)]|]. rewrite fmap_Some. destruct x as [k' a]. simpl.
  split; [intros (a' & Ha & [= -> ->]); done|]. intros (-> & _ & Ha). eauto.
Qed.
Lemma paid_keys_NoDup l : NoDup l -> NoDup (omap paid_validator l).*1.
Proof using Type.
  assert (forall l k, k ∈ (omap paid_validator l).*1 -> k ∈ l) as Hin.
  { intros l' k ([k' a] & -> & Hx)%list_elem_of_fmap. apply list_elem_of_omap in Hx as (k & Hk & Hp).
    by apply paid_validator_Some in Hp as [-> _]. }
  induction 1 as [|k l Hk Hl IH]; simpl; [by apply NoDup_nil_2|]. destruct (paid_validator k) as [[k' a]|] eqn:Ek; [|done].
  apply paid_validator_Some in Ek as [Hkk _]. simpl in *. subst. apply NoDup_cons. split; [|done]. intros ?%Hin. done.
Qed.

Lemma stored_lookup (m : gmap Z Account) l k : NoDup l.*1 ->
  foldl (fun m x => <[x.1 := x.2]> m) m l !! k =
  match (list_to_map l : gmap Z Account) !! k with Some a => Some a | None => m !! k end.
Proof using Type.
  clear. revert m. induction l as [|[k' a] l IH]; intros m Hn; simpl; [by rewrite lookup_empty|].
  apply NoDup_cons in Hn as [Hk Hn]. rewrite IH by done. destruct (decide (k' = k)) as [->|Hne].
  - rewrite !lookup_insert_eq. rewrite not_elem_of_list_to_map_1 by done. done.
  - by rewrite !lookup_insert_ne.
Qed.

(** Every account is paid what it is owed, if it can be updated. *)
Lemma paid_lookup V l k : l ≡ₚ elements V ->
  let paid := pay_leader b reward_slot fin (omap paid_validator l) (leader_due l) in
  NoDup paid.*1 /\ (list_to_map paid : gmap Z Account) !! k = reward_due V k ≫= paid_account k.
Proof using Type.
  intros Hl paid. pose proof (leader_due_perm _ _ Hl) as Hdue.
  assert (NoDup l) as Hnd by (rewrite Hl; apply NoDup_elements).
  set (lead := pb_leader_vote_address b) in *.
  assert (paid = omap paid_validator l ++
    match (if bool_decide (leader_due l = 0) then None else Some (leader_due l)) ≫= paid_account lead with
    | Some a => [(lead, a)] | None => [] end) as Hpaid.
  { unfold paid, pay_leader, paid_account. fold lead. case_bool_decide; simpl; [by rewrite app_nil_r|].
    destruct (pb_vote_accounts b !! lead) as [a|]; simpl; [|by rewrite app_nil_r].
    destruct (update_vote_account _ _ _ _ _ _); [done|by rewrite app_nil_r]. }
  assert (lead ∉ (omap paid_validator l).*1) as Hlead.
  { intros ([k' a] & Hk & Hx)%list_elem_of_fmap. apply list_elem_of_omap in Hx as (k'' & _ & Hp).
    apply paid_validator_Some in Hp as (Hkk & Hne & _). fold lead in Hne. simpl in *. congruence. }
  assert (NoDup paid.*1) as HndP.
  { rewrite Hpaid, fmap_app. apply NoDup_app. split; [by apply paid_keys_NoDup|].
    destruct (_ ≫= _) as [a|]; simpl; [|by split; [intros x _ ?%elem_of_nil|apply NoDup_nil_2]].
    split; [|apply NoDup_singleton]. intros x Hx Hx2. apply list_elem_of_singleton in Hx2 as ->. done. }
  split; [done|]. apply option_eq. intros a. rewrite <-elem_of_list_to_map by done. rewrite Hpaid, elem_of_app.
  unfold reward_due. fold lead. rewrite <-Hdue. destruct (decide (lead = k)) as [Hlk|Hne].
  - rewrite (bool_decide_true (lead = k)) by done. rewrite <-Hlk. destruct (_ ≫= paid_account lead) as [a'|].
    + rewrite list_elem_of_singleton. split; [|intros [= ->]; by right]. intros [Hin|[= ->]]; [|done].
      exfalso. apply Hlead. apply list_elem_of_fmap. by exists (lead, a).
    + split; [|done]. intros [Hin|Hin]; [|by apply elem_of_nil in Hin]. exfalso. apply Hlead, list_elem_of_fmap. by exists (lead, a).
  - rewrite (bool_decide_false (lead = k)) by done. rewrite list_elem_of_omap. split.
    + intros [(k' & Hk' & (Hkk & _ & Hp)%paid_validator_Some)|Hin].
      * simpl in *. subst k'. rewrite bool_decide_true by (rewrite <-elem_of_elements, <-Hl; done). done.
      * destruct (_ ≫= _); [apply list_elem_of_singleton in Hin; congruence|by apply elem_of_nil in Hin].
    + intros Hk. left. case_bool_decide as Hin; [|done]. simpl in Hk. exists k. split; [by rewrite Hl, elem_of_elements|].
      by apply paid_validator_Some.
Qed.
End payments.

(** The state in a vote account. *)
Definition account_state `{VoteStateOps} (a : Account) : option (VoteStateV4 VoteStateRest) :=
  vote_state_deserialize (ac_data a) ≫= try_new_from_vote_state_versions.

(** What rewarding a validator needs of the bank. *)
Record pay_setting (b : PayBank) (vr : ValidatedRewardCert) (e : EpochInflationState) (accounts : gmap Z Z) (total : Z) : Prop := {
  ps_stakes : pb_epoch_stakes b (vr_reward_slot vr) = Some (accounts, total);
  ps_inflation : pb_inflation b ≫= (fun i => get_epoch_state i (pb_get_epoch b (vr_reward_slot vr))) = Some e;
  ps_max : 0 <= max_possible_validator_reward e <= u64_max;
  ps_slots : 0 < slots_per_epoch e;
  ps_total : 0 < total;
  ps_stake k st : accounts !! k = Some st -> 0 <= st <= total;
  ps_sum : weight (stake_of accounts) (vr_validators vr) <= total;
  ps_known k : k ∈ vr_validators vr -> is_Some (accounts !! k);
}.

(** A vote state that fits six words: for the examples. *)
Module RewardStateExample.
#[export] Instance state_ops : VoteStateOps := {|
  VoteStateRest := unit;
  vote_state_deserialize l :=
    match l with
    | [e; c; p; flag; r; v] =>
      Some (VsV4 (mkVoteState [(e, c, p)] (if bool_decide (flag = 1) then Some r else None) [mkLandedVote v 1 0] tt))
    | _ => None
    end;
  vote_state_serialize_into s buffer :=
    match s with
    | mkVoteState [(e, c, p)] r [mkLandedVote v 1 0] tt =>
      if bool_decide (length buffer = 6%nat) then Some (match r with Some r => [e; c; p; 1; r; v] | None => [e; c; p; 0; 0; v] end)
      else None
    | _ => None
    end;
  account_shared_data_new lamports space owner := mkAccount lamports (replicate space 0) owner false 0;
|}.
#[export] Instance state_laws : VoteStateLaws.
Proof.
  split; [|done|intros; simpl; apply length_replicate|done].
  intros [[|[[e c] p] [|]] r [|[v [|[]|] []] [|]] []] buffer data; simpl; try done.
  case_bool_decide as Hn; [|done]. intros [= <-]. rewrite Hn. by destruct r.
Qed.
#[export] Instance iter_ops : RewardOps := {|
  bincode_serialize v := []; hash_iter A m := map_to_list m; hash_set_iter X := reverse (elements X) |}.
Definition account (credits : Z) : Account := mkAccount 5 [0; credits; 0; 0; 0; 3] 9 false 18.
Definition bank : PayBank :=
  mkPayBank 13 (fun _ => 0) (fun _ => Some (({[1 := 45; 2 := 30; 3 := 25]} : gmap Z Z), 100))
    (Some (mkInflationAccount (mkInflation 1000 10 0) None)) ({[1 := account 7; 2 := account 8; 4 := account 0]} : gmap Z Account) 2 ∅.
Definition reward : ValidatedRewardCert := mkValidatedReward {[1; 2; 3]} 5.
End RewardStateExample.

(** ** Properties *)

#[local] Existing Instance RewardStateExample.state_ops.
#[local] Existing Instance RewardStateExample.state_laws.
#[local] Existing Instance RewardStateExample.iter_ops.

(** C27: Vote rewards are paid exactly.  For the validators of an accepted reward
    certificate the payment does not fail or panic; whatever the order of the hash
    set, every validator's vote account is updated with half of its share and the
    leader's with the other halves and all of its own, an account that is missing or
    cannot be updated is left alone, and all that is credited is the sum of the
    shares, which is within the inflation of one slot. *)
Theorem vote_rewards_exact `{VoteStateOps, RewardOps} b vr fin e accounts total
    (Hiter : forall X, hash_set_iter X ≡ₚ elements X) (Hset : pay_setting b vr e accounts total) :
  exists b', calc_vote_rewards_update_vote_states b (Some vr) fin = Some (Ok b') /\
    (forall k, pb_stored b' !! k =
       match reward_due b e total accounts (vr_validators vr) k ≫= paid_account b (vr_reward_slot vr) fin k with
       | Some a => Some a
       | None => pb_stored b !! k
       end) /\
    let others k := if bool_decide (pb_leader_vote_address b = k) then 0 else validator_share e total accounts k in
    let credited := leader_due b e total accounts (elements (vr_validators vr)) + weight others (vr_validators vr) in
    credited = weight (fun k => share e total (stake_of accounts k)) (vr_validators vr) /\
    credited <= max_possible_validator_reward e / slots_per_epoch e.
Proof.
  destruct Hset as [P1 P2 P3 P4 P5 P6 P7 P8]. destruct (pb_inflation b) as [i|] eqn:Ei; [|done]. simpl in P2.
  set (V := vr_validators vr) in *. pose proof (Hiter V) as Hl. remember (hash_set_iter V) as l eqn:El.
  pose proof (shares_bound e total (stake_of accounts) V ltac:(lia) P4 P5 P7) as Hbound.
  pose proof (dues_total b e total accounts P3 P4 P5 P6 (elements V)) as Htot.
  pose proof (leader_due_le b e total accounts P3 P4 P5 P6 (elements V)) as Hle.
  assert (leader_due b e total accounts (elements V) <= u64_max) as Hmax.
  { unfold weight in Hbound. pose proof (Z.div_le_upper_bound (max_possible_validator_reward e) (slots_per_epoch e) (max_possible_validator_reward e)). nia. }
  eexists. split; [|split; [|split; [exact Htot|]]].
  - unfold calc_vote_rewards_update_vote_states. simpl. fold V. rewrite P1, Ei, P2, <-El.
    rewrite (reward_loop_spec b e total accounts (vr_reward_slot vr) fin P3 P4 P5 P6 l [] 0); [rewrite Z.add_0_l; done| |done|].
    + apply Forall_forall. intros k Hk. apply P8. rewrite <-elem_of_elements, <-Hl. done.
    + rewrite (leader_due_perm b e total accounts l _ Hl). lia.
  - intros k. simpl. destruct (paid_lookup b e total accounts (vr_reward_slot vr) fin V l k Hl) as [Hnd Hk].
    rewrite stored_lookup by done. by rewrite Hk.
  - cbv zeta. unfold weight in Hbound |- *. lia.
Qed.
Lemma vote_rewards_exact_witness :
  exists b', calc_vote_rewards_update_vote_states RewardStateExample.bank (Some RewardStateExample.reward) None = Some (Ok b') /\
    pb_stored b' !! 1 = Some (mkAccount 5 [0; 29; 0; 0; 0; 5] 9 false 0) /\ pb_stored b' !! 2 = Some (mkAccount 5 [0; 74; 0; 0; 0; 5] 9 false 0) /\
    pb_stored b' !! 4 = None.
Proof.
  destruct (vote_rewards_exact RewardStateExample.bank RewardStateExample.reward None (mkInflation 1000 10 0)
    ({[1 := 45; 2 := 30; 3 := 25]} : gmap Z Z) 100) as (b' & Hb' & Hst & _).
  - intros X. simpl. apply reverse_Permutation.
  - split; try reflexivity; try (by vm_compute).
    + intros k st Hk. assert (((k, st) : Z * Z) ∈ map_to_list ({[1 := 45; 2 := 30; 3 := 25]} : gmap Z Z)) as Hin by (by apply elem_of_map_to_list).
      vm_compute in Hin. repeat (apply elem_of_cons in Hin as [[= -> ->]|Hin]; [lia|]). by apply elem_of_nil in Hin.
    + intros k. simpl. rewrite !elem_of_union, !elem_of_singleton. intros [[-> | ->]| ->]; vm_compute; eauto.
  - exists b'. split; [exact Hb'|]. rewrite !Hst. vm_compute. done.
Defined.

(** C28: A rewarded vote account is well formed again.  The code builds it afresh: it
    keeps the lamports, the owner and the length of the data, while the executable
    flag and the rent epoch are those of a new account, whatever they were.  Its data
    decodes, with the fields of the vote state that rewards do not touch as they
    were; its epochs stay in order and within the history limit, its credits grow by
    the reward, or to the maximum when they would overflow, its one vote is not
    behind its root or the reward slot, and its root is that of the footer's
    finalization when the validator signed it, even one older than the root it had. *)
Theorem vote_account_update_wf `{VoteStateOps, !VoteStateLaws} epoch reward_slot a k reward fin a'
    (Hup : update_vote_account epoch reward_slot a k reward fin = Some a') (Hr : 0 <= reward) :
  ac_lamports a' = ac_lamports a /\ ac_owner a' = ac_owner a /\ length (ac_data a') = length (ac_data a) /\
  (let fresh := account_shared_data_new (ac_lamports a) (length (ac_data a)) (ac_owner a) in
   ac_executable a' = ac_executable fresh /\ ac_rent_epoch a' = ac_rent_epoch fresh) /\
  exists s s', account_state a = Some s /\ account_state a' = Some s' /\ vs_rest s' = vs_rest s /\
    (credits_wf (vs_epoch_credits s) -> (forall y, last (vs_epoch_credits s) = Some y -> y.1.1 <= epoch) ->
     credits_wf (vs_epoch_credits s') /\ state_credits s' = state_credits s +s reward) /\
    vs_root_slot s' = match fin with
                      | Some (signers, slot) => if bool_decide (k ∈ signers) then Some slot else vs_root_slot s
                      | None => vs_root_slot s
                      end /\
    exists v, vs_votes s' = [v] /\ lv_slot v = Z.max (default reward_slot (vs_root_slot s')) reward_slot.
Proof.
  unfold update_vote_account in Hup. apply bind_Some in Hup as (versions & Hd & Hup). apply bind_Some in Hup as (s & Hs & Hup).
  apply bind_Some in Hup as (data & He & [= <-]). apply vote_state_round_trip in He as [Hlen Hdec]. simpl.
  rewrite account_new_space in Hlen. rewrite account_new_lamports, account_new_owner.
  do 4 (split; [done|]). exists s, (update_vote_state s reward_slot epoch reward k fin).
  split; [unfold account_state; by rewrite Hd|]. split; [unfold account_state; simpl; by rewrite Hdec|].
  unfold update_vote_state. set (s1 := increment_credits s epoch reward).
  assert (vs_rest s1 = vs_rest s /\ vs_root_slot s1 = vs_root_slot s) as [R1 R2] by done.
  assert (credits_wf (vs_epoch_credits s) -> (forall y, last (vs_epoch_credits s) = Some y -> y.1.1 <= epoch) ->
    credits_wf (vs_epoch_credits s1) /\ state_credits s1 = state_credits s +s reward) as Hc.
  { intros Hw Hl. by destruct (increment_credits_spec s epoch reward Hw Hl Hr) as (? & ? & _). }
  destruct fin as [[signers slot]|]; [case_bool_decide|]; simpl; eauto 10.
Qed.
Lemma vote_account_update_wf_witness :
  exists s s' : VoteStateV4 VoteStateRest, account_state (RewardStateExample.account 7) = Some s /\
    update_vote_account 0 5 (RewardStateExample.account 7) 1 22 (Some ({[1]}, 2)) = Some (mkAccount 5 [0; 29; 0; 1; 2; 5] 9 false 0) /\
    state_credits s = 7 /\ state_credits s' = 29 /\ vs_root_slot s' = Some 2.
Proof.
  assert (update_vote_account 0 5 (RewardStateExample.account 7) 1 22 (Some ({[1]}, 2)) = Some (mkAccount 5 [0; 29; 0; 1; 2; 5] 9 false 0))
    as Hup by (vm_compute; reflexivity).
  destruct (vote_account_update_wf 0 5 (RewardStateExample.account 7) 1 22 (Some ({[1]}, 2)) _ Hup ltac:(lia))
    as (_ & _ & _ & _ & s & s' & Hs & Hs' & _ & Hc & Hroot & _).
  exists s, s'. split; [exact Hs|]. split; [exact Hup|]. vm_compute in Hs. injection Hs as <-. split; [reflexivity|].
  split; [|rewrite Hroot; reflexivity]. destruct Hc as [_ ->]; [| |reflexivity].
  - split; [split|]; [repeat constructor; by vm_compute|intros i x y _ Hy; by destruct i|simpl; unfold MAX_EPOCH_CREDITS_HISTORY; lia].
  - intros y [= <-]. by vm_compute.
Defined.
