(* ===== verification/BlockComponents.v ===== *)
(** * Block components

    [runtime/src/block_component_processor.rs]: what replay does with the markers of a
    block (header, update-parent, footer, genesis certificate), and the leader's side
    of the footer in [core/src/block_creation_loop.rs].  The loop over the components
    of a block is that of [ledger/src/blockstore_processor.rs]; the execution of the
    entries is an argument. *)

From S2P Require Import Prelude.
From S2P Require Import Messages.
From S2P Require Import EpochStakes.
From S2P Require Import CertBuilder.
From S2P Require Import Finalization.
From S2P Require Import Migration.
From S2P Require Import CertVerify.
From S2P Require Import BankForks.
From S2P Require Import VoteHistory.
From S2P Require Import VoteStorage.
From S2P Require Import Voting.
From S2P Require Import Rewards.
From S2P Require Import VoteReward.

(** ** Signed integers *)

Definition i64_max : Z := 2 ^ 63 - 1.
Definition i64_min : Z := - 2 ^ 63.
Definition sat_add_i64 (a b : Z) : Z := Z.max i64_min (Z.min i64_max (a + b)).
(** [as i64] and [as u64] keep the low 64 bits. *)
Definition as_u64 (z : Z) : Z := z mod 2 ^ 64.
Definition as_i64 (z : Z) : Z := if bool_decide (as_u64 z <= i64_max) then as_u64 z else as_u64 z - 2 ^ 64.

(** ** Markers *)

Record BlockHeaderV1 := mkBlockHeader { bh_parent_slot : Slot; bh_parent_block_id : Hash }.
Record UpdateParentV1 := mkUpdateParent { up_new_parent_slot : Slot; up_new_parent_block_id : Hash }.
Record GenesisCertificate := mkGenesisCert {
  gc_slot : Slot;
  gc_block_id : Hash;
  gc_bls_signature : BLSSignature;
  gc_bitmap : list Z;
}.
Definition certificate_of_genesis (g : GenesisCertificate) : Certificate :=
  mkCertificate (CGenesis (gc_slot g) (gc_block_id g)) (gc_bls_signature g) (gc_bitmap g).
Record BlockFooterV1 := mkBlockFooter {
  bf_bank_hash : Hash;
  bf_block_producer_time_nanos : Z;
  bf_block_user_agent : list Z;
  bf_final_cert : option FinalCertificate;
  bf_skip_reward_cert : option SkipRewardCertificate;
  bf_notar_reward_cert : option NotarRewardCertificate;
}.
Inductive BlockMarkerV1 :=
  | BlockFooter (f : BlockFooterV1)
  | BlockHeader (h : BlockHeaderV1)
  | UpdateParent (u : UpdateParentV1)
  | GenesisCertMarker (g : GenesisCertificate).
Inductive BlockComponent (Entry : Type) :=
  | EntryBatch (entries : list Entry)
  | BlockMarker (marker : BlockMarkerV1).
Arguments EntryBatch {Entry} _.
Arguments BlockMarker {Entry} _.

(** ** The bank *)

Record Clock := mkClock {
  clk_slot : Slot;
  clk_epoch_start_timestamp : Z;
  clk_epoch : Z;
  clk_leader_schedule_epoch : Z;
  clk_unix_timestamp : Z;
}.
(** The parent: its slot, its epoch and its nanosecond clock. *)
Record ParentBank := mkParentBank {
  par_slot : Slot;
  par_epoch : Z;
  par_nanosecond_clock : option Z;
}.
(** The bank of the block, in the parts the markers read and write. *)
Record BlockBank := mkBlockBank {
  bb_root : RootBank;
  bb_parent : ParentBank;
  bb_parent_block_id : option Hash;
  bb_alpenglow : bool;
  bb_ns_per_slot : Z;
  bb_unix_timestamp_from_genesis : Z;
  bb_leader_schedule_epoch : Slot -> Z;
  bb_genesis_certificate : option Certificate;
  bb_clock : Clock;
  bb_nanosecond_clock : option Z;
  bb_pay : PayBank;
  bb_expected_bank_hash : option Hash;
}.
Definition bb_slot (b : BlockBank) : Slot := rb_slot (bb_root b).
Definition bb_epoch (b : BlockBank) : Z := rb_get_epoch (bb_root b) (bb_slot b).
Definition bb_with_genesis (b : BlockBank) g : BlockBank :=
  let '(mkBlockBank r p i a n u l _ c t y h) := b in mkBlockBank r p i a n u l g c t y h.
Definition bb_with_clock (b : BlockBank) c t : BlockBank :=
  let '(mkBlockBank r p i a n u l g _ _ y h) := b in mkBlockBank r p i a n u l g c t y h.
Definition bb_with_pay (b : BlockBank) y : BlockBank :=
  let '(mkBlockBank r p i a n u l g c t _ h) := b in mkBlockBank r p i a n u l g c t y h.
Definition bb_with_hash (b : BlockBank) h : BlockBank :=
  let '(mkBlockBank r p i a n u l g c t y _) := b in mkBlockBank r p i a n u l g c t y h.

(** The division of [i64] truncates. *)
Definition update_clock_from_footer (b : BlockBank) (unix_timestamp_nanos : Z) : BlockBank :=
  if negb (bb_alpenglow b) then b
  else
    let unix_timestamp_s := Z.quot unix_timestamp_nanos 1000000000 in
    let epoch_start_timestamp :=
      if bool_decide (bb_slot b = 0) then bb_unix_timestamp_from_genesis b
      else if negb (bool_decide (par_epoch (bb_parent b) = bb_epoch b)) then unix_timestamp_s
      else clk_epoch_start_timestamp (bb_clock b) in
    let clock := mkClock (bb_slot b) epoch_start_timestamp (bb_epoch b) (bb_leader_schedule_epoch b (bb_slot b))
                   unix_timestamp_s in
    bb_with_clock b clock (Some unix_timestamp_nanos).
Definition set_expected_bank_hash (b : BlockBank) (h : Hash) : BlockBank := bb_with_hash b (Some h).

(** ** The processor *)

Record BlockComponentProcessor := mkProcessor {
  bcp_has_header : bool;
  bcp_has_footer : bool;
  bcp_update_parent : option UpdateParentV1;
}.
Definition processor_default : BlockComponentProcessor := mkProcessor false false None.

(** [2 * diff_slots * ns_per_slot] wraps. *)
Definition nanosecond_time_bounds (parent_slot : Slot) (parent_time_nanos : Z) (slot : Slot) (ns_per_slot : Z) : Z * Z :=
  let diff_slots := slot -s parent_slot in
  (sat_add_i64 parent_time_nanos 1, sat_add_i64 parent_time_nanos (as_i64 (2 * diff_slots * ns_per_slot))).

Section processor.
Context `{BlsVerify, RewardOps, VoteStateOps}.

Inductive BlockComponentProcessorError :=
  | BlockComponentPreMigration
  | GenesisCertificateAlreadyPopulated
  | GenesisCertificateInAlpenglowCluster
  | GenesisCertificateOnNonChild
  | GenesisCertificateFailedVerification
  | InvalidFinalizationCertificate (e : BlockFinalizationCertError)
  | MissingBlockFooter
  | MissingParentMarker
  | MultipleBlockFooters
  | MultipleBlockHeaders
  | HeaderParentSlotMismatch (header_parent_slot bank_parent_slot : Slot)
  | MultipleUpdateParents
  | NanosecondClockOutOfBounds
  | SpuriousUpdateParent
  | AbandonedBank (u : UpdateParentV1)
  | InvalidRewardCerts (e : ValidatedRewardError)
  | UpdateBankFooter (e : CalcVoteRewardError).

(** What the calls thread through: the processor, the bank, the channel to the
    consensus pool and the migration status. *)
Record Replay := mkReplay {
  rp_processor : BlockComponentProcessor;
  rp_bank : BlockBank;
  rp_sender : option (Sender (list ConsensusMessage));
  rp_migration : MigrationStatus;
}.
Definition rp_with_processor (r : Replay) p : Replay := mkReplay p (rp_bank r) (rp_sender r) (rp_migration r).
Definition rp_with_bank (r : Replay) b : Replay := mkReplay (rp_processor r) b (rp_sender r) (rp_migration r).
Definition rp_with_sender (r : Replay) s : Replay := mkReplay (rp_processor r) (rp_bank r) s (rp_migration r).
Definition rp_with_migration (r : Replay) m : Replay := mkReplay (rp_processor r) (rp_bank r) (rp_sender r) m.
Definition has_parent_marker (p : BlockComponentProcessor) : bool :=
  bcp_has_header p || bool_decide (is_Some (bcp_update_parent p)).

Definition on_final (p : BlockComponentProcessor) (ms : MigrationStatus) (slot : Slot)
    : result BlockComponentProcessorError unit :=
  if negb (should_allow_block_markers (ms_phase ms) slot) then Ok tt
  else if negb (should_allow_fast_leader_handover (ms_phase ms) slot) && bool_decide (is_Some (bcp_update_parent p))
  then Err SpuriousUpdateParent
  else if negb (bcp_has_footer p) then Err MissingBlockFooter
  else if negb (has_parent_marker p) then Err MissingParentMarker
  else Ok tt.

Definition on_entry_batch (p : BlockComponentProcessor) (ms : MigrationStatus) (slot : Slot)
    : result BlockComponentProcessorError unit :=
  if negb (should_allow_block_markers (ms_phase ms) slot) then Ok tt
  else if negb (has_parent_marker p) then Err MissingParentMarker
  else Ok tt.

Definition on_header (p : BlockComponentProcessor) (header : BlockHeaderV1) (bank_parent_slot : Slot)
    : BlockComponentProcessor * result BlockComponentProcessorError unit :=
  if bcp_has_header p then (p, Err MultipleBlockHeaders)
  else if bool_decide (is_Some (bcp_update_parent p)) then (p, Err SpuriousUpdateParent)
  else if negb (bool_decide (bh_parent_slot header = bank_parent_slot)) then
    (p, Err (HeaderParentSlotMismatch (bh_parent_slot header) bank_parent_slot))
  else (mkProcessor true (bcp_has_footer p) (bcp_update_parent p), Ok tt).

Definition on_update_parent (p : BlockComponentProcessor) (u : UpdateParentV1)
    : BlockComponentProcessor * result BlockComponentProcessorError unit :=
  if bool_decide (is_Some (bcp_update_parent p)) then (p, Err MultipleUpdateParents)
  else
    let p := mkProcessor (bcp_has_header p) (bcp_has_footer p) (Some u) in
    (p, if bcp_has_header p then Err (AbandonedBank u) else Ok tt).

(** The outer option is the panic of an [ns_per_slot] that is not a [u64]. *)
Definition enforce_nanosecond_clock_bounds (b : BlockBank) (parent : ParentBank) (footer : BlockFooterV1)
    : option (result BlockComponentProcessorError unit) :=
  match par_nanosecond_clock parent with
  | None => Some (Ok tt)
  | Some parent_time_nanos =>
    let current_time_nanos := as_i64 (bf_block_producer_time_nanos footer) in
    rust_assert (bool_decide (bb_ns_per_slot b <= u64_max));;
    let '(lower, upper) := nanosecond_time_bounds (par_slot parent) parent_time_nanos (bb_slot b) (bb_ns_per_slot b) in
    Some (if bool_decide (lower <= current_time_nanos) && bool_decide (current_time_nanos <= upper) then Ok tt
          else Err NanosecondClockOutOfBounds)
  end.

(** The bank keeps the new clock when the payment fails. *)
Definition update_bank_with_footer_fields (b : BlockBank) (block_producer_time_nanos : Z) (bank_hash : Hash)
    (reward_cert : option ValidatedRewardCert) (final_cert_input : option (gset Z * Slot))
    : option (BlockBank * result CalcVoteRewardError unit) :=
  let b := update_clock_from_footer b block_producer_time_nanos in
  r ← calc_vote_rewards_update_vote_states (bb_pay b) reward_cert final_cert_input;
  match r with
  | Err e => Some (b, Err e)
  | Ok pay => Some (set_expected_bank_hash (bb_with_pay b pay) bank_hash, Ok tt)
  end.

(** [let _ = sender.send(..)]: a disconnected pool is ignored. *)
Definition send_cert (s : option (Sender (list ConsensusMessage))) (c : Certificate) : option (Sender (list ConsensusMessage)) :=
  (fun s => (send s [MCertificate c]).1) <$> s.

(** The certificates of the footer, checked. *)
Definition check_footer_certs (bank : RootBank) (footer : BlockFooterV1)
    : option (result BlockComponentProcessorError (option ValidatedRewardCert * option ValidatedBlockFinalizationCert)) :=
  match reward_try_new bank (bf_skip_reward_cert footer) (bf_notar_reward_cert footer) with
  | Err e => Some (Err (InvalidRewardCerts e))
  | Ok reward_cert =>
    match bf_final_cert footer with
    | None => Some (Ok (reward_cert, None))
    | Some final_cert =>
      r ← try_from_footer final_cert bank;
      Some match r with
      | Err e => Err (InvalidFinalizationCertificate e)
      | Ok final_cert => Ok (reward_cert, Some final_cert)
      end
    end
  end.

Definition on_footer (parent : ParentBank) (footer : BlockFooterV1) (r : Replay)
    : option (Replay * result BlockComponentProcessorError unit) :=
  let p := rp_processor r in
  if negb (has_parent_marker p) then Some (r, Err MissingParentMarker)
  else if bcp_has_footer p then Some (r, Err MultipleBlockFooters)
  else
    clock_ok ← enforce_nanosecond_clock_bounds (rp_bank r) parent footer;
    match clock_ok with
    | Err e => Some (r, Err e)
    | Ok _ =>
      certs ← check_footer_certs (bb_root (rp_bank r)) footer;
      match certs with
      | Err e => Some (r, Err e)
      | Ok (reward_cert, final_cert) =>
        let footer_input := (fun c => let '(signers, finalize_cert, _) := into_parts c in
                                      (signers, cert_slot (cert_type finalize_cert))) <$> final_cert in
        '(b, res) ← update_bank_with_footer_fields (rp_bank r) (as_i64 (bf_block_producer_time_nanos footer))
                      (bf_bank_hash footer) reward_cert footer_input;
        let r := rp_with_bank r b in
        match res with
        | Err e => Some (r, Err (UpdateBankFooter e))
        | Ok _ =>
          let sender := match into_parts <$> final_cert with
                        | Some (_, finalize_cert, notarize_cert) =>
                          let s := match notarize_cert with Some c => send_cert (rp_sender r) c | None => rp_sender r end in
                          send_cert s finalize_cert
                        | None => rp_sender r
                        end in
          Some (rp_with_sender (rp_with_processor r (mkProcessor (bcp_has_header p) true (bcp_update_parent p))) sender, Ok tt)
        end
      end
    end.

(** The panics: no block id, a genesis certificate the migration status refuses, and
    the final assertion. *)
Definition on_genesis_certificate (genesis_cert : GenesisCertificate) (r : Replay)
    : option (Replay * result BlockComponentProcessorError unit) :=
  let b := rp_bank r in
  let parent_slot := par_slot (bb_parent b) in
  if bool_decide (parent_slot = 0) then Some (r, Err GenesisCertificateInAlpenglowCluster)
  else
    parent_block_id ← bb_parent_block_id b;
    if negb (bool_decide ((parent_slot, parent_block_id) = (gc_slot genesis_cert, gc_block_id genesis_cert))) then
      Some (r, Err GenesisCertificateOnNonChild)
    else if bool_decide (is_Some (bb_genesis_certificate b)) then Some (r, Err GenesisCertificateAlreadyPopulated)
    else
      let genesis_cert := certificate_of_genesis genesis_cert in
      v ← verify_genesis_certificate (bb_root b) genesis_cert;
      match v with
      | Err _ => Some (r, Err GenesisCertificateFailedVerification)
      | Ok _ =>
        let r := rp_with_bank r (bb_with_genesis b (Some genesis_cert)) in
        if is_alpenglow_enabled (ms_phase (rp_migration r)) then Some (r, Ok tt)
        else
          block ← to_block (cert_type genesis_cert);
          ms ← set_genesis_block (rp_migration r) block;
          ms ← set_genesis_certificate ms genesis_cert;
          rust_assert (is_ready_to_enable (ms_phase ms));;
          Some (rp_with_migration r ms, Ok tt)
      end.

Definition on_marker (parent : ParentBank) (marker : BlockMarkerV1) (r : Replay)
    : option (Replay * result BlockComponentProcessorError unit) :=
  let slot := bb_slot (rp_bank r) in
  let phase := ms_phase (rp_migration r) in
  let markers_fully_enabled := should_allow_block_markers phase slot in
  let in_migration := is_in_migration phase in
  let early := Some (r, Err BlockComponentPreMigration) in
  match marker with
  | BlockHeader header =>
    if markers_fully_enabled || in_migration then
      let '(p, res) := on_header (rp_processor r) header (par_slot (bb_parent (rp_bank r))) in
      Some (rp_with_processor r p, res)
    else early
  | GenesisCertMarker genesis_cert =>
    if markers_fully_enabled || in_migration then on_genesis_certificate genesis_cert r else early
  | BlockFooter footer => if markers_fully_enabled then on_footer parent footer r else early
  | UpdateParent u =>
    if markers_fully_enabled then
      let '(p, res) := on_update_parent (rp_processor r) u in Some (rp_with_processor r p, res)
    else early
  end.

(** ** The components of a block

    The loop of [confirm_slot_with_components] over a block that is complete and has a
    parent; executing the entries is an argument. *)

Section block.
Context {Entry EntryError : Type}.
Inductive BlockstoreProcessorError :=
  | InvalidComponent (e : BlockComponentProcessorError)
  | InvalidEntries (e : EntryError).
Context (confirm_slot_entries : list Entry -> Replay -> option (Replay * result EntryError unit)).

Definition component_result (r : result BlockComponentProcessorError unit) : result BlockstoreProcessorError unit :=
  match r with Ok u => Ok u | Err e => Err (InvalidComponent e) end.
Definition on_component (parent : ParentBank) (c : BlockComponent Entry) (r : Replay)
    : option (Replay * result BlockstoreProcessorError unit) :=
  match c with
  | EntryBatch entries =>
    match on_entry_batch (rp_processor r) (rp_migration r) (bb_slot (rp_bank r)) with
    | Err e => Some (r, Err (InvalidComponent e))
    | Ok _ =>
      '(r, res) ← confirm_slot_entries entries r;
      Some (r, match res with Ok u => Ok u | Err e => Err (InvalidEntries e) end)
    end
  | BlockMarker marker =>
    '(r, res) ← on_marker parent marker r;
    Some (r, component_result res)
  end.
Fixpoint confirm_components (parent : ParentBank) (cs : list (BlockComponent Entry)) (r : Replay)
    : option (Replay * result BlockstoreProcessorError unit) :=
  match cs with
  | [] => Some (r, Ok tt)
  | c :: cs =>
    '(r, res) ← on_component parent c r;
    match res with
    | Err e => Some (r, Err e)
    | Ok _ =>
      let slot := bb_slot (rp_bank r) in
      let is_final := match cs with [] => true | _ => false end in
      let final := if is_final && negb (bool_decide (slot = 0))
                   then on_final (rp_processor r) (rp_migration r) slot else Ok tt in
      match final with
      | Err e => Some (r, Err (InvalidComponent e))
      | Ok _ => confirm_components parent cs r
      end
    end
  end.
End block.

(** ** The leader *)

Definition skew_block_producer_time_nanos (parent_slot : Slot) (parent_time_nanos : Z) (working_bank_slot : Slot)
    (working_bank_time_nanos ns_per_slot : Z) : Z :=
  let '(min_time, max_time) := nanosecond_time_bounds parent_slot parent_time_nanos working_bank_slot ns_per_slot in
  Z.min (Z.max working_bank_time_nanos min_time) max_time.

(** [now] is the system clock in nanoseconds; [None] the panic of a signature that
    cannot be compressed. *)
Definition produce_block_footer (b : BlockBank) (now : Z) (user_agent : list Z) (skip : option SkipRewardCertificate)
    (notar : option NotarRewardCertificate) (highest_finalized : option ValidatedBlockFinalizationCert)
    : option BlockFooterV1 :=
  let parent_time_nanos :=
    match bb_nanosecond_clock b with
    | Some t => t
    | None => Z.max i64_min (Z.min i64_max (clk_unix_timestamp (bb_clock b) * 1000000000))
    end in
  let ns_per_slot := if bool_decide (bb_ns_per_slot b <= u64_max) then bb_ns_per_slot b else u64_max in
  let time := skew_block_producer_time_nanos (par_slot (bb_parent b)) parent_time_nanos (bb_slot b) (as_i64 now)
                ns_per_slot in
  final_cert ← match highest_finalized with
               | None => Some None
               | Some f => Some <$> to_final_certificate f
               end;
  Some (mkBlockFooter 0 (as_u64 time) user_agent final_cert skip notar).

(** The footer part of [record_and_complete_block]: the certificates the rewards
    thread sent are checked, the footer is made and the leader's bank updated. *)
Inductive LeaderFooterError :=
  | LeaderRewardCerts (e : ValidatedRewardError)
  | LeaderBankFooter (e : CalcVoteRewardError).
Definition complete_block_footer (b : BlockBank) (now : Z) (user_agent : list Z) (certs : BuildRewardCertsRespSucc)
    (highest_finalized : option ValidatedBlockFinalizationCert)
    : option (BlockBank * result LeaderFooterError BlockFooterV1) :=
  let '(mkRewardCerts skip notar _) := certs in
  match reward_try_new (bb_root b) skip notar with
  | Err e => Some (b, Err (LeaderRewardCerts e))
  | Ok reward_cert =>
    footer ← produce_block_footer b now user_agent skip notar highest_finalized;
    '(b, res) ← update_bank_with_footer_fields b (as_i64 (bf_block_producer_time_nanos footer)) 0 reward_cert
                  (vote_rewards_input <$> highest_finalized);
    match res with
    | Err e => Some (b, Err (LeaderBankFooter e))
    | Ok _ => Some (b, Ok footer)
    end
  end.
End processor.
