(* ===== verification/BlockTheorems.v ===== *)
(** * What replay accepts, and that it accepts what a leader makes

    The order of the components of an accepted block, and the agreement of the
    leader's footer with its replay. *)

From S2P Require Import Prelude.
From S2P Require Import Messages.
From S2P Require Import EpochStakes.
From S2P Require Import CertBuilder.
From S2P Require Import Finalization.
From S2P Require Import Migration.
From S2P Require Import PoolVotes.
From S2P Require Import PoolCerts.
From S2P Require Import PoolSafety.
From S2P Require Import PoolTheorems.
From S2P Require Import CertVerify.
From S2P Require Import VerifyTheorems.
From S2P Require Import BankForks.
From S2P Require Import VoteHistory.
From S2P Require Import VoteStorage.
From S2P Require Import Voting.
From S2P Require Import Rewards.
From S2P Require Import RewardTheorems.
From S2P Require Import VoteReward.
From S2P Require Import BlockComponents.

(** ** The order of components *)

Section shape.
Context `{BlsVerify, RewardOps, VoteStateOps} {Entry EntryError : Type}.
Context (confirm_slot_entries : list Entry -> Replay -> option (Replay * result EntryError unit)).
(** Executing entries leaves the processor, the migration and the slots alone. *)
Definition entries_ok : Prop := forall entries r r' res, confirm_slot_entries entries r = Some (r', res) ->
  rp_processor r' = rp_processor r /\ rp_migration r' = rp_migration r /\
  bb_root (rp_bank r') = bb_root (rp_bank r) /\ bb_parent (rp_bank r') = bb_parent (rp_bank r).
Context (Hentries : entries_ok).

(** Whether a parent marker and a footer have been seen, as the components go by. *)
Inductive component_step (parent_slot : Slot) : bool * bool -> BlockComponent Entry -> bool * bool -> Prop :=
  | step_entries f entries : component_step parent_slot (true, f) (EntryBatch entries) (true, f)
  | step_header f h : bh_parent_slot h = parent_slot ->
      component_step parent_slot (false, f) (BlockMarker (BlockHeader h)) (true, f)
  | step_update f u : component_step parent_slot (false, f) (BlockMarker (UpdateParent u)) (true, f)
  | step_footer ft : component_step parent_slot (true, false) (BlockMarker (BlockFooter ft)) (true, true)
  | step_genesis m f g : component_step parent_slot (m, f) (BlockMarker (GenesisCertMarker g)) (m, f).

Definition progress (r : Replay) : bool * bool := (has_parent_marker (rp_processor r), bcp_has_footer (rp_processor r)).
Definition markers_allowed (r : Replay) : Prop :=
  should_allow_block_markers (ms_phase (rp_migration r)) (bb_slot (rp_bank r)) = true.
Definition same_block (r r' : Replay) : Prop :=
  rp_migration r' = rp_migration r /\ bb_root (rp_bank r') = bb_root (rp_bank r) /\ bb_parent (rp_bank r') = bb_parent (rp_bank r).

Lemma markers_enabled r : markers_allowed r -> is_alpenglow_enabled (ms_phase (rp_migration r)) = true.
Proof using Type. unfold markers_allowed. by destruct (ms_phase (rp_migration r)). Qed.

Lemma footer_fields_same b t h rc fin b' res : update_bank_with_footer_fields b t h rc fin = Some (b', res) ->
  bb_root b' = bb_root b /\ bb_parent b' = bb_parent b.
Proof using Type.
  unfold update_bank_with_footer_fields, update_clock_from_footer. destruct b as [r p i a n u l g c nc y eh].
  destruct a; simpl; destruct (calc_vote_rewards_update_vote_states y rc fin) as [[pay|e]|]; simpl; intros Hx; try done;
    injection Hx; intros; subst; done.
Qed.

Lemma on_component_step parent c r r' : markers_allowed r ->
  on_component confirm_slot_entries parent c r = Some (r', Ok tt) ->
  component_step (par_slot (bb_parent (rp_bank r))) (progress r) c (progress r') /\ same_block r r'.
Proof using Hentries.
  intros Hm. pose proof (markers_enabled r Hm) as Hen. unfold markers_allowed in Hm. unfold on_component, progress. destruct c as [entries|[ft|hd|u|g]].
  - unfold on_entry_batch. rewrite Hm. simpl. destruct (has_parent_marker (rp_processor r)) eqn:Eh; [|done]. simpl.
    destruct (confirm_slot_entries entries r) as [[r1 res]|] eqn:Ec; [|done]. simpl. intros [= -> Hres].
    destruct (Hentries _ _ _ _ Ec) as (Hp & ? & ? & ?). rewrite Hp, Eh. split; [constructor|done].
  - unfold on_marker, on_footer. rewrite Hm. destruct (has_parent_marker (rp_processor r)) eqn:Eh; [|done]. simpl.
    destruct (bcp_has_footer (rp_processor r)) eqn:Ef; [done|].
    destruct (enforce_nanosecond_clock_bounds _ _ _) as [[[]|]|]; [|done|done]. simpl.
    destruct (check_footer_certs _ _) as [[[rc fc]|]|]; [|done|done]. simpl.
    destruct (update_bank_with_footer_fields _ _ _ _ _) as [[b res]|] eqn:Eu; [|done]. simpl. destruct res; [|done].
    intros [= <-]. simpl. apply footer_fields_same in Eu as [? ?]. split; [|done].
    unfold has_parent_marker in *. simpl. rewrite Eh. constructor.
  - unfold on_marker, on_header. rewrite Hm. simpl. unfold has_parent_marker.
    destruct (bcp_has_header (rp_processor r)); [done|]. case_bool_decide as Hu; [done|].
    case_bool_decide; [|done]. simpl. intros [= <-]. split; [by constructor|done].
  - unfold on_marker, on_update_parent. rewrite Hm. unfold has_parent_marker.
    case_bool_decide as Hu; [done|]. simpl. destruct (bcp_has_header (rp_processor r)); [done|]. simpl.
    intros [= <-]. simpl. split; [constructor|done].
  - unfold on_marker, on_genesis_certificate. rewrite Hm. simpl. case_bool_decide; [done|].
    destruct (bb_parent_block_id (rp_bank r)) as [id|]; [|done]. simpl. case_bool_decide; [|done]. simpl.
    case_bool_decide; [done|]. destruct (verify_genesis_certificate _ _) as [[[]|]|]; [|done|done]. simpl. rewrite Hen.
    intros [= <-]. simpl. split; [constructor|]. unfold same_block. simpl. by destruct (rp_bank r).
Qed.

Definition is_genesis_marker (c : BlockComponent Entry) : Prop :=
  match c with BlockMarker (GenesisCertMarker _) => True | _ => False end.
Definition is_entries (c : BlockComponent Entry) : Prop := match c with EntryBatch _ => True | _ => False end.
Definition is_parent_marker (parent_slot : Slot) (c : BlockComponent Entry) : Prop :=
  match c with
  | BlockMarker (BlockHeader h) => bh_parent_slot h = parent_slot
  | BlockMarker (UpdateParent _) => True
  | _ => False
  end.
(** One parent marker, before any entries and the one footer. *)
Definition block_shape (parent_slot : Slot) (cs : list (BlockComponent Entry)) : Prop :=
  exists pre m mid ft post, cs = pre ++ m :: mid ++ BlockMarker (BlockFooter ft) :: post /\
    Forall is_genesis_marker pre /\ is_parent_marker parent_slot m /\
    Forall (fun c => is_entries c \/ is_genesis_marker c) (mid ++ post).

(** What is left to come, by the progress so far. *)
Definition rest_shape (parent_slot : Slot) (st : bool * bool) (cs : list (BlockComponent Entry)) : Prop :=
  match st with
  | (true, true) => Forall (fun c => is_entries c \/ is_genesis_marker c) cs
  | (true, false) => exists mid ft post, cs = mid ++ BlockMarker (BlockFooter ft) :: post /\
      Forall (fun c => is_entries c \/ is_genesis_marker c) (mid ++ post)
  | (false, _) => block_shape parent_slot cs
  end.
Lemma rest_shape_step parent_slot st c st' cs : component_step parent_slot st c st' -> (st.2 = true -> st.1 = true) ->
  rest_shape parent_slot st' cs -> rest_shape parent_slot st (c :: cs).
Proof using Type.
  intros Hs Hst. inversion Hs; subst; simpl in *.
  - destruct f; [intros HF; constructor; [by left|done]|]. intros (mid & ft & post & -> & HF).
    exists (EntryBatch entries :: mid), ft, post. split; [done|]. constructor; [by left|done].
  - destruct f; [by specialize (Hst eq_refl)|]. intros (mid & ft & post & -> & HF).
    exists [], (BlockMarker (BlockHeader h)), mid, ft, post. split; [done|]. by split; [constructor|].
  - destruct f; [by specialize (Hst eq_refl)|]. intros (mid & ft & post & -> & HF).
    exists [], (BlockMarker (UpdateParent u)), mid, ft, post. split; [done|]. by split; [constructor|].
  - intros HF. by exists [], ft, cs.
  - destruct m; [destruct f|].
    + intros HF. constructor; [by right|done].
    + intros (mid & ft & post & -> & HF). exists (BlockMarker (GenesisCertMarker g) :: mid), ft, post.
      split; [done|]. constructor; [by right|done].
    + intros (pre & m & mid & ft & post & -> & Hpre & Hrest). exists (BlockMarker (GenesisCertMarker g) :: pre), m, mid, ft, post.
      split; [done|]. split; [by constructor|done].
Qed.

Lemma confirm_shape parent cs : forall r r', markers_allowed r -> bb_slot (rp_bank r) <> 0 ->
  ((progress r).2 = true -> (progress r).1 = true) -> cs <> [] ->
  confirm_components confirm_slot_entries parent cs r = Some (r', Ok tt) ->
  rest_shape (par_slot (bb_parent (rp_bank r))) (progress r) cs /\ same_block r r'.
Proof using Hentries.
  induction cs as [|c cs IH]; intros r r' Hm Hslot Hst Hne; [done|]. cbn [confirm_components].
  destruct (on_component confirm_slot_entries parent c r) as [[r1 res]|] eqn:Ec; [|done]. cbn [mbind option_bind].
  destruct res as [[]|]; [|done]. destruct (on_component_step _ _ _ _ Hm Ec) as [Hstep Hsame].
  assert (bb_slot (rp_bank r1) = bb_slot (rp_bank r)) as Hs1 by (unfold bb_slot; by destruct Hsame as (_ & -> & _)).
  assert (markers_allowed r1) as Hm1 by (unfold markers_allowed; rewrite Hs1; by destruct Hsame as (-> & _)).
  rewrite Hs1. destruct cs as [|c' cs].
  - rewrite bool_decide_false by done. cbn [andb negb confirm_components]. destruct (on_final _ _ _) as [[]|] eqn:Ef; [|done]. intros [= <-]. split; [|done].
    eapply rest_shape_step; [done|done|]. unfold on_final in Ef. rewrite <-Hs1 in Ef. unfold markers_allowed in Hm1. rewrite Hm1 in Ef. simpl in Ef.
    destruct (negb _ && _); [done|]. unfold progress. destruct (bcp_has_footer (rp_processor r1)) eqn:E1; [|done].
    destruct (has_parent_marker (rp_processor r1)) eqn:E2; [|done]. simpl. constructor.
  - cbn [andb]. intros Hrest.
    assert (((progress r1).2 = true -> (progress r1).1 = true)) as Hst1
      by (clear -Hstep Hst; revert Hstep Hst; generalize (progress r) (progress r1); intros st st1 Hstep; destruct Hstep; simpl; auto).
    destruct (IH r1 r' Hm1 ltac:(by rewrite Hs1) Hst1 ltac:(done) Hrest) as [Hsh Hsame'].
    assert (bb_parent (rp_bank r1) = bb_parent (rp_bank r)) as Hp by apply Hsame. rewrite Hp in Hsh.
    split; [by eapply rest_shape_step|]. destruct Hsame as (A1 & A2 & A3), Hsame' as (B1 & B2 & B3). split; [congruence|]. split; congruence.
Qed.
End shape.

(** ** The leader's footer *)

Lemma as_i64_as_u64 t : i64_min <= t <= i64_max -> as_i64 (as_u64 t) = t.
Proof.
  intros Ht. unfold as_i64, as_u64. rewrite Zmod_mod. unfold i64_min, i64_max in *.
  destruct (decide (0 <= t)) as [H0|H0].
  - rewrite Z.mod_small by lia. by rewrite bool_decide_true by lia.
  - assert (t mod 2 ^ 64 = t + 2 ^ 64) as -> by (symmetry; apply (Z.mod_unique _ _ (-1)); lia).
    rewrite bool_decide_false by lia. lia.
Qed.
Lemma as_i64_range z : i64_min <= as_i64 z <= i64_max.
Proof.
  unfold as_i64, as_u64. pose proof (Z.mod_pos_bound z (2 ^ 64) ltac:(lia)). unfold i64_min, i64_max in *.
  case_bool_decide; lia.
Qed.
Lemma as_i64_small z : 0 <= z <= i64_max -> as_i64 z = z.
Proof.
  intros Hz. unfold as_i64, as_u64, i64_max in *. rewrite Z.mod_small by lia. by rewrite bool_decide_true by lia.
Qed.

(** The skewed time is within the bounds that replay checks. *)
Lemma skew_in_bounds ps pt s now ns : i64_min <= pt <= i64_max -> ps < s -> 0 < ns -> 2 * (s - ps) * ns <= i64_max ->
  0 <= ps -> i64_min <= now <= i64_max ->
  let '(lower, upper) := nanosecond_time_bounds ps pt s ns in
  let t := skew_block_producer_time_nanos ps pt s now ns in lower <= t <= upper /\ i64_min <= t <= i64_max.
Proof.
  intros Hpt Hs Hns Hd Hps Hnow. unfold skew_block_producer_time_nanos, nanosecond_time_bounds, sat_add_i64.
  assert (s -s ps = s - ps) as -> by (unfold sat_sub; lia).
  rewrite as_i64_small by nia. assert (1 <= 2 * (s - ps) * ns) by nia. unfold i64_min, i64_max in *. lia.
Qed.

Section footer.
Context `{BlsVerify, !BlsVerifyLaws, RewardOps, VoteStateOps}.
Context (E : Slot -> option VersionedEpochStakes) (HE : stakes_ok E).

Definition signing_cert (f : ValidatedBlockFinalizationCert) : Certificate :=
  match fc_kind f with KFinalize fin _ => fin | KFastFinalize cert => cert end.

Lemma footer_signers fc bank f : try_from_footer fc bank = Some (Ok f) -> extract_signers bank (signing_cert f) = Ok (fc_signers f).
Proof using Type.
  unfold try_from_footer. destruct (notar_aggregate fc).
  - destruct (certificate_of (CNotarize _ _) _) as [nc|]; [|done]. destruct (certificate_of (CFinalize _) _) as [c|]; [|done].
    destruct (footer_verify_certificate bank nc) as [[? ?]|]; [|done]. destruct (footer_verify_certificate bank c) as [[? ?]|]; [|done].
    destruct (check_percent (CNotarize _ _) _ _) as [[]|]; [|done|done]. cbn [mbind option_bind].
    destruct (check_percent (CFinalize _) _ _) as [[]|]; [|done|done]. cbn [mbind option_bind]. unfold finish_footer.
    destruct (extract_signers bank c) eqn:Ex; [|done]. by intros [= <-].
  - destruct (certificate_of _ _) as [c|]; [|done]. destruct (footer_verify_certificate bank c) as [[? ?]|]; [|done].
    destruct (check_percent _ _ _) as [[]|]; [|done|done]. cbn [mbind option_bind]. unfold finish_footer.
    destruct (extract_signers bank c) eqn:Ex; [|done]. by intros [= <-].
Qed.

(** A finalization as the pool keeps it, accepted by the bank. *)
Definition finalization_fits (bank : RootBank) (f : ValidatedBlockFinalizationCert) : Prop :=
  finalization_ok f /\ extract_signers bank (signing_cert f) = Ok (fc_signers f) /\
  match fc_kind f with
  | KFinalize fin nota => accepted E bank fin /\ accepted E bank nota
  | KFastFinalize cert => accepted E bank cert
  end.
Lemma finalization_replays bank f fc : bank_fits E bank -> finalization_fits bank f -> to_final_certificate f = Some fc ->
  try_from_footer fc bank = Some (Ok f).
Proof using HE H1.
  intros Hb (Hok & Hs & Hacc) Hto. destruct (footer_round_trip_aux E HE f fc bank Hb Hok Hto Hacc) as [signers Ht].
  pose proof (footer_signers _ _ _ Ht) as Hx. assert (signers = fc_signers f) as ->.
  { unfold signing_cert in *. simpl in Hx. rewrite Hs in Hx. by injection Hx. }
  rewrite Ht. by destruct f.
Qed.

(** The bank the leader is about to finish; replicas have the same one. *)
Record leader_setting (b : BlockBank) (highest : option ValidatedBlockFinalizationCert) : Prop := {
  ls_fits : bank_fits E (bb_root b);
  ls_clock : par_nanosecond_clock (bb_parent b) = bb_nanosecond_clock b;
  ls_time t : bb_nanosecond_clock b = Some t -> i64_min <= t <= i64_max;
  ls_slots : 0 <= par_slot (bb_parent b) < bb_slot b;
  ls_ns : 0 < bb_ns_per_slot b /\ 2 * (bb_slot b - par_slot (bb_parent b)) * bb_ns_per_slot b <= i64_max;
  ls_final f : highest = Some f -> finalization_fits (bb_root b) f;
}.

Lemma update_hash b t rc fin h b' : update_bank_with_footer_fields b t h rc fin = Some (b', Ok tt) ->
  forall h', update_bank_with_footer_fields b t h' rc fin = Some (set_expected_bank_hash b' h', Ok tt).
Proof using Type.
  unfold update_bank_with_footer_fields. destruct (calc_vote_rewards_update_vote_states _ _ _) as [[pay|]|]; [|done|done].
  cbn [mbind option_bind]. intros [= <-] h'. by destruct (bb_with_pay _ _).
Qed.
Lemma produced_footer b now ua skip notar highest ft : leader_setting b highest ->
  produce_block_footer b now ua skip notar highest = Some ft ->
  bf_skip_reward_cert ft = skip /\ bf_notar_reward_cert ft = notar /\
  match highest with None => bf_final_cert ft = None | Some f => exists fc, bf_final_cert ft = Some fc /\ to_final_certificate f = Some fc end /\
  enforce_nanosecond_clock_bounds b (bb_parent b) ft = Some (Ok tt).
Proof using Type.
  intros [L1 L2 L3 L4 [L5 L6] _] Hp. assert (bb_ns_per_slot b <= u64_max) as Hns by (unfold i64_max, u64_max in *; nia).
  unfold produce_block_footer in Hp. rewrite (bool_decide_true (bb_ns_per_slot b <= u64_max)) in Hp by done.
  assert (exists fco, match highest with None => Some None | Some f => Some <$> to_final_certificate f end = Some fco /\
    ft = mkBlockFooter 0 (bf_block_producer_time_nanos ft) ua fco skip notar) as (fco & Hfco & Hft).
  { destruct (match highest with None => _ | Some _ => _ end) as [fco|]; [|done]. simpl in Hp. injection Hp as <-. by exists fco. }
  rewrite Hfco in Hp. simpl in Hp. rewrite Hft. simpl. split; [done|]. split; [done|]. split.
  { destruct highest as [f|]; [|by injection Hfco as <-]. apply fmap_Some in Hfco as (fc & ? & ->). eauto. }
  unfold enforce_nanosecond_clock_bounds. rewrite L2. destruct (bb_nanosecond_clock b) as [t|]; [|done].
  rewrite (bool_decide_true (bb_ns_per_slot b <= u64_max)) by done. injection Hp as Hp. rewrite <-Hp.
  cbn [rust_assert mbind option_bind bf_block_producer_time_nanos].
  pose proof (skew_in_bounds (par_slot (bb_parent b)) t (bb_slot b) (as_i64 now) (bb_ns_per_slot b) (L3 t eq_refl)
    ltac:(lia) L5 L6 ltac:(lia) (as_i64_range now)) as Hsk.
  destruct (nanosecond_time_bounds _ _ _ _) as [lower upper]. destruct Hsk as [[Hl Hu] Hr].
  rewrite as_i64_as_u64 by done. by rewrite !bool_decide_true.
Qed.

(** What the replay of a footer hands to the consensus pool. *)
Definition finalization_messages (f : option ValidatedBlockFinalizationCert) : list (list ConsensusMessage) :=
  match fc_kind <$> f with
  | None => []
  | Some (KFinalize fin nota) => [[MCertificate nota]; [MCertificate fin]]
  | Some (KFastFinalize cert) => [[MCertificate cert]]
  end.

Lemma leader_footer_aux b now ua certs highest bl ft r h : leader_setting b highest ->
  complete_block_footer b now ua certs highest = Some (bl, Ok ft) ->
  rp_bank r = b -> has_parent_marker (rp_processor r) = true -> bcp_has_footer (rp_processor r) = false ->
  let ft := mkBlockFooter h (bf_block_producer_time_nanos ft) (bf_block_user_agent ft) (bf_final_cert ft)
              (bf_skip_reward_cert ft) (bf_notar_reward_cert ft) in
  exists r', on_footer (bb_parent b) ft r = Some (r', Ok tt) /\ rp_bank r' = set_expected_bank_hash bl h /\
    forall s, rp_sender r = Some s -> connected s = true ->
      exists s', rp_sender r' = Some s' /\ sent s' = sent s ++ finalization_messages highest.
Proof using HE H1.
  intros Hset Hl Hb Hm Hf. cbv zeta. unfold complete_block_footer in Hl. destruct certs as [skip notar vs].
  destruct (reward_try_new (bb_root b) skip notar) as [rc|] eqn:Erc; [|done].
  destruct (produce_block_footer b now ua skip notar highest) as [ft'|] eqn:Ep; [|done]. cbn [mbind option_bind] in Hl.
  destruct (update_bank_with_footer_fields b _ _ _ _) as [[b' res]|] eqn:Eu; [|done]. cbn [mbind option_bind] in Hl.
  destruct res as [[]|]; [|done]. injection Hl as -> ->.
  destruct (produced_footer b now ua skip notar highest ft Hset Ep) as (Hsk & Hno & Hfc & Hcl).
  unfold on_footer. rewrite Hm, Hf, Hb. cbn [negb]. set (ft' := mkBlockFooter h _ _ _ _ _).
  change (enforce_nanosecond_clock_bounds b (bb_parent b) ft') with (enforce_nanosecond_clock_bounds b (bb_parent b) ft).
  rewrite Hcl. cbn [mbind option_bind].
  assert (check_footer_certs (bb_root b) ft = Some (Ok (rc, highest))) as Hck.
  { unfold check_footer_certs. rewrite Hsk, Hno, Erc. destruct highest as [f|]; [|by rewrite Hfc].
    destruct Hfc as (fc & -> & Hto). rewrite (finalization_replays (bb_root b) f fc); [done|apply Hset|by apply Hset|done]. }
  change (check_footer_certs (bb_root b) ft') with (check_footer_certs (bb_root b) ft). rewrite Hck. cbn [mbind option_bind].
  assert ((fun c => let '(signers, finalize_cert, _) := into_parts c in (signers, cert_slot (cert_type finalize_cert))) <$> highest =
    vote_rewards_input <$> highest) as ->.
  { destruct highest as [[[fin nota|c] K]|]; done. }
  unfold ft'. cbn [bf_block_producer_time_nanos bf_bank_hash].
  rewrite (update_hash _ _ _ _ _ _ Eu h). cbn [mbind option_bind]. eexists. split; [done|]. split; [done|].
  intros s Hs Hc. destruct s as [l c f]. simpl in *. subst c. unfold send_cert. rewrite Hs.
  destruct highest as [[[fin nota|c] K]|]; simpl; eexists; (split; [done|]); simpl; rewrite <-?app_assoc, ?app_nil_r; done.
Qed.
End footer.

(** ** Example *)

Module BlockExample.
#[export] Existing Instance additive_bls.
#[export] Existing Instance additive_bls_laws.
#[export] Existing Instance VerifyExample.oracle.
#[export] Existing Instance VerifyExample.oracle_laws.
#[export] Existing Instance RewardExample.reward_oracle.
#[export] Existing Instance RewardStateExample.state_ops.

Definition root : RootBank := mkRootBank 13 None (fun _ => 0) {[0 := Example3.stakes]}.
Definition bank : BlockBank :=
  mkBlockBank root (mkParentBank 12 0 (Some 1000)) (Some 4) true 400 0 (fun _ => 1) None (mkClock 12 0 0 1 0) (Some 1000)
    RewardStateExample.bank None.
Definition fin : Certificate := mkCertificate (CFinalize 5) 0 [0; 2; 2].
Definition nota : Certificate := mkCertificate (CNotarize 5 7) 0 [0; 2; 2].
Definition finalized : ValidatedBlockFinalizationCert := mkFinalization (KFinalize fin nota) {[1; 2]}.
Definition certs : BuildRewardCertsRespSucc :=
  mkRewardCerts (Some (mkSkipReward 5 (mkCompressed 0) [0; 0; 0; 2])) (Some (mkNotarReward 5 7 (mkCompressed 0) [0; 2])) [3; 1].
Definition completed : BlockBank * BlockFooterV1 :=
  match complete_block_footer bank 5000 [] certs (Some finalized) with
  | Some (b, Ok ft) => (b, ft)
  | _ => (bank, mkBlockFooter 0 0 [] None None None)
  end.
Definition replay (p : BlockComponentProcessor) : Replay :=
  mkReplay p bank (Some (mkSender [] true false)) (status_new (FullAlpenglowEpoch 0 fin)).
Definition confirm (entries : list unit) (r : Replay) : option (Replay * result unit unit) := Some (r, Ok tt).
Definition block : list (BlockComponent unit) :=
  [BlockMarker (BlockHeader (mkBlockHeader 12 4)); EntryBatch [tt]; BlockMarker (BlockFooter completed.2); EntryBatch [tt]].
End BlockExample.

(** ** Properties *)

#[local] Existing Instance additive_bls.
#[local] Existing Instance additive_bls_laws.
#[local] Existing Instance VerifyExample.oracle.
#[local] Existing Instance VerifyExample.oracle_laws.
#[local] Existing Instance RewardExample.reward_oracle.
#[local] Existing Instance RewardStateExample.state_ops.

(** C23: An Alpenglow block that replay accepts has one parent marker, a header of the
    bank's parent or an update-parent, before all entries, and one footer after it;
    nothing else but genesis certificates. *)
Theorem accepted_block_shape `{BlsVerify, RewardOps, VoteStateOps} {Entry EntryError}
    (confirm : list Entry -> Replay -> option (Replay * result EntryError unit)) parent cs r r'
    (Hentries : entries_ok confirm) (Hm : markers_allowed r) (Hslot : bb_slot (rp_bank r) <> 0) (Hne : cs <> [])
    (Hp : rp_processor r = processor_default)
    (Hok : confirm_components confirm parent cs r = Some (r', Ok tt)) :
  block_shape (par_slot (bb_parent (rp_bank r))) cs.
Proof.
  destruct (confirm_shape confirm Hentries parent cs r r' Hm Hslot) as [Hs _]; [|done|done|].
  - unfold progress. by rewrite Hp.
  - unfold progress in Hs. by rewrite Hp in Hs.
Qed.
Lemma accepted_block_shape_witness :
  block_shape 12 BlockExample.block.
Proof.
  assert (exists r', confirm_components BlockExample.confirm (mkParentBank 12 0 (Some 1000)) BlockExample.block
    (BlockExample.replay processor_default) = Some (r', Ok tt)) as [r' Hr'] by (eexists; vm_compute; reflexivity).
  refine (accepted_block_shape BlockExample.confirm _ BlockExample.block (BlockExample.replay processor_default) r' _ _ _ _ _ Hr').
  - clear Hr'. intros entries r r2 res [= <- <-]. repeat split; reflexivity.
  - by vm_compute.
  - by vm_compute.
  - unfold BlockExample.block. discriminate.
  - reflexivity.
Defined.

(** C24: Replay agrees with the leader: the footer a leader completes its block with,
    with the bank hash filled in, passes every check of a replica that has the same
    bank, moves the replica's bank to exactly the leader's (its clock, the rewards and
    the vote accounts), and hands the certificates of the finalized block to the
    replica's consensus pool. *)
Theorem leader_footer_replays `{BlsVerify, !BlsVerifyLaws, RewardOps, VoteStateOps} E b now ua certs highest bl ft r h
    (HE : stakes_ok E) (Hset : leader_setting E b highest)
    (Hdone : complete_block_footer b now ua certs highest = Some (bl, Ok ft))
    (Hb : rp_bank r = b) (Hm : has_parent_marker (rp_processor r) = true) (Hf : bcp_has_footer (rp_processor r) = false) :
  let ft := mkBlockFooter h (bf_block_producer_time_nanos ft) (bf_block_user_agent ft) (bf_final_cert ft)
              (bf_skip_reward_cert ft) (bf_notar_reward_cert ft) in
  exists r', on_footer (bb_parent b) ft r = Some (r', Ok tt) /\ rp_bank r' = set_expected_bank_hash bl h /\
    forall s, rp_sender r = Some s -> connected s = true ->
      exists s', rp_sender r' = Some s' /\ sent s' = sent s ++ finalization_messages highest.
Proof. by apply (leader_footer_aux E HE b now ua certs). Qed.
Lemma leader_footer_replays_witness :
  let r := BlockExample.replay (mkProcessor true false None) in
  exists r', (forall s, rp_sender r = Some s -> connected s = true ->
    exists s', rp_sender r' = Some s' /\ sent s' = sent s ++ [[MCertificate BlockExample.nota]; [MCertificate BlockExample.fin]]) /\
    pb_stored (bb_pay (rp_bank r')) !! 1 = Some (mkAccount 5 [0; 29; 0; 1; 5; 5] 9 false 0).
Proof.
  intros r.
  assert (complete_block_footer BlockExample.bank 5000 [] BlockExample.certs (Some BlockExample.finalized) =
    Some (BlockExample.completed.1, Ok BlockExample.completed.2)) as Hd by (vm_compute; reflexivity).
  assert (leader_setting Example3.E BlockExample.bank (Some BlockExample.finalized)) as Hset.
  { split.
    - intros s es. unfold epoch_stakes_from_slot. simpl. by rewrite lookup_singleton_eq.
    - reflexivity.
    - intros t Ht. injection Ht as <-. unfold i64_min, i64_max. lia.
    - unfold bb_slot. simpl. lia.
    - unfold bb_slot, i64_max. simpl. lia.
    - intros f [= <-]. split; [exists 5, 7; split; reflexivity|]. split; [vm_compute; reflexivity|].
      split; exists 75; (split; [vm_compute; reflexivity|vm_compute; discriminate]). }
  destruct (leader_footer_replays Example3.E BlockExample.bank 5000 [] BlockExample.certs (Some BlockExample.finalized) _ _ r 77
    Example3.stakes_ok_E Hset Hd eq_refl eq_refl eq_refl) as (r' & _ & Hb & Hs).
  exists r'. split; [exact Hs|]. rewrite Hb. vm_compute. reflexivity.
Defined.
