(* ===== verification/EventHandler.v ===== *)
(** * The event handler

    [votor/src/event_handler.rs] with [votor/src/root_utils.rs]: the thread that
    reacts to the events of the consensus pool, of replay and of the timers by
    voting, setting timers and setting the root.  Its state is one record, with the
    contexts the source passes around; a function of the source is a computation of
    the monad [M], in which [None] is a panic and [Err] an error returned with [?]. *)

From S2P Require Import Prelude.
From S2P Require Import Messages.
From S2P Require Import EpochStakes.
From S2P Require Import CertBuilder.
From S2P Require Import Finalization.
From S2P Require Import BankForks.
From S2P Require Import VoteHistory.
From S2P Require Import VoteStorage.
From S2P Require Import Voting.
From S2P Require Import Timers.

Inductive RepairEvent := FetchBlock (slot : Slot) (block_id : Hash).
Inductive ConsensusMetricsEvent :=
  | MetricsVote (id : Pubkey) (vote : Vote)
  | StartOfSlot (slot : Slot)
  | BlockHashSeen (leader : Pubkey) (slot : Slot)
  | SlotFinalized (slot : Slot).

(** The calls [check_and_handle_new_root] and [set_root] make to other services, in
    order. *)
Inductive RootAction :=
  | LeaderScheduleSetRoot (slot : Slot)
  | BlockstoreSetRoots (slots : list Slot)
  | BankForksSetRoot (slot : Slot) (removed : list Slot)
  | MarkRooted (slot : Slot)
  | NotifyRoots (slots : list Slot)
  | NotifyNewRootBank (slot : Slot)
  | NotifyNewRootedChain (slots : list Slot)
  | InsertOptimisticSlot (slot : Slot) (hash : Hash)
  | NotifyOptimisticallyConfirmed (slot : Slot).

(** [RootContext] and what is outside of the event loop: the snapshot controller, the
    hash of a bank that is frozen, whether the blockstore accepts the roots, and
    which subscribers there are. *)
Record RootContext := mkRootContext {
  rc_freeze : ForkBank -> Hash;
  rc_snapshot : Slot -> option Slot;
  rc_set_roots_ok : bool;
  rc_rpc_subscriptions : bool;
  rc_bank_notification_sender : option bool;
}.

Inductive EventLoopError :=
  | ReceiverDisconnected
  | SenderDisconnected
  | VotingError (e : VoteError)
  | SetIdentityError (e : VoteHistoryError).

Section handler.
Context `{VotingOps, StorageOps}.

Record Handler := mkHandler {
  eh_my_pubkey : Pubkey;
  eh_pending_blocks : gmap Slot (list (Block * Block));
  eh_finalized_blocks : gset Block;
  eh_received_shred : gset Slot;
  eh_standstill_slot : option Slot;
  eh_vctx : VotingContext;
  eh_forks : BankForks;
  eh_keypair : Keypair;
  eh_files : files;
  eh_leader_window_sender : Sender LeaderWindowInfo;
  eh_highest_parent_ready : Slot * Block;
  eh_repair_sender : Sender RepairEvent;
  eh_metrics_sender : Sender (list ConsensusMetricsEvent);
  eh_bls_sender : Sender BLSOp;
  eh_timers : Timers;
  eh_root_log : list RootAction;
  eh_votes : list BLSOp;
}.

Definition set_local (s : Handler) pending finalized shred : Handler :=
  mkHandler (eh_my_pubkey s) pending finalized shred (eh_standstill_slot s) (eh_vctx s) (eh_forks s)
    (eh_keypair s) (eh_files s) (eh_leader_window_sender s) (eh_highest_parent_ready s) (eh_repair_sender s)
    (eh_metrics_sender s) (eh_bls_sender s) (eh_timers s) (eh_root_log s) (eh_votes s).
Definition set_pending (s : Handler) pending : Handler :=
  set_local s pending (eh_finalized_blocks s) (eh_received_shred s).
Definition set_standstill (s : Handler) standstill : Handler :=
  mkHandler (eh_my_pubkey s) (eh_pending_blocks s) (eh_finalized_blocks s) (eh_received_shred s) standstill
    (eh_vctx s) (eh_forks s) (eh_keypair s) (eh_files s) (eh_leader_window_sender s) (eh_highest_parent_ready s)
    (eh_repair_sender s) (eh_metrics_sender s) (eh_bls_sender s) (eh_timers s) (eh_root_log s) (eh_votes s).
Definition set_vctx (s : Handler) vctx : Handler :=
  mkHandler (eh_my_pubkey s) (eh_pending_blocks s) (eh_finalized_blocks s) (eh_received_shred s)
    (eh_standstill_slot s) vctx (eh_forks s) (eh_keypair s) (eh_files s) (eh_leader_window_sender s)
    (eh_highest_parent_ready s) (eh_repair_sender s) (eh_metrics_sender s) (eh_bls_sender s) (eh_timers s)
    (eh_root_log s) (eh_votes s).
Definition set_identity_of (s : Handler) my_pubkey vctx : Handler :=
  mkHandler my_pubkey (eh_pending_blocks s) (eh_finalized_blocks s) (eh_received_shred s)
    (eh_standstill_slot s) vctx (eh_forks s) (eh_keypair s) (eh_files s) (eh_leader_window_sender s)
    (eh_highest_parent_ready s) (eh_repair_sender s) (eh_metrics_sender s) (eh_bls_sender s) (eh_timers s)
    (eh_root_log s) (eh_votes s).
Definition set_senders (s : Handler) leader_window highest repair metrics bls : Handler :=
  mkHandler (eh_my_pubkey s) (eh_pending_blocks s) (eh_finalized_blocks s) (eh_received_shred s)
    (eh_standstill_slot s) (eh_vctx s) (eh_forks s) (eh_keypair s) (eh_files s) leader_window highest repair
    metrics bls (eh_timers s) (eh_root_log s) (eh_votes s).
Definition set_timers (s : Handler) timers : Handler :=
  mkHandler (eh_my_pubkey s) (eh_pending_blocks s) (eh_finalized_blocks s) (eh_received_shred s)
    (eh_standstill_slot s) (eh_vctx s) (eh_forks s) (eh_keypair s) (eh_files s) (eh_leader_window_sender s)
    (eh_highest_parent_ready s) (eh_repair_sender s) (eh_metrics_sender s) (eh_bls_sender s) timers
    (eh_root_log s) (eh_votes s).
Definition set_forks (s : Handler) forks log : Handler :=
  mkHandler (eh_my_pubkey s) (eh_pending_blocks s) (eh_finalized_blocks s) (eh_received_shred s)
    (eh_standstill_slot s) (eh_vctx s) forks (eh_keypair s) (eh_files s) (eh_leader_window_sender s)
    (eh_highest_parent_ready s) (eh_repair_sender s) (eh_metrics_sender s) (eh_bls_sender s) (eh_timers s)
    log (eh_votes s).
Definition set_votes (s : Handler) votes : Handler :=
  mkHandler (eh_my_pubkey s) (eh_pending_blocks s) (eh_finalized_blocks s) (eh_received_shred s)
    (eh_standstill_slot s) (eh_vctx s) (eh_forks s) (eh_keypair s) (eh_files s) (eh_leader_window_sender s)
    (eh_highest_parent_ready s) (eh_repair_sender s) (eh_metrics_sender s) (eh_bls_sender s) (eh_timers s)
    (eh_root_log s) votes.

(** ** The monad *)

Definition M (A : Type) : Type := Handler -> option (Handler * result EventLoopError A).

#[global] Instance M_ret : MRet M := fun A a s => Some (s, Ok a).
#[global] Instance M_bind : MBind M := fun A B k m s =>
  match m s with
  | None => None
  | Some (s, Err e) => Some (s, Err e)
  | Some (s, Ok a) => k a s
  end.
Definition throw {A} (e : EventLoopError) : M A := fun s => Some (s, Err e).
Definition gets {A} (f : Handler -> A) : M A := fun s => Some (s, Ok (f s)).
Definition modify (f : Handler -> Handler) : M unit := fun s => Some (f s, Ok tt).
(** A computation that may panic. *)
Definition unwrap {A} (f : Handler -> option A) : M A :=
  fun s => match f s with Some a => Some (s, Ok a) | None => None end.
Fixpoint for_each {A} (f : A -> M unit) (l : list A) : M unit :=
  match l with
  | [] => mret tt
  | x :: l => f x ;; for_each f l
  end.

Definition history (s : Handler) : VoteHistory := vc_vote_history (eh_vctx s).

(** [votes.push(generate_vote_message(vote, is_refresh, vctx)?)]. *)
Definition cast_vote (vote : Vote) (is_refresh : bool) : M unit := fun s =>
  bank ← root_bank (eh_forks s);
  '(c, r) ← generate_vote_message vote is_refresh bank (eh_vctx s);
  let s := set_vctx s c in
  Some (match r with
        | Ok (Some bls_op) => (set_votes s (eh_votes s ++ [bls_op]), Ok tt)
        | Ok None => (s, Ok tt)
        | Err e => (s, Err (VotingError e))
        end).

Definition send_commitment (t : CommitmentType) (slot : Slot) : M unit := fun s =>
  let '(c, ok) := update_commitment_cache t slot (vc_commitment_sender (eh_vctx s)) in
  let s := set_vctx s (with_commitment_sender (eh_vctx s) c) in
  Some (s, if ok : bool then Ok tt else Err (VotingError CommitmentSenderError)).

Definition send_metrics (events : list ConsensusMetricsEvent) : M unit := fun s =>
  let '(m, ok) := send (eh_metrics_sender s) events in
  Some (set_senders s (eh_leader_window_sender s) (eh_highest_parent_ready s) (eh_repair_sender s) m (eh_bls_sender s),
        if ok : bool then Ok tt else Err SenderDisconnected).

(** [try_send], and the blocking [send] when the channel is full. *)
Definition request_repair (block : Block) : M unit := fun s =>
  let event := FetchBlock block.1 block.2 in
  let '(r, ok) := match try_send (eh_repair_sender s) event with
                  | (r, Ok _) => (r, true)
                  | (r, Err TrySendFull) => send r event
                  | (r, Err TrySendDisconnected) => (r, false)
                  end in
  Some (set_senders s (eh_leader_window_sender s) (eh_highest_parent_ready s) r (eh_metrics_sender s) (eh_bls_sender s),
        if ok : bool then Ok tt else Err SenderDisconnected).

(** ** Voting *)

Definition try_final (block : Block) : M bool :=
  let '(slot, block_id) := block in
  notarized ← gets (fun s => is_block_notarized (history s) block);
  if negb notarized then mret false
  else
    over ← unwrap (fun s => its_over (history s) slot);
    if over : bool then mret false
    else
      bad ← unwrap (fun s => bad_window (history s) slot);
      if bad : bool then mret false
      else
        notar ← unwrap (fun s => voted_notar (history s) slot);
        if bool_decide (notar <> Some block_id) then mret false
        else
          cast_vote (Finalize slot) false;;
          mret true.

(** Whether [block] may be notarized on [parent_block]. *)
Definition notar_allowed (slot : Slot) (parent_block : Block) : M bool :=
  let '(parent_slot, parent_block_id) := parent_block in
  if bool_decide (leader_slot_index slot = 0) || bool_decide (slot = 1) then
    gets (fun s => is_parent_ready (history s) slot parent_block)
  else if bool_decide ((parent_slot +s 1) <> slot) then mret false
  else
    notar ← unwrap (fun s => voted_notar (history s) parent_slot);
    mret (bool_decide (notar = Some parent_block_id)).

Definition try_notar (block parent_block : Block) : M bool :=
  let '(slot, block_id) := block in
  v ← unwrap (fun s => voted (history s) slot);
  if v : bool then mret false
  else
    allowed ← notar_allowed slot parent_block;
    if negb allowed then mret false
    else
      cast_vote (Notarize slot block_id) false;;
      send_commitment CtNotarize slot;;
      modify (fun s => set_pending s (delete slot (eh_pending_blocks s)));;
      try_final (slot, block_id);;
      mret true.

Definition check_pending_blocks : M unit :=
  blocks_to_check ← gets (fun s => concat (btree_iter (eh_pending_blocks s)).*2);
  for_each (fun b => try_notar b.1 b.2;; mret tt) blocks_to_check.

(** The range [start..=last]. *)
Definition skip_range (root_slot slot : Slot) : list Slot :=
  let start := Z.max (Z.max (first_of_consecutive_leader_slots slot) root_slot) 1 in
  seqZ start (last_of_consecutive_leader_slots slot - start + 1).

Definition try_skip_window (slot : Slot) : M unit :=
  root_slot ← unwrap (fun s => fb_slot <$> root_bank (eh_forks s));
  for_each (fun s =>
    v ← unwrap (fun st => voted (history st) s);
    if v : bool then mret tt else cast_vote (Skip s) false) (skip_range root_slot slot).

Definition refresh_votes (highest_finalized_slot : Slot) : M unit :=
  votes ← gets (fun s => votes_cast_since (history s) highest_finalized_slot);
  for_each (fun vote => cast_vote vote true) votes.

(** ** Rooting *)

Definition split_off_slots (root : Slot) (s : gset Slot) : gset Slot := filter (fun x => root <= x) s.
Definition split_off_blocks (root : Block) (s : gset Block) : gset Block := filter (fun b => leq root b) s.

(** [root_utils::check_and_handle_new_root] with its callee [set_bank_forks_root]; the
    state is the forks, the second result the calls to the other services. *)
Definition check_and_handle_new_root (rctx : RootContext) (parent_slot new_root : Slot)
    (highest_super_majority_root : option Slot) (forks : BankForks) : option (BankForks * list RootAction) :=
  root_bank ← forks_get forks new_root;
  let rooted_banks := bank_parents root_bank in
  let oldest_parent := fb_parent_slot <$> last rooted_banks in
  let rooted_banks := rooted_banks ++ [root_bank] in
  let rooted_slots := fb_slot <$> rooted_banks in
  let rooted_slots_with_parents :=
    match rc_bank_notification_sender rctx with
    | Some true => Some (rooted_slots ++ [default parent_slot oldest_parent])
    | _ => None
    end in
  rust_assert (rc_set_roots_ok rctx);;
  '(forks, removed) ← forks_set_root (rc_freeze rctx) (rc_snapshot rctx new_root) forks new_root highest_super_majority_root;
  Some (forks,
    [LeaderScheduleSetRoot (fb_slot root_bank); BlockstoreSetRoots rooted_slots;
     BankForksSetRoot new_root (fb_slot <$> removed); MarkRooted new_root] ++
    (if rc_rpc_subscriptions rctx then [NotifyRoots rooted_slots] else []) ++
    match rc_bank_notification_sender rctx with
    | None => []
    | Some _ => NotifyNewRootBank (fb_slot root_bank) ::
        match rooted_slots_with_parents with Some new_chain => [NotifyNewRootedChain new_chain] | None => [] end
    end).

(** [root_utils::set_root]. *)
Definition handler_set_root (rctx : RootContext) (new_root : Slot) : M unit := fun s =>
  let s := set_vctx s (with_history (eh_vctx s) (vh_set_root (history s) new_root)) in
  let s := set_local s (retain_keys new_root (eh_pending_blocks s))
             (split_off_blocks (new_root, 0) (eh_finalized_blocks s))
             (split_off_slots new_root (eh_received_shred s)) in
  '(forks, log) ← check_and_handle_new_root rctx new_root new_root (Some new_root) (eh_forks s);
  hash ← forks_bank_hash forks new_root;
  Some (set_forks s forks
          (eh_root_log s ++ log ++ [InsertOptimisticSlot new_root hash] ++
           match rc_bank_notification_sender rctx with
           | Some _ => [NotifyOptimisticallyConfirmed new_root]
           | None => []
           end), Ok tt).

(** The test of [check_rootable_blocks] on one finalized block. *)
Definition rootable (forks : BankForks) (h : VoteHistory) (b : Block) : option (option Slot) :=
  match forks_get forks b.1 with
  | None => Some None
  | Some bank =>
    if negb (bool_decide (bf_root forks < b.1)) then Some None
    else
      v ← voted h b.1;
      Some (if v && bank_frozen bank && bool_decide (fb_block_id bank = Some b.2) then Some b.1 else None)
  end.
Fixpoint rootable_slots (forks : BankForks) (h : VoteHistory) (bs : list Block) : option (list Slot) :=
  match bs with
  | [] => Some []
  | b :: bs =>
    r ← rootable forks h b;
    rest ← rootable_slots forks h bs;
    Some (option_list r ++ rest)
  end.

Definition check_rootable_blocks (rctx : RootContext) : M unit :=
  slots ← unwrap (fun s => rootable_slots (eh_forks s) (history s) (btree_set_iter (eh_finalized_blocks s)));
  match iter_max slots with
  | None => mret tt
  | Some new_root => handler_set_root rctx new_root
  end.

(** ** Events *)

(** [a >= Some b] on [Option<Slot>], where [None] is the least. *)
Definition option_slot_ge (a : option Slot) (b : Slot) : bool :=
  match a with Some a => bool_decide (b <= a) | None => false end.

Definition add_missing_parent_ready (s : Handler) (finalized_block : Block) : option Block :=
  let '(slot, block_id) := finalized_block in
  let first_slot_of_window := first_of_consecutive_leader_slots slot in
  if bool_decide (first_slot_of_window = slot) || bool_decide (first_slot_of_window = 0) then None
  else if option_slot_ge (highest_parent_ready_slot (history s)) first_slot_of_window
          || negb (bool_decide (finalized_block ∈ eh_finalized_blocks s)) then None
  else
    bank ← forks_get (eh_forks s) slot;
    if negb (bank_frozen bank) then None
    else if bool_decide (fb_block_id bank <> Some block_id) then None
    else
      parent_bank ← fb_parent bank;
      parent_block_id ← fb_block_id parent_bank;
      Some (fb_slot parent_bank, parent_block_id).

Definition handle_parent_ready_event (now : Instant) (slot : Slot) (parent_block : Block) : M unit :=
  should_set_timeouts ← gets (fun s => (add_parent_ready (history s) slot parent_block).2);
  modify (fun s => set_vctx s (with_history (eh_vctx s) (add_parent_ready (history s) slot parent_block).1));;
  check_pending_blocks;;
  (if should_set_timeouts : bool then
     delta_block ← unwrap (fun s => fb_ns_per_slot <$> root_bank (eh_forks s));
     timers ← unwrap (fun s => set_timeouts (eh_timers s) slot now (eh_standstill_slot s) delta_block);
     modify (fun s => set_timers s timers)
   else mret tt);;
  modify (fun s =>
    if bool_decide ((eh_highest_parent_ready s).1 < slot)
    then set_senders s (eh_leader_window_sender s) (slot, parent_block) (eh_repair_sender s)
           (eh_metrics_sender s) (eh_bls_sender s)
    else s).

(** [Err] keeps the new [my_pubkey], assigned before the history is restored; [None] is
    the failed assertion in loading it.  The calls to the operating system succeed
    here; one that fails gives the same [SetIdentityError] as a missing file. *)
Definition handle_set_identity : M unit := fun s =>
  let new_identity := eh_keypair s in
  let new_pubkey := kp_pubkey new_identity in
  if bool_decide (eh_my_pubkey s <> new_pubkey) || bool_decide (vh_node_pubkey (history s) <> new_pubkey) then
    r ← vh_restore io_fine (eh_files s) new_pubkey;
    match r with
    | Err e => Some (set_identity_of s new_pubkey (eh_vctx s), Err (SetIdentityError e))
    | Ok h =>
      let c := with_history (eh_vctx s) h in
      Some (set_identity_of s new_pubkey
        (mkVotingContext (vc_vote_history c) (vc_vote_account_pubkey c) new_identity (vc_authorized_voter_keypairs c)
           (vc_derived_bls_keypairs c) (vc_own_vote_sender c) (vc_commitment_sender c) (vc_wait_to_vote_slot c)), Ok tt)
    end
  else Some (s, Ok tt).

(** [None] is the [expect] of a block id. *)
Definition get_block_parent_block (bank : Bank) : option (Block * Block) :=
  block_id ← bank_block_id bank;
  Some ((bank_slot bank, block_id), (bank_parent_slot bank, default 0 (bank_parent_block_id bank))).

Definition with_missing_parent_ready (now : Instant) (slot : Slot) (block : Block) : M unit :=
  missing ← gets (fun s => add_missing_parent_ready s block);
  match missing with
  | Some parent_block => handle_parent_ready_event now slot parent_block
  | None => mret tt
  end.

(** The block of the event is voted on, or put aside as pending. *)
Definition notar_or_pend (slot : Slot) (block parent_block : Block) : M unit :=
  notared ← try_notar block parent_block;
  if notared : bool then check_pending_blocks
  else
    v ← unwrap (fun s => voted (history s) slot);
    if v : bool then mret tt
    else modify (fun s => set_pending s
           (<[slot := default [] (eh_pending_blocks s !! slot) ++ [(block, parent_block)]]> (eh_pending_blocks s))).

Definition handle_block (now : Instant) (rctx : RootContext) (slot : Slot) (bank : Bank) : M unit :=
  send_metrics (StartOfSlot slot ::
    if bool_decide (slot = first_of_consecutive_leader_slots slot) then [BlockHashSeen (bank_leader_id bank) slot] else []);;
  blocks ← unwrap (fun _ => get_block_parent_block bank);
  notar_or_pend slot blocks.1 blocks.2;;
  check_rootable_blocks rctx;;
  with_missing_parent_ready now slot blocks.1.

Definition handle_event (now : Instant) (rctx : RootContext) (event : VotorEvent) : M unit :=
  match event with
  | EBlock slot bank => handle_block now rctx slot bank
  | EBlockNotarized block =>
    modify (fun s => set_vctx s (with_history (eh_vctx s) (add_block_notarized (history s) block)));;
    try_final block;;
    request_repair block
  | EBlockNotarFallback block => request_repair block
  | EFirstShred slot =>
    modify (fun s => set_local s (eh_pending_blocks s) (eh_finalized_blocks s) ({[slot]} ∪ eh_received_shred s))
  | EParentReady slot parent_block =>
    send_metrics [StartOfSlot slot];;
    handle_parent_ready_event now slot parent_block
  | ETimeoutCrashedLeader slot =>
    v ← unwrap (fun s => voted (history s) slot);
    shred ← gets (fun s => bool_decide (slot ∈ eh_received_shred s));
    if v || shred then mret tt else try_skip_window slot
  | ETimeout slot =>
    (if bool_decide (slot <> last_of_consecutive_leader_slots slot)
     then send_metrics [StartOfSlot (slot +s 1)] else mret tt);;
    v ← unwrap (fun s => voted (history s) slot);
    if v : bool then mret tt else try_skip_window slot
  | ESafeToNotar (slot, block_id) =>
    try_skip_window slot;;
    over ← unwrap (fun s => its_over (history s) slot);
    nf ← unwrap (fun s => voted_notar_fallback (history s) slot block_id);
    if over || nf then mret tt else cast_vote (NotarizeFallback slot block_id) false
  | ESafeToSkip slot =>
    try_skip_window slot;;
    over ← unwrap (fun s => its_over (history s) slot);
    sf ← unwrap (fun s => voted_skip_fallback (history s) slot);
    if over || sf then mret tt else cast_vote (SkipFallback slot) false
  | EProduceWindow info =>
    fun s => let '(l, ok) := send (eh_leader_window_sender s) info in
      rust_assert ok;;
      Some (set_senders s l (eh_highest_parent_ready s) (eh_repair_sender s) (eh_metrics_sender s) (eh_bls_sender s), Ok tt)
  | EFinalized block _ =>
    modify (fun s => set_local s (eh_pending_blocks s) ({[block]} ∪ eh_finalized_blocks s) (eh_received_shred s));;
    request_repair block;;
    check_rootable_blocks rctx;;
    modify (fun s => match eh_standstill_slot s with
                     | Some slot => if bool_decide (slot < block.1) then set_standstill s None else s
                     | None => s
                     end);;
    with_missing_parent_ready now block.1 block;;
    send_metrics [SlotFinalized block.1]
  | EStandstill highest_finalized_slot =>
    modify (fun s => match eh_standstill_slot s with
                     | Some _ => s
                     | None => set_standstill s (Some highest_finalized_slot)
                     end);;
    refresh_votes highest_finalized_slot
  | ESetIdentity => handle_set_identity
  end.

(** ** The loop *)

(** [for vote in votes { bls_sender.send(vote)? }], which consumes the votes. *)
Definition send_votes : M unit :=
  votes ← gets eh_votes;
  for_each (fun vote s =>
    let '(b, ok) := send (eh_bls_sender s) vote in
    if ok : bool
    then Some (set_votes (set_senders s (eh_leader_window_sender s) (eh_highest_parent_ready s) (eh_repair_sender s)
                 (eh_metrics_sender s) b) (drop 1 (eh_votes s)), Ok tt)
    else Some (s, Err SenderDisconnected)) votes.

(** One iteration of [event_loop] that received [event]. *)
Definition event_step (now : Instant) (rctx : RootContext) (event : VotorEvent) : M unit :=
  root_slot ← unwrap (fun s => fb_slot <$> root_bank (eh_forks s));
  if should_ignore event root_slot then mret tt
  else
    modify (fun s => set_votes s []);;
    handle_event now rctx event;;
    send_votes.
End handler.
