(* ===== verification/EventLogic.v ===== *)
(** * Reasoning about the event handler

    What an honest voter may do ([honest]), the invariant of the handler, and a
    program logic for its monad: [keeps m root L s Q] runs [m] from the state [s]
    in which the votes [L] have been cast and the root is [root], and says that the
    invariant holds afterwards for an extension of [L], with [Q] if there was no
    error.  The parameter [total] tells whether panics are excluded as well, under
    the conditions of [ready]. *)

From S2P Require Import Prelude.
From S2P Require Import Messages.
From S2P Require Import EpochStakes.
From S2P Require Import CertBuilder.
From S2P Require Import Finalization.
From S2P Require Import BankForks.
From S2P Require Import VoteHistory.
From S2P Require Import VoteStorage.
From S2P Require Import Voting.
From S2P Require Import Timers.
From S2P Require Import EventHandler.

(** ** Honest votes *)

(** The slot starts a leader window, as far as parents are concerned. *)
Definition window_start (s : Slot) : Prop := leader_slot_index s = 0 \/ s = 1.
#[global] Instance window_start_dec s : Decision (window_start s).
Proof. unfold window_start. apply _. Defined.

(** Replay reported block [b] with parent [p]. *)
Definition block_seen (E : list VotorEvent) (b p : Block) : Prop :=
  exists bank, EBlock b.1 bank ∈ E /\ get_block_parent_block bank = Some (b, p).

(** Slots are 64 bits wide, and the slot of a completed block is the bank's. *)
Definition event_ok (e : VotorEvent) : Prop :=
  match e with
  | EBlock slot bank => bank_slot bank = slot /\ is_u64 slot
  | EParentReady slot _ | ETimeout slot | ETimeoutCrashedLeader slot | ESafeToNotar (slot, _)
  | ESafeToSkip slot | EFinalized (slot, _) _ => is_u64 slot
  | _ => True
  end.
Lemma block_seen_u64 E b p : (forall e, e ∈ E -> event_ok e) -> block_seen E b p -> is_u64 b.1.
Proof. intros HE (bank & Hb & _). exact (proj2 (HE _ Hb)). Qed.

(** An event that makes the node skip what it has not voted for in the window of [s]. *)
Definition skip_event (e : VotorEvent) (s : Slot) : Prop :=
  match e with
  | ETimeout s' | ETimeoutCrashedLeader s' | ESafeToNotar (s', _) | ESafeToSkip s' =>
    first_of_consecutive_leader_slots s' <= s <= last_of_consecutive_leader_slots s'
  | _ => False
  end.

(** A block may be notarized after its parent: at the start of a window when the
    parent is ready, else when the node notarized the parent in the slot before. *)
Definition parent_ok (E : list VotorEvent) (L : list Vote) (s : Slot) (p : Block) : Prop :=
  if decide (window_start s) then EParentReady s p ∈ E
  else p.1 +s 1 = s /\ Notarize p.1 p.2 ∈ L.

(** The votes [L] are those of an honest node that has seen the events [E]. *)
Record honest (E : list VotorEvent) (L : list Vote) : Prop := {
  ho_nodup : NoDup L;
  ho_first s v v' : v ∈ L -> v' ∈ L -> first_vote s v -> first_vote s v' -> v = v';
  ho_notarize s b : Notarize s b ∈ L -> exists p, block_seen E (s, b) p /\ parent_ok E L s p;
  ho_skip s : Skip s ∈ L -> 1 <= s /\ exists e, e ∈ E /\ skip_event e s;
  ho_finalize s : Finalize s ∈ L ->
    ~ has_bad L s /\ exists b, Notarize s b ∈ L /\ EBlockNotarized (s, b) ∈ E;
  ho_notar_fallback s b : NotarizeFallback s b ∈ L -> has_first L s /\ ESafeToNotar (s, b) ∈ E;
  ho_skip_fallback s : SkipFallback s ∈ L -> has_first L s /\ ESafeToSkip s ∈ E;
  ho_genesis s b : Genesis s b ∉ L;
}.

(** The slot of a window where a node looks at the ready parents. *)
Definition window_first (s : Slot) : Slot :=
  let first := first_of_consecutive_leader_slots s in
  if bool_decide (first = 0 /\ s <> 0) then 1 else first.

(** An honest node notarizes a window without gaps, from a ready parent of its first
    slot. *)
Lemma notarize_from_start E L (Hh : honest E L) (i : nat) : forall s b,
  0 <= s < u64_max -> leader_slot_index s = Z.of_nat i -> Notarize s b ∈ L ->
  (exists p, EParentReady (window_first s) p ∈ E) /\
  forall x, window_first s <= x <= s -> exists b', Notarize x b' ∈ L.
Proof.
  induction i as [|i IH]; intros s b Hs Hi Hv; destruct (ho_notarize _ _ Hh s b Hv) as (p & _ & Hp);
    unfold parent_ok in Hp; destruct (decide (window_start s)) as [Hw|Hw];
    [|destruct Hw; by left| |].
  1,2: assert (window_first s = s) as Hf
    by (unfold window_first, first_of_consecutive_leader_slots, window_start, leader_slot_index, NUM_CONSECUTIVE_LEADER_SLOTS in *;
        case_bool_decide; destruct Hw; Z.div_mod_to_equations; lia).
  1,2: rewrite Hf; split; [by exists p|]; intros x Hx; assert (x = s) as -> by lia; by exists b.
  destruct Hp as [Hp1 Hp2]. assert (p.1 = s - 1) as Hps by (unfold sat_add in Hp1; lia). rewrite Hps in Hp2.
  destruct (IH (s - 1) p.2) as [Hr Hx].
  - assert (s <> 0) by (intros ->; by destruct Hw; left). lia.
  - unfold leader_slot_index, NUM_CONSECUTIVE_LEADER_SLOTS in *. Z.div_mod_to_equations. lia.
  - done.
  - assert (window_first (s - 1) = window_first s) as Hf.
    { unfold window_first, first_of_consecutive_leader_slots, window_start, leader_slot_index, NUM_CONSECUTIVE_LEADER_SLOTS in *.
      repeat case_bool_decide; Z.div_mod_to_equations; lia. }
    rewrite Hf in *. split; [done|]. intros x Hle. destruct (decide (x = s)) as [->|]; [by exists b|]. apply Hx. lia.
Qed.

(** What an honest node with the votes [L] checks before it casts [v]. *)
Definition may_cast (E : list VotorEvent) (L : list Vote) (v : Vote) : Prop :=
  match v with
  | Notarize s b => ~ has_first L s /\ exists p, block_seen E (s, b) p /\ parent_ok E L s p
  | Skip s => ~ has_first L s /\ 1 <= s /\ exists e, e ∈ E /\ skip_event e s
  | Finalize s => (Finalize s ∉ L) /\ ~ has_bad L s /\ exists b, Notarize s b ∈ L /\ EBlockNotarized (s, b) ∈ E
  | NotarizeFallback s b =>
    (NotarizeFallback s b ∉ L) /\ (Finalize s ∉ L) /\ has_first L s /\ ESafeToNotar (s, b) ∈ E
  | SkipFallback s => (SkipFallback s ∉ L) /\ (Finalize s ∉ L) /\ has_first L s /\ ESafeToSkip s ∈ E
  | Genesis _ _ => False
  end.

Lemma block_seen_mono E E' b p : E ⊆ E' -> block_seen E b p -> block_seen E' b p.
Proof. intros HE (bank & Hb & Hp). exists bank. auto. Qed.
Lemma parent_ok_mono E E' L L' s p : E ⊆ E' -> L ⊆ L' -> parent_ok E L s p -> parent_ok E' L' s p.
Proof. unfold parent_ok. intros HE HL. case_decide; [auto|]. intros [? ?]. auto. Qed.
Lemma has_first_mono L L' s : L ⊆ L' -> has_first L s -> has_first L' s.
Proof. intros HL (v & Hv & Hf). exists v. auto. Qed.

(** The slots of an event are not beyond [horizon]. *)
Definition slot_fits (horizon : Slot) (e : VotorEvent) : Prop :=
  match e with
  | EBlock slot _ | EBlockNotarized (slot, _) => slot <= horizon
  | ETimeout slot | ETimeoutCrashedLeader slot | ESafeToNotar (slot, _) | ESafeToSkip slot =>
    last_of_consecutive_leader_slots slot <= horizon
  | _ => True
  end.
Lemma block_seen_fits horizon E b p : (forall e, e ∈ E -> slot_fits horizon e) -> block_seen E b p -> b.1 <= horizon.
Proof. intros HF (bank & Hb & _). exact (HF _ Hb). Qed.
Lemma window_slot slot : is_u64 slot -> slot <= last_of_consecutive_leader_slots slot.
Proof. intros Hu. pose proof (leader_window_bounds slot Hu). lia. Qed.
Lemma honest_horizon horizon E L v :
  (forall e, e ∈ E -> event_ok e) -> (forall e, e ∈ E -> slot_fits horizon e) -> honest E L -> v ∈ L ->
  vote_slot v <= horizon.
Proof.
  intros HE HF Ho Hv. assert (forall s b, Notarize s b ∈ L -> s <= horizon) as HN.
  { intros s b (p & (bank & Hb & _) & _)%(ho_notarize _ _ Ho). exact (HF _ Hb). }
  destruct v as [s b|s|s|s b|s|s b]; simpl.
  - eauto.
  - destruct (ho_finalize _ _ Ho s Hv) as (_ & b & Hn & _). eauto.
  - destruct (ho_skip _ _ Ho s Hv) as (_ & e & He & Hs). pose proof (HF e He).
    destruct e as [| | | | | | |[]| | | | |]; simpl in *; try done; lia.
  - destruct (ho_notar_fallback _ _ Ho s b Hv) as [_ He]. pose proof (HF _ He). pose proof (window_slot _ (HE _ He)). simpl in *. lia.
  - destruct (ho_skip_fallback _ _ Ho s Hv) as [_ He]. pose proof (HF _ He). pose proof (window_slot _ (HE _ He)). simpl in *. lia.
  - by destruct (ho_genesis _ _ Ho s b).
Qed.

Lemma honest_nil E : honest E [].
Proof. split; try (intros; by set_solver). constructor. Qed.

Lemma honest_mono E E' L : E ⊆ E' -> honest E L -> honest E' L.
Proof.
  intros HE [N F No S Fi NF SF G]. split; [done|done| | | | | |done].
  - intros s b (p & ? & ?)%No. eauto using block_seen_mono, parent_ok_mono.
  - intros s (? & e & ? & ?)%S. eauto.
  - intros s (? & b & ? & ?)%Fi. eauto.
  - intros s b [? ?]%NF. auto.
  - intros s [? ?]%SF. auto.
Qed.

Lemma may_cast_fresh E L v : may_cast E L v -> v ∉ L.
Proof. destruct v; simpl; intros Hm; try tauto; destruct Hm as [Hf _]; contradict Hf; eauto with votor. Qed.
Lemma may_cast_assertable E L v : may_cast E L v -> assertable L v.
Proof. destruct v; simpl; tauto. Qed.

(** A vote cast after these checks keeps the node honest. *)
Lemma honest_snoc E L v : honest E L -> may_cast E L v -> honest E (L ++ [v]).
Proof.
  intros Ho Hm. pose proof (may_cast_fresh _ _ _ Hm) as Hfresh.
  assert (L ⊆ L ++ [v]) as Hsub by set_solver. destruct Ho as [N F No S Fi NF SF G].
  assert (forall x, x ∈ L ++ [v] <-> x ∈ L \/ x = v) as Hin by set_solver.
  split; [|setoid_rewrite Hin..].
  - apply NoDup_app. split_and!; [done| |apply NoDup_singleton]. by intros x Hx ->%list_elem_of_singleton.
  - assert (forall s x, x ∈ L -> first_vote s x -> first_vote s v -> False) as Hnew.
    { intros s x Hx Hfx Hfv. assert (has_first L s) as Hh by (by exists x).
      destruct v; simpl in *; subst; tauto. }
    intros s x y [Hx|Hx] [Hy|Hy] Hfx Hfy; [by eapply F| | |congruence]; subst; exfalso; eapply Hnew; eauto.
  - intros s b [(p & ? & ?)%No|<-]; [eauto using parent_ok_mono|]. destruct Hm as (_ & p & ? & ?). eauto using parent_ok_mono.
  - intros s [Hs|<-]; [by apply S|]. apply Hm.
  - intros s Hs. rewrite has_bad_snoc. destruct Hs as [Hs|<-]; [destruct (Fi s Hs) as (Hb & b & Hn & He)|].
    + split; [|by eauto]. intros [?|Hbv]; [done|]. assert (has_first L s) as Hf by eauto with votor.
      destruct v; simpl in *; subst; tauto.
    + destruct Hm as (_ & Hb & b & Hn & He). split; [|eauto]. by intros [?|?].
  - intros s b [[? ?]%NF|<-]; [eauto using has_first_mono|]. destruct Hm as (_ & _ & ? & ?). eauto using has_first_mono.
  - intros s [[? ?]%SF|<-]; [eauto using has_first_mono|]. destruct Hm as (_ & _ & ? & ?). eauto using has_first_mono.
  - intros s b [Hg|<-]; [by eapply G|done].
Qed.

(** ** The invariant *)

Section logic.
Context `{VotingOps, StorageOps}.
Implicit Types (L : list Vote) (s : Handler) (root slot : Slot) (E : list VotorEvent).

(** The votes that have left the handler, to the own pool and to the voting service. *)
Definition bls_votes (ops : list BLSOp) : list Vote :=
  omap (fun op => match op with PushVote (MVote m) _ _ => Some (vm_vote m) | _ => None end) ops.
Definition votes_out s : list Vote :=
  message_votes (concat (sent (vc_own_vote_sender (eh_vctx s)))) ++
  bls_votes (eh_votes s) ++ bls_votes (sent (eh_bls_sender s)).

(** [h] is the history of an honest node with identity [k] that cast [Lo]. *)
Definition snapshot E (k : Pubkey) (h : VoteHistory) (Lo : list Vote) : Prop :=
  history_rel h Lo /\ honest E Lo /\ vh_node_pubkey h = k /\
  (forall b, b ∈ vh_notarized_blocks h -> EBlockNotarized b ∈ E) /\
  (forall slot p, is_parent_ready h slot p = true -> window_start slot -> EParentReady slot p ∈ E).

(** The history saved with an operation knows its vote, those of the operations
    before it and those in [base], cast before the handler started. *)
Definition op_saved E (k : Pubkey) (base : list Vote) (ops : list BLSOp) (op : BLSOp) : Prop :=
  match op with
  | PushVote (MVote _) _ saved => exists h Lo kp, saved_new h kp = Ok saved /\ snapshot E k h Lo /\ base ⊆ Lo /\
      forall v, v ∈ bls_votes ops -> v ∈ Lo
  | _ => False
  end.
Definition op_chain E (k : Pubkey) (base : list Vote) (ops : list BLSOp) : Prop :=
  forall i op, ops !! i = Some op -> op_saved E k base (take (S i) ops) op.

Definition pending_block s (b p : Block) : Prop :=
  exists slot bs, eh_pending_blocks s !! slot = Some bs /\ (b, p) ∈ bs.

(** The conditions under which the handler does not panic: up to the slot [horizon]
    the banks know the stakes of the epochs, the keys can be derived, the timers are
    consistent and the block production loop is listening. *)
Record ready (horizon : Slot) s : Prop := {
  rd_voting k b slot : bf_banks (eh_forks s) !! k = Some b -> 0 <= slot <= horizon ->
    voting_ready b (vc_authorized_voter_keypairs (eh_vctx s)) slot;
  rd_banks k b : bf_banks (eh_forks s) !! k = Some b -> root_epoch_known b /\ 0 <= fb_ns_per_slot b;
  rd_timers : timers_ok (eh_timers s) /\ 0 <= tm_delta_timeout (eh_timers s);
  rd_leader : connected (eh_leader_window_sender s) = true;
}.

(** Where a run began: the votes cast before the handler started, the files and the
    identity, and what had been sent to the voting service. *)
Record Origin := mkOrigin {
  og_votes : list Vote;
  og_files : files;
  og_keypair : Keypair;
  og_sent : list BLSOp;
}.
Definition from_origin (o : Origin) L s : Prop :=
  og_votes o ⊆ L /\ eh_files s = og_files o /\ eh_keypair s = og_keypair o /\
  og_sent o `prefix_of` sent (eh_bls_sender s).

Record handler_inv (total : bool) (horizon : Slot) E (base : Origin) root L s : Prop := {
  in_rel : history_rel (history s) L;
  in_honest : honest E L;
  in_forks : forks_ok (eh_forks s);
  in_nonneg : 0 <= root;
  in_root : bf_root (eh_forks s) = root /\ vh_root (history s) <= root;
  in_notarized b : b ∈ vh_notarized_blocks (history s) -> EBlockNotarized b ∈ E;
  in_parents slot p : is_parent_ready (history s) slot p = true -> window_start slot -> EParentReady slot p ∈ E;
  in_pending slot bs b p : eh_pending_blocks s !! slot = Some bs -> (b, p) ∈ bs ->
    b.1 = slot /\ block_seen E b p /\ root <= slot /\ (slot = root -> has_first L slot);
  in_finalized b : b ∈ eh_finalized_blocks s -> exists fast, EFinalized b fast ∈ E;
  in_sent v : v ∈ votes_out s -> v ∈ L;
  in_base : from_origin base L s;
  in_ops : op_chain E (kp_pubkey (eh_keypair s)) (og_votes base) (sent (eh_bls_sender s) ++ eh_votes s);
  in_identity : eh_my_pubkey s = kp_pubkey (eh_keypair s) /\ vh_node_pubkey (history s) = kp_pubkey (eh_keypair s);
  in_ready : total = true -> ready horizon s;
}.

Lemma snapshot_mono E E' k h Lo : E ⊆ E' -> snapshot E k h Lo -> snapshot E' k h Lo.
Proof. intros HE (? & ? & ? & ? & ?). split_and!; try done; [by eapply honest_mono| |]; auto. Qed.
Lemma op_saved_mono E E' k base ops op : E ⊆ E' -> op_saved E k base ops op -> op_saved E' k base ops op.
Proof.
  intros HE. destruct op as [[m|] slot saved|]; simpl; try done.
  intros (h & Lo & kp & ? & ? & ? & ?). exists h, Lo, kp. eauto using snapshot_mono.
Qed.
Lemma op_chain_snoc E k base ops op :
  op_chain E k base ops -> op_saved E k base (ops ++ [op]) op -> op_chain E k base (ops ++ [op]).
Proof.
  intros Hc Hop i op' Hi. apply lookup_app_Some in Hi as [Hi|[Hle Hi]].
  - rewrite take_app_le; [by apply Hc|]. apply lookup_lt_Some in Hi. lia.
  - apply list_lookup_singleton_Some in Hi as [Hz <-].
    by rewrite take_ge by (rewrite length_app; simpl; lia).
Qed.
Lemma op_chain_prefix E k base ops ops' : op_chain E k base (ops ++ ops') -> op_chain E k base ops.
Proof.
  intros Hc i op Hi. pose proof (lookup_lt_Some _ _ _ Hi).
  rewrite <-(take_app_le ops ops') by lia. apply Hc. by apply lookup_app_l_Some.
Qed.

(** ** The program logic *)

Context (total : bool) (horizon : Slot) (E : list VotorEvent) (base : Origin).
Abbreviation inv := (handler_inv total horizon E base).

Definition keeps {A} (m : M A) root L s (Q : A -> Slot -> list Vote -> Handler -> Prop) : Prop :=
  match m s with
  | None => total = false
  | Some (s', r) => exists root' L', root <= root' /\ L `prefix_of` L' /\ inv root' L' s' /\
      match r with Ok a => Q a root' L' s' | Err _ => True end
  end.

Lemma keeps_ret {A} (a : A) root L s Q : inv root L s -> Q a root L s -> keeps (mret a) root L s Q.
Proof. intros Hi HQ. exists root, L. done. Qed.

Lemma keeps_bind {A B} (m : M A) (k : A -> M B) root L s Q :
  keeps m root L s (fun a root' L' s' => root <= root' -> L `prefix_of` L' -> inv root' L' s' ->
    keeps (k a) root' L' s' Q) ->
  keeps (m ≫= k) root L s Q.
Proof.
  unfold keeps, mbind, M_bind. destruct (m s) as [[s' r]|]; [|done].
  intros (root' & L' & Hr & HL & Hi & Hk). destruct r as [a|e]; [|by exists root', L'].
  specialize (Hk Hr HL Hi). destruct (k a s') as [[s'' r']|]; [|done].
  destruct Hk as (root'' & L'' & ? & ? & ? & ?). exists root'', L''. split_and!; [lia|by etrans|done|done].
Qed.
Lemma keeps_mono {A} (m : M A) root L s (Q Q' : A -> Slot -> list Vote -> Handler -> Prop) :
  keeps m root L s Q -> (forall a root' L' s', root <= root' -> L `prefix_of` L' -> inv root' L' s' ->
    Q a root' L' s' -> Q' a root' L' s') ->
  keeps m root L s Q'.
Proof.
  unfold keeps. destruct (m s) as [[s' r]|]; [|done]. intros (root' & L' & ? & ? & ? & ?) HQ.
  exists root', L'. split_and!; [done..|]. destruct r; [|done]. by apply HQ.
Qed.
Lemma keeps_gets {A B} (f : Handler -> A) (k : A -> M B) root L s Q :
  keeps (k (f s)) root L s Q -> keeps (gets f ≫= k) root L s Q.
Proof. done. Qed.
Lemma keeps_modify {B} (f : Handler -> Handler) (k : unit -> M B) root L s Q :
  keeps (k tt) root L (f s) Q -> keeps (modify f ≫= k) root L s Q.
Proof. done. Qed.
Lemma keeps_modify_last (f : Handler -> Handler) root L s Q :
  inv root L (f s) -> Q tt root L (f s) -> keeps (modify f) root L s Q.
Proof. intros Hi HQ. exists root, L. done. Qed.
Lemma keeps_unwrap {A B} (f : Handler -> option A) (k : A -> M B) root L s Q :
  (total = true -> is_Some (f s)) -> (forall a, f s = Some a -> keeps (k a) root L s Q) ->
  keeps (unwrap f ≫= k) root L s Q.
Proof.
  unfold keeps, mbind, M_bind, unwrap. intros Ht Hk. destruct (f s) as [a|]; [by apply Hk|].
  destruct total; [|done]. by destruct (Ht eq_refl).
Qed.
Lemma keeps_unwrap_some {A B} (f : Handler -> option A) (k : A -> M B) a root L s Q :
  f s = Some a -> keeps (k a) root L s Q -> keeps (unwrap f ≫= k) root L s Q.
Proof. unfold keeps, mbind, M_bind, unwrap. by intros ->. Qed.
(** A computation of the state that does not vote. *)
Lemma keeps_step {A} (m : M A) root L s Q s' r :
  m s = Some (s', r) -> inv root L s' -> (forall a, r = Ok a -> Q a root L s') -> keeps m root L s Q.
Proof. unfold keeps. intros -> Hi HQ. exists root, L. split_and!; [done..|]. destruct r; [by apply HQ|done]. Qed.

Lemma keeps_for_each {A} (f : A -> M unit) (J : list A -> Slot -> list Vote -> Handler -> Prop) l root L s :
  (forall x rest root L s, inv root L s -> J (x :: rest) root L s ->
     keeps (f x) root L s (fun _ => J rest)) ->
  inv root L s -> J l root L s -> keeps (for_each f l) root L s (fun _ => J []).
Proof.
  intros Hf. revert root L s. induction l as [|x l IH]; intros root L s Hi HJ; simpl; [by apply keeps_ret|].
  apply keeps_bind. eapply keeps_mono; [by apply Hf|]. intros [] root' L' s' _ _ Hi' HJ' _ _ _. by apply IH.
Qed.
End logic.
