(* ===== verification/EventVotes.v ===== *)
(** * The votes of the event handler

    Every function of [votor/src/event_handler.rs] keeps the invariant of
    [EventLogic]: what it votes for is honest, and it does not panic. *)

From S2P Require Import Prelude.
From S2P Require Import Messages.
From S2P Require Import EpochStakes.
From S2P Require Import CertBuilder.
From S2P Require Import Finalization.
From S2P Require Import BankForks.
From S2P Require Import VoteHistory.
From S2P Require Import VoteStorage.
From S2P Require Import Voting.
From S2P Require Import Timers.
From S2P Require Import EventHandler.
From S2P Require Import EventLogic.

Section votes.
Context `{VotingOps, StorageOps} (total : bool) (horizon : Slot) (E : list VotorEvent) (base : Origin).
Context (HE : forall e, e ∈ E -> event_ok e) (HF : total = true -> forall e, e ∈ E -> slot_fits horizon e) {X : Block -> Prop}.
Implicit Types (L : list Vote) (s : Handler) (root slot : Slot).
Abbreviation inv := (handler_inv total horizon E base).
Abbreviation keeps := (keeps total horizon E base).

(** ** Casting *)

Lemma root_bank_ok root L s :
  inv root L s -> exists b, root_bank (eh_forks s) = Some b /\ bf_banks (eh_forks s) !! root = Some b /\ fb_slot b = root.
Proof.
  intros Hi. destruct (in_forks _ _ _ _ _ _ _ Hi) as [S _ [b Hb] [Hs _] _ _], (in_root _ _ _ _ _ _ _ Hi) as [Hr _].
  exists b. unfold root_bank. rewrite Hs, Hb, <-Hr. eauto.
Qed.

Lemma message_votes_snoc l m : message_votes (concat (l ++ [[MVote m]])) = message_votes (concat l) ++ [vm_vote m].
Proof. unfold message_votes. by rewrite concat_app, omap_app. Qed.
Lemma bls_votes_snoc l m slot sv : bls_votes (l ++ [PushVote (MVote m) slot sv]) = bls_votes l ++ [vm_vote m].
Proof. unfold bls_votes. by rewrite omap_app. Qed.

(** What voting leaves alone. *)
Definition frame s s' : Prop :=
  eh_pending_blocks s' = eh_pending_blocks s /\
  vh_notarized_blocks (history s') = vh_notarized_blocks (history s) /\
  vh_parent_ready_slots (history s') = vh_parent_ready_slots (history s).

Lemma parent_ready_frame h h' slot p :
  vh_parent_ready_slots h' = vh_parent_ready_slots h -> is_parent_ready h' slot p = is_parent_ready h slot p.
Proof. unfold is_parent_ready. by intros ->. Qed.

(** The state after a vote. *)
Lemma inv_vote root L L' s c ops :
  inv root L s -> L ⊆ L' -> history_rel (vc_vote_history c) L' -> honest E L' ->
  same_blocks (history s) (vc_vote_history c) -> same_voter (eh_vctx s) c ->
  (forall v, v ∈ votes_out (set_votes (set_vctx s c) ops) -> v ∈ L') ->
  op_chain E (kp_pubkey (eh_keypair s)) (og_votes base) (sent (eh_bls_sender s) ++ ops) ->
  inv root L' (set_votes (set_vctx s c) ops).
Proof.
  intros [R Ho F Hnn [Hr Hv] N P Pe Fin S Ba Ops Id Rd] HL Hrel Hhon (B1 & B2 & B3 & B4) (V1 & V2 & V3 & V4) Hout Hops.
  split; try done; unfold history in *; simpl.
  - by rewrite B1.
  - by rewrite B3.
  - intros slot p. rewrite (parent_ready_frame _ _ _ _ B4). apply P.
  - intros slot bs b p Hbs Hb. destruct (Pe slot bs b p Hbs Hb) as (? & ? & ? & ?). eauto 10 using has_first_mono.
  - destruct Ba as [Ba1 Ba2]. split; [by etrans|done].
  - by rewrite B2.
  - intros Ht. destruct (Rd Ht). split; simpl; try done. by rewrite V3.
Qed.

Lemma result_votes_out v s c r :
  vote_result v (eh_vctx s) c r ->
  forall x, x ∈ votes_out (set_votes (set_vctx s c)
      (match r with Ok (Some op) => eh_votes s ++ [op] | _ => eh_votes s end)) ->
    x ∈ votes_out s \/ x = v.
Proof.
  unfold votes_out, vote_result. intros Hr x. simpl. rewrite !elem_of_app.
  destruct r as [[op|]|e].
  - destruct Hr as (m & saved & -> & <- & _ & ->). rewrite message_votes_snoc, bls_votes_snoc. set_solver.
  - rewrite Hr. tauto.
  - destruct Hr as [[_ ->]|(? & m & _ & <- & ->)]; [tauto|]. rewrite message_votes_snoc. set_solver.
Qed.

(** The operation of a vote is saved with the history after it. *)
Lemma result_chain v root L s c r L' :
  inv root L s -> vote_result v (eh_vctx s) c r -> history_rel (vc_vote_history c) L' -> honest E L' ->
  same_blocks (history s) (vc_vote_history c) -> L ⊆ L' -> v ∈ L' ->
  op_chain E (kp_pubkey (eh_keypair s)) (og_votes base) (sent (eh_bls_sender s) ++
    (match r with Ok (Some op) => eh_votes s ++ [op] | _ => eh_votes s end)).
Proof.
  intros Hi Hr Hrel Hhon (B1 & B2 & B3 & B4) HL Hv. pose proof (in_ops _ _ _ _ _ _ _ Hi) as Hops.
  destruct r as [[op|]|]; [|done..]. rewrite (assoc_L (++)). apply op_chain_snoc; [done|].
  destruct Hr as (m & saved & -> & Hm & Hsv & _). simpl. eexists _, L', _. split; [exact Hsv|]. split.
  - split_and!; [done|done|rewrite B2; apply Hi|rewrite B3; apply Hi|].
    intros slot p. rewrite (parent_ready_frame _ _ _ _ B4). apply Hi.
  - split; [intros x Hx; apply HL; by apply (proj1 (in_base _ _ _ _ _ _ _ Hi))|].
    intros x. rewrite bls_votes_snoc, elem_of_app, list_elem_of_singleton, Hm. intros [Hx| ->]; [|done].
    apply HL, (in_sent _ _ _ _ _ _ _ Hi). unfold votes_out, bls_votes in *. rewrite omap_app in Hx.
    rewrite !elem_of_app in *. tauto.
Qed.

(** The two ways to produce a vote. *)
Lemma cast_state s c r : (match r with
        | Ok (Some bls_op) => (set_votes (set_vctx s c) (eh_votes (set_vctx s c) ++ [bls_op]), Ok tt)
        | Ok None => (set_vctx s c, Ok tt)
        | Err e => (set_vctx s c, Err (VotingError e))
        end : Handler * result EventLoopError unit) =
  (set_votes (set_vctx s c) (match r with Ok (Some op) => eh_votes s ++ [op] | _ => eh_votes s end),
   match r with Ok _ => Ok tt | Err e => Err (VotingError e) end).
Proof. by destruct r as [[op|]|e]. Qed.

Lemma voting_ready_at root L s bank slot :
  inv root L s -> bf_banks (eh_forks s) !! root = Some bank -> root <= slot -> (total = true -> slot <= horizon) ->
  total = true -> voting_ready bank (vc_authorized_voter_keypairs (eh_vctx s)) slot.
Proof.
  intros Hi Hb Hs Hh Ht. pose proof (in_ready _ _ _ _ _ _ _ Hi Ht) as Hrd.
  eapply rd_voting; [done..|]. pose proof (in_nonneg _ _ _ _ _ _ _ Hi). specialize (Hh Ht). lia.
Qed.

Lemma keeps_cast v root L s :
  inv root L s -> root <= vote_slot v -> may_cast E L v -> (total = true -> vote_slot v <= horizon) ->
  keeps (cast_vote v false) root L s (fun _ root' L' s' => root' = root /\ L' = L ++ [v] /\ frame s s').
Proof.
  intros Hi Hroot Hm Hh. unfold EventLogic.keeps, cast_vote. destruct (root_bank_ok _ _ _ Hi) as (bank & -> & Hbank & _).
  cbn [mbind option_bind]. pose proof (in_root _ _ _ _ _ _ _ Hi) as [Hr Hv].
  pose proof (generate_vote_ok total v bank (eh_vctx s) L (voting_ready_at _ _ _ _ _ Hi Hbank Hroot Hh)
    (in_rel _ _ _ _ _ _ _ Hi) ltac:(unfold history in Hv; lia) (may_cast_assertable _ _ _ Hm)) as Hgen.
  destruct (generate_vote_message v false bank (eh_vctx s)) as [[c r]|]; [|done].
  cbn [mbind option_bind]. destruct Hgen as (Hrel & Hsb & Hsv & _ & Hres). rewrite cast_state.
  exists root, (L ++ [v]). split_and!; [done|by apply prefix_app_r| |].
  - assert (honest E (L ++ [v])) as Hhon by (apply honest_snoc; [apply Hi|done]).
    apply (inv_vote root L); [done|set_solver|done|done|done|done| |eapply result_chain; try done; set_solver].
    intros x [Hx| ->]%(result_votes_out _ _ _ _ Hres); [|set_solver].
    apply elem_of_app. left. by apply (in_sent _ _ _ _ _ _ _ Hi).
  - destruct r; [|done]. unfold frame, history. simpl. unfold same_blocks, history in Hsb. tauto.
Qed.

Lemma keeps_refresh v root L s :
  inv root L s -> v ∈ L -> root <= vote_slot v ->
  keeps (cast_vote v true) root L s (fun _ root' L' s' => root' = root /\ L' = L /\ frame s s').
Proof.
  intros Hi Hin Hroot. unfold EventLogic.keeps, cast_vote. destruct (root_bank_ok _ _ _ Hi) as (bank & -> & Hbank & _).
  cbn [mbind option_bind].
  assert (total = true -> forall v, v ∈ L -> vote_slot v <= horizon) as Hh
    by (intros Ht x Hx; by eapply honest_horizon; [done|by apply HF|by eapply in_honest|]).
  pose proof (generate_refresh_ok total v bank (eh_vctx s) (voting_ready_at _ _ _ _ _ Hi Hbank Hroot (fun Ht => Hh Ht v Hin))) as Hgen.
  destruct (generate_vote_message v true bank (eh_vctx s)) as [[c r]|]; [|done].
  cbn [mbind option_bind]. destruct Hgen as (Heq & Hsv & _ & Hres). rewrite cast_state.
  exists root, L. unfold frame, same_blocks, history. simpl. rewrite !Heq. split_and!; [done|done| |by destruct r].
  apply (inv_vote root L); unfold same_blocks, history; rewrite ?Heq; [done|done|apply Hi|apply Hi|done|done| |].
  2: { eapply result_chain; unfold same_blocks, history; rewrite ?Heq; [done..|apply Hi|apply Hi|done|done|done]. }
  intros x [Hx| ->]%(result_votes_out _ _ _ _ Hres); [|done]. by apply (in_sent _ _ _ _ _ _ _ Hi).
Qed.

(** ** Finalizing *)

(** Each notarized block for which the node may finalize has been finalized by it,
    but for [except] and the blocks [X] already notarized before the handler started. *)
Definition final_prompt (except : option Block) L s : Prop :=
  forall slot b, (slot, b) ∈ vh_notarized_blocks (history s) -> Some (slot, b) <> except -> ~ X (slot, b) ->
    Notarize slot b ∈ L -> has_bad L slot \/ Finalize slot ∈ L.

Lemma final_prompt_weaken except L L' s s' :
  final_prompt except L s -> L ⊆ L' ->
  (forall b, b ∈ vh_notarized_blocks (history s') -> b ∈ vh_notarized_blocks (history s)) ->
  (forall slot b, Notarize slot b ∈ L' -> Some (slot, b) <> except -> Notarize slot b ∈ L) ->
  final_prompt except L' s'.
Proof.
  intros Hp HL Hs Hn slot b Hb Hne HX HN. destruct (Hp slot b) as [(v & Hv & Hbad)|]; auto.
  left. exists v. auto.
Qed.

Lemma final_prompt_close slot b L s :
  final_prompt (Some (slot, b)) L s ->
  ~ ((slot, b) ∈ vh_notarized_blocks (history s) /\ Notarize slot b ∈ L) \/ has_bad L slot \/ Finalize slot ∈ L ->
  final_prompt None L s.
Proof.
  intros Hp Hc slot' b' Hb' _ HX HN. destruct (decide ((slot', b') = (slot, b))) as [[= -> ->]|Hne]; [tauto|].
  apply (Hp slot' b'); [done|congruence|done..].
Qed.

Lemma keeps_try_final slot b root L s :
  inv root L s -> root <= slot -> (total = true -> slot <= horizon) -> final_prompt (Some (slot, b)) L s ->
  keeps (try_final (slot, b)) root L s (fun r root' L' s' =>
    root' = root /\ (L' = L \/ L' = L ++ [Finalize slot]) /\ frame s s' /\ final_prompt None L' s' /\
    ((slot, b) ∈ vh_notarized_blocks (history s) -> Notarize slot b ∈ L -> has_bad L slot \/ Finalize slot ∈ L')).
Proof.
  intros Hi Hs Hh Hp. pose proof (in_root _ _ _ _ _ _ _ Hi) as [Hr Hv]. pose proof (in_rel _ _ _ _ _ _ _ Hi) as Hrel.
  assert (vh_root (history s) <= slot) as Hvs by lia.
  assert (~ ((slot, b) ∈ vh_notarized_blocks (history s) /\ Notarize slot b ∈ L) \/ has_bad L slot \/ Finalize slot ∈ L ->
    keeps (mret false) root L s (fun r root' L' s' =>
      root' = root /\ (L' = L \/ L' = L ++ [Finalize slot]) /\ frame s s' /\ final_prompt None L' s' /\
    ((slot, b) ∈ vh_notarized_blocks (history s) -> Notarize slot b ∈ L -> has_bad L slot \/ Finalize slot ∈ L'))) as Hdone.
  { intros Hc. apply keeps_ret; [done|]. split_and!; [done|by left|done..|by eapply final_prompt_close|tauto]. }
  unfold try_final. apply keeps_gets. unfold is_block_notarized. case_bool_decide as Hn; simpl; [|apply Hdone; tauto].
  eapply keeps_unwrap_some; [by apply its_over_spec|]. case_bool_decide as Ho.
  { apply Hdone. right. right. by apply (hr_its_over _ _ Hrel). }
  eapply keeps_unwrap_some; [by eapply bad_window_spec|]. case_bool_decide as Hb.
  { apply Hdone. right. left. by apply (hr_skipped _ _ Hrel). }
  eapply keeps_unwrap_some; [by apply voted_notar_spec|]. case_bool_decide as Hnot.
  { apply Hdone. left. rewrite <-(hr_notar _ _ Hrel slot b Hvs). tauto. }
  rewrite (hr_notar _ _ Hrel slot b Hvs) in Hnot.
  rewrite (hr_its_over _ _ Hrel) in Ho by done. rewrite (hr_skipped _ _ Hrel) in Hb by done.
  apply keeps_bind. eapply keeps_mono.
  { apply (keeps_cast (Finalize slot)); [done|done| |done]. simpl. split_and!; [done|done|].
    exists b. split; [done|]. by apply (in_notarized _ _ _ _ _ _ _ Hi). }
  intros [] root' L' s' _ _ Hi' (-> & -> & Hf) _ _ _. apply keeps_ret; [done|].
  split_and!; [done|by right|apply Hf..| |right; set_solver].
  apply (final_prompt_close slot b); [|right; right; set_solver].
  apply (final_prompt_weaken _ L _ s); [done|set_solver|by destruct Hf as (_ & -> & _)|set_solver].
Qed.

(** ** Notarizing *)

Lemma keeps_send_commitment t slot root L s :
  inv root L s ->
  keeps (send_commitment t slot) root L s (fun _ root' L' s' => root' = root /\ L' = L /\ frame s s').
Proof.
  intros Hi.
  assert (forall c, inv root L (set_vctx s (with_commitment_sender (eh_vctx s) c))) as Hc.
  { intros c'. apply (inv_vote root L L s (with_commitment_sender (eh_vctx s) c') (eh_votes s)); try done; apply Hi. }
  destruct (update_commitment_cache t slot (vc_commitment_sender (eh_vctx s))) as [c ok] eqn:Hu.
  eapply keeps_step; [unfold send_commitment; rewrite Hu; reflexivity|apply Hc|done].
Qed.

Lemma inv_pending root L s pending :
  inv root L s -> (forall slot bs, pending !! slot = Some bs -> eh_pending_blocks s !! slot = Some bs) ->
  inv root L (set_pending s pending).
Proof.
  intros [R Ho F Hnn Hr N P Pe Fin S Ba Ops Id Rd] Hsub. split; try done; simpl.
  - intros slot bs b p Hbs. apply Pe. auto.
  - intros Ht. by destruct (Rd Ht).
Qed.

(** The test of [try_notar] on the parent, in terms of the votes cast. *)
Definition allowed L (h : VoteHistory) slot (p : Block) : Prop :=
  if decide (window_start slot) then is_parent_ready h slot p = true
  else p.1 +s 1 = slot /\ Notarize p.1 p.2 ∈ L.
#[local] Instance allowed_dec L h slot p : Decision (allowed L h slot p).
Proof. unfold allowed. case_decide; apply _. Defined.

Lemma allowed_start L h slot p : window_start slot -> allowed L h slot p <-> is_parent_ready h slot p = true.
Proof. intros Hw. unfold allowed. by destruct (decide (window_start slot)). Qed.
Lemma allowed_inside L h slot p :
  ~ window_start slot -> allowed L h slot p <-> p.1 +s 1 = slot /\ Notarize p.1 p.2 ∈ L.
Proof. intros Hw. unfold allowed. by destruct (decide (window_start slot)). Qed.

Lemma allowed_parent_ok root L s slot p : inv root L s -> allowed L (history s) slot p -> parent_ok E L slot p.
Proof. unfold allowed, parent_ok. intros Hi. case_decide; [|done]. intros Hp. by apply (in_parents _ _ _ _ _ _ _ Hi). Qed.

Lemma sat_parent_ge p slot root : p +s 1 = slot -> root < slot -> root <= p.
Proof. unfold sat_add. intros. lia. Qed.

Lemma notar_allowed_spec root L s slot p :
  inv root L s -> root < slot ->
  notar_allowed slot p s = Some (s, Ok (bool_decide (allowed L (history s) slot p))).
Proof.
  intros Hi Hs. pose proof (in_root _ _ _ _ _ _ _ Hi) as [_ Hv]. pose proof (in_rel _ _ _ _ _ _ _ Hi) as Hrel.
  destruct p as [ps pb]. unfold notar_allowed.
  destruct (decide (window_start slot)) as [Hw|Hw]; pose proof Hw as Hw'; unfold window_start in Hw'.
  - replace (_ || _) with true by (symmetry; apply orb_true_iff; rewrite !bool_decide_eq_true; done).
    unfold gets. do 3 f_equal. rewrite (bool_decide_ext _ _ (allowed_start _ _ _ _ Hw)).
    by destruct (is_parent_ready _ _ _).
  - replace (_ || _) with false by (symmetry; apply orb_false_iff; rewrite !bool_decide_eq_false; tauto).
    rewrite (bool_decide_ext _ _ (allowed_inside _ _ _ _ Hw)). simpl.
    case_bool_decide as Hc; simpl; [by rewrite bool_decide_false by tauto|].
    pose proof (sat_parent_ge _ _ _ Hc Hs). unfold mbind, M_bind, unwrap.
    rewrite voted_notar_spec by lia. unfold mret, M_ret. do 3 f_equal. apply bool_decide_ext.
    rewrite (hr_notar _ _ Hrel) by lia. tauto.
Qed.

Definition notared L s (b p : Block) (r : bool) L' s' : Prop :=
  if r then ~ has_first L b.1 /\ allowed L (history s) b.1 p /\
    (L' = L ++ [Notarize b.1 b.2] \/ L' = L ++ [Notarize b.1 b.2; Finalize b.1]) /\
    eh_pending_blocks s' = delete b.1 (eh_pending_blocks s)
  else L' = L /\ s' = s /\ (has_first L b.1 \/ ~ allowed L (history s) b.1 p).

Lemma keeps_try_notar b p root L s :
  inv root L s -> block_seen E b p -> root <= b.1 -> (b.1 = root -> has_first L b.1) ->
  (total = true -> b.1 <= horizon) -> final_prompt None L s ->
  keeps (try_notar b p) root L s (fun r root' L' s' =>
    root' = root /\ notared L s b p r L' s' /\ final_prompt None L' s' /\
    vh_parent_ready_slots (history s') = vh_parent_ready_slots (history s)).
Proof.
  intros Hi Hseen Hs Heq Hh Hp. pose proof (in_root _ _ _ _ _ _ _ Hi) as [Hr Hv]. destruct b as [slot bid]. simpl in *.
  pose proof (in_rel _ _ _ _ _ _ _ Hi) as Hrel. unfold try_notar.
  eapply keeps_unwrap_some; [apply voted_spec; lia|]. case_bool_decide as Hvoted; rewrite (hr_voted _ _ Hrel) in Hvoted by lia.
  { apply keeps_ret; [done|]. unfold notared. simpl. tauto. }
  assert (root < slot) as Hlt by (destruct (decide (slot = root)); [tauto|lia]).
  apply keeps_bind. eapply keeps_step; [by eapply notar_allowed_spec|done|]. intros a [= <-] _ _ _.
  case_bool_decide as Ha; simpl; [|apply keeps_ret; [done|]; unfold notared; simpl; tauto].
  apply keeps_bind. eapply keeps_mono.
  { apply (keeps_cast (Notarize slot bid)); [done..| |done]. split; [done|]. exists p. eauto using allowed_parent_ok. }
  intros [] r1 L1 s1 _ _ Hi1 (-> & -> & Hf1) _ _ _. apply keeps_bind. eapply keeps_mono; [by apply keeps_send_commitment|].
  intros [] r2 L2 s2 _ _ Hi2 (-> & -> & Hf2) _ _ _. apply keeps_modify.
  destruct Hf1 as (Hf1p & Hf1n & Hf1r), Hf2 as (Hf2p & Hf2n & Hf2r).
  assert (inv root (L ++ [Notarize slot bid]) (set_pending s2 (delete slot (eh_pending_blocks s2)))) as Hi3
    by (apply inv_pending; [done|]; by intros x bs [_ ?]%lookup_delete_Some).
  apply keeps_bind. eapply keeps_mono.
  { apply keeps_try_final; [done..|]. apply (final_prompt_weaken _ L _ s); [|set_solver| |].
    - intros x y Hx _ ?. by apply (Hp x y).
    - unfold history in *. simpl. intros x. congruence.
    - intros x y. rewrite elem_of_app, list_elem_of_singleton. intros [?|[= -> ->]]; [done|congruence]. }
  intros r4 root4 L4 s4 _ _ Hi4 (-> & HL4 & (Hf4p & Hf4n & Hf4r) & Hp4 & _) _ _ _. apply keeps_ret; [done|].
  unfold notared, history in *. simpl in *. split_and!; try done; [|congruence..].
  destruct HL4 as [-> | ->]; [by left|right]. by rewrite <-(assoc_L (++)).
Qed.

(** ** Pending blocks *)

Definition settled L (h : VoteHistory) (b p : Block) : Prop := has_first L b.1 \/ ~ allowed L h b.1 p.
(** No pending block could be voted for. *)
Definition pending_prompt L s : Prop := forall b p, pending_block s b p -> settled L (history s) b p.

(** Votes settle a block for good, but for the vote for its parent. *)
Lemma settled_votes L L' h h' b p :
  settled L h b p -> L ⊆ L' -> vh_parent_ready_slots h' = vh_parent_ready_slots h ->
  (p.1 +s 1 = b.1 -> Notarize p.1 p.2 ∈ L' -> Notarize p.1 p.2 ∈ L \/ has_first L' b.1) -> settled L' h' b p.
Proof.
  intros [Hf|Ha] HL Hp Hn; [left; eauto using has_first_mono|].
  destruct (decide (window_start b.1)) as [Hw|Hw].
  - right. rewrite allowed_start in Ha |- * by done. by rewrite (parent_ready_frame _ _ _ _ Hp).
  - destruct (decide (allowed L' h' b.1 p)) as [Ha'|]; [|by right]. rewrite allowed_inside in Ha, Ha' by done.
    left. destruct (Hn (proj1 Ha') (proj2 Ha')); tauto.
Qed.

Definition pending_list s : list (Block * Block) := concat (btree_iter (eh_pending_blocks s)).*2.

Lemma elem_of_pending_list s b p : (b, p) ∈ pending_list s <-> pending_block s b p.
Proof.
  unfold pending_list, pending_block. rewrite list_elem_of_In, in_concat. split.
  - intros (bs & ([slot bs'] & -> & He%elem_of_btree_iter)%list_elem_of_In%list_elem_of_fmap & Hb%list_elem_of_In). eauto.
  - intros (slot & bs & Hs & Hb). exists bs. split; apply list_elem_of_In; [|done].
    apply list_elem_of_fmap. exists (slot, bs). split; [done|]. by apply elem_of_btree_iter.
Qed.

Definition by_slot (x y : Block * Block) : Prop := x.1.1 <= y.1.1.
Lemma concat_sorted (l : list (Slot * list (Block * Block))) :
  StronglySorted entry_leq l -> (forall slot bs x, (slot, bs) ∈ l -> x ∈ bs -> x.1.1 = slot) ->
  StronglySorted by_slot (concat l.*2).
Proof.
  induction 1 as [|[slot bs] l Hl IH Hall]; intros Hs; simpl; [constructor|]. apply StronglySorted_app. split_and!.
  - intros x y Hx Hy. apply list_elem_of_In, in_concat in Hy as (bs' & ([slot' bs''] & -> & He)%list_elem_of_In%list_elem_of_fmap & Hy%list_elem_of_In).
    simpl in Hy. rewrite Forall_forall in Hall. specialize (Hall _ He). unfold by_slot.
    rewrite (Hs slot bs x), (Hs slot' bs'' y); [exact Hall|by right|done|by left|done].
  - assert (forall x, x ∈ bs -> x.1.1 = slot) as Hbs by (intros; eapply Hs; [by left|done]). clear -Hbs.
    induction bs as [|x bs IH]; constructor; [apply IH; set_solver|]. apply Forall_forall. intros y Hy. unfold by_slot.
    rewrite (Hbs x), (Hbs y); [lia|by right|by left].
  - apply IH. intros. eapply Hs; [by right|done].
Qed.
Lemma pending_list_sorted root L s : inv root L s -> StronglySorted by_slot (pending_list s).
Proof.
  intros Hi. apply concat_sorted; [apply btree_iter_sorted|]. intros slot bs [b p] Hb%elem_of_btree_iter Hx.
  by destruct (in_pending _ _ _ _ _ _ _ Hi slot bs b p Hb Hx).
Qed.

(** What the loop over the pending blocks knows of those still to check. *)
Record checking (h : VoteHistory) root0 (rest : list (Block * Block)) root L s : Prop := {
  ck_root : root = root0;
  ck_final : final_prompt None L s;
  ck_parents : vh_parent_ready_slots (history s) = vh_parent_ready_slots h;
  ck_rest b p : (b, p) ∈ rest -> block_seen E b p /\ root <= b.1 /\ (b.1 = root -> has_first L b.1) /\
    (total = true -> b.1 <= horizon);
  ck_sorted : StronglySorted by_slot rest;
  ck_done b p : pending_block s b p ->
    (b, p) ∈ rest \/ (settled L (history s) b p /\ forall y, y ∈ rest -> b.1 <= y.1.1);
}.

Lemma keeps_check_one h root0 b p rest root L s :
  inv root L s -> checking h root0 ((b, p) :: rest) root L s ->
  keeps (try_notar b p;; mret tt) root L s (fun _ => checking h root0 rest).
Proof.
  intros Hi [Hr Hf Hp Hrest Hsort Hdone]. apply keeps_bind.
  destruct (Hrest b p ltac:(by left)) as (Hseen & Hs & Heq & Hh). eapply keeps_mono; [by apply keeps_try_notar|].
  intros r root' L' s' _ HL Hi' (-> & Hn & Hf' & Hp') _ _ _. apply keeps_ret; [done|].
  apply StronglySorted_inv in Hsort as [Hsort Hle]. rewrite Forall_forall in Hle.
  assert (L ⊆ L') as Hsub by (destruct HL as [k ->]; set_solver).
  split; [done|done|congruence| |done|].
  - intros b' p' Hb'. destruct (Hrest b' p' ltac:(by right)) as (? & ? & ? & ?). eauto 10 using has_first_mono.
  - intros b' p' Hb'. unfold notared in Hn. destruct r.
    + destruct Hn as (Hnf & Hal & HL' & Hpe).
      assert (pending_block s b' p' /\ b'.1 <> b.1) as [Hb'' Hne].
      { destruct Hb' as (x & bs & Hx & Hin). rewrite Hpe in Hx. apply lookup_delete_Some in Hx as [Hne Hx].
        destruct (in_pending _ _ _ _ _ _ _ Hi x bs b' p' Hx Hin) as [-> _]. split; [by exists x, bs|done]. }
      destruct (Hdone b' p' Hb'') as [[[= -> ->]|Hin]%elem_of_cons|[Hset Hall]]; [done|by left|].
      right. split; [|intros y Hy; apply Hall; by right].
      apply (settled_votes L L' (history s)); [done..|]. intros Hsat HN.
      assert (Notarize p'.1 p'.2 ∈ L \/ p' = b) as [?| ->]; [|by left|].
      { destruct p' as [ps pb], b as [bs bb]. destruct HL' as [-> | ->]; set_solver. }
      specialize (Hall (b, p) ltac:(by left)). simpl in Hall. exfalso.
      destruct (block_seen_u64 _ _ _ HE Hseen) as [_ ?]. unfold sat_add in Hsat. lia.
    + destruct Hn as (-> & -> & Hset).
      destruct (Hdone b' p' Hb') as [[[= -> ->]|Hin]%elem_of_cons|[Hset' Hall]]; [|by left|].
      * right. split; [done|]. intros y Hy. by apply (Hle y).
      * right. split; [done|]. intros y Hy. apply Hall. by right.
Qed.

Lemma keeps_check_pending root L s :
  inv root L s -> final_prompt None L s ->
  keeps check_pending_blocks root L s (fun _ root' L' s' =>
    root' = root /\ final_prompt None L' s' /\ pending_prompt L' s' /\
    vh_parent_ready_slots (history s') = vh_parent_ready_slots (history s)).
Proof.
  intros Hi Hf. unfold check_pending_blocks. apply keeps_gets. fold (pending_list s). eapply keeps_mono.
  { apply (keeps_for_each _ _ _ _ _ (checking (history s) root)); [|done|].
    - intros [b p] rest root' L' s' Hi' Hc. by apply keeps_check_one.
    - split; [done..| |by eapply pending_list_sorted|intros b p Hb; left; by apply elem_of_pending_list].
      intros b p Hb%elem_of_pending_list. pose proof Hb as (slot & bs & Hbs & Hin).
      destruct (in_pending _ _ _ _ _ _ _ Hi slot bs b p Hbs Hin) as (<- & ? & ? & ?). split_and!; try done.
      intros Ht. by apply (block_seen_fits horizon E b p); [apply HF|]. }
  intros [] root' L' s' _ _ _ [-> Hf' Hp' _ _ Hd]. split_and!; try done.
  intros b p Hb. destruct (Hd b p Hb) as [?%elem_of_nil|[? _]]; done.
Qed.

(** ** Skipping and refreshing *)

(** The handler does not sit on a vote. *)
Definition prompt L s : Prop := final_prompt None L s /\ pending_prompt L s.

(** The votes after [L] notarize nothing. *)
Definition no_notarize L L' : Prop := L ⊆ L' /\ forall slot b, Notarize slot b ∈ L' -> Notarize slot b ∈ L.
Lemma no_notarize_refl L : no_notarize L L.
Proof. by split. Qed.
Lemma no_notarize_snoc L L' v :
  no_notarize L L' -> (forall slot b, v <> Notarize slot b) -> no_notarize L (L' ++ [v]).
Proof using.
  intros [HL Hn] Hv. split; [intros x Hx; apply elem_of_app; auto|]. intros slot b [?|Hb%list_elem_of_singleton]%elem_of_app; [auto|].
  by destruct (Hv slot b).
Qed.
Lemma frame_trans s1 s2 s3 : frame s1 s2 -> frame s2 s3 -> frame s1 s3.
Proof. unfold frame. intros (-> & -> & ->) (-> & -> & ->). done. Qed.

Lemma prompt_frame L L' s s' : prompt L s -> no_notarize L L' -> frame s s' -> prompt L' s'.
Proof.
  intros [Hf Hp] [HL Hn] (Hpe & Hnb & Hpr). split.
  - apply (final_prompt_weaken None L L' s s'); [done|done|by rewrite Hnb|auto].
  - intros b p Hb. apply (settled_votes L L' (history s)); [|done|done|auto].
    apply Hp. unfold pending_block in *. by rewrite Hpe in Hb.
Qed.

Lemma elem_of_skip_range root slot x :
  x ∈ skip_range root slot <->
  Z.max (Z.max (first_of_consecutive_leader_slots slot) root) 1 <= x <= last_of_consecutive_leader_slots slot.
Proof. unfold skip_range. rewrite elem_of_seqZ. lia. Qed.

Definition skipping root slot L s (rest : list Slot) root' L' s' : Prop :=
  root' = root /\ frame s s' /\ no_notarize L L' /\ (forall x, x ∈ rest -> x ∈ skip_range root slot) /\
  forall x, x ∈ skip_range root slot -> x ∈ rest \/ has_first L' x.

Lemma keeps_skip_window slot root L s :
  inv root L s -> (total = true -> last_of_consecutive_leader_slots slot <= horizon) ->
  (forall x, first_of_consecutive_leader_slots slot <= x <= last_of_consecutive_leader_slots slot ->
     exists e, e ∈ E /\ skip_event e x) ->
  keeps (try_skip_window slot) root L s (fun _ root' L' s' =>
    root' = root /\ frame s s' /\ no_notarize L L' /\ forall x, x ∈ skip_range root slot -> has_first L' x).
Proof.
  intros Hi Hh Hev. unfold try_skip_window. destruct (root_bank_ok _ _ _ Hi) as (bank & Hrb & _ & Hslot).
  eapply keeps_unwrap_some; [by rewrite Hrb; simpl; rewrite Hslot|]. eapply keeps_mono.
  { apply (keeps_for_each _ _ _ _ _ (skipping root slot L s)); [|done|].
    2: { split_and!; try done; auto using no_notarize_refl. }
    clear Hi. intros x rest root' L' s' Hi (-> & Hf & Hn & Hrest & Hdone).
    pose proof (Hrest x ltac:(by left)) as Hx%elem_of_skip_range. pose proof (in_root _ _ _ _ _ _ _ Hi) as [_ Hv].
    assert (forall L'' s'', frame s s'' -> no_notarize L L'' -> L' ⊆ L'' -> has_first L'' x -> skipping root slot L s rest root L'' s'') as Hnext.
    { intros L'' s'' Hf' Hn' Hsub Hfx. split_and!; try done; [set_solver|]. intros y Hy.
      destruct (Hdone y Hy) as [[->|?]%elem_of_cons|?]; [by right|by left|right; by eapply has_first_mono]. }
    eapply keeps_unwrap_some; [apply voted_spec; lia|]. case_bool_decide as Hvoted;
      rewrite (hr_voted _ _ (in_rel _ _ _ _ _ _ _ Hi)) in Hvoted by lia; [by apply keeps_ret; [|by apply Hnext]|].
    eapply keeps_mono.
    { apply (keeps_cast (Skip x)); [done|simpl; lia| |simpl; intros Ht; specialize (Hh Ht); lia].
      split; [done|]. split; [lia|]. apply Hev. lia. }
    intros [] ? ? s2 _ _ Hi2 (-> & -> & Hf2).
    apply Hnext; [by eapply frame_trans|by apply no_notarize_snoc|set_solver|]. exists (Skip x). set_solver. }
  intros [] root' L' s' _ _ _ (-> & Hf & Hn & _ & Hd). split_and!; try done.
  intros x Hx. destruct (Hd x Hx) as [?%elem_of_nil|]; done.
Qed.

Lemma keeps_refresh_votes slot root L s :
  inv root L s -> root <= slot ->
  keeps (refresh_votes slot) root L s (fun _ root' L' s' => root' = root /\ L' = L /\ frame s s').
Proof.
  intros Hi Hs. pose proof (in_root _ _ _ _ _ _ _ Hi) as [_ Hv]. unfold refresh_votes. apply keeps_gets.
  eapply keeps_mono.
  { apply (keeps_for_each _ _ _ _ _ (fun rest root' L' s' => root' = root /\ L' = L /\ frame s s' /\
      forall v, v ∈ rest -> v ∈ L /\ slot < vote_slot v)); [|done|].
    - clear Hi. intros v rest root' L' s' Hi (-> & -> & Hf & Hrest). destruct (Hrest v ltac:(by left)) as [Hin Hlt].
      eapply keeps_mono; [apply keeps_refresh; [done..|lia]|]. intros [] ? ? s2 _ _ _ (-> & -> & Hf2).
      split_and!; [done|done|by eapply frame_trans|]. intros x Hx. apply Hrest. by right.
    - split_and!; [done..|]. intros v. rewrite (votes_cast_since_spec _ L); [done|apply Hi|lia]. }
  intros [] root' L' s' _ _ _ (-> & -> & Hf & _). done.
Qed.
End votes.
