(* ===== verification/EventRoot.v ===== *)
(** * Rooting in the event handler

    [check_rootable_blocks] of [votor/src/event_handler.rs] and
    [votor/src/root_utils.rs]: the root moves to the highest finalized block that was
    replayed and voted on, and nothing above it is forgotten. *)

From S2P Require Import Prelude.
From S2P Require Import Messages.
From S2P Require Import EpochStakes.
From S2P Require Import CertBuilder.
From S2P Require Import Finalization.
From S2P Require Import BankForks.
From S2P Require Import VoteHistory.
From S2P Require Import VoteStorage.
From S2P Require Import Voting.
From S2P Require Import Timers.
From S2P Require Import EventHandler.
From S2P Require Import EventLogic.
From S2P Require Import EventVotes.

(** ** Setting the root of the forks *)

Lemma voting_ready_same `{VotingOps} b b' keys slot :
  same_bank b b' -> voting_ready b keys slot -> voting_ready b' keys slot.
Proof. intros (Hb & _). unfold voting_ready. by rewrite Hb. Qed.
Lemma epoch_known_same b b' : same_bank b b' -> root_epoch_known b -> root_epoch_known b'.
Proof. intros (Hb & He & _). unfold root_epoch_known. by rewrite Hb, He. Qed.

Lemma check_and_handle_ok rctx parent new_root f bank :
  forks_ok f -> forks_get f new_root = Some bank ->
  match check_and_handle_new_root rctx parent new_root (Some new_root) f with
  | None => rc_set_roots_ok rctx = false \/ ~ root_epoch_known bank
  | Some (f', _) => forks_ok f' /\ bf_root f' = new_root /\ is_Some (bf_banks f' !! new_root) /\
      forall s b', bf_banks f' !! s = Some b' -> exists b, bf_banks f !! s = Some b /\ same_bank b b'
  end.
Proof.
  intros Hf Hb. unfold check_and_handle_new_root. rewrite Hb. cbn [mbind option_bind].
  destruct (rc_set_roots_ok rctx); simpl; [|by left].
  pose proof (forks_set_root_gen (rc_freeze rctx) (rc_snapshot rctx new_root) f new_root bank (Some new_root) Hf Hb) as Hg.
  destruct (forks_set_root _ _ f new_root (Some new_root)) as [[f1 rem1]|]; simpl.
  - destruct Hg as (f' & removed & [= <- <-] & Hok & Hr & Hk & _ & Hsame); [by right|].
    split_and!; [done|done| |done]. apply Hk. split; [by exists bank|by left].
  - right. intros Hk. by destruct Hg as (? & ? & ? & _); [left|].
Qed.

Section root.
Context `{VotingOps, StorageOps} (total : bool) (horizon : Slot) (E : list VotorEvent) (base : Origin) {X : Block -> Prop}.
Implicit Types (L : list Vote) (s : Handler) (root slot : Slot).
Abbreviation inv := (handler_inv total horizon E base).
Abbreviation keeps := (keeps total horizon E base).
Abbreviation prompt := (prompt (X := X)).

Lemma parent_ready_set_root h root slot p :
  is_parent_ready (vh_set_root h root) slot p = true -> is_parent_ready h slot p = true.
Proof.
  unfold is_parent_ready. simpl. rewrite lookup_retain. case_bool_decide; [done|]. done.
Qed.
Lemma lookup_retain_some {A} root (m : gmap Slot A) slot x :
  retain_keys root m !! slot = Some x -> root <= slot /\ m !! slot = Some x.
Proof. rewrite lookup_retain. case_bool_decide; done. Qed.

(** The handler's state with the new root. *)
Definition rooted_state s new_root (forks : BankForks) log : Handler :=
  set_forks (set_local (set_vctx s (with_history (eh_vctx s) (vh_set_root (history s) new_root)))
    (retain_keys new_root (eh_pending_blocks s)) (split_off_blocks (new_root, 0) (eh_finalized_blocks s))
    (split_off_slots new_root (eh_received_shred s))) forks log.

Lemma inv_rooted root L s new_root forks log :
  inv root L s -> root <= new_root -> has_first L new_root ->
  forks_ok forks -> bf_root forks = new_root ->
  (forall k b', bf_banks forks !! k = Some b' -> exists b, bf_banks (eh_forks s) !! k = Some b /\ same_bank b b') ->
  inv new_root L (rooted_state s new_root forks log).
Proof.
  intros [R Ho F Hnn [Hr Hv] N P Pe Fin S Ba Ops Id Rd] Hle Hfirst Hf Hroot Hsame.
  split; try done; unfold rooted_state, history in *; simpl; [|lia|..].
  - apply vh_set_root_ok; [done|lia].
  - intros b [_ Hb]%elem_of_filter. auto.
  - intros slot p Hp%parent_ready_set_root. auto.
  - intros slot bs b p [Hs Hb]%lookup_retain_some Hin. destruct (Pe slot bs b p Hb Hin) as (? & ? & _ & _).
    split_and!; [done..|]. by intros ->.
  - intros b [_ Hb]%elem_of_filter. auto.
  - intros Ht. destruct (Rd Ht). split; simpl; try done.
    + intros k b' slot Hb' Hs. destruct (Hsame k b' Hb') as (b & Hb & Heq). eauto using voting_ready_same.
    + intros k b' Hb'. destruct (Hsame k b' Hb') as (b & Hb & Heq). destruct (rd_banks k b Hb).
      split; [eauto using epoch_known_same|]. by destruct Heq as (_ & _ & ->).
Qed.

Lemma prompt_rooted L s new_root forks log : prompt L s -> prompt L (rooted_state s new_root forks log).
Proof.
  intros [Hf Hp]. split.
  - apply (final_prompt_weaken None L L s); [done|done| |done]. intros b. unfold history. simpl.
    by intros [_ Hb]%elem_of_filter.
  - intros b p (slot & bs & [_ Hb]%lookup_retain_some & Hin). destruct (Hp b p) as [|Ha]; [by exists slot, bs|by left|].
    right. contradict Ha. revert Ha. unfold allowed, history. simpl. case_decide; [|done]. apply parent_ready_set_root.
Qed.

Lemma keeps_set_root rctx new_root root L s :
  inv root L s -> root <= new_root -> has_first L new_root -> is_Some (forks_get (eh_forks s) new_root) ->
  (total = true -> rc_set_roots_ok rctx = true) -> prompt L s ->
  keeps (handler_set_root rctx new_root) root L s (fun _ root' L' s' =>
    root' = new_root /\ L' = L /\ prompt L' s' /\ eh_highest_parent_ready s' = eh_highest_parent_ready s).
Proof.
  intros Hi Hle Hfirst [bank Hb] Hok Hp. unfold EventLogic.keeps, handler_set_root. simpl.
  pose proof (check_and_handle_ok rctx new_root new_root (eh_forks s) bank (in_forks _ _ _ _ _ _ _ Hi) Hb) as Hc.
  destruct (check_and_handle_new_root _ _ _ _ _) as [[f' log]|]; cbn [mbind option_bind].
  - destruct Hc as (Hf' & Hr' & [bk Hbk] & Hsame). unfold forks_bank_hash, forks_get. rewrite Hbk. simpl.
    exists new_root, L. do 2 (split; [done|]). split; [by apply (inv_rooted root)|].
    do 2 (split; [done|]). split; [by apply prompt_rooted|done].
  - destruct total eqn:Ht; [|done]. pose proof (in_ready _ _ _ _ _ _ _ Hi eq_refl) as Hrd.
    destruct Hc as [Hc|Hc]; [by rewrite Hok in Hc|]. destruct Hc. eapply rd_banks; [done|exact Hb].
Qed.

(** ** The choice of the root *)

(** A finalized block above the root that was voted on and replayed. *)
Definition rootable_block root L s (b : Block) : Prop :=
  b ∈ eh_finalized_blocks s /\ root < b.1 /\ has_first L b.1 /\
  exists bank, forks_get (eh_forks s) b.1 = Some bank /\ bank_frozen bank = true /\ fb_block_id bank = Some b.2.

Lemma rootable_spec root L s b :
  inv root L s -> b ∈ eh_finalized_blocks s ->
  (rootable_block root L s b /\ rootable (eh_forks s) (history s) b = Some (Some b.1)) \/
  (~ rootable_block root L s b /\ rootable (eh_forks s) (history s) b = Some None).
Proof.
  intros Hi Hb. pose proof (in_root _ _ _ _ _ _ _ Hi) as [Hr Hv]. pose proof (in_rel _ _ _ _ _ _ _ Hi) as Hrel.
  unfold rootable, rootable_block. rewrite Hr.
  destruct (forks_get (eh_forks s) b.1) as [bank|]; [|right; split; [|done]; by intros (_ & _ & _ & ? & ? & _)].
  case_bool_decide as Hlt; simpl; [|right; split; [tauto|done]].
  rewrite voted_spec by lia. cbn [mbind option_bind]. case_bool_decide as Hvoted; rewrite (hr_voted _ _ Hrel) in Hvoted by lia;
    [|right; split; [tauto|done]]. simpl.
  destruct (bank_frozen bank) eqn:Hfr; simpl; [|right; split; [|done]; intros (_ & _ & _ & ? & [= <-] & ? & _); congruence].
  case_bool_decide as Hid; [left|right]; (split; [|done]); [eauto 10|].
  intros (_ & _ & _ & ? & [= <-] & _ & ?); congruence.
Qed.

Lemma rootable_slots_spec root L s bs :
  inv root L s -> (forall b, b ∈ bs -> b ∈ eh_finalized_blocks s) ->
  exists slots, rootable_slots (eh_forks s) (history s) bs = Some slots /\
    forall x, x ∈ slots <-> exists b, b ∈ bs /\ b.1 = x /\ rootable_block root L s b.
Proof.
  intros Hi. induction bs as [|b bs IH]; intros Hbs; simpl; [exists []; split; [done|]; set_solver|].
  destruct IH as (slots & -> & Hslots); [set_solver|].
  destruct (rootable_spec root L s b Hi ltac:(set_solver)) as [[Hb ->]|[Hb ->]]; cbn [mbind option_bind]; eexists; (split; [done|]);
    intros x; simpl; rewrite ?elem_of_cons, Hslots; setoid_rewrite elem_of_cons; split.
  - intros [->|(b' & ? & ? & ?)]; eauto.
  - intros (b' & [->|?] & <- & ?); eauto.
  - intros (b' & ? & ? & ?); eauto.
  - intros (b' & [->|?] & <- & ?); [done|eauto].
Qed.

(** The root moved from [root] to the highest rootable block, if there was one. *)
Definition root_moved root L s root' : Prop :=
  (root' = root /\ forall b, ~ rootable_block root L s b) \/
  (exists id, rootable_block root L s (root', id)) /\ forall b, rootable_block root L s b -> b.1 <= root'.

Lemma keeps_check_rootable rctx root L s :
  inv root L s -> (total = true -> rc_set_roots_ok rctx = true) -> prompt L s ->
  keeps (check_rootable_blocks rctx) root L s (fun _ root' L' s' =>
    root_moved root L s root' /\ L' = L /\ prompt L' s' /\ eh_highest_parent_ready s' = eh_highest_parent_ready s).
Proof.
  intros Hi Hok Hp. unfold check_rootable_blocks.
  destruct (rootable_slots_spec root L s (btree_set_iter (eh_finalized_blocks s)) Hi) as (slots & Hs & Hslots);
    [intros b; by rewrite elem_of_btree_set_iter|]. setoid_rewrite elem_of_btree_set_iter in Hslots.
  eapply keeps_unwrap_some; [exact Hs|]. destruct (iter_max slots) as [new_root|] eqn:Hmax.
  - apply iter_max_Some in Hmax as [Hin Hmax]. apply Hslots in Hin as ([x id] & Hfin & <- & Hb). simpl in *.
    pose proof Hb as (_ & Hlt & Hfirst & bank & Hbank & _). eapply keeps_mono.
    { apply keeps_set_root; [done|simpl in Hlt; lia|done|by exists bank|done|done]. }
    intros [] root' L' s' _ _ _ (-> & -> & ? & ?). split_and!; try done. right. split; [by exists id|].
    intros b Hb'. apply Hmax, Hslots. exists b. split_and!; [apply Hb'|done|done].
  - apply iter_max_None in Hmax. subst slots. apply keeps_ret; [done|]. split_and!; try done. left. split; [done|].
    intros b Hb. apply (not_elem_of_nil b.1), Hslots. exists b. split_and!; [apply Hb|done|done].
Qed.
End root.
