(* ===== verification/EventSteps.v ===== *)
(** * The event loop

    [handle_event] and [event_loop] of [votor/src/event_handler.rs], as a whole: runs
    of the handler over any sequence of events, interleaved with the work of the
    other threads on the banks, the timers and the vote history files. *)

From S2P Require Import Prelude.
From S2P Require Import Messages.
From S2P Require Import EpochStakes.
From S2P Require Import CertBuilder.
From S2P Require Import Finalization.
From S2P Require Import BankForks.
From S2P Require Import VoteHistory.
From S2P Require Import VoteStorage.
From S2P Require Import Voting.
From S2P Require Import Timers.
From S2P Require Import EventHandler.
From S2P Require Import EventLogic.
From S2P Require Import EventVotes.
From S2P Require Import EventRoot.

(** The conditions on an event and its time under which handling it cannot panic. *)
Definition event_fits (now : Instant) (rctx : RootContext) (e : VotorEvent) : Prop :=
  now + 5 * MAX_TIMEOUT <= instant_max /\ rc_set_roots_ok rctx = true /\
  match e with EBlock _ bank => is_Some (bank_block_id bank) | _ => True end.

Section steps.
Context `{VotingOps, StorageOps} (total : bool) (horizon : Slot) (E : list VotorEvent) (base : Origin).
Context (HE : forall e, e ∈ E -> event_ok e) (HF : total = true -> forall e, e ∈ E -> slot_fits horizon e) {X : Block -> Prop}.
Implicit Types (L : list Vote) (s : Handler) (root slot : Slot).
Abbreviation inv := (handler_inv total horizon E base).
Abbreviation keeps := (keeps total horizon E base).
Abbreviation prompt := (prompt (X := X)).
Abbreviation final_prompt := (final_prompt (X := X)).

(** ** Updates that do not vote *)

(** Changing the blocks of the history, not its votes. *)
Lemma inv_history root L s h :
  inv root L s -> history_rel h L -> vh_root h = vh_root (history s) -> vh_node_pubkey h = vh_node_pubkey (history s) ->
  (forall b, b ∈ vh_notarized_blocks h -> EBlockNotarized b ∈ E) ->
  (forall slot p, is_parent_ready h slot p = true -> window_start slot -> EParentReady slot p ∈ E) ->
  inv root L (set_vctx s (with_history (eh_vctx s) h)).
Proof.
  intros [R Ho F Hnn [Hr Hv] N P Pe Fin S Ba Ops Id Rd] Hrel Hroot Hk Hn Hp. split; try done; unfold history in *; simpl.
  - by rewrite Hroot.
  - by rewrite Hk.
  - intros Ht. by destruct (Rd Ht).
Qed.

Lemma inv_senders root L s l h r m b :
  inv root L s -> connected l = connected (eh_leader_window_sender s) ->
  sent b = sent (eh_bls_sender s) -> inv root L (set_senders s l h r m b).
Proof.
  intros [R Ho F Hnn Hr N P Pe Fin S Ba Ops Id Rd] Hl Hb. split; try done; unfold votes_out, from_origin; simpl; rewrite ?Hb; try done.
  intros Ht. destruct (Rd Ht). split; try done. simpl. congruence.
Qed.

(** A send on a channel that is not for votes. *)
Definition only_senders s s' : Prop := exists l h r m b, s' = set_senders s l h r m b.
Lemma prompt_senders L s s' : only_senders s s' -> prompt L s -> prompt L s'.
Proof. by intros (l & h & r & m & b & ->). Qed.

Lemma keeps_send_metrics events root L s :
  inv root L s ->
  keeps (send_metrics events) root L s (fun _ root' L' s' => root' = root /\ L' = L /\ only_senders s s').
Proof.
  intros Hi. unfold send_metrics. destruct (send (eh_metrics_sender s) events) as [m ok] eqn:Hs.
  eapply keeps_step; [rewrite Hs; reflexivity|by apply inv_senders|].
  intros _ _. split_and!; try done. unfold only_senders. eauto 10.
Qed.
Lemma keeps_request_repair block root L s :
  inv root L s ->
  keeps (request_repair block) root L s (fun _ root' L' s' => root' = root /\ L' = L /\ only_senders s s').
Proof.
  intros Hi. unfold request_repair.
  destruct (match try_send (eh_repair_sender s) (FetchBlock block.1 block.2) with
                  | (r, Ok _) => (r, true)
                  | (r, Err TrySendFull) => send r (FetchBlock block.1 block.2)
                  | (r, Err TrySendDisconnected) => (r, false)
                  end) as [r ok] eqn:Hs.
  eapply keeps_step; [cbv zeta; rewrite Hs; reflexivity|by apply inv_senders|].
  intros _ _. split_and!; try done. unfold only_senders. eauto 10.
Qed.

Lemma inv_timers root L s t :
  inv root L s -> (total = true -> timers_ok t /\ 0 <= tm_delta_timeout t) -> inv root L (set_timers s t).
Proof.
  intros [R Ho F Hnn Hr N P Pe Fin S Ba Ops Id Rd] Ht. split; try done. intros Htt. destruct (Rd Htt). split; try done. auto.
Qed.

(** ** A ready parent *)

Lemma add_parent_ready_spec h slot p :
  let h' := (add_parent_ready h slot p).1 in
  vh_root h' = vh_root h /\ vh_node_pubkey h' = vh_node_pubkey h /\
  vh_notarized_blocks h' = vh_notarized_blocks h /\
  forall slot' p', is_parent_ready h' slot' p' = true -> is_parent_ready h slot' p' = true \/ (slot', p') = (slot, p).
Proof.
  unfold add_parent_ready. simpl. case_bool_decide; simpl; [by split_and!; try done; left|].
  destruct (vh_parent_ready_slots h !! slot) as [ps|] eqn:Hps; simpl; split_and!; try done; intros slot' p';
    unfold is_parent_ready; simpl; (destruct (decide (slot = slot')) as [<-|]; [rewrite lookup_insert_eq|rewrite lookup_insert_ne by done; by left]);
    rewrite bool_decide_eq_true, ?elem_of_union, elem_of_singleton; [rewrite Hps, bool_decide_eq_true|]; naive_solver.
Qed.

Lemma keeps_parent_ready now slot p root L s :
  inv root L s -> final_prompt None L s -> (window_start slot -> EParentReady slot p ∈ E) ->
  (total = true -> is_u64 slot /\ now + 5 * MAX_TIMEOUT <= instant_max) ->
  keeps (handle_parent_ready_event now slot p) root L s (fun _ root' L' s' => root' = root /\ prompt L' s').
Proof.
  intros Hi Hf Hstart Ht. unfold handle_parent_ready_event. apply keeps_gets, keeps_modify.
  destruct (add_parent_ready_spec (history s) slot p) as (A1 & A2 & A3 & A4).
  match goal with |- context [set_vctx s ?c] => set (s1 := set_vctx s c) end.
  assert (inv root L s1) as Hi1.
  { apply inv_history; [done|apply add_parent_ready_ok, Hi|done|done|rewrite A3; apply Hi|].
    intros slot' p' Hp' Hw. destruct (A4 slot' p' Hp') as [?|[= -> ->]]; [by apply (in_parents _ _ _ _ _ _ _ Hi)|auto]. }
  assert (final_prompt None L s1) as Hf1.
  { apply (final_prompt_weaken None L L s); [done|done| |done].
    change (history s1) with (add_parent_ready (history s) slot p).1. by rewrite A3. }
  apply keeps_bind. eapply keeps_mono; [by apply keeps_check_pending|].
  intros [] r2 L2 s2 _ _ Hi2 (-> & Hf2 & Hp2 & _) _ _ _. apply keeps_bind.
  apply (keeps_mono _ _ _ _ _ _ _ _ (fun _ root' L' s' => root' = root /\ prompt L' s')).
  - destruct (add_parent_ready (history s) slot p).2; [|by apply keeps_ret].
    destruct (root_bank_ok _ _ _ _ _ _ _ Hi2) as (bank & Hrb & Hbank & _).
    eapply keeps_unwrap_some; [by rewrite Hrb|]. apply keeps_unwrap.
    + intros Htt. destruct (Ht Htt), (in_ready _ _ _ _ _ _ _ Hi2 Htt) as [_ Hb [? ?] _].
      destruct (set_timeouts_ok (eh_timers s2) slot now (eh_standstill_slot s2) (fb_ns_per_slot bank)) as (t' & ? & ? & -> & _);
        try done. by eapply Hb.
    + intros t Hset. apply keeps_modify_last; [|done]. apply inv_timers; [done|]. intros Htt.
      destruct (Ht Htt), (in_ready _ _ _ _ _ _ _ Hi2 Htt) as [_ Hb [? ?] _].
      destruct (set_timeouts_ok (eh_timers s2) slot now (eh_standstill_slot s2) (fb_ns_per_slot bank)) as (t' & ? & ? & Heq & ? & Hd & _);
        try done; [by eapply Hb|]. rewrite Hset in Heq. injection Heq as ->. by rewrite Hd.
  - intros [] r3 L3 s3 _ _ Hi3 (-> & Hp3) _ _ _. apply keeps_modify_last; case_bool_decide; try done.
    by apply inv_senders.
Qed.

Lemma missing_not_start s slot b p :
  is_u64 slot -> add_missing_parent_ready s (slot, b) = Some p -> ~ window_start slot.
Proof.
  intros Hu. unfold add_missing_parent_ready. destruct (_ || _) eqn:Hw; [done|]. intros _. to_prop.
  unfold window_start, leader_slot_index, first_of_consecutive_leader_slots, NUM_CONSECUTIVE_LEADER_SLOTS in *.
  pose proof (Z.div_mod slot 4 ltac:(lia)). intros [?| ->]; [lia|]. done.
Qed.

Lemma keeps_missing_parent_ready now slot b root L s :
  inv root L s -> prompt L s -> is_u64 slot -> (total = true -> now + 5 * MAX_TIMEOUT <= instant_max) ->
  keeps (with_missing_parent_ready now slot (slot, b)) root L s (fun _ root' L' s' => root' = root /\ prompt L' s').
Proof.
  intros Hi Hp Hu Ht. unfold with_missing_parent_ready. apply keeps_gets.
  destruct (add_missing_parent_ready s (slot, b)) as [p|] eqn:Hm; [|by apply keeps_ret].
  apply keeps_parent_ready; [done|apply Hp| |auto]. intros Hw. by destruct (missing_not_start _ _ _ _ Hu Hm).
Qed.

(** ** Each event *)

(** The votes an event demands: [L] were cast before it, [L'] after it. *)
Definition responds root L s (e : VotorEvent) L' : Prop :=
  match e with
  | EBlock slot bank => forall b p, get_block_parent_block bank = Some (b, p) ->
      allowed L (history s) slot p -> has_first L' slot
  | EBlockNotarized (slot, b) => Notarize slot b ∈ L -> has_bad L slot \/ Finalize slot ∈ L'
  | ETimeout slot => has_first L slot \/ forall x, x ∈ skip_range root slot -> has_first L' x
  | ETimeoutCrashedLeader slot => has_first L slot \/ slot ∈ eh_received_shred s \/
      forall x, x ∈ skip_range root slot -> has_first L' x
  | ESafeToNotar (slot, b) => (forall x, x ∈ skip_range root slot -> has_first L' x) /\
      (Finalize slot ∈ L' \/ NotarizeFallback slot b ∈ L')
  | ESafeToSkip slot => (forall x, x ∈ skip_range root slot -> has_first L' x) /\
      (Finalize slot ∈ L' \/ SkipFallback slot ∈ L')
  | _ => True
  end.

(** The root is the old one, or a finalized block the node voted on. *)
Definition root_final root root' L' : Prop :=
  root' = root \/ exists id fast, EFinalized (root', id) fast ∈ E /\ has_first L' root'.

Definition handled root L s (e : VotorEvent) root' L' s' : Prop :=
  prompt L' s' /\ responds root L s e L' /\ root_final root root' L'.

Lemma root_moved_final root L s L' root' :
  inv root L s -> L ⊆ L' -> root_moved root L s root' -> root_final root root' L'.
Proof.
  intros Hi HL [[-> _]|[(id & Hb) _]]; [by left|right]. pose proof Hb as (Hfin & _ & Hfirst & _).
  apply (in_finalized _ _ _ _ _ _ _ Hi) in Hfin as [fast ?]. exists id, fast. eauto using has_first_mono.
Qed.

Lemma prefix_sub L L' : L `prefix_of` L' -> L ⊆ L'.
Proof using. intros [k ->] x Hx. apply elem_of_app. by left. Qed.

(** The pending block is recorded. *)
Lemma inv_push root L s b p :
  inv root L s -> block_seen E b p -> root < b.1 -> (total = true -> b.1 <= horizon) ->
  inv root L (set_pending s (<[b.1 := default [] (eh_pending_blocks s !! b.1) ++ [(b, p)]]> (eh_pending_blocks s))).
Proof.
  intros [R Ho F Hnn Hr N P Pe Fin S Ba Ops Id Rd] Hseen Hlt Hh.
  assert (forall slot bs b' p', <[b.1 := default [] (eh_pending_blocks s !! b.1) ++ [(b, p)]]> (eh_pending_blocks s) !! slot = Some bs ->
    (b', p') ∈ bs -> (slot = b.1 /\ b' = b /\ p' = p) \/ exists bs', eh_pending_blocks s !! slot = Some bs' /\ (b', p') ∈ bs') as Hcase.
  { intros slot bs b' p'. destruct (decide (b.1 = slot)) as [<-|]; [|rewrite lookup_insert_ne by done; eauto].
    rewrite lookup_insert_eq. intros [= <-] [Hin|[= -> ->]%list_elem_of_singleton]%elem_of_app; [|by left].
    right. destruct (eh_pending_blocks s !! b.1); [eauto|by apply elem_of_nil in Hin]. }
  split; try done; simpl.
  - intros slot bs b' p' Hb Hin. destruct (Hcase _ _ _ _ Hb Hin) as [(-> & -> & ->)|(bs' & ? & ?)]; [|eauto].
    split_and!; try done; lia.
  - intros Ht. by destruct (Rd Ht).
Qed.
Lemma prompt_push L s b p :
  prompt L s -> settled L (history s) b p ->
  prompt L (set_pending s (<[b.1 := default [] (eh_pending_blocks s !! b.1) ++ [(b, p)]]> (eh_pending_blocks s))).
Proof.
  intros [Hf Hp] Hset. split; [done|]. intros b' p' (slot & bs & Hb & Hin). simpl in Hb.
  destruct (decide (b.1 = slot)) as [<-|]; [|rewrite lookup_insert_ne in Hb by done; apply Hp; by exists slot, bs].
  rewrite lookup_insert_eq in Hb. injection Hb as <-. apply elem_of_app in Hin as [Hin|[= -> ->]%list_elem_of_singleton]; [|done].
  destruct (eh_pending_blocks s !! b.1) as [bs|] eqn:Hbs; [|by apply elem_of_nil in Hin]. apply Hp. by exists b.1, bs.
Qed.

(** The block is voted on, or put aside. *)
Lemma keeps_record_block slot bid p root L s :
  inv root L s -> prompt L s -> block_seen E (slot, bid) p -> root < slot -> (total = true -> slot <= horizon) ->
  keeps (notar_or_pend slot (slot, bid) p) root L s
    (fun _ root' L' s' => root' = root /\ prompt L' s' /\ (allowed L (history s) slot p -> has_first L' slot)).
Proof.
  intros Hi Hp Hseen Hlt Hh. unfold notar_or_pend. apply keeps_bind. eapply keeps_mono.
  { apply (keeps_try_notar _ _ _ _ HE HF (X := X) (slot, bid) p); [done|done|simpl; lia|simpl; lia|done|apply Hp]. }
  intros r root' L' s' _ HL Hi' (-> & Hn & Hf' & _) _ _ _. unfold notared in Hn. simpl in Hn. destruct r.
  - destruct Hn as (_ & _ & HL' & _). eapply keeps_mono; [by apply keeps_check_pending|].
    intros [] r2 L2 s2 _ HL2%prefix_sub _ (-> & ? & ? & _). split_and!; try done. intros _.
    apply (has_first_mono L'); [done|]. exists (Notarize slot bid). split; [|done]. destruct HL' as [-> | ->]; set_solver.
  - destruct Hn as (-> & -> & Hset). pose proof (in_root _ _ _ _ _ _ _ Hi) as [_ Hv].
    eapply keeps_unwrap_some; [apply voted_spec; lia|]. case_bool_decide as Hvoted;
      rewrite (hr_voted _ _ (in_rel _ _ _ _ _ _ _ Hi)) in Hvoted by lia; [by apply keeps_ret|].
    apply keeps_modify_last; [by apply (inv_push _ _ _ (slot, bid))|]. split_and!; [done|by apply (prompt_push _ _ (slot, bid))|tauto].
Qed.

Lemma block_parent_seen slot bank b p :
  EBlock slot bank ∈ E -> get_block_parent_block bank = Some (b, p) -> b.1 = slot /\ block_seen E b p.
Proof.
  intros He Hb. destruct (HE _ He) as [Hs _]. assert (b.1 = slot) as Hbs.
  { unfold get_block_parent_block in Hb. destruct (bank_block_id bank); [|done]. by injection Hb as <- _. }
  split; [done|]. exists bank. by rewrite Hbs.
Qed.

Lemma keeps_handle_block now rctx slot bank root L s :
  inv root L s -> prompt L s -> EBlock slot bank ∈ E -> root < slot ->
  (total = true -> event_fits now rctx (EBlock slot bank)) ->
  keeps (handle_block now rctx slot bank) root L s (fun _ => handled root L s (EBlock slot bank)).
Proof.
  intros Hi Hp He Hlt Ht. unfold handle_block. apply keeps_bind. eapply keeps_mono; [by apply keeps_send_metrics|].
  intros [] ? ? s1 _ _ Hi1 (-> & -> & Hs1) _ _ _.
  assert (history s1 = history s) as Hh by (by destruct Hs1 as (? & ? & ? & ? & ? & ->)).
  assert (prompt L s1) as Hp1 by (by apply (prompt_senders L s)). clear Hs1.
  apply keeps_unwrap.
  { intros Htt. destruct (Ht Htt) as (_ & _ & [id Hid]). unfold get_block_parent_block. rewrite Hid. by eexists. }
  intros [[slot' bid] p] Hb. destruct (block_parent_seen _ _ _ _ He Hb) as [Hslot Hseen]. simpl in Hslot, Hseen |- *. subst slot'.
  apply keeps_bind. eapply keeps_mono.
  { apply keeps_record_block; try done. intros Htt. exact (HF Htt _ He). }
  intros [] ? L2 s2 _ HL2%prefix_sub Hi2 (-> & Hp2 & Hal) _ _ _.
  apply keeps_bind. eapply keeps_mono; [apply keeps_check_rootable; [done| |done]; intros Htt; apply (Ht Htt)|].
  intros [] root3 ? s3 _ _ Hi3 (Hmoved & -> & Hp3 & _) _ _ _. eapply keeps_mono.
  { apply keeps_missing_parent_ready; [done|done|exact (proj2 (HE _ He))|]. intros Htt. apply (Ht Htt). }
  intros [] ? L4 s4 _ HL4%prefix_sub Hi4 (-> & Hp4). split_and!; [apply Hp4..| |].
  - intros b p' Hb'. rewrite Hb in Hb'. injection Hb' as <- <-. rewrite <-Hh. intros Ha.
    apply (has_first_mono L2); [done|]. by apply Hal.
  - by apply (root_moved_final root L2 s2).
Qed.

Lemma keeps_handle_finalized now rctx slot bid fast root L s :
  inv root L s -> prompt L s -> EFinalized (slot, bid) fast ∈ E ->
  (total = true -> event_fits now rctx (EFinalized (slot, bid) fast)) ->
  keeps (handle_event now rctx (EFinalized (slot, bid) fast)) root L s (fun _ => handled root L s (EFinalized (slot, bid) fast)).
Proof.
  intros Hi Hp He Ht. unfold handle_event. apply keeps_modify.
  match goal with |- EventLogic.keeps _ _ _ _ _ _ _ ?st _ => set (s1 := st) end.
  assert (inv root L s1) as Hi1.
  { destruct Hi as [R Ho F Hnn Hr N P Pe Fin S Ba Ops Id Rd]. split; try done; simpl.
    - intros b [->%elem_of_singleton|?]%elem_of_union; eauto.
    - intros Htt. by destruct (Rd Htt). }
  assert (prompt L s1) as Hp1 by done.
  apply keeps_bind. eapply keeps_mono; [by apply keeps_request_repair|].
  intros [] ? ? s2 _ _ Hi2 (-> & -> & Hs2) _ _ _. apply (prompt_senders L s1 s2 Hs2) in Hp1 as Hp2.
  apply keeps_bind. eapply keeps_mono; [apply keeps_check_rootable; [done| |done]; intros Htt; apply (Ht Htt)|].
  intros [] root3 ? s3 _ _ Hi3 (Hmoved & -> & Hp3 & _) _ _ _. apply keeps_modify.
  match goal with |- EventLogic.keeps _ _ _ _ _ _ _ ?st _ => set (s4 := st) end.
  assert (inv root3 L s4 /\ prompt L s4) as [Hi4 Hp4].
  { subst s4. destruct (eh_standstill_slot s3); [case_bool_decide|]; try done. split; [|done].
    destruct Hi3 as [R Ho F Hnn Hr N P Pe Fin S Ba Ops Id Rd]. split; try done. intros Htt. by destruct (Rd Htt). }
  apply keeps_bind. eapply keeps_mono.
  { apply keeps_missing_parent_ready; [done|done|exact (HE _ He)|]. intros Htt. apply (Ht Htt). }
  intros [] ? L5 s5 _ HL5%prefix_sub Hi5 (-> & Hp5) _ _ _. eapply keeps_mono; [by apply keeps_send_metrics|].
  intros [] ? ? s6 _ _ Hi6 (-> & -> & Hs6). split_and!; [by apply (prompt_senders L5 s5)..|done|].
  by apply (root_moved_final root L s2).
Qed.

Lemma slot_in_skip_range root slot : 0 <= root -> root < slot -> is_u64 slot -> slot ∈ skip_range root slot.
Proof. intros H1 Hr Hu. rewrite elem_of_skip_range. pose proof (leader_window_bounds slot Hu). lia. Qed.

(** What the skip of a window leaves to the fallback votes. *)
Lemma keeps_skip_then slot root L s (k : M unit) Q :
  inv root L s -> prompt L s -> (total = true -> last_of_consecutive_leader_slots slot <= horizon) ->
  (exists e, e ∈ E /\ forall x, first_of_consecutive_leader_slots slot <= x <= last_of_consecutive_leader_slots slot ->
     skip_event e x) ->
  (forall L' s', inv root L' s' -> prompt L' s' -> L ⊆ L' ->
     (forall x, x ∈ skip_range root slot -> has_first L' x) -> keeps k root L' s' Q) ->
  keeps (try_skip_window slot;; k) root L s Q.
Proof.
  intros Hi Hp Hh (e & He & Hev) Hk. apply keeps_bind. eapply keeps_mono; [apply keeps_skip_window; eauto|].
  intros [] ? L' s' _ HL%prefix_sub Hi' (-> & Hf & Hn & Hfirst) _ _ _. apply Hk; try done. by apply (prompt_frame L L' s s').
Qed.

Lemma keeps_cast_fallback v root L s :
  inv root L s -> prompt L s -> root <= vote_slot v -> may_cast E L v -> (total = true -> vote_slot v <= horizon) ->
  (forall slot b, v <> Notarize slot b) ->
  keeps (cast_vote v false) root L s (fun _ root' L' s' => root' = root /\ prompt L' s' /\ v ∈ L' /\ L ⊆ L').
Proof.
  intros Hi Hp Hs Hm Hh Hv. eapply keeps_mono; [by apply keeps_cast|]. intros [] ? ? s' _ _ _ (-> & -> & Hf).
  split_and!; [done| |set_solver|set_solver]; apply (prompt_frame L _ s s'); try done; apply no_notarize_snoc; try done; apply no_notarize_refl.
Qed.

Lemma keeps_safe_to_notar now rctx slot b root L s :
  inv root L s -> prompt L s -> ESafeToNotar (slot, b) ∈ E -> root < slot ->
  (total = true -> event_fits now rctx (ESafeToNotar (slot, b))) ->
  keeps (handle_event now rctx (ESafeToNotar (slot, b))) root L s (fun _ => handled root L s (ESafeToNotar (slot, b))).
Proof.
  intros Hi Hp He Hlt Ht. pose proof (HE _ He) as Hu. simpl in Hu. pose proof (window_slot _ Hu) as Hw.
  apply keeps_skip_then; [done|done|intros Htt; exact (HF Htt _ He)|exists (ESafeToNotar (slot, b)); done|].
  clear Hp. intros L1 s1 Hi1 Hp HL Hfirst. pose proof (in_rel _ _ _ _ _ _ _ Hi1) as Hrel.
  pose proof (in_root _ _ _ _ _ _ _ Hi1) as [_ Hv].
  pose proof (Hfirst slot (slot_in_skip_range _ _ (in_nonneg _ _ _ _ _ _ _ Hi1) Hlt Hu)) as Hslot.
  eapply keeps_unwrap_some; [apply its_over_spec; lia|].
  eapply keeps_unwrap_some; [apply notar_fallback_spec; lia|].
  case_bool_decide as Ho; rewrite (hr_its_over _ _ Hrel) in Ho by lia; simpl.
  { apply keeps_ret; [done|]. split; [done|]. split; [|by left]. simpl. auto. }
  case_bool_decide as Hnf; rewrite (hr_notar_fallback _ _ Hrel) in Hnf by lia.
  { apply keeps_ret; [done|]. split; [done|]. split; [|by left]. simpl. auto. }
  eapply keeps_mono.
  { apply (keeps_cast_fallback (NotarizeFallback slot b)); simpl; try done; [lia|]. intros Htt. pose proof (HF Htt _ He). simpl in *. lia. }
  intros [] ? L2 s2 _ _ _ (-> & Hp2 & Hin & HL2). split; [done|]. split; [|by left]. simpl.
  split; [eauto using has_first_mono|by right].
Qed.

Lemma keeps_safe_to_skip now rctx slot root L s :
  inv root L s -> prompt L s -> ESafeToSkip slot ∈ E -> root < slot ->
  (total = true -> event_fits now rctx (ESafeToSkip slot)) ->
  keeps (handle_event now rctx (ESafeToSkip slot)) root L s (fun _ => handled root L s (ESafeToSkip slot)).
Proof.
  intros Hi Hp He Hlt Ht. pose proof (HE _ He) as Hu. simpl in Hu. pose proof (window_slot _ Hu) as Hw.
  apply keeps_skip_then; [done|done|intros Htt; exact (HF Htt _ He)|exists (ESafeToSkip slot); done|].
  clear Hp. intros L1 s1 Hi1 Hp HL Hfirst. pose proof (in_rel _ _ _ _ _ _ _ Hi1) as Hrel.
  pose proof (in_root _ _ _ _ _ _ _ Hi1) as [_ Hv].
  pose proof (Hfirst slot (slot_in_skip_range _ _ (in_nonneg _ _ _ _ _ _ _ Hi1) Hlt Hu)) as Hslot.
  eapply keeps_unwrap_some; [apply its_over_spec; lia|].
  eapply keeps_unwrap_some; [apply skip_fallback_spec; lia|].
  case_bool_decide as Ho; rewrite (hr_its_over _ _ Hrel) in Ho by lia; simpl.
  { apply keeps_ret; [done|]. split; [done|]. split; [|by left]. simpl. auto. }
  case_bool_decide as Hsf; rewrite (hr_skip_fallback _ _ Hrel) in Hsf by lia.
  { apply keeps_ret; [done|]. split; [done|]. split; [|by left]. simpl. auto. }
  eapply keeps_mono.
  { apply (keeps_cast_fallback (SkipFallback slot)); simpl; try done; [lia|]. intros Htt. pose proof (HF Htt _ He). simpl in *. lia. }
  intros [] ? L2 s2 _ _ _ (-> & Hp2 & Hin & HL2). split; [done|]. split; [|by left]. simpl.
  split; [eauto using has_first_mono|by right].
Qed.

(** The end of a timeout: the window is skipped unless [slot] was voted on. *)
Lemma keeps_timeout_skip slot root L s (e : VotorEvent) (guard : bool) :
  inv root L s -> prompt L s -> (total = true -> last_of_consecutive_leader_slots slot <= horizon) -> e ∈ E ->
  (forall x, first_of_consecutive_leader_slots slot <= x <= last_of_consecutive_leader_slots slot -> skip_event e x) ->
  keeps (if guard then mret tt else try_skip_window slot) root L s (fun _ root' L' s' =>
    root' = root /\ prompt L' s' /\ (guard = true \/ forall x, x ∈ skip_range root slot -> has_first L' x)).
Proof.
  intros Hi Hp Hh He Hev. destruct guard; [apply keeps_ret; [done|]; split_and!; try apply Hp; auto|].
  eapply keeps_mono; [apply keeps_skip_window; eauto|]. intros [] ? L' s' _ _ _ (-> & Hf & Hn & Hfirst).
  split_and!; try done; [by apply (prompt_frame L L' s s')..|by right].
Qed.

Lemma keeps_timeouts now rctx e slot root L s :
  e = ETimeout slot \/ e = ETimeoutCrashedLeader slot ->
  inv root L s -> prompt L s -> e ∈ E -> root < slot -> (total = true -> event_fits now rctx e) ->
  keeps (handle_event now rctx e) root L s (fun _ => handled root L s e).
Proof.
  intros Hcase Hi Hp He Hlt Ht. pose proof (in_root _ _ _ _ _ _ _ Hi) as [_ Hv]. destruct Hcase as [-> | ->]; simpl.
  - apply keeps_bind.
    apply (keeps_mono _ _ _ _ _ _ _ _ (fun _ root' L' s' => root' = root /\ L' = L /\ only_senders s s')).
    { case_bool_decide; [by apply keeps_send_metrics|]. apply keeps_ret; [done|]. split_and!; try done.
      exists (eh_leader_window_sender s), (eh_highest_parent_ready s), (eh_repair_sender s), (eh_metrics_sender s), (eh_bls_sender s).
      by destruct s. }
    intros [] ? ? s1 _ _ Hi1 (-> & -> & Hs1) _ _ _. pose proof (prompt_senders L s s1 Hs1 Hp) as Hp1.
    assert (history s1 = history s) as Hh by (by destruct Hs1 as (? & ? & ? & ? & ? & ->)).
    eapply keeps_unwrap_some; [apply voted_spec; rewrite Hh; lia|]. eapply keeps_mono.
    { apply (keeps_timeout_skip slot _ _ _ (ETimeout slot)); try done. intros Htt. exact (HF Htt _ He). }
    intros [] ? L' s' _ _ _ (-> & Hp' & Hg). split; [done|]. split; [|by left]. simpl. destruct Hg as [Hg|]; [left|by right].
    apply bool_decide_eq_true in Hg. rewrite Hh in Hg. by apply (hr_voted _ _ (in_rel _ _ _ _ _ _ _ Hi)); [lia|].
  - eapply keeps_unwrap_some; [apply voted_spec; lia|]. apply keeps_gets. eapply keeps_mono.
    { apply (keeps_timeout_skip slot _ _ _ (ETimeoutCrashedLeader slot)); try done. intros Htt. exact (HF Htt _ He). }
    intros [] ? L' s' _ _ _ (-> & Hp' & Hg). split; [done|]. split; [|by left]. simpl. destruct Hg as [Hg|]; [|by right; right].
    apply orb_true_iff in Hg as [Hg|Hg]; apply bool_decide_eq_true in Hg; [left|by right; left].
    by apply (hr_voted _ _ (in_rel _ _ _ _ _ _ _ Hi)); [lia|].
Qed.

Lemma keeps_block_notarized now rctx slot b root L s :
  inv root L s -> prompt L s -> EBlockNotarized (slot, b) ∈ E -> root < slot ->
  (total = true -> event_fits now rctx (EBlockNotarized (slot, b))) ->
  keeps (handle_event now rctx (EBlockNotarized (slot, b))) root L s (fun _ => handled root L s (EBlockNotarized (slot, b))).
Proof.
  intros Hi Hp He Hlt Ht. pose proof (in_root _ _ _ _ _ _ _ Hi) as [_ Hv]. simpl. apply keeps_modify.
  assert (add_block_notarized (history s) (slot, b) =
    with_blocks (history s) ({[(slot, b)]} ∪ vh_notarized_blocks (history s)) (vh_parent_ready_slots (history s))) as Ha.
  { unfold add_block_notarized. simpl. by rewrite bool_decide_false by lia. }
  match goal with |- context [set_vctx s ?c] => set (s1 := set_vctx s c) end.
  assert (inv root L s1) as Hi1.
  { apply inv_history; [done|apply add_block_notarized_ok, Hi|rewrite Ha; done..| |].
    - rewrite Ha. simpl. intros x [->%elem_of_singleton|?]%elem_of_union; [done|by apply (in_notarized _ _ _ _ _ _ _ Hi)].
    - rewrite Ha. intros slot' p'. apply (in_parents _ _ _ _ _ _ _ Hi). }
  assert (history s1 = add_block_notarized (history s) (slot, b)) as Hh1 by done. rewrite Ha in Hh1.
  apply keeps_bind. eapply keeps_mono.
  { apply keeps_try_final; try done; [lia|intros Htt; exact (HF Htt _ He)|]. intros x y. rewrite Hh1. simpl.
    intros [?%elem_of_singleton|Hin]%elem_of_union Hne ?; [congruence|]. by apply (proj1 Hp x y). }
  intros r ? L2 s2 _ _ Hi2 (-> & HL2 & (Hf2p & Hf2n & Hf2r) & Hp2 & Hdone) _ _ _.
  assert (no_notarize L L2) as Hnn by (destruct HL2 as [-> | ->]; [apply no_notarize_refl|by apply no_notarize_snoc; [apply no_notarize_refl|]]).
  eapply keeps_mono; [by apply keeps_request_repair|]. intros [] ? ? s3 _ _ _ (-> & -> & Hs3).
  assert (prompt L2 s2) as Hpr.
  { split; [done|]. intros b' p' Hb'. apply (settled_votes (X := X) L L2 (history s)); [|apply Hnn| |intros _ HN; left; by apply Hnn].
    - apply Hp. unfold pending_block in *. by rewrite Hf2p in Hb'.
    - by rewrite Hf2r, Hh1. }
  split; [by apply (prompt_senders L2 s2)|]. split; [|by left]. simpl. intros HN.
  apply Hdone; [rewrite Hh1; simpl; set_solver|done].
Qed.

Lemma keeps_produce_window now rctx info root L s :
  inv root L s -> prompt L s ->
  keeps (handle_event now rctx (EProduceWindow info)) root L s (fun _ => handled root L s (EProduceWindow info)).
Proof.
  intros Hi Hp. unfold EventLogic.keeps. simpl. unfold send.
  destruct (connected (eh_leader_window_sender s)) eqn:Hc; simpl.
  - exists root, L. do 2 (split; [done|]). split; [|split; [done|split; [done|by left]]].
    by apply inv_senders.
  - destruct total eqn:Ht; [|done]. pose proof (rd_leader _ _ (in_ready _ _ _ _ _ _ _ Hi eq_refl)). congruence.
Qed.

Lemma keeps_standstill now rctx slot root L s :
  inv root L s -> prompt L s -> root <= slot ->
  keeps (handle_event now rctx (EStandstill slot)) root L s (fun _ => handled root L s (EStandstill slot)).
Proof.
  intros Hi Hp Hs. simpl. apply keeps_modify.
  match goal with |- EventLogic.keeps _ _ _ _ _ _ _ ?st _ => set (s1 := st) end.
  assert (inv root L s1 /\ prompt L s1) as [Hi1 Hp1].
  { subst s1. destruct (eh_standstill_slot s); [done|]. split; [|done].
    destruct Hi as [R Ho F Hnn Hr N P Pe Fin S Ba Ops Id Rd]. split; try done. intros Htt. by destruct (Rd Htt). }
  eapply keeps_mono; [by apply keeps_refresh_votes|]. intros [] ? ? s2 _ _ _ (-> & -> & Hf).
  split; [|split; [done|by left]]. apply (prompt_frame L L s1); [done|apply no_notarize_refl|done].
Qed.

Lemma keeps_handle_event now rctx e root L s :
  inv root L s -> prompt L s -> e ∈ E -> should_ignore e root = false ->
  (total = true -> event_fits now rctx e) ->
  keeps (handle_event now rctx e) root L s (fun _ => handled root L s e).
Proof.
  intros Hi Hp He Hig Ht.
  destruct e as [slot bank|[slot b]|[slot b]|slot|slot p|slot|slot|[slot b]|slot|info|[slot b] fast|slot|]; simpl in Hig; to_prop.
  - apply keeps_handle_block; try done; lia.
  - apply keeps_block_notarized; try done; lia.
  - eapply keeps_mono; [by apply keeps_request_repair|]. intros [] ? ? s' _ _ _ (-> & -> & Hs').
    split; [by apply (prompt_senders L s)|split; [done|by left]].
  - apply keeps_modify_last; [|split; [done|split; [done|by left]]].
    destruct Hi as [R Ho F Hnn Hr N P Pe Fin S Ba Ops Id Rd]. split; try done. intros Htt. by destruct (Rd Htt).
  - simpl. apply keeps_bind. eapply keeps_mono; [by apply keeps_send_metrics|]. intros [] ? ? s1 _ _ Hi1 (-> & -> & Hs1) _ _ _.
    eapply keeps_mono.
    { apply keeps_parent_ready; try done; [by apply (prompt_senders L s)|]. intros Htt. split; [exact (HE _ He)|apply (Ht Htt)]. }
    intros [] ? L2 s2 _ _ _ (-> & Hp2). split; [done|split; [done|by left]].
  - apply (keeps_timeouts now rctx (ETimeoutCrashedLeader slot) slot); try done; [by right|lia].
  - apply (keeps_timeouts now rctx (ETimeout slot) slot); try done; [by left|lia].
  - apply keeps_safe_to_notar; try done; lia.
  - apply keeps_safe_to_skip; try done; lia.
  - by apply keeps_produce_window.
  - by apply keeps_handle_finalized.
  - apply keeps_standstill; try done; lia.
  - apply (keeps_step _ _ _ _ _ _ _ _ _ s (Ok tt)); [|done|intros _ _; split; [done|split; [done|by left]]].
    simpl. unfold handle_set_identity.
    destruct (in_identity _ _ _ _ _ _ _ Hi) as [-> ->]. by rewrite bool_decide_false by tauto.
Qed.

(** ** The step of the loop *)

Lemma keeps_send_votes root L s (e : VotorEvent) root0 L0 s0 :
  inv root L s -> handled root0 L0 s0 e root L s ->
  keeps send_votes root L s (fun _ => handled root0 L0 s0 e).
Proof.
  intros Hi Hh. unfold send_votes. apply keeps_gets. eapply keeps_mono.
  { apply (keeps_for_each _ _ _ _ _ (fun rest root' L' s' => handled root0 L0 s0 e root' L' s' /\ eh_votes s' = rest));
      [|done|done].
    clear Hi Hh. intros op rest root' L' s' Hi [Hh Hrest]. unfold send.
    destruct (connected (eh_bls_sender s')) eqn:Hc; [|eapply keeps_step; [rewrite Hc; done|done|by intros ? [=]]].
    eapply keeps_step; [rewrite Hc; done| |]; [|intros _ _; split; [apply Hh|]; simpl; by rewrite Hrest].
    destruct Hi as [R Ho F Hnn Hr N P Pe Fin S Ba Ops Id Rd]. split; try done; simpl; rewrite ?Hrest in *; simpl in *.
    - intros v Hv. apply S. unfold votes_out, bls_votes in *. simpl in *. rewrite Hrest. rewrite omap_app in Hv.
      cbn [omap list_omap] in *. destruct op as [[m|] ? ?|]; rewrite !elem_of_app in *; set_solver.
    - destruct Ba as (? & ? & ? & ?). split_and!; try done. by apply prefix_app_r.
    - by rewrite <-(assoc_L (++)).
    - intros Ht. by destruct (Rd Ht). }
  intros [] root' L' s' _ _ _ [Hh' _]. done.
Qed.

Lemma keeps_event_step now rctx e root L s :
  inv root L s -> prompt L s -> e ∈ E -> (total = true -> event_fits now rctx e) ->
  keeps (event_step now rctx e) root L s (fun _ root' L' s' =>
    prompt L' s' /\ root_final root root' L' /\ (should_ignore e root = false -> responds root L s e L')).
Proof.
  intros Hi Hp He Ht. unfold event_step. destruct (root_bank_ok _ _ _ _ _ _ _ Hi) as (bank & Hrb & _ & Hslot).
  eapply keeps_unwrap_some; [by rewrite Hrb; simpl; rewrite Hslot|].
  destruct (should_ignore e root) eqn:Hig; [apply keeps_ret; [done|]; split; [done|split; [by left|done]]|].
  apply keeps_modify. assert (inv root L (set_votes s [])) as Hi1.
  { destruct Hi as [R Ho F Hnn Hr N P Pe Fin S Ba Ops Id Rd]. split; try done; simpl; [|rewrite app_nil_r; by eapply op_chain_prefix|intros Htt; by destruct (Rd Htt)].
    intros v Hv. apply S. unfold votes_out in *. simpl in Hv. rewrite !elem_of_app in *. tauto. }
  apply keeps_bind. eapply keeps_mono; [by apply keeps_handle_event|]. intros [] root2 L2 s2 _ _ Hi2 Hh2 _ _ _.
  eapply keeps_mono; [by apply (keeps_send_votes _ _ _ e root L (set_votes s []))|].
  intros [] root3 L3 s3 _ _ _ (? & ? & ?). split; [done|]. by split.
Qed.
End steps.
