(* ===== verification/Node.v ===== *)
(** * The voting node

    The event handler with the voting service ([votor/src/voting_service.rs]), which
    stores the vote history before it broadcasts a vote, and with the vote history
    file on disk.  The node may crash at any point, also while the file is written,
    and start again from what is on disk ([core/src/validator.rs]). *)

From S2P Require Import Prelude.
From S2P Require Import Messages.
From S2P Require Import EpochStakes.
From S2P Require Import CertBuilder.
From S2P Require Import Finalization.
From S2P Require Import Migration.
From S2P Require Import BankForks.
From S2P Require Import VoteHistory.
From S2P Require Import VoteStorage.
From S2P Require Import Voting.
From S2P Require Import Timers.
From S2P Require Import EventHandler.
From S2P Require Import EventLogic.
From S2P Require Import EventVotes.
From S2P Require Import EventRoot.
From S2P Require Import EventSteps.

(** ** The voting service *)

Section service.
Context `{StorageOps}.

(** The sockets are those of the staked validators of the slot and the additional
    listeners; [serialize] is [wincode::serialize]. *)
Definition broadcast_consensus_message (serialize : ConsensusMessage -> option (list Z)) (sockets : Slot -> list Z)
    (slot : Slot) (message : ConsensusMessage) : list (Z * ConsensusMessage) :=
  match serialize message with
  | None => []
  | Some buf => (fun socket => (socket, message)) <$> sockets slot
  end.

(** A store that fails ends the process: by [storage_store_io_spec] this is a
    [node_crash]. *)
Definition handle_bls_op serialize sockets (fs : files) (bls_op : BLSOp) : files * list (Z * ConsensusMessage) :=
  match bls_op with
  | PushVote message slot saved_vote_history =>
    let fs := storage_store fs saved_vote_history in
    (fs, broadcast_consensus_message serialize sockets slot message)
  | PushCertificate certificate =>
    let vote_slot := cert_slot (cert_type certificate) in
    (fs, broadcast_consensus_message serialize sockets vote_slot (MCertificate certificate))
  end.

(** The history at startup: any error gives a new one. *)
Definition startup_history (io : LoadIo) (fs : files) (id : Pubkey) : option VoteHistory :=
  r ← vh_restore io fs id;
  Some (match r with Ok h => h | Err _ => vote_history_new id 0 end).
End service.

(** ** Runs of a node *)

Section node.
Context `{VotingOps, StorageOps, !StorageLaws}.
Context (serialize : ConsensusMessage -> option (list Z)) (sockets : Slot -> list Z) (id : Pubkey).
Implicit Types (L : list Vote) (s : Handler) (E : list VotorEvent).

(** The handler as the node starts it, with the vote history file [fs], which the
    operating system lets it read. *)
Record started (fs : files) s : Prop := {
  st_files : eh_files s = fs;
  st_history : startup_history io_fine fs id = Some (history s);
  st_identity : kp_pubkey (eh_keypair s) = id /\ eh_my_pubkey s = id;
  st_blocks : eh_pending_blocks s = ∅ /\ eh_finalized_blocks s = ∅;
  st_channels : sent (vc_own_vote_sender (eh_vctx s)) = [] /\ sent (eh_bls_sender s) = [] /\ eh_votes s = [];
  st_forks : forks_ok (eh_forks s);
  st_root : 0 <= bf_root (eh_forks s) /\ vh_root (history s) <= bf_root (eh_forks s);
}.

(** [nd_alive]: the event handler is running; [nd_served]: the operations the voting
    service took from its channel; [nd_network]: what this node broadcast, before
    and after crashes. *)
Record Node := mkNode {
  nd_handler : Handler;
  nd_alive : bool;
  nd_served : nat;
  nd_network : list (Z * ConsensusMessage);
}.
Definition with_files s fs : Handler :=
  mkHandler (eh_my_pubkey s) (eh_pending_blocks s) (eh_finalized_blocks s) (eh_received_shred s)
    (eh_standstill_slot s) (eh_vctx s) (eh_forks s) (eh_keypair s) fs (eh_leader_window_sender s)
    (eh_highest_parent_ready s) (eh_repair_sender s) (eh_metrics_sender s) (eh_bls_sender s) (eh_timers s)
    (eh_root_log s) (eh_votes s).

(** Other threads change the banks, but not the root, and the timers. *)
Inductive env_step : Handler -> Handler -> Prop :=
  | env_banks f s : forks_ok f -> bf_root f = bf_root (eh_forks s) -> env_step s (set_forks s f (eh_root_log s))
  | env_timers t s : env_step s (set_timers s t).

(** What is on disk after a crash of the process: the file as it was, or with the
    store of the next operation interrupted. *)
Inductive disk_after (n : Node) : files -> Prop :=
  | disk_same : disk_after n (eh_files (nd_handler n))
  | disk_storing m slot saved fs :
    sent (eh_bls_sender (nd_handler n)) !! nd_served n = Some (PushVote m slot saved) ->
    crashed (eh_files (nd_handler n)) saved fs -> disk_after n fs.

Inductive node_run : list VotorEvent -> Node -> Prop :=
  | node_start fs s :
    (forall h, storage_load io_fine fs id <> Some (Ok h)) -> started fs s -> node_run [] (mkNode s true 0 [])
  | node_event now rctx e s' r E n :
    node_run E n -> nd_alive n = true -> event_ok e ->
    event_step now rctx e (nd_handler n) = Some (s', r) ->
    node_run (E ++ [e]) (mkNode s' (match r with Ok _ => true | Err _ => false end) (nd_served n) (nd_network n))
  | node_panic now rctx e E n :
    node_run E n -> nd_alive n = true -> event_step now rctx e (nd_handler n) = None ->
    node_run E (mkNode (nd_handler n) false (nd_served n) (nd_network n))
  | node_env s' E n :
    node_run E n -> env_step (nd_handler n) s' -> node_run E (mkNode s' (nd_alive n) (nd_served n) (nd_network n))
  | node_serve op fs messages E n :
    node_run E n -> sent (eh_bls_sender (nd_handler n)) !! nd_served n = Some op ->
    handle_bls_op serialize sockets (eh_files (nd_handler n)) op = (fs, messages) ->
    node_run E (mkNode (with_files (nd_handler n) fs) (nd_alive n) (S (nd_served n)) (nd_network n ++ messages))
  | node_crash fs s E n :
    node_run E n -> disk_after n fs -> started fs s -> node_run E (mkNode s true 0 (nd_network n)).

(** ** The invariant of a node *)

Definition network_votes (n : Node) : list Vote := message_votes (nd_network n).*2.

(** The history on disk is that of an honest node and knows the votes broadcast. *)
Definition disk_ok E (fs : files) (N : list Vote) : Prop :=
  (exists h Lo, storage_load io_fine fs id = Some (Ok h) /\ snapshot E id h Lo /\ N ⊆ Lo) \/
  (N = [] /\ forall h, storage_load io_fine fs id <> Some (Ok h)).

Record node_inv E (n : Node) : Prop := {
  ni_handler : exists o (X : Block -> Prop) root L, handler_inv false 0 E o root L (nd_handler n) /\
    (nd_alive n = true -> prompt (X := X) L (nd_handler n)) /\
    forall v, v ∈ network_votes n -> v ∈ og_votes o \/ v ∈ bls_votes (take (nd_served n) (sent (eh_bls_sender (nd_handler n))));
  ni_events : forall e, e ∈ E -> event_ok e;
  ni_identity : kp_pubkey (eh_keypair (nd_handler n)) = id;
  ni_disk : disk_ok E (eh_files (nd_handler n)) (network_votes n);
}.

Lemma inv_mono total horizon E E' o root L s :
  E ⊆ E' -> handler_inv total horizon E o root L s -> handler_inv total horizon E' o root L s.
Proof.
  intros HE [R Ho F Hnn Hr N P Pe Fin S Ba Ops Id Rd]. split; try done.
  - by eapply honest_mono.
  - auto.
  - auto.
  - intros slot bs b p Hbs Hb. destruct (Pe slot bs b p Hbs Hb) as (? & ? & ? & ?). eauto 10 using block_seen_mono.
  - intros b (fast & ?)%Fin. eauto.
  - intros i op Hi. eapply op_saved_mono; [done|by apply Ops].
Qed.
Lemma disk_mono E E' fs N : E ⊆ E' -> disk_ok E fs N -> disk_ok E' fs N.
Proof. intros HE [(h & Lo & ? & ? & ?)|?]; [left|by right]. eauto 10 using snapshot_mono. Qed.

Lemma inv_rebase total horizon E o root L s :
  handler_inv total horizon E o root L s ->
  handler_inv total horizon E (mkOrigin (og_votes o) (eh_files s) (eh_keypair s) (sent (eh_bls_sender s))) root L s.
Proof. intros [R Ho F Hnn Hr N P Pe Fin S (Ba & _) Ops Id Rd]. split; try done. Qed.

(** A handler started from a history on disk, or with none. *)
Lemma started_inv E fs s N :
  started fs s -> disk_ok E fs N ->
  exists o (X : Block -> Prop) L, handler_inv false 0 E o (bf_root (eh_forks s)) L s /\ prompt (X := X) L s /\ N ⊆ og_votes o.
Proof.
  intros [Hfs Hh [Hid Hmy] [Hpe Hfin] (Hown & Hbls & Hv) Hf [Hnn Hroot]] Hdisk.
  assert (exists Lo, snapshot E id (history s) Lo /\ N ⊆ Lo) as (Lo & (Hrel & Hhon & Hk & Hnot & Hpar) & HN).
  { unfold startup_history, vh_restore in Hh. destruct Hdisk as [(h & Lo & Hl & Hsn & HN)|[-> Hne]].
    - rewrite Hl in Hh. simpl in Hh. injection Hh as <-. eauto.
    - exists []. split; [|done]. destruct (storage_load io_fine fs id) as [[h|e]|]; [by destruct (Hne h)| |done].
      simpl in Hh. injection Hh as <-. split_and!; [apply history_rel_new|apply honest_nil|done|set_solver|done]. }
  exists (mkOrigin Lo fs (eh_keypair s) []), (fun b => b ∈ vh_notarized_blocks (history s)), Lo. split; [|split; [|done]].
  - split; try done.
    + intros slot bs b p. by rewrite Hpe, lookup_empty.
    + rewrite Hfin. set_solver.
    + unfold votes_out. rewrite Hown, Hbls, Hv. simpl. set_solver.
    + unfold from_origin. simpl. split_and!; try done. apply prefix_nil.
    + rewrite Hbls, Hv. simpl. by intros i op Hi.
    + by rewrite Hid.
  - split.
    + intros slot b Hb _ HX. by destruct (HX Hb).
    + intros b p (slot & bs & Hbs & _). by rewrite Hpe, lookup_empty in Hbs.
Qed.

Lemma inv_files total horizon E o root L s fs :
  handler_inv total horizon E o root L s ->
  handler_inv total horizon E (mkOrigin (og_votes o) fs (eh_keypair s) (sent (eh_bls_sender s))) root L (with_files s fs).
Proof.
  intros [R Ho F Hnn Hr N P Pe Fin S (Ba & _) Ops Id Rd]. split; try done. intros Ht. by destruct (Rd Ht).
Qed.

Lemma inv_env E o root L s s' :
  env_step s s' -> handler_inv false 0 E o root L s -> handler_inv false 0 E o root L s'.
Proof.
  intros [f s0 Hf Hroot|t s0] [R Ho F Hnn Hr N P Pe Fin S Ba Ops Id Rd]; split; try done.
  simpl. by rewrite Hroot.
Qed.

(** The next operation of the service, and the history it saves. *)
Lemma next_op E n o root L op :
  handler_inv false 0 E o root L (nd_handler n) -> kp_pubkey (eh_keypair (nd_handler n)) = id ->
  sent (eh_bls_sender (nd_handler n)) !! nd_served n = Some op ->
  exists m slot saved h Lo kp, op = PushVote (MVote m) slot saved /\ saved_new h kp = Ok saved /\ kp_pubkey kp = id /\
    snapshot E id h Lo /\ og_votes o ⊆ Lo /\ vm_vote m ∈ Lo /\
    forall v, v ∈ bls_votes (take (nd_served n) (sent (eh_bls_sender (nd_handler n)))) -> v ∈ Lo.
Proof.
  intros Hi Hid Hop. pose proof (in_ops _ _ _ _ _ _ _ Hi) as Hc. apply op_chain_prefix in Hc.
  specialize (Hc _ _ Hop). rewrite Hid in Hc. destruct op as [[m|] slot saved|]; try done.
  destruct Hc as (h & Lo & kp & Hsv & Hsn & Hb & Hin). rewrite (take_S_r _ _ _ Hop), bls_votes_snoc in Hin.
  exists m, slot, saved, h, Lo, kp. pose proof (saved_new_Ok _ _ _ Hsv) as (Hk & _).
  split_and!; try done; [|apply Hin; set_solver|intros v Hv; apply Hin; set_solver].
  destruct Hsn as (_ & _ & Hk' & _). congruence.
Qed.

Lemma bls_votes_take k l l' v : l `prefix_of` l' -> v ∈ bls_votes (take k l) -> v ∈ bls_votes (take k l').
Proof.
  intros [x ->]. rewrite take_app. unfold bls_votes. rewrite omap_app, elem_of_app. by left.
Qed.

(** One event, from the invariant on. *)
Lemma event_step_keeps total horizon E (X : Block -> Prop) now rctx e root L s o :
  (forall e', e' ∈ E -> event_ok e') -> (total = true -> forall e', e' ∈ E ++ [e] -> slot_fits horizon e') ->
  handler_inv total horizon E o root L s -> prompt (X := X) L s -> event_ok e ->
  (total = true -> event_fits now rctx e) ->
  keeps total horizon (E ++ [e]) (mkOrigin (og_votes o) (eh_files s) (eh_keypair s) (sent (eh_bls_sender s)))
    (event_step now rctx e) root L s (fun _ root' L' s' => prompt (X := X) L' s' /\ root_final (E ++ [e]) root root' L' /\
      (should_ignore e root = false -> responds root L s e L')).
Proof.
  intros HE HF Hi Hp He Ht. apply keeps_event_step; try done.
  - intros e' [?| ->%list_elem_of_singleton]%elem_of_app; auto.
  - eapply inv_rebase, inv_mono; [|done]. intros x Hx. apply elem_of_app. by left.
  - apply elem_of_app. right. by apply list_elem_of_singleton.
Qed.
Lemma event_step_inv now rctx e s' r E (X : Block -> Prop) root L s o :
  (forall e', e' ∈ E -> event_ok e') -> handler_inv false 0 E o root L s -> prompt (X := X) L s -> event_ok e ->
  event_step now rctx e s = Some (s', r) ->
  exists root' L', L `prefix_of` L' /\
    handler_inv false 0 (E ++ [e]) (mkOrigin (og_votes o) (eh_files s) (eh_keypair s) (sent (eh_bls_sender s))) root' L' s' /\
    match r with
    | Ok _ => prompt (X := X) L' s' /\ root_final (E ++ [e]) root root' L' /\
        (should_ignore e root = false -> responds root L s e L')
    | Err _ => True
    end.
Proof.
  intros HE Hi Hp He Hstep. pose proof (event_step_keeps false 0 E X now rctx e root L s o HE ltac:(done) Hi Hp He ltac:(done)) as Hk.
  unfold keeps in Hk. rewrite Hstep in Hk. destruct Hk as (root' & L' & _ & ? & ? & ?). by exists root', L'.
Qed.

Lemma node_event_inv now rctx e s' r E n :
  node_inv E n -> nd_alive n = true -> event_ok e -> event_step now rctx e (nd_handler n) = Some (s', r) ->
  node_inv (E ++ [e]) (mkNode s' (match r with Ok _ => true | Err _ => false end) (nd_served n) (nd_network n)).
Proof.
  intros [(o & X & root & L & Hi & Hp & Hn) HE Hid Hd] Ha He Hstep.
  assert (E ⊆ E ++ [e]) as Hsub by (intros x Hx; apply elem_of_app; by left).
  assert (forall e', e' ∈ E ++ [e] -> event_ok e') as HE'
    by (intros e' [?| ->%list_elem_of_singleton]%elem_of_app; auto).
  destruct (event_step_inv _ _ _ _ _ _ _ _ _ _ _ HE Hi (Hp Ha) He Hstep) as (root' & L' & _ & Hi' & Hr).
  pose proof (in_base _ _ _ _ _ _ _ Hi') as (_ & Hf & Hk & Hs). simpl in Hf, Hk, Hs.
  split; [|done|by simpl; rewrite Hk|simpl; rewrite Hf; by eapply disk_mono].
  eexists _, X, root', L'. split; [exact Hi'|]. split; [destruct r; [by intros _; apply Hr|done]|].
  simpl. intros v Hv. destruct (Hn v Hv) as [?|?]; [by left|right; by eapply bls_votes_take].
Qed.

Lemma node_serve_inv op fs messages E n :
  node_inv E n -> sent (eh_bls_sender (nd_handler n)) !! nd_served n = Some op ->
  handle_bls_op serialize sockets (eh_files (nd_handler n)) op = (fs, messages) ->
  node_inv E (mkNode (with_files (nd_handler n) fs) (nd_alive n) (S (nd_served n)) (nd_network n ++ messages)).
Proof.
  intros [(o & X & root & L & Hi & Hp & Hn) HE Hid Hd] Hop Hb.
  destruct (next_op _ _ _ _ _ _ Hi Hid Hop) as (m & slot & saved & h & Lo & kp & -> & Hsv & Hkp & Hsn & Hbase & Hm & Hin).
  simpl in Hb. injection Hb as <- <-. set (msgs := broadcast_consensus_message _ _ _ _).
  assert (forall v, v ∈ message_votes (nd_network n ++ msgs).*2 -> v ∈ network_votes n \/ v = vm_vote m) as Hnew.
  { intros v. unfold network_votes, message_votes. rewrite fmap_app, omap_app, elem_of_app. intros [?|Hv]; [by left|right].
    apply list_elem_of_omap in Hv as (x & Hx & Hv). subst msgs. unfold broadcast_consensus_message in Hx.
    destruct (serialize (MVote m)); [|by apply elem_of_nil in Hx].
    apply list_elem_of_fmap in Hx as (y & -> & (z & -> & _)%list_elem_of_fmap). simpl in Hv. congruence. }
  split; [|done|done|]; simpl.
  - eexists _, X, root, L. split; [by apply inv_files|]. split; [done|]. intros v [Hv| ->]%Hnew.
    + simpl. destruct (Hn v Hv) as [?|Hv']; [by left|right]. rewrite (take_S_r _ _ _ Hop), bls_votes_snoc. set_solver.
    + right. rewrite (take_S_r _ _ _ Hop), bls_votes_snoc. set_solver.
  - left. exists h, Lo. split; [rewrite <-Hkp; by apply store_load|]. split; [done|].
    intros v [Hv| ->]%Hnew; [|done]. destruct (Hn v Hv) as [?|?]; auto.
Qed.

Lemma disk_after_ok E n fs : node_inv E n -> disk_after n fs -> disk_ok E fs (network_votes n).
Proof.
  intros [(o & X & root & L & Hi & Hp & Hn) HE Hid Hd] [|m slot saved fs' Hop Hc]; [done|].
  destruct (next_op _ _ _ _ _ _ Hi Hid Hop) as (m' & ? & ? & h & Lo & kp & [= -> -> ->] & Hsv & Hkp & Hsn & Hbase & _ & Hin).
  destruct (crash_load _ _ _ _ _ Hsv Hc) as [Hl|Hl]; rewrite Hkp in Hl; [unfold disk_ok; by rewrite Hl|].
  left. exists h, Lo. split_and!; try done. intros v Hv. destruct (Hn v Hv) as [?|?]; auto.
Qed.

Lemma node_run_inv E n : node_run E n -> node_inv E n.
Proof.
  induction 1 as [fs s Hne Hst|now rctx e s' r E n _ IH Ha He Hstep|now rctx e E n _ IH Ha _|s' E n _ IH Henv
    |op fs ms E n _ IH Hop Hb|fs s E n _ IH Hdisk Hst].
  - assert (disk_ok [] fs []) as Hd by (by right). destruct (started_inv _ _ _ _ Hst Hd) as (o & X & L & Hi & Hp & _).
    split; [|set_solver|apply Hst|by simpl; rewrite (st_files _ _ Hst)]. exists o, X, (bf_root (eh_forks s)), L. split; [done|]. split; [done|].
    by intros v ?%elem_of_nil.
  - by eapply node_event_inv.
  - destruct IH as [(o & X & root & L & Hi & Hp & Hn) HE Hid Hd]. split; try done. exists o, X, root, L. done.
  - destruct IH as [(o & X & root & L & Hi & Hp & Hn) HE Hid Hd]. pose proof (inv_env _ _ _ _ _ _ Henv Hi) as Hi'.
    destruct Henv; (split; try done; exists o, X, root, L; done).
  - by eapply node_serve_inv.
  - pose proof (disk_after_ok _ _ _ IH Hdisk) as Hd. destruct (started_inv _ _ _ _ Hst Hd) as (o & X & L & Hi & Hp & HN).
    split; [|apply IH|apply Hst|by simpl; rewrite (st_files _ _ Hst)]. exists o, X, (bf_root (eh_forks s)), L. split; [done|]. split; [done|].
    intros v Hv. left. by apply HN.
Qed.

(** The votes it broadcast, and those on their way to the voting service and to its
    own pool, are those of one honest voter. *)
Lemma node_votes_honest E n :
  node_run E n -> exists L, honest E L /\ forall v, v ∈ network_votes n \/ v ∈ votes_out (nd_handler n) -> v ∈ L.
Proof.
  intros Hrun. destruct (node_run_inv _ _ Hrun) as [(o & X & root & L & Hi & _ & Hn) _ _ _].
  exists L. split; [apply Hi|]. intros v [Hv|Hv]; [|by apply (in_sent _ _ _ _ _ _ _ Hi)].
  destruct (Hn v Hv) as [Hv'|Hv']; [by apply (proj1 (in_base _ _ _ _ _ _ _ Hi))|]. apply (in_sent _ _ _ _ _ _ _ Hi).
  unfold votes_out. apply elem_of_app. right. apply elem_of_app. right.
  rewrite <-(take_drop (nd_served n) (sent (eh_bls_sender (nd_handler n)))). unfold bls_votes in *. rewrite omap_app. apply elem_of_app. by left.
Qed.

(** C2: A node never equivocates, not even across crashes.  Whatever events it sees
    and whenever its process crashes, also while storing its vote history, as long as
    the file can be read at the next start, all the votes it ever broadcast are among those of one honest voter: a slot is notarized for at
    most one block and not both notarized and skipped; a block is notarized only
    after replay and on a parent that was ready or that the node notarized; a
    finalization is of a notarized block the node notarized, in a slot without skip
    or fallback votes; and fallback votes follow the corresponding safety events. *)
Theorem node_never_equivocates E n (Hrun : node_run E n) :
  exists L, honest E L /\ forall v, v ∈ network_votes n -> v ∈ L.
Proof.
  destruct (node_run_inv _ _ Hrun) as [_ _ _ [(h & L & _ & (_ & Hhon & _) & HN)|[HN _]]].
  - exists L. auto.
  - exists []. rewrite HN. split; [apply honest_nil|done].
Qed.


(** C6: The event handler does not panic.  Let the banks know the stakes of the epochs
    up to the slot [horizon] and the slots of all events be below it, let the node's
    BLS keys be derivable, the blockstore accept roots, the timers be consistent and
    the receiver of leader windows be there.  Then handling an event returns, with a
    result or an error, and leaves the handler in such a state. *)
Theorem handler_never_panics E n horizon now rctx e
    (Hrun : node_run E n) (Halive : nd_alive n = true) (He : event_ok e)
    (Hslots : forall e', e' ∈ E ++ [e] -> slot_fits horizon e')
    (Hready : ready horizon (nd_handler n)) (Hfits : event_fits now rctx e) :
  exists s' r, event_step now rctx e (nd_handler n) = Some (s', r) /\ ready horizon s'.
Proof.
  destruct (node_run_inv _ _ Hrun) as [(o & X & root & L & Hi & Hp & _) HE _ _].
  assert (handler_inv true horizon E o root L (nd_handler n)) as Hi1 by (by destruct Hi).
  pose proof (event_step_keeps true horizon E X now rctx e root L _ o HE (fun _ => Hslots) Hi1 (Hp Halive) He (fun _ => Hfits)) as Hk.
  unfold keeps in Hk. destruct (event_step now rctx e (nd_handler n)) as [[s' r]|]; [|done].
  destruct Hk as (root' & L' & _ & _ & Hi' & _). exists s', r. split; [done|]. by apply Hi'.
Qed.
End node.

(** ** An example: one validator that votes for block 11 of slot 1, crashes after the
    vote was broadcast and starts again *)

Module NodeExample.
#[export] Existing Instance encode_storage.
#[export] Existing Instance encode_storage_laws.
#[export] Instance ops : VotingOps := {|
  BLSKeypair := Z;
  derive_from_signer k := Some (kp_pubkey k + 100);
  bls_public k := k;
  bls_sign k _ := k;
  vote_bytes _ := [];
|}.

Definition stakes : VersionedEpochStakes :=
  epoch_stakes_new Some Some [(1, (100, mkVoteAccount 1 (Some 101) (fun _ => None)))] 0.
Definition bank (slot : Slot) (id : Hash) (parent : option ForkBank) (ancestors : list Slot) : ForkBank :=
  mkForkBank (mkRootBank slot (Some id) (fun _ => 0) {[0 := stakes]}) 1 (default 0 (fb_slot <$> parent)) parent
    (list_to_set (slot :: ancestors)) 0 {[1]} 400 9 false.
Definition bank0 : ForkBank := bank 0 0 None [].
Definition keypair : Keypair := mkKeypair 1 7.
Definition channel {A} : Sender A := mkSender [] true false.
Definition boot (fs : files) : Handler :=
  mkHandler 1 ∅ ∅ ∅ None
    (mkVotingContext (default (vote_history_new 1 0) (startup_history io_fine fs 1)) 1 keypair [keypair] ∅ channel channel None)
    (new_rw_arc bank0 (status_new PreFeatureActivation)) keypair fs channel (0, (0, 0)) channel channel channel
    (timers_new 100 channel 0) [] [].
Definition rctx : RootContext := mkRootContext (fun _ => 1) (fun _ => None) true false None.

Definition step (s : Handler) (e : VotorEvent) : Handler := default s (fst <$> event_step 5 rctx e s).
Definition block1 : VotorEvent := EBlock 1 (mkBank 1 (Some 11) 0 (Some 0) true 9).
Definition ready1 : VotorEvent := EParentReady 1 (0, 0).
Definition serialize (m : ConsensusMessage) : option (list Z) := Some [].
Definition sockets (s : Slot) : list Z := [8000; 8001].

Definition n0 : Node := mkNode (boot ∅) true 0 [].
Definition n1 : Node := mkNode (step (nd_handler n0) block1) true 0 [].
Definition n2 : Node := mkNode (step (nd_handler n1) ready1) true 0 [].
Definition op1 : BLSOp := default (PushCertificate (mkCertificate (CSkip 0) 0 [])) (sent (eh_bls_sender (nd_handler n2)) !! 0%nat).
Definition served : files * list (Z * ConsensusMessage) := handle_bls_op serialize sockets ∅ op1.
Definition n3 : Node := mkNode (with_files (nd_handler n2) served.1) true 1 served.2.
Definition n4 : Node := mkNode (boot served.1) true 0 served.2.

Lemma boot_started fs :
  startup_history io_fine fs 1 = Some (history (boot fs)) -> vh_root (history (boot fs)) = 0 -> started 1 fs (boot fs).
Proof.
  intros Hh Hr. split; try done; [by apply new_rw_arc_ok|]. split; [done|]. rewrite Hr. done.
Qed.
Lemma node_step_ok (s : Handler) (e : VotorEvent) :
  match event_step 5 rctx e s with Some (_, Ok _) => true | _ => false end = true ->
  event_step 5 rctx e s = Some (step s e, Ok tt).
Proof. unfold step. destruct (event_step 5 rctx e s) as [[s' [[]|]]|]; done. Qed.

Lemma run1 : node_run serialize sockets 1 [block1] n1.
Proof.
  apply (node_event serialize sockets 1 5 rctx block1 _ (Ok tt) [] n0); [|done|by vm_compute|by apply node_step_ok; vm_compute].
  apply node_start with ∅; [done|]. by apply boot_started.
Qed.
Lemma run2 : node_run serialize sockets 1 [block1; ready1] n2.
Proof.
  apply (node_event serialize sockets 1 5 rctx ready1 _ (Ok tt) [block1] n1 run1); [done|by vm_compute|by apply node_step_ok; vm_compute].
Qed.
Lemma run4 : node_run serialize sockets 1 [block1; ready1] n4.
Proof.
  apply (node_crash serialize sockets 1 served.1 (boot served.1) [block1; ready1] n3); [|apply disk_same|].
  - apply (node_serve serialize sockets 1 op1 served.1 served.2 _ n2 run2); [|by destruct served eqn:Hs].
    assert (is_Some (sent (eh_bls_sender (nd_handler n2)) !! 0%nat)) as [op Hop] by (apply (bool_decide_unpack _); vm_compute; exact I).
    unfold op1. by rewrite Hop.
  - apply boot_started; [|by vm_compute]. unfold history, boot. cbn [eh_vctx vc_vote_history].
    assert (is_Some (startup_history io_fine served.1 1)) as [h Hh] by (apply (bool_decide_unpack _); vm_compute; exact I).
    by rewrite Hh.
Qed.

Lemma boot_ready : ready 1000 (boot ∅).
Proof.
  assert (forall k b, bf_banks (eh_forks (boot ∅)) !! k = Some b -> b = bank0) as Hb.
  { assert (bf_banks (eh_forks (boot ∅)) = {[0 := bank0]}) as -> by reflexivity.
    by intros k b [_ <-]%lookup_singleton_Some. }
  split; [|intros k b ->%Hb; split; [by eexists|done]| |done].
  - intros k b slot ->%Hb _. split; [|intros k' _; by eexists]. eexists. split; [done|].
    intros key r Hr. assert (r = 0) as ->; [|apply (bool_decide_unpack _); vm_compute; exact I].
    change (({[1 := 0]} : gmap Z Z) !! key = Some r) in Hr. by apply lookup_singleton_Some in Hr as [_ <-].
  - split; [|done]. split; simpl; try done. constructor.
Qed.
End NodeExample.
Import NodeExample.

Lemma node_never_equivocates_witness :
  network_votes n4 = [Notarize 1 11; Notarize 1 11] /\
  exists L, honest [block1; ready1] L /\ forall v, v ∈ network_votes n4 -> v ∈ L.
Proof. split; [by vm_compute|]. exact (node_never_equivocates _ _ _ _ _ run4). Defined.


Lemma handler_never_panics_witness :
  exists s' r, event_step 5 rctx block1 (boot ∅) = Some (s', r) /\ ready 1000 s'.
Proof.
  apply (handler_never_panics serialize sockets 1 [] n0 1000 5 rctx block1).
  - apply (node_start _ _ _ ∅); [done|]. by apply boot_started.
  - reflexivity.
  - by vm_compute.
  - intros e' [?%elem_of_nil| ->%list_elem_of_singleton]%elem_of_app; [done|by vm_compute].
  - exact boot_ready.
  - split; [by vm_compute|]. split; [done|by eexists].
Defined.

(** The node joined while slot 5 was finalized: it replayed the blocks 44 of slot 4 and
    55 of slot 5 and saw the latter finalized, but never saw that the parent of slot 4
    was ready. *)
Definition late_forks : option BankForks :=
  f ← forks_insert (eh_forks (boot ∅)) (bank 4 44 (Some bank0) [0]);
  forks_insert f (bank 5 55 (Some (bank 4 44 (Some bank0) [0])) [4; 0]).
Definition late_start : Handler := set_forks (boot ∅) (default (eh_forks (boot ∅)) late_forks) [].
Definition late_events : list VotorEvent :=
  [EBlock 4 (mkBank 4 (Some 44) 0 (Some 0) true 9); EBlock 5 (mkBank 5 (Some 55) 4 (Some 44) true 9);
   EFinalized (5, 55) true].
Definition late : Handler := foldl step late_start late_events.

(** The missing notification is added: block 44 becomes a ready parent of slot 5, and
    block 55 on it is pending.  But no vote is cast on block 55. *)
Example late_not_voted :
  is_parent_ready (history late) 5 (4, 44) = true /\ pending_block late (5, 55) (4, 44) /\
  voted (history late) 5 = Some false /\ sent (eh_bls_sender late) = [].
Proof.
  split; [by vm_compute|]. split; [|split; by vm_compute]. exists 5, [((5, 55), (4, 44))].
  split; [by vm_compute|by left].
Qed.

Lemma late_run : node_run serialize sockets 1 late_events (mkNode late true 0 []).
Proof.
  assert (forall E e s, node_run serialize sockets 1 E (mkNode s true 0 []) -> event_ok e ->
    match event_step 5 rctx e s with Some (_, Ok _) => true | _ => false end = true ->
    node_run serialize sockets 1 (E ++ [e]) (mkNode (step s e) true 0 [])) as Hev.
  { intros E e s Hrun Hok Hs.
    by apply (node_event serialize sockets 1 5 rctx e _ (Ok tt) E (mkNode s true 0 []) Hrun); [| |apply node_step_ok]. }
  apply (Hev (take 2 late_events) (EFinalized (5, 55) true)); [|by vm_compute|by vm_compute].
  apply (Hev (take 1 late_events)); [|by vm_compute|by vm_compute].
  apply (Hev []); [|by vm_compute|by vm_compute].
  apply (node_env serialize sockets 1 late_start [] n0).
  - apply (node_start _ _ _ ∅); [done|]. by apply boot_started.
  - unfold late_start. apply env_banks; [|by vm_compute]. unfold late_forks.
    destruct (forks_insert_ok (eh_forks (boot ∅)) (bank 4 44 (Some bank0) [0])) as (f & Hf & Hok & _ & Hb);
      [by apply new_rw_arc_ok|by vm_compute|].
    destruct (forks_insert_ok f (bank 5 55 (Some (bank 4 44 (Some bank0) [0])) [4; 0]) Hok) as (f' & Hf' & Hok' & _);
      [apply eq_None_not_Some; rewrite Hb; vm_compute; intros [?|[? ?]]; discriminate|]. rewrite Hf. cbn [mbind option_bind]. rewrite Hf'. exact Hok'.
Qed.

(** C15: A late node does not vote inside the window.  Whatever events a node sees and
    however often it crashes, it never broadcasts a notarize vote in a window if it was
    not told of a ready parent for the first slot where it looks at them: the
    notification that the code adds for a finalized block inside the window does not
    make it vote there. *)
Theorem missing_parent_ready_no_vote `{VotingOps, StorageOps, !StorageLaws} serialize sockets id E n s b
    (Hrun : node_run serialize sockets id E n) (Hs : s < u64_max)
    (Hlate : forall p, EParentReady (window_first s) p ∉ E) :
  Notarize s b ∉ network_votes n.
Proof.
  intros Hv. destruct (node_run_inv serialize sockets id E n Hrun) as [_ Hok _ [(h & L & _ & (_ & Hhon & _) & HN)|[HN _]]].
  - apply HN in Hv. destruct (ho_notarize _ _ Hhon s b Hv) as (q & Hseen & _).
    destruct (block_seen_u64 _ _ _ Hok Hseen) as [Hpos _]. simpl in Hpos.
    assert (leader_slot_index s = Z.of_nat (Z.to_nat (leader_slot_index s))) as Hi
      by (unfold leader_slot_index, NUM_CONSECUTIVE_LEADER_SLOTS; Z.div_mod_to_equations; lia).
    destruct (notarize_from_start E L Hhon _ s b (conj Hpos Hs) Hi Hv) as [[p Hp] _]. by apply (Hlate p).
  - rewrite HN in Hv. by apply elem_of_nil in Hv.
Qed.
Lemma missing_parent_ready_no_vote_witness :
  is_parent_ready (history late) 5 (4, 44) = true /\ (Notarize 5 55 ∉ network_votes (mkNode late true 0 [])).
Proof.
  split; [vm_compute; reflexivity|].
  apply (missing_parent_ready_no_vote serialize sockets 1 late_events (mkNode late true 0 []) 5 55 late_run); [by vm_compute|].
  intros p. vm_compute. intros Hp. repeat (apply elem_of_cons in Hp as [Hp|Hp]; [discriminate|]). by apply elem_of_nil in Hp.
Defined.
