(* ===== verification/ViewBytes.v ===== *)
(** * Reading a serialized transaction

    [transaction-view/src/bytes.rs]: the functions with which a transaction is parsed
    in place, without copying it.  A byte string is a list of numbers and the offset,
    a [usize] that the functions move, is threaded through a monad: a step may fail
    with an error, and it may have undefined behaviour ([None]): an unchecked read or
    a pointer outside of the byte string.

    The second part is the way the parsers are specified: a parser [reads] an encoding
    when it succeeds exactly where the bytes begin with the encoding of a value, and
    then returns what it should for that value and moves the offset behind it. *)

From S2P Require Import Prelude.

Abbreviation Bytes := (list Z) (only parsing).

(** What Rust guarantees of a byte slice. *)
Definition isize_max : Z := 2 ^ 63 - 1.
Definition is_byte (x : Z) : Prop := 0 <= x < 256.
Abbreviation len b := (Z.of_nat (length b)).
Definition bytes_ok (b : Bytes) : Prop := Forall is_byte b /\ len b <= isize_max.

Inductive TransactionViewError := ParseError | SanitizeError | AddressLookupMismatch.

Definition Parse (A : Type) : Type := Bytes -> Z -> option (result TransactionViewError A * Z).
#[global] Instance Parse_ret : MRet Parse := fun A a b o => Some (Ok a, o).
#[global] Instance Parse_bind : MBind Parse := fun A B k p b o =>
  match p b o with
  | None => None
  | Some (Err e, o') => Some (Err e, o')
  | Some (Ok a, o') => k a b o'
  end.
Definition fail {A} (e : TransactionViewError) : Parse A := fun b o => Some (Err e, o).
Definition get_offset : Parse Z := fun b o => Some (Ok o, o).
Definition ensure (c : bool) (e : TransactionViewError) : Parse unit := if c then mret tt else fail e.

Definition wrapping_mul (a b : Z) : Z := (a * b) mod 2 ^ 64.
(** [as u16] and [as u8]. *)
Definition as_u16 (x : Z) : Z := x mod 2 ^ 16.
Definition as_u8 (x : Z) : Z := x mod 2 ^ 8.

(** [slice::get]. *)
Definition get (b : Bytes) (o : Z) : option Z := if bool_decide (0 <= o) then b !! Z.to_nat o else None.
(** The bytes from [o] on, if there are [n]. *)
Definition slice (b : Bytes) (o n : Z) : option Bytes :=
  if bool_decide (0 <= o /\ 0 <= n /\ o + n <= len b) then Some (take (Z.to_nat n) (drop (Z.to_nat o) b)) else None.

(** ** [bytes.rs] *)

Definition check_remaining (num_bytes : Z) : Parse unit := fun b o =>
  Some (if bool_decide (num_bytes > wrapping_sub (len b) o) then Err ParseError else Ok tt, o).
Definition read_byte : Parse Z := fun b o =>
  Some (match get b o with Some v => Ok v | None => Err ParseError end, wrapping_add o 1).
Definition unchecked_read_byte : Parse Z := fun b o =>
  v ← get b o; Some (Ok v, wrapping_add o 1).

Fixpoint compressed_loop (idx : list Z) (res shift : Z) (b : Bytes) (o : Z) : result TransactionViewError Z * Z :=
  match idx with
  | [] => (Ok res, wrapping_add o 3)
  | i :: idx =>
    match get b (wrapping_add o i) with
    | None => (Err ParseError, o)
    | Some byte =>
      if (bool_decide (i > 0) && bool_decide (byte = 0)) || (bool_decide (i = 2) && bool_decide (byte > 3))
      then (Err ParseError, o)
      else
        let res := Z.lor res (as_u16 (Z.shiftl (Z.land byte 127) shift)) in
        if bool_decide (Z.land byte 128 = 0) then (Ok res, wrapping_add (wrapping_add o i) 1)
        else compressed_loop idx res (as_u16 (shift + 7)) b o
    end
  end.
Definition read_compressed_u16 : Parse Z := fun b o => Some (compressed_loop [0; 1; 2] 0 0 b o).

Definition optimized_read_compressed_u16 : Parse Z := fun b o =>
  Some match get b o with
  | None => (Err ParseError, o)
  | Some byte1 =>
    let res := Z.land byte1 127 in
    if bool_decide (Z.land byte1 128 = 0) then (Ok res, wrapping_add o 1)
    else
      match get b (wrapping_add o 1) with
      | None => (Err ParseError, o)
      | Some byte2 =>
        if bool_decide (byte2 = 0) || negb (bool_decide (Z.land byte2 128 = 0)) then (Err ParseError, o)
        else (Ok (Z.lor res (as_u16 (Z.shiftl (Z.land byte2 127) 7))), wrapping_add o 2)
      end
  end.

Definition move_offset (n : Z) : Parse unit := fun b o => Some (Ok tt, wrapping_add o n).
(** [size] is [size_of::<T>()]. *)
Definition advance_offset_for_array (size num_elements : Z) : Parse unit :=
  let array_len_bytes := wrapping_mul num_elements size in
  check_remaining array_len_bytes ;; move_offset array_len_bytes.
Definition advance_offset_for_type (size : Z) : Parse unit := check_remaining size ;; move_offset size.

(** [bytes.as_ptr().add(offset)]: a pointer must not lie behind the end.  Reading
    through it needs the bytes to be there. *)
Definition pointer : Parse Z := fun b o => rust_assert (bool_decide (0 <= o <= len b)) ;; Some (Ok o, o).
Definition deref (current_ptr n : Z) : Parse Bytes := fun b o => s ← slice b current_ptr n; Some (Ok s, o).
Definition read_slice_data (num_elements : Z) : Parse Bytes :=
  current_ptr ← pointer;
  advance_offset_for_array 1 num_elements ;;
  deref current_ptr num_elements.
Definition unchecked_read_slice_data (num_elements : Z) : Parse Bytes :=
  current_ptr ← pointer;
  move_offset (wrapping_mul num_elements 1) ;;
  deref current_ptr num_elements.
Definition read_type (size : Z) : Parse Bytes :=
  current_ptr ← pointer;
  advance_offset_for_type size ;;
  deref current_ptr size.

(** An integer of [size] bytes, least significant byte first. *)
Fixpoint le_value (l : Bytes) : Z := match l with [] => 0 | x :: l => x + 256 * le_value l end.
Definition unchecked_copy_value (size : Z) (b : Bytes) (o : Z) : option Z := le_value <$> slice b o size.

(** ** Encodings *)

(** [l] is what [b] has at offset [o]. *)
Definition has_at (l b : Bytes) (o : Z) : Prop := l `prefix_of` drop (Z.to_nat o) b.

Record reads_at {A X} (o : Z) (p : Parse A) (wf : X -> Prop) (enc : X -> Bytes) (out : X -> A) : Prop := {
  rd_free x y l : wf x -> wf y -> enc x `prefix_of` l -> enc y `prefix_of` l -> x = y;
  rd_spec b : bytes_ok b -> 0 <= o <= len b ->
    (exists x, wf x /\ has_at (enc x) b o /\ p b o = Some (Ok (out x), o + len (enc x))) \/
    ((exists e o', p b o = Some (Err e, o')) /\ forall x, wf x -> ~ has_at (enc x) b o);
}.
Definition reads {A X} (p : Parse A) (wf : X -> Prop) (enc : X -> Bytes) (out : X -> Z -> A) : Prop :=
  forall o, reads_at o p wf enc (fun x => out x o).

Lemma has_at_bound l b o : 0 <= o <= len b -> has_at l b o -> o + len l <= len b.
Proof. intros Ho [k Hk]. apply (f_equal length) in Hk. rewrite length_drop, length_app in Hk. lia. Qed.
Lemma has_at_app l1 l2 b o : 0 <= o -> has_at (l1 ++ l2) b o <-> has_at l1 b o /\ has_at l2 b (o + len l1).
Proof.
  intros Ho. unfold has_at. rewrite Z2Nat.inj_add by lia. rewrite Nat2Z.id, <-drop_drop. split.
  - intros [k ->]. rewrite <-app_assoc. split; [by exists (l2 ++ k)|]. rewrite drop_app_length. by exists k.
  - intros [[k1 Hk1] [k2 Hk2]]. rewrite Hk1, drop_app_length in Hk2. subst. exists k2. by rewrite Hk1, app_assoc.
Qed.
Lemma has_at_nil b o : has_at [] b o.
Proof. apply prefix_nil. Qed.
Lemma has_at_slice l b o : 0 <= o <= len b -> has_at l b o -> slice b o (len l) = Some l.
Proof.
  intros Ho Hl. pose proof (has_at_bound l b o Ho Hl) as Hb. unfold slice. rewrite bool_decide_true by lia. f_equal.
  destruct Hl as [k ->]. by rewrite Nat2Z.id, take_app_length.
Qed.
Lemma slice_has_at b o n l : slice b o n = Some l -> has_at l b o /\ len l = n /\ 0 <= o /\ o + n <= len b.
Proof.
  unfold slice. case_bool_decide; [|done]. intros [= <-]. split; [exists (drop (Z.to_nat n) (drop (Z.to_nat o) b)); by rewrite take_drop|].
  rewrite length_take, length_drop. lia.
Qed.
Lemma get_has_at b o x : 0 <= o -> get b o = Some x <-> has_at [x] b o.
Proof.
  intros Ho. unfold get, has_at. rewrite bool_decide_true by done. split.
  - intros Hx. rewrite (drop_S _ _ _ Hx). by exists (drop (S (Z.to_nat o)) b).
  - intros [k Hk]. rewrite <-(Nat.add_0_r (Z.to_nat o)), <-lookup_drop, Hk. done.
Qed.
Lemma get_bound b o x : get b o = Some x -> 0 <= o < len b.
Proof. unfold get. case_bool_decide; [|done]. intros Hx%lookup_lt_Some. lia. Qed.
Lemma get_byte b o x : bytes_ok b -> get b o = Some x -> is_byte x.
Proof. intros [Hb _]. unfold get. case_bool_decide; [|done]. intros Hx. by eapply Forall_lookup_1 in Hb. Qed.

(** Offsets inside of a slice do not wrap around. *)
Lemma offset_add b o n : bytes_ok b -> 0 <= o <= len b -> 0 <= n <= 2 ^ 62 -> wrapping_add o n = o + n.
Proof. intros [_ Hb] Ho Hn. unfold isize_max in *. apply wrapping_add_exact. unfold u64_max. lia. Qed.
Lemma remaining_exact b o n : bytes_ok b -> 0 <= o <= len b ->
  check_remaining n b o = Some (if bool_decide (o + n <= len b) then Ok tt else Err ParseError, o).
Proof.
  intros [_ Hb] Ho. unfold check_remaining, wrapping_sub, isize_max in *. rewrite Z.mod_small by lia.
  repeat case_bool_decide; try done; lia.
Qed.

(** *** Composition *)

(** Nothing is left to read: the value is determined. *)
Lemma reads_ret {A X} o (a : A) (wf : X -> Prop) (enc : X -> Bytes) out x0 :
  wf x0 -> enc x0 = [] -> out x0 = a -> (forall x, wf x -> x = x0) -> reads_at o (mret a) wf enc out.
Proof.
  intros Hw He <- Hx. split; [intros x y l Wx Wy _ _; by rewrite (Hx x), (Hx y)|]. intros b _ Ho. left. exists x0.
  split; [done|]. rewrite He. split; [apply has_at_nil|]. simpl. by rewrite Z.add_0_r.
Qed.
(** The first part [proj x] of the value is read, then the [rest], which may look back
    at the first part. *)
Lemma reads_bind_back {A B X X1} o (p : Parse A) (f : A -> Parse B) (wf1 : X1 -> Prop) (enc1 : X1 -> Bytes) out1
    (proj : X -> X1) (rest : X -> Bytes) (wf : X -> Prop) (enc : X -> Bytes) (out : X -> B) (g : X1 -> Parse B) :
  reads_at o p wf1 enc1 out1 ->
  (forall x, wf x -> wf1 (proj x) /\ enc x = enc1 (proj x) ++ rest x) ->
  (forall x1, wf1 x1 -> reads_at (o + len (enc1 x1)) (g x1) (fun x => wf x /\ proj x = x1) rest out) ->
  (forall x1 b, wf1 x1 -> bytes_ok b -> 0 <= o <= len b -> has_at (enc1 x1) b o ->
     f (out1 x1) b (o + len (enc1 x1)) = g x1 b (o + len (enc1 x1))) ->
  reads_at o (p ≫= f) wf enc out.
Proof.
  intros [F1 S1] Hp Hg Hfg. split.
  - intros x y l Wx Wy Px Py. destruct (Hp x Wx) as [Wx1 Ex], (Hp y Wy) as [Wy1 Ey]. rewrite Ex in Px. rewrite Ey in Py.
    assert (proj x = proj y) as Hxy by (eapply (F1 _ _ l); try done; by eapply prefix_app_l).
    destruct Px as [k ->], Py as [k' Hk']. rewrite Hxy, <-!app_assoc in Hk'. apply app_inv_head in Hk'.
    destruct (Hg (proj y) Wy1) as [F2 _]. eapply (F2 x y (rest x ++ k)); [done|done|by exists k|by exists k'].
  - intros b Hb Ho. unfold mbind, Parse_bind. destruct (S1 b Hb Ho) as [(x1 & Wx1 & Hx1 & ->)|[(e & o' & ->) Hn]].
    + pose proof (has_at_bound _ _ _ Ho Hx1) as Hlen. destruct (Hg x1 Wx1) as [_ S2]. rewrite Hfg by done.
      destruct (S2 b Hb) as [(x & [Wx Hpx] & Hx & ->)|[(e & o' & ->) Hn]]; [lia| |].
      * left. exists x. split; [done|]. destruct (Hp x Wx) as [_ ->]. rewrite Hpx. split; [apply has_at_app; [lia|done]|].
        do 2 f_equal. rewrite length_app. lia.
      * right. split; [by eexists _, _|]. intros x Wx Hx. destruct (Hp x Wx) as [Wp Ex]. rewrite Ex in Hx.
        apply has_at_app in Hx as [Hx Hr]; [|lia]. assert (proj x = x1) as Heq by (by eapply F1). rewrite Heq in *. by apply (Hn x).
    + right. split; [by eexists _, _|]. intros x Wx Hx. destruct (Hp x Wx) as [Wp Ex]. rewrite Ex in Hx.
      apply has_at_app in Hx as [Hx _]; [|lia]. by apply (Hn (proj x)).
Qed.
Lemma reads_bind {A B X X1} o (p : Parse A) (f : A -> Parse B) (wf1 : X1 -> Prop) (enc1 : X1 -> Bytes) out1
    (proj : X -> X1) (rest : X -> Bytes) (wf : X -> Prop) (enc : X -> Bytes) (out : X -> B) :
  reads_at o p wf1 enc1 out1 ->
  (forall x, wf x -> wf1 (proj x) /\ enc x = enc1 (proj x) ++ rest x) ->
  (forall x1, wf1 x1 -> reads_at (o + len (enc1 x1)) (f (out1 x1)) (fun x => wf x /\ proj x = x1) rest out) ->
  reads_at o (p ≫= f) wf enc out.
Proof. intros Hp Hw Hf. by apply (reads_bind_back _ _ _ wf1 enc1 out1 proj rest _ _ _ (fun x1 => f (out1 x1))). Qed.
(** Another type for the values. *)
Lemma reads_iso {A X X'} o (p : Parse A) (wf : X -> Prop) enc out (wf' : X' -> Prop) enc' out' (to : X -> X') :
  reads_at o p wf enc out ->
  (forall x, wf x -> wf' (to x) /\ enc' (to x) = enc x /\ out' (to x) = out x) ->
  (forall x', wf' x' -> exists x, wf x /\ to x = x') ->
  reads_at o p wf' enc' out'.
Proof.
  intros [F S] Hto Hfrom. split.
  - intros x' y' l Hx Hy Px Py. destruct (Hfrom x' Hx) as (x & Wx & <-), (Hfrom y' Hy) as (y & Wy & <-).
    destruct (Hto x Wx) as (_ & Ex & _), (Hto y Wy) as (_ & Ey & _). rewrite Ex in Px. rewrite Ey in Py. f_equal. by apply (F _ _ l).
  - intros b Hb Ho. destruct (S b Hb Ho) as [(x & Wx & Hx & ->)|[He Hn]].
    + left. exists (to x). destruct (Hto x Wx) as (? & -> & ->). done.
    + right. split; [done|]. intros x' Hx' Hat. destruct (Hfrom x' Hx') as (x & Wx & <-). destruct (Hto x Wx) as (_ & Ex & _).
      rewrite Ex in Hat. by apply (Hn x).
Qed.
Lemma reads_assoc {A B C X} o (p : Parse A) (f : A -> Parse B) (g : B -> Parse C) (wf : X -> Prop) enc out :
  reads_at o ((p ≫= f) ≫= g) wf enc out -> reads_at o (p ≫= fun a => f a ≫= g) wf enc out.
Proof.
  intros [F S]. split; [done|]. intros b Hb Ho. specialize (S b Hb Ho). unfold mbind, Parse_bind in *.
  by destruct (p b o) as [[[a|e] o']|].
Qed.
(** A check. *)
Lemma reads_ensure {A X} o c e (p : Parse A) (wf : X -> Prop) enc out :
  (forall x, wf x -> c = true) -> (c = true -> reads_at o p wf enc out) -> reads_at o (ensure c e ;; p) wf enc out.
Proof.
  intros Hc Hp. destruct c; [by apply Hp|].
  split; [by intros x y l ?%Hc|]. intros b _ Ho. right. split; [by eexists _, _|]. by intros x ?%Hc.
Qed.
Lemma reads_offset {A X} o (f : Z -> Parse A) (wf : X -> Prop) enc out :
  reads_at o (f o) wf enc out -> reads_at o (get_offset ≫= f) wf enc out.
Proof. intros [F S]. split; [done|]. intros b Hb Ho. by apply S. Qed.
Lemma reads_ext {A X} o (p : Parse A) (wf wf' : X -> Prop) (enc enc' : X -> Bytes) (out out' : X -> A) :
  reads_at o p wf enc out -> (forall x, wf x <-> wf' x) -> (forall x, wf x -> enc x = enc' x /\ out x = out' x) ->
  reads_at o p wf' enc' out'.
Proof.
  intros Hr Hw He. eapply (reads_iso _ _ _ _ _ _ _ _ (fun x => x)); [exact Hr| |].
  - intros x Hx. destruct (He x Hx) as [-> ->]. split; [by apply Hw|done].
  - intros x Hx. exists x. split; [by apply Hw|done].
Qed.

(** *** Bits *)

Lemma land_low x k : 0 <= k -> Z.land x (2 ^ k - 1) = x mod 2 ^ k.
Proof. intros Hk. replace (2 ^ k - 1) with (Z.ones k); [by apply Z.land_ones|]. rewrite Z.ones_equiv. lia. Qed.
Lemma lor_shift a c k : 0 <= k -> 0 <= a < 2 ^ k -> Z.lor a (Z.shiftl c k) = a + c * 2 ^ k.
Proof.
  intros Hk Ha. assert (Z.land a (Z.shiftl c k) = 0) as Hd.
  { apply Z.bits_inj'. intros i Hi. rewrite Z.land_spec, Z.bits_0. destruct (decide (i < k)).
    - rewrite (Z.shiftl_spec_low c k i) by done. by rewrite andb_false_r.
    - rewrite <-(Z.mod_small a (2 ^ k)) by done. rewrite Z.mod_pow2_bits_high by lia. done. }
  rewrite <-Z.lxor_lor, <-Z.add_nocarry_lxor by done. by rewrite Z.shiftl_mul_pow2.
Qed.
Lemma high_bit x : is_byte x -> bool_decide (Z.land x 128 = 0) = bool_decide (x < 128).
Proof.
  intros Hx. assert (forallb (fun x => Bool.eqb (bool_decide (Z.land x 128 = 0)) (bool_decide (x < 128))) (seqZ 0 256) = true) as Hf
    by (vm_compute; reflexivity).
  rewrite forallb_forall in Hf. apply Bool.eqb_prop, Hf, list_elem_of_In, elem_of_seqZ. unfold is_byte in Hx. lia.
Qed.
Lemma low_bits x : Z.land x 127 = x mod 128.
Proof. change 127 with (2 ^ 7 - 1). by rewrite land_low. Qed.
Lemma lor_small a c : 0 <= a < 128 -> 0 <= c < 128 -> Z.lor a (as_u16 (Z.shiftl c 7)) = a + c * 128.
Proof.
  intros Ha Hc. unfold as_u16. rewrite (Z.mod_small (Z.shiftl c 7)) by (rewrite Z.shiftl_mul_pow2 by done; lia). by rewrite lor_shift.
Qed.

(** *** The primitives *)

Lemma reads_byte : reads read_byte is_byte (fun x => [x]) (fun x _ => x).
Proof.
  intros o. split; [by intros x y l _ _ [k ->] [k' [= <- _]]|]. intros b Hb Ho. unfold read_byte.
  destruct (get b o) as [x|] eqn:Eg.
  - left. exists x. split; [by eapply get_byte|]. split; [apply get_has_at; [lia|done]|]. by rewrite (offset_add b) by (done || lia).
  - right. split; [by eexists _, _|]. intros x _ Hx. apply get_has_at in Hx; [congruence|lia].
Qed.
(** The bytes of a fixed length. *)
Lemma fixed_free n (x y l : Bytes) : len x = n -> len y = n -> x `prefix_of` l -> y `prefix_of` l -> x = y.
Proof.
  intros Hx Hy [k ->] [k' Hk']. apply app_inj_1 in Hk' as [-> _]; [done|lia].
Qed.
Lemma reads_skip n : 0 <= n <= 2 ^ 62 ->
  reads (check_remaining n ;; move_offset n) (fun l : Bytes => len l = n) (fun l => l) (fun _ _ => tt).
Proof.
  intros Hn o. split; [intros x y l; apply fixed_free|]. intros b Hb Ho. unfold mbind, Parse_bind.
  rewrite remaining_exact by done. case_bool_decide as Hr.
  - left. destruct (slice b o n) as [l|] eqn:Es; [|unfold slice in Es; rewrite bool_decide_true in Es by lia; done].
    destruct (slice_has_at _ _ _ _ Es) as (Hl & Hlen & _). exists l. split; [done|]. split; [done|].
    unfold move_offset. by rewrite (offset_add b), Hlen by (done || lia).
  - right. split; [by eexists _, _|]. intros l Hlen Hl. pose proof (has_at_bound l b o Ho Hl). lia.
Qed.
Lemma reads_array size n : 0 <= n <= 65535 -> 0 <= size <= 64 ->
  reads (advance_offset_for_array size n) (fun l : Bytes => len l = n * size) (fun l => l) (fun _ _ => tt).
Proof.
  intros Hn Hs. unfold advance_offset_for_array, wrapping_mul. rewrite Z.mod_small by nia. apply reads_skip. nia.
Qed.
Lemma reads_type size : 0 <= size <= 64 ->
  reads (advance_offset_for_type size) (fun l : Bytes => len l = size) (fun l => l) (fun _ _ => tt).
Proof. intros Hs. apply reads_skip. lia. Qed.
(** A check that enough bytes are left for what comes next. *)
Lemma reads_remaining {A X} o n (p : Parse A) (wf : X -> Prop) (enc : X -> Bytes) out :
  reads_at o p wf enc out -> (forall x, wf x -> n <= len (enc x)) -> reads_at o (check_remaining n ;; p) wf enc out.
Proof.
  intros [F S] Hn. split; [done|]. intros b Hb Ho. unfold mbind, Parse_bind. rewrite remaining_exact by done.
  case_bool_decide as Hr; [by apply S|]. right. split; [by eexists _, _|]. intros x Hx Hat.
  pose proof (has_at_bound _ _ _ Ho Hat). specialize (Hn x Hx). lia.
Qed.

(** *** Lengths *)

Definition is_length (n : Z) : Prop := 0 <= n < 16384.
Definition encode_length (n : Z) : Bytes := if bool_decide (n < 128) then [n] else [n mod 128 + 128; n / 128].
Lemma encode_length_bytes n : is_length n -> Forall is_byte (encode_length n).
Proof.
  intros [H0 H1]. unfold encode_length. case_bool_decide; [constructor; [by split; lia|constructor]|].
  pose proof (Z.mod_pos_bound n 128 ltac:(lia)). pose proof (Z.div_lt_upper_bound n 128 128). pose proof (Z.div_pos n 128).
  repeat constructor; lia.
Qed.
Lemma encode_length_bound n : 1 <= len (encode_length n) <= 2.
Proof. unfold encode_length. case_bool_decide; simpl; lia. Qed.

Lemma optimized_eq b o : bytes_ok b -> 0 <= o <= len b -> optimized_read_compressed_u16 b o =
  Some match get b o with
  | None => (Err ParseError, o)
  | Some x =>
    if bool_decide (x < 128) then (Ok x, o + 1)
    else match get b (o + 1) with
         | None => (Err ParseError, o)
         | Some y => if bool_decide (0 < y < 128) then (Ok (x - 128 + y * 128), o + 2) else (Err ParseError, o)
         end
  end.
Proof.
  intros Hb Ho. unfold optimized_read_compressed_u16. f_equal. destruct (get b o) as [x|] eqn:Ex; [|done].
  pose proof (get_byte _ _ _ Hb Ex) as Hx. rewrite high_bit by done. rewrite !(offset_add b) by (done || lia).
  replace 127 with (2 ^ 7 - 1) by done. rewrite !land_low by done. change (2 ^ 7) with 128.
  case_bool_decide as H1; [by rewrite Z.mod_small by (unfold is_byte in Hx; lia)|].
  destruct (get b (o + 1)) as [y|] eqn:Ey; [|done]. pose proof (get_byte _ _ _ Hb Ey) as Hy. rewrite high_bit by done.
  unfold is_byte in *. repeat case_bool_decide; simpl; try done; try lia. f_equal. f_equal.
  rewrite low_bits, (Z.mod_small y) by lia. replace (x mod 128) with (x - 128) by (apply (Z.mod_unique x 128 1); lia).
  by rewrite lor_small by lia.
Qed.
Lemma reads_length : reads optimized_read_compressed_u16 is_length encode_length (fun n _ => n).
Proof.
  intros o. split.
  - intros x y l [Hx0 Hx1] [Hy0 Hy1]. unfold encode_length. pose proof (Z.mod_pos_bound x 128 ltac:(lia)).
    pose proof (Z.mod_pos_bound y 128 ltac:(lia)). pose proof (Z.div_mod x 128 ltac:(lia)). pose proof (Z.div_mod y 128 ltac:(lia)).
    repeat case_bool_decide; intros [k ->] [k' Hk']; simpl in Hk'; injection Hk'; intros; lia.
  - intros b Hb Ho. rewrite optimized_eq by done. destruct (get b o) as [x|] eqn:Ex.
    2:{ right. split; [by eexists _, _|]. intros n Hn. unfold encode_length. intros Hat.
        assert (exists z l, has_at (z :: l) b o) as (z & l & Hz) by (case_bool_decide; eauto).
        apply (has_at_app [z] l) in Hz as [Hz _]; [|lia]. apply get_has_at in Hz; [congruence|lia]. }
    pose proof (get_byte _ _ _ Hb Ex) as Hx. pose proof (get_bound _ _ _ Ex) as Hox. pose proof (proj1 (get_has_at b o x ltac:(lia)) Ex) as Hxat.
    case_bool_decide as H1.
    { left. exists x. unfold is_byte in Hx. split; [split; lia|]. unfold encode_length. rewrite bool_decide_true by lia. done. }
    destruct (get b (o + 1)) as [y|] eqn:Ey; [case_bool_decide as H2|].
    + left. exists (x - 128 + y * 128). unfold is_byte, is_length in *. split; [lia|]. unfold encode_length. rewrite bool_decide_false by lia.
      assert ((x - 128 + y * 128) mod 128 = x - 128 /\ (x - 128 + y * 128) / 128 = y) as [-> ->].
      { rewrite Z.mod_add, Z.div_add by lia. rewrite Z.mod_small, Z.div_small by lia. lia. }
      replace (x - 128 + 128) with x by lia. split; [|done]. apply (has_at_app [x] [y]); [lia|]. split; [done|]. apply get_has_at; [lia|done].
    + right. split; [by eexists _, _|]. intros n [Hn0 Hn1]. unfold encode_length. case_bool_decide as Hn.
      * intros Hat. apply get_has_at in Hat; [|lia]. rewrite Ex in Hat. injection Hat as ->. lia.
      * intros Hat. apply (has_at_app [n mod 128 + 128] [n / 128]) in Hat as [_ Hat]; [|lia]. change (o + len [n mod 128 + 128]) with (o + 1) in Hat. apply get_has_at in Hat; [|lia].
        rewrite Ey in Hat. injection Hat as ->. apply H2. split; [apply Z.div_str_pos; lia|apply Z.div_lt_upper_bound; lia].
    + right. split; [by eexists _, _|]. intros n [Hn0 Hn1]. unfold encode_length. case_bool_decide as Hn.
      * intros Hat. apply get_has_at in Hat; [|lia]. rewrite Ex in Hat. injection Hat as ->. lia.
      * intros Hat. apply (has_at_app [n mod 128 + 128] [n / 128]) in Hat as [_ Hat]; [|lia]. change (o + len [n mod 128 + 128]) with (o + 1) in Hat. apply get_has_at in Hat; [|lia].
        congruence.
Qed.

(** *** Sequences *)

Section then_.
Context {A X : Type} (o : Z) (wf : X -> Prop) (enc rest : X -> Bytes) (out : X -> A).

Lemma then_byte (f : Z -> Parse A) (proj : X -> Z) :
  (forall x, wf x -> is_byte (proj x) /\ enc x = proj x :: rest x) ->
  (forall n, is_byte n -> reads_at (o + 1) (f n) (fun x => wf x /\ proj x = n) rest out) ->
  reads_at o (read_byte ≫= f) wf enc out.
Proof. intros Hw Hf. by apply (reads_bind _ _ _ is_byte (fun x => [x]) (fun x => x) proj rest); [apply reads_byte| |]. Qed.
Lemma then_length (f : Z -> Parse A) (proj : X -> Z) :
  (forall x, wf x -> is_length (proj x) /\ enc x = encode_length (proj x) ++ rest x) ->
  (forall n, is_length n -> reads_at (o + len (encode_length n)) (f n) (fun x => wf x /\ proj x = n) rest out) ->
  reads_at o (optimized_read_compressed_u16 ≫= f) wf enc out.
Proof. intros Hw Hf. by apply (reads_bind _ _ _ is_length encode_length (fun x => x) proj rest); [apply reads_length| |]. Qed.
Lemma then_skip n (f : unit -> Parse A) (proj : X -> Bytes) : 0 <= n <= 2 ^ 62 ->
  (forall x, wf x -> len (proj x) = n /\ enc x = proj x ++ rest x) ->
  (forall l, len l = n -> reads_at (o + n) (f tt) (fun x => wf x /\ proj x = l) rest out) ->
  reads_at o ((check_remaining n ;; move_offset n) ≫= f) wf enc out.
Proof.
  intros Hn Hw Hf. apply (reads_bind _ _ _ (fun l => len l = n) (fun l => l) (fun _ => tt) proj rest); [by apply reads_skip|done|].
  intros l Hl. rewrite Hl. by apply Hf.
Qed.
Lemma then_array size n (f : unit -> Parse A) (proj : X -> Bytes) : 0 <= n <= 65535 -> 0 <= size <= 64 ->
  (forall x, wf x -> len (proj x) = n * size /\ enc x = proj x ++ rest x) ->
  (forall l, len l = n * size -> reads_at (o + n * size) (f tt) (fun x => wf x /\ proj x = l) rest out) ->
  reads_at o (advance_offset_for_array size n ≫= f) wf enc out.
Proof.
  intros Hn Hs Hw Hf. unfold advance_offset_for_array, wrapping_mul. rewrite Z.mod_small by nia. apply (then_skip _ _ proj); [nia|done|done].
Qed.
End then_.

(** *** Loops *)

(** [for _ in 0..n] with the variables that the body changes. *)
Fixpoint parse_loop {S} (n : nat) (body : S -> Parse S) (s : S) : Parse S :=
  match n with
  | O => mret s
  | S n => s ← body s; parse_loop n body s
  end.
Lemma reads_loop {St X} (body : St -> Parse St) (wf : X -> Prop) (enc : X -> Bytes) (upd : St -> X -> St) n :
  (forall s, reads (body s) wf enc (fun x _ => upd s x)) ->
  forall s, reads (parse_loop n body s) (fun l => length l = n /\ Forall wf l) (fun l => concat (enc <$> l)) (fun l _ => foldl upd s l).
Proof.
  intros Hb. induction n as [|n IH]; intros s o.
  - apply reads_ret with []; try done. intros l [Hl _]. by apply nil_length_inv in Hl.
  - eapply (reads_iso _ _ (fun xl : X * list X => wf xl.1 /\ length xl.2 = n /\ Forall wf xl.2) (fun xl => enc xl.1 ++ concat (enc <$> xl.2))
      (fun xl => foldl upd (upd s xl.1) xl.2) _ _ _ (fun xl => xl.1 :: xl.2)).
    + apply (reads_bind _ _ _ wf enc (fun x => upd s x) fst (fun xl => concat (enc <$> xl.2))); [apply Hb|by intros x [? _]|].
      intros x Hx. eapply (reads_iso _ _ _ _ _ _ _ _ (fun l => (x, l))); [apply IH|done|]. by intros [x' l] [[_ Hl] [= ->]]; exists l.
    + intros [x l] (Hx & Hl & HF). simpl in *. split; [|done]. split; [by f_equal|by constructor].
    + intros [|x l] [Hl HF]; [done|]. apply Forall_cons in HF as [Hx HF]. injection Hl as Hl. exists (x, l). done.
Qed.

(** *** Up to the end

    The same for a parser that must have read everything. *)
Record reads_all {A X} (o : Z) (p : Parse A) (wf : X -> Prop) (enc : X -> Bytes) (out : X -> A) : Prop := {
  ra_inj x y : wf x -> wf y -> enc x = enc y -> x = y;
  ra_spec b : bytes_ok b -> 0 <= o <= len b ->
    (exists x, wf x /\ drop (Z.to_nat o) b = enc x /\ p b o = Some (Ok (out x), len b)) \/
    ((exists e o', p b o = Some (Err e, o')) /\ forall x, wf x -> drop (Z.to_nat o) b <> enc x);
}.
Lemma bind_all {A B X X1} o (p : Parse A) (f : A -> Parse B) (wf1 : X1 -> Prop) (enc1 : X1 -> Bytes) out1
    (proj : X -> X1) (rest : X -> Bytes) (wf : X -> Prop) (enc : X -> Bytes) (out : X -> B) :
  reads_at o p wf1 enc1 out1 ->
  (forall x, wf x -> wf1 (proj x) /\ enc x = enc1 (proj x) ++ rest x) ->
  (forall x1, wf1 x1 -> reads_all (o + len (enc1 x1)) (f (out1 x1)) (fun x => wf x /\ proj x = x1) rest out) ->
  reads_all o (p ≫= f) wf enc out.
Proof.
  intros [F1 S1] Hp Hf. split.
  - intros x y Wx Wy Hxy. destruct (Hp x Wx) as [Wx1 Ex], (Hp y Wy) as [Wy1 Ey]. rewrite Ex, Ey in Hxy.
    assert (proj x = proj y) as Heq by (eapply (F1 _ _ (enc1 (proj x) ++ rest x)); [done|done|by eexists|rewrite Hxy; by eexists]).
    rewrite Heq in Hxy. apply app_inv_head in Hxy. by apply (ra_inj _ _ _ _ _ (Hf (proj y) Wy1)).
  - intros b Hb Ho. unfold mbind, Parse_bind. destruct (S1 b Hb Ho) as [(x1 & Wx1 & Hx1 & ->)|[(e & o' & ->) Hn]].
    + pose proof (has_at_bound _ _ _ Ho Hx1) as Hlen. destruct (Hf x1 Wx1) as [_ S2]. destruct Hx1 as [k Hk].
      assert (drop (Z.to_nat (o + len (enc1 x1))) b = k) as Hd.
      { rewrite Z2Nat.inj_add, Nat2Z.id, <-drop_drop, Hk by lia. apply drop_app_length. }
      destruct (S2 b Hb) as [(x & [Wx Hpx] & Hx & ->)|[(e & o' & ->) Hn]]; [lia| |]; rewrite Hd in *.
      * left. exists x. split; [done|]. destruct (Hp x Wx) as [_ ->]. rewrite Hpx, Hk, Hx. done.
      * right. split; [by eexists _, _|]. intros x Wx Hx. destruct (Hp x Wx) as [Wp Ex]. rewrite Ex, Hk in Hx.
        assert (proj x = x1) as Heq by (eapply (F1 _ _ (enc1 x1 ++ k)); [done|done|rewrite Hx; by eexists|by eexists]).
        rewrite Heq in Hx. apply app_inv_head in Hx. by apply (Hn x).
    + right. split; [by eexists _, _|]. intros x Wx Hx. destruct (Hp x Wx) as [Wp Ex]. apply (Hn (proj x) Wp). rewrite Ex in Hx.
      unfold has_at. rewrite Hx. by eexists.
Qed.
Lemma assoc_all {A B C X} o (p : Parse A) (f : A -> Parse B) (g : B -> Parse C) (wf : X -> Prop) enc out :
  reads_all o (p ≫= fun a => f a ≫= g) wf enc out -> reads_all o ((p ≫= f) ≫= g) wf enc out.
Proof.
  intros [F S]. split; [done|]. intros b Hb Ho. specialize (S b Hb Ho). unfold mbind, Parse_bind in *.
  by destruct (p b o) as [[[a|e] o']|].
Qed.
Lemma offset_all {A X} o (f : Z -> Parse A) (wf : X -> Prop) enc out :
  reads_all o (f o) wf enc out -> reads_all o (get_offset ≫= f) wf enc out.
Proof. intros [F S]. split; [done|]. intros b Hb Ho. by apply S. Qed.
Lemma ensure_all {A X} o c e (p : Parse A) (wf : X -> Prop) enc out :
  (forall x, wf x -> c = true) -> (c = true -> reads_all o p wf enc out) -> reads_all o (ensure c e ;; p) wf enc out.
Proof.
  intros Hc Hp. destruct c; [by apply Hp|]. split; [by intros x y ?%Hc|]. intros b _ Ho. right. split; [by eexists _, _|]. by intros x ?%Hc.
Qed.
Lemma remaining_all {A X} o n (p : Parse A) (wf : X -> Prop) (enc : X -> Bytes) out :
  reads_all o p wf enc out -> reads_all o (check_remaining n ;; p) (fun x => wf x /\ n <= len (enc x)) enc out.
Proof.
  intros [F S]. split; [intros x y [? _] [? _]; by apply F|]. intros b Hb Ho. unfold mbind, Parse_bind. rewrite remaining_exact by done.
  assert (len (drop (Z.to_nat o) b) = len b - o) as Hl by (rewrite length_drop; lia). case_bool_decide as Hr.
  - destruct (S b Hb Ho) as [(x & Wx & Hx & ->)|[He Hn]]; [left; exists x|right; split; [done|intros x [Wx _]; by apply Hn]].
    split; [|done]. split; [done|]. rewrite <-Hx. lia.
  - right. split; [by eexists _, _|]. intros x [_ Hx] Heq. rewrite Heq in Hl. lia.
Qed.
Lemma iso_all {A X X'} o (p : Parse A) (wf : X -> Prop) enc out (wf' : X' -> Prop) enc' out' (to : X -> X') :
  reads_all o p wf enc out ->
  (forall x, wf x -> wf' (to x) /\ enc' (to x) = enc x /\ out' (to x) = out x) ->
  (forall x', wf' x' -> exists x, wf x /\ to x = x') ->
  reads_all o p wf' enc' out'.
Proof.
  intros [F S] Hto Hfrom. split.
  - intros x' y' Hx Hy Hxy. destruct (Hfrom x' Hx) as (x & Wx & <-), (Hfrom y' Hy) as (y & Wy & <-).
    destruct (Hto x Wx) as (_ & Ex & _), (Hto y Wy) as (_ & Ey & _). f_equal. apply F; congruence.
  - intros b Hb Ho. destruct (S b Hb Ho) as [(x & Wx & Hx & ->)|[He Hn]].
    + left. exists (to x). destruct (Hto x Wx) as (? & -> & ->). done.
    + right. split; [done|]. intros x' Hx' Heq. destruct (Hfrom x' Hx') as (x & Wx & <-). destruct (Hto x Wx) as (_ & Ex & _).
      apply (Hn x Wx). congruence.
Qed.

(** ** Properties *)

(** C36: The fast reader of array lengths is the general one restricted to two bytes:
    it returns the same value and offset when the value is below 16384, and an error
    otherwise, so for every length that fits into a packet; both reject the encodings
    that are not minimal and those that are cut off. *)
Theorem compressed_readers_agree b o (Hb : bytes_ok b) (Ho : 0 <= o <= len b) :
  optimized_read_compressed_u16 b o =
  match read_compressed_u16 b o with
  | Some (Ok v, o') => if bool_decide (v < 16384) then Some (Ok v, o') else Some (Err ParseError, o)
  | r => r
  end.
Proof.
  rewrite optimized_eq by done. unfold read_compressed_u16. cbn [compressed_loop].
  rewrite (offset_add b o 0), Z.add_0_r by (done || lia). destruct (get b o) as [x|] eqn:Ex; [|done].
  pose proof (get_byte _ _ _ Hb Ex) as Hx. pose proof (get_bound _ _ _ Ex) as Hbo. rewrite high_bit by done.
  rewrite low_bits, Z.shiftl_0_r, Z.lor_0_l, (bool_decide_false (0 > 0)), (bool_decide_false (0 = 2)) by lia. cbn [andb orb].
  rewrite !(offset_add b) by (done || lia). unfold is_byte in Hx. case_bool_decide as H1.
  { unfold as_u16. rewrite !Z.mod_small by (rewrite ?(Z.mod_small x 128); lia). by rewrite bool_decide_true by lia. }
  assert (x mod 128 = x - 128) as Hxm by (symmetry; apply (Z.mod_unique x 128 1); lia).
  rewrite Hxm. change (as_u16 (0 + 7)) with 7. change (as_u16 (7 + 7)) with 14. assert (as_u16 (x - 128) = x - 128) as -> by (apply Z.mod_small; lia).
  destruct (get b (o + 1)) as [y|] eqn:Ey; [|done]. pose proof (get_byte _ _ _ Hb Ey) as Hy. pose proof (get_bound _ _ _ Ey) as Hby.
  rewrite high_bit, low_bits, (bool_decide_true (1 > 0)), (bool_decide_false (1 = 2)) by (done || lia). cbn [andb orb]. rewrite orb_false_r.
  unfold is_byte in Hy. destruct (decide (y = 0)) as [->|Hy0]; [done|].
  rewrite (bool_decide_false (y = 0)) by done. destruct (decide (y < 128)) as [Hy1|Hy1].
  { rewrite !bool_decide_true by lia. rewrite (Z.mod_small y), lor_small by lia.
    rewrite bool_decide_true by lia. by replace (o + 1 + 1) with (o + 2) by lia. }
  rewrite !bool_decide_false by lia. assert (y mod 128 = y - 128) as -> by (symmetry; apply (Z.mod_unique y 128 1); lia).
  rewrite lor_small by lia. destruct (get b (o + 2)) as [z|] eqn:Ez; [|done]. pose proof (get_byte _ _ _ Hb Ez) as Hz. unfold is_byte in Hz.
  rewrite (bool_decide_true (2 > 0)), (bool_decide_true (2 = 2)) by lia. cbn [andb].
  destruct (decide (z = 0 \/ z > 3)) as [Hz0|Hz0]; [by destruct Hz0; [rewrite (bool_decide_true (z = 0)) by done|rewrite (bool_decide_true (z > 3)), orb_true_r by done]|].
  rewrite !bool_decide_false by lia. cbn [orb]. rewrite high_bit, low_bits, (Z.mod_small z 128) by (unfold is_byte; lia).
  rewrite bool_decide_true by lia. unfold as_u16. rewrite (Z.mod_small (Z.shiftl z 14)) by (rewrite Z.shiftl_mul_pow2 by done; lia).
  rewrite lor_shift by lia. by rewrite bool_decide_false by lia.
Qed.
Lemma compressed_readers_agree_witness :
  optimized_read_compressed_u16 [210; 9] 0 = Some (Ok 1234, 2) /\ optimized_read_compressed_u16 [128; 128; 1] 0 = Some (Err ParseError, 0).
Proof.
  assert (bytes_ok [210; 9]) as H1 by (split; [repeat constructor; lia|by vm_compute]).
  assert (bytes_ok [128; 128; 1]) as H2 by (split; [repeat constructor; lia|by vm_compute]).
  split; [rewrite (compressed_readers_agree [210; 9] 0 H1 ltac:(simpl; lia))|rewrite (compressed_readers_agree [128; 128; 1] 0 H2 ltac:(simpl; lia))];
    vm_compute; reflexivity.
Defined.
