(* ===== verification/ViewFrames.v ===== *)
(** * The frame of a transaction

    [transaction-view/src]: the parsers of the parts of a serialized transaction, of
    all three versions, the frame of offsets and counts they produce, and the accessors
    and iterators that later read the transaction through the frame without checking
    bounds again.  An access outside of the bytes is [None]; so is a panic. *)

From S2P Require Import Prelude.
From S2P Require Import ViewBytes.

(** Constants of the Solana SDK: the size of a packet, of a signature, of a key and
    of a hash, and the bit that marks a versioned message. *)
Definition PACKET_DATA_SIZE : Z := 1232.
Definition SIGNATURE_BYTES : Z := 64.
Definition PUBKEY_BYTES : Z := 32.
Definition HASH_BYTES : Z := 32.
Definition MESSAGE_VERSION_PREFIX : Z := 128.

Inductive TransactionVersion := VersionLegacy | Version0 | Version1.
#[global] Instance TransactionVersion_eq_dec : EqDecision TransactionVersion.
Proof. solve_decision. Defined.

(** ** Signatures, header and keys *)

Definition MAX_SIGNATURES_PER_PACKET : Z := as_u8 (PACKET_DATA_SIZE / (SIGNATURE_BYTES + PUBKEY_BYTES)).
Record SignatureFrame := mkSignatureFrame { sf_num_signatures : Z; sf_offset : Z }.
Definition signature_frame_new : Parse SignatureFrame :=
  num_signatures ← read_byte;
  ensure (negb (bool_decide (num_signatures = 0) || bool_decide (num_signatures > MAX_SIGNATURES_PER_PACKET))) ParseError ;;
  offset ← get_offset;
  advance_offset_for_array SIGNATURE_BYTES num_signatures ;;
  mret (mkSignatureFrame num_signatures (as_u16 offset)).

Record MessageHeaderFrame := mkHeaderFrame {
  mh_offset : Z;
  mh_version : TransactionVersion;
  mh_num_required_signatures : Z;
  mh_num_readonly_signed_accounts : Z;
  mh_num_readonly_unsigned_accounts : Z;
}.
(** [!MESSAGE_VERSION_PREFIX] is 127. *)
Definition message_prefix_version (message_prefix : Z) : Parse (TransactionVersion * Z) :=
  if negb (bool_decide (Z.land message_prefix MESSAGE_VERSION_PREFIX = 0)) then
    if bool_decide (Z.land message_prefix 127 = 0) then n ← read_byte; mret (Version0, n) else fail ParseError
  else mret (VersionLegacy, message_prefix).
Definition message_header_frame_new : Parse MessageHeaderFrame :=
  offset ← get_offset;
  message_prefix ← read_byte;
  version_and_count ← message_prefix_version message_prefix;
  num_readonly_signed_accounts ← read_byte;
  num_readonly_unsigned_accounts ← read_byte;
  mret (mkHeaderFrame (as_u16 offset) version_and_count.1 version_and_count.2
    num_readonly_signed_accounts num_readonly_unsigned_accounts).

Definition LEGACY_OR_V0_MAX_STATIC_ACCOUNTS_PER_PACKET : Z := as_u8 (PACKET_DATA_SIZE / PUBKEY_BYTES).
Record StaticAccountKeysFrame := mkKeysFrame { sk_num_static_accounts : Z; sk_offset : Z }.
Definition static_account_keys_frame_new : Parse StaticAccountKeysFrame :=
  num_static_accounts ← read_byte;
  ensure (negb (bool_decide (num_static_accounts = 0) ||
    bool_decide (num_static_accounts > LEGACY_OR_V0_MAX_STATIC_ACCOUNTS_PER_PACKET))) ParseError ;;
  offset ← get_offset;
  advance_offset_for_array PUBKEY_BYTES num_static_accounts ;;
  mret (mkKeysFrame num_static_accounts (as_u16 offset)).

(** ** Instructions *)

Record LegacyAndV0InstructionFrame := mkInstructionFrame {
  if_num_accounts : Z;
  if_data_len : Z;
  if_num_accounts_len : Z;
  if_data_len_len : Z;
}.
Inductive InstructionsFrame :=
  | LegacyAndV0Instructions (num_instructions offset : Z) (frames : list LegacyAndV0InstructionFrame)
  | V1Instructions (num_instructions headers_offset payloads_offset : Z).
Record V1InstructionHeader := mkV1Header { vh_program_id_index : Z; vh_num_accounts : Z; vh_data_len : Z }.

Definition instruction_body (frames : list LegacyAndV0InstructionFrame) : Parse (list LegacyAndV0InstructionFrame) :=
  read_byte ;;
  num_accounts_offset ← get_offset;
  num_accounts ← optimized_read_compressed_u16;
  after_num_accounts ← get_offset;
  let num_accounts_len := as_u8 (wrapping_sub after_num_accounts num_accounts_offset) in
  advance_offset_for_array 1 num_accounts ;;
  data_len_offset ← get_offset;
  data_len ← optimized_read_compressed_u16;
  after_data_len ← get_offset;
  let data_len_len := as_u8 (wrapping_sub after_data_len data_len_offset) in
  advance_offset_for_array 1 data_len ;;
  mret (frames ++ [mkInstructionFrame num_accounts data_len num_accounts_len data_len_len]).
Definition try_new_for_legacy_and_v0 : Parse InstructionsFrame :=
  num_instructions ← optimized_read_compressed_u16;
  check_remaining (wrapping_mul 3 num_instructions) ;;
  instructions_offset ← get_offset;
  frames ← parse_loop (Z.to_nat num_instructions) instruction_body [];
  mret (LegacyAndV0Instructions num_instructions (as_u16 instructions_offset) frames).

(** The four bytes of the header, without a check. *)
Definition read_v1_header : Parse V1InstructionHeader := fun b o =>
  s ← slice b o 4;
  match s with
  | [program_id_index; num_accounts; lo; hi] =>
    Some (Ok (mkV1Header program_id_index num_accounts (le_value [lo; hi])), wrapping_add o 4)
  | _ => None
  end.
(** A parser that moves another offset than the main one. *)
Definition with_offset {A} (o' : Z) (p : Parse A) : Parse (A * Z) := fun b o =>
  match p b o' with
  | Some (Ok a, o'') => Some (Ok (a, o''), o)
  | Some (Err e, _) => Some (Err e, o)
  | None => None
  end.
Definition ok_or {A} (x : option A) (e : TransactionViewError) : Parse A :=
  match x with Some a => mret a | None => fail e end.
(** The variables are [header_offset] and [total_payload_len]. *)
Definition v1_header_body (s : Z * Z) : Parse (Z * Z) :=
  header ← with_offset s.1 read_v1_header;
  payload_len ← ok_or (checked_add (vh_num_accounts header.1) (vh_data_len header.1)) ParseError;
  total_payload_len ← ok_or (checked_add s.2 payload_len) ParseError;
  mret (header.2, total_payload_len).
Definition try_new_for_v1 (num_instructions : Z) : Parse InstructionsFrame :=
  headers_offset ← get_offset;
  let headers_len := wrapping_mul 4 num_instructions in
  check_remaining headers_len ;;
  move_offset headers_len ;;
  payloads_offset ← get_offset;
  s ← parse_loop (Z.to_nat num_instructions) v1_header_body (headers_offset, 0);
  check_remaining s.2 ;;
  move_offset s.2 ;;
  mret (V1Instructions num_instructions (as_u16 headers_offset) (as_u16 payloads_offset)).
Definition frame_num_instructions (f : InstructionsFrame) : Z :=
  match f with LegacyAndV0Instructions n _ _ | V1Instructions n _ _ => n end.

(** ** Address table lookups *)

Definition MIN_SIZED_ATL : Z := PUBKEY_BYTES + 1 + 1 + 1.
Definition MIN_SIZED_PACKET_WITH_ATLS : Z := 1 + SIGNATURE_BYTES + 1 + 3 + 1 + PUBKEY_BYTES + HASH_BYTES + 1 + 1.
Definition MAX_ATLS_PER_PACKET : Z := as_u8 ((PACKET_DATA_SIZE - MIN_SIZED_PACKET_WITH_ATLS) / MIN_SIZED_ATL).
Record AddressTableLookupFrame := mkAtlFrame {
  at_num_address_table_lookups : Z;
  at_offset : Z;
  at_total_writable_lookup_accounts : Z;
  at_total_readonly_lookup_accounts : Z;
}.
Definition wrapping_add32 (a b : Z) : Z := (a + b) mod 2 ^ 32.
Definition u16_try_from (x : Z) (e : TransactionViewError) : Parse Z := if bool_decide (x <= 65535) then mret x else fail e.
(** The variables are the two totals. *)
Definition atl_body (s : Z * Z) : Parse (Z * Z) :=
  advance_offset_for_type PUBKEY_BYTES ;;
  num_write_accounts ← optimized_read_compressed_u16;
  let total_writable_lookup_accounts := wrapping_add32 s.1 num_write_accounts in
  advance_offset_for_array 1 num_write_accounts ;;
  num_read_accounts ← optimized_read_compressed_u16;
  let total_readonly_lookup_accounts := wrapping_add32 s.2 num_read_accounts in
  advance_offset_for_array 1 num_read_accounts ;;
  mret (total_writable_lookup_accounts, total_readonly_lookup_accounts).
Definition address_table_lookup_frame_new : Parse AddressTableLookupFrame :=
  num_address_table_lookups ← read_byte;
  ensure (negb (bool_decide (num_address_table_lookups > MAX_ATLS_PER_PACKET))) ParseError ;;
  check_remaining (wrapping_mul MIN_SIZED_ATL num_address_table_lookups) ;;
  offset ← get_offset;
  totals ← parse_loop (Z.to_nat num_address_table_lookups) atl_body (0, 0);
  total_writable_lookup_accounts ← u16_try_from totals.1 SanitizeError;
  total_readonly_lookup_accounts ← u16_try_from totals.2 SanitizeError;
  mret (mkAtlFrame num_address_table_lookups (as_u16 offset) total_writable_lookup_accounts total_readonly_lookup_accounts).
Definition no_lookups : AddressTableLookupFrame := mkAtlFrame 0 0 0 0.

(** ** The configuration of version 1 *)

Record TransactionConfigFrame := mkConfigFrame {
  tc_mask_offset : Z;
  tc_mask : Z;
  tc_values_offset : Z;
  tc_num_values : Z;
}.
Definition config_not_applicable : TransactionConfigFrame := mkConfigFrame 0 0 0 0.
Definition config_is_present (f : TransactionConfigFrame) : bool := negb (bool_decide (tc_mask_offset f = 0)).
(** [u32::count_ones]. *)
Definition count_ones (x : Z) : Z := len (filter (fun i => Z.testbit x i = true) (seqZ 0 32)).
Definition has_bit (mask bit : Z) : bool := bool_decide (bit < 32) && negb (bool_decide (Z.land (Z.shiftr mask bit) 1 = 0)).
Definition ALLOWED_TRANSACTION_CONFIG_MASK : Z := 31.
(** [!ALLOWED_TRANSACTION_CONFIG_MASK] as a [u32]. *)
Definition sanitize_mask (mask : Z) : result TransactionViewError unit :=
  if negb (bool_decide (Z.land mask (2 ^ 32 - 1 - ALLOWED_TRANSACTION_CONFIG_MASK) = 0)) then Err SanitizeError
  else if xorb (has_bit mask 0) (has_bit mask 1) then Err SanitizeError
  else Ok tt.
Definition lift {A} (r : result TransactionViewError A) : Parse A := match r with Ok a => mret a | Err e => fail e end.
Definition parse_assert (c : bool) : Parse unit := fun b o => if c then Some (Ok tt, o) else None.
Definition config_frame_new (mask_offset mask : Z) : Parse TransactionConfigFrame :=
  parse_assert (bool_decide (mask_offset > 0)) ;;
  lift (sanitize_mask mask) ;;
  let num_values := as_u8 (count_ones mask) in
  mask_offset ← u16_try_from mask_offset SanitizeError;
  offset ← get_offset;
  values_offset ← u16_try_from offset SanitizeError;
  advance_offset_for_array 4 num_values ;;
  mret (mkConfigFrame mask_offset mask values_offset num_values).
Definition word_index_for_bit (f : TransactionConfigFrame) (bit : Z) : option Z :=
  if negb (config_is_present f) || negb (has_bit (tc_mask f) bit) then None
  else
    let mask_before_bit := (Z.shiftl 1 bit mod 2 ^ 32 - 1) mod 2 ^ 32 in
    Some (as_u8 (count_ones (Z.land (tc_mask f) mask_before_bit))).
Definition word_offset (f : TransactionConfigFrame) (bit : Z) : option Z :=
  (fun word_index => wrapping_add (tc_values_offset f) (wrapping_mul word_index 4)) <$> word_index_for_bit f bit.

(** The getters of [TransactionConfigView]: the outer option is an access out of
    bounds. *)
Definition config_value (size bit : Z) (f : TransactionConfigFrame) (b : Bytes) : option (option Z) :=
  match word_offset f bit with
  | None => Some None
  | Some offset => Some <$> unchecked_copy_value size b offset
  end.
Definition priority_fee_lamports : TransactionConfigFrame -> Bytes -> option (option Z) := config_value 8 0.
Definition compute_unit_limit : TransactionConfigFrame -> Bytes -> option (option Z) := config_value 4 2.
Definition loaded_accounts_data_size_limit : TransactionConfigFrame -> Bytes -> option (option Z) := config_value 4 3.
Definition requested_heap_size : TransactionConfigFrame -> Bytes -> option (option Z) := config_value 4 4.

(** ** The whole transaction *)

Record TransactionFrame := mkTransactionFrame {
  tf_signature : SignatureFrame;
  tf_message_header : MessageHeaderFrame;
  tf_static_account_keys : StaticAccountKeysFrame;
  tf_recent_blockhash_offset : Z;
  tf_instructions : InstructionsFrame;
  tf_address_table_lookup : AddressTableLookupFrame;
  tf_transaction_config_frame : TransactionConfigFrame;
  tf_data_len : Z;
}.
Definition at_end : Parse unit := fun b o => Some (if bool_decide (o = len b) then Ok tt else Err ParseError, o).
Definition lookups_of_version (version : TransactionVersion) : Parse AddressTableLookupFrame :=
  match version with
  | VersionLegacy => mret no_lookups
  | Version0 => address_table_lookup_frame_new
  | Version1 => fun b o => None
  end.
Definition try_new_as_legacy_or_v0 : Parse TransactionFrame :=
  signature ← signature_frame_new;
  message_header ← message_header_frame_new;
  static_account_keys ← static_account_keys_frame_new;
  recent_blockhash_offset ← get_offset;
  advance_offset_for_type HASH_BYTES ;;
  instructions ← try_new_for_legacy_and_v0;
  address_table_lookup ← lookups_of_version (mh_version message_header);
  at_end ;;
  offset ← get_offset;
  mret (mkTransactionFrame signature message_header static_account_keys (as_u16 recent_blockhash_offset) instructions
    address_table_lookup config_not_applicable (as_u16 offset)).

Definition FIXED_V1_PREFIX_LEN : Z := 1 + 3 + 4 + HASH_BYTES + 1 + 1.
Definition unchecked_copy (size : Z) : Parse Z := fun b o => v ← unchecked_copy_value size b o; Some (Ok v, o).
Definition try_new_as_v1 : Parse TransactionFrame :=
  check_remaining FIXED_V1_PREFIX_LEN ;;
  message_offset ← get_offset;
  version ← unchecked_read_byte;
  ensure (bool_decide (Z.land version 127 = 1)) ParseError ;;
  num_required_signatures ← unchecked_read_byte;
  num_readonly_signed_accounts ← unchecked_read_byte;
  num_readonly_unsigned_accounts ← unchecked_read_byte;
  transaction_config_mask_offset ← get_offset;
  transaction_config_mask ← unchecked_copy 4;
  move_offset 4 ;;
  recent_blockhash_offset ← get_offset;
  move_offset HASH_BYTES ;;
  num_instructions ← unchecked_read_byte;
  num_addresses ← unchecked_read_byte;
  addresses_offset ← get_offset;
  advance_offset_for_array PUBKEY_BYTES num_addresses ;;
  transaction_config_frame ← config_frame_new transaction_config_mask_offset transaction_config_mask;
  instructions ← try_new_for_v1 num_instructions;
  signatures_offset ← get_offset;
  advance_offset_for_array SIGNATURE_BYTES num_required_signatures ;;
  at_end ;;
  offset ← get_offset;
  mret (mkTransactionFrame (mkSignatureFrame num_required_signatures (as_u16 signatures_offset))
    (mkHeaderFrame (as_u16 message_offset) Version1 num_required_signatures num_readonly_signed_accounts
      num_readonly_unsigned_accounts)
    (mkKeysFrame num_addresses (as_u16 addresses_offset)) (as_u16 recent_blockhash_offset) instructions no_lookups
    transaction_config_frame (as_u16 offset)).

Definition is_legacy_or_v0 (b : Bytes) : result TransactionViewError bool :=
  match b with
  | [] => Err ParseError
  | first_byte :: _ => Ok (bool_decide (Z.land first_byte MESSAGE_VERSION_PREFIX = 0))
  end.
Definition transaction_frame_new (b : Bytes) : option (result TransactionViewError TransactionFrame) :=
  match is_legacy_or_v0 b with
  | Err e => Some (Err e)
  | Ok true => fst <$> try_new_as_legacy_or_v0 b 0
  | Ok false => fst <$> try_new_as_v1 b 0
  end.

(** ** Accessors *)

Abbreviation version f := (mh_version (tf_message_header f)).
Abbreviation num_signatures f := (sf_num_signatures (tf_signature f)).
Abbreviation num_required_signatures f := (mh_num_required_signatures (tf_message_header f)).
Abbreviation num_readonly_signed_static_accounts f := (mh_num_readonly_signed_accounts (tf_message_header f)).
Abbreviation num_readonly_unsigned_static_accounts f := (mh_num_readonly_unsigned_accounts (tf_message_header f)).
Abbreviation num_static_account_keys f := (sk_num_static_accounts (tf_static_account_keys f)).
Abbreviation num_instructions f := (frame_num_instructions (tf_instructions f)).
Abbreviation num_address_table_lookups f := (at_num_address_table_lookups (tf_address_table_lookup f)).
Abbreviation total_writable_lookup_accounts f := (at_total_writable_lookup_accounts (tf_address_table_lookup f)).
Abbreviation total_readonly_lookup_accounts f := (at_total_readonly_lookup_accounts (tf_address_table_lookup f)).

(** [core::slice::from_raw_parts] of [n] arrays of [size] bytes. *)
Fixpoint chunks (n size : nat) (l : Bytes) : list Bytes :=
  match n with O => [] | S n => take size l :: chunks n size (drop size l) end.
Definition raw_parts (size : Z) (b : Bytes) (o n : Z) : option (list Bytes) :=
  chunks (Z.to_nat n) (Z.to_nat size) <$> slice b o (n * size).
Definition signatures (f : TransactionFrame) (b : Bytes) : option (list Bytes) :=
  raw_parts SIGNATURE_BYTES b (sf_offset (tf_signature f)) (num_signatures f).
Definition static_account_keys (f : TransactionFrame) (b : Bytes) : option (list Bytes) :=
  raw_parts PUBKEY_BYTES b (sk_offset (tf_static_account_keys f)) (num_static_account_keys f).
Definition recent_blockhash (f : TransactionFrame) (b : Bytes) : option Bytes :=
  slice b (tf_recent_blockhash_offset f) HASH_BYTES.
Definition message_range (f : TransactionFrame) : Z * Z :=
  (mh_offset (tf_message_header f), match version f with Version1 => sf_offset (tf_signature f) | _ => tf_data_len f end).
Definition message_data (f : TransactionFrame) (b : Bytes) : option Bytes :=
  let '(start, last) := message_range f in slice b start (last - start).

(** *** The iterators *)

Record SVMInstruction := mkInstruction { ix_program_id_index : Z; ix_accounts : Bytes; ix_data : Bytes }.
Inductive InstructionsIterator :=
  | LegacyAndV0Iterator (offset num_instructions index : Z) (frames : list LegacyAndV0InstructionFrame)
  | V1Iterator (index num_instructions headers_offset payloads_offset : Z).
Definition instructions_frame_iter (f : InstructionsFrame) : InstructionsIterator :=
  match f with
  | LegacyAndV0Instructions num_instructions offset frames => LegacyAndV0Iterator offset num_instructions 0 frames
  | V1Instructions num_instructions headers_offset payloads_offset =>
    V1Iterator 0 num_instructions headers_offset payloads_offset
  end.
Definition for_legacy_and_v0 (f : LegacyAndV0InstructionFrame) : Parse SVMInstruction :=
  program_id_index ← unchecked_read_byte;
  move_offset (if_num_accounts_len f) ;;
  accounts ← unchecked_read_slice_data (if_num_accounts f);
  move_offset (if_data_len_len f) ;;
  data ← unchecked_read_slice_data (if_data_len f);
  mret (mkInstruction program_id_index accounts data).
Definition for_v1 (h : V1InstructionHeader) : Parse SVMInstruction :=
  accounts ← unchecked_read_slice_data (vh_num_accounts h);
  data ← unchecked_read_slice_data (vh_data_len h);
  mret (mkInstruction (vh_program_id_index h) accounts data).
Definition wrapping_add16 (a b : Z) : Z := (a + b) mod 2 ^ 16.
Definition instructions_next (b : Bytes) (it : InstructionsIterator) : option (option SVMInstruction * InstructionsIterator) :=
  match it with
  | LegacyAndV0Iterator offset num_instructions index frames =>
    if bool_decide (index >= num_instructions) then Some (None, it)
    else
      frame ← frames !! Z.to_nat index;
      match for_legacy_and_v0 frame b offset with
      | Some (Ok ix, offset) => Some (Some ix, LegacyAndV0Iterator offset num_instructions (wrapping_add16 index 1) frames)
      | _ => None
      end
  | V1Iterator index num_instructions headers_offset payloads_offset =>
    if bool_decide (index >= num_instructions) then Some (None, it)
    else
      match read_v1_header b headers_offset with
      | Some (Ok header, headers_offset) =>
        match for_v1 header b payloads_offset with
        | Some (Ok ix, payloads_offset) =>
          Some (Some ix, V1Iterator (wrapping_add16 index 1) num_instructions headers_offset payloads_offset)
        | _ => None
        end
      | _ => None
      end
  end.
(** A [for] loop over an iterator, for [fuel] rounds at most. *)
Fixpoint iter_collect {I A} (next : I -> option (option A * I)) (fuel : nat) (it : I) : option (list A) :=
  match fuel with
  | O => None
  | S fuel =>
    '(x, it) ← next it;
    match x with
    | None => Some []
    | Some a => cons a <$> iter_collect next fuel it
    end
  end.
Definition instructions_iter (f : TransactionFrame) (b : Bytes) : option (list SVMInstruction) :=
  iter_collect (instructions_next b) (S (Z.to_nat (num_instructions f))) (instructions_frame_iter (tf_instructions f)).

Record SVMMessageAddressTableLookup := mkLookup {
  al_account_key : Bytes;
  al_writable_indexes : Bytes;
  al_readonly_indexes : Bytes;
}.
Record AddressTableLookupIterator := mkAtlIterator { ai_offset : Z; ai_num_address_table_lookups : Z; ai_index : Z }.
Definition wrapping_add8 (a b : Z) : Z := (a + b) mod 2 ^ 8.
Definition read_lookup : Parse SVMMessageAddressTableLookup :=
  account_key ← read_type PUBKEY_BYTES;
  num_write_accounts ← optimized_read_compressed_u16;
  writable_indexes ← read_slice_data num_write_accounts;
  num_read_accounts ← optimized_read_compressed_u16;
  readonly_indexes ← read_slice_data num_read_accounts;
  mret (mkLookup account_key writable_indexes readonly_indexes).
Definition lookups_next (b : Bytes) (it : AddressTableLookupIterator)
    : option (option SVMMessageAddressTableLookup * AddressTableLookupIterator) :=
  if bool_decide (ai_index it < ai_num_address_table_lookups it) then
    let index := wrapping_add8 (ai_index it) 1 in
    '(r, offset) ← read_lookup b (ai_offset it);
    Some (match r with Ok l => Some l | Err _ => None end, mkAtlIterator offset (ai_num_address_table_lookups it) index)
  else Some (None, it).
Definition address_table_lookup_iter (f : TransactionFrame) (b : Bytes) : option (list SVMMessageAddressTableLookup) :=
  iter_collect (lookups_next b) (S (Z.to_nat (num_address_table_lookups f)))
    (mkAtlIterator (at_offset (tf_address_table_lookup f)) (num_address_table_lookups f) 0).
