(* ===== verification/ViewTheorems.v ===== *)
(** * The frame is exact

    What a serialized transaction is, by its documented layout, and that the parsers of
    [transaction-view] accept exactly the serialized transactions, and the accessors
    return exactly their parts. *)

From S2P Require Import Prelude.
From S2P Require Import ViewBytes.
From S2P Require Import ViewFrames.

(** ** Arrays *)

Definition arrays (size : Z) (l : list Bytes) : Prop := Forall (fun x => len x = size) l.
Lemma concat_length size l : arrays size l -> len (concat l) = len l * size.
Proof. induction 1; [done|]. simpl. rewrite length_app. lia. Qed.
Lemma chunks_concat size l : 0 <= size -> arrays size l -> chunks (length l) (Z.to_nat size) (concat l) = l.
Proof.
  intros Hs. induction 1 as [|x l Hx _ IH]; [done|]. simpl. rewrite take_app_length', drop_app_length' by lia. by rewrite IH.
Qed.
Lemma concat_chunks size n l : 0 <= size -> len l = Z.of_nat n * size ->
  concat (chunks n (Z.to_nat size) l) = l /\ arrays size (chunks n (Z.to_nat size) l) /\ length (chunks n (Z.to_nat size) l) = n.
Proof.
  intros Hs. revert l. induction n as [|n IH]; intros l Hl; simpl.
  - assert (l = []) as -> by (apply nil_length_inv; lia). split; [done|]. split; [constructor|done].
  - destruct (IH (drop (Z.to_nat size) l)) as (I1 & I2 & I3); [rewrite length_drop; nia|].
    rewrite I1, take_drop. split; [done|]. split; [|by rewrite I3]. constructor; [|done]. rewrite length_take. nia.
Qed.

(** An array of [n] elements is skipped. *)
Lemma reads_arrays size n : 0 <= n <= 65535 -> 0 < size <= 64 ->
  reads (advance_offset_for_array size n) (fun l => len l = n /\ arrays size l) (fun l => concat l) (fun _ _ => tt).
Proof.
  intros Hn Hs o. eapply (reads_iso _ _ _ _ _ _ _ _ (fun l => chunks (Z.to_nat n) (Z.to_nat size) l)); [apply reads_array; lia| |].
  - intros l Hl. destruct (concat_chunks size (Z.to_nat n) l) as (I1 & I2 & I3); [lia|by rewrite Z2Nat.id by lia|]. split; [split; [lia|done]|done].
  - intros l [Hl Ha]. exists (concat l). split; [rewrite (concat_length size) by done; lia|].
    replace (Z.to_nat n) with (length l) by lia. apply chunks_concat; [lia|done].
Qed.

(** ** The parts *)

Definition encode_array (l : list Bytes) : Bytes := len l :: concat l.
Lemma reads_counted {A} size hi (mk : Z -> Z -> A) : 0 < size <= 64 -> 0 < hi < 256 ->
  reads (n ← read_byte; ensure (negb (bool_decide (n = 0) || bool_decide (n > hi))) ParseError ;;
         o ← get_offset; advance_offset_for_array size n ;; mret (mk n (as_u16 o)))
    (fun l => 1 <= len l <= hi /\ arrays size l) encode_array (fun l o => mk (len l) (as_u16 (o + 1))).
Proof.
  intros Hs Hh o. apply (then_byte _ _ _ (fun l => concat l) _ _ (fun l => len l)).
  { intros l [Hl _]. split; [unfold is_byte; lia|done]. }
  intros n Hn. apply reads_ensure.
  { intros l [[Hl _] <-]. rewrite !bool_decide_false by lia. done. }
  intros Hc. assert (1 <= n <= hi) as Hn' by (unfold is_byte in Hn; destruct (decide (n = 0)), (decide (n > hi)); [..|lia];
    first [rewrite (bool_decide_true (n = 0)) in Hc by done; done | rewrite (bool_decide_true (n > hi)), orb_true_r in Hc by done; done]).
  apply reads_offset. apply (reads_bind _ _ _ (fun l => len l = n /\ arrays size l) (fun l => concat l) (fun _ => tt) (fun l => l) (fun _ => []));
    [apply reads_arrays; lia| |].
  { intros l [[_ Ha] Hl]. split; [done|]. by rewrite app_nil_r. }
  intros l [Hl Ha]. apply reads_ret with l; [|done| |by intros l' [_ ->]].
  - split; [|done]. split; [|done]. split; [lia|done].
  - by rewrite Hl.
Qed.
Lemma reads_signatures : reads signature_frame_new
  (fun l => 1 <= len l <= MAX_SIGNATURES_PER_PACKET /\ arrays SIGNATURE_BYTES l) encode_array
  (fun l o => mkSignatureFrame (len l) (as_u16 (o + 1))).
Proof. by apply reads_counted. Qed.
Lemma reads_keys : reads static_account_keys_frame_new
  (fun l => 1 <= len l <= LEGACY_OR_V0_MAX_STATIC_ACCOUNTS_PER_PACKET /\ arrays PUBKEY_BYTES l) encode_array
  (fun l o => mkKeysFrame (len l) (as_u16 (o + 1))).
Proof. by apply reads_counted. Qed.

(** The header: a prefix for version 0, then three counts. *)
Record Header := mkHeader { hd_version : TransactionVersion; hd_required : Z; hd_readonly_signed : Z; hd_readonly_unsigned : Z }.
Definition header_ok (h : Header) : Prop :=
  is_byte (hd_required h) /\ is_byte (hd_readonly_signed h) /\ is_byte (hd_readonly_unsigned h) /\
  match hd_version h with VersionLegacy => hd_required h < 128 | Version0 => True | Version1 => False end.
Definition encode_header (h : Header) : Bytes :=
  (match hd_version h with Version0 => [128] | _ => [] end) ++ [hd_required h; hd_readonly_signed h; hd_readonly_unsigned h].
Definition header_frame (h : Header) (o : Z) : MessageHeaderFrame :=
  mkHeaderFrame (as_u16 o) (hd_version h) (hd_required h) (hd_readonly_signed h) (hd_readonly_unsigned h).

(** The prefix and the number of signatures. *)
Lemma reads_prefix : reads (x ← read_byte; message_prefix_version x)
  (fun vn : TransactionVersion * Z => is_byte vn.2 /\ match vn.1 with VersionLegacy => vn.2 < 128 | Version0 => True | Version1 => False end)
  (fun vn => (match vn.1 with Version0 => [128] | _ => [] end) ++ [vn.2]) (fun vn _ => vn).
Proof.
  intros o. apply (then_byte _ _ _ (fun vn => match vn.1 with Version0 => [vn.2] | _ => [] end) _ _
    (fun vn => match vn.1 with Version0 => 128 | _ => vn.2 end)).
  { intros [v n] [Hn Hv]. simpl in *. destruct v; done. }
  intros x Hx. unfold message_prefix_version. rewrite high_bit by done. case_bool_decide as H1; cbn [negb].
  - apply reads_ret with (VersionLegacy, x); try done. intros [v n] [[_ Hv] Hp]. simpl in *. destruct v; [by subst|lia|done].
  - rewrite low_bits. case_bool_decide as H2.
    + assert (x = 128) as ->. { unfold is_byte in Hx. pose proof (Z.mod_unique x 128 1 (x - 128) ltac:(lia) ltac:(lia)). lia. }
      apply (then_byte _ _ _ (fun _ => []) _ _ snd).
      { intros [v n] [[Hn Hv] Hp]. simpl in *. split; [done|]. destruct v; try done. lia. }
      intros n Hn. apply reads_ret with (Version0, n); try done. intros [v n'] [[[_ Hv] Hp] Hs]. simpl in *. subst n'. destruct v; try done. lia.
    + split; [intros [v n] [v' n'] l [[_ Hv] Hp]; simpl in *|].
      * destruct v; try done; [lia|]. subst x. by rewrite Z.mod_same in H2.
      * intros b _ Ho. right. split; [by eexists _, _|]. intros [v n] [[_ Hv] Hp]. simpl in *. destruct v; try done; [lia|]. subst x. done.
Qed.
Lemma reads_header : reads message_header_frame_new header_ok encode_header header_frame.
Proof.
  intros o. unfold message_header_frame_new. apply reads_offset, (reads_assoc _ read_byte message_prefix_version).
  apply (reads_bind _ _ _ _ _ _ (fun h => (hd_version h, hd_required h)) (fun h => [hd_readonly_signed h; hd_readonly_unsigned h]) _ _ _ (reads_prefix o)).
  { intros h (H1 & _ & _ & H2). split; [done|]. unfold encode_header. by rewrite <-app_assoc. }
  intros [v n] [Hn Hv]. apply (then_byte _ _ _ (fun h => [hd_readonly_unsigned h]) _ _ hd_readonly_signed).
  { by intros h [(_ & H1 & _) _]. }
  intros s Hs. apply (then_byte _ _ _ (fun h => []) _ _ hd_readonly_unsigned).
  { by intros h [[(_ & _ & H1 & _) _] _]. }
  intros u Hu. apply reads_ret with (mkHeader v n s u); try done.
  intros [v' n' s' u'] [[[_ [= -> ->]] Hs'] Hu']. simpl in *. by subst.
Qed.

(** ** Instructions *)

Definition instruction_ok (ix : SVMInstruction) : Prop :=
  is_byte (ix_program_id_index ix) /\ is_length (len (ix_accounts ix)) /\ is_length (len (ix_data ix)).
Definition encode_instruction (ix : SVMInstruction) : Bytes :=
  ix_program_id_index ix :: encode_length (len (ix_accounts ix)) ++ ix_accounts ix ++ encode_length (len (ix_data ix)) ++ ix_data ix.
Definition instruction_frame (ix : SVMInstruction) : LegacyAndV0InstructionFrame :=
  mkInstructionFrame (len (ix_accounts ix)) (len (ix_data ix))
    (len (encode_length (len (ix_accounts ix)))) (len (encode_length (len (ix_data ix)))).
Lemma length_diff o n : as_u8 (wrapping_sub (o + len (encode_length n)) o) = len (encode_length n).
Proof.
  pose proof (encode_length_bound n). unfold wrapping_sub, as_u8.
  replace (o + len (encode_length n) - o) with (len (encode_length n)) by lia. rewrite (Z.mod_small _ (2 ^ 64)) by lia. apply Z.mod_small. lia.
Qed.
Lemma reads_instruction s : reads (instruction_body s) instruction_ok encode_instruction (fun ix _ => s ++ [instruction_frame ix]).
Proof.
  intros o. unfold instruction_body.
  apply (then_byte _ _ _ (fun ix => encode_length (len (ix_accounts ix)) ++ ix_accounts ix ++ encode_length (len (ix_data ix)) ++ ix_data ix)
    _ _ ix_program_id_index); [by intros ix [H1 _]|].
  intros p Hp. apply reads_offset.
  apply (then_length _ _ _ (fun ix => ix_accounts ix ++ encode_length (len (ix_data ix)) ++ ix_data ix) _ _ (fun ix => len (ix_accounts ix)));
    [by intros ix [(_ & H1 & _) _]|].
  intros n Hn. apply reads_offset. cbv zeta. rewrite length_diff.
  apply (then_array _ _ _ (fun ix => encode_length (len (ix_data ix)) ++ ix_data ix) _ _ _ _ ix_accounts); [unfold is_length in Hn; lia|lia| |].
  { intros ix [[_ _] Hl]. split; [lia|done]. }
  intros l Hl. apply reads_offset.
  apply (then_length _ _ _ (fun ix => ix_data ix) _ _ (fun ix => len (ix_data ix))); [by intros ix [[[(_ & _ & H1) _] _] _]|].
  intros m Hm. apply reads_offset. cbv zeta. rewrite length_diff.
  apply (then_array _ _ _ (fun ix => []) _ _ _ _ ix_data); [unfold is_length in Hm; lia|lia| |].
  { intros ix [_ Hd]. split; [lia|by rewrite app_nil_r]. }
  intros d Hd. rewrite Z.mul_1_r in Hl, Hd. subst n m. apply reads_ret with (mkInstruction p l d); try done.
  intros [p' l' d'] [[[[[_ Hp'] _] Hl'] _] Hd']. simpl in *. by subst.
Qed.

Lemma encode_instruction_min ix : 3 <= len (encode_instruction ix).
Proof.
  unfold encode_instruction. simpl. rewrite !length_app. pose proof (encode_length_bound (len (ix_accounts ix))).
  pose proof (encode_length_bound (len (ix_data ix))). lia.
Qed.
Lemma concat_min {X} (enc : X -> Bytes) n l : (forall x, n <= len (enc x)) -> n * len l <= len (concat (enc <$> l)).
Proof.
  intros Hn. induction l as [|x l IH]; [simpl; lia|]. rewrite fmap_cons. cbn [concat].
  rewrite length_app, length_cons, Nat2Z.inj_succ, Z.mul_succ_r. specialize (Hn x). lia.
Qed.
Lemma foldl_push {X Y} (f : X -> Y) l : forall s, foldl (fun s x => s ++ [f x]) s l = s ++ (f <$> l).
Proof. induction l as [|x l IH]; intros s; simpl; [by rewrite app_nil_r|]. by rewrite IH, <-app_assoc. Qed.

Definition encode_instructions (l : list SVMInstruction) : Bytes := encode_length (len l) ++ concat (encode_instruction <$> l).
Definition instructions_frame (l : list SVMInstruction) (o : Z) : InstructionsFrame :=
  LegacyAndV0Instructions (len l) (as_u16 (o + len (encode_length (len l)))) (instruction_frame <$> l).
Lemma reads_instructions : reads try_new_for_legacy_and_v0
  (fun l => is_length (len l) /\ Forall instruction_ok l) encode_instructions instructions_frame.
Proof.
  intros o. unfold try_new_for_legacy_and_v0.
  apply (then_length _ _ _ (fun l => concat (encode_instruction <$> l)) _ _ (fun l => len l)); [by intros l [H1 _]|].
  intros n Hn. unfold is_length in Hn. unfold wrapping_mul. rewrite Z.mod_small by lia. apply reads_remaining.
  2:{ intros l [_ <-]. apply concat_min, encode_instruction_min. }
  apply reads_offset.
  apply (reads_bind _ _ _ (fun l => length l = Z.to_nat n /\ Forall instruction_ok l) (fun l => concat (encode_instruction <$> l))
    (fun l => foldl (fun s x => s ++ [instruction_frame x]) [] l) (fun l => l) (fun _ => [])).
  { apply (reads_loop _ _ _ (fun s x => s ++ [instruction_frame x])), reads_instruction. }
  { intros l [[H1 H2] Hl]. split; [split; [lia|done]|by rewrite app_nil_r]. }
  intros l [Hl HF]. apply reads_ret with l; try done.
  - unfold is_length. split; [split; [split; [lia|done]|lia]|done].
  - unfold instructions_frame. rewrite foldl_push. replace (len l) with n by lia. done.
  - by intros l' [_ ->].
Qed.

(** ** Lookups *)

Definition lookup_ok (l : SVMMessageAddressTableLookup) : Prop :=
  len (al_account_key l) = PUBKEY_BYTES /\ is_length (len (al_writable_indexes l)) /\ is_length (len (al_readonly_indexes l)).
Definition encode_lookup (l : SVMMessageAddressTableLookup) : Bytes :=
  al_account_key l ++ encode_length (len (al_writable_indexes l)) ++ al_writable_indexes l ++
  encode_length (len (al_readonly_indexes l)) ++ al_readonly_indexes l.
Lemma reads_lookup_body s : reads (atl_body s) lookup_ok encode_lookup
  (fun l _ => (wrapping_add32 s.1 (len (al_writable_indexes l)), wrapping_add32 s.2 (len (al_readonly_indexes l)))).
Proof.
  intros o. unfold atl_body. apply (then_skip _ _ _ (fun l => encode_length (len (al_writable_indexes l)) ++ al_writable_indexes l ++
    encode_length (len (al_readonly_indexes l)) ++ al_readonly_indexes l) _ _ _ al_account_key); [done|by intros l [? _]|].
  intros k Hk. apply (then_length _ _ _ (fun l => al_writable_indexes l ++ encode_length (len (al_readonly_indexes l)) ++ al_readonly_indexes l)
    _ _ (fun l => len (al_writable_indexes l))); [by intros l [(_ & H1 & _) _]|].
  intros n Hn. cbv zeta.
  apply (then_array _ _ _ (fun l => encode_length (len (al_readonly_indexes l)) ++ al_readonly_indexes l) _ _ _ _ al_writable_indexes);
    [unfold is_length in Hn; lia|lia|intros l [_ Hl]; split; [lia|done]|].
  intros w Hw. apply (then_length _ _ _ (fun l => al_readonly_indexes l) _ _ (fun l => len (al_readonly_indexes l)));
    [by intros l [[[(_ & _ & H1) _] _] _]|].
  intros m Hm. cbv zeta. apply (then_array _ _ _ (fun l => []) _ _ _ _ al_readonly_indexes);
    [unfold is_length in Hm; lia|lia|intros l [_ Hl]; split; [lia|by rewrite app_nil_r]|].
  intros r Hr. rewrite Z.mul_1_r in Hw, Hr. subst n m. apply reads_ret with (mkLookup k w r); try done.
  intros [k' w' r'] [[[[[_ Hk'] _] Hw'] _] Hr']. simpl in *. by subst.
Qed.

(** The rest of the transaction is empty. *)
Lemma end_all {A X} o (g : Z -> A) (wf : X -> Prop) (enc : X -> Bytes) out x0 :
  wf x0 -> enc x0 = [] -> out x0 = g o -> (forall x, wf x -> x = x0) ->
  reads_all o (at_end ;; offset ← get_offset; mret (g offset)) wf enc out.
Proof.
  intros Hw He Hg Hx. split; [intros x y Wx Wy _; by rewrite (Hx x), (Hx y)|]. intros b _ Ho.
  unfold mbind, Parse_bind, at_end. case_bool_decide as Hl.
  - left. exists x0. split; [done|]. rewrite He. split; [apply drop_ge; lia|]. unfold get_offset, mret, Parse_ret. by rewrite Hg, Hl.
  - right. split; [by eexists _, _|]. intros x Wx Hd. rewrite (Hx x Wx), He in Hd. apply (f_equal length) in Hd.
    rewrite length_drop in Hd. simpl in Hd. lia.
Qed.
Lemma u16_all {A X} o v e (f : Z -> Parse A) (wf : X -> Prop) enc out :
  (forall x, wf x -> v <= 65535) -> (v <= 65535 -> reads_all o (f v) wf enc out) -> reads_all o (u16_try_from v e ≫= f) wf enc out.
Proof.
  intros Hv Hf. unfold u16_try_from. case_bool_decide as Hc; [by destruct (Hf Hc)|].
  split; [by intros x y ?%Hv|]. intros b _ Ho. right. split; [by eexists _, _|]. by intros x ?%Hv.
Qed.

Definition total_writable (l : list SVMMessageAddressTableLookup) : Z := sumZ ((fun x => len (al_writable_indexes x)) <$> l).
Definition total_readonly (l : list SVMMessageAddressTableLookup) : Z := sumZ ((fun x => len (al_readonly_indexes x)) <$> l).
Definition lookups_ok (l : list SVMMessageAddressTableLookup) : Prop :=
  len l <= MAX_ATLS_PER_PACKET /\ Forall lookup_ok l /\ MIN_SIZED_ATL * len l <= len (concat (encode_lookup <$> l)) /\
  total_writable l <= 65535 /\ total_readonly l <= 65535.
Definition encode_lookups (l : list SVMMessageAddressTableLookup) : Bytes := len l :: concat (encode_lookup <$> l).
Definition lookups_frame (l : list SVMMessageAddressTableLookup) (o : Z) : AddressTableLookupFrame :=
  mkAtlFrame (len l) (as_u16 (o + 1)) (total_writable l) (total_readonly l).

(** The totals do not wrap around. *)
Lemma totals_exact l : Forall lookup_ok l -> forall a c, 0 <= a -> 0 <= c -> a + 16384 * len l < 2 ^ 32 -> c + 16384 * len l < 2 ^ 32 ->
  foldl (fun s x => (wrapping_add32 s.1 (len (al_writable_indexes x)), wrapping_add32 s.2 (len (al_readonly_indexes x)))) (a, c) l =
  (a + total_writable l, c + total_readonly l).
Proof.
  unfold total_writable, total_readonly. induction 1 as [|x l (_ & Hw & Hr) _ IH]; intros a c Ha Hc Hla Hlc; [simpl; f_equal; lia|].
  rewrite length_cons, Nat2Z.inj_succ in Hla, Hlc. unfold is_length in *. cbn [foldl fst snd].
  assert (forall z y, 0 <= z -> 0 <= y -> z + y < 2 ^ 32 -> wrapping_add32 z y = z + y) as Hadd by (intros; apply Z.mod_small; lia).
  rewrite !Hadd by lia. rewrite IH by lia. rewrite !fmap_cons. unfold sumZ. cbn [foldr]. f_equal; lia.
Qed.
Lemma lookups_tail {A} o (g : AddressTableLookupFrame -> Z -> A) :
  reads_all o (f ← address_table_lookup_frame_new; at_end ;; offset ← get_offset; mret (g f offset)) lookups_ok encode_lookups
    (fun l => g (lookups_frame l o) (o + len (encode_lookups l))).
Proof.
  unfold address_table_lookup_frame_new. apply assoc_all.
  apply (bind_all _ _ _ is_byte (fun x => [x]) (fun x => x) (fun l => len l) (fun l => concat (encode_lookup <$> l))); [apply reads_byte| |].
  { intros l (Hl & _). split; [|done]. change MAX_ATLS_PER_PACKET with 31 in Hl. unfold is_byte. lia. }
  intros n Hn. unfold is_byte in Hn. apply assoc_all, ensure_all.
  { intros l [(Hl & _) <-]. by rewrite bool_decide_false by lia. }
  intros Hc%negb_true_iff%bool_decide_eq_false. assert (n <= 31) as Hn31 by (change MAX_ATLS_PER_PACKET with 31 in Hc; lia).
  apply assoc_all. unfold wrapping_mul. rewrite Z.mod_small by (unfold MIN_SIZED_ATL, PUBKEY_BYTES; lia).
  eapply (iso_all _ _ _ _ _ _ _ _ (fun l => l)); [apply (remaining_all _ _ _
    (fun l => length l = Z.to_nat n /\ Forall lookup_ok l /\ total_writable l <= 65535 /\ total_readonly l <= 65535)
    (fun l => concat (encode_lookup <$> l)) (fun l => g (lookups_frame l o) (o + len (encode_lookups l))))| |].
  2:{ intros l [(Hl & HF & Hw & Hr) Hlen]. split; [|done]. split; [|lia]. unfold lookups_ok. replace (len l) with n by lia. split; [lia|done]. }
  2:{ intros l [(Hl & HF & Hlen & Hw & Hr) Hn']. exists l. split; [|done]. rewrite <-Hn' at 2. split; [split; [lia|done]|done]. }
  apply assoc_all, offset_all, assoc_all.
  apply (bind_all _ _ _ (fun l => length l = Z.to_nat n /\ Forall lookup_ok l) (fun l => concat (encode_lookup <$> l))
    (fun l => foldl (fun s x => (wrapping_add32 s.1 (len (al_writable_indexes x)), wrapping_add32 s.2 (len (al_readonly_indexes x)))) (0, 0) l)
    (fun l => l) (fun _ => [])).
  { refine (reads_loop _ _ _ _ _ _ _ _). apply reads_lookup_body. }
  { intros l (Hl & HF & _). split; [done|by rewrite app_nil_r]. }
  intros l [Hl HF]. assert (len l = n) as Hln by lia. rewrite totals_exact by (done || lia). rewrite !Z.add_0_l.
  apply assoc_all, u16_all; [by intros l' [(_ & _ & H1 & _) ->]|]. intros Hw. cbn [snd].
  apply assoc_all, u16_all; [by intros l' [(_ & _ & _ & H1) ->]|]. intros Hr.
  apply (end_all _ (fun offset => g _ offset) _ _ _ l); [done|done| |by intros l' [_ ->]].
  unfold lookups_frame, encode_lookups. rewrite Hln. f_equal. change [n] with ([n]). rewrite !length_cons. simpl. lia.
Qed.

(** ** Transactions *)

(** Version 1 has a configuration: a mask and a word for each of its bits. *)
Record Transaction := mkTransaction {
  tx_signatures : list Bytes;
  tx_header : Header;
  tx_keys : list Bytes;
  tx_blockhash : Bytes;
  tx_instructions : list SVMInstruction;
  tx_lookups : list SVMMessageAddressTableLookup;
  tx_mask : Z;
  tx_config : list Bytes;
}.
Abbreviation tx_version t := (hd_version (tx_header t)).

(** *** Legacy and version 0 *)

Definition legacy_ok (t : Transaction) : Prop :=
  (1 <= len (tx_signatures t) <= MAX_SIGNATURES_PER_PACKET /\ arrays SIGNATURE_BYTES (tx_signatures t)) /\
  header_ok (tx_header t) /\
  (1 <= len (tx_keys t) <= LEGACY_OR_V0_MAX_STATIC_ACCOUNTS_PER_PACKET /\ arrays PUBKEY_BYTES (tx_keys t)) /\
  len (tx_blockhash t) = HASH_BYTES /\
  (is_length (len (tx_instructions t)) /\ Forall instruction_ok (tx_instructions t)) /\
  (if tx_version t is VersionLegacy then tx_lookups t = [] else lookups_ok (tx_lookups t)) /\
  tx_mask t = 0 /\ tx_config t = [].
Definition encode_tail (t : Transaction) : Bytes := if tx_version t is VersionLegacy then [] else encode_lookups (tx_lookups t).
Definition encode_legacy (t : Transaction) : Bytes :=
  encode_array (tx_signatures t) ++ encode_header (tx_header t) ++ encode_array (tx_keys t) ++ tx_blockhash t ++
  encode_instructions (tx_instructions t) ++ encode_tail t.

(** Where the parts begin. *)
Definition header_at (t : Transaction) : Z := len (encode_array (tx_signatures t)).
Definition keys_at (t : Transaction) : Z := header_at t + len (encode_header (tx_header t)).
Definition blockhash_at (t : Transaction) : Z := keys_at t + len (encode_array (tx_keys t)).
Definition instructions_at (t : Transaction) : Z := blockhash_at t + HASH_BYTES.
Definition tail_at (t : Transaction) : Z := instructions_at t + len (encode_instructions (tx_instructions t)).
Definition legacy_frame (t : Transaction) : TransactionFrame :=
  mkTransactionFrame (mkSignatureFrame (len (tx_signatures t)) (as_u16 1)) (header_frame (tx_header t) (header_at t))
    (mkKeysFrame (len (tx_keys t)) (as_u16 (keys_at t + 1))) (as_u16 (blockhash_at t))
    (instructions_frame (tx_instructions t) (instructions_at t))
    (if tx_version t is VersionLegacy then no_lookups else lookups_frame (tx_lookups t) (tail_at t))
    config_not_applicable (as_u16 (tail_at t + len (encode_tail t))).

Lemma legacy_all : reads_all 0 try_new_as_legacy_or_v0 legacy_ok encode_legacy legacy_frame.
Proof.
  unfold try_new_as_legacy_or_v0.
  apply (bind_all _ _ _ _ _ _ tx_signatures (fun t => encode_header (tx_header t) ++ encode_array (tx_keys t) ++ tx_blockhash t ++
    encode_instructions (tx_instructions t) ++ encode_tail t) _ _ _ (reads_signatures 0)); [by intros t (H1 & _)|].
  intros sg Hsg. apply (bind_all _ _ _ _ _ _ tx_header (fun t => encode_array (tx_keys t) ++ tx_blockhash t ++
    encode_instructions (tx_instructions t) ++ encode_tail t) _ _ _ (reads_header _)); [by intros t [(_ & H1 & _) _]|].
  intros h Hh. apply (bind_all _ _ _ _ _ _ tx_keys (fun t => tx_blockhash t ++
    encode_instructions (tx_instructions t) ++ encode_tail t) _ _ _ (reads_keys _)); [by intros t [[(_ & _ & H1 & _) _] _]|].
  intros ks Hks. apply offset_all. apply (bind_all _ _ _ _ _ _ tx_blockhash (fun t => encode_instructions (tx_instructions t) ++ encode_tail t)
    _ _ _ (reads_type HASH_BYTES ltac:(done) _)); [by intros t [[[(_ & _ & _ & H1 & _) _] _] _]|].
  intros bh Hbh. apply (bind_all _ _ _ _ _ _ tx_instructions encode_tail _ _ _ (reads_instructions _));
    [by intros t [[[[(_ & _ & _ & _ & H1 & _) _] _] _] _]|].
  intros ix Hix. cbn [mh_version header_frame].
  assert (forall t, ((((legacy_ok t /\ tx_signatures t = sg) /\ tx_header t = h) /\ tx_keys t = ks) /\ tx_blockhash t = bh) /\ tx_instructions t = ix ->
    t = mkTransaction sg h ks bh ix (tx_lookups t) 0 []) as Ht.
  { intros [sg' h' ks' bh' ix' lk' mk' cf'] [[[[[(_ & _ & _ & _ & _ & _ & H1 & H2) H3] H4] H5] H6] H7]. simpl in *. by subst. }
  destruct (hd_version h) eqn:Ev; cbn [lookups_of_version].
  - eapply (end_all _ _ _ _ _ (mkTransaction sg h ks bh ix [] 0 [])).
    + unfold legacy_ok; simpl. rewrite Ev. clear Ht. destruct_and!. split_and!; done.
    + unfold encode_tail; simpl. by rewrite Ev.
    + unfold legacy_frame, tail_at, instructions_at, blockhash_at, keys_at, header_at, encode_tail; simpl. rewrite Ev, Hbh. simpl.
      rewrite !Z.add_0_r. reflexivity.
    + intros t Hw. rewrite (Ht t Hw). destruct Hw as [[[[[(_ & _ & _ & _ & _ & H1 & _) _] H2] _] _] _]. rewrite H2, Ev in H1. by rewrite H1.
  - eapply (iso_all _ _ _ _ _ _ _ _ (fun lk => mkTransaction sg h ks bh ix lk 0 [])); [apply lookups_tail| |].
    + intros lk Hlk. unfold legacy_ok, encode_tail; simpl. rewrite Ev. split; [clear Ht; destruct_and!; split_and!; done|]. split; [done|].
      unfold legacy_frame, tail_at, instructions_at, blockhash_at, keys_at, header_at, encode_tail; simpl. rewrite Ev, Hbh. simpl. reflexivity.
    + intros t Hw. exists (tx_lookups t). rewrite <-(Ht t Hw). split; [|done].
      destruct Hw as [[[[[(_ & _ & _ & _ & _ & H1 & _) _] H2] _] _] _]. by rewrite H2, Ev in H1.
  - destruct Hh as (_ & _ & _ & Hv). by rewrite Ev in Hv.
Qed.
