(* ===== verification/ViewV1.v ===== *)
(** * Transactions of version 1

    The layout of version 1 and its parser: a prefix of fixed size that is read
    without checks, then the keys, the configuration, the headers of all instructions,
    their payloads and the signatures. *)

From S2P Require Import Prelude.
From S2P Require Import ViewBytes.
From S2P Require Import ViewFrames.
From S2P Require Import ViewTheorems.

(** ** Little-endian numbers *)

Fixpoint le_bytes (n : nat) (x : Z) : Bytes := match n with O => [] | S n => x mod 256 :: le_bytes n (x / 256) end.
Lemma le_bytes_length n x : length (le_bytes n x) = n.
Proof. revert x. induction n as [|n IH]; intros x; simpl; [done|by rewrite IH]. Qed.
Lemma le_value_bytes n x : 0 <= x < 256 ^ Z.of_nat n -> le_value (le_bytes n x) = x.
Proof.
  revert x. induction n as [|n IH]; intros x Hx; [simpl in *; lia|]. cbn [le_bytes le_value].
  rewrite Nat2Z.inj_succ, Z.pow_succ_r in Hx by lia.
  rewrite IH; [pose proof (Z.div_mod x 256 ltac:(lia)); lia|]. split; [apply Z.div_pos; lia|apply Z.div_lt_upper_bound; lia].
Qed.
Lemma le_bytes_value l : Forall is_byte l -> le_bytes (length l) (le_value l) = l.
Proof.
  induction 1 as [|x l Hx _ IH]; [done|]. cbn [length le_bytes le_value]. unfold is_byte in Hx. rewrite (Z.mul_comm 256).
  rewrite Z.mod_add, Z.div_add by lia. rewrite Z.mod_small, Z.div_small by lia. by rewrite Z.add_0_l, IH.
Qed.
Lemma le_value_bound l : Forall is_byte l -> 0 <= le_value l < 256 ^ len l.
Proof.
  induction 1 as [|x l Hx _ IH]; [simpl; lia|]. rewrite length_cons, Nat2Z.inj_succ, Z.pow_succ_r by lia. cbn [le_value]. unfold is_byte in Hx. lia.
Qed.

Lemma has_at_bytes l b o : bytes_ok b -> has_at l b o -> Forall is_byte l.
Proof.
  intros [Hb _] [k Hk]. apply (Forall_drop _ (Z.to_nat o)) in Hb. rewrite Hk in Hb. by apply Forall_app in Hb as [? _].
Qed.
(** [k] bytes that are there, and their value. *)
Lemma reads_number (k : nat) : (k <= 8)%nat ->
  reads (check_remaining (Z.of_nat k) ;; v ← unchecked_copy (Z.of_nat k); move_offset (Z.of_nat k) ;; mret v)
    (fun v => 0 <= v < 256 ^ Z.of_nat k) (le_bytes k) (fun v _ => v).
Proof.
  intros Hk o. split.
  - intros x y l Hx Hy Px Py. pose proof (fixed_free (Z.of_nat k) _ _ _ (f_equal _ (le_bytes_length k x)) (f_equal _ (le_bytes_length k y)) Px Py) as He.
    apply (f_equal le_value) in He. by rewrite !le_value_bytes in He.
  - intros b Hb Ho. unfold mbind, Parse_bind. rewrite remaining_exact by done. case_bool_decide as Hr.
    + left. destruct (slice b o (Z.of_nat k)) as [l|] eqn:Es; [|unfold slice in Es; rewrite bool_decide_true in Es by lia; done].
      destruct (slice_has_at _ _ _ _ Es) as (Hl & Hlen & _). pose proof (has_at_bytes _ _ _ Hb Hl) as Hbl.
      pose proof (le_value_bound l Hbl) as Hv. rewrite Hlen in Hv. exists (le_value l).
      assert (le_bytes k (le_value l) = l) as -> by (replace k with (length l) by lia; by apply le_bytes_value). rewrite Hlen. split; [done|]. split; [done|].
      unfold unchecked_copy, unchecked_copy_value. rewrite Es. cbn. unfold move_offset. by rewrite (offset_add b) by (done || lia).
    + right. split; [by eexists _, _|]. intros x _ Hat%has_at_bound; [|done]. rewrite le_bytes_length in Hat. lia.
Qed.

(** ** The fixed prefix

    Once [n] bytes are known to be there, they can be read without checks. *)

Section fixed.
Context {A X : Type} (o n : Z) (wf : X -> Prop) (enc rest : X -> Bytes) (out : X -> A).

Lemma all_ext (p q : Parse A) :
  reads_all o p wf enc out ->
  (forall b, bytes_ok b -> 0 <= o <= len b -> p b o = q b o \/
     ((exists e o', p b o = Some (Err e, o')) /\ exists e o', q b o = Some (Err e, o'))) ->
  reads_all o q wf enc out.
Proof.
  intros [F S] Hpq. split; [done|]. intros b Hb Ho. destruct (Hpq b Hb Ho) as [Heq|[(e & o' & Hp) He]]; [rewrite <-Heq; by apply S|].
  right. split; [done|]. destruct (S b Hb Ho) as [(x & _ & _ & Hx)|[_ Hn]]; [congruence|done].
Qed.
Lemma fixed_offset (f : Z -> Parse A) : reads_all o (check_remaining n ;; f o) wf enc out -> reads_all o (check_remaining n ;; get_offset ≫= f) wf enc out.
Proof.
  intros Hr. apply (all_ext _ _ Hr). intros b Hb Ho. left. unfold mbind, Parse_bind. rewrite remaining_exact by done. by case_bool_decide.
Qed.
Lemma fixed_ensure c e (p : Parse A) : (forall x, wf x -> c = true) -> (c = true -> reads_all o (check_remaining n ;; p) wf enc out) ->
  reads_all o (check_remaining n ;; ensure c e ;; p) wf enc out.
Proof.
  intros Hc Hp. destruct c; [by apply Hp|]. split; [by intros x y ?%Hc|]. intros b Hb Ho. right.
  split; [|by intros x ?%Hc]. unfold mbind, Parse_bind. rewrite remaining_exact by done. case_bool_decide; by eexists _, _.
Qed.
Lemma fixed_done (p : Parse A) : reads_all o p wf enc out -> reads_all o (check_remaining 0 ;; p) wf enc out.
Proof.
  intros Hr. apply (all_ext _ _ Hr). intros b Hb Ho. left. unfold mbind, Parse_bind. rewrite remaining_exact by done. by rewrite bool_decide_true by lia.
Qed.
Lemma fixed_byte (f : Z -> Parse A) (proj : X -> Z) : 0 <= n ->
  (forall x, wf x -> is_byte (proj x) /\ enc x = proj x :: rest x) ->
  (forall v, is_byte v -> reads_all (o + 1) (check_remaining n ;; f v) (fun x => wf x /\ proj x = v) rest out) ->
  reads_all o (check_remaining (1 + n) ;; unchecked_read_byte ≫= f) wf enc out.
Proof.
  intros Hn Hw Hf. apply (all_ext (v ← read_byte; check_remaining n ;; f v)).
  - by apply (bind_all _ _ _ is_byte (fun x => [x]) (fun x => x) proj rest); [apply reads_byte| |].
  - intros b Hb Ho. unfold mbind, Parse_bind. rewrite remaining_exact by done. unfold read_byte, unchecked_read_byte. case_bool_decide as Hr.
    + left. destruct (get b o) as [v|] eqn:Eg; [|unfold get in Eg; rewrite bool_decide_true in Eg by lia; apply lookup_ge_None in Eg; lia].
      cbn [mbind option_bind]. rewrite (offset_add b) by (done || lia). rewrite remaining_exact by (done || lia). by rewrite bool_decide_true by lia.
    + right. split; [|by eexists _, _]. destruct (get b o) as [v|] eqn:Eg; [|by eexists _, _]. pose proof (get_bound _ _ _ Eg).
      rewrite (offset_add b) by (done || lia). rewrite remaining_exact by (done || lia). rewrite bool_decide_false by lia. by eexists _, _.
Qed.
(** [k] bytes are skipped. *)
Lemma fixed_skip k (p : Parse A) (proj : X -> Bytes) : 0 <= n -> 0 <= k <= 64 ->
  (forall x, wf x -> len (proj x) = k /\ enc x = proj x ++ rest x) ->
  (forall l, len l = k -> reads_all (o + k) (check_remaining n ;; p) (fun x => wf x /\ proj x = l) rest out) ->
  reads_all o (check_remaining (k + n) ;; move_offset k ;; p) wf enc out.
Proof.
  intros Hn Hk Hw Hf. apply (all_ext ((check_remaining k ;; move_offset k) ;; check_remaining n ;; p)).
  - apply (bind_all _ _ _ (fun l => len l = k) (fun l => l) (fun _ => tt) proj rest); [apply reads_skip; lia|done|].
    intros l Hl. rewrite Hl. by apply Hf.
  - intros b Hb Ho. unfold mbind, Parse_bind. rewrite !remaining_exact by done. unfold move_offset. case_bool_decide as H1.
    + rewrite (offset_add b) by (done || lia). rewrite remaining_exact by (done || lia). repeat case_bool_decide; try lia; [by left|right]. split; by eexists _, _.
    + right. rewrite bool_decide_false by lia. split; by eexists _, _.
Qed.
(** A number of [k] bytes. *)
Lemma fixed_copy (k : nat) (f : Z -> Parse A) (proj : X -> Z) : 0 <= n -> (k <= 8)%nat ->
  (forall x, wf x -> 0 <= proj x < 256 ^ Z.of_nat k /\ enc x = le_bytes k (proj x) ++ rest x) ->
  (forall v, 0 <= v < 256 ^ Z.of_nat k -> reads_all (o + Z.of_nat k) (check_remaining n ;; f v) (fun x => wf x /\ proj x = v) rest out) ->
  reads_all o (check_remaining (Z.of_nat k + n) ;; v ← unchecked_copy (Z.of_nat k); move_offset (Z.of_nat k) ;; f v) wf enc out.
Proof.
  intros Hn Hk Hw Hf.
  apply (all_ext (v ← (check_remaining (Z.of_nat k) ;; v ← unchecked_copy (Z.of_nat k); move_offset (Z.of_nat k) ;; mret v); check_remaining n ;; f v)).
  - apply (bind_all _ _ _ _ _ _ proj rest _ _ _ (reads_number k Hk o)); [done|]. intros v Hv. rewrite le_bytes_length. by apply Hf.
  - intros b Hb Ho. unfold mbind, Parse_bind. rewrite !remaining_exact by done. unfold move_offset, unchecked_copy. case_bool_decide as H1.
    + unfold unchecked_copy_value, slice. rewrite bool_decide_true by lia.
      cbn [mbind option_bind fmap option_fmap option_map mret Parse_ret]. unfold mret, Parse_ret. rewrite (offset_add b) by (done || lia).
      rewrite remaining_exact by (done || lia). repeat case_bool_decide; try lia; [by left|right]. split; by eexists _, _.
    + right. rewrite bool_decide_false by lia. split; by eexists _, _.
Qed.
End fixed.

(** ** Instructions *)

Definition header_of (ix : SVMInstruction) : V1InstructionHeader :=
  mkV1Header (ix_program_id_index ix) (len (ix_accounts ix)) (len (ix_data ix)).
Definition v1_header_ok (h : V1InstructionHeader) : Prop :=
  is_byte (vh_program_id_index h) /\ is_byte (vh_num_accounts h) /\ 0 <= vh_data_len h < 65536.
Definition encode_v1_header (h : V1InstructionHeader) : Bytes := vh_program_id_index h :: vh_num_accounts h :: le_bytes 2 (vh_data_len h).
Definition payload_len (h : V1InstructionHeader) : Z := vh_num_accounts h + vh_data_len h.
Definition payload (ix : SVMInstruction) : Bytes := ix_accounts ix ++ ix_data ix.

(** The headers are skipped first. *)
Fixpoint decode_headers (n : nat) (l : Bytes) : list V1InstructionHeader :=
  match n, l with
  | S n, p :: a :: lo :: hi :: l => mkV1Header p a (le_value [lo; hi]) :: decode_headers n l
  | _, _ => []
  end.
Lemma decode_headers_ok n l : len l = 4 * Z.of_nat n -> Forall is_byte l ->
  length (decode_headers n l) = n /\ Forall v1_header_ok (decode_headers n l) /\ concat (encode_v1_header <$> decode_headers n l) = l.
Proof.
  revert l. induction n as [|n IH]; intros l Hl HF; [destruct l; [done|simpl in Hl; lia]|].
  destruct l as [|p [|a [|lo [|hi l]]]]; try (simpl in Hl; lia). rewrite !Forall_cons in HF. destruct HF as (Hp & Ha & Hlo & Hhi & HF).
  destruct (IH l) as (I1 & I2 & I3); [simpl in *; lia|done|]. cbn [decode_headers length]. rewrite I1. split; [done|].
  assert (Forall is_byte [lo; hi]) as H2 by (apply Forall_cons_2; [done|]; apply Forall_cons_2; [done|apply Forall_nil_2]).
  pose proof (le_value_bound [lo; hi] H2) as Hv. split; [constructor; [done|done]|].
  rewrite fmap_cons. cbn [concat]. rewrite I3. unfold encode_v1_header. cbn [vh_program_id_index vh_num_accounts vh_data_len].
  change 2%nat with (length [lo; hi]). by rewrite (le_bytes_value [lo; hi] H2).
Qed.
Lemma encode_v1_header_length h : len (encode_v1_header h) = 4.
Proof. done. Qed.
Lemma headers_length hs : len (concat (encode_v1_header <$> hs)) = 4 * len hs.
Proof. induction hs as [|h hs IH]; [done|]. rewrite fmap_cons. cbn [concat]. rewrite length_app, length_cons. rewrite Nat2Z.inj_add, IH, encode_v1_header_length. lia. Qed.
Lemma headers_inj hs hs' : Forall v1_header_ok hs -> Forall v1_header_ok hs' ->
  concat (encode_v1_header <$> hs) = concat (encode_v1_header <$> hs') -> hs = hs'.
Proof.
  intros H1. revert hs'. induction H1 as [|[p a d] hs (_ & _ & Hd) _ IH]; intros hs' H2 He; destruct H2 as [|[p' a' d'] hs' (_ & _ & Hd') H2]; try done.
  rewrite !fmap_cons in He. cbn [concat] in He. apply app_inj_1 in He as [Hh He]; [|done]. rewrite (IH _ H2 He). f_equal.
  assert (le_value (le_bytes 2 d) = le_value (le_bytes 2 d')) as Hv by exact (f_equal (fun l => le_value (drop 2 l)) Hh).
  rewrite !le_value_bytes in Hv by done. simpl in Hv. subst d'. by injection Hh as -> ->.
Qed.
Lemma reads_headers n : is_byte n ->
  reads (check_remaining (4 * n) ;; move_offset (4 * n))
    (fun hs => len hs = n /\ Forall v1_header_ok hs) (fun hs => concat (encode_v1_header <$> hs)) (fun _ _ => tt).
Proof.
  intros Hn o. unfold is_byte in Hn. destruct (reads_skip (4 * n) ltac:(lia) o) as [F S]. split.
  - intros x y l [Hx Fx] [Hy Fy] Px Py. apply headers_inj; [done..|].
    eapply (F _ _ l); [rewrite headers_length; lia..|done|done].
  - intros b Hb Ho. destruct (S b Hb Ho) as [(l & Hl & Hat & ->)|[He Hno]].
    + left. destruct (decode_headers_ok (Z.to_nat n) l) as (I1 & I2 & I3); [lia|by eapply has_at_bytes|].
      exists (decode_headers (Z.to_nat n) l). rewrite I3. split; [split; [lia|done]|done].
    + right. split; [done|]. intros hs [Hhs _] Hat. eapply Hno; [|exact Hat]. rewrite headers_length. lia.
Qed.

(** Then they are read, with an offset of their own. *)
Lemma header_there h b o : bytes_ok b -> 0 <= o <= len b -> v1_header_ok h -> has_at (encode_v1_header h) b o ->
  read_v1_header b o = Some (Ok h, o + 4).
Proof.
  intros Hb Ho (_ & _ & Hd) Hat%has_at_slice; [|done]. unfold read_v1_header. rewrite encode_v1_header_length in Hat. rewrite Hat.
  unfold encode_v1_header. cbn [le_bytes mbind option_bind]. change [vh_data_len h mod 256; vh_data_len h / 256 mod 256] with (le_bytes 2 (vh_data_len h)).
  rewrite le_value_bytes by done. rewrite (offset_add b) by (done || lia). by destruct h.
Qed.
Abbreviation payloads_len hs := (sumZ (payload_len <$> hs)).
Lemma payloads_bound hs : Forall v1_header_ok hs -> 0 <= payloads_len hs <= 65790 * len hs.
Proof.
  induction 1 as [|h hs (_ & Ha & Hd) _ IH]; [done|]. rewrite fmap_cons. unfold sumZ in *. cbn [foldr]. rewrite length_cons, Nat2Z.inj_succ.
  unfold payload_len at 1 3. unfold is_byte in Ha. lia.
Qed.
Lemma headers_loop b o2 hs : bytes_ok b -> Forall v1_header_ok hs -> forall o t, 0 <= o <= len b -> 0 <= t -> t + payloads_len hs < 2 ^ 63 ->
  has_at (concat (encode_v1_header <$> hs)) b o ->
  parse_loop (length hs) v1_header_body (o, t) b o2 = Some (Ok (o + 4 * len hs, t + payloads_len hs), o2).
Proof.
  intros Hb. induction 1 as [|h hs Hh HF IH]; intros o t Ho Ht Hs Hat; [by rewrite Z.mul_0_r, !Z.add_0_r|].
  rewrite fmap_cons in *. cbn [concat] in Hat. apply has_at_app in Hat as [Hat1 Hat2]; [|lia]. rewrite encode_v1_header_length in Hat2.
  pose proof (payloads_bound hs HF). unfold sumZ in Hs. cbn [foldr] in Hs. fold (sumZ (payload_len <$> hs)) in Hs.
  pose proof (has_at_bound _ _ _ Ho Hat1) as Ho4. rewrite encode_v1_header_length in Ho4.
  cbn [length parse_loop]. unfold mbind at 1, Parse_bind at 1. unfold v1_header_body at 1, with_offset. cbn [fst snd].
  unfold mbind, Parse_bind. rewrite (header_there h) by done. destruct Hh as (Hp & Ha & Hd). unfold is_byte in *. cbn [fst snd].
  unfold payload_len at 1 in Hs.
  rewrite checked_add_exact by (unfold u64_max; lia). cbn [ok_or mret Parse_ret]. rewrite checked_add_exact by (unfold u64_max; lia). cbn [ok_or].
  unfold mret, Parse_ret. rewrite (IH (o + 4)) by (done || lia).
  change (sumZ (payload_len h :: (payload_len <$> hs))) with (vh_num_accounts h + vh_data_len h + payloads_len hs).
  by rewrite Nat2Z.inj_succ, Z.mul_succ_r, (Z.add_comm (4 * len hs)), !Z.add_assoc.
Qed.

(** Last come the payloads. *)
Fixpoint split_payloads (hs : list V1InstructionHeader) (l : Bytes) : list SVMInstruction :=
  match hs with
  | [] => []
  | h :: hs =>
    let l' := drop (Z.to_nat (vh_num_accounts h)) l in
    mkInstruction (vh_program_id_index h) (take (Z.to_nat (vh_num_accounts h)) l) (take (Z.to_nat (vh_data_len h)) l') ::
    split_payloads hs (drop (Z.to_nat (vh_data_len h)) l')
  end.
Lemma split_payloads_ok hs : Forall v1_header_ok hs -> forall l, len l = payloads_len hs ->
  header_of <$> split_payloads hs l = hs /\ concat (payload <$> split_payloads hs l) = l.
Proof.
  induction 1 as [|h hs (_ & Ha & Hd) HF IH]; intros l Hl; [split; [done|by destruct l]|].
  pose proof (payloads_bound hs HF). change (payloads_len (h :: hs)) with (vh_num_accounts h + vh_data_len h + payloads_len hs) in Hl. unfold is_byte in Ha.
  cbn [split_payloads]. destruct (IH (drop (Z.to_nat (vh_data_len h)) (drop (Z.to_nat (vh_num_accounts h)) l))) as [I1 I2]; [rewrite !length_drop; lia|].
  rewrite !fmap_cons, I1. cbn [concat]. rewrite I2. unfold payload, header_of. cbn [ix_accounts ix_data ix_program_id_index].
  rewrite <-app_assoc, !take_drop. split; [|done]. f_equal. rewrite !length_take, length_drop. destruct h; simpl in *. f_equal; lia.
Qed.
Lemma split_concat l : split_payloads (header_of <$> l) (concat (payload <$> l)) = l.
Proof.
  induction l as [|[p a d] l IH]; [done|]. rewrite !fmap_cons. cbn [concat split_payloads]. change (payload (mkInstruction p a d)) with (a ++ d).
  cbn [header_of ix_accounts ix_data ix_program_id_index vh_num_accounts vh_data_len vh_program_id_index].
  rewrite !Nat2Z.id, <-!app_assoc, take_app_length, !drop_app_length, take_app_length, IH. done.
Qed.
Lemma concat_payloads l : len (concat (payload <$> l)) = payloads_len (header_of <$> l).
Proof.
  induction l as [|[p a d] l IH]; [done|]. rewrite !fmap_cons. cbn [concat]. rewrite length_app, Nat2Z.inj_add, IH. unfold payload. by rewrite length_app, Nat2Z.inj_add.
Qed.

Definition v1_instruction_ok (ix : SVMInstruction) : Prop := v1_header_ok (header_of ix).
Definition encode_v1_headers (l : list SVMInstruction) : Bytes := concat (encode_v1_header <$> (header_of <$> l)).
Definition encode_v1_instructions (l : list SVMInstruction) : Bytes := encode_v1_headers l ++ concat (payload <$> l).
Definition v1_instructions_frame (l : list SVMInstruction) (o : Z) : InstructionsFrame :=
  V1Instructions (len l) (as_u16 o) (as_u16 (o + 4 * len l)).
Lemma v1_headers_ok l : Forall v1_instruction_ok l <-> Forall v1_header_ok (header_of <$> l).
Proof. by rewrite Forall_fmap. Qed.
Lemma reads_v1_instructions n : is_byte n ->
  reads (try_new_for_v1 n) (fun l => len l = n /\ Forall v1_instruction_ok l) encode_v1_instructions v1_instructions_frame.
Proof.
  intros Hn o. unfold try_new_for_v1. apply reads_offset. unfold wrapping_mul. rewrite Z.mod_small by (unfold is_byte in Hn; lia).
  apply (reads_assoc _ (check_remaining (4 * n)) (fun _ => move_offset (4 * n))).
  apply (reads_bind_back _ _ _ _ _ _ (fun l => header_of <$> l) (fun l => concat (payload <$> l)) _ _ _
    (fun hs => (check_remaining (payloads_len hs) ;; move_offset (payloads_len hs)) ;; mret (V1Instructions n (as_u16 o) (as_u16 (o + 4 * n))))
    (reads_headers n Hn o)); unfold is_byte in Hn.
  - intros l [Hl HF]. split; [|done]. split; [rewrite length_fmap; lia|by apply v1_headers_ok].
  - intros hs [Hhs HF]. pose proof (payloads_bound hs HF). rewrite headers_length.
    apply (then_skip _ _ _ (fun _ => []) _ _ _ (fun l => concat (payload <$> l))); [lia| |].
    + intros l [_ <-]. rewrite app_nil_r. split; [apply concat_payloads|done].
    + intros p Hp. destruct (split_payloads_ok hs HF p Hp) as [I1 I2]. assert (length (split_payloads hs p) = length hs) as Hlen by (by rewrite <-I1 at 2; rewrite length_fmap).
      apply reads_ret with (split_payloads hs p); [|done| |].
      * split; [|done]. split; [|done]. split; [lia|]. apply v1_headers_ok. by rewrite I1.
      * unfold v1_instructions_frame. replace (len (split_payloads hs p)) with n by lia. done.
      * intros l [[_ <-] <-]. symmetry. apply split_concat.
  - intros hs b [Hhs HF] Hb Ho Hat. pose proof (payloads_bound hs HF). rewrite headers_length. replace (len hs) with n by lia.
    unfold mbind, Parse_bind, get_offset. replace (Z.to_nat n) with (length hs) by lia. pose proof (has_at_bound _ _ _ Ho Hat).
    rewrite (headers_loop b _ hs Hb HF o 0) by (done || lia). rewrite Z.add_0_l. cbn [snd].
    by destruct (check_remaining (payloads_len hs) b (o + 4 * n)) as [[[u|e] o']|].
Qed.

(** ** The configuration *)

Lemma count_ones_bound x : 0 <= count_ones x <= 32.
Proof.
  unfold count_ones. split; [lia|]. transitivity (len (seqZ 0 32)); [|by rewrite length_seqZ].
  apply inj_le, (submseteq_length _ _ (sublist_submseteq _ _ (sublist_filter _ _))).
Qed.
Lemma reads_u16 {A X} o v e (f : Z -> Parse A) (wf : X -> Prop) enc out :
  v <= 65535 -> reads_at o (f v) wf enc out -> reads_at o (u16_try_from v e ≫= f) wf enc out.
Proof. intros Hv Hf. unfold u16_try_from. by rewrite bool_decide_true. Qed.
Definition config_ok (mask : Z) (l : list Bytes) : Prop := sanitize_mask mask = Ok tt /\ len l = count_ones mask /\ arrays 4 l.
Lemma reads_config o mask_offset mask : 0 < mask_offset <= 65535 -> 0 <= o <= 65535 ->
  reads_at o (config_frame_new mask_offset mask) (config_ok mask) (fun l => concat l)
    (fun l => mkConfigFrame mask_offset mask o (count_ones mask)).
Proof.
  intros Hm Ho. unfold config_frame_new, config_ok. rewrite bool_decide_true by lia. destruct (sanitize_mask mask) as [[]|e].
  2:{ split; [by intros ??? [? _]|]. intros b _ _. right. split; [by eexists _, _|]. by intros ? [? _]. }
  pose proof (count_ones_bound mask). assert (as_u8 (count_ones mask) = count_ones mask) as -> by (apply Z.mod_small; lia). cbv zeta.
  change (reads_at o (m ← u16_try_from mask_offset SanitizeError; offset ← get_offset; values_offset ← u16_try_from offset SanitizeError;
    advance_offset_for_array 4 (count_ones mask) ;; mret (mkConfigFrame m mask values_offset (count_ones mask)))
    (fun l : list Bytes => Ok (E := TransactionViewError) tt = Ok tt /\ len l = count_ones mask /\ arrays 4 l) (fun l => concat l)
    (fun l => mkConfigFrame mask_offset mask o (count_ones mask))).
  apply reads_u16; [lia|]. apply reads_offset, reads_u16; [lia|].
  apply (reads_bind _ _ _ _ _ _ (fun l => l) (fun _ => []) _ _ _ (reads_arrays 4 (count_ones mask) ltac:(lia) ltac:(lia) o)).
  { intros l [_ Hl]. split; [done|by rewrite app_nil_r]. }
  intros l Hl. by apply reads_ret with l; [| | |intros l' [_ ->]].
Qed.

(** ** The transaction *)

Definition v1_ok (t : Transaction) : Prop :=
  (tx_version t = Version1 /\ is_byte (hd_required (tx_header t)) /\ is_byte (hd_readonly_signed (tx_header t)) /\ is_byte (hd_readonly_unsigned (tx_header t))) /\
  0 <= tx_mask t < 2 ^ 32 /\ len (tx_blockhash t) = HASH_BYTES /\
  (is_byte (len (tx_keys t)) /\ arrays PUBKEY_BYTES (tx_keys t)) /\
  config_ok (tx_mask t) (tx_config t) /\
  (is_byte (len (tx_instructions t)) /\ Forall v1_instruction_ok (tx_instructions t)) /\
  (len (tx_signatures t) = hd_required (tx_header t) /\ arrays SIGNATURE_BYTES (tx_signatures t)) /\
  tx_lookups t = [].
(** After the fixed prefix. *)
Definition encode_v1_variable (t : Transaction) : Bytes :=
  concat (tx_keys t) ++ concat (tx_config t) ++ encode_v1_instructions (tx_instructions t) ++ concat (tx_signatures t).
Definition encode_v1_with (version : Z) (t : Transaction) : Bytes :=
  version :: hd_required (tx_header t) :: hd_readonly_signed (tx_header t) :: hd_readonly_unsigned (tx_header t) ::
  le_bytes 4 (tx_mask t) ++ tx_blockhash t ++ len (tx_instructions t) :: len (tx_keys t) :: encode_v1_variable t.
Definition encode_v1 : Transaction -> Bytes := encode_v1_with 129.

Definition v1_config_at (t : Transaction) : Z := 42 + len (tx_keys t) * PUBKEY_BYTES.
Definition v1_instructions_at (t : Transaction) : Z := v1_config_at t + len (tx_config t) * 4.
Definition v1_signatures_at (t : Transaction) : Z := v1_instructions_at t + len (encode_v1_instructions (tx_instructions t)).
Definition v1_frame (t : Transaction) : TransactionFrame :=
  mkTransactionFrame (mkSignatureFrame (len (tx_signatures t)) (as_u16 (v1_signatures_at t)))
    (header_frame (tx_header t) 0) (mkKeysFrame (len (tx_keys t)) (as_u16 42)) (as_u16 8)
    (v1_instructions_frame (tx_instructions t) (v1_instructions_at t)) no_lookups
    (mkConfigFrame 4 (tx_mask t) (v1_config_at t) (count_ones (tx_mask t)))
    (as_u16 (v1_signatures_at t + len (tx_signatures t) * SIGNATURE_BYTES)).

(** The header and the counts are given. *)
Definition v1_prefix (h : Header) (mask : Z) (bh : Bytes) (nix nkeys : Z) (t : Transaction) : Prop :=
  tx_header t = h /\ tx_mask t = mask /\ tx_blockhash t = bh /\ len (tx_instructions t) = nix /\ len (tx_keys t) = nkeys.
Lemma v1_variable_all h mask bh nix nkeys :
  (hd_version h = Version1 /\ is_byte (hd_required h) /\ is_byte (hd_readonly_signed h) /\ is_byte (hd_readonly_unsigned h)) ->
  0 <= mask < 2 ^ 32 -> len bh = HASH_BYTES -> is_byte nix -> is_byte nkeys ->
  reads_all 42 (
    addresses_offset ← get_offset;
    advance_offset_for_array PUBKEY_BYTES nkeys ;;
    transaction_config_frame ← config_frame_new 4 mask;
    instructions ← try_new_for_v1 nix;
    signatures_offset ← get_offset;
    advance_offset_for_array SIGNATURE_BYTES (hd_required h) ;;
    at_end ;;
    offset ← get_offset;
    mret (mkTransactionFrame (mkSignatureFrame (hd_required h) (as_u16 signatures_offset))
      (mkHeaderFrame (as_u16 0) Version1 (hd_required h) (hd_readonly_signed h) (hd_readonly_unsigned h))
      (mkKeysFrame nkeys (as_u16 addresses_offset)) (as_u16 8) instructions no_lookups
      transaction_config_frame (as_u16 offset)))
    (fun t => v1_ok t /\ v1_prefix h mask bh nix nkeys t) encode_v1_variable v1_frame.
Proof.
  intros Hh Hm Hbh Hi Hk. unfold is_byte in Hk. apply offset_all.
  apply (bind_all _ _ _ _ _ _ tx_keys (fun t => concat (tx_config t) ++ encode_v1_instructions (tx_instructions t) ++ concat (tx_signatures t))
    _ _ _ (reads_arrays PUBKEY_BYTES nkeys ltac:(lia) ltac:(done) _)).
  { intros t [(_ & _ & _ & [_ H1] & _) (_ & _ & _ & _ & H2)]. done. }
  intros ks [Hks1 Hks2]. rewrite (concat_length PUBKEY_BYTES) by done. change PUBKEY_BYTES with 32 in *.
  apply (bind_all _ _ _ _ _ _ tx_config (fun t => encode_v1_instructions (tx_instructions t) ++ concat (tx_signatures t))
    _ _ _ (reads_config (42 + len ks * 32) 4 mask ltac:(lia) ltac:(lia))).
  { intros t [[(_ & _ & _ & _ & H1 & _) (_ & <- & _)] _]. done. }
  intros cf Hcf. destruct Hcf as (Hc1 & Hc2 & Hc3). rewrite (concat_length 4) by done.
  apply (bind_all _ _ _ _ _ _ tx_instructions (fun t => concat (tx_signatures t)) _ _ _ (reads_v1_instructions nix Hi _)).
  { intros t [[[(_ & _ & _ & _ & _ & [_ H1] & _) (_ & _ & _ & H2 & _)] _] _]. done. }
  intros ix [Hix1 Hix2]. apply offset_all. destruct Hh as (Hv & Hr & Hrs & Hru). unfold is_byte in Hr.
  apply (bind_all _ _ _ _ _ _ tx_signatures (fun t => []) _ _ _ (reads_arrays SIGNATURE_BYTES (hd_required h) ltac:(lia) ltac:(done) _)).
  { intros t [[[[(_ & _ & _ & _ & _ & _ & H1 & _) (<- & _)] _] _] _]. by rewrite app_nil_r. }
  intros sg [Hsg1 Hsg2]. rewrite (concat_length SIGNATURE_BYTES) by done.
  eapply (end_all _ _ _ _ _ (mkTransaction sg h ks bh ix [] mask cf)); [|done| |].
  - unfold v1_ok, v1_prefix, config_ok; simpl. rewrite Hks1, Hix1. unfold is_byte in *. split_and!; (done || lia).
  - unfold v1_frame, v1_signatures_at, v1_instructions_at, v1_config_at, header_frame; simpl. rewrite Hsg1, Hks1, Hv. reflexivity.
  - intros [sg' h' ks' bh' ix' lk' mk' cf'] [[[[[(_ & _ & _ & _ & _ & _ & _ & H1) (H2 & H3 & H4 & _)] H5] H6] H7] H8]. simpl in *. by subst.
Qed.

Lemma version_byte v : is_byte v -> bool_decide (Z.land v 127 = 1) = true <-> v = 1 \/ v = 129.
Proof.
  intros Hv. unfold is_byte in Hv. rewrite bool_decide_eq_true, low_bits. split; [|by intros [-> | ->]].
  intros Hm. pose proof (Z.div_mod v 128 ltac:(lia)). assert (v / 128 = 0 \/ v / 128 = 1) as [Hd|Hd]; [|lia..].
  pose proof (Z.div_pos v 128 ltac:(lia) ltac:(lia)). pose proof (Z.div_lt_upper_bound v 128 2 ltac:(lia) ltac:(lia)). lia.
Qed.
Lemma v1_all : reads_all 0 try_new_as_v1 (fun x : Z * Transaction => (x.1 = 1 \/ x.1 = 129) /\ v1_ok x.2)
  (fun x => encode_v1_with x.1 x.2) (fun x => v1_frame x.2).
Proof.
  unfold try_new_as_v1. change FIXED_V1_PREFIX_LEN with (1 + 41). apply fixed_offset.
  apply (fixed_byte _ _ _ _ (fun x => drop 1 (encode_v1_with x.1 x.2)) _ _ fst); [lia| |].
  { intros [v t] [Hv _]. simpl in *. split; [unfold is_byte; lia|done]. }
  intros v Hv. apply fixed_ensure; [intros x [[H1 _] <-]; by apply version_byte|]. intros Hv1%version_byte; [|done].
  change 41 with (1 + 40). apply (fixed_byte _ _ _ _ (fun x => drop 2 (encode_v1_with x.1 x.2)) _ _ (fun x => hd_required (tx_header x.2))); [lia| |].
  { intros x [[_ (H1 & _)] _]. split; [by destruct_and!|done]. }
  intros a Ha.
  change 40 with (1 + 39). apply (fixed_byte _ _ _ _ (fun x => drop 3 (encode_v1_with x.1 x.2)) _ _ (fun x => hd_readonly_signed (tx_header x.2))); [lia| |].
  { intros x [[[_ (H1 & _)] _] _]. split; [by destruct_and!|done]. }
  intros c Hc.
  change 39 with (1 + 38). apply (fixed_byte _ _ _ _ (fun x => drop 4 (encode_v1_with x.1 x.2)) _ _ (fun x => hd_readonly_unsigned (tx_header x.2))); [lia| |].
  { intros x [[[[_ (H1 & _)] _] _] _]. split; [by destruct_and!|done]. }
  intros d Hd. apply fixed_offset. change (0 + 1 + 1 + 1 + 1) with 4. change 38 with (Z.of_nat 4 + 34).
  apply (fixed_copy _ _ _ _ (fun x => tx_blockhash x.2 ++ len (tx_instructions x.2) :: len (tx_keys x.2) :: encode_v1_variable x.2) _ 4 _ (fun x => tx_mask x.2)); [lia|lia| |].
  { intros x [[[[[_ (_ & H1 & _)] _] _] _] _]. done. }
  intros mask Hm. apply fixed_offset. change (4 + Z.of_nat 4) with 8. change 34 with (HASH_BYTES + 2).
  apply (fixed_skip _ _ _ _ (fun x => len (tx_instructions x.2) :: len (tx_keys x.2) :: encode_v1_variable x.2) _ _ _ (fun x => tx_blockhash x.2)); [lia|done| |].
  { intros x [[[[[[_ (_ & _ & H1 & _)] _] _] _] _] _]. done. }
  intros bh Hbh. change 2 with (1 + 1).
  apply (fixed_byte _ _ _ _ (fun x => len (tx_keys x.2) :: encode_v1_variable x.2) _ _ (fun x => len (tx_instructions x.2))); [lia| |].
  { intros x [[[[[[[_ (_ & _ & _ & _ & _ & [H1 _] & _)] _] _] _] _] _] _]. done. }
  intros nix Hnix. change 1 with (1 + 0) at 2.
  apply (fixed_byte _ _ _ _ (fun x => encode_v1_variable x.2) _ _ (fun x => len (tx_keys x.2))); [lia| |].
  { intros x [[[[[[[[_ (_ & _ & _ & [H1 _] & _)] _] _] _] _] _] _] _]. done. }
  intros nk Hnk. apply fixed_done. change (8 + HASH_BYTES + 1 + 1) with 42.
  eapply (iso_all _ _ _ _ _ _ _ _ (fun t => (v, t))); [apply (v1_variable_all (mkHeader Version1 a c d) mask bh nix nk); done| |].
  - intros t [Ht (H1 & H2 & H3 & H4 & H5)]. simpl. rewrite H1. done.
  - intros [v' [sg [hv hr hs hu] ks bh' ix lk mk cf]]. simpl. unfold v1_prefix. intros Hw. destruct_and!. simpl in *. subst. eexists. split; [|done]. simpl.
    assert (hv = Version1) as -> by (by match goal with H : v1_ok _ |- _ => destruct H as [[? _] _] end). done.
Qed.
