(* ===== verification/ViewExact.v ===== *)
(** * A parsed transaction is the transaction

    The two layouts together: the parser of [transaction-view] accepts exactly the
    serialized transactions, no two of them have the same bytes, and the accessors and
    iterators, which read without checks, stay inside of the bytes and return the parts
    of the transaction. *)

From S2P Require Import Prelude.
From S2P Require Import ViewBytes.
From S2P Require Import ViewFrames.
From S2P Require Import ViewTheorems.
From S2P Require Import ViewV1.

Definition tx_ok (t : Transaction) : Prop := if tx_version t is Version1 then v1_ok t else legacy_ok t.
Definition encode (t : Transaction) : Bytes := if tx_version t is Version1 then encode_v1 t else encode_legacy t.
Definition tx_frame (t : Transaction) : TransactionFrame := if tx_version t is Version1 then v1_frame t else legacy_frame t.

(** ** The parser *)

Lemma legacy_first t : legacy_ok t -> exists n l, encode_legacy t = n :: l /\ 1 <= n <= 12.
Proof. intros ((Hs & _) & _). unfold encode_legacy, encode_array. simpl. by eexists _, _. Qed.
Lemma legacy_version t : legacy_ok t -> tx_version t <> Version1.
Proof. intros (_ & (_ & _ & _ & Hv) & _) He. by rewrite He in Hv. Qed.
Lemma v1_version t : v1_ok t -> tx_version t = Version1.
Proof. by intros ((Hv & _) & _). Qed.
Lemma tx_ok_legacy t : legacy_ok t -> tx_ok t /\ encode t = encode_legacy t /\ tx_frame t = legacy_frame t.
Proof. intros Ht. pose proof (legacy_version t Ht). unfold tx_ok, encode, tx_frame. by destruct (tx_version t). Qed.
Lemma tx_ok_v1 t : v1_ok t -> tx_ok t /\ encode t = encode_v1 t /\ tx_frame t = v1_frame t.
Proof. intros Ht. unfold tx_ok, encode, tx_frame. by rewrite (v1_version t Ht). Qed.
Lemma tx_ok_cases t : tx_ok t -> legacy_ok t \/ v1_ok t.
Proof. unfold tx_ok. destruct (tx_version t); auto. Qed.

Lemma frame_cases b : bytes_ok b ->
  (exists t, tx_ok t /\ b = encode t /\ transaction_frame_new b = Some (Ok (tx_frame t))) \/
  ((exists e, transaction_frame_new b = Some (Err e)) /\ forall t, tx_ok t -> b <> encode t).
Proof.
  intros Hb. assert (forall t, encode_v1 t <> []) as Hv1 by done. unfold transaction_frame_new. destruct b as [|x b']; cbn [is_legacy_or_v0].
  { right. split; [by eexists|]. intros t [Ht|Ht]%tx_ok_cases.
    - destruct (tx_ok_legacy t Ht) as (_ & -> & _). destruct (legacy_first t Ht) as (n & l & -> & _). done.
    - destruct (tx_ok_v1 t Ht) as (_ & -> & _). by intros ?%eq_sym%Hv1. }
  assert (is_byte x) as Hx by (destruct Hb as [Hb _]; by apply Forall_cons in Hb as [? _]). unfold MESSAGE_VERSION_PREFIX. rewrite high_bit by done.
  case_bool_decide as Hs.
  - destruct (ra_spec _ _ _ _ _ legacy_all (x :: b') Hb ltac:(simpl; lia)) as [(t & Ht & He & ->)|[(e & o & ->) Hn]].
    + left. exists t. destruct (tx_ok_legacy t Ht) as (H1 & -> & ->). done.
    + right. split; [by eexists|]. intros t [Ht|Ht]%tx_ok_cases.
      * destruct (tx_ok_legacy t Ht) as (_ & -> & _). by apply Hn.
      * destruct (tx_ok_v1 t Ht) as (_ & -> & _). intros [= -> _]. lia.
  - destruct (ra_spec _ _ _ _ _ v1_all (x :: b') Hb ltac:(simpl; lia)) as [([v t] & [Hv Ht] & He & ->)|[(e & o & ->) Hn]]; simpl in *.
    + left. exists t. destruct (tx_ok_v1 t Ht) as (H1 & -> & ->). destruct Hv as [-> | ->]; [injection He; lia|done].
    + right. split; [by eexists|]. intros t [Ht|Ht]%tx_ok_cases.
      * destruct (tx_ok_legacy t Ht) as (_ & -> & _). destruct (legacy_first t Ht) as (n & l & -> & Hl). intros [= -> _]. lia.
      * destruct (tx_ok_v1 t Ht) as (_ & -> & _). apply (Hn (129, t)). auto.
Qed.
Lemma encode_inj t t' : tx_ok t -> tx_ok t' -> encode t = encode t' -> t = t'.
Proof.
  intros [Ht|Ht]%tx_ok_cases [Ht'|Ht']%tx_ok_cases.
  - destruct (tx_ok_legacy t Ht) as (_ & -> & _), (tx_ok_legacy t' Ht') as (_ & -> & _). by apply (ra_inj _ _ _ _ _ legacy_all).
  - destruct (tx_ok_legacy t Ht) as (_ & -> & _), (tx_ok_v1 t' Ht') as (_ & -> & _). destruct (legacy_first t Ht) as (n & l & -> & Hl). intros [= -> _]. lia.
  - destruct (tx_ok_v1 t Ht) as (_ & -> & _), (tx_ok_legacy t' Ht') as (_ & -> & _). destruct (legacy_first t' Ht') as (n & l & -> & Hl). intros [= <- _]. lia.
  - destruct (tx_ok_v1 t Ht) as (_ & -> & _), (tx_ok_v1 t' Ht') as (_ & -> & _). intros He.
    assert ((129, t) = (129, t')) as [= ->]; [|done]. apply (ra_inj _ _ _ _ _ v1_all); simpl; auto.
Qed.

(** ** Reading without checks *)

Lemma raw_parts_there size b o l : 0 < size -> 0 <= o <= len b -> arrays size l -> has_at (concat l) b o -> raw_parts size b o (len l) = Some l.
Proof.
  intros Hs Ho Ha Hat%has_at_slice; [|done]. rewrite (concat_length size) in Hat by done. unfold raw_parts. rewrite Hat. cbn.
  rewrite Nat2Z.id. by rewrite chunks_concat by (done || lia).
Qed.
Lemma slice_data_there b o l : bytes_ok b -> 0 <= o <= len b -> has_at l b o -> unchecked_read_slice_data (len l) b o = Some (Ok l, o + len l).
Proof.
  intros Hb Ho Hat. pose proof (has_at_bound _ _ _ Ho Hat) as Hl. unfold unchecked_read_slice_data, mbind, Parse_bind, pointer.
  rewrite bool_decide_true by done. cbn [rust_assert mbind option_bind]. unfold move_offset, wrapping_mul, deref. rewrite Z.mul_1_r.
  destruct Hb as [_ Hb]. unfold isize_max in Hb. rewrite Z.mod_small by lia. rewrite has_at_slice by done. cbn. by rewrite wrapping_add_exact by (unfold u64_max; lia).
Qed.
Lemma byte_there b o x : bytes_ok b -> 0 <= o <= len b -> has_at [x] b o -> unchecked_read_byte b o = Some (Ok x, o + 1).
Proof.
  intros Hb Ho Hat%get_has_at; [|lia]. unfold unchecked_read_byte. rewrite Hat. cbn. by rewrite (offset_add b) by (done || lia).
Qed.
Lemma move_there b o n : bytes_ok b -> 0 <= o <= len b -> 0 <= n <= 2 ^ 62 -> move_offset n b o = Some (Ok tt, o + n).
Proof. intros Hb Ho Hn. unfold move_offset. by rewrite (offset_add b). Qed.

(** *** Instructions *)

Lemma instruction_there ix b o : bytes_ok b -> 0 <= o <= len b -> has_at (encode_instruction ix) b o ->
  for_legacy_and_v0 (instruction_frame ix) b o = Some (Ok ix, o + len (encode_instruction ix)).
Proof.
  intros Hb Ho Hat. destruct ix as [p a d]. unfold encode_instruction in *. cbn [ix_program_id_index ix_accounts ix_data] in *.
  pose proof (encode_length_bound (len a)). pose proof (encode_length_bound (len d)). pose proof (has_at_bound _ _ _ Ho Hat) as Hl.
  rewrite length_cons, !length_app in Hl. change (p :: ?l) with ([p] ++ l) in Hat. apply has_at_app in Hat as [H1 Hat]; [|lia]. change (len [p]) with 1 in Hat.
  apply has_at_app in Hat as [H2 Hat]; [|lia]. apply has_at_app in Hat as [H3 Hat]; [|lia]. apply has_at_app in Hat as [H4 H5]; [|lia].
  unfold for_legacy_and_v0, instruction_frame, mbind, Parse_bind. cbn [if_num_accounts_len if_num_accounts if_data_len_len if_data_len ix_accounts ix_data].
  rewrite (byte_there _ _ p), move_there, slice_data_there, move_there, slice_data_there by (done || lia).
  unfold mret, Parse_ret. do 2 f_equal. rewrite length_cons, !length_app. lia.
Qed.
Lemma wrapping16 a : 0 <= a < 65535 -> wrapping_add16 a 1 = a + 1.
Proof. intros Ha. apply Z.mod_small. lia. Qed.
Lemma legacy_iterate b n fs l : bytes_ok b -> n <= 65535 -> forall i o, 0 <= o <= len b -> 0 <= i -> n = i + len l ->
  drop (Z.to_nat i) fs = instruction_frame <$> l -> has_at (concat (encode_instruction <$> l)) b o ->
  iter_collect (instructions_next b) (S (length l)) (LegacyAndV0Iterator o n i fs) = Some l.
Proof.
  intros Hb Hn. induction l as [|ix l IH]; intros i o Ho Hi Hni Hd Hat.
  { cbn [iter_collect length instructions_next]. rewrite bool_decide_true by (simpl in *; lia). done. }
  rewrite fmap_cons in Hat. rewrite fmap_cons in Hd. cbn [concat] in Hat. apply has_at_app in Hat as [H1 H2]; [|lia]. pose proof (has_at_bound _ _ _ Ho H1).
  rewrite length_cons in Hni. remember (S (length l)) as fuel. cbn [length]. rewrite <-Heqfuel. cbn [iter_collect instructions_next].
  rewrite bool_decide_false by lia. assert (fs !! Z.to_nat i = Some (instruction_frame ix)) as Hlook
    by (rewrite <-(Nat.add_0_r (Z.to_nat i)), <-lookup_drop, Hd; done).
  rewrite Hlook. cbn [mbind option_bind]. rewrite (instruction_there ix) by done. rewrite wrapping16 by lia. cbn [mbind option_bind]. rewrite (IH (i + 1)); [done|lia|lia|lia| |done].
  rewrite Z2Nat.inj_add by lia. rewrite <-drop_drop, Hd. done.
Qed.
Lemma v1_instruction_there ix b o : bytes_ok b -> 0 <= o <= len b -> has_at (payload ix) b o ->
  for_v1 (header_of ix) b o = Some (Ok ix, o + len (payload ix)).
Proof.
  intros Hb Ho Hat. pose proof (has_at_bound _ _ _ Ho Hat) as Hl. destruct ix as [p a d]. unfold payload in *. cbn [ix_accounts ix_data] in *. rewrite length_app in *.
  apply has_at_app in Hat as [H1 H2]; [|lia]. unfold for_v1, header_of, mbind, Parse_bind. cbn [vh_num_accounts vh_data_len vh_program_id_index ix_program_id_index ix_accounts ix_data].
  rewrite !slice_data_there by (done || lia). unfold mret, Parse_ret. do 2 f_equal. lia.
Qed.
Lemma v1_iterate b n l : bytes_ok b -> n <= 65535 -> Forall v1_instruction_ok l -> forall i o1 o2, 0 <= o1 <= len b -> 0 <= o2 <= len b -> 0 <= i -> n = i + len l ->
  has_at (encode_v1_headers l) b o1 -> has_at (concat (payload <$> l)) b o2 ->
  iter_collect (instructions_next b) (S (length l)) (V1Iterator i n o1 o2) = Some l.
Proof.
  intros Hb Hn. induction 1 as [|ix l Hx HF IH]; intros i o1 o2 Ho1 Ho2 Hi Hni Hat1 Hat2.
  { cbn [iter_collect length instructions_next]. rewrite bool_decide_true by (simpl in *; lia). done. }
  unfold encode_v1_headers in Hat1. rewrite !fmap_cons in *. cbn [concat] in *. apply has_at_app in Hat1 as [H1 H2]; [|lia]. apply has_at_app in Hat2 as [H3 H4]; [|lia].
  pose proof (has_at_bound _ _ _ Ho1 H1). pose proof (has_at_bound _ _ _ Ho2 H3). rewrite encode_v1_header_length in *.
  rewrite length_cons in Hni. remember (S (length l)) as fuel. cbn [length]. rewrite <-Heqfuel. cbn [iter_collect instructions_next].
  rewrite bool_decide_false by lia. rewrite (header_there (header_of ix)) by done. rewrite v1_instruction_there by done. rewrite wrapping16 by lia. cbn [mbind option_bind].
  by rewrite (IH (i + 1)) by (done || lia).
Qed.

(** *** Lookups *)

Lemma reads_there {A X} o (p : Parse A) (wf : X -> Prop) enc out b x : reads_at o p wf enc out -> bytes_ok b -> 0 <= o <= len b -> wf x ->
  has_at (enc x) b o -> p b o = Some (Ok (out x), o + len (enc x)).
Proof.
  intros [F S] Hb Ho Wx Hat. destruct (S b Hb Ho) as [(y & Wy & Hy & ->)|[_ Hn]]; [|by destruct (Hn x)].
  by assert (x = y) as -> by (by eapply F).
Qed.
Lemma reads_deref n : 0 <= n <= 2 ^ 62 ->
  reads (current_ptr ← pointer; (check_remaining n ;; move_offset n) ;; deref current_ptr n) (fun l => len l = n) (fun l => l) (fun l _ => l).
Proof.
  intros Hn o. split; [intros x y l; apply fixed_free|]. intros b Hb Ho. unfold mbind, Parse_bind, pointer. rewrite bool_decide_true by done.
  cbn [rust_assert mbind option_bind]. rewrite remaining_exact by done. case_bool_decide as Hr.
  - left. destruct (slice b o n) as [l|] eqn:Es; [|unfold slice in Es; rewrite bool_decide_true in Es by lia; done].
    destruct (slice_has_at _ _ _ _ Es) as (Hl & Hlen & _). exists l. split; [done|]. split; [done|].
    unfold move_offset, deref. rewrite (offset_add b) by (done || lia). rewrite Es, Hlen. done.
  - right. split; [by eexists _, _|]. intros l Hlen Hl. pose proof (has_at_bound l b o Ho Hl). lia.
Qed.
Lemma reads_slice_data n : is_length n -> reads (read_slice_data n) (fun l => len l = n) (fun l => l) (fun l _ => l).
Proof.
  intros Hn. unfold is_length in Hn. unfold read_slice_data, advance_offset_for_array, wrapping_mul. rewrite Z.mul_1_r, Z.mod_small by lia. apply reads_deref. lia.
Qed.
Lemma reads_lookup : reads read_lookup lookup_ok encode_lookup (fun l _ => l).
Proof.
  intros o. unfold read_lookup. apply (reads_bind _ _ _ _ _ _ al_account_key (fun l => encode_length (len (al_writable_indexes l)) ++ al_writable_indexes l ++
    encode_length (len (al_readonly_indexes l)) ++ al_readonly_indexes l) _ _ _ (reads_deref PUBKEY_BYTES ltac:(done) o)); [by intros l [? _]|].
  intros k Hk. apply (then_length _ _ _ (fun l => al_writable_indexes l ++ encode_length (len (al_readonly_indexes l)) ++ al_readonly_indexes l)
    _ _ (fun l => len (al_writable_indexes l))); [by intros l [(_ & H1 & _) _]|].
  intros n Hn. apply (reads_bind _ _ _ _ _ _ al_writable_indexes (fun l => encode_length (len (al_readonly_indexes l)) ++ al_readonly_indexes l)
    _ _ _ (reads_slice_data n Hn _)); [by intros l [_ Hl]|].
  intros w Hw. apply (then_length _ _ _ (fun l => al_readonly_indexes l) _ _ (fun l => len (al_readonly_indexes l))); [by intros l [[[(_ & _ & H1) _] _] _]|].
  intros m Hm. apply (reads_bind _ _ _ _ _ _ al_readonly_indexes (fun l => []) _ _ _ (reads_slice_data m Hm _)); [intros l [_ Hl]; by rewrite app_nil_r|].
  intros r Hr. subst n m. apply reads_ret with (mkLookup k w r); try done.
  intros [k' w' r'] [[[[[_ Hk'] _] Hw'] _] Hr']. simpl in *. by subst.
Qed.
Lemma lookups_next_there b x o n i : bytes_ok b -> lookup_ok x -> 0 <= o <= len b -> has_at (encode_lookup x) b o -> 0 <= i < n -> n <= 255 ->
  lookups_next b (mkAtlIterator o n i) = Some (Some x, mkAtlIterator (o + len (encode_lookup x)) n (i + 1)).
Proof.
  intros Hb Hx Ho Hat Hi Hn. unfold lookups_next. cbn [ai_index ai_num_address_table_lookups ai_offset]. rewrite bool_decide_true by lia.
  rewrite (reads_there _ _ _ _ _ b x (reads_lookup o)) by done. cbn [mbind option_bind].
  by assert (wrapping_add8 i 1 = i + 1) as -> by (apply Z.mod_small; lia).
Qed.
Lemma lookups_iterate b n l : bytes_ok b -> n <= 255 -> Forall lookup_ok l -> forall i o, 0 <= o <= len b -> 0 <= i -> n = i + len l ->
  has_at (concat (encode_lookup <$> l)) b o ->
  iter_collect (lookups_next b) (S (length l)) (mkAtlIterator o n i) = Some l.
Proof.
  intros Hb Hn. induction 1 as [|x l Hx HF IH]; intros i o Ho Hi Hni Hat.
  { cbn [iter_collect length]. unfold lookups_next. cbn [ai_index ai_num_address_table_lookups]. rewrite bool_decide_false by (simpl in *; lia). done. }
  rewrite fmap_cons in Hat. cbn [concat] in *. apply has_at_app in Hat as [H1 H2]; [|lia]. pose proof (has_at_bound _ _ _ Ho H1).
  rewrite length_cons in Hni. remember (S (length l)) as fuel. cbn [length]. rewrite <-Heqfuel. cbn [iter_collect].
  rewrite (lookups_next_there b x) by (done || lia). cbn [mbind option_bind]. by rewrite (IH (i + 1)) by (done || lia).
Qed.

(** *** The configuration *)

(** The values that a transaction of version 1 can set. *)
Record Config := mkConfig { cf_fee : option Z; cf_units : option Z; cf_data_size : option Z; cf_heap : option Z }.
Definition config_mask (c : Config) : Z :=
  (if cf_fee c is Some _ then 3 else 0) + (if cf_units c is Some _ then 4 else 0) +
  (if cf_data_size c is Some _ then 8 else 0) + (if cf_heap c is Some _ then 16 else 0).
Definition encode_value (size : nat) (x : option Z) : Bytes := match x with Some v => le_bytes size v | None => [] end.
Definition encode_config (c : Config) : Bytes :=
  encode_value 8 (cf_fee c) ++ encode_value 4 (cf_units c) ++ encode_value 4 (cf_data_size c) ++ encode_value 4 (cf_heap c).
Definition config_reads (c : Config) (f : TransactionConfigFrame) (b : Bytes) : Prop :=
  priority_fee_lamports f b = Some (cf_fee c) /\ compute_unit_limit f b = Some (cf_units c) /\
  loaded_accounts_data_size_limit f b = Some (cf_data_size c) /\ requested_heap_size f b = Some (cf_heap c).

Definition bits_mask (f u d h : bool) : Z := (if f then 3 else 0) + (if u then 4 else 0) + (if d then 8 else 0) + (if h then 16 else 0).
Lemma mask_bits mask : 0 <= mask < 2 ^ 32 -> sanitize_mask mask = Ok tt -> exists f u d h, mask = bits_mask f u d h.
Proof.
  intros Hm. unfold sanitize_mask. case_bool_decide as Hl; cbn [negb]; [|done]. destruct (xorb _ _) eqn:Ex; [done|]. intros _.
  assert (mask = mask mod 32) as Hmod.
  { rewrite <-(Z.mod_small mask (2 ^ 32)) at 1 by done. rewrite <-(land_low mask 32) by done.
    change (2 ^ 32 - 1) with (Z.lor (2 ^ 32 - 1 - ALLOWED_TRANSACTION_CONFIG_MASK) (2 ^ 5 - 1)). by rewrite Z.land_lor_distr_r, Hl, Z.lor_0_l, land_low. }
  pose proof (Z.mod_pos_bound mask 32 ltac:(lia)).
  assert (forallb (fun m => xorb (has_bit m 0) (has_bit m 1) || existsb (fun f => existsb (fun u => existsb (fun d => existsb (fun h =>
    bool_decide (m = bits_mask f u d h)) [false; true]) [false; true]) [false; true]) [false; true]) (seqZ 0 32) = true) as Hall by (vm_compute; reflexivity).
  rewrite forallb_forall in Hall. specialize (Hall mask ltac:(apply list_elem_of_In, elem_of_seqZ; lia)). rewrite Ex in Hall. cbn [orb] in Hall.
  apply existsb_exists in Hall as (f & _ & (u & _ & (d & _ & (h & _ & He)%existsb_exists)%existsb_exists)%existsb_exists).
  exists f, u, d, h. by apply bool_decide_eq_true in He.
Qed.
(** A value is taken off the words. *)
Definition take_value (c : bool) (size : nat) (w : Bytes) : option Z := if c then Some (le_value (take size w)) else None.
Definition drop_value (c : bool) (size : nat) (w : Bytes) : Bytes := if c then drop size w else w.
Definition decode_config (f u d h : bool) (w : Bytes) : Config :=
  let w1 := drop_value f 8 w in let w2 := drop_value u 4 w1 in let w3 := drop_value d 4 w2 in
  mkConfig (take_value f 8 w) (take_value u 4 w1) (take_value d 4 w2) (take_value h 4 w3).
Lemma take_value_encode (c : bool) size w : Forall is_byte w -> ((if c then size else 0) <= length w)%nat ->
  encode_value size (take_value c size w) ++ drop_value c size w = w.
Proof.
  intros HF Hl. destruct c; [|done]. cbn [encode_value take_value drop_value]. replace size with (length (take size w)) at 1 by (rewrite length_take; lia).
  rewrite le_bytes_value by (by apply Forall_take). apply take_drop.
Qed.
Lemma drop_value_bytes c size w : Forall is_byte w -> Forall is_byte (drop_value c size w).
Proof. destruct c; [apply Forall_drop|done]. Qed.
Lemma drop_value_length (c : bool) size w : length (drop_value c size w) = (length w - if c then size else 0)%nat.
Proof. destruct c; [apply length_drop|cbn; lia]. Qed.
Lemma decode_config_ok f u d h w : Forall is_byte w -> len w = 4 * count_ones (bits_mask f u d h) ->
  config_mask (decode_config f u d h w) = bits_mask f u d h /\ encode_config (decode_config f u d h w) = w.
Proof.
  intros HF Hl. split; [by destruct f, u, d, h|]. unfold encode_config, decode_config. cbn [cf_fee cf_units cf_data_size cf_heap].
  assert (length w = (if f then 8 else 0) + (if u then 4 else 0) + (if d then 4 else 0) + (if h then 4 else 0))%nat as Hw
    by (destruct f, u, d, h; vm_compute count_ones in Hl; lia).
  refine (eq_trans (f_equal (app _) _) (take_value_encode f 8 w HF ltac:(lia))).
  refine (eq_trans (f_equal (app _) _) (take_value_encode u 4 _ (drop_value_bytes _ _ _ HF) _)); [|rewrite drop_value_length; lia].
  refine (eq_trans (f_equal (app _) _) (take_value_encode d 4 _ (drop_value_bytes _ _ _ (drop_value_bytes _ _ _ HF)) _)); [|rewrite !drop_value_length; lia].
  refine (eq_trans _ (take_value_encode h 4 _ (drop_value_bytes _ _ _ (drop_value_bytes _ _ _ (drop_value_bytes _ _ _ HF))) _)); [|rewrite !drop_value_length; lia].
  rewrite (nil_length_inv (drop_value h 4 _)); [by rewrite app_nil_r|]. rewrite !drop_value_length. lia.
Qed.
Lemma slice_inside w b o k n : 0 <= o <= len b -> has_at w b o -> 0 <= k -> 0 <= n -> k + n <= len w ->
  slice b (o + k) n = Some (take (Z.to_nat n) (drop (Z.to_nat k) w)).
Proof.
  intros Ho Hat Hk Hn Hl. pose proof (has_at_bound _ _ _ Ho Hat). unfold slice. rewrite bool_decide_true by lia. f_equal. destruct Hat as [l Hat].
  rewrite Z2Nat.inj_add, <-drop_drop, Hat by lia. rewrite drop_app_le by lia. apply take_app_le. rewrite length_drop. lia.
Qed.
Lemma config_value_there f u d h w b o bit size k : 0 <= o <= 65535 -> o <= len b -> has_at w b o -> has_bit (bits_mask f u d h) bit = true ->
  0 <= k <= 32 -> 0 <= size -> 4 * k + size <= len w ->
  as_u8 (count_ones (Z.land (bits_mask f u d h) ((Z.shiftl 1 bit mod 2 ^ 32 - 1) mod 2 ^ 32))) = k ->
  config_value size bit (mkConfigFrame 4 (bits_mask f u d h) o (count_ones (bits_mask f u d h))) b =
  Some (Some (le_value (take (Z.to_nat size) (drop (Z.to_nat (4 * k)) w)))).
Proof.
  intros Ho Hob Hat Hbit Hk Hs Hl Hc. unfold config_value, word_offset, word_index_for_bit. cbn [tc_mask_offset tc_mask tc_values_offset].
  change (config_is_present _) with true. rewrite Hbit. cbn [negb orb]. cbv zeta. rewrite Hc. cbn [fmap option_fmap option_map]. unfold wrapping_mul. rewrite (Z.mod_small (k * 4)) by lia. rewrite wrapping_add_exact by (unfold u64_max; lia).
  unfold unchecked_copy_value. rewrite Z.mul_comm. by rewrite (slice_inside w) by (done || lia).
Qed.
(** The values by the mask. *)
Definition config_of (mask : Z) (l : list Bytes) : Config :=
  decode_config (has_bit mask 0) (has_bit mask 2) (has_bit mask 3) (has_bit mask 4) (concat l).
Lemma config_there mask l b o : 0 <= mask < 2 ^ 32 -> config_ok mask l -> bytes_ok b -> 0 <= o <= 65535 -> o <= len b -> has_at (concat l) b o ->
  config_mask (config_of mask l) = mask /\ encode_config (config_of mask l) = concat l /\
  config_reads (config_of mask l) (mkConfigFrame 4 mask o (count_ones mask)) b.
Proof.
  intros Hm (Hs & Hl & Ha) Hb Ho Hob Hat. destruct (mask_bits mask Hm Hs) as (f & u & d & h & ->).
  pose proof (has_at_bytes _ _ _ Hb Hat) as HF. assert (len (concat l) = 4 * count_ones (bits_mask f u d h)) as Hw by (rewrite (concat_length 4) by done; lia).
  assert (config_of (bits_mask f u d h) l = decode_config f u d h (concat l)) as -> by (by unfold config_of; destruct f, u, d, h).
  destruct (decode_config_ok f u d h _ HF Hw) as [H1 H2]. split; [done|]. split; [done|].
  clear H1 H2 Hs Hl Ha Hm HF. unfold config_reads, priority_fee_lamports, compute_unit_limit, loaded_accounts_data_size_limit, requested_heap_size.
  assert (forall bit size, has_bit (bits_mask f u d h) bit = false ->
    config_value size bit (mkConfigFrame 4 (bits_mask f u d h) o (count_ones (bits_mask f u d h))) b = Some None) as Hno.
  { intros bit size Hbit. unfold config_value, word_offset, word_index_for_bit. cbn [tc_mask]. rewrite Hbit, orb_true_r. done. }
  unfold decode_config. cbn [cf_fee cf_units cf_data_size cf_heap]. split; [|split; [|split]].
  - destruct f; [|apply Hno; by destruct u, d, h]. rewrite (config_value_there _ _ _ _ (concat l) _ _ _ _ 0); try done; try lia; destruct u, d, h; try done; vm_compute count_ones in Hw; lia.
  - destruct u; [|apply Hno; by destruct f, d, h]. rewrite (config_value_there _ _ _ _ (concat l) _ _ _ _ (if f then 2 else 0)); try done; destruct f, d, h; try done; vm_compute count_ones in Hw; lia.
  - destruct d; [|apply Hno; by destruct f, u, h]. rewrite (config_value_there _ _ _ _ (concat l) _ _ _ _ ((if f then 2 else 0) + if u then 1 else 0)); try done; destruct f, u, h; try done; vm_compute count_ones in Hw; simpl; rewrite ?drop_drop; try done; lia.
  - destruct h; [|apply Hno; by destruct f, u, d]. rewrite (config_value_there _ _ _ _ (concat l) _ _ _ _ ((if f then 2 else 0) + (if u then 1 else 0) + if d then 1 else 0)); try done; destruct f, u, d; try done; vm_compute count_ones in Hw; simpl; rewrite ?drop_drop; try done; lia.
Qed.
