(* ===== verification/ViewAccess.v ===== *)
(** * The accessors of a parsed transaction

    Every accessor and iterator of the frame, on the bytes it was made from: which
    part of the transaction it returns, and that it stays inside of the bytes. *)

From S2P Require Import Prelude.
From S2P Require Import ViewBytes.
From S2P Require Import ViewFrames.
From S2P Require Import ViewTheorems.
From S2P Require Import ViewV1.
From S2P Require Import ViewExact.

(** What is signed. *)
Definition legacy_message (t : Transaction) : Bytes :=
  encode_header (tx_header t) ++ encode_array (tx_keys t) ++ tx_blockhash t ++ encode_instructions (tx_instructions t) ++ encode_tail t.
Definition v1_message (t : Transaction) : Bytes :=
  129 :: hd_required (tx_header t) :: hd_readonly_signed (tx_header t) :: hd_readonly_unsigned (tx_header t) ::
  le_bytes 4 (tx_mask t) ++ tx_blockhash t ++ len (tx_instructions t) :: len (tx_keys t) ::
  concat (tx_keys t) ++ concat (tx_config t) ++ encode_v1_instructions (tx_instructions t).
Definition message (t : Transaction) : Bytes := if tx_version t is Version1 then v1_message t else legacy_message t.

(** The configuration that the getters return is the one in the bytes. *)
Definition config_view (t : Transaction) (f : TransactionFrame) (b : Bytes) : Prop :=
  let c := config_of (tx_mask t) (tx_config t) in
  config_mask c = tx_mask t /\ encode_config c = concat (tx_config t) /\ config_reads c (tf_transaction_config_frame f) b.
(** The accessors, without a bound on the length of the bytes. *)
Record access (t : Transaction) (f : TransactionFrame) (b : Bytes) : Prop := {
  ac_header : tf_message_header f = mkHeaderFrame (mh_offset (tf_message_header f)) (tx_version t) (hd_required (tx_header t))
    (hd_readonly_signed (tx_header t)) (hd_readonly_unsigned (tx_header t));
  ac_keys : static_account_keys f b = Some (tx_keys t);
  ac_blockhash : recent_blockhash f b = Some (tx_blockhash t);
  ac_instructions : instructions_iter f b = Some (tx_instructions t);
  ac_counts : num_signatures f = len (tx_signatures t) /\ num_static_account_keys f = len (tx_keys t) /\
    num_instructions f = len (tx_instructions t) /\ num_address_table_lookups f = len (tx_lookups t);
  ac_totals : total_writable_lookup_accounts f = total_writable (tx_lookups t) /\
    total_readonly_lookup_accounts f = total_readonly (tx_lookups t);
  ac_config : config_view t f b;
  ac_signatures_safe : is_Some (signatures f b);
  ac_lookups_safe : is_Some (address_table_lookup_iter f b);
}.
(** The ones whose offsets must fit into 16 bits. *)
Record access_far (t : Transaction) (f : TransactionFrame) (b : Bytes) : Prop := {
  ac_signatures : signatures f b = Some (tx_signatures t);
  ac_lookups : address_table_lookup_iter f b = Some (tx_lookups t);
  ac_message : message_data f b = Some (message t);
}.

(** ** Legacy and version 0 *)

Lemma u16_small x : 0 <= x <= 65535 -> as_u16 x = x.
Proof. intros Hx. apply Z.mod_small. lia. Qed.
Lemma u16_below x : 0 <= x -> 0 <= as_u16 x <= x.
Proof. intros Hx. unfold as_u16. pose proof (Z.mod_pos_bound x (2 ^ 16) ltac:(lia)). pose proof (Z.mod_le x (2 ^ 16) Hx ltac:(lia)). lia. Qed.
Lemma has_at_self b : has_at b b 0.
Proof. by exists []; rewrite app_nil_r. Qed.

(** The parts, where they are. *)
Record legacy_parts (t : Transaction) (b : Bytes) : Prop := {
  lp_signatures : has_at (concat (tx_signatures t)) b 1;
  lp_message : has_at (legacy_message t) b (header_at t);
  lp_keys : has_at (concat (tx_keys t)) b (keys_at t + 1);
  lp_blockhash : has_at (tx_blockhash t) b (blockhash_at t);
  lp_instructions : has_at (concat (encode_instruction <$> tx_instructions t)) b
    (instructions_at t + len (encode_length (len (tx_instructions t))));
  lp_tail : has_at (encode_tail t) b (tail_at t);
  lp_end : tail_at t + len (encode_tail t) = len b;
  lp_near : 1 <= header_at t <= 769 /\ header_at t + 3 <= keys_at t <= 773 /\ keys_at t + 1 <= blockhash_at t <= 1990 /\
    instructions_at t = blockhash_at t + 32 /\ instructions_at t + len (encode_length (len (tx_instructions t))) <= tail_at t;
}.
Lemma legacy_parts_ok t : legacy_ok t -> legacy_parts t (encode_legacy t).
Proof.
  intros ((Hs & Hsa) & Hh & (Hk & Hka) & Hb & _). change MAX_SIGNATURES_PER_PACKET with 12 in Hs.
  change LEGACY_OR_V0_MAX_STATIC_ACCOUNTS_PER_PACKET with 38 in Hk.
  assert (header_at t = 1 + len (tx_signatures t) * 64) as H1
    by (unfold header_at, encode_array; rewrite length_cons, Nat2Z.inj_succ, (concat_length 64) by done; lia).
  assert (3 <= len (encode_header (tx_header t)) <= 4) as H2 by (unfold encode_header; destruct (tx_version t); simpl; lia).
  assert (len (encode_array (tx_keys t)) = 1 + len (tx_keys t) * 32) as H3
    by (unfold encode_array; rewrite length_cons, Nat2Z.inj_succ, (concat_length 32) by done; lia).
  assert (len (encode_instructions (tx_instructions t)) = len (encode_length (len (tx_instructions t))) + len (concat (encode_instruction <$> tx_instructions t))) as H4
    by (unfold encode_instructions; rewrite length_app; lia).
  assert (1 <= header_at t <= 769 /\ header_at t + 3 <= keys_at t <= 773 /\ keys_at t + 1 <= blockhash_at t <= 1990 /\
    instructions_at t = blockhash_at t + 32 /\ instructions_at t + len (encode_length (len (tx_instructions t))) <= tail_at t) as Hnear
    by (unfold tail_at, instructions_at, blockhash_at, keys_at, HASH_BYTES in *; lia).
  pose proof (has_at_self (encode_legacy t)) as Hat. unfold encode_legacy in Hat at 1. fold (legacy_message t) in Hat.
  apply has_at_app in Hat as [A1 A2]; [|lia]. change (0 + len (encode_array (tx_signatures t))) with (header_at t) in A2. pose proof A2 as Am.
  unfold legacy_message in A2. apply has_at_app in A2 as [_ A2]; [|lia]. fold (keys_at t) in A2.
  apply has_at_app in A2 as [A3 A2]; [|lia]. fold (blockhash_at t) in A2.
  apply has_at_app in A2 as [A4 A2]; [|lia]. rewrite Hb in A2. fold (instructions_at t) in A2.
  apply has_at_app in A2 as [A5 A6]; [|lia]. fold (tail_at t) in A6.
  unfold encode_instructions in A5. apply has_at_app in A5 as [_ A5]; [|lia].
  unfold encode_array in A1, A3. apply (has_at_app [len (tx_signatures t)]) in A1 as [_ A1]; [|lia]. apply (has_at_app [len (tx_keys t)]) in A3 as [_ A3]; [|lia].
  split; try done. unfold encode_legacy, tail_at, instructions_at, blockhash_at, keys_at, header_at. rewrite !length_app. lia.
Qed.

(** The lookups are read with checks, so from anywhere. *)
Lemma lookups_next_stops b n i o : ~ i < n \/ (exists e o', read_lookup b o = Some (Err e, o')) ->
  exists it, lookups_next b (mkAtlIterator o n i) = Some (None, it).
Proof.
  intros Hs. unfold lookups_next. cbn [ai_index ai_num_address_table_lookups ai_offset]. case_bool_decide; [|by eexists].
  destruct Hs as [?|(e & o' & ->)]; [done|]. by eexists.
Qed.
Lemma lookups_total b n : bytes_ok b -> n <= 255 -> forall fuel i o, 0 <= o <= len b -> 0 <= i <= n -> n - i < Z.of_nat fuel ->
  is_Some (iter_collect (lookups_next b) fuel (mkAtlIterator o n i)).
Proof.
  intros Hb Hn. induction fuel as [|fuel IH]; intros i o Ho Hi Hf; [lia|]. cbn [iter_collect].
  destruct (decide (i < n)) as [Hin|Hin].
  2:{ destruct (lookups_next_stops b n i o) as [it ->]; [by left|by eexists]. }
  destruct (rd_spec _ _ _ _ _ (reads_lookup o) b Hb Ho) as [(x & Wx & Hx & _)|[(e & o' & He) _]].
  - rewrite (lookups_next_there b x) by (done || lia). cbn [mbind option_bind]. pose proof (has_at_bound _ _ _ Ho Hx).
    destruct (IH (i + 1) (o + len (encode_lookup x))) as [l ->]; [lia..|]. by eexists.
  - destruct (lookups_next_stops b n i o) as [it ->]; [right; by eexists _, _|by eexists].
Qed.
Lemma total_bounds l : 0 <= total_writable l /\ 0 <= total_readonly l.
Proof.
  unfold total_writable, total_readonly, sumZ. induction l as [|x l [I1 I2]]; [done|]. rewrite !fmap_cons. cbn [foldr]. split; lia.
Qed.

Section legacy.
Context (t : Transaction) (Ht : legacy_ok t) (Hb : bytes_ok (encode_legacy t)).
Abbreviation b := (encode_legacy t).
Abbreviation f := (legacy_frame t).

Lemma legacy_signatures : signatures f b = Some (tx_signatures t).
Proof.
  destruct (legacy_parts_ok t Ht) as [A1 _ _ _ _ _ A7 A8]. apply (raw_parts_there SIGNATURE_BYTES _ 1); [done| |by destruct Ht as ((_ & ?) & _)|done].
  lia.
Qed.
Lemma legacy_keys : static_account_keys f b = Some (tx_keys t).
Proof.
  destruct (legacy_parts_ok t Ht) as [_ _ A3 _ _ _ A7 A8]. unfold static_account_keys. cbn [tf_static_account_keys legacy_frame sk_offset sk_num_static_accounts].
  rewrite u16_small by lia. apply raw_parts_there; [done|lia|by destruct Ht as (_ & _ & (_ & ?) & _)|done].
Qed.
Lemma legacy_blockhash : recent_blockhash f b = Some (tx_blockhash t).
Proof.
  destruct (legacy_parts_ok t Ht) as [_ _ _ A4 _ _ A7 A8]. unfold recent_blockhash. cbn [tf_recent_blockhash_offset legacy_frame]. rewrite u16_small by lia.
  assert (len (tx_blockhash t) = HASH_BYTES) as <- by (by destruct Ht as (_ & _ & _ & ? & _)). apply has_at_slice; [lia|done].
Qed.
Lemma legacy_instructions : instructions_iter f b = Some (tx_instructions t).
Proof.
  destruct (legacy_parts_ok t Ht) as [_ _ _ _ A5 _ A7 A8]. unfold instructions_iter, legacy_frame, instructions_frame.
  cbn [tf_instructions frame_num_instructions instructions_frame_iter]. pose proof (encode_length_bound (len (tx_instructions t))).
  rewrite Nat2Z.id, u16_small by lia. assert (is_length (len (tx_instructions t))) as Hl by (by destruct Ht as (_ & _ & _ & _ & (? & _) & _)).
  unfold is_length in Hl. apply legacy_iterate; (done || lia).
Qed.
Lemma legacy_lookups_ok : lookups_ok (tx_lookups t).
Proof. destruct Ht as (_ & _ & _ & _ & _ & Hl & _). destruct (tx_version t); [|done..]. by rewrite Hl. Qed.
Lemma legacy_counts : num_address_table_lookups f = len (tx_lookups t) /\
  total_writable_lookup_accounts f = total_writable (tx_lookups t) /\ total_readonly_lookup_accounts f = total_readonly (tx_lookups t).
Proof.
  destruct Ht as (_ & (_ & _ & _ & Hv) & _ & _ & _ & Hl & _). unfold legacy_frame. destruct (tx_version t); [by rewrite Hl|done..].
Qed.
Lemma legacy_access : access t f b.
Proof.
  destruct legacy_counts as (C1 & C2 & C3). split; [done|apply legacy_keys|apply legacy_blockhash|apply legacy_instructions|done|done| | |].
  - unfold config_view. destruct Ht as (_ & _ & _ & _ & _ & _ & -> & ->). done.
  - rewrite legacy_signatures. by eexists.
  - unfold address_table_lookup_iter. rewrite C1. pose proof legacy_lookups_ok as (Hl & _). change MAX_ATLS_PER_PACKET with 31 in Hl.
    apply lookups_total; [done|lia| |lia|lia]. destruct (legacy_parts_ok t Ht) as [_ _ _ _ _ _ A7 A8].
    unfold legacy_frame, encode_tail in *. cbn [tf_address_table_lookup] in *. destruct (tx_version t); cbn [no_lookups at_offset lookups_frame] in *; [lia|..];
      pose proof (u16_below (tail_at t + 1) ltac:(lia)); unfold encode_lookups in A7; rewrite length_cons in A7; lia.
Qed.
Lemma legacy_access_far : len b <= 65535 -> access_far t f b.
Proof.
  intros Hlen. destruct (legacy_parts_ok t Ht) as [_ A2 _ _ _ A6 A7 A8]. split; [apply legacy_signatures| |].
  - unfold address_table_lookup_iter. destruct legacy_counts as (C1 & _). rewrite C1, Nat2Z.id. pose proof legacy_lookups_ok as (Hl & HF & _).
    change MAX_ATLS_PER_PACKET with 31 in Hl. destruct Ht as (_ & (_ & _ & _ & Hv) & _ & _ & _ & Hlk & _).
    unfold legacy_frame, encode_tail in *. cbn [tf_address_table_lookup]. destruct (tx_version t); [by rewrite Hlk| |done].
    unfold encode_lookups in A6, A7. apply (has_at_app [len (tx_lookups t)]) in A6 as [_ A6]; [|lia]. rewrite length_cons in A7.
    cbn [lookups_frame at_offset]. rewrite u16_small by lia. apply lookups_iterate; (done || lia).
  - assert (len (legacy_message t) = len b - header_at t) as Hm
      by (unfold encode_legacy, legacy_message, header_at; rewrite (length_app (encode_array _)); lia).
    assert (message_range f = (header_at t, len b)) as Hr.
    { unfold message_range. cbn [legacy_frame tf_message_header header_frame mh_version mh_offset tf_data_len]. rewrite A7, !u16_small by lia.
      pose proof (legacy_version t Ht). by destruct (tx_version t). }
    unfold message_data. rewrite Hr, <-Hm. assert (message t = legacy_message t) as -> by (unfold message; pose proof (legacy_version t Ht); by destruct (tx_version t)).
    apply has_at_slice; [lia|done].
Qed.
End legacy.

(** ** Version 1 *)

Lemma v1_message_signatures t : encode_v1 t = v1_message t ++ concat (tx_signatures t).
Proof. unfold encode_v1, encode_v1_with, v1_message, encode_v1_variable. simpl. rewrite <-!app_assoc. simpl. by rewrite <-!app_assoc. Qed.
Record v1_parts (t : Transaction) (b : Bytes) : Prop := {
  vp_message : has_at (v1_message t) b 0;
  vp_blockhash : has_at (tx_blockhash t) b 8;
  vp_keys : has_at (concat (tx_keys t)) b 42;
  vp_config : has_at (concat (tx_config t)) b (v1_config_at t);
  vp_headers : has_at (encode_v1_headers (tx_instructions t)) b (v1_instructions_at t);
  vp_payloads : has_at (concat (payload <$> tx_instructions t)) b (v1_instructions_at t + 4 * len (tx_instructions t));
  vp_signatures : has_at (concat (tx_signatures t)) b (v1_signatures_at t);
  vp_message_end : len (v1_message t) = v1_signatures_at t;
  vp_end : v1_signatures_at t + len (tx_signatures t) * SIGNATURE_BYTES = len b;
  vp_near : 42 <= v1_config_at t <= 8202 /\ v1_config_at t <= v1_instructions_at t <= 8330 /\
    v1_instructions_at t + 4 * len (tx_instructions t) <= v1_signatures_at t /\ len (tx_instructions t) <= 255;
}.
Lemma v1_parts_ok t : v1_ok t -> v1_parts t (encode_v1 t).
Proof.
  intros (_ & Hm & Hbh & (Hk & Hka) & (_ & Hc & Hca) & (Hi & _) & (Hs & Hsa) & _). change HASH_BYTES with 32 in Hbh. change PUBKEY_BYTES with 32 in *.
  pose proof (count_ones_bound (tx_mask t)). unfold is_byte in Hk, Hi.
  assert (len (encode_v1_headers (tx_instructions t)) = 4 * len (tx_instructions t)) as Hh by (unfold encode_v1_headers; by rewrite headers_length, length_fmap).
  assert (42 <= v1_config_at t <= 8202 /\ v1_config_at t <= v1_instructions_at t <= 8330 /\
    v1_instructions_at t + 4 * len (tx_instructions t) <= v1_signatures_at t /\ len (tx_instructions t) <= 255) as Hnear.
  { unfold v1_signatures_at, v1_instructions_at, v1_config_at, PUBKEY_BYTES, encode_v1_instructions. rewrite length_app. lia. }
  pose proof (concat_length _ _ Hka) as Hkl. pose proof (concat_length _ _ Hca) as Hcl. pose proof (concat_length _ _ Hsa) as Hsl.
  assert (len (v1_message t) = v1_signatures_at t) as Hml.
  { unfold v1_message, v1_signatures_at, v1_instructions_at, v1_config_at, PUBKEY_BYTES. rewrite !length_cons, length_app, le_bytes_length, length_app, !length_cons, !length_app. lia. }
  pose proof (has_at_self (encode_v1 t)) as Hat. rewrite v1_message_signatures in Hat at 1. apply has_at_app in Hat as [A1 A2]; [|lia]. pose proof A1 as Am.
  rewrite Hml in A2. unfold v1_message in A1.
  apply (has_at_app (129 :: hd_required (tx_header t) :: hd_readonly_signed (tx_header t) :: hd_readonly_unsigned (tx_header t) :: le_bytes 4 (tx_mask t))) in A1 as [_ A1]; [|lia].
  change (0 + len _) with 8 in A1. apply has_at_app in A1 as [A3 A1]; [|lia]. rewrite Hbh in A1.
  apply (has_at_app [len (tx_instructions t); len (tx_keys t)]) in A1 as [_ A1]; [|lia]. change (8 + 32 + len _) with 42 in A1.
  apply has_at_app in A1 as [A4 A1]; [|lia]. rewrite Hkl in A1. fold (v1_config_at t) in A1.
  apply has_at_app in A1 as [A5 A1]; [|lia]. rewrite Hcl in A1. fold (v1_instructions_at t) in A1.
  unfold encode_v1_instructions in A1. apply has_at_app in A1 as [A6 A7]; [|lia]. rewrite Hh in A7.
  split; try done. rewrite v1_message_signatures, length_app, Nat2Z.inj_add, Hml, Hsl. done.
Qed.

Section v1.
Context (t : Transaction) (Ht : v1_ok t) (Hb : bytes_ok (encode_v1 t)).
Abbreviation b := (encode_v1 t).
Abbreviation f := (v1_frame t).

Lemma v1_signatures_len : len (tx_signatures t) * SIGNATURE_BYTES <= len b /\ 0 <= v1_signatures_at t <= len b.
Proof. destruct (v1_parts_ok t Ht) as [_ _ _ _ _ _ _ _ A9 A10]. change SIGNATURE_BYTES with 64 in *. lia. Qed.
Lemma v1_access : access t f b.
Proof.
  destruct (v1_parts_ok t Ht) as [_ A2 A3 A4 A5 A6 _ _ A9 A10]. change SIGNATURE_BYTES with 64 in *.
  destruct Ht as (_ & Hm & Hbh & (Hk & Hka) & Hc & (Hi & HF) & _ & Hlk). split.
  - done.
  - apply (raw_parts_there PUBKEY_BYTES _ 42); [done|lia|done|done].
  - unfold recent_blockhash. change (tf_recent_blockhash_offset f) with 8. rewrite <-Hbh. apply has_at_slice; [lia|done].
  - unfold instructions_iter, v1_frame, v1_instructions_frame. cbn [tf_instructions frame_num_instructions instructions_frame_iter].
    rewrite Nat2Z.id, !u16_small by lia. apply v1_iterate; (done || lia).
  - by rewrite Hlk.
  - by rewrite Hlk.
  - apply config_there; (done || lia).
  - unfold signatures, raw_parts. destruct (u16_below (v1_signatures_at t) ltac:(lia)).
    unfold slice. cbn [v1_frame tf_signature sf_offset sf_num_signatures]. change SIGNATURE_BYTES with 64. rewrite bool_decide_true by lia. by eexists.
  - by eexists.
Qed.
Lemma v1_access_far : len b <= 65535 -> access_far t f b.
Proof.
  intros Hlen. destruct (v1_parts_ok t Ht) as [A1 _ _ _ _ _ A7 A8 A9 A10]. change SIGNATURE_BYTES with 64 in *. split.
  - unfold signatures. cbn [v1_frame tf_signature sf_offset sf_num_signatures]. rewrite u16_small by lia.
    apply raw_parts_there; [done|lia|by destruct Ht as (_ & _ & _ & _ & _ & _ & (_ & ?) & _)|done].
  - destruct Ht as (_ & _ & _ & _ & _ & _ & _ & Hlk). by rewrite Hlk.
  - pose proof (v1_version t Ht) as Hv. unfold message_data, message_range. cbn [v1_frame tf_message_header header_frame mh_version mh_offset tf_signature sf_offset].
    rewrite Hv. change (as_u16 0) with 0. rewrite u16_small by lia. rewrite Z.sub_0_r, <-A8. unfold message. rewrite Hv. apply has_at_slice; [lia|done].
Qed.
End v1.

(** ** All versions *)

Lemma access_ok t : tx_ok t -> bytes_ok (encode t) -> access t (tx_frame t) (encode t).
Proof.
  intros [Ht|Ht]%tx_ok_cases; [destruct (tx_ok_legacy t Ht) as (_ & -> & ->); by apply legacy_access|destruct (tx_ok_v1 t Ht) as (_ & -> & ->); by apply v1_access].
Qed.
Lemma access_far_ok t : tx_ok t -> bytes_ok (encode t) -> len (encode t) <= 65535 -> access_far t (tx_frame t) (encode t).
Proof.
  intros [Ht|Ht]%tx_ok_cases; [destruct (tx_ok_legacy t Ht) as (_ & -> & ->); by apply legacy_access_far|destruct (tx_ok_v1 t Ht) as (_ & -> & ->); intros _; by apply v1_access_far].
Qed.

(** ** Properties *)

(** A transfer that one account pays for, in version 0: two keys, one instruction of
    the second one and a lookup. *)
Definition example_v0 : Transaction :=
  mkTransaction [repeat 7 64] (mkHeader Version0 1 0 1) [repeat 1 32; repeat 2 32] (repeat 3 32)
    [mkInstruction 1 [0; 2] [9; 9; 9]] [mkLookup (repeat 4 32) [5] []] 0 [].
(** In version 1, with a priority fee and a heap size. *)
Definition example_v1 : Transaction :=
  mkTransaction [repeat 7 64] (mkHeader Version1 1 0 1) [repeat 1 32; repeat 2 32] (repeat 3 32)
    [mkInstruction 1 [0; 1] [9; 9; 9]] [] 19 [[1; 0; 0; 0]; [0; 0; 0; 0]; [0; 0; 1; 0]].
Lemma bytes_ok_compute b : forallb (fun x => bool_decide (0 <= x < 256)) b = true -> len b <= 65535 -> bytes_ok b.
Proof.
  intros Hf Hl. split; [|unfold isize_max; lia]. rewrite forallb_forall in Hf. apply Forall_forall. intros x Hx%list_elem_of_In%Hf.
  by apply bool_decide_eq_true in Hx.
Qed.

(** C32: Parsing is exact.  A byte string of at most 65535 bytes either is the
    serialization of exactly one transaction, and then the parser returns a frame whose
    accessors return the parts of that transaction: its signatures, keys, blockhash,
    instructions, lookups, settings and the message that is signed; or it is the
    serialization of none, and then the parser returns an error.  No two serializations
    of the same transaction exist, nothing may follow the end, and no read is out of
    bounds. *)
Theorem view_exact b (Hb : bytes_ok b) (Hl : len b <= 65535) :
  (exists t, tx_ok t /\ b = encode t /\ (forall t', tx_ok t' -> b = encode t' -> t' = t) /\
     exists f, transaction_frame_new b = Some (Ok f) /\ access t f b /\ access_far t f b) \/
  ((exists e, transaction_frame_new b = Some (Err e)) /\ forall t, tx_ok t -> b <> encode t).
Proof.
  destruct (frame_cases b Hb) as [(t & Ht & -> & Hf)|He]; [left|by right]. exists t. split; [done|]. split; [done|].
  split; [intros t' Ht' He; by apply encode_inj|]. exists (tx_frame t). split; [done|]. split; [by apply access_ok|by apply access_far_ok].
Qed.
Lemma view_exact_witness :
  exists t f, transaction_frame_new (encode example_v0) = Some (Ok f) /\ encode t = encode example_v0 /\
    address_table_lookup_iter f (encode example_v0) = Some [mkLookup (repeat 4 32) [5] []] /\ access t f (encode example_v0).
Proof.
  assert (bytes_ok (encode example_v0)) as Hb by (apply bytes_ok_compute; [vm_compute; reflexivity|vm_compute; discriminate]).
  destruct (view_exact (encode example_v0) Hb ltac:(vm_compute; discriminate)) as [(t & Ht & He & _ & f & Hf & Ha & _)|[[e He] _]].
  - exists t, f. split; [done|]. split; [done|]. split; [|done].
    assert (transaction_frame_new (encode example_v0) = Some (Ok (tx_frame example_v0))) as Hx by (vm_compute; reflexivity).
    assert (f = tx_frame example_v0) as -> by congruence. vm_compute. reflexivity.
  - exfalso. assert (transaction_frame_new (encode example_v0) = Some (Ok (tx_frame example_v0))) as Hx by (vm_compute; reflexivity). congruence.
Defined.

(** C35: Parsing and reading are memory safe for byte strings of any length that a slice
    can have: the parser always returns, and with the frame it returns every accessor
    and iterator stays inside of the bytes, also where an offset was cut to 16 bits. *)
Theorem accessors_safe b (Hb : bytes_ok b) :
  exists r, transaction_frame_new b = Some r /\
  forall f, r = Ok f ->
    is_Some (signatures f b) /\ is_Some (static_account_keys f b) /\ is_Some (recent_blockhash f b) /\
    is_Some (instructions_iter f b) /\ is_Some (address_table_lookup_iter f b) /\
    is_Some (priority_fee_lamports (tf_transaction_config_frame f) b) /\ is_Some (compute_unit_limit (tf_transaction_config_frame f) b) /\
    is_Some (loaded_accounts_data_size_limit (tf_transaction_config_frame f) b) /\ is_Some (requested_heap_size (tf_transaction_config_frame f) b).
Proof.
  destruct (frame_cases b Hb) as [(t & Ht & -> & Hf)|[[e He] _]]; [|by exists (Err e)]. eexists. split; [exact Hf|]. intros f [= <-].
  destruct (access_ok t Ht Hb) as [_ -> -> -> _ _ (_ & _ & -> & -> & -> & ->) Hs Hk]. split_and!; done.
Qed.
Lemma accessors_safe_witness :
  exists f, transaction_frame_new (encode example_v1) = Some (Ok f) /\ is_Some (requested_heap_size (tf_transaction_config_frame f) (encode example_v1)).
Proof.
  assert (bytes_ok (encode example_v1)) as Hb by (apply bytes_ok_compute; [vm_compute; reflexivity|vm_compute; discriminate]).
  destruct (accessors_safe (encode example_v1) Hb) as (r & Hr & Hs).
  assert (transaction_frame_new (encode example_v1) = Some (Ok (tx_frame example_v1))) as Hx by (vm_compute; reflexivity).
  exists (tx_frame example_v1). split; [exact Hx|]. assert (r = Ok (tx_frame example_v1)) as Hrr by congruence. apply (Hs _ Hrr).
Defined.
