(* ===== verification/ViewSanitize.v ===== *)
(** * Sanitized transactions

    [transaction-view/src/sanitize.rs] and [transaction_view.rs]: the checks that every
    transaction passes before it is looked at, and the functions that rely on them.
    The checks accept exactly the transactions that satisfy the rules. *)

From S2P Require Import Prelude.
From S2P Require Import ViewBytes.
From S2P Require Import ViewFrames.
From S2P Require Import ViewTheorems.
From S2P Require Import ViewV1.
From S2P Require Import ViewExact.
From S2P Require Import ViewAccess.

(** ** The view *)

Record TransactionView := mkView { tv_data : Bytes; tv_frame : TransactionFrame }.
Abbreviation Checked A := (option (result TransactionViewError A)) (only parsing).
(** [a?; k]. *)
Definition then_check {A B} (a : Checked A) (k : A -> Checked B) : Checked B :=
  match a with None => None | Some (Err e) => Some (Err e) | Some (Ok x) => k x end.
Definition check_that (c : bool) : Checked unit := Some (if c then Ok tt else Err SanitizeError).

Definition try_new_unsanitized (data : Bytes) : Checked TransactionView :=
  then_check (transaction_frame_new data) (fun frame => Some (Ok (mkView data frame))).
Definition transaction_config (v : TransactionView) : option TransactionConfigFrame :=
  let f := tf_transaction_config_frame (tv_frame v) in if config_is_present f then Some f else None.

(** ** The checks *)

(** Of the Solana SDK. *)
Definition V1_MAX_TRANSACTION_SIZE : Z := 4096.
Definition MAX_HEAP_FRAME_BYTES : Z := 256 * 1024.
Definition MIN_HEAP_FRAME_BYTES : Z := 32 * 1024.
Definition MAX_INSTRUCTION_TRACE_LENGTH : Z := 64.
Definition MAX_ACCOUNTS_PER_INSTRUCTION : Z := 255.

Definition sanitize_transaction_size (v : TransactionView) : Checked unit :=
  let max_transaction_size := match version (tv_frame v) with Version1 => V1_MAX_TRANSACTION_SIZE | _ => PACKET_DATA_SIZE end in
  check_that (negb (bool_decide (len (tv_data v) > max_transaction_size))).
Definition wrapping_sub8 (a b : Z) : Z := (a - b) mod 2 ^ 8.
Definition sanitize_message_header (v : TransactionView) : Checked unit :=
  let f := tv_frame v in
  if bool_decide (num_required_signatures f < 1) then Some (Err SanitizeError)
  else if bool_decide (num_readonly_signed_static_accounts f >= num_required_signatures f) then Some (Err SanitizeError)
  else check_that (negb (bool_decide (num_readonly_unsigned_static_accounts f >
    wrapping_sub8 (num_static_account_keys f) (num_required_signatures f)))).
Definition sanitize_config (v : TransactionView) : Checked unit :=
  match transaction_config v with
  | None => Some (Ok tt)
  | Some config =>
    match requested_heap_size config (tv_data v) with
    | None => None
    | Some None => Some (Ok tt)
    | Some (Some requested_heap_bytes) =>
      check_that (negb (negb (bool_decide (MIN_HEAP_FRAME_BYTES <= requested_heap_bytes <= MAX_HEAP_FRAME_BYTES)) ||
        negb (bool_decide (requested_heap_bytes mod 1024 = 0))))
    end
  end.
Definition sanitize_signatures (v : TransactionView) : Checked unit :=
  let f := tv_frame v in
  if negb (bool_decide (num_signatures f = num_required_signatures f)) then Some (Err SanitizeError)
  else if bool_decide (num_signatures f > MAX_SIGNATURES_PER_PACKET) then Some (Err SanitizeError)
  else check_that (negb (bool_decide (num_static_account_keys f < num_signatures f))).
Definition saturating_add16 (a b : Z) : Z := Z.min (a + b) 65535.
Definition total_number_of_accounts (v : TransactionView) : Z :=
  let f := tv_frame v in
  saturating_add16 (saturating_add16 (num_static_account_keys f) (total_writable_lookup_accounts f)) (total_readonly_lookup_accounts f).
Definition addresses_limit (version : TransactionVersion) : Z := match version with Version1 => 64 | _ => 256 end.
Definition sanitize_account_access (v : TransactionView) : Checked unit :=
  check_that (negb (bool_decide (total_number_of_accounts v > addresses_limit (version (tv_frame v))))).
Definition wrapping_sub16 (a b : Z) : Z := (a - b) mod 2 ^ 16.
(** One round of the loop over the instructions. *)
Definition instruction_check (max_program_id_index max_account_index : Z) (enable_instruction_accounts_limit : bool) (ix : SVMInstruction) : bool :=
  negb (bool_decide (ix_program_id_index ix > max_program_id_index)) &&
  negb (bool_decide (ix_program_id_index ix = 0)) &&
  forallb (fun account_index => negb (bool_decide (account_index > max_account_index))) (ix_accounts ix) &&
  negb (enable_instruction_accounts_limit && bool_decide (len (ix_accounts ix) > MAX_ACCOUNTS_PER_INSTRUCTION)).
Definition sanitize_instructions (v : TransactionView) (enable_instruction_accounts_limit : bool) : Checked unit :=
  let f := tv_frame v in
  if bool_decide (num_instructions f > MAX_INSTRUCTION_TRACE_LENGTH) then Some (Err SanitizeError)
  else
    let max_program_id_index := wrapping_sub8 (num_static_account_keys f) 1 in
    let max_account_index := as_u8 (wrapping_sub16 (total_number_of_accounts v) 1) in
    instructions ← instructions_iter f (tv_data v);
    check_that (forallb (instruction_check max_program_id_index max_account_index enable_instruction_accounts_limit) instructions).
Definition sanitize_address_table_lookups (v : TransactionView) : Checked unit :=
  lookups ← address_table_lookup_iter (tv_frame v) (tv_data v);
  check_that (forallb (fun l => negb (bool_decide (al_writable_indexes l = []) && bool_decide (al_readonly_indexes l = []))) lookups).
Definition sanitize (v : TransactionView) (enable_instruction_accounts_limit : bool) : Checked unit :=
  then_check (sanitize_transaction_size v) (fun _ =>
  then_check (sanitize_message_header v) (fun _ =>
  then_check (sanitize_config v) (fun _ =>
  then_check (sanitize_signatures v) (fun _ =>
  then_check (sanitize_account_access v) (fun _ =>
  then_check (sanitize_instructions v enable_instruction_accounts_limit) (fun _ =>
  sanitize_address_table_lookups v)))))).
Definition view_sanitize (v : TransactionView) (enable_instruction_accounts_limit : bool) : Checked TransactionView :=
  then_check (sanitize v enable_instruction_accounts_limit) (fun _ => Some (Ok v)).
Definition try_new_sanitized (data : Bytes) (enable_instruction_accounts_limit : bool) : Checked TransactionView :=
  then_check (try_new_unsanitized data) (fun v => view_sanitize v enable_instruction_accounts_limit).

(** ** The rules *)

Definition total_accounts (t : Transaction) : Z := len (tx_keys t) + total_writable (tx_lookups t) + total_readonly (tx_lookups t).
Definition heap_ok (h : option Z) : Prop :=
  if h is Some x then MIN_HEAP_FRAME_BYTES <= x <= MAX_HEAP_FRAME_BYTES /\ x mod 1024 = 0 else True.
Definition instruction_sane (lim : bool) (t : Transaction) (ix : SVMInstruction) : Prop :=
  1 <= ix_program_id_index ix < len (tx_keys t) /\ Forall (fun i => i < total_accounts t) (ix_accounts ix) /\
  (lim = true -> len (ix_accounts ix) <= MAX_ACCOUNTS_PER_INSTRUCTION).
Record sane (lim : bool) (t : Transaction) : Prop := {
  sn_size : len (encode t) <= (if tx_version t is Version1 then V1_MAX_TRANSACTION_SIZE else PACKET_DATA_SIZE);
  sn_payer : hd_readonly_signed (tx_header t) < hd_required (tx_header t);
  sn_keys : hd_required (tx_header t) + hd_readonly_unsigned (tx_header t) <= len (tx_keys t);
  sn_signatures : len (tx_signatures t) = hd_required (tx_header t) /\ len (tx_signatures t) <= MAX_SIGNATURES_PER_PACKET;
  sn_heap : heap_ok (cf_heap (config_of (tx_mask t) (tx_config t)));
  sn_accounts : total_accounts t <= addresses_limit (tx_version t);
  sn_instructions : len (tx_instructions t) <= MAX_INSTRUCTION_TRACE_LENGTH /\ Forall (instruction_sane lim t) (tx_instructions t);
  sn_lookups : Forall (fun l => al_writable_indexes l <> [] \/ al_readonly_indexes l <> []) (tx_lookups t);
}.

(** ** The checks are the rules *)

Lemma then_check_that {A} c (k : unit -> Checked A) : then_check (check_that c) k = if c then k tt else Some (Err SanitizeError).
Proof. by destruct c. Qed.
Lemma tx_bytes t : tx_ok t -> is_byte (hd_required (tx_header t)) /\ is_byte (hd_readonly_signed (tx_header t)) /\ is_byte (hd_readonly_unsigned (tx_header t)) /\
  len (tx_keys t) <= 255 /\ total_writable (tx_lookups t) <= 65535 /\ total_readonly (tx_lookups t) <= 65535 /\
  Forall (fun ix => is_byte (ix_program_id_index ix)) (tx_instructions t) /\ len (tx_instructions t) <= 65535.
Proof.
  intros [Ht|Ht]%tx_ok_cases.
  - pose proof (legacy_lookups_ok t Ht) as (_ & _ & _ & Hw & Hr). destruct Ht as (_ & (H1 & H2 & H3 & _) & (Hk & _) & _ & (Hl & Hix) & _).
    change LEGACY_OR_V0_MAX_STATIC_ACCOUNTS_PER_PACKET with 38 in Hk. unfold is_length in Hl. split_and!; try done; try lia.
    eapply Forall_impl; [exact Hix|]. by intros ix [? _].
  - destruct Ht as ((_ & H1 & H2 & H3) & _ & _ & (Hk & _) & _ & (Hl & Hix) & _ & Hlk). rewrite Hlk. unfold is_byte in Hk, Hl. split_and!; try done; try lia.
    eapply Forall_impl; [exact Hix|]. by intros ix [? _].
Qed.

Section checks.
Context (t : Transaction) (Ht : tx_ok t) (Hb : bytes_ok (encode t)) (lim : bool).
Abbreviation v := (mkView (encode t) (tx_frame t)).

Lemma size_check : sanitize_transaction_size v =
  check_that (bool_decide (len (encode t) <= (if tx_version t is Version1 then V1_MAX_TRANSACTION_SIZE else PACKET_DATA_SIZE))).
Proof.
  unfold sanitize_transaction_size. cbn [tv_frame tv_data]. rewrite (ac_header _ _ _ (access_ok t Ht Hb)). cbn [mh_version].
  unfold check_that. destruct (tx_version t); repeat case_bool_decide; (done || lia).
Qed.
Lemma header_check : sanitize_message_header v = check_that (bool_decide (
  hd_readonly_signed (tx_header t) < hd_required (tx_header t) /\
  hd_readonly_unsigned (tx_header t) <= (len (tx_keys t) - hd_required (tx_header t)) mod 256)).
Proof.
  destruct (tx_bytes t Ht) as (H1 & H2 & H3 & _). unfold is_byte in *.
  unfold sanitize_message_header. cbn [tv_frame tv_data]. destruct (ac_counts _ _ _ (access_ok t Ht Hb)) as (_ & -> & _).
  rewrite (ac_header _ _ _ (access_ok t Ht Hb)). cbn [mh_num_required_signatures mh_num_readonly_signed_accounts mh_num_readonly_unsigned_accounts].
  unfold wrapping_sub8, check_that. change (2 ^ 8) with 256. repeat case_bool_decide; try done; lia.
Qed.
Lemma present_config : config_is_present (tf_transaction_config_frame (tx_frame t)) = bool_decide (tx_version t = Version1).
Proof.
  destruct (tx_ok_cases t Ht) as [H|H].
  - destruct (tx_ok_legacy t H) as (_ & _ & ->). rewrite bool_decide_false by (by apply legacy_version). done.
  - destruct (tx_ok_v1 t H) as (_ & _ & ->). rewrite bool_decide_true by (by apply v1_version). done.
Qed.
#[local] Instance heap_ok_dec h : Decision (heap_ok h).
Proof. unfold heap_ok. destruct h; apply _. Defined.
Lemma config_check : sanitize_config v = check_that (bool_decide (heap_ok (cf_heap (config_of (tx_mask t) (tx_config t))))).
Proof.
  unfold sanitize_config, transaction_config. cbn [tv_frame tv_data]. cbv zeta.
  destruct (ac_config _ _ _ (access_ok t Ht Hb)) as (_ & _ & _ & _ & _ & Hh). rewrite present_config. case_bool_decide as Hv.
  - rewrite Hh. destruct (cf_heap _) as [x|]; [|done]. unfold check_that, heap_ok. repeat case_bool_decide; try done; tauto.
  - assert (tx_mask t = 0) as Hm by (destruct (tx_ok_cases t Ht) as [(_ & _ & _ & _ & _ & _ & ? & _)|H]; [done|by apply v1_version in H]).
    assert (cf_heap (config_of (tx_mask t) (tx_config t)) = None) as -> by (by rewrite Hm). done.
Qed.
Lemma signatures_check : sanitize_signatures v = check_that (bool_decide (
  len (tx_signatures t) = hd_required (tx_header t) /\ len (tx_signatures t) <= MAX_SIGNATURES_PER_PACKET /\ len (tx_signatures t) <= len (tx_keys t))).
Proof.
  unfold sanitize_signatures. cbn [tv_frame tv_data]. destruct (ac_counts _ _ _ (access_ok t Ht Hb)) as (-> & -> & _).
  rewrite (ac_header _ _ _ (access_ok t Ht Hb)). cbn [mh_num_required_signatures]. unfold check_that. repeat case_bool_decide; try done; lia.
Qed.
Lemma total_accounts_check : total_number_of_accounts v = Z.min (total_accounts t) 65535.
Proof.
  unfold total_number_of_accounts, saturating_add16. cbn [tv_frame tv_data]. destruct (ac_counts _ _ _ (access_ok t Ht Hb)) as (_ & -> & _).
  destruct (ac_totals _ _ _ (access_ok t Ht Hb)) as [-> ->]. pose proof (total_bounds (tx_lookups t)). unfold total_accounts. lia.
Qed.
Lemma access_check : sanitize_account_access v = check_that (bool_decide (total_accounts t <= addresses_limit (tx_version t))).
Proof.
  unfold sanitize_account_access. rewrite total_accounts_check. cbn [tv_frame]. rewrite (ac_header _ _ _ (access_ok t Ht Hb)). cbn [mh_version].
  assert (addresses_limit (tx_version t) <= 256) by (by destruct (tx_version t)). unfold check_that. repeat case_bool_decide; try done; lia.
Qed.
#[local] Instance instruction_sane_dec ix : Decision (instruction_sane lim t ix).
Proof. unfold instruction_sane. apply _. Defined.
Lemma instruction_check_exact ix : 1 <= len (tx_keys t) -> total_accounts t <= 256 -> is_byte (ix_program_id_index ix) ->
  instruction_check (wrapping_sub8 (len (tx_keys t)) 1) (as_u8 (wrapping_sub16 (total_accounts t) 1)) lim ix = bool_decide (instruction_sane lim t ix).
Proof.
  intros Hk Ha Hp. destruct (tx_bytes t Ht) as (_ & _ & _ & Hk255 & _). pose proof (total_bounds (tx_lookups t)). unfold is_byte in Hp.
  assert (len (tx_keys t) <= total_accounts t) by (unfold total_accounts; lia).
  assert (wrapping_sub8 (len (tx_keys t)) 1 = len (tx_keys t) - 1) as -> by (apply Z.mod_small; lia).
  assert (as_u8 (wrapping_sub16 (total_accounts t) 1) = total_accounts t - 1) as ->
    by (unfold as_u8, wrapping_sub16; rewrite (Z.mod_small _ (2 ^ 16)) by lia; apply Z.mod_small; lia).
  assert (forallb (fun i => negb (bool_decide (i > total_accounts t - 1))) (ix_accounts ix) = bool_decide (Forall (fun i => i < total_accounts t) (ix_accounts ix))) as Hf.
  { apply Bool.eq_iff_eq_true. rewrite bool_decide_eq_true, forallb_forall, Forall_forall. setoid_rewrite list_elem_of_In.
    apply forall_proper; intros i. apply forall_proper; intros _. rewrite negb_true_iff, bool_decide_eq_false. lia. }
  apply Bool.eq_iff_eq_true. rewrite bool_decide_eq_true. unfold instruction_check, instruction_sane. rewrite Hf.
  rewrite !andb_true_iff, !negb_true_iff, andb_false_iff, !bool_decide_eq_false, bool_decide_eq_true. destruct lim; intuition lia.
Qed.
Lemma instructions_check : 1 <= len (tx_keys t) -> total_accounts t <= 256 -> sanitize_instructions v lim =
  check_that (bool_decide (len (tx_instructions t) <= MAX_INSTRUCTION_TRACE_LENGTH /\ Forall (instruction_sane lim t) (tx_instructions t))).
Proof.
  intros Hk Ha. unfold sanitize_instructions. rewrite total_accounts_check. rewrite Z.min_l by lia. cbn [tv_frame tv_data].
  destruct (ac_counts _ _ _ (access_ok t Ht Hb)) as (_ & -> & -> & _). rewrite (ac_instructions _ _ _ (access_ok t Ht Hb)).
  case_bool_decide as Hl; [by rewrite bool_decide_false by lia|]. cbv zeta. cbn [mbind option_bind]. f_equal. apply Bool.eq_iff_eq_true.
  rewrite bool_decide_eq_true, forallb_forall, Forall_forall. setoid_rewrite list_elem_of_In.
  destruct (tx_bytes t Ht) as (_ & _ & _ & _ & _ & _ & Hp & _). rewrite Forall_forall in Hp. setoid_rewrite list_elem_of_In in Hp. split.
  - intros Hall. split; [lia|]. intros ix Hix. specialize (Hall ix Hix). rewrite instruction_check_exact in Hall by auto. by apply bool_decide_eq_true in Hall.
  - intros [_ Hall] ix Hix. rewrite instruction_check_exact by auto. by apply bool_decide_eq_true, Hall.
Qed.
Lemma lookups_check : len (encode t) <= 65535 -> sanitize_address_table_lookups v =
  check_that (bool_decide (Forall (fun l => al_writable_indexes l <> [] \/ al_readonly_indexes l <> []) (tx_lookups t))).
Proof.
  intros Hl. unfold sanitize_address_table_lookups. cbn [tv_frame tv_data]. rewrite (ac_lookups _ _ _ (access_far_ok t Ht Hb Hl)). cbn [mbind option_bind].
  f_equal. apply Bool.eq_iff_eq_true. rewrite bool_decide_eq_true, forallb_forall, Forall_forall. setoid_rewrite list_elem_of_In.
  apply forall_proper; intros x. apply forall_proper; intros _. rewrite negb_true_iff, andb_false_iff, !bool_decide_eq_false. done.
Qed.
Lemma sanitize_cases : (sane lim t /\ sanitize v lim = Some (Ok tt)) \/ (~ sane lim t /\ sanitize v lim = Some (Err SanitizeError)).
Proof.
  unfold sanitize. rewrite size_check, header_check, config_check, signatures_check, access_check.
  destruct (tx_bytes t Ht) as (B1 & B2 & B3 & B4 & _). unfold is_byte in *.
  rewrite then_check_that. case_bool_decide as H1; [|right; by split; [intros []|]].
  rewrite then_check_that. case_bool_decide as H2.
  2:{ right. split; [|done]. intros [? ? Hk]. apply H2. split; [done|]. rewrite Z.mod_small by lia. lia. }
  rewrite then_check_that. case_bool_decide as H3; [|right; by split; [intros []|]].
  rewrite then_check_that. case_bool_decide as H4; [|right; split; [intros []; lia|done]].
  assert (hd_required (tx_header t) + hd_readonly_unsigned (tx_header t) <= len (tx_keys t)) as Hk by (rewrite Z.mod_small in H2 by lia; lia).
  rewrite then_check_that. case_bool_decide as H5; [|right; by split; [intros []|]].
  assert (total_accounts t <= 256) by (destruct (tx_version t); cbn in H5; lia).
  assert (len (encode t) <= 65535) by (unfold V1_MAX_TRANSACTION_SIZE, PACKET_DATA_SIZE in *; destruct (tx_version t); lia).
  rewrite instructions_check by lia. rewrite then_check_that. case_bool_decide as H6; [|right; by split; [intros []|]].
  rewrite lookups_check by lia. unfold check_that. case_bool_decide as H7; [|right; by split; [intros []|]].
  left. split; [|done]. split; (done || tauto || lia).
Qed.
End checks.

(** ** Functions that rely on the checks *)

(** An index into a slice that may panic. *)
Definition index_key (l : list Bytes) (i : Z) : option Bytes := l !! Z.to_nat i.
Definition program_instructions_iter (v : TransactionView) : option (list (Bytes * SVMInstruction)) :=
  instructions ← instructions_iter (tv_frame v) (tv_data v);
  keys ← static_account_keys (tv_frame v) (tv_data v);
  mapM (fun ix => program_id ← index_key keys (ix_program_id_index ix); Some (program_id, ix)) instructions.
Definition fee_payer (v : TransactionView) : option Bytes :=
  keys ← static_account_keys (tv_frame v) (tv_data v); index_key keys 0.
Definition num_static_unsigned_static_accounts (v : TransactionView) : Z :=
  wrapping_sub8 (num_static_account_keys (tv_frame v)) (num_required_signatures (tv_frame v)).
Definition num_writable_unsigned_static_accounts (v : TransactionView) : Z :=
  wrapping_sub8 (num_static_unsigned_static_accounts v) (num_readonly_unsigned_static_accounts (tv_frame v)).
Definition num_writable_signed_static_accounts (v : TransactionView) : Z :=
  wrapping_sub8 (num_required_signatures (tv_frame v)) (num_readonly_signed_static_accounts (tv_frame v)).
Definition total_num_accounts (v : TransactionView) : Z :=
  wrapping_add16 (wrapping_add16 (num_static_account_keys (tv_frame v)) (total_writable_lookup_accounts (tv_frame v)))
    (total_readonly_lookup_accounts (tv_frame v)).
Definition num_requested_write_locks (v : TransactionView) : Z :=
  wrapping_add16 (wrapping_sub8 (wrapping_sub8 (num_static_account_keys (tv_frame v)) (num_readonly_signed_static_accounts (tv_frame v)))
    (num_readonly_unsigned_static_accounts (tv_frame v))) (total_writable_lookup_accounts (tv_frame v)).

(** ** Properties *)

(** C33: Sanitizing is exact: a byte string gives a sanitized view exactly if it is the
    serialization of a transaction that satisfies all rules: size, fee payer writable,
    readonly keys behind the signers, as many signatures as required and at most
    twelve, heap size, number of accounts, at most 64 instructions whose program is a
    static key other than the payer and whose accounts exist, and no empty lookup.
    Otherwise the result is an error; the wrap-around in the checks changes nothing. *)
Theorem sanitize_exact b lim (Hb : bytes_ok b) :
  (exists t, tx_ok t /\ sane lim t /\ b = encode t /\ try_new_sanitized b lim = Some (Ok (mkView b (tx_frame t)))) \/
  ((exists e, try_new_sanitized b lim = Some (Err e)) /\ forall t, tx_ok t -> sane lim t -> b <> encode t).
Proof.
  unfold try_new_sanitized, try_new_unsanitized. destruct (frame_cases b Hb) as [(t & Ht & -> & ->)|[[e ->] Hn]]; cbn [then_check].
  2:{ right. split; [by eexists|]. intros t Ht _. by apply Hn. }
  unfold view_sanitize. destruct (sanitize_cases t Ht Hb lim) as [[Hs ->]|[Hs ->]]; [left; by exists t|right].
  split; [by eexists|]. intros t' Ht' Hs' He. apply encode_inj in He; [|done..]. by subst.
Qed.
Lemma sanitize_exact_witness :
  exists t, sane true t /\ encode example_v1 = encode t /\ try_new_sanitized (encode example_v1) true = Some (Ok (mkView (encode example_v1) (tx_frame t))).
Proof.
  assert (bytes_ok (encode example_v1)) as Hb by (apply bytes_ok_compute; [vm_compute; reflexivity|vm_compute; discriminate]).
  destruct (sanitize_exact (encode example_v1) true Hb) as [(t & _ & Hs & He & Hv)|[[e He] _]]; [exact (ex_intro _ t (conj Hs (conj He Hv)))|].
  exfalso. assert (try_new_sanitized (encode example_v1) true <> Some (Err e)) as Hx by (vm_compute; discriminate). exact (Hx He).
Defined.
