(* ===== verification/ViewResolved.v ===== *)
(** * Transactions with resolved addresses

    [transaction-view/src/resolved_transaction_view.rs]: a sanitized view together with
    the addresses its lookups stand for.  Which accounts a transaction may write is
    computed once, into a table of 256 entries. *)

From S2P Require Import Prelude.
From S2P Require Import ViewBytes.
From S2P Require Import ViewFrames.
From S2P Require Import ViewTheorems.
From S2P Require Import ViewV1.
From S2P Require Import ViewExact.
From S2P Require Import ViewAccess.
From S2P Require Import ViewSanitize.

(** [solana_message::v0::LoadedAddresses] and [AccountKeys]: the keys in the order in
    which they are numbered. *)
Record LoadedAddresses := mkLoaded { la_writable : list Bytes; la_readonly : list Bytes }.
Class AccountKeysOps := { account_keys : list Bytes -> option LoadedAddresses -> list Bytes }.
Definition dynamic_keys (d : option LoadedAddresses) : list Bytes :=
  match d with Some l => la_writable l ++ la_readonly l | None => [] end.
Class AccountKeysLaws `{AccountKeysOps} := {
  account_keys_order static d : account_keys static d = static ++ dynamic_keys d;
}.

Section resolved.
Context `{AccountKeysOps}.
(** [bpf_loader_upgradeable::ID]. *)
Context (bpf_loader_upgradeable : Bytes).

Record ResolvedTransactionView := mkResolved {
  rv_view : TransactionView;
  rv_resolved_addresses : option LoadedAddresses;
  rv_writable_cache : list bool;
}.

(** An assignment to an entry of the table, which panics out of bounds. *)
Definition set_index (cache : list bool) (index : nat) (x : bool) : option (list bool) :=
  if bool_decide (index < length cache)%nat then Some (<[index := x]> cache) else None.
Definition is_requested_write (v : TransactionView) (index : Z) : bool :=
  let f := tv_frame v in
  if bool_decide (index >= num_static_account_keys f) then
    bool_decide (wrapping_sub index (num_static_account_keys f) < total_writable_lookup_accounts f)
  else if bool_decide (index >= num_required_signatures f) then
    bool_decide (wrapping_sub index (num_required_signatures f) < num_writable_unsigned_static_accounts v)
  else bool_decide (index < num_writable_signed_static_accounts v).
Fixpoint fill_cache (v : TransactionView) (reserved_account_keys : gset Bytes) (index : nat) (keys : list Bytes) (cache : list bool)
    : option (list bool) :=
  match keys with
  | [] => Some cache
  | key :: keys =>
    cache ← set_index cache index (is_requested_write v (Z.of_nat index) && negb (bool_decide (key ∈ reserved_account_keys)));
    fill_cache v reserved_account_keys (S index) keys cache
  end.
(** [get_or_insert_with]: the loader is searched at most once. *)
Fixpoint lock_programs (keys : list Bytes) (instructions : list SVMInstruction) (is_upgradable_loader_present : option bool) (cache : list bool)
    : option (list bool) :=
  match instructions with
  | [] => Some cache
  | ix :: instructions =>
    let program_id_index := Z.to_nat (ix_program_id_index ix) in
    writable ← cache !! program_id_index;
    if negb writable then lock_programs keys instructions is_upgradable_loader_present cache
    else
      let present := match is_upgradable_loader_present with
        | Some p => p | None => existsb (fun key => bool_decide (key = bpf_loader_upgradeable)) keys end in
      cache ← (if negb present then set_index cache program_id_index false else Some cache);
      lock_programs keys instructions (Some present) cache
  end.
Definition cache_is_writable (v : TransactionView) (resolved_addresses : option LoadedAddresses) (reserved_account_keys : gset Bytes)
    : option (list bool) :=
  static ← static_account_keys (tv_frame v) (tv_data v);
  let keys := account_keys static resolved_addresses in
  cache ← fill_cache v reserved_account_keys 0 keys (replicate 256 false);
  instructions ← instructions_iter (tv_frame v) (tv_data v);
  lock_programs keys instructions None cache.
Definition resolved_try_new (v : TransactionView) (resolved_addresses : option LoadedAddresses) (reserved_account_keys : gset Bytes)
    : option (result TransactionViewError ResolvedTransactionView) :=
  let f := tv_frame v in
  if bool_decide (version f = Version0) && bool_decide (resolved_addresses = None) then Some (Err AddressLookupMismatch)
  else if match resolved_addresses with
    | Some loaded_addresses =>
      negb (bool_decide (len (la_writable loaded_addresses) = total_writable_lookup_accounts f)) ||
      negb (bool_decide (len (la_readonly loaded_addresses) = total_readonly_lookup_accounts f))
    | None => negb (bool_decide (total_writable_lookup_accounts f = 0)) || negb (bool_decide (total_readonly_lookup_accounts f = 0))
    end then Some (Err AddressLookupMismatch)
  else
    writable_cache ← cache_is_writable v resolved_addresses reserved_account_keys;
    Some (Ok (mkResolved v resolved_addresses writable_cache)).

Definition is_writable (r : ResolvedTransactionView) (index : Z) : bool := default false (rv_writable_cache r !! Z.to_nat index).
Definition is_signer (r : ResolvedTransactionView) (index : Z) : bool :=
  bool_decide (index < num_required_signatures (tv_frame (rv_view r))).
Definition is_invoked (r : ResolvedTransactionView) (key_index : Z) : option bool :=
  if bool_decide (key_index <= 255) then
    instructions ← instructions_iter (tv_frame (rv_view r)) (tv_data (rv_view r));
    Some (existsb (fun ix => bool_decide (ix_program_id_index ix = key_index)) instructions)
  else Some false.

(** ** Which accounts may be written *)

Definition requested (t : Transaction) (i : Z) : Prop :=
  let h := tx_header t in
  0 <= i < hd_required h - hd_readonly_signed h \/
  hd_required h <= i < len (tx_keys t) - hd_readonly_unsigned h \/
  len (tx_keys t) <= i < len (tx_keys t) + total_writable (tx_lookups t).
#[global] Instance requested_dec t i : Decision (requested t i).
Proof. unfold requested. apply _. Defined.
Definition tx_account_keys (t : Transaction) (d : option LoadedAddresses) : list Bytes := tx_keys t ++ dynamic_keys d.
Definition may_write (t : Transaction) (d : option LoadedAddresses) (reserved : gset Bytes) (i : Z) : Prop :=
  requested t i /\ (exists key, tx_account_keys t d !! Z.to_nat i = Some key /\ key ∉ reserved) /\
  (bpf_loader_upgradeable ∈ tx_account_keys t d \/ Forall (fun ix => ix_program_id_index ix <> i) (tx_instructions t)).
(** The addresses fit to the lookups. *)
Definition addresses_match (t : Transaction) (d : option LoadedAddresses) : Prop :=
  match d with
  | Some l => len (la_writable l) = total_writable (tx_lookups t) /\ len (la_readonly l) = total_readonly (tx_lookups t)
  | None => tx_version t <> Version0 /\ total_writable (tx_lookups t) = 0 /\ total_readonly (tx_lookups t) = 0
  end.

Lemma fill_cache_spec v reserved keys : forall index cache, (index + length keys <= length cache)%nat ->
  exists cache', fill_cache v reserved index keys cache = Some cache' /\ length cache' = length cache /\
    forall j, cache' !! j = if decide (index <= j < index + length keys)%nat
      then (fun key => is_requested_write v (Z.of_nat j) && negb (bool_decide (key ∈ reserved))) <$> keys !! (j - index)%nat else cache !! j.
Proof.
  induction keys as [|key keys IH]; intros index cache Hl; cbn [fill_cache length].
  { exists cache. split; [done|]. split; [done|]. intros j. rewrite decide_False by lia. done. }
  cbn [length] in Hl. unfold set_index at 1. rewrite bool_decide_true by lia. cbn [mbind option_bind].
  destruct (IH (S index) (<[index := is_requested_write v (Z.of_nat index) && negb (bool_decide (key ∈ reserved))]> cache)) as (c & Hc & Hlen & Hlook);
    [rewrite length_insert; lia|]. exists c. split; [done|]. rewrite length_insert in Hlen. split; [done|]. intros j. rewrite Hlook.
  destruct (decide (S index <= j < S index + length keys)%nat).
  - rewrite decide_True by lia. replace (j - index)%nat with (S (j - S index)) by lia. done.
  - destruct (decide (j = index)) as [->|Hj].
    + rewrite decide_True by lia. rewrite list_lookup_insert_eq by lia. by rewrite Nat.sub_diag.
    + rewrite decide_False by lia. by rewrite list_lookup_insert_ne.
Qed.
Abbreviation loader_in keys := (existsb (fun key => bool_decide (key = bpf_loader_upgradeable)) keys).
Lemma lock_programs_spec keys l : forall o cache, Forall (fun ix => 0 <= ix_program_id_index ix < len cache) l -> o = None \/ o = Some (loader_in keys) ->
  exists cache', lock_programs keys l o cache = Some cache' /\
    forall j, cache' !! j = (fun w => w && (loader_in keys || forallb (fun ix => negb (bool_decide (ix_program_id_index ix = Z.of_nat j))) l)) <$> cache !! j.
Proof.
  induction l as [|ix l IH]; intros o cache HF Ho; cbn [lock_programs forallb].
  { exists cache. split; [done|]. intros j. destruct (cache !! j); cbn; [|done]. by rewrite orb_true_r, andb_true_r. }
  apply Forall_cons in HF as [Hp HF]. destruct (lookup_lt_is_Some_2 cache (Z.to_nat (ix_program_id_index ix))) as [w Hw]; [lia|]. rewrite Hw. cbn [mbind option_bind].
  assert (match o with Some p => p | None => loader_in keys end = loader_in keys) as -> by (by destruct Ho as [-> | ->]).
  destruct w; cbn [negb].
  2:{ destruct (IH o cache HF Ho) as (c & Hc & Hlook). exists c. split; [done|]. intros j. rewrite Hlook. destruct (decide (ix_program_id_index ix = Z.of_nat j)) as [He|He].
      - assert (cache !! j = Some false) as -> by (rewrite <-Hw; f_equal; lia). done.
      - by rewrite (bool_decide_false (_ = _)) by done. }
  destruct (loader_in keys) eqn:El; cbn [negb orb mbind option_bind].
  { destruct (IH (Some true) cache HF ltac:(by right)) as (c & Hc & Hlook). exists c. done. }
  unfold set_index. rewrite bool_decide_true by lia. cbn [mbind option_bind].
  destruct (IH (Some false) (<[Z.to_nat (ix_program_id_index ix) := false]> cache)) as (c & Hc & Hlook); [by rewrite length_insert|by right|].
  exists c. split; [done|]. intros j. rewrite Hlook. cbn [orb]. destruct (decide (ix_program_id_index ix = Z.of_nat j)) as [He|He].
  - replace (Z.to_nat (ix_program_id_index ix)) with j in * by lia. rewrite list_lookup_insert_eq, Hw by (apply lookup_lt_Some in Hw; lia).
    rewrite bool_decide_true by done. done.
  - rewrite list_lookup_insert_ne by lia. by rewrite (bool_decide_false (_ = _)) by done.
Qed.

Section sane.
Context (t : Transaction) (lim : bool) (Ht : tx_ok t) (Hs : sane lim t) (Hb : bytes_ok (encode t)).
Abbreviation v := (mkView (encode t) (tx_frame t)).

Lemma sane_counts : num_writable_unsigned_static_accounts v = len (tx_keys t) - hd_required (tx_header t) - hd_readonly_unsigned (tx_header t) /\
  num_writable_signed_static_accounts v = hd_required (tx_header t) - hd_readonly_signed (tx_header t).
Proof.
  destruct (tx_bytes t Ht) as (B1 & B2 & B3 & B4 & _). destruct Hs as [_ S2 S3 _ _ _ _ _]. unfold is_byte in *.
  unfold num_writable_unsigned_static_accounts, num_static_unsigned_static_accounts, num_writable_signed_static_accounts. cbn [tv_frame].
  destruct (ac_counts _ _ _ (access_ok t Ht Hb)) as (_ & -> & _). rewrite (ac_header _ _ _ (access_ok t Ht Hb)).
  cbn [mh_num_required_signatures mh_num_readonly_signed_accounts mh_num_readonly_unsigned_accounts]. unfold wrapping_sub8.
  rewrite (Z.mod_small (len (tx_keys t) - _)) by lia. rewrite !Z.mod_small by lia. done.
Qed.
Lemma requested_exact i : 0 <= i < 2 ^ 63 -> is_requested_write v i = bool_decide (requested t i).
Proof.
  intros Hi. destruct (tx_bytes t Ht) as (B1 & B2 & B3 & B4 & _). destruct Hs as [_ S2 S3 _ _ _ _ _]. unfold is_byte in *.
  destruct sane_counts as [Hu Hw]. unfold is_requested_write. rewrite Hu, Hw. cbn [tv_frame].
  destruct (ac_counts _ _ _ (access_ok t Ht Hb)) as (_ & -> & _). destruct (ac_totals _ _ _ (access_ok t Ht Hb)) as [-> _].
  rewrite (ac_header _ _ _ (access_ok t Ht Hb)). cbn [mh_num_required_signatures]. unfold requested, wrapping_sub.
  repeat (case_bool_decide; try rewrite Z.mod_small in * by lia); try done; lia.
Qed.
Lemma account_keys_length d : addresses_match t d -> len (tx_account_keys t d) = total_accounts t.
Proof.
  unfold tx_account_keys, total_accounts, addresses_match. rewrite length_app. destruct d as [[w r]|]; cbn; [rewrite length_app|]; lia.
Qed.
Lemma total_accounts_bound : total_accounts t <= 256.
Proof. destruct Hs as [_ _ _ _ _ S6 _ _]. destruct (tx_version t); cbn in S6; lia. Qed.

(** The intervals of [requested] are counted. *)
Lemma seqZ_split (P : Z -> Prop) `{!forall i, Decision (P i)} a n m : 0 <= n <= m ->
  len (filter P (seqZ a m)) = len (filter P (seqZ a n)) + len (filter P (seqZ (a + n) (m - n))).
Proof. intros Hn. replace m with (n + (m - n)) at 1 by lia. rewrite seqZ_app by lia. rewrite filter_app, length_app. lia. Qed.
Lemma seqZ_none (P : Z -> Prop) `{!forall i, Decision (P i)} a n : (forall i, a <= i < a + n -> ~ P i) -> len (filter P (seqZ a n)) = 0.
Proof.
  intros Hn. assert (filter P (seqZ a n) = []) as ->; [|done]. apply elem_of_nil_inv. intros i [Hi Hin%elem_of_seqZ]%list_elem_of_filter.
  by apply (Hn i).
Qed.
Lemma seqZ_every (P : Z -> Prop) `{!forall i, Decision (P i)} a n : 0 <= n -> (forall i, a <= i < a + n -> P i) -> len (filter P (seqZ a n)) = n.
Proof.
  intros Hn Ha. assert (forall l : list Z, (forall i, i ∈ l -> P i) -> filter P l = l) as Hall.
  { induction l as [|x l IH]; intros Hl; [done|]. rewrite filter_cons_True by (apply Hl; left). f_equal. apply IH. intros i Hi. apply Hl. by right. }
  rewrite Hall; [rewrite length_seqZ; lia|]. intros i Hi%elem_of_seqZ. apply Ha. lia.
Qed.
Lemma requested_count : len (filter (requested t) (seqZ 0 (total_accounts t))) =
  len (tx_keys t) - hd_readonly_signed (tx_header t) - hd_readonly_unsigned (tx_header t) + total_writable (tx_lookups t).
Proof.
  destruct (tx_bytes t Ht) as (B1 & B2 & B3 & B4 & _). destruct Hs as [_ S2 S3 _ _ _ _ _]. unfold is_byte in *.
  pose proof (total_bounds (tx_lookups t)). set (h := tx_header t) in *.
  rewrite (seqZ_split _ 0 (hd_required h - hd_readonly_signed h)) by (unfold total_accounts; lia).
  rewrite (seqZ_every _ 0) by (unfold requested; fold h; lia).
  rewrite (seqZ_split _ _ (hd_readonly_signed h)), (seqZ_none _ _ (hd_readonly_signed h)) by (unfold requested, total_accounts; fold h; lia).
  rewrite (seqZ_split _ _ (len (tx_keys t) - hd_required h - hd_readonly_unsigned h)) by (unfold total_accounts; lia).
  rewrite (seqZ_every _ _ (len (tx_keys t) - _ - _)) by (unfold requested; fold h; lia).
  rewrite (seqZ_split _ _ (hd_readonly_unsigned h)), (seqZ_none _ _ (hd_readonly_unsigned h)) by (unfold requested, total_accounts; fold h; lia).
  rewrite (seqZ_split _ _ (total_writable (tx_lookups t))), (seqZ_every _ _ (total_writable _)) by (unfold requested, total_accounts; fold h; lia).
  rewrite seqZ_none by (unfold requested; fold h; lia). lia.
Qed.
Lemma write_locks_eq : num_requested_write_locks v = len (filter (requested t) (seqZ 0 (total_accounts t))).
Proof.
  rewrite requested_count. destruct (tx_bytes t Ht) as (B1 & B2 & B3 & B4 & _). pose proof total_accounts_bound as Htot. pose proof (total_bounds (tx_lookups t)).
  destruct Hs as [_ S2 S3 _ _ _ _ _]. unfold is_byte in *. unfold num_requested_write_locks. cbn [tv_frame]. unfold total_accounts in Htot.
  destruct (ac_counts _ _ _ (access_ok t Ht Hb)) as (_ & -> & _). destruct (ac_totals _ _ _ (access_ok t Ht Hb)) as [-> _]. rewrite (ac_header _ _ _ (access_ok t Ht Hb)).
  cbn [mh_num_readonly_signed_accounts mh_num_readonly_unsigned_accounts]. unfold wrapping_add16, wrapping_sub8.
  rewrite (Z.mod_small (len _ - _)) by lia. rewrite (Z.mod_small (_ - _ - _)) by lia. by rewrite Z.mod_small by lia.
Qed.
Lemma total_num_accounts_eq : total_num_accounts v = total_accounts t.
Proof.
  pose proof total_accounts_bound as Htot. pose proof (total_bounds (tx_lookups t)). unfold total_num_accounts, total_accounts in *. cbn [tv_frame].
  destruct (ac_counts _ _ _ (access_ok t Ht Hb)) as (_ & -> & _). destruct (ac_totals _ _ _ (access_ok t Ht Hb)) as [-> ->].
  unfold wrapping_add16. rewrite (Z.mod_small (len _ + _)) by lia. by rewrite Z.mod_small by lia.
Qed.
(** The programs of the instructions are keys. *)
Lemma programs_found : exists l, program_instructions_iter v = Some l /\ snd <$> l = tx_instructions t /\
  Forall (fun x => tx_keys t !! Z.to_nat (ix_program_id_index x.2) = Some x.1) l.
Proof.
  unfold program_instructions_iter. cbn [tv_frame tv_data]. rewrite (ac_keys _ _ _ (access_ok t Ht Hb)), (ac_instructions _ _ _ (access_ok t Ht Hb)). cbn [mbind option_bind].
  destruct Hs as [_ _ _ _ _ _ [_ S7] _]. induction S7 as [|ix l [Hp _] _ IH]; [by exists []|]. destruct IH as (r & Hr & Hr1 & Hr2).
  destruct (lookup_lt_is_Some_2 (tx_keys t) (Z.to_nat (ix_program_id_index ix))) as [key Hkey]; [lia|].
  exists ((key, ix) :: r). cbn [mapM]. assert (index_key (tx_keys t) (ix_program_id_index ix) = Some key) as -> by done. cbn [mbind option_bind]. rewrite Hr. cbn. rewrite Hr1. split; [done|]. split; [done|]. by constructor.
Qed.

Context `{!AccountKeysLaws}.
Lemma cache_exact d reserved : addresses_match t d -> exists cache, cache_is_writable v d reserved = Some cache /\
  forall i, 0 <= i < 2 ^ 63 -> default false (cache !! Z.to_nat i) = true <-> may_write t d reserved i.
Proof.
  intros Hd. pose proof (account_keys_length d Hd) as Hlen. pose proof total_accounts_bound as Htot.
  unfold cache_is_writable. cbn [tv_frame tv_data]. rewrite (ac_keys _ _ _ (access_ok t Ht Hb)), (ac_instructions _ _ _ (access_ok t Ht Hb)). cbn [mbind option_bind].
  rewrite account_keys_order. fold (tx_account_keys t d).
  destruct (fill_cache_spec v reserved (tx_account_keys t d) 0 (replicate 256 false)) as (c1 & -> & Hl1 & Hc1); [rewrite length_replicate; lia|]. rewrite length_replicate in Hl1.
  cbn [mbind option_bind]. destruct (lock_programs_spec (tx_account_keys t d) (tx_instructions t) None c1) as (c2 & -> & Hc2); [|by left|].
  { destruct Hs as [_ _ _ _ _ _ [_ S7] _]. destruct (tx_bytes t Ht) as (_ & _ & _ & B4 & _). eapply Forall_impl; [exact S7|]. intros ix [? _]. simpl. lia. }
  exists c2. split; [done|]. intros i Hi. rewrite Hc2, Hc1, Nat.sub_0_r. unfold may_write.
  assert (loader_in (tx_account_keys t d) || forallb (fun ix => negb (bool_decide (ix_program_id_index ix = Z.of_nat (Z.to_nat i)))) (tx_instructions t) = true <->
    (bpf_loader_upgradeable ∈ tx_account_keys t d \/ Forall (fun ix => ix_program_id_index ix <> i) (tx_instructions t))) as Hlast.
  { rewrite orb_true_iff, existsb_exists, forallb_forall, Forall_forall. setoid_rewrite list_elem_of_In. rewrite Z2Nat.id by lia.
    f_equiv.
    - split; [by intros (k & Hk & ->%bool_decide_eq_true)|]. intros Hk. exists bpf_loader_upgradeable. split; [done|by apply bool_decide_eq_true].
    - apply forall_proper; intros x. apply forall_proper; intros _. by rewrite negb_true_iff, bool_decide_eq_false. }
  destruct (decide (0 <= Z.to_nat i < 0 + length (tx_account_keys t d))%nat) as [Hin|Hin].
  - destruct (lookup_lt_is_Some_2 (tx_account_keys t d) (Z.to_nat i)) as [key Hkey]; [lia|]. rewrite Hkey. cbn [fmap option_fmap option_map from_option]. unfold id.
    rewrite !andb_true_iff, Hlast. rewrite Z2Nat.id by lia. rewrite requested_exact by done. rewrite bool_decide_eq_true, negb_true_iff, bool_decide_eq_false.
    split; [intros [[? ?] ?]; split_and!; [done|by exists key|done]|]. intros (? & (k & [= <-] & ?) & ?). done.
  - destruct (replicate 256 false !! Z.to_nat i) as [w|] eqn:Ew.
    + apply lookup_replicate in Ew as [-> _]. cbn. split; [done|]. intros (_ & (k & Hk%lookup_lt_Some & _) & _). lia.
    + cbn. split; [done|]. intros (_ & (k & Hk%lookup_lt_Some & _) & _). lia.
Qed.
End sane.

(** ** Properties *)

Context `{!AccountKeysLaws}.

Lemma sanitized_tx b lim v : bytes_ok b -> try_new_sanitized b lim = Some (Ok v) ->
  exists t, tx_ok t /\ sane lim t /\ b = encode t /\ v = mkView b (tx_frame t).
Proof.
  intros Hb. unfold try_new_sanitized, try_new_unsanitized. destruct (frame_cases b Hb) as [(t & Ht & -> & ->)|[[e ->] _]]; cbn [then_check]; [|done].
  unfold view_sanitize. destruct (sanitize_cases t Ht Hb lim) as [[Hs ->]|[Hs ->]]; [|done]. cbn [then_check]. intros [= <-]. by exists t.
Qed.

(** C34: Resolving is exact.  For a sanitized transaction it succeeds exactly if the
    addresses have the numbers that its lookups ask for; then an account may be written
    exactly if the header or the lookups request it, its key is not reserved, and it is
    not a program that the transaction runs, unless the upgradeable loader is among the
    accounts.  No index is out of the table of 256 entries. *)
Theorem resolved_exact b lim v (Hb : bytes_ok b) (Hv : try_new_sanitized b lim = Some (Ok v)) :
  exists t, tx_ok t /\ sane lim t /\ b = encode t /\
  forall d reserved,
    (addresses_match t d /\ exists r, resolved_try_new v d reserved = Some (Ok r) /\
       forall i, 0 <= i < 2 ^ 63 -> is_writable r i = true <-> may_write t d reserved i) \/
    (~ addresses_match t d /\ resolved_try_new v d reserved = Some (Err AddressLookupMismatch)).
Proof.
  destruct (sanitized_tx b lim v Hb Hv) as (t & Ht & Hs & -> & ->). exists t. split; [done|]. split; [done|]. split; [done|]. intros d reserved.
  pose proof (cache_exact t lim Ht Hs Hb d reserved) as Hc. unfold resolved_try_new. cbn [tv_frame].
  destruct (ac_totals _ _ _ (access_ok t Ht Hb)) as [-> ->]. rewrite (ac_header _ _ _ (access_ok t Ht Hb)). cbn [mh_version].
  assert (forall r : option (result TransactionViewError ResolvedTransactionView), addresses_match t d -> (cache ← cache_is_writable (mkView (encode t) (tx_frame t)) d reserved;
    Some (Ok (mkResolved (mkView (encode t) (tx_frame t)) d cache))) = r -> addresses_match t d /\ exists x, r = Some (Ok x) /\
    forall i, 0 <= i < 2 ^ 63 -> is_writable x i = true <-> may_write t d reserved i) as Hgo.
  { intros r Hd <-. split; [done|]. destruct (Hc Hd) as (cache & -> & Hspec). eexists. split; [reflexivity|]. exact Hspec. }
  unfold addresses_match in *. destruct d as [[w r]|]; cbn [la_writable la_readonly] in *.
  - rewrite (bool_decide_false (Some _ = None)), andb_false_r by done. repeat case_bool_decide; cbn [negb orb]; [left; by eapply Hgo|right; split; [tauto|done]..].
  - rewrite (bool_decide_true (None = None)), andb_true_r by done. repeat case_bool_decide; cbn [negb orb]; try (right; split; [tauto|done]). left. by eapply Hgo.
Qed.

(** What block packing counts is what is requested: the number of write locks of a
    sanitized transaction is the number of its accounts whose writing the header or a
    lookup requests, the number of accounts is that of its keys and looked-up addresses,
    every instruction is returned with the key of its program, and the fee payer exists
    and is requested for writing; nothing wraps around or panics. *)
Theorem write_locks_exact b lim v (Hb : bytes_ok b) (Hv : try_new_sanitized b lim = Some (Ok v)) :
  exists t, tx_ok t /\ b = encode t /\
    num_requested_write_locks v = len (filter (requested t) (seqZ 0 (total_accounts t))) /\
    total_num_accounts v = total_accounts t /\
    (exists l, program_instructions_iter v = Some l /\ snd <$> l = tx_instructions t /\
       Forall (fun x => tx_keys t !! Z.to_nat (ix_program_id_index x.2) = Some x.1) l) /\
    (exists payer, fee_payer v = Some payer /\ tx_keys t !! 0%nat = Some payer /\ requested t 0).
Proof.
  destruct (sanitized_tx b lim v Hb Hv) as (t & Ht & Hs & -> & ->). exists t. split; [done|]. split; [done|].
  split; [by apply (write_locks_eq t lim)|]. split; [by apply (total_num_accounts_eq t lim)|]. split; [by apply (programs_found t lim)|].
  destruct (tx_bytes t Ht) as (B1 & B2 & B3 & _). destruct Hs as [_ S2 S3 _ _ _ _ _]. unfold is_byte in *.
  unfold fee_payer. cbn [tv_frame tv_data]. rewrite (ac_keys _ _ _ (access_ok t Ht Hb)). cbn [mbind option_bind].
  destruct (lookup_lt_is_Some_2 (tx_keys t) 0) as [payer Hp]; [lia|]. exists payer. split; [done|]. split; [done|]. unfold requested. lia.
Qed.
End resolved.

(** ** An instance *)

Definition chain_keys : AccountKeysOps := {| account_keys static d := static ++ dynamic_keys d |}.
#[local] Existing Instance chain_keys.
Lemma chain_keys_laws : AccountKeysLaws.
Proof. by split. Qed.
Lemma resolved_exact_witness :
  exists v t, try_new_sanitized (encode example_v0) true = Some (Ok v) /\ encode example_v0 = encode t /\
    exists r, resolved_try_new [] v (Some (mkLoaded [repeat 8 32] [])) ∅ = Some (Ok r) /\ is_writable r 2 = true.
Proof.
  assert (bytes_ok (encode example_v0)) as Hb by (apply bytes_ok_compute; [vm_compute; reflexivity|vm_compute; discriminate]).
  pose (mkView (encode example_v0) (tx_frame example_v0)) as v.
  assert (try_new_sanitized (encode example_v0) true = Some (Ok v)) as Hv by (vm_compute; reflexivity).
  destruct (@resolved_exact chain_keys [] chain_keys_laws (encode example_v0) true v Hb Hv) as (t & _ & _ & He & Hall).
  exists v, t. split; [exact Hv|]. split; [exact He|].
  destruct (Hall (Some (mkLoaded [repeat 8 32] [])) ∅) as [(_ & r & Hr & _)|[_ Hr]].
  - exists r. split; [exact Hr|].
    assert (match resolved_try_new [] v (Some (mkLoaded [repeat 8 32] [])) ∅ with Some (Ok r) => is_writable r 2 | _ => false end = true) as Hw by (vm_compute; reflexivity).
    rewrite Hr in Hw. exact Hw.
  - exfalso. assert (match resolved_try_new [] v (Some (mkLoaded [repeat 8 32] [])) ∅ with Some (Ok r) => is_writable r 2 | _ => false end = true) as Hw by (vm_compute; reflexivity).
    rewrite Hr in Hw. discriminate Hw.
Defined.
Lemma write_locks_exact_witness :
  exists t, encode example_v0 = encode t /\
    num_requested_write_locks (mkView (encode example_v0) (tx_frame example_v0)) = len (filter (requested t) (seqZ 0 (total_accounts t))) /\
    num_requested_write_locks (mkView (encode example_v0) (tx_frame example_v0)) = 2.
Proof.
  assert (bytes_ok (encode example_v0)) as Hb by (apply bytes_ok_compute; [vm_compute; reflexivity|vm_compute; discriminate]).
  assert (try_new_sanitized (encode example_v0) true = Some (Ok (mkView (encode example_v0) (tx_frame example_v0)))) as Hv by (vm_compute; reflexivity).
  destruct (write_locks_exact (encode example_v0) true _ Hb Hv) as (t & _ & He & Hn & _). exists t. split; [exact He|]. split; [exact Hn|]. vm_compute. reflexivity.
Defined.
