(* ===== verification/AccountLocks.v ===== *)
(** * Account locks of the bank

    [accounts-db/src/account_locks.rs], the locking functions of
    [accounts-db/src/accounts.rs] and [runtime/src/bank.rs], and
    [runtime/src/transaction_batch.rs]: before a batch of transactions is executed, the
    accounts they touch are locked, and the batch unlocks them when it is dropped.  Each
    function runs under one mutex, so threads interleave whole functions.

    A key is a value of any countable type and a transaction is what the code asks of
    one: its keys, which of them it writes, and the hash of its message. *)

From S2P Require Import Prelude.

(** The errors of [TransactionError] that locking makes, and all others. *)
Inductive TransactionError := AccountInUse | TooManyAccountLocks | AccountLoadedTwice | AlreadyProcessed | OtherTransactionError (code : Z).
Abbreviation TransactionResult A := (result TransactionError A).

Section locks.
Context {K : Type} `{Countable K}.

(** ** [account_locks.rs] *)

Record AccountLocks := mkLocks { write_locks : gmap K Z; readonly_locks : gmap K Z }.
Definition locks_default : AccountLocks := mkLocks ∅ ∅.

Definition is_locked_readonly (l : AccountLocks) (key : K) : bool :=
  match readonly_locks l !! key with Some count => bool_decide (count > 0) | None => false end.
Definition is_locked_write (l : AccountLocks) (key : K) : bool :=
  match write_locks l !! key with Some count => bool_decide (count > 0) | None => false end.
Definition can_read_lock (l : AccountLocks) (key : K) : bool := negb (is_locked_write l key).
Definition can_write_lock (l : AccountLocks) (key : K) : bool := negb (is_locked_readonly l key) && negb (is_locked_write l key).
Definition incr (m : gmap K Z) (key : K) : gmap K Z := <[key := (default 0 (m !! key) + 1) mod 2 ^ 64]> m.
Definition lock_readonly (l : AccountLocks) (key : K) : AccountLocks := mkLocks (write_locks l) (incr (readonly_locks l) key).
Definition lock_write (l : AccountLocks) (key : K) : AccountLocks := mkLocks (incr (write_locks l) key) (readonly_locks l).
(** Without debug assertions an entry that is not there is ignored. *)
Definition decr (m : gmap K Z) (key : K) : gmap K Z :=
  match m !! key with
  | Some count => let count := (count - 1) mod 2 ^ 64 in if bool_decide (count = 0) then delete key m else <[key := count]> m
  | None => m
  end.
Definition unlock_readonly (l : AccountLocks) (key : K) : AccountLocks := mkLocks (write_locks l) (decr (readonly_locks l) key).
Definition unlock_write (l : AccountLocks) (key : K) : AccountLocks := mkLocks (decr (write_locks l) key) (readonly_locks l).

Definition lock_account (l : AccountLocks) (x : K * bool) : AccountLocks := if x.2 then lock_write l x.1 else lock_readonly l x.1.
Definition lock_accounts (l : AccountLocks) (keys : list (K * bool)) : AccountLocks := foldl lock_account l keys.
Definition unlock_account (l : AccountLocks) (x : K * bool) : AccountLocks := if x.2 then unlock_write l x.1 else unlock_readonly l x.1.
Definition unlock_accounts (l : AccountLocks) (keys : list (K * bool)) : AccountLocks := foldl unlock_account l keys.
Definition can_lock_accounts (l : AccountLocks) (keys : list (K * bool)) : TransactionResult unit :=
  if forallb (fun x => if x.2 : bool then can_write_lock l x.1 else can_read_lock l x.1) keys then Ok tt else Err AccountInUse.
(** First every transaction is checked against the locks there are, then the ones that
    passed are locked. *)
Definition check_available (l : AccountLocks) (r : TransactionResult (list (K * bool))) : TransactionResult (list (K * bool)) :=
  match r with
  | Ok keys => match can_lock_accounts l keys with Ok _ => Ok keys | Err e => Err e end
  | Err e => Err e
  end.
Definition lock_available (l : AccountLocks) (rs : list (TransactionResult (list (K * bool)))) : AccountLocks :=
  foldl (fun l r => match r with Ok keys => lock_accounts l keys | Err _ => l end) l rs.
Definition as_unit {A} (r : TransactionResult A) : TransactionResult unit := match r with Ok _ => Ok tt | Err e => Err e end.
Definition try_lock_transaction_batch (l : AccountLocks) (validated_batch_keys : list (TransactionResult (list (K * bool))))
    : AccountLocks * list (TransactionResult unit) :=
  let available := check_available l <$> validated_batch_keys in
  (lock_available l available, as_unit <$> available).

(** The quadratic search of short lists and the set of long ones. *)
Fixpoint pairwise_duplicate (keys : list K) : bool :=
  match keys with
  | [] => false
  | key :: keys => existsb (fun k => bool_decide (key = k)) keys || pairwise_duplicate keys
  end.
Fixpoint set_duplicate (set : gset K) (keys : list K) : bool :=
  match keys with
  | [] => false
  | key :: keys => bool_decide (key ∈ set) || set_duplicate ({[key]} ∪ set) keys
  end.
Definition USE_ACCOUNT_LOCK_SET_SIZE : Z := 32.
Definition has_duplicates (account_keys : list K) : bool :=
  if bool_decide (Z.of_nat (length account_keys) >= USE_ACCOUNT_LOCK_SET_SIZE) then set_duplicate ∅ account_keys else pairwise_duplicate account_keys.
Definition validate_account_locks (account_keys : list K) (tx_account_lock_limit : Z) : TransactionResult unit :=
  if bool_decide (Z.of_nat (length account_keys) > tx_account_lock_limit) then Err TooManyAccountLocks
  else if has_duplicates account_keys then Err AccountLoadedTwice
  else Ok tt.

(** ** [accounts.rs] and [bank.rs] *)

Record LockTx := mkLockTx { lt_account_keys : list K; lt_is_writable : nat -> bool; lt_message_hash : Z }.
Definition accounts_with_is_writable (tx : LockTx) : list (K * bool) := imap (fun index key => (key, lt_is_writable tx index)) (lt_account_keys tx).
Definition validate_tx (tx_account_lock_limit : Z) (tx : LockTx) (result : TransactionResult unit) : TransactionResult (list (K * bool)) :=
  match result with
  | Err e => Err e
  | Ok _ => match validate_account_locks (lt_account_keys tx) tx_account_lock_limit with Ok _ => Ok (accounts_with_is_writable tx) | Err e => Err e end
  end.
Definition accounts_lock_accounts (l : AccountLocks) (txs : list LockTx) (results : list (TransactionResult unit)) (tx_account_lock_limit : Z)
    : AccountLocks * list (TransactionResult unit) :=
  try_lock_transaction_batch l (zip_with (validate_tx tx_account_lock_limit) txs results).
Definition is_ok {E A} (r : result E A) : bool := match r with Ok _ => true | Err _ => false end.
Definition accounts_unlock_accounts (l : AccountLocks) (txs_and_results : list (LockTx * TransactionResult unit)) : AccountLocks :=
  if negb (existsb (fun x => is_ok x.2) txs_and_results) then l
  else foldl (fun l x => if is_ok x.2 then unlock_accounts l (accounts_with_is_writable x.1) else l) l txs_and_results.

(** A transaction whose message hash an earlier one of the batch has is refused. *)
Fixpoint refuse_repeated (batch_message_hashes : gset Z) (hashes : list Z) (tx_results : list (TransactionResult unit)) : list (TransactionResult unit) :=
  match hashes, tx_results with
  | hash :: hashes, Ok _ :: tx_results =>
    (if bool_decide (hash ∈ batch_message_hashes) then Err AlreadyProcessed else Ok tt) ::
    refuse_repeated ({[hash]} ∪ batch_message_hashes) hashes tx_results
  | _ :: hashes, Err e :: tx_results => Err e :: refuse_repeated batch_message_hashes hashes tx_results
  | _, _ => []
  end.
Definition try_lock_accounts_with_results (l : AccountLocks) (tx_account_lock_limit : Z) (txs : list LockTx) (tx_results : list (TransactionResult unit))
    : AccountLocks * list (TransactionResult unit) :=
  accounts_lock_accounts l txs (refuse_repeated ∅ (lt_message_hash <$> txs) tx_results) tx_account_lock_limit.

(** ** [transaction_batch.rs] *)

Record TransactionBatch := mkBatch { tb_lock_results : list (TransactionResult unit); tb_sanitized_txs : list LockTx; tb_needs_unlock : bool }.
Definition batch_new (lock_results : list (TransactionResult unit)) (sanitized_txs : list LockTx) : option TransactionBatch :=
  rust_assert (bool_decide (length lock_results = length sanitized_txs)) ;;
  Some (mkBatch lock_results sanitized_txs true).
Definition prepare_sanitized_batch_with_results (l : AccountLocks) (tx_account_lock_limit : Z) (txs : list LockTx) (results : list (TransactionResult unit))
    : option (AccountLocks * TransactionBatch) :=
  let '(l, lock_results) := try_lock_accounts_with_results l tx_account_lock_limit txs results in
  batch ← batch_new lock_results txs;
  Some (l, batch).
Definition prepare_unlocked_batch_from_single_tx (tx_account_lock_limit : Z) (tx : LockTx) : option TransactionBatch :=
  let lock_result := validate_account_locks (lt_account_keys tx) tx_account_lock_limit in
  batch ← batch_new [lock_result] [tx];
  Some (mkBatch (tb_lock_results batch) (tb_sanitized_txs batch) false).
(** The failures that become unlocked: their new result is an error, the old one not. *)
Definition new_failures (txs : list LockTx) (old new : list (TransactionResult unit)) : list (LockTx * TransactionResult unit) :=
  (fun x => (x.1, x.2.1)) <$> filter (fun x => negb (is_ok x.2.2) && is_ok x.2.1 = true) (zip txs (zip old new)).
Definition unlock_failures (l : AccountLocks) (b : TransactionBatch) (transaction_results : list (TransactionResult unit))
    : option (AccountLocks * TransactionBatch) :=
  rust_assert (bool_decide (length (tb_lock_results b) = length transaction_results)) ;;
  if negb (tb_needs_unlock b) then Some (l, b)
  else
    rust_assert (forallb (fun x => negb (is_ok x.1 && negb (is_ok x.2))) (zip transaction_results (tb_lock_results b))) ;;
    let l := accounts_unlock_accounts l (new_failures (tb_sanitized_txs b) (tb_lock_results b) transaction_results) in
    Some (l, mkBatch transaction_results (tb_sanitized_txs b) true).
Definition batch_drop (l : AccountLocks) (b : TransactionBatch) : AccountLocks :=
  if tb_needs_unlock b then accounts_unlock_accounts l (zip (tb_sanitized_txs b) (tb_lock_results b)) else l.
End locks.
Arguments AccountLocks K {_ _}.
Arguments LockTx K : clear implicits.
Arguments TransactionBatch K : clear implicits.
