(* ===== verification/LockTheorems.v ===== *)
(** * Account locks are exact

    The tables of counts are those of the locks that are held, an account is never
    written by one batch while another batch has locked it, and dropping the batches
    gives all locks back. *)

From S2P Require Import Prelude.
From S2P Require Import AccountLocks.

(** ** Occurrences *)

Section occurrences.
Context {A : Type} `{EqDecision A}.
Implicit Types (x y : A) (held : list A).

(** How often [x] is in a list. *)
Definition occ (x : A) (held : list A) : Z := Z.of_nat (length (filter (eq x) held)).
Lemma occ_cons x y held : occ x (y :: held) = (if decide (x = y) then 1 else 0) + occ x held.
Proof. unfold occ. rewrite filter_cons. destruct (decide (x = y)); [rewrite length_cons; lia|lia]. Qed.
Lemma occ_bound x held : 0 <= occ x held <= Z.of_nat (length held).
Proof. unfold occ. pose proof (length_filter (eq x) held). lia. Qed.
Lemma occ_pos x held : 0 < occ x held <-> x ∈ held.
Proof.
  induction held as [|y held IH]; [split; [unfold occ; simpl; lia|by intros ?%elem_of_nil]|]. rewrite occ_cons, elem_of_cons, <-IH.
  pose proof (occ_bound x held). destruct (decide (x = y)); naive_solver lia.
Qed.
#[global] Instance occ_proper x : Proper ((≡ₚ) ==> eq) (occ x).
Proof. intros h h' Hp. unfold occ. by rewrite Hp. Qed.
End occurrences.

Section theorems.
Context {K : Type} `{Countable K}.

(** ** Counts *)

Definition nonzero (n : Z) : option Z := if bool_decide (n = 0) then None else Some n.
Definition represents (l : AccountLocks K) (held : list (K * bool)) : Prop :=
  (forall k, write_locks l !! k = nonzero (occ (k, true) held)) /\ (forall k, readonly_locks l !! k = nonzero (occ (k, false) held)).
Definition bounded (held : list (K * bool)) : Prop := Z.of_nat (length held) < 2 ^ 64.

#[global] Instance represents_proper l : Proper ((≡ₚ) ==> iff) (represents l).
Proof. intros h h' Hp. unfold represents. by setoid_rewrite Hp. Qed.
Lemma locks_default_represents : represents locks_default [].
Proof. split; intros k; apply lookup_empty. Qed.

Lemma incr_spec (m : gmap K Z) key (b : bool) held : (forall k, m !! k = nonzero (occ (k, b) held)) -> bounded ((key, b) :: held) ->
  forall k, incr m key !! k = nonzero (occ (k, b) ((key, b) :: held)).
Proof.
  intros Hm Hb k. unfold incr. rewrite occ_cons, !Hm. pose proof (occ_bound (key, b) held). unfold bounded in Hb. rewrite length_cons in Hb.
  assert (default 0 (nonzero (occ (key, b) held)) = occ (key, b) held) as -> by (unfold nonzero; case_bool_decide; simpl; lia).
  rewrite Z.mod_small by lia. destruct (decide (k = key)) as [->|Hk].
  - rewrite lookup_insert_eq, decide_True by done. unfold nonzero. rewrite bool_decide_false by lia. f_equal. lia.
  - rewrite lookup_insert_ne by done. rewrite decide_False by congruence. by rewrite Hm.
Qed.
Lemma incr_other (m : gmap K Z) k (b : bool) y held : y.2 <> b -> m !! k = nonzero (occ (k, b) held) -> m !! k = nonzero (occ (k, b) (y :: held)).
Proof. intros Hy ->. rewrite occ_cons, decide_False; [done|]. intros <-. done. Qed.
Lemma lock_account_rep l x held : represents l held -> bounded (x :: held) -> represents (lock_account l x) (x :: held).
Proof.
  intros [Hw Hr] Hb. destruct x as [key []]; unfold lock_account; cbn [fst snd]; (split; [cbn [write_locks lock_write lock_readonly]|cbn [readonly_locks lock_write lock_readonly]]).
  - by apply incr_spec.
  - intros k. by apply incr_other.
  - intros k. by apply incr_other.
  - by apply incr_spec.
Qed.
Lemma decr_spec (m : gmap K Z) key (b : bool) held : (forall k, m !! k = nonzero (occ (k, b) ((key, b) :: held))) -> bounded held ->
  forall k, decr m key !! k = nonzero (occ (k, b) held).
Proof.
  intros Hm Hb k. unfold bounded in Hb. pose proof (occ_bound (key, b) held). unfold decr. rewrite Hm, occ_cons, decide_True by done.
  unfold nonzero at 1. rewrite bool_decide_false by lia. cbv zeta. replace ((1 + occ (key, b) held - 1) mod 2 ^ 64) with (occ (key, b) held) by (rewrite Z.mod_small; lia).
  destruct (decide (k = key)) as [->|Hk].
  - unfold nonzero. case_bool_decide; [by rewrite lookup_delete_eq|by rewrite lookup_insert_eq].
  - transitivity (m !! k); [|by rewrite Hm, occ_cons, decide_False by congruence].
    case_bool_decide; [by rewrite lookup_delete_ne|by rewrite lookup_insert_ne].
Qed.
Lemma decr_other (m : gmap K Z) k (b : bool) y held : y.2 <> b -> m !! k = nonzero (occ (k, b) (y :: held)) -> m !! k = nonzero (occ (k, b) held).
Proof. intros Hy ->. rewrite occ_cons, decide_False; [done|]. intros <-. done. Qed.
Lemma unlock_account_rep l x held : represents l (x :: held) -> bounded held -> represents (unlock_account l x) held.
Proof.
  intros [Hw Hr] Hb. destruct x as [key []]; unfold unlock_account; cbn [fst snd]; (split; [cbn [write_locks unlock_write unlock_readonly]|cbn [readonly_locks unlock_write unlock_readonly]]).
  - by apply decr_spec.
  - intros k. by apply (decr_other _ k _ (key, true)).
  - intros k. by apply (decr_other _ k _ (key, false)).
  - by apply decr_spec.
Qed.
Lemma bounded_app_r h1 h2 : bounded (h1 ++ h2) -> bounded h2.
Proof. unfold bounded. rewrite length_app. lia. Qed.
Lemma lock_accounts_rep keys : forall l held, represents l held -> bounded (keys ++ held) -> represents (lock_accounts l keys) (keys ++ held).
Proof.
  induction keys as [|x keys IH]; intros l held Hl Hb; [done|]. cbn [lock_accounts foldl]. rewrite (Permutation_middle keys held x).
  apply IH; [|by unfold bounded in *; rewrite length_app in *; cbn [length] in *; lia]. apply lock_account_rep; [done|].
  unfold bounded in *. cbn [length app] in *. rewrite length_app in Hb. lia.
Qed.
Lemma unlock_accounts_rep keys : forall l held, represents l (keys ++ held) -> bounded (keys ++ held) -> represents (unlock_accounts l keys) held.
Proof.
  induction keys as [|x keys IH]; intros l held Hl Hb; [done|]. cbn [unlock_accounts foldl]. apply (bounded_app_r [x]) in Hb.
  apply IH; [|done]. by apply unlock_account_rep.
Qed.

(** ** Conflicts *)

Definition conflict (x y : K * bool) : Prop := x.1 = y.1 /\ (x.2 = true \/ y.2 = true).
Definition compatible (h1 h2 : list (K * bool)) : Prop := forall x y, x ∈ h1 -> y ∈ h2 -> ~ conflict x y.
Lemma locked_write_exact l held k : represents l held -> is_locked_write l k = true <-> (k, true) ∈ held.
Proof.
  intros [Hw _]. unfold is_locked_write. rewrite Hw, <-occ_pos. unfold nonzero. pose proof (occ_bound (k, true) held).
  case_bool_decide; [split; [done|lia]|]. rewrite bool_decide_eq_true. lia.
Qed.
Lemma locked_readonly_exact l held k : represents l held -> is_locked_readonly l k = true <-> (k, false) ∈ held.
Proof.
  intros [_ Hr]. unfold is_locked_readonly. rewrite Hr, <-occ_pos. unfold nonzero. pose proof (occ_bound (k, false) held).
  case_bool_decide; [split; [done|lia]|]. rewrite bool_decide_eq_true. lia.
Qed.
Lemma can_lock_one l held x : represents l held ->
  (if x.2 : bool then can_write_lock l x.1 else can_read_lock l x.1) = true <-> forall y, y ∈ held -> ~ conflict x y.
Proof.
  intros Hl. pose proof (locked_write_exact l held x.1 Hl) as Hw. pose proof (locked_readonly_exact l held x.1 Hl) as Hr. unfold can_write_lock, can_read_lock, conflict.
  destruct x as [k []]; cbn [fst snd] in *.
  - rewrite andb_true_iff, !negb_true_iff, <-!not_true_iff_false, Hw, Hr. split.
    + intros [H1 H2] [k' []] Hy [He _]; cbn in He; subst; done.
    + intros Hall. split; intros Hin; eapply (Hall _ Hin); cbn; auto.
  - rewrite negb_true_iff, <-not_true_iff_false, Hw. split.
    + intros H1 [k' []] Hy [He [?|?]]; cbn in *; subst; done.
    + intros Hall Hin. eapply (Hall _ Hin); cbn; auto.
Qed.
Lemma can_lock_exact l held keys : represents l held -> can_lock_accounts l keys = Ok tt <-> compatible keys held.
Proof.
  intros Hl. unfold can_lock_accounts, compatible. destruct (forallb _ keys) eqn:Ef.
  - split; [intros _ x y Hx|done]. rewrite forallb_forall in Ef. apply list_elem_of_In, Ef in Hx. by apply (can_lock_one l held x Hl).
  - split; [done|]. intros Hc. apply not_true_iff_false in Ef. destruct Ef. apply forallb_forall. intros x Hx. apply (can_lock_one l held x Hl).
    intros y. apply Hc. by apply list_elem_of_In.
Qed.
Lemma can_lock_err (l : AccountLocks K) keys e : can_lock_accounts l keys = Err e -> e = AccountInUse.
Proof. unfold can_lock_accounts. destruct (forallb _ _); [done|]. by intros [= <-]. Qed.

(** ** Duplicates *)

Lemma pairwise_duplicate_exact (keys : list K) : pairwise_duplicate keys = false <-> NoDup keys.
Proof.
  induction keys as [|k keys IH]; cbn [pairwise_duplicate]; [split; [constructor|done]|]. rewrite orb_false_iff, IH, NoDup_cons. f_equiv.
  rewrite <-not_true_iff_false, existsb_exists. setoid_rewrite bool_decide_eq_true. setoid_rewrite <-list_elem_of_In. naive_solver.
Qed.
Lemma set_duplicate_exact (keys : list K) : forall set, set_duplicate set keys = false <-> NoDup keys /\ forall k, k ∈ keys -> k ∉ set.
Proof.
  induction keys as [|k keys IH]; intros set; cbn [set_duplicate].
  - split; [intros _; split; [constructor|by intros k ?%elem_of_nil]|done].
  - rewrite orb_false_iff, IH, NoDup_cons, bool_decide_eq_false. setoid_rewrite elem_of_cons. set_solver.
Qed.
Lemma has_duplicates_exact (keys : list K) : has_duplicates keys = false <-> NoDup keys.
Proof.
  unfold has_duplicates. case_bool_decide; [|apply pairwise_duplicate_exact]. rewrite set_duplicate_exact. set_solver.
Qed.
Lemma validate_exact (keys : list K) limit :
  match validate_account_locks keys limit with
  | Ok _ => Z.of_nat (length keys) <= limit /\ NoDup keys
  | Err TooManyAccountLocks => Z.of_nat (length keys) > limit
  | Err AccountLoadedTwice => Z.of_nat (length keys) <= limit /\ ~ NoDup keys
  | Err _ => False
  end.
Proof.
  unfold validate_account_locks. case_bool_decide; [done|]. destruct (has_duplicates keys) eqn:Ed.
  - split; [lia|]. rewrite <-has_duplicates_exact, Ed. done.
  - split; [lia|]. by apply has_duplicates_exact.
Qed.

(** ** Batches *)

Abbreviation Results := (list (TransactionResult unit)).
(** The locks that the transactions with a result [Ok] hold. *)
Definition locked_of (txs : list (LockTx K)) (rs : Results) : list (K * bool) :=
  concat (zip_with (fun tx r => if is_ok r then accounts_with_is_writable tx else []) txs rs).
Definition batch_held (b : TransactionBatch K) : list (K * bool) :=
  if tb_needs_unlock b then locked_of (tb_sanitized_txs b) (tb_lock_results b) else [].

(** What locking a transaction should give. *)
Definition outcome (held : list (K * bool)) (limit : Z) (tx : LockTx K) (given out : TransactionResult unit) : Prop :=
  match given with
  | Err e => out = Err e
  | Ok _ =>
    let keys := lt_account_keys tx in
    match out with
    | Ok _ => Z.of_nat (length keys) <= limit /\ NoDup keys /\ compatible (accounts_with_is_writable tx) held
    | Err TooManyAccountLocks => Z.of_nat (length keys) > limit
    | Err AccountLoadedTwice => Z.of_nat (length keys) <= limit /\ ~ NoDup keys
    | Err AccountInUse => Z.of_nat (length keys) <= limit /\ NoDup keys /\ ~ compatible (accounts_with_is_writable tx) held
    | Err _ => False
    end
  end.
Lemma check_outcome l held limit tx given : represents l held ->
  outcome held limit tx given (as_unit (check_available l (validate_tx limit tx given))) /\
  match check_available l (validate_tx limit tx given) with Ok keys => keys = accounts_with_is_writable tx | Err _ => True end.
Proof.
  intros Hl. destruct given as [[]|e]; [|done]. unfold outcome, validate_tx. pose proof (validate_exact (lt_account_keys tx) limit) as Hv.
  destruct (validate_account_locks _ _) as [[]|e]; cbn [check_available].
  - destruct Hv as [H1 H2]. pose proof (can_lock_exact l held (accounts_with_is_writable tx) Hl) as Hc. destruct (can_lock_accounts _ _) as [[]|e] eqn:Ec; cbn.
    + split; [|done]. split; [done|]. split; [done|]. by apply Hc.
    + apply can_lock_err in Ec as ->. split; [|done]. split; [done|]. split; [done|]. intros ?%Hc. done.
  - cbn. by destruct e.
Qed.
Lemma as_unit_ok {A} (r : TransactionResult A) : is_ok (as_unit r) = is_ok r.
Proof. by destruct r. Qed.

Abbreviation checked l limit txs rs := (check_available l <$> zip_with (validate_tx limit) txs rs).
Lemma checked_held l held limit : represents l held -> forall txs rs,
  concat ((fun r => match r with Ok keys => keys | Err _ => [] end) <$> checked l limit txs rs) =
  locked_of txs (as_unit <$> checked l limit txs rs).
Proof.
  intros Hl. unfold locked_of. induction txs as [|tx txs IH]; intros [|r rs]; [done..|]. cbn [zip_with]. rewrite !fmap_cons. cbn [zip_with concat]. rewrite IH. f_equal.
  destruct (check_outcome l held limit tx r Hl) as [_ Hk]. destruct (check_available _ _) as [keys|e]; [by subst|done].
Qed.
Lemma lock_available_rep rs : forall l held, represents l held ->
  bounded (concat ((fun r => match r with Ok keys => keys | Err _ => [] end) <$> rs) ++ held) ->
  represents (lock_available l rs) (concat ((fun r => match r with Ok keys => keys | Err _ => [] end) <$> rs) ++ held).
Proof.
  induction rs as [|r rs IH]; intros l held Hl Hb; [done|]. rewrite fmap_cons in *. cbn [concat] in *. unfold lock_available in *. cbn [foldl]. rewrite <-app_assoc in *.
  set (okr := match r with Ok keys => keys | Err _ => [] end) in *. set (oks := concat _) in *.
  assert (okr ++ oks ++ held ≡ₚ oks ++ (okr ++ held)) as Hp by (by rewrite !app_assoc, (Permutation_app_comm okr oks)). rewrite Hp.
  assert (bounded (oks ++ okr ++ held)) as Hb' by (unfold bounded in *; by rewrite <-Hp). apply IH; [|done].
  subst okr. destruct r as [keys|e]; [|done]. apply lock_accounts_rep; [done|]. by apply bounded_app_r in Hb'.
Qed.
Lemma locked_compatible held limit txs rs outs : length rs = length txs -> length outs = length txs ->
  (forall i tx given out, txs !! i = Some tx -> rs !! i = Some given -> outs !! i = Some out -> outcome held limit tx given out) ->
  compatible (locked_of txs outs) held.
Proof.
  intros H1 H2 Hall x y Hx Hy. unfold locked_of in Hx. apply list_elem_of_In, in_concat in Hx as (ks & Hks & Hx). apply list_elem_of_In, elem_of_lookup_zip_with in Hks as (i & tx & out & -> & Htx & Hout).
  apply list_elem_of_In in Hx. destruct out as [[]|]; cbn [is_ok] in Hx; [|by apply elem_of_nil in Hx].
  destruct (lookup_lt_is_Some_2 rs i) as [given Hg]; [rewrite H1; by eapply lookup_lt_Some|]. specialize (Hall i tx given _ Htx Hg Hout).
  destruct given as [[]|e]; [|done]. destruct Hall as (_ & _ & Hc). by apply Hc.
Qed.

(** *** Unlocking *)

Definition ok_locks (xs : list (LockTx K * TransactionResult unit)) : list (K * bool) :=
  concat ((fun x => if is_ok x.2 then accounts_with_is_writable x.1 else []) <$> xs).
Lemma locked_zip txs rs : locked_of txs rs = ok_locks (zip txs rs).
Proof. unfold locked_of, ok_locks. f_equal. revert rs. induction txs as [|tx txs IH]; intros [|r rs]; [done..|]. cbn. by rewrite IH. Qed.
Lemma unlock_rep xs : forall l held, represents l (ok_locks xs ++ held) -> bounded (ok_locks xs ++ held) -> represents (accounts_unlock_accounts l xs) held.
Proof.
  intros l held Hl Hb. unfold accounts_unlock_accounts. destruct (existsb _ xs) eqn:Ex; cbn [negb].
  - clear Ex. revert l Hl Hb. unfold ok_locks. induction xs as [|[tx r] xs IH]; intros l Hl Hb; [done|]. rewrite fmap_cons in *. cbn [concat foldl fst snd] in *. rewrite <-app_assoc in *.
    apply IH; [|by apply bounded_app_r in Hb]. destruct (is_ok r); [|done]. by apply unlock_accounts_rep.
  - assert (ok_locks xs = []) as He; [|by rewrite He in Hl]. clear Hl Hb. unfold ok_locks. induction xs as [|[tx r] xs IH]; [done|]. cbn in *.
    apply orb_false_iff in Ex as [-> Ex]. by apply IH.
Qed.
Lemma failures_cons tx txs o old n new : ok_locks (new_failures (tx :: txs) (o :: old) (n :: new)) =
  (if negb (is_ok n) && is_ok o then accounts_with_is_writable tx else []) ++ ok_locks (new_failures txs old new).
Proof.
  unfold new_failures. cbn [zip zip_with]. rewrite filter_cons. cbn [fst snd]. destruct n as [[]|e], o as [[]|e']; case_decide as Hd; cbn in Hd; (done || by destruct Hd).
Qed.
Lemma locked_cons tx txs r rs : locked_of (tx :: txs) (r :: rs) = (if is_ok r then accounts_with_is_writable tx else []) ++ locked_of txs rs.
Proof. done. Qed.
Lemma failures_split txs old new : length old = length txs -> length new = length txs ->
  forallb (fun x => negb (is_ok x.1 && negb (is_ok x.2))) (zip new old) = true ->
  locked_of txs old ≡ₚ ok_locks (new_failures txs old new) ++ locked_of txs new.
Proof.
  revert old new. induction txs as [|tx txs IH]; intros [|o old] [|n new] Ho Hn Hf; try done. rewrite failures_cons, !locked_cons.
  cbn [zip zip_with forallb fst snd] in Hf. apply andb_true_iff in Hf as [H1 Hf]. injection Ho as Ho. injection Hn as Hn. rewrite (IH old new) by done.
  destruct (is_ok n), (is_ok o); cbn [negb andb app] in *; try done.
  - by rewrite !app_assoc, (Permutation_app_comm (accounts_with_is_writable tx)).
  - by rewrite app_assoc.
Qed.

(** *** Preparing *)

(** An earlier transaction of the batch has the same message. *)
Definition repeated (txs : list (LockTx K)) (rs : Results) (i : nat) (tx : LockTx K) : Prop :=
  exists j tx', (j < i)%nat /\ txs !! j = Some tx' /\ rs !! j = Some (Ok tt) /\ lt_message_hash tx' = lt_message_hash tx.
Lemma refuse_spec hashes : forall (set : gset Z) (rs : Results) i h r, hashes !! i = Some h -> rs !! i = Some r ->
  exists r', refuse_repeated set hashes rs !! i = Some r' /\
  match r with
  | Err e => r' = Err e
  | Ok _ => (r' = Err AlreadyProcessed /\ (h ∈ set \/ exists j, (j < i)%nat /\ hashes !! j = Some h /\ rs !! j = Some (Ok tt))) \/
            (r' = Ok tt /\ ~ (h ∈ set \/ exists j, (j < i)%nat /\ hashes !! j = Some h /\ rs !! j = Some (Ok tt)))
  end.
Proof.
  induction hashes as [|h0 hashes IH]; intros set [|r0 rs] i h r Hh Hr; try done. destruct i as [|i]; cbn in Hh, Hr.
  - injection Hh as <-. injection Hr as <-. destruct r0 as [[]|e]; cbn; [|by eexists]. eexists. split; [done|].
    case_bool_decide; [left; split; [done|by left]|right; split; [done|]]. intros [?|(j & ? & _)]; [done|lia].
  - destruct r0 as [[]|e0]; cbn [refuse_repeated lookup list_lookup].
    + destruct (IH ({[h0]} ∪ set) rs i h r Hh Hr) as (r' & H1 & H2). exists r'. split; [done|]. destruct r as [[]|]; [|done].
      assert ((h ∈ {[h0]} ∪ set \/ exists j, (j < i)%nat /\ hashes !! j = Some h /\ rs !! j = Some (Ok tt)) <->
        (h ∈ set \/ exists j, (j < S i)%nat /\ (h0 :: hashes) !! j = Some h /\ (Ok tt :: rs) !! j = Some (Ok tt))) as Hiff; [|by rewrite <-Hiff].
      rewrite elem_of_union, elem_of_singleton. split.
      * intros [[-> | ?]|(j & ? & ? & ?)]; [right; exists 0%nat; split; [lia|done]|by left|right; exists (S j); split; [lia|done]].
      * intros [?|([|j] & ? & Hj & ?)]; [by left; right|left; left; cbn in Hj; congruence|right; exists j; split; [lia|done]].
    + destruct (IH set rs i h r Hh Hr) as (r' & H1 & H2). exists r'. split; [done|]. destruct r as [[]|]; [|done].
      assert ((h ∈ set \/ exists j, (j < i)%nat /\ hashes !! j = Some h /\ rs !! j = Some (Ok tt)) <->
        (h ∈ set \/ exists j, (j < S i)%nat /\ (h0 :: hashes) !! j = Some h /\ (Err e0 :: rs) !! j = Some (Ok tt))) as Hiff; [|by rewrite <-Hiff].
      split; [intros [?|(j & ? & ? & ?)]; [by left|right; exists (S j); split; [lia|done]]|intros [?|([|j] & ? & Hj & ?)]; [by left|done|right; exists j; split; [lia|done]]].
Qed.
Lemma refuse_length hashes : forall (set : gset Z) (rs : Results), length rs = length hashes -> length (refuse_repeated set hashes rs) = length hashes.
Proof.
  induction hashes as [|h hashes IH]; intros set [|r rs] Hl; try done. injection Hl as Hl. destruct r as [[]|e]; cbn; by rewrite IH.
Qed.
Lemma locked_bounded txs rs held : bounded (concat (accounts_with_is_writable <$> txs) ++ held) -> bounded (locked_of txs rs ++ held).
Proof.
  unfold bounded. rewrite !length_app. intros Hb. assert (length (locked_of txs rs) <= length (concat (accounts_with_is_writable <$> txs)))%nat; [|lia].
  clear Hb. revert rs. induction txs as [|tx txs IH]; intros [|r rs]; cbn; try lia. rewrite !length_app. specialize (IH rs). unfold locked_of in IH. destruct (is_ok r); cbn; lia.
Qed.
(** The result of each transaction of a batch. *)
Definition batch_outcome (held : list (K * bool)) (limit : Z) (txs : list (LockTx K)) (rs : Results) (b : TransactionBatch K) : Prop :=
  tb_sanitized_txs b = txs /\ tb_needs_unlock b = true /\ length (tb_lock_results b) = length txs /\
  forall i tx given, txs !! i = Some tx -> rs !! i = Some given -> exists out, tb_lock_results b !! i = Some out /\
    ((given = Ok tt /\ repeated txs rs i tx /\ out = Err AlreadyProcessed) \/
     (~ (given = Ok tt /\ repeated txs rs i tx) /\ outcome held limit tx given out)).
Lemma prepare_rep l held limit txs rs : represents l held -> length rs = length txs -> bounded (concat (accounts_with_is_writable <$> txs) ++ held) ->
  exists l' b, prepare_sanitized_batch_with_results l limit txs rs = Some (l', b) /\ represents l' (batch_held b ++ held) /\
    batch_outcome held limit txs rs b /\ compatible (batch_held b) held.
Proof.
  intros Hl Hlen Hb. unfold prepare_sanitized_batch_with_results, try_lock_accounts_with_results, accounts_lock_accounts, try_lock_transaction_batch.
  set (rs' := refuse_repeated ∅ (lt_message_hash <$> txs) rs).
  assert (length rs' = length txs) as Hl' by (unfold rs'; rewrite refuse_length; rewrite length_fmap; done).
  assert (length (checked l limit txs rs') = length txs) as Hc by (rewrite length_fmap, length_zip_with; lia).
  unfold batch_new. rewrite bool_decide_true by (by rewrite length_fmap). cbn [rust_assert mbind option_bind]. eexists _, _. split; [reflexivity|].
  assert (forall i tx given out, txs !! i = Some tx -> rs' !! i = Some given -> (as_unit <$> checked l limit txs rs') !! i = Some out -> outcome held limit tx given out) as Hout.
  { intros i tx given out Htx Hg Ho. rewrite !list_lookup_fmap, lookup_zip_with, Htx, Hg in Ho. cbn in Ho. injection Ho as <-. by apply check_outcome. }
  unfold batch_held. cbn [tb_needs_unlock tb_sanitized_txs tb_lock_results]. split; [|split].
  - rewrite <-(checked_held l held limit Hl). apply lock_available_rep; [done|]. rewrite (checked_held l held limit Hl). by apply locked_bounded.
  - split; [done|]. split; [done|]. split; [cbn [tb_lock_results]; by rewrite length_fmap|]. cbn [tb_lock_results]. intros i tx given Htx Hg.
    destruct (lookup_lt_is_Some_2 (as_unit <$> checked l limit txs rs') i) as [out Ho]; [rewrite length_fmap, Hc; by eapply lookup_lt_Some|]. exists out. split; [done|].
    destruct (refuse_spec (lt_message_hash <$> txs) ∅ rs i (lt_message_hash tx) given) as (r' & Hr' & Hspec); [by rewrite list_lookup_fmap, Htx|done|].
    specialize (Hout i tx r' out Htx Hr' Ho). assert (repeated txs rs i tx <-> (lt_message_hash tx ∈ (∅ : gset Z) \/
      exists j, (j < i)%nat /\ (lt_message_hash <$> txs) !! j = Some (lt_message_hash tx) /\ rs !! j = Some (Ok tt))) as Hrep.
    { unfold repeated. setoid_rewrite list_lookup_fmap_Some. set_solver. }
    destruct given as [[]|e]; [|subst r'; right; split; [by intros [? _]|done]].
    rewrite <-Hrep in Hspec. destruct Hspec as [[-> Hr]|[-> Hr]]; [left|right]; [done|]. split; [by intros [_ ?]|done].
  - apply (locked_compatible held limit txs rs'); [done|by rewrite length_fmap|done].
Qed.

(** ** Any number of threads

    The locks of a bank and the batches that are alive.  The functions run under the
    mutex of the locks, so the threads' calls are a sequence of these operations. *)
Record LockState := mkLockState { ls_locks : AccountLocks K; ls_live : list (TransactionBatch K) }.
Inductive LockOp :=
  | PrepareBatch (txs : list (LockTx K)) (results : Results)
  | PrepareUnlocked (tx : LockTx K)
  | UnlockFailures (i : nat) (results : Results)
  | DropBatch (i : nat).
Definition lock_step (limit : Z) (s : LockState) (op : LockOp) : option LockState :=
  match op with
  | PrepareBatch txs results =>
    '(l, b) ← prepare_sanitized_batch_with_results (ls_locks s) limit txs results; Some (mkLockState l (b :: ls_live s))
  | PrepareUnlocked tx => b ← prepare_unlocked_batch_from_single_tx limit tx; Some (mkLockState (ls_locks s) (b :: ls_live s))
  | UnlockFailures i results =>
    b ← ls_live s !! i; '(l, b) ← unlock_failures (ls_locks s) b results; Some (mkLockState l (<[i := b]> (ls_live s)))
  | DropBatch i => b ← ls_live s !! i; Some (mkLockState (batch_drop (ls_locks s) b) (delete i (ls_live s)))
  end.
Fixpoint lock_run (limit : Z) (s : LockState) (ops : list LockOp) : option LockState :=
  match ops with [] => Some s | op :: ops => s ← lock_step limit s op; lock_run limit s ops end.
Definition all_held (s : LockState) : list (K * bool) := concat (batch_held <$> ls_live s).
(** How the functions may be called: with a result for each transaction, on a batch that
    is alive, and without turning an error into a success. *)
Definition lock_valid (s : LockState) (op : LockOp) : Prop :=
  match op with
  | PrepareBatch txs results => length results = length txs /\ bounded (concat (accounts_with_is_writable <$> txs) ++ all_held s)
  | PrepareUnlocked tx => True
  | UnlockFailures i results => exists b, ls_live s !! i = Some b /\ length results = length (tb_lock_results b) /\
      forall j, results !! j = Some (Ok tt) -> tb_lock_results b !! j = Some (Ok tt)
  | DropBatch i => (i < length (ls_live s))%nat
  end.
Fixpoint lock_valid_run (limit : Z) (s : LockState) (ops : list LockOp) : Prop :=
  match ops with [] => True | op :: ops => lock_valid s op /\ forall s', lock_step limit s op = Some s' -> lock_valid_run limit s' ops end.

Record lock_inv (s : LockState) : Prop := {
  li_exact : represents (ls_locks s) (all_held s);
  li_bounded : bounded (all_held s);
  li_lengths : Forall (fun b => length (tb_lock_results b) = length (tb_sanitized_txs b)) (ls_live s);
  li_compatible i j b b' : i <> j -> ls_live s !! i = Some b -> ls_live s !! j = Some b' -> compatible (batch_held b) (batch_held b');
}.
Lemma compatible_sym h1 h2 : compatible h1 h2 -> compatible h2 h1.
Proof. intros Hc x y Hx Hy [He Hb]. apply (Hc y x Hy Hx). split; [done|tauto]. Qed.
Lemma held_delete (live : list (TransactionBatch K)) i b : live !! i = Some b ->
  concat (batch_held <$> live) ≡ₚ batch_held b ++ concat (batch_held <$> delete i live).
Proof.
  intros Hi. rewrite (delete_Permutation live i b Hi) at 1. done.
Qed.
Lemma delete_insert_same {A} (l : list A) i x : delete i (<[i := x]> l) = delete i l.
Proof. revert i. induction l as [|y l IH]; intros [|i]; [done..|]. cbn. f_equal. apply IH. Qed.
Lemma held_in s i b x : ls_live s !! i = Some b -> x ∈ batch_held b -> x ∈ all_held s.
Proof. intros Hi Hx. unfold all_held. rewrite (held_delete _ i b Hi). apply elem_of_app. by left. Qed.
Lemma in_held s x : x ∈ all_held s -> exists i b, ls_live s !! i = Some b /\ x ∈ batch_held b.
Proof.
  unfold all_held. intros (l & Hl & Hx)%list_elem_of_In%in_concat. apply list_elem_of_In, list_elem_of_fmap in Hl as (b & -> & (i & Hi)%list_elem_of_lookup).
  exists i, b. split; [done|by apply list_elem_of_In].
Qed.
(** A batch is added. *)
Lemma inv_add s l b : lock_inv s -> represents l (batch_held b ++ all_held s) -> bounded (batch_held b ++ all_held s) ->
  length (tb_lock_results b) = length (tb_sanitized_txs b) -> compatible (batch_held b) (all_held s) -> lock_inv (mkLockState l (b :: ls_live s)).
Proof.
  intros [I1 I2 I3 I4] Hl Hb Hlen Hc. split; [done|done|by constructor|]. cbn [ls_live].
  assert (forall j b', ls_live s !! j = Some b' -> compatible (batch_held b) (batch_held b')) as Hcb
    by (intros j b' Hj x y Hx Hy; apply Hc; [done|by eapply held_in]).
  intros [|i] [|j] b1 b2 Hij H1 H2; cbn in H1, H2; simplify_eq.
  - by eapply Hcb.
  - by eapply compatible_sym, Hcb.
  - eapply (I4 i j); [congruence|done|done].
Qed.
Lemma inv_prepare limit s txs rs : lock_inv s -> lock_valid s (PrepareBatch txs rs) ->
  exists s', lock_step limit s (PrepareBatch txs rs) = Some s' /\ lock_inv s'.
Proof.
  intros Hi [Hlen Hb]. destruct (prepare_rep (ls_locks s) (all_held s) limit txs rs) as (l & b & Hp & Hl & (E1 & E2 & E3 & _) & Hc); [apply Hi|done|done|].
  cbn [lock_step]. rewrite Hp. cbn [mbind option_bind]. eexists. split; [done|]. apply inv_add; try done; [|by rewrite E1].
  unfold batch_held. rewrite E1, E2. by apply locked_bounded.
Qed.
Lemma inv_unlocked limit s tx : lock_inv s -> exists s', lock_step limit s (PrepareUnlocked tx) = Some s' /\ lock_inv s'.
Proof.
  intros Hi. cbn. eexists. split; [done|]. apply inv_add; try done; [apply Hi|apply Hi|]. intros x y Hx. by apply elem_of_nil in Hx.
Qed.
Lemma inv_drop limit s i : lock_inv s -> lock_valid s (DropBatch i) -> exists s', lock_step limit s (DropBatch i) = Some s' /\ lock_inv s'.
Proof.
  intros [I1 I2 I3 I4] Hi. cbn in Hi. destruct (lookup_lt_is_Some_2 _ _ Hi) as [b Hb]. cbn [lock_step]. rewrite Hb. cbn [mbind option_bind]. eexists. split; [done|].
  assert (all_held s ≡ₚ batch_held b ++ concat (batch_held <$> delete i (ls_live s))) as Hp by (by apply held_delete).
  rewrite Hp in I1. assert (bounded (batch_held b ++ concat (batch_held <$> delete i (ls_live s)))) as I2' by (unfold bounded in *; by rewrite <-Hp).
  split; cbn [ls_live ls_locks].
  - unfold all_held, batch_drop. cbn [ls_live]. unfold batch_held in I1 at 1. unfold batch_held in I2' at 1. destruct (tb_needs_unlock b); [|done]. rewrite locked_zip in *. by apply unlock_rep.
  - unfold all_held. cbn [ls_live]. by apply bounded_app_r in I2'.
  - apply Forall_delete. done.
  - intros j k b1 b2 Hjk H1 H2. assert (forall j b, delete i (ls_live s) !! j = Some b -> ls_live s !! (if decide (j < i)%nat then j else S j) = Some b) as Hd.
    { intros j' b' Hj'. case_decide; [by rewrite list_lookup_delete_lt in Hj'|by rewrite list_lookup_delete_ge in Hj' by lia]. }
    eapply (I4 _ _ _ _ _ (Hd _ _ H1) (Hd _ _ H2)). Unshelve. repeat case_decide; lia.
Qed.
(** A batch gives back some of its locks. *)
Lemma inv_shrink s i b b' gone l : lock_inv s -> ls_live s !! i = Some b -> batch_held b ≡ₚ gone ++ batch_held b' ->
  length (tb_lock_results b') = length (tb_sanitized_txs b') ->
  (forall rest, represents (ls_locks s) (gone ++ rest) -> bounded (gone ++ rest) -> represents l rest) ->
  lock_inv (mkLockState l (<[i := b']> (ls_live s))).
Proof.
  intros [I1 I2 I3 I4] Hb Hg Hlen Hl. pose proof (lookup_lt_Some _ _ _ Hb) as Hi.
  assert (concat (batch_held <$> <[i := b']> (ls_live s)) ≡ₚ batch_held b' ++ concat (batch_held <$> delete i (ls_live s))) as Hp'.
  { rewrite (held_delete _ i b') by (by apply list_lookup_insert_eq). by rewrite delete_insert_same. }
  assert (all_held s ≡ₚ gone ++ (batch_held b' ++ concat (batch_held <$> delete i (ls_live s)))) as Hp.
  { unfold all_held. rewrite (held_delete _ i b Hb), Hg. by rewrite app_assoc. }
  rewrite Hp in I1. assert (bounded (gone ++ batch_held b' ++ concat (batch_held <$> delete i (ls_live s)))) as I2' by (unfold bounded in *; by rewrite <-Hp).
  split; cbn [ls_live ls_locks].
  - unfold all_held. cbn [ls_live]. rewrite Hp'. by apply Hl.
  - unfold all_held. cbn [ls_live]. unfold bounded. rewrite Hp'. by apply bounded_app_r in I2'.
  - by apply Forall_insert.
  - assert (forall x, x ∈ batch_held b' -> x ∈ batch_held b) as Hsub by (intros x Hx; rewrite Hg; apply elem_of_app; by right).
    intros j k b1 b2 Hjk H1 H2. destruct (decide (j = i)) as [->|Hj], (decide (k = i)) as [->|Hk]; [done|..].
    + rewrite list_lookup_insert_eq in H1 by done. rewrite list_lookup_insert_ne in H2 by done. injection H1 as <-. intros x y Hx. apply (I4 i k b b2); auto.
    + rewrite list_lookup_insert_eq in H2 by done. rewrite list_lookup_insert_ne in H1 by done. injection H2 as <-. intros x y Hx Hy. apply (I4 j i b1 b); auto.
    + rewrite list_lookup_insert_ne in H1, H2 by done. by apply (I4 j k).
Qed.
Lemma inv_failures limit s i rs : lock_inv s -> lock_valid s (UnlockFailures i rs) -> exists s', lock_step limit s (UnlockFailures i rs) = Some s' /\ lock_inv s'.
Proof.
  intros Hi (b & Hb & Hlen & Hok). pose proof (li_lengths s Hi) as Hls. rewrite Forall_lookup in Hls. specialize (Hls i b Hb).
  cbn [lock_step]. rewrite Hb. cbn [mbind option_bind]. unfold unlock_failures. rewrite bool_decide_true by done. cbn [rust_assert mbind option_bind].
  destruct (tb_needs_unlock b) eqn:En; cbn [negb].
  2:{ cbn. eexists. split; [done|]. by apply (inv_shrink s i b b []). }
  assert (forallb (fun x => negb (is_ok x.1 && negb (is_ok x.2))) (zip rs (tb_lock_results b)) = true) as Hf.
  { apply forallb_forall. intros [r o] (j & r' & o' & [= <- <-] & Hr & Ho)%list_elem_of_In%elem_of_lookup_zip_with. cbn [fst snd].
    destruct r as [[]|]; [|done]. apply Hok in Hr. rewrite Ho in Hr. injection Hr as ->. done. }
  rewrite Hf. cbn [rust_assert mbind option_bind]. eexists. split; [done|].
  apply (inv_shrink s i b _ (ok_locks (new_failures (tb_sanitized_txs b) (tb_lock_results b) rs))); [done|done| |cbn; congruence|].
  - unfold batch_held. cbn [tb_needs_unlock tb_sanitized_txs tb_lock_results]. rewrite En. apply failures_split; congruence || done.
  - intros rest. apply unlock_rep.
Qed.
Lemma inv_step limit s op : lock_inv s -> lock_valid s op -> exists s', lock_step limit s op = Some s' /\ lock_inv s'.
Proof. intros Hi Hv. destruct op; [by apply inv_prepare|by apply inv_unlocked|by apply inv_failures|by apply inv_drop]. Qed.
Definition lock_start : LockState := mkLockState locks_default [].
Lemma inv_start : lock_inv lock_start.
Proof. split; [apply locks_default_represents|done|constructor|done]. Qed.
Lemma inv_run limit ops : forall s, lock_inv s -> lock_valid_run limit s ops -> exists s', lock_run limit s ops = Some s' /\ lock_inv s'.
Proof.
  induction ops as [|op ops IH]; intros s Hi Hv; [by exists s|]. destruct Hv as [Hv Hrun]. destruct (inv_step limit s op Hi Hv) as (s1 & Hs1 & Hi1).
  cbn [lock_run]. rewrite Hs1. cbn [mbind option_bind]. apply IH; [done|]. by apply Hrun.
Qed.
Lemma represents_empty l : represents l [] -> l = locks_default.
Proof. intros [Hw Hr]. destruct l as [w r]. unfold locks_default. f_equal; apply map_eq; intros k; rewrite lookup_empty; [apply Hw|apply Hr]. Qed.

(** ** Properties *)

(** C37: However the threads of a bank prepare batches, report failures and drop batches,
    no call panics, the lock tables count exactly the locks of the transactions that
    the live batches hold, two live batches never hold conflicting locks, that is an
    account that one of them may write is not locked by the other, and when all batches
    are dropped no lock is left. *)
Theorem batch_locks_exact limit ops (Hv : lock_valid_run limit lock_start ops) :
  exists s, lock_run limit lock_start ops = Some s /\
    represents (ls_locks s) (all_held s) /\
    (forall i j b b', i <> j -> ls_live s !! i = Some b -> ls_live s !! j = Some b' -> compatible (batch_held b) (batch_held b')) /\
    (ls_live s = [] -> ls_locks s = locks_default).
Proof.
  destruct (inv_run limit ops lock_start inv_start Hv) as (s & Hs & [I1 I2 I3 I4]). exists s. split; [done|]. split; [done|]. split; [done|].
  intros Hl. apply represents_empty. unfold all_held in I1. by rewrite Hl in I1.
Qed.

(** Preparing a batch gives every transaction the result it should have: its given
    error, a repeated message, too many accounts, an account listed twice, an account in
    use by a live batch, or success, and locks exactly the accounts of the successful
    ones; transactions of the same batch do not stand in each other's way. *)
Theorem prepare_exact limit s txs rs (Hs : lock_inv s) (Hv : lock_valid s (PrepareBatch txs rs)) :
  exists l b, prepare_sanitized_batch_with_results (ls_locks s) limit txs rs = Some (l, b) /\
    batch_outcome (all_held s) limit txs rs b /\ represents l (locked_of txs (tb_lock_results b) ++ all_held s).
Proof.
  destruct Hv as [Hlen Hb]. destruct (prepare_rep (ls_locks s) (all_held s) limit txs rs) as (l & b & Hp & Hl & Ho & _); [apply Hs|done|done|].
  exists l, b. split; [done|]. split; [done|]. destruct Ho as (E1 & E2 & _). unfold batch_held in Hl. by rewrite E1, E2 in Hl.
Qed.
End theorems.

Module LockExample.
Definition tx (k1 k2 hash : Z) : LockTx Z := mkLockTx [k1; k2] (fun i => bool_decide (i = 0%nat)) hash.
Definition ops : list (LockOp (K := Z)) :=
  [PrepareBatch [tx 1 2 10; tx 3 2 11; tx 3 2 11] [Ok tt; Ok tt; Ok tt]; PrepareBatch [tx 2 4 12; tx 5 4 13] [Ok tt; Ok tt];
   UnlockFailures 1 [Ok tt; Err (OtherTransactionError 0); Err AlreadyProcessed]; DropBatch 1].
End LockExample.
Lemma batch_locks_exact_witness :
  exists s, lock_run 64 lock_start LockExample.ops = Some s /\ represents (ls_locks s) (all_held s) /\
    readonly_locks (ls_locks s) !! 4 = Some 1 /\ write_locks (ls_locks s) !! 3 = None.
Proof.
  assert (lock_valid_run 64 lock_start LockExample.ops) as Hv.
  { split; [by split; vm_compute|]. intros s1 [= <-]. split; [by split; vm_compute|]. intros s2 [= <-]. split.
    - eexists. split; [vm_compute; reflexivity|]. split; [vm_compute; reflexivity|]. intros [|[|[|j]]]; vm_compute; congruence.
    - intros s3 [= <-]. split; [vm_compute; lia|]. done. }
  destruct (batch_locks_exact 64 LockExample.ops Hv) as (s & Hs & Hr & _). exists s. split; [exact Hs|]. split; [exact Hr|].
  assert (lock_run 64 lock_start LockExample.ops = Some s) as Hs' by exact Hs. vm_compute in Hs'. injection Hs' as <-. split; vm_compute; reflexivity.
Defined.
Lemma prepare_exact_witness :
  exists l b, prepare_sanitized_batch_with_results (ls_locks lock_start) 64 [LockExample.tx 1 2 10; LockExample.tx 1 1 11] [Ok tt; Ok tt] = Some (l, b) /\
    tb_lock_results b = [Ok tt; Err AccountLoadedTwice].
Proof.
  assert (lock_valid lock_start (PrepareBatch [LockExample.tx 1 2 10; LockExample.tx 1 1 11] [Ok tt; Ok tt])) as Hv by (split; vm_compute; reflexivity).
  destruct (prepare_exact 64 lock_start _ _ inv_start Hv) as (l & b & Hp & _). exists l, b. split; [exact Hp|].
  vm_compute in Hp. injection Hp as _ <-. reflexivity.
Defined.
