(* ===== verification/SchedulerLocks.v ===== *)
(** * Account locks of the scheduler

    [scheduling-utils/src/thread_aware_account_locks.rs]: the scheduler of the banking
    stage queues transactions on worker threads.  An account that is locked by one
    thread can be locked again by the same thread, since a thread executes its queue in
    order, but not in conflict by another one.  Sets of threads are the bits of a [u64];
    an assertion or an index out of bounds is [None]. *)

From S2P Require Import Prelude.

Definition MAX_THREADS : Z := 64.

(** ** Sets of threads *)

(** [1 << thread_id], for threads below [MAX_THREADS]. *)
Definition as_flag (thread_id : Z) : Z := Z.shiftl 1 thread_id mod 2 ^ 64.
Definition ts_none : Z := 0.
Definition ts_any (num_threads : Z) : Z := if bool_decide (num_threads = MAX_THREADS) then 2 ^ 64 - 1 else (as_flag num_threads - 1) mod 2 ^ 64.
Definition ts_only (thread_id : Z) : Z := as_flag thread_id.
(** The positions of the bits, [count_ones] and [trailing_zeros]. *)
Definition ts_bits (s : Z) : list Z := filter (fun i => Z.testbit s i = true) (seqZ 0 64).
Definition trailing_zeros (s : Z) : Z := match ts_bits s with i :: _ => i | [] => 64 end.
Definition ts_num_threads (s : Z) : Z := Z.of_nat (length (ts_bits s)).
Definition only_one_contained (s : Z) : option Z := if bool_decide (ts_num_threads s = 1) then Some (trailing_zeros s) else None.
Definition ts_is_empty (s : Z) : bool := bool_decide (s = ts_none).
Definition ts_contains (s thread_id : Z) : bool := negb (bool_decide (Z.land s (as_flag thread_id) = 0)).
Definition ts_insert (s thread_id : Z) : Z := Z.lor s (as_flag thread_id).
(** [!flag] on 64 bits. *)
Definition ts_remove (s thread_id : Z) : Z := Z.land s (2 ^ 64 - 1 - as_flag thread_id).
(** [ThreadSetIterator], for [fuel] rounds. *)
Fixpoint contained_threads (fuel : nat) (s : Z) : list Z :=
  match fuel with
  | O => []
  | S fuel => if bool_decide (s = 0) then [] else trailing_zeros s :: contained_threads fuel (Z.land s ((s - 1) mod 2 ^ 64))
  end.
Definition contained_threads_iter (s : Z) : list Z := contained_threads 64 s.

Section aware.
Context {K : Type} `{Countable K}.

(** ** Locks *)

Record AccountWriteLocks := mkWriteLocks { wl_thread_id : Z; wl_lock_count : Z }.
Record AccountReadLocks := mkReadLocks { rl_thread_set : Z; rl_lock_counts : list Z }.
Record ThreadLocks := mkThreadLocks { tl_write_locks : option AccountWriteLocks; tl_read_locks : option AccountReadLocks }.
Inductive TryLockError := MultipleConflicts | ThreadNotAllowed.
Record ThreadAwareAccountLocks := mkAware { ta_num_threads : Z; ta_locks : gmap K ThreadLocks }.
Definition aware_new (num_threads : Z) : option ThreadAwareAccountLocks :=
  rust_assert (bool_decide (num_threads > 0)) ;; rust_assert (bool_decide (num_threads <= MAX_THREADS)) ;; Some (mkAware num_threads ∅).
Definition with_locks (s : ThreadAwareAccountLocks) (m : gmap K ThreadLocks) : ThreadAwareAccountLocks := mkAware (ta_num_threads s) m.

Definition schedulable_threads (WRITE : bool) (s : ThreadAwareAccountLocks) (account : K) : option Z :=
  match ta_locks s !! account with
  | None => Some (ts_any (ta_num_threads s))
  | Some (mkThreadLocks None (Some read_locks)) =>
    Some (if WRITE then match only_one_contained (rl_thread_set read_locks) with Some t => ts_only t | None => ts_none end
          else ts_any (ta_num_threads s))
  | Some (mkThreadLocks (Some write_locks) None) => Some (ts_only (wl_thread_id write_locks))
  | Some (mkThreadLocks (Some write_locks) (Some read_locks)) =>
    rust_assert (bool_decide (only_one_contained (rl_thread_set read_locks) = Some (wl_thread_id write_locks))) ;;
    Some (rl_thread_set read_locks)
  | Some (mkThreadLocks None None) => None
  end.
(** A loop over accounts; the inner result is the early return of [None]. *)
Fixpoint schedulable_loop (WRITE : bool) (s : ThreadAwareAccountLocks) (accounts : list K) (schedulable : Z) : option (option Z) :=
  match accounts with
  | [] => Some (Some schedulable)
  | account :: accounts =>
    threads ← schedulable_threads WRITE s account;
    let schedulable := Z.land schedulable threads in
    if ts_is_empty schedulable then Some None else schedulable_loop WRITE s accounts schedulable
  end.
Definition accounts_schedulable_threads (s : ThreadAwareAccountLocks) (write_account_locks read_account_locks : list K) : option (option Z) :=
  r ← schedulable_loop true s write_account_locks (ts_any (ta_num_threads s));
  match r with
  | None => Some None
  | Some schedulable => schedulable_loop false s read_account_locks schedulable
  end.

Definition wrapping_add_u32 (a b : Z) : Z := (a + b) mod 2 ^ 32.
Definition wrapping_sub_u32 (a b : Z) : Z := (a - b) mod 2 ^ 32.
(** [entry(account).or_default()]. *)
Definition entry_or_default (s : ThreadAwareAccountLocks) (account : K) : ThreadLocks := default (mkThreadLocks None None) (ta_locks s !! account).
Definition write_lock_account (s : ThreadAwareAccountLocks) (account : K) (thread_id : Z) : option ThreadAwareAccountLocks :=
  let '(mkThreadLocks write_locks read_locks) := entry_or_default s account in
  (if read_locks is Some r then rust_assert (bool_decide (only_one_contained (rl_thread_set r) = Some thread_id)) else Some tt) ;;
  write_locks ← (match write_locks with
    | Some w =>
      rust_assert (bool_decide (wl_thread_id w = thread_id)) ;;
      Some (mkWriteLocks (wl_thread_id w) (wrapping_add_u32 (wl_lock_count w) 1))
    | None => Some (mkWriteLocks thread_id 1)
    end);
  Some (with_locks s (<[account := mkThreadLocks (Some write_locks) read_locks]> (ta_locks s))).
Definition write_unlock_account (s : ThreadAwareAccountLocks) (account : K) (thread_id : Z) : option ThreadAwareAccountLocks :=
  '(mkThreadLocks maybe_write_locks read_locks) ← ta_locks s !! account;
  write_locks ← maybe_write_locks;
  rust_assert (bool_decide (wl_thread_id write_locks = thread_id)) ;;
  let lock_count := wrapping_sub_u32 (wl_lock_count write_locks) 1 in
  if bool_decide (lock_count = 0) then
    match read_locks with
    | None => Some (with_locks s (delete account (ta_locks s)))
    | Some _ => Some (with_locks s (<[account := mkThreadLocks None read_locks]> (ta_locks s)))
    end
  else Some (with_locks s (<[account := mkThreadLocks (Some (mkWriteLocks (wl_thread_id write_locks) lock_count)) read_locks]> (ta_locks s))).
Definition read_lock_account (s : ThreadAwareAccountLocks) (account : K) (thread_id : Z) : option ThreadAwareAccountLocks :=
  let '(mkThreadLocks write_locks read_locks) := entry_or_default s account in
  (if write_locks is Some w then rust_assert (bool_decide (wl_thread_id w = thread_id)) else Some tt) ;;
  read_locks ← (match read_locks with
    | Some r =>
      count ← rl_lock_counts r !! Z.to_nat thread_id;
      Some (mkReadLocks (ts_insert (rl_thread_set r) thread_id) (<[Z.to_nat thread_id := wrapping_add_u32 count 1]> (rl_lock_counts r)))
    | None =>
      rust_assert (bool_decide (thread_id < MAX_THREADS)) ;;
      Some (mkReadLocks (ts_only thread_id) (<[Z.to_nat thread_id := 1]> (replicate 64 0)))
    end);
  Some (with_locks s (<[account := mkThreadLocks write_locks (Some read_locks)]> (ta_locks s))).
Definition read_unlock_account (s : ThreadAwareAccountLocks) (account : K) (thread_id : Z) : option ThreadAwareAccountLocks :=
  '(mkThreadLocks write_locks maybe_read_locks) ← ta_locks s !! account;
  read_locks ← maybe_read_locks;
  rust_assert (ts_contains (rl_thread_set read_locks) thread_id) ;;
  count ← rl_lock_counts read_locks !! Z.to_nat thread_id;
  let count := wrapping_sub_u32 count 1 in
  let counts := <[Z.to_nat thread_id := count]> (rl_lock_counts read_locks) in
  let put r := Some (with_locks s (<[account := mkThreadLocks write_locks (Some r)]> (ta_locks s))) in
  if bool_decide (count = 0) then
    let thread_set := ts_remove (rl_thread_set read_locks) thread_id in
    if ts_is_empty thread_set then
      match write_locks with
      | None => Some (with_locks s (delete account (ta_locks s)))
      | Some _ => Some (with_locks s (<[account := mkThreadLocks write_locks None]> (ta_locks s)))
      end
    else put (mkReadLocks thread_set counts)
  else put (mkReadLocks (rl_thread_set read_locks) counts).

(** [for account in accounts]. *)
Fixpoint for_accounts (step : ThreadAwareAccountLocks -> K -> option ThreadAwareAccountLocks) (accounts : list K) (s : ThreadAwareAccountLocks)
    : option ThreadAwareAccountLocks :=
  match accounts with [] => Some s | account :: accounts => s ← step s account; for_accounts step accounts s end.
Definition aware_lock_accounts (s : ThreadAwareAccountLocks) (write_account_locks read_account_locks : list K) (thread_id : Z) : option ThreadAwareAccountLocks :=
  rust_assert (bool_decide (thread_id < ta_num_threads s)) ;;
  s ← for_accounts (fun s account => write_lock_account s account thread_id) write_account_locks s;
  for_accounts (fun s account => read_lock_account s account thread_id) read_account_locks s.
Definition aware_unlock_accounts (s : ThreadAwareAccountLocks) (write_account_locks read_account_locks : list K) (thread_id : Z) : option ThreadAwareAccountLocks :=
  s ← for_accounts (fun s account => write_unlock_account s account thread_id) write_account_locks s;
  for_accounts (fun s account => read_unlock_account s account thread_id) read_account_locks s.
Definition aware_try_lock_accounts (s : ThreadAwareAccountLocks) (write_account_locks read_account_locks : list K) (allowed_threads : Z)
    (thread_selector : Z -> Z) : option (ThreadAwareAccountLocks * result TryLockError Z) :=
  r ← accounts_schedulable_threads s write_account_locks read_account_locks;
  match r with
  | None => Some (s, Err MultipleConflicts)
  | Some schedulable_threads =>
    let schedulable_threads := Z.land schedulable_threads allowed_threads in
    if ts_is_empty schedulable_threads then Some (s, Err ThreadNotAllowed)
    else
      let thread_id := thread_selector schedulable_threads in
      s ← aware_lock_accounts s write_account_locks read_account_locks thread_id;
      Some (s, Ok thread_id)
  end.
End aware.
Arguments ThreadAwareAccountLocks K {_ _}.
