(* ===== verification/SchedulerTheorems.v ===== *)
(** * The scheduler's locks are exact

    What the locks stand for is the list of the jobs that were given to threads and not
    yet returned.  The locks agree with that list, a job is accepted exactly if there is
    a thread on which it conflicts with no job of another thread, and so the jobs on
    different threads never conflict. *)

From S2P Require Import Prelude.
From S2P Require Import LockTheorems.
From S2P Require Import SchedulerLocks.

(** ** Sets of threads *)

Definition is_thread (t : Z) : Prop := 0 <= t < 64.
Definition ts_ok (s : Z) : Prop := 0 <= s < 2 ^ 64.
Lemma flag_eq t : is_thread t -> as_flag t = 2 ^ t.
Proof.
  intros Ht. unfold is_thread in Ht. unfold as_flag. rewrite Z.shiftl_mul_pow2, Z.mul_1_l by lia. apply Z.mod_small.
  split; [apply Z.pow_nonneg; lia|apply Z.pow_lt_mono_r; lia].
Qed.
Lemma flag_bit t i : is_thread t -> 0 <= i -> Z.testbit (as_flag t) i = bool_decide (i = t).
Proof.
  intros Ht Hi. rewrite flag_eq by done. unfold is_thread in Ht. rewrite Z.pow2_bits_eqb by lia. case_bool_decide; [apply Z.eqb_eq; lia|apply Z.eqb_neq; lia].
Qed.
Lemma flag_ok t : is_thread t -> ts_ok (as_flag t).
Proof. intros _. unfold ts_ok, as_flag. apply Z.mod_pos_bound. lia. Qed.
Lemma any_bit n i : 0 < n <= 64 -> 0 <= i -> Z.testbit (ts_any n) i = bool_decide (i < n).
Proof.
  intros Hn Hi. assert (ts_any n = Z.ones n) as ->.
  { unfold ts_any, MAX_THREADS. rewrite Z.ones_equiv. case_bool_decide as H64; [subst; done|]. rewrite flag_eq by (unfold is_thread; lia).
    pose proof (Z.pow_lt_mono_r 2 n 64 ltac:(lia) ltac:(lia) ltac:(lia)). pose proof (Z.pow_pos_nonneg 2 n ltac:(lia) ltac:(lia)). rewrite Z.mod_small by lia. lia. }
  case_bool_decide; [apply Z.ones_spec_low; lia|apply Z.ones_spec_high; lia].
Qed.
Lemma any_ok n : ts_ok (ts_any n).
Proof. unfold ts_ok, ts_any. case_bool_decide; [lia|apply Z.mod_pos_bound; lia]. Qed.
Lemma ts_high s i : ts_ok s -> 64 <= i -> Z.testbit s i = false.
Proof. intros Hs Hi. rewrite <-(Z.mod_small s (2 ^ 64)) by done. apply Z.mod_pow2_bits_high. lia. Qed.
Lemma land_ok s s' : ts_ok s -> 0 <= s' -> ts_ok (Z.land s s').
Proof.
  intros Hs Hs'. unfold ts_ok in *. split; [apply Z.land_nonneg; lia|]. rewrite <-(Z.mod_small s (2 ^ 64)) by done. rewrite <-Z.land_ones by lia.
  rewrite <-Z.land_assoc, (Z.land_comm (Z.ones 64)), Z.land_assoc, Z.land_ones by lia. apply Z.mod_pos_bound. lia.
Qed.
Lemma empty_exact s : ts_ok s -> ts_is_empty s = true <-> forall i, is_thread i -> Z.testbit s i = false.
Proof.
  intros Hs. unfold ts_is_empty, ts_none. rewrite bool_decide_eq_true. split; [intros -> i _; apply Z.bits_0|]. intros Hall. apply Z.bits_inj'. intros i Hi.
  rewrite Z.bits_0. destruct (decide (i < 64)); [apply Hall; unfold is_thread; lia|apply ts_high; [done|lia]].
Qed.
Lemma elem_bits s i : i ∈ ts_bits s <-> is_thread i /\ Z.testbit s i = true.
Proof. unfold ts_bits. rewrite list_elem_of_filter, elem_of_seqZ. unfold is_thread. split; intros; split; (lia || tauto). Qed.
Lemma bits_nodup s : NoDup (ts_bits s).
Proof. apply NoDup_filter, NoDup_seqZ. Qed.
Lemma only_one_exact s t : only_one_contained s = Some t <-> is_thread t /\ forall i, is_thread i -> Z.testbit s i = true <-> i = t.
Proof.
  unfold only_one_contained, ts_num_threads, trailing_zeros. pose proof (elem_bits s) as He. pose proof (bits_nodup s) as Hn. split.
  - case_bool_decide as Hl; [|done]. destruct (ts_bits s) as [|x [|y l]]; try (simpl in Hl; lia). intros [= ->]. setoid_rewrite list_elem_of_singleton in He.
    split; [by apply He|]. intros i Hi. specialize (He i). naive_solver.
  - intros [Ht Hall]. assert (ts_bits s = [t]) as ->; [|done].
    assert (forall i, i ∈ ts_bits s <-> i = t) as Hx by (intros i; rewrite He; split; [intros [? ?]; by apply Hall|intros ->; split; [done|by apply Hall]]).
    clear He. destruct (ts_bits s) as [|x [|y l]].
    + exfalso. by apply (elem_of_nil t), Hx.
    + f_equal. apply Hx. left.
    + exfalso. assert (x = t) as -> by (apply Hx; left). assert (y = t) as -> by (apply Hx; right; left). apply NoDup_cons in Hn as [Hn _]. apply Hn. left.
Qed.
Lemma contains_exact s t : is_thread t -> ts_contains s t = Z.testbit s t.
Proof.
  intros Ht. unfold ts_contains. destruct (Z.testbit s t) eqn:Eb.
  - apply negb_true_iff, bool_decide_eq_false. intros Hz. apply (f_equal (fun z => Z.testbit z t)) in Hz. rewrite Z.land_spec, Eb, flag_bit, bool_decide_true in Hz by (done || (unfold is_thread in Ht; lia)).
    by rewrite Z.bits_0 in Hz.
  - apply negb_false_iff, bool_decide_eq_true. apply Z.bits_inj'. intros i Hi. rewrite Z.land_spec, Z.bits_0, flag_bit by done. case_bool_decide; [subst; by rewrite Eb|apply andb_false_r].
Qed.
Lemma insert_bit s t i : is_thread t -> 0 <= i -> Z.testbit (ts_insert s t) i = Z.testbit s i || bool_decide (i = t).
Proof. intros Ht Hi. unfold ts_insert. by rewrite Z.lor_spec, flag_bit. Qed.
Lemma lor_ok s s' : ts_ok s -> ts_ok s' -> ts_ok (Z.lor s s').
Proof.
  intros Hs Hs'. unfold ts_ok in *. split; [apply Z.lor_nonneg; lia|]. destruct (decide (Z.lor s s' = 0)) as [->|Hz]; [lia|].
  assert (0 < Z.lor s s') by (assert (0 <= Z.lor s s') by (apply Z.lor_nonneg; lia); lia). apply Z.log2_lt_pow2; [done|]. rewrite Z.log2_lor by lia.
  assert (forall x, 0 <= x < 2 ^ 64 -> Z.log2 x < 64) as Hlog; [|by apply Z.max_lub_lt; apply Hlog].
  intros x Hx. destruct (decide (x = 0)) as [->|]; [done|]. apply Z.log2_lt_pow2; lia.
Qed.
Lemma remove_bit s t i : is_thread t -> is_thread i -> Z.testbit (ts_remove s t) i = Z.testbit s i && negb (bool_decide (i = t)).
Proof.
  intros Ht Hi. unfold ts_remove. rewrite Z.land_spec. f_equal. unfold is_thread in Hi.
  assert (2 ^ 64 - 1 - as_flag t = Z.ldiff (Z.ones 64) (as_flag t)) as ->.
  { change (2 ^ 64 - 1) with (Z.ones 64). rewrite Z.sub_nocarry_ldiff; [done|]. apply Z.bits_inj'. intros j Hj. rewrite Z.ldiff_spec, Z.bits_0, flag_bit by done. case_bool_decide; [|done].
    subst. unfold is_thread in Ht. rewrite Z.ones_spec_low by lia. done. }
  rewrite Z.ldiff_spec, flag_bit by (done || lia). by rewrite Z.ones_spec_low by lia.
Qed.
Lemma remove_ok s t : ts_ok s -> is_thread t -> ts_ok (ts_remove s t).
Proof. intros Hs Ht. apply land_ok; [done|]. pose proof (flag_ok t Ht). unfold ts_ok in *. lia. Qed.

(** The iterator returns the threads of a set in ascending order. *)
Lemma clear_lowest s t : ts_ok s -> is_thread t -> Z.testbit s t = true -> (forall i, 0 <= i < t -> Z.testbit s i = false) ->
  forall i, 0 <= i -> Z.testbit (Z.land s (s - 1)) i = Z.testbit s i && negb (bool_decide (i = t)).
Proof.
  intros Hs Ht Hb Hlow i Hi. unfold is_thread in Ht. rewrite Z.land_spec. destruct (decide (i < t)) as [Hit|Hit]; [by rewrite Hlow by lia|].
  set (q := s / 2 ^ (t + 1)). assert (s mod 2 ^ (t + 1) = 2 ^ t) as Hmod.
  { apply Z.bits_inj'. intros j Hj. rewrite Z.pow2_bits_eqb by lia. destruct (decide (j < t + 1)).
    - rewrite Z.mod_pow2_bits_low by lia. destruct (decide (j = t)) as [->|]; [by rewrite Hb, Z.eqb_refl|]. rewrite Hlow by lia. symmetry. apply Z.eqb_neq. lia.
    - rewrite Z.mod_pow2_bits_high by lia. symmetry. apply Z.eqb_neq. lia. }
  assert (0 < 2 ^ t) by (apply Z.pow_pos_nonneg; lia). assert (2 ^ (t + 1) = 2 * 2 ^ t) as Hp by (rewrite Z.pow_add_r by lia; lia).
  assert (s = 2 ^ (t + 1) * q + 2 ^ t) as Hsq by (rewrite <-Hmod; apply Z.div_mod; lia).
  case_bool_decide as Hit'.
  - subst i. rewrite andb_false_r. apply andb_false_iff. right. replace t with (0 + t) at 1 by lia. rewrite <-Z.div_pow2_bits by lia.
    replace ((s - 1) / 2 ^ t) with (2 * q); [apply Z.testbit_even_0|]. apply (Z.div_unique_pos _ _ _ (2 ^ t - 1)); lia.
  - rewrite andb_true_r. destruct (Z.testbit s i) eqn:Ei; [|done]. cbn. replace i with ((i - (t + 1)) + (t + 1)) by lia. rewrite <-Z.div_pow2_bits by lia.
    replace ((s - 1) / 2 ^ (t + 1)) with q; [|apply (Z.div_unique_pos _ _ _ (2 ^ t - 1)); lia]. unfold q. rewrite Z.div_pow2_bits by lia. by replace (i - (t + 1) + (t + 1)) with i by lia.
Qed.
Lemma bits_head s t l : ts_bits s = t :: l -> is_thread t /\ Z.testbit s t = true /\ forall i, 0 <= i < t -> Z.testbit s i = false.
Proof.
  intros Hb. assert (t ∈ ts_bits s) as Ht by (rewrite Hb; left). apply elem_bits in Ht as [Ht1 Ht2]. split; [done|]. split; [done|]. intros i Hi.
  destruct (head_filter_Some (fun i => Z.testbit s i = true) (seqZ 0 64) t) as (l1 & l2 & Hl & HF); [by unfold ts_bits in Hb; rewrite Hb|].
  assert (seqZ 0 64 !! length l1 = Some t) as Hlt by (rewrite Hl; by apply list_lookup_middle). apply lookup_seqZ in Hlt as [Hlt _].
  assert (l1 !! Z.to_nat i = Some i) as Hin.
  { rewrite <-(lookup_app_l l1 (t :: l2)) by lia. rewrite <-Hl. apply lookup_seqZ. unfold is_thread in Ht1. lia. }
  eapply Forall_lookup_1 in HF; [|exact Hin]. by apply not_true_iff_false.
Qed.
Lemma bits_clear s t l : ts_ok s -> ts_bits s = t :: l -> ts_bits (Z.land s ((s - 1) mod 2 ^ 64)) = l.
Proof.
  intros Hs Hb. destruct (bits_head s t l Hb) as (Ht & Hbt & Hlow). assert (s <> 0) as Hz by (intros ->; by rewrite Z.bits_0 in Hbt).
  unfold ts_ok in Hs. rewrite Z.mod_small by lia. assert (ts_bits (Z.land s (s - 1)) = filter (fun i => i <> t) (ts_bits s)) as ->.
  { unfold ts_bits. rewrite list_filter_filter. apply filter_ext_in. intros i Hi%elem_of_seqZ. rewrite (clear_lowest s t) by (done || lia).
    rewrite andb_true_iff, negb_true_iff, bool_decide_eq_false. tauto. }
  pose proof (bits_nodup s) as Hn. rewrite Hb in *. rewrite filter_cons_False by naive_solver. apply NoDup_cons in Hn as [Hn _]. clear -Hn. induction l as [|x l IH]; [done|].
  rewrite filter_cons_True by (intros ->; apply Hn; left). f_equal. apply IH. intros ?; apply Hn. by right.
Qed.
Lemma contained_exact fuel : forall s, ts_ok s -> (length (ts_bits s) <= fuel)%nat -> contained_threads fuel s = ts_bits s.
Proof.
  induction fuel as [|fuel IH]; intros s Hs Hf; cbn [contained_threads].
  - destruct (ts_bits s); [done|simpl in Hf; lia].
  - case_bool_decide as Hz; [subst; vm_compute; reflexivity|]. unfold trailing_zeros. destruct (ts_bits s) as [|t l] eqn:Eb.
    + exfalso. apply Hz. assert (ts_is_empty s = true) as He; [|by apply bool_decide_eq_true in He]. apply empty_exact; [done|]. intros i Hi. apply not_true_iff_false. intros Hb.
      apply (elem_of_nil i). rewrite <-Eb. by apply elem_bits.
    + pose proof (bits_clear s t l Hs Eb) as Hc. f_equal. rewrite IH; [done| |rewrite Hc; simpl in Hf; lia].
      apply land_ok; [done|]. apply Z.mod_pos_bound. lia.
Qed.

(** ** What the locks stand for *)

Section theorems.
Context {K : Type} `{Countable K}.
(** An account, whether it is locked for writing, and the thread. *)
Abbreviation Hold := (K * bool * Z)%type.
Implicit Types (held : list Hold) (a : K).

Definition write_ok (w : AccountWriteLocks) a held : Prop :=
  wl_lock_count w = occ (a, true, wl_thread_id w) held /\ (a, true, wl_thread_id w) ∈ held /\ forall t, (a, true, t) ∈ held -> t = wl_thread_id w.
Record read_ok (r : AccountReadLocks) a held : Prop := {
  ro_ok : ts_ok (rl_thread_set r);
  ro_some : exists t, (a, false, t) ∈ held;
  ro_length : length (rl_lock_counts r) = 64%nat;
  ro_counts t : is_thread t -> rl_lock_counts r !! Z.to_nat t = Some (occ (a, false, t) held);
  ro_set t : is_thread t -> Z.testbit (rl_thread_set r) t = true <-> (a, false, t) ∈ held;
}.
Definition account_ok (o : option ThreadLocks) a held : Prop :=
  match o with
  | None => forall b t, (a, b, t) ∉ held
  | Some l =>
    match tl_write_locks l with Some w => write_ok w a held | None => forall t, (a, true, t) ∉ held end /\
    match tl_read_locks l with Some r => read_ok r a held | None => forall t, (a, false, t) ∉ held end /\
    (tl_write_locks l <> None \/ tl_read_locks l <> None)
  end.
Definition threads_ok (n : Z) held : Prop := forall a b t, (a, b, t) ∈ held -> is_thread t /\ t < n.
(** An account that one thread may write is locked by no other. *)
Definition safe held : Prop := forall a b t t', (a, true, t) ∈ held -> (a, b, t') ∈ held -> t = t'.
Record stands_for (s : ThreadAwareAccountLocks K) held : Prop := {
  sf_n : 0 < ta_num_threads s <= 64;
  sf_accounts a : account_ok (ta_locks s !! a) a held;
  sf_threads : threads_ok (ta_num_threads s) held;
  sf_safe : safe held;
}.
Definition few held : Prop := Z.of_nat (length held) < 2 ^ 32.

#[global] Instance write_ok_proper w a : Proper ((≡ₚ) ==> iff) (write_ok w a).
Proof. intros h h' Hp. unfold write_ok. by setoid_rewrite Hp. Qed.
#[global] Instance read_ok_proper r a : Proper ((≡ₚ) ==> iff) (read_ok r a).
Proof. intros h h' Hp. split; intros [R1 R2 R3 R4 R5]; split; try done; (setoid_rewrite Hp || setoid_rewrite <-Hp); done. Qed.
#[global] Instance account_ok_proper o a : Proper ((≡ₚ) ==> iff) (account_ok o a).
Proof. intros h h' Hp. unfold account_ok. destruct o as [[[w|] [r|]]|]; cbn; by setoid_rewrite Hp. Qed.
#[global] Instance stands_for_proper s : Proper ((≡ₚ) ==> iff) (stands_for s).
Proof.
  intros h h' Hp. split; intros [S1 S2 S3 S4]; split; try done; unfold threads_ok, safe in *; try (intros a); (rewrite <-Hp || rewrite Hp || (setoid_rewrite <-Hp) || setoid_rewrite Hp); eauto.
Qed.

Lemma occ_zero (x : Hold) held : x ∉ held -> occ x held = 0.
Proof. pose proof (occ_bound x held). pose proof (occ_pos x held). intros Hx. destruct (decide (0 < occ x held)); [tauto|lia]. Qed.
(** A lock on another account, or of the other kind, changes nothing. *)
Lemma occ_other (x y : Hold) held : x <> y -> occ x (y :: held) = occ x held.
Proof. intros Hxy. by rewrite occ_cons, decide_False. Qed.
Lemma in_other (x y : Hold) held : x <> y -> x ∈ y :: held <-> x ∈ held.
Proof. intros Hxy. rewrite elem_of_cons. naive_solver. Qed.
Lemma write_ok_other w a held y : y.1 <> (a, true) -> write_ok w a (y :: held) <-> write_ok w a held.
Proof.
  intros Hy. assert (forall t, (a, true, t) <> y) as Hn by (intros t <-; done). unfold write_ok. rewrite occ_other, in_other by done.
  assert ((forall t, (a, true, t) ∈ y :: held -> t = wl_thread_id w) <-> (forall t, (a, true, t) ∈ held -> t = wl_thread_id w)) as ->; [|done].
  apply forall_proper. intros t. by rewrite in_other.
Qed.
Lemma read_ok_other r a held y : y.1 <> (a, false) -> read_ok r a (y :: held) <-> read_ok r a held.
Proof.
  intros Hy. assert (forall t, (a, false, t) <> y) as Hn by (intros t <-; done).
  split; intros [R1 (t0 & R2) R3 R4 R5]; split; try done.
  - exists t0. by apply in_other in R2.
  - intros t Ht. by rewrite <-(occ_other _ y) by done; apply R4.
  - intros t Ht. rewrite R5 by done. by apply in_other.
  - exists t0. by apply in_other.
  - intros t Ht. rewrite occ_other by done. by apply R4.
  - intros t Ht. rewrite R5 by done. by rewrite in_other.
Qed.
Lemma account_ok_other o a held y : y.1.1 <> a -> account_ok o a (y :: held) <-> account_ok o a held.
Proof.
  intros Hy. assert (forall b t, (a, b, t) <> y) as Hn by (intros b t <-; done). destruct o as [[w r]|]; cbn [account_ok tl_write_locks tl_read_locks].
  - assert (match w with Some w => write_ok w a (y :: held) | None => forall t, (a, true, t) ∉ y :: held end <->
      match w with Some w => write_ok w a held | None => forall t, (a, true, t) ∉ held end) as ->.
    { destruct w; [apply write_ok_other; intros He; apply Hy; by rewrite He|]. apply forall_proper. intros t. by rewrite in_other. }
    assert (match r with Some r => read_ok r a (y :: held) | None => forall t, (a, false, t) ∉ y :: held end <->
      match r with Some r => read_ok r a held | None => forall t, (a, false, t) ∉ held end) as ->; [|done].
    destruct r; [apply read_ok_other; intros He; apply Hy; by rewrite He|]. apply forall_proper. intros t. by rewrite in_other.
  - apply forall_proper. intros b. apply forall_proper. intros t. by rewrite in_other.
Qed.

(** ** Locking *)

Lemma stands_insert s held a y l : stands_for s held -> y.1.1 = a -> account_ok (Some l) a (y :: held) ->
  threads_ok (ta_num_threads s) (y :: held) -> safe (y :: held) -> stands_for (with_locks s (<[a := l]> (ta_locks s))) (y :: held).
Proof.
  intros [S1 S2 S3 S4] Hy Hl Ht Hs. split; try done. intros a'. cbn [ta_locks with_locks]. destruct (decide (a' = a)) as [->|Ha].
  - by rewrite lookup_insert_eq.
  - rewrite lookup_insert_ne by done. apply account_ok_other; [by rewrite Hy|apply S2].
Qed.
Lemma threads_cons n held a b t : threads_ok n held -> is_thread t -> t < n -> threads_ok n ((a, b, t) :: held).
Proof. intros Hh Ht Hn a' b' t' [[= -> -> ->]|Hin]%elem_of_cons; [done|by eapply Hh]. Qed.
Lemma safe_write held a t : safe held -> (forall b t', (a, b, t') ∈ held -> t' = t) -> safe ((a, true, t) :: held).
Proof.
  intros Hs Hf a' b t1 t2 H1 H2. apply elem_of_cons in H1 as [E1|H1]; apply elem_of_cons in H2 as [E2|H2]; simplify_eq; try done;
    [by apply Hf in H2|by apply Hf in H1|by eapply Hs].
Qed.
Lemma safe_read held a t : safe held -> (forall t', (a, true, t') ∈ held -> t' = t) -> safe ((a, false, t) :: held).
Proof.
  intros Hs Hf a' b t1 t2 H1 H2. apply elem_of_cons in H1 as [E1|H1]; apply elem_of_cons in H2 as [E2|H2]; simplify_eq; try done;
    [by apply Hf in H1|by eapply Hs].
Qed.
Lemma read_only_one r a held t : read_ok r a held -> (forall a b t, (a, b, t) ∈ held -> is_thread t) -> only_one_contained (rl_thread_set r) = Some t <->
  (forall t', (a, false, t') ∈ held -> t' = t).
Proof.
  intros [R1 (t0 & R2) R3 R4 R5] Hth. rewrite only_one_exact. split.
  - intros [_ Hall] t' Hin. apply Hall; [by eapply Hth|]. apply R5; [by eapply Hth|done].
  - intros Hall. assert (t0 = t) as -> by (by apply Hall). assert (is_thread t) as Ht by (by eapply Hth). split; [done|]. intros i Hi. rewrite R5 by done.
    split; [apply Hall|by intros ->].
Qed.
Lemma threads_is n held : threads_ok n held -> forall a b t, (a, b, t) ∈ held -> is_thread t.
Proof. intros Hn a b t Hin. by apply (Hn a b t). Qed.
Lemma write_ok_lock w a held : write_ok w a held -> few ((a, true, wl_thread_id w) :: held) ->
  write_ok (mkWriteLocks (wl_thread_id w) (wrapping_add_u32 (wl_lock_count w) 1)) a ((a, true, wl_thread_id w) :: held).
Proof.
  intros (W1 & W2 & W3) Hb. unfold write_ok. cbn [wl_thread_id wl_lock_count]. rewrite occ_cons, decide_True, W1 by done. split.
  - unfold wrapping_add_u32, few in *. cbn [length] in Hb. pose proof (occ_bound (a, true, wl_thread_id w) held). rewrite Z.mod_small by lia. lia.
  - split; [left|]. intros t [[= ->]|Hin]%elem_of_cons; [done|by apply W3].
Qed.
Lemma write_ok_first a t held : (forall t', (a, true, t') ∉ held) -> write_ok (mkWriteLocks t 1) a ((a, true, t) :: held).
Proof.
  intros Hn. split; [|split; [left|]]; cbn [wl_lock_count wl_thread_id].
  - rewrite occ_cons, decide_True by done. rewrite occ_zero; [done|apply Hn].
  - intros t' [[= ->]|Hin]%elem_of_cons; [done|by apply Hn in Hin].
Qed.
Lemma write_lock_spec s held a t : stands_for s held -> few ((a, true, t) :: held) -> is_thread t -> t < ta_num_threads s ->
  (forall b t', (a, b, t') ∈ held -> t' = t) ->
  exists s', write_lock_account s a t = Some s' /\ ta_num_threads s' = ta_num_threads s /\ stands_for s' ((a, true, t) :: held).
Proof.
  intros Hs Hb Ht Htn Hf. pose proof Hs as [S1 S2 S3 S4]. specialize (S2 a). pose proof (threads_is _ _ S3) as Hth.
  assert (forall l, account_ok (Some l) a ((a, true, t) :: held) -> stands_for (with_locks s (<[a := l]> (ta_locks s))) ((a, true, t) :: held)) as Hgo.
  { intros l Hl. apply stands_insert; [done|done|done|by apply threads_cons|by apply safe_write]. }
  unfold write_lock_account, entry_or_default. destruct (ta_locks s !! a) as [[w r]|]; cbn [default from_option id].
  2:{ cbn. eexists. split; [done|]. split; [done|]. apply Hgo. split; [|split; [|by left]]; cbn.
      - apply write_ok_first. intros t'. apply S2.
      - intros t' [?|Hin]%elem_of_cons; [done|by apply S2 in Hin]. }
  destruct S2 as (A1 & A2 & A3). cbn [tl_write_locks tl_read_locks] in *.
  assert ((if r is Some r then rust_assert (bool_decide (only_one_contained (rl_thread_set r) = Some t)) else Some tt) = Some tt) as Hr.
  { destruct r as [r|]; [|done]. rewrite bool_decide_true; [done|]. apply (read_only_one r a held t A2 Hth). by apply Hf. }
  rewrite Hr. cbn [mbind option_bind].
  assert (match r with Some r => read_ok r a ((a, true, t) :: held) | None => forall t', (a, false, t') ∉ (a, true, t) :: held end) as A2'.
  { destruct r; [by apply read_ok_other|]. intros t' [?|Hin]%elem_of_cons; [done|by apply A2 in Hin]. }
  destruct w as [w|].
  - assert (wl_thread_id w = t) as <- by (destruct A1 as (_ & W2 & _); by eapply Hf). rewrite bool_decide_true by done. cbn. eexists. split; [done|]. split; [done|]. apply Hgo.
    split; [|split; [done|by left]]. by apply write_ok_lock.
  - cbn. eexists. split; [done|]. split; [done|]. apply Hgo. split; [|split; [done|by left]]. by apply write_ok_first.
Qed.
Lemma to_nat_thread t t' : is_thread t -> is_thread t' -> Z.to_nat t = Z.to_nat t' -> t = t'.
Proof. unfold is_thread. lia. Qed.
Lemma read_ok_first a t held : is_thread t -> (forall t', (a, false, t') ∉ held) ->
  read_ok (mkReadLocks (ts_only t) (<[Z.to_nat t := 1]> (replicate 64 0))) a ((a, false, t) :: held).
Proof.
  intros Ht Hn. split; cbn [rl_thread_set rl_lock_counts].
  - by apply flag_ok.
  - exists t. left.
  - by rewrite length_insert, length_replicate.
  - intros t' Ht'. rewrite occ_cons, occ_zero by apply Hn. destruct (decide (t' = t)) as [->|Hne].
    + rewrite list_lookup_insert_eq by (rewrite length_replicate; unfold is_thread in Ht; lia). by rewrite decide_True.
    + rewrite list_lookup_insert_ne by (intros ?%to_nat_thread; [congruence|done|done]). rewrite decide_False by congruence. apply lookup_replicate. unfold is_thread in Ht'. split; [done|lia].
  - intros t' Ht'. unfold ts_only. rewrite flag_bit by (done || (unfold is_thread in Ht'; lia)). rewrite bool_decide_eq_true, elem_of_cons. specialize (Hn t'). naive_solver.
Qed.
Lemma read_ok_lock r a t held count : read_ok r a held -> is_thread t -> few ((a, false, t) :: held) -> rl_lock_counts r !! Z.to_nat t = Some count ->
  read_ok (mkReadLocks (ts_insert (rl_thread_set r) t) (<[Z.to_nat t := wrapping_add_u32 count 1]> (rl_lock_counts r))) a ((a, false, t) :: held).
Proof.
  intros [R1 R2 R3 R4 R5] Ht Hb Hc. rewrite R4 in Hc by done. injection Hc as <-. split; cbn [rl_thread_set rl_lock_counts].
  - apply lor_ok; [done|by apply flag_ok].
  - exists t. left.
  - by rewrite length_insert.
  - intros t' Ht'. rewrite occ_cons. destruct (decide (t' = t)) as [->|Hne].
    + rewrite list_lookup_insert_eq by (unfold is_thread in Ht; lia). rewrite decide_True by done. f_equal. unfold wrapping_add_u32, few in *. cbn [length] in Hb.
      pose proof (occ_bound (a, false, t) held). rewrite Z.mod_small by lia. lia.
    + rewrite list_lookup_insert_ne by (intros ?%to_nat_thread; [congruence|done|done]). rewrite decide_False by congruence. by apply R4.
  - intros t' Ht'. rewrite insert_bit by (done || (unfold is_thread in Ht'; lia)). rewrite orb_true_iff, bool_decide_eq_true, R5, elem_of_cons by done. naive_solver.
Qed.
Lemma read_lock_spec s held a t : stands_for s held -> few ((a, false, t) :: held) -> is_thread t -> t < ta_num_threads s ->
  (forall t', (a, true, t') ∈ held -> t' = t) ->
  exists s', read_lock_account s a t = Some s' /\ ta_num_threads s' = ta_num_threads s /\ stands_for s' ((a, false, t) :: held).
Proof.
  intros Hs Hb Ht Htn Hf. pose proof Hs as [S1 S2 S3 S4]. specialize (S2 a).
  assert (forall l, account_ok (Some l) a ((a, false, t) :: held) -> stands_for (with_locks s (<[a := l]> (ta_locks s))) ((a, false, t) :: held)) as Hgo.
  { intros l Hl. apply stands_insert; [done|done|done|by apply threads_cons|by apply safe_read]. }
  assert (t < MAX_THREADS) as HM by (unfold is_thread, MAX_THREADS in *; lia).
  unfold read_lock_account, entry_or_default. destruct (ta_locks s !! a) as [[w r]|]; cbn [default from_option id].
  2:{ rewrite bool_decide_true by done. cbn. eexists. split; [done|]. split; [done|]. apply Hgo. split; [|split; [|by right]]; cbn.
      - intros t' [?|Hin]%elem_of_cons; [done|by apply S2 in Hin].
      - apply read_ok_first; [done|]. intros t'. apply S2. }
  destruct S2 as (A1 & A2 & A3). cbn [tl_write_locks tl_read_locks] in *.
  assert ((if w is Some w then rust_assert (bool_decide (wl_thread_id w = t)) else Some tt) = Some tt) as Hw.
  { destruct w as [w|]; [|done]. rewrite bool_decide_true; [done|]. destruct A1 as (_ & W2 & _). by apply Hf. }
  rewrite Hw. cbn [mbind option_bind].
  assert (match w with Some w => write_ok w a ((a, false, t) :: held) | None => forall t', (a, true, t') ∉ (a, false, t) :: held end) as A1'.
  { destruct w; [by apply write_ok_other|]. intros t' [?|Hin]%elem_of_cons; [done|by apply A1 in Hin]. }
  destruct r as [r|].
  - pose proof (ro_counts _ _ _ A2 t Ht) as Hc. rewrite Hc. cbn [mbind option_bind]. eexists. split; [done|]. split; [done|]. apply Hgo.
    split; [done|]. split; [|by right]. by apply read_ok_lock.
  - rewrite bool_decide_true by done. cbn. eexists. split; [done|]. split; [done|]. apply Hgo. split; [done|]. split; [|by right]. by apply read_ok_first.
Qed.

(** ** Unlocking *)

Lemma stands_remove s held a y m o : stands_for s (y :: held) -> y.1.1 = a -> m !! a = o -> (forall a', a' <> a -> m !! a' = ta_locks s !! a') ->
  account_ok o a held -> stands_for (with_locks s m) held.
Proof.
  intros [S1 S2 S3 S4] Hy Hm Ho Ha. split; cbn [ta_num_threads ta_locks with_locks]; [done| | |].
  - intros a'. destruct (decide (a' = a)) as [->|Hne]; [by rewrite Hm|]. rewrite Ho by done. apply (account_ok_other _ a' held y); [congruence|apply S2].
  - intros a' b t Hin. eapply S3. by right.
  - intros a' b t t' H1 H2. eapply S4; right; done.
Qed.
Lemma few_tail (y : Hold) held : few (y :: held) -> few held.
Proof. unfold few. cbn [length]. lia. Qed.
Lemma write_unlock_spec s held a t : stands_for s ((a, true, t) :: held) -> few ((a, true, t) :: held) ->
  exists s', write_unlock_account s a t = Some s' /\ ta_num_threads s' = ta_num_threads s /\ stands_for s' held.
Proof.
  intros Hs Hb. pose proof Hs as [S1 S2 S3 S4]. specialize (S2 a). unfold write_unlock_account.
  destruct (ta_locks s !! a) as [[w r]|] eqn:El; [|exfalso; eapply S2; left]. destruct S2 as (A1 & A2 & _). cbn [tl_write_locks tl_read_locks mbind option_bind] in *.
  destruct w as [w|]; [|exfalso; eapply A1; left]. destruct A1 as (W1 & W2 & W3). assert (t = wl_thread_id w) as -> by (apply W3; left).
  cbn [mbind option_bind]. rewrite (bool_decide_true (_ = wl_thread_id w)) by done. cbn [rust_assert mbind option_bind]. rewrite W1, occ_cons, decide_True by done.
  pose proof (occ_bound (a, true, wl_thread_id w) held) as Hob. apply few_tail in Hb. unfold few in Hb.
  assert (wrapping_sub_u32 (1 + occ (a, true, wl_thread_id w) held) 1 = occ (a, true, wl_thread_id w) held) as -> by (unfold wrapping_sub_u32; rewrite Z.mod_small; lia).
  assert (match r with Some r => read_ok r a held | None => forall t, (a, false, t) ∉ held end) as A2'.
  { destruct r; [by apply read_ok_other in A2|]. intros t Hin. eapply A2. by right. }
  assert (forall m o, m !! a = o -> (forall a', a' <> a -> m !! a' = ta_locks s !! a') -> account_ok o a held -> stands_for (with_locks s m) held) as Hgo
    by (intros m o; by apply (stands_remove s held a (a, true, wl_thread_id w) m o)).
  assert (forall t, (a, true, t) ∈ held -> t = wl_thread_id w) as W3' by (intros t Hin; apply W3; by right).
  case_bool_decide as Hz.
  - assert (forall t, (a, true, t) ∉ held) as Hn. { intros t Hin. pose proof (W3' t Hin) as ->. apply occ_pos in Hin. lia. }
    destruct r as [r|]; (eexists; split; [done|]; split; [done|]; eapply Hgo).
    + apply lookup_insert_eq.
    + intros a' Ha. by apply lookup_insert_ne.
    + split; [done|]. split; [done|by right].
    + apply lookup_delete_eq.
    + intros a' Ha. by apply lookup_delete_ne.
    + intros [] t; [apply Hn|apply A2'].
  - eexists. split; [done|]. split; [done|]. eapply Hgo; [apply lookup_insert_eq|intros a' Ha; by apply lookup_insert_ne|].
    split; [|split; [done|by left]]. split; [done|]. split; [|done]. apply occ_pos. cbn. lia.
Qed.
Lemma read_ok_unlock r a t held c : read_ok r a ((a, false, t) :: held) -> is_thread t -> few held ->
  c = occ (a, false, t) held ->
  (c <> 0 -> read_ok (mkReadLocks (rl_thread_set r) (<[Z.to_nat t := c]> (rl_lock_counts r))) a held) /\
  (c = 0 -> (exists t', (a, false, t') ∈ held) -> read_ok (mkReadLocks (ts_remove (rl_thread_set r) t) (<[Z.to_nat t := c]> (rl_lock_counts r))) a held) /\
  (c = 0 -> (forall a b t, (a, b, t) ∈ held -> is_thread t) -> ts_is_empty (ts_remove (rl_thread_set r) t) = true <-> ~ exists t', (a, false, t') ∈ held).
Proof.
  intros [R1 R2 R3 R4 R5] Ht Hb ->. assert (forall t', is_thread t' -> <[Z.to_nat t := occ (a, false, t) held]> (rl_lock_counts r) !! Z.to_nat t' = Some (occ (a, false, t') held)) as Hcounts.
  { intros t' Ht'. destruct (decide (t' = t)) as [->|Hne]; [apply list_lookup_insert_eq; unfold is_thread in Ht; lia|].
    rewrite list_lookup_insert_ne by (intros ?%to_nat_thread; [congruence|done|done]). rewrite R4 by done. by rewrite occ_other by congruence. }
  assert (forall t', is_thread t' -> (Z.testbit (rl_thread_set r) t' = true /\ t' <> t) \/ (t' = t /\ 0 < occ (a, false, t) held) <-> (a, false, t') ∈ held) as Hset.
  { intros t' Ht'. rewrite R5, elem_of_cons, occ_pos by done. destruct (decide (t' = t)) as [->|Hne]; naive_solver. }
  split; [|split].
  - intros Hz. assert (0 < occ (a, false, t) held) as Hpos by (pose proof (occ_bound (a, false, t) held); lia). split; cbn; [done|exists t; by apply occ_pos|by rewrite length_insert|done|].
    intros t' Ht'. rewrite <-Hset by done. destruct (decide (t' = t)) as [->|Hne]; [|tauto]. rewrite R5 by done. split; [by right|intros _; left].
  - intros Hz Hex. split; cbn; [by apply remove_ok|done|by rewrite length_insert|done|]. intros t' Ht'. rewrite remove_bit by done.
    rewrite andb_true_iff, negb_true_iff, bool_decide_eq_false, <-Hset by done. rewrite Hz. split; [by left|]. intros [?|[_ ?]]; [done|lia].
  - intros Hz Hth. rewrite empty_exact by (by apply remove_ok). split.
    + intros Hall [t' Hin]. assert (is_thread t') as Ht' by (by eapply Hth). specialize (Hall t' Ht'). rewrite remove_bit in Hall by done. apply Hset in Hin as [[H1 H2]|[_ ?]]; [|lia|done].
      rewrite H1, bool_decide_false in Hall by done. done.
    + intros Hn i Hi. rewrite remove_bit by done. apply not_true_iff_false. rewrite andb_true_iff, negb_true_iff, bool_decide_eq_false. intros Hin. apply Hn. exists i. apply Hset; [done|by left].
Qed.
Lemma read_unlock_spec s held a t : stands_for s ((a, false, t) :: held) -> few ((a, false, t) :: held) ->
  exists s', read_unlock_account s a t = Some s' /\ ta_num_threads s' = ta_num_threads s /\ stands_for s' held.
Proof.
  intros Hs Hb. pose proof Hs as [S1 S2 S3 S4]. specialize (S2 a). unfold read_unlock_account. pose proof (threads_is _ _ S3) as Hth.
  assert (is_thread t) as Ht by (eapply Hth; left). assert (forall a b t, (a, b, t) ∈ held -> is_thread t) as Hth' by (intros a' b' t' ?; eapply Hth; by right).
  destruct (ta_locks s !! a) as [[w r]|] eqn:El; [|exfalso; eapply S2; left]. destruct S2 as (A1 & A2 & _). cbn [tl_write_locks tl_read_locks mbind option_bind] in *.
  destruct r as [r|]; [|exfalso; eapply A2; left]. cbn [mbind option_bind]. rewrite contains_exact by done.
  assert (Z.testbit (rl_thread_set r) t = true) as -> by (apply (ro_set _ _ _ A2 t Ht); left). cbn [rust_assert mbind option_bind].
  rewrite (ro_counts _ _ _ A2 t Ht), occ_cons, decide_True by done. cbn [mbind option_bind]. cbv zeta. apply few_tail in Hb.
  pose proof (occ_bound (a, false, t) held) as Hob. assert (wrapping_sub_u32 (1 + occ (a, false, t) held) 1 = occ (a, false, t) held) as ->
    by (unfold wrapping_sub_u32, few in *; rewrite Z.mod_small; lia).
  destruct (read_ok_unlock r a t held _ A2 Ht Hb eq_refl) as (U1 & U2 & U3).
  assert (match w with Some w => write_ok w a held | None => forall t, (a, true, t) ∉ held end) as A1'.
  { destruct w; [by apply write_ok_other in A1|]. intros t' Hin. eapply A1. by right. }
  assert (forall m o, m !! a = o -> (forall a', a' <> a -> m !! a' = ta_locks s !! a') -> account_ok o a held -> stands_for (with_locks s m) held) as Hgo
    by (intros m o; by apply (stands_remove s held a (a, false, t) m o)).
  case_bool_decide as Hz.
  - specialize (U3 Hz Hth'). destruct (ts_is_empty _).
    + assert (forall t, (a, false, t) ∉ held) as Hn by (intros t' Hin; apply U3; [done|by exists t']).
      destruct w as [w|]; (eexists; split; [done|]; split; [done|]; eapply Hgo).
      * apply lookup_insert_eq.
      * intros a' Ha. by apply lookup_insert_ne.
      * split; [done|]. split; [done|by left].
      * apply lookup_delete_eq.
      * intros a' Ha. by apply lookup_delete_ne.
      * intros [] t'; [apply A1'|apply Hn].
    + eexists. split; [done|]. split; [done|]. eapply Hgo; [apply lookup_insert_eq|intros a' Ha; by apply lookup_insert_ne|].
      split; [done|]. split; [|by right]. apply U2; [done|]. destruct (decide (Exists (fun x => x.1 = (a, false)) held)) as [Hex|Hex].
      * apply Exists_exists in Hex as ([[a' b'] t'] & Hin & [= -> ->]). by exists t'.
      * exfalso. assert (false = true) as ?; [|done]. apply U3. intros [t' Hin]. apply Hex, Exists_exists. by eexists.
  - eexists. split; [done|]. split; [done|]. eapply Hgo; [apply lookup_insert_eq|intros a' Ha; by apply lookup_insert_ne|].
    split; [done|]. split; [by apply U1|by right].
Qed.

(** ** Choosing a thread *)

(** Every lock on the account that conflicts is held by thread [t]. *)
Definition fits (WRITE : bool) a (t : Z) held : Prop := forall b t', (a, b, t') ∈ held -> WRITE = true \/ b = true -> t' = t.
Definition can_run held (ws rs : list K) (t : Z) : Prop := (forall a, a ∈ ws -> fits true a t held) /\ (forall a, a ∈ rs -> fits false a t held).

Lemma schedulable_spec WRITE s a held : stands_for s held ->
  exists S, schedulable_threads WRITE s a = Some S /\ ts_ok S /\ forall t, is_thread t -> Z.testbit S t = true <-> t < ta_num_threads s /\ fits WRITE a t held.
Proof.
  intros [S1 S2 S3 S4]. specialize (S2 a). pose proof (threads_is _ _ S3) as Hth. unfold schedulable_threads.
  assert (forall t, is_thread t -> Z.testbit (ts_any (ta_num_threads s)) t = true <-> t < ta_num_threads s) as Hany.
  { intros t Ht. rewrite any_bit by (done || (unfold is_thread in Ht; lia)). apply bool_decide_eq_true. }
  assert (forall t0 t, is_thread t0 -> is_thread t -> Z.testbit (ts_only t0) t = true <-> t = t0) as Honly.
  { intros t0 t Ht0 Ht. unfold ts_only. rewrite flag_bit by (done || (unfold is_thread in Ht; lia)). apply bool_decide_eq_true. }
  destruct (ta_locks s !! a) as [[[w|] [r|]]|]; cbn [account_ok tl_write_locks tl_read_locks] in S2.
  - destruct S2 as ((W1 & W2 & W3) & A2 & _). pose proof A2 as [R1 (t0 & R2) R3 R4 R5].
    assert (forall t', (a, false, t') ∈ held -> t' = wl_thread_id w) as Hr by (intros t' Hin; symmetry; by eapply S4).
    rewrite bool_decide_true by (by apply (read_only_one r a held)). cbn. eexists. split; [done|]. split; [done|]. intros t Ht. rewrite R5 by done. split.
    + intros ->%Hr. split; [by eapply S3|]. intros [] t' Hin _; [by apply W3|by apply Hr].
    + intros [_ Hf]. assert (wl_thread_id w = t) as <- by (eapply Hf; [exact W2|by right]). by rewrite <-(Hr t0 R2).
  - destruct S2 as ((W1 & W2 & W3) & A2 & _). eexists. split; [done|]. assert (is_thread (wl_thread_id w)) as Hw by (by eapply Hth). split; [by apply flag_ok|].
    intros t Ht. rewrite Honly by done. split.
    + intros ->. split; [by eapply S3|]. intros [] t' Hin _; [by apply W3|by apply A2 in Hin].
    + intros [_ Hf]. symmetry. eapply Hf; [exact W2|by right].
  - destruct S2 as (A1 & A2 & _). pose proof A2 as [R1 (t0 & R2) R3 R4 R5]. destruct WRITE.
    + eexists. split; [done|]. destruct (only_one_contained (rl_thread_set r)) as [t1|] eqn:Eo.
      * pose proof (proj1 (read_only_one r a held t1 A2 Hth) Eo) as Hr. assert (t0 = t1) as -> by (by apply Hr). assert (is_thread t1) as Ht1 by (by eapply Hth).
        split; [by apply flag_ok|]. intros t Ht. rewrite Honly by done. split.
        -- intros ->. split; [by eapply S3|]. intros [] t' Hin _; [by apply A1 in Hin|by apply Hr].
        -- intros [_ Hf]. symmetry. eapply Hf; [exact R2|by left].
      * split; [done|]. intros t Ht. unfold ts_none. rewrite Z.bits_0. split; [done|]. intros [_ Hf]. assert (only_one_contained (rl_thread_set r) = Some t) as Ho; [|congruence].
        apply (read_only_one r a held t A2 Hth). intros t' Hin. eapply Hf; [exact Hin|by left].
    + eexists. split; [done|]. split; [apply any_ok|]. intros t Ht. rewrite Hany by done. split; [|by intros [? _]]. intros Hn. split; [done|].
      intros b t' Hin [?| ->]; [done|by apply A1 in Hin].
  - by destruct S2 as (_ & _ & [?|?]).
  - eexists. split; [done|]. split; [apply any_ok|]. intros t Ht. rewrite Hany by done. split; [|by intros [? _]]. intros Hn. split; [done|]. intros b t' Hin. by apply S2 in Hin.
Qed.
Lemma nonempty_exact S : ts_ok S -> ts_is_empty S = false <-> exists t, is_thread t /\ Z.testbit S t = true.
Proof.
  intros HS. split.
  - intros He. destruct (ts_bits S) as [|t l] eqn:Eb.
    + exfalso. assert (ts_is_empty S = true) as ?; [|congruence]. apply empty_exact; [done|]. intros i Hi. apply not_true_iff_false. intros Hb.
      apply (elem_of_nil i). rewrite <-Eb. by apply elem_bits.
    + exists t. apply elem_bits. rewrite Eb. left.
  - intros (t & Ht & Hb). apply not_true_iff_false. intros He. rewrite empty_exact in He by done. by rewrite He in Hb.
Qed.
Lemma loop_spec WRITE s held accounts : stands_for s held -> forall S0, ts_ok S0 -> (forall t, is_thread t -> Z.testbit S0 t = true -> t < ta_num_threads s) -> ts_is_empty S0 = false ->
  exists r, schedulable_loop WRITE s accounts S0 = Some r /\
  match r with
  | Some T => ts_ok T /\ ts_is_empty T = false /\ forall t, is_thread t -> Z.testbit T t = true <-> Z.testbit S0 t = true /\ forall a, a ∈ accounts -> fits WRITE a t held
  | None => forall t, is_thread t -> ~ (Z.testbit S0 t = true /\ forall a, a ∈ accounts -> fits WRITE a t held)
  end.
Proof.
  intros Hs. induction accounts as [|a accounts IH]; intros S0 HS0 Hn He; cbn [schedulable_loop].
  { eexists. split; [done|]. split; [done|]. split; [done|]. intros t Ht. split; [|by intros [? _]]. intros Hb. split; [done|]. intros a Ha. by apply elem_of_nil in Ha. }
  destruct (schedulable_spec WRITE s a held Hs) as (S1 & -> & HS1 & Hspec). cbn [mbind option_bind]. cbv zeta.
  assert (ts_ok (Z.land S0 S1)) as Hok by (apply land_ok; [done|apply HS1]).
  assert (forall t, is_thread t -> Z.testbit (Z.land S0 S1) t = true <-> Z.testbit S0 t = true /\ fits WRITE a t held) as Hland.
  { intros t Ht. rewrite Z.land_spec, andb_true_iff, Hspec by done. split; [tauto|]. intros [Hb Hf]. split; [done|]. split; [by apply Hn|done]. }
  assert (forall t, (Z.testbit S0 t = true /\ (forall a', a' ∈ a :: accounts -> fits WRITE a' t held)) <->
    ((Z.testbit S0 t = true /\ fits WRITE a t held) /\ forall a', a' ∈ accounts -> fits WRITE a' t held)) as Hcons.
  { intros t. setoid_rewrite elem_of_cons. naive_solver. }
  destruct (ts_is_empty (Z.land S0 S1)) eqn:Ee.
  - eexists. split; [done|]. cbn. intros t Ht. rewrite Hcons, <-Hland by done. rewrite empty_exact in Ee by done. intros [Hb _]. by rewrite Ee in Hb.
  - destruct (IH (Z.land S0 S1) Hok) as (r & Hr & Hres); [intros t Ht Hb; apply Hn; [done|by apply Hland in Hb as [? _]]|done|]. exists r. split; [done|].
    destruct r as [S|]; cbn in *.
    + destruct Hres as (R1 & R2 & R3). split; [done|]. split; [done|]. intros t Ht. by rewrite R3, Hcons, Hland by done.
    + intros t Ht. rewrite Hcons, <-Hland by done. by apply Hres.
Qed.
Lemma accounts_spec s held ws rs : stands_for s held -> exists r, accounts_schedulable_threads s ws rs = Some r /\
  match r with
  | Some T => ts_ok T /\ ts_is_empty T = false /\ forall t, is_thread t -> Z.testbit T t = true <-> t < ta_num_threads s /\ can_run held ws rs t
  | None => forall t, is_thread t -> t < ta_num_threads s -> ~ can_run held ws rs t
  end.
Proof.
  intros Hs. pose proof (sf_n _ _ Hs) as Hn. unfold accounts_schedulable_threads.
  assert (forall t, is_thread t -> Z.testbit (ts_any (ta_num_threads s)) t = true <-> t < ta_num_threads s) as Hany.
  { intros t Ht. rewrite any_bit by (done || (unfold is_thread in Ht; lia)). apply bool_decide_eq_true. }
  assert (ts_is_empty (ts_any (ta_num_threads s)) = false) as Hne.
  { apply nonempty_exact; [apply any_ok|]. exists 0. assert (is_thread 0) by (unfold is_thread; lia). split; [done|]. apply Hany; [done|lia]. }
  destruct (loop_spec true s held ws Hs (ts_any (ta_num_threads s)) (any_ok _)) as (r1 & -> & H1); [intros t Ht; by apply Hany|done|]. cbn [mbind option_bind].
  destruct r1 as [S1|].
  2:{ eexists. split; [done|]. cbn. intros t Ht Htn [Hw _]. apply (H1 t Ht). split; [by apply Hany|done]. }
  destruct H1 as (K1 & K2 & K3). destruct (loop_spec false s held rs Hs S1 K1) as (r2 & -> & H2); [intros t Ht Hb; apply K3 in Hb as [Hb _]; [by apply Hany|done]|done|].
  eexists. split; [done|]. destruct r2 as [S2|].
  - destruct H2 as (L1 & L2 & L3). split; [done|]. split; [done|]. intros t Ht. rewrite L3, K3, Hany by done. unfold can_run. tauto.
  - intros t Ht Htn [Hw Hr]. apply (H2 t Ht). split; [|done]. apply K3; [done|]. split; [by apply Hany|done].
Qed.

(** ** Jobs *)

Record Job := mkJob { jb_writes : list K; jb_reads : list K; jb_thread : Z }.
Definition holds (WRITE : bool) (accounts : list K) (t : Z) : list Hold := (fun a => (a, WRITE, t)) <$> accounts.
Definition job_holds (j : Job) : list Hold := holds false (jb_reads j) (jb_thread j) ++ holds true (jb_writes j) (jb_thread j).
Lemma elem_holds W accounts t (x : Hold) : x ∈ holds W accounts t <-> exists a, x = (a, W, t) /\ a ∈ accounts.
Proof. unfold holds. apply list_elem_of_fmap. Qed.
Lemma fits_cons W a t held a' b : fits W a t held -> fits W a t ((a', b, t) :: held).
Proof. intros Hf b' t' [[= -> -> ->]|Hin]%elem_of_cons Hb; [done|by eapply Hf]. Qed.
Lemma few_app h1 h2 : few (h1 ++ h2) -> few h2.
Proof. unfold few. rewrite length_app. lia. Qed.

(** A loop that locks the accounts one after the other. *)
Lemma lock_loop W (step : ThreadAwareAccountLocks K -> K -> option (ThreadAwareAccountLocks K)) n t :
  (forall s held a, stands_for s held -> few ((a, W, t) :: held) -> ta_num_threads s = n -> fits W a t held ->
     exists s', step s a = Some s' /\ ta_num_threads s' = n /\ stands_for s' ((a, W, t) :: held)) ->
  forall accounts s held, stands_for s held -> few (holds W accounts t ++ held) -> ta_num_threads s = n -> (forall a, a ∈ accounts -> fits W a t held) ->
  exists s', for_accounts step accounts s = Some s' /\ ta_num_threads s' = n /\ stands_for s' (holds W accounts t ++ held).
Proof.
  intros Hstep. induction accounts as [|a accounts IH]; intros s held Hs Hb Hn Hf; [by exists s|]. unfold holds in *. rewrite fmap_cons in *. cbn [for_accounts app] in *.
  assert (((fun a => (a, W, t)) <$> accounts) ++ (a, W, t) :: held ≡ₚ (a, W, t) :: ((fun a => (a, W, t)) <$> accounts) ++ held) as Hp by (by rewrite Permutation_middle).
  assert (few (((fun a => (a, W, t)) <$> accounts) ++ (a, W, t) :: held)) as Hb' by (unfold few; by rewrite Hp).
  destruct (Hstep s held a) as (s1 & -> & Hn1 & Hs1); [done|by apply few_app in Hb'|done|apply Hf; left|]. cbn [mbind option_bind].
  destruct (IH s1 ((a, W, t) :: held)) as (s2 & Hs2 & Hn2 & Hst); [done|done|done| |].
  { intros a' Ha'. apply fits_cons, Hf. by right. }
  exists s2. split; [done|]. split; [done|]. by rewrite Hp in Hst.
Qed.
Lemma unlock_loop W (step : ThreadAwareAccountLocks K -> K -> option (ThreadAwareAccountLocks K)) n t :
  (forall s held a, stands_for s ((a, W, t) :: held) -> few ((a, W, t) :: held) -> ta_num_threads s = n ->
     exists s', step s a = Some s' /\ ta_num_threads s' = n /\ stands_for s' held) ->
  forall accounts s held, stands_for s (holds W accounts t ++ held) -> few (holds W accounts t ++ held) -> ta_num_threads s = n ->
  exists s', for_accounts step accounts s = Some s' /\ ta_num_threads s' = n /\ stands_for s' held.
Proof.
  intros Hstep. induction accounts as [|a accounts IH]; intros s held Hs Hb Hn; [by exists s|]. unfold holds in *. rewrite fmap_cons in *. cbn [for_accounts app] in *.
  destruct (Hstep s _ a Hs Hb Hn) as (s1 & -> & Hn1 & Hs1). cbn [mbind option_bind]. apply IH; [done|by apply few_tail in Hb|done].
Qed.
Lemma lock_accounts_spec s held ws rs t : stands_for s held -> few (job_holds (mkJob ws rs t) ++ held) -> is_thread t -> t < ta_num_threads s -> can_run held ws rs t ->
  exists s', aware_lock_accounts s ws rs t = Some s' /\ ta_num_threads s' = ta_num_threads s /\ stands_for s' (job_holds (mkJob ws rs t) ++ held).
Proof.
  intros Hs Hb Ht Htn [Hw Hr]. unfold aware_lock_accounts. rewrite bool_decide_true by done. cbn [rust_assert mbind option_bind].
  unfold job_holds in *. cbn [jb_writes jb_reads jb_thread] in *. rewrite <-app_assoc in *.
  destruct (lock_loop true (fun s a => write_lock_account s a t) (ta_num_threads s) t) with (accounts := ws) (s := s) (held := held) as (s1 & -> & Hn1 & Hs1); try done.
  { intros s1 h a H1 H2 H3 H4. rewrite <-H3. apply write_lock_spec; [done|done|done|congruence|]. intros b t' Hin. eapply H4; [done|by left]. }
  { by apply few_app in Hb. }
  cbn [mbind option_bind].
  destruct (lock_loop false (fun s a => read_lock_account s a t) (ta_num_threads s) t) with (accounts := rs) (s := s1) (held := holds true ws t ++ held) as (s2 & -> & Hn2 & Hs2); try done.
  { intros s2 h a H1 H2 H3 H4. rewrite <-H3. apply read_lock_spec; [done|done|done|congruence|]. intros t' Hin. eapply H4; [done|by right]. }
  { intros a Ha b t' [(a' & [= -> -> ->] & _)%elem_holds|Hin]%elem_of_app Hor; [done|by eapply Hr]. }
  exists s2. done.
Qed.
Lemma unlock_accounts_spec s held ws rs t : stands_for s (job_holds (mkJob ws rs t) ++ held) -> few (job_holds (mkJob ws rs t) ++ held) ->
  exists s', aware_unlock_accounts s ws rs t = Some s' /\ ta_num_threads s' = ta_num_threads s /\ stands_for s' held.
Proof.
  intros Hs Hb. unfold aware_unlock_accounts, job_holds in *. cbn [jb_writes jb_reads jb_thread] in *.
  assert ((holds false rs t ++ holds true ws t) ++ held ≡ₚ holds true ws t ++ (holds false rs t ++ held)) as Hp by (by rewrite app_assoc, (Permutation_app_comm (holds false rs t))).
  rewrite Hp in Hs. assert (few (holds true ws t ++ holds false rs t ++ held)) as Hb' by (unfold few in *; by rewrite <-Hp).
  destruct (unlock_loop true (fun s a => write_unlock_account s a t) (ta_num_threads s) t) with (accounts := ws) (s := s) (held := holds false rs t ++ held) as (s1 & -> & Hn1 & Hs1); try done.
  { intros s1 h a H1 H2 H3. rewrite <-H3. by apply write_unlock_spec. }
  cbn [mbind option_bind]. apply (unlock_loop false (fun s a => read_unlock_account s a t) (ta_num_threads s) t); [|done|by apply few_app in Hb'|done].
  intros s2 h a H1 H2 H3. rewrite <-H3. by apply read_unlock_spec.
Qed.

(** What [try_lock_accounts] should answer. *)
Definition selects (sel : Z -> Z) : Prop := forall T, ts_ok T -> ts_is_empty T = false -> is_thread (sel T) /\ Z.testbit T (sel T) = true.
Definition try_outcome (n : Z) held (ws rs : list K) (allowed : Z) (sel : Z -> Z) (r : result TryLockError Z) : Prop :=
  match r with
  | Err MultipleConflicts => forall t, is_thread t -> t < n -> ~ can_run held ws rs t
  | Err ThreadNotAllowed => (exists t, is_thread t /\ t < n /\ can_run held ws rs t) /\
      forall t, is_thread t -> t < n -> can_run held ws rs t -> Z.testbit allowed t = false
  | Ok t => exists T, t = sel T /\ ts_ok T /\ Z.testbit T t = true /\
      forall t', is_thread t' -> Z.testbit T t' = true <-> t' < n /\ can_run held ws rs t' /\ Z.testbit allowed t' = true
  end.
Lemma try_spec s held ws rs allowed sel : stands_for s held -> few (job_holds (mkJob ws rs (sel 0)) ++ held) -> ts_ok allowed -> selects sel ->
  exists s' r, aware_try_lock_accounts s ws rs allowed sel = Some (s', r) /\ try_outcome (ta_num_threads s) held ws rs allowed sel r /\ ta_num_threads s' = ta_num_threads s /\
  match r with
  | Ok t => is_thread t /\ t < ta_num_threads s /\ can_run held ws rs t /\ stands_for s' (job_holds (mkJob ws rs t) ++ held)
  | Err _ => s' = s
  end.
Proof.
  intros Hs Hb Ha Hsel. unfold aware_try_lock_accounts. destruct (accounts_spec s held ws rs Hs) as ([T|] & -> & Hspec); cbn [mbind option_bind].
  2:{ eexists _, _. split; [done|]. split; [done|]. done. }
  destruct Hspec as (T1 & T2 & T3). cbv zeta. assert (ts_ok (Z.land T allowed)) as Hok by (apply land_ok; [done|apply Ha]).
  assert (forall t, is_thread t -> Z.testbit (Z.land T allowed) t = true <-> t < ta_num_threads s /\ can_run held ws rs t /\ Z.testbit allowed t = true) as Hl.
  { intros t Ht. rewrite Z.land_spec, andb_true_iff, T3 by done. tauto. }
  destruct (ts_is_empty (Z.land T allowed)) eqn:Ee.
  - eexists _, _. split; [done|]. split; [|done]. split.
    + apply nonempty_exact in T2 as (t & Ht & Hbt); [|done]. apply T3 in Hbt as [? ?]; [|done]. by exists t.
    + intros t Ht Htn Hc. rewrite empty_exact in Ee by done. specialize (Ee t Ht). apply not_true_iff_false. intros Hal. assert (Z.testbit (Z.land T allowed) t = true) by (by apply Hl). congruence.
  - destruct (Hsel _ Hok Ee) as [Ht Hbt]. set (t := sel (Z.land T allowed)) in *. destruct (proj1 (Hl t Ht) Hbt) as (Htn & Hc & _).
    destruct (lock_accounts_spec s held ws rs t Hs) as (s1 & -> & Hn1 & Hs1); [|done|done|done|].
    { unfold few, job_holds, holds in *. cbn [jb_writes jb_reads jb_thread] in *. rewrite !length_app, !length_fmap in *. done. }
    cbn [mbind option_bind]. eexists _, _. split; [done|]. split; [by exists (Z.land T allowed)|]. done.
Qed.

(** *** Runs *)

Record SchedState := mkSched { sc_locks : ThreadAwareAccountLocks K; sc_jobs : list Job }.
Inductive SchedOp := TryLock (ws rs : list K) (allowed : Z) (sel : Z -> Z) | Unlock (i : nat).
Definition sched_step (s : SchedState) (op : SchedOp) : option SchedState :=
  match op with
  | TryLock ws rs allowed sel =>
    '(l, r) ← aware_try_lock_accounts (sc_locks s) ws rs allowed sel;
    Some (mkSched l (match r with Ok t => mkJob ws rs t :: sc_jobs s | Err _ => sc_jobs s end))
  | Unlock i =>
    j ← sc_jobs s !! i;
    l ← aware_unlock_accounts (sc_locks s) (jb_writes j) (jb_reads j) (jb_thread j);
    Some (mkSched l (delete i (sc_jobs s)))
  end.
Fixpoint sched_run (s : SchedState) (ops : list SchedOp) : option SchedState :=
  match ops with [] => Some s | op :: ops => s ← sched_step s op; sched_run s ops end.
Definition jobs_hold (jobs : list Job) : list Hold := concat (job_holds <$> jobs).
(** The selector returns a thread of the set it is given, less than [2^32] locks are
    held, and only jobs that run are returned. *)
Definition sched_valid (s : SchedState) (op : SchedOp) : Prop :=
  match op with
  | TryLock ws rs allowed sel => few (job_holds (mkJob ws rs (sel 0)) ++ jobs_hold (sc_jobs s)) /\ ts_ok allowed /\ selects sel
  | Unlock i => (i < length (sc_jobs s))%nat
  end.
Fixpoint sched_valid_run (s : SchedState) (ops : list SchedOp) : Prop :=
  match ops with [] => True | op :: ops => sched_valid s op /\ forall s', sched_step s op = Some s' -> sched_valid_run s' ops end.
Definition sched_inv (s : SchedState) : Prop := stands_for (sc_locks s) (jobs_hold (sc_jobs s)) /\ few (jobs_hold (sc_jobs s)).
Lemma sched_inv_step s op : sched_inv s -> sched_valid s op -> exists s', sched_step s op = Some s' /\ sched_inv s'.
Proof.
  intros [Hs Hb] Hv. destruct op as [ws rs allowed sel|i]; cbn [sched_step sched_valid] in *.
  - destruct Hv as (Hf & Ha & Hsel). destruct (try_spec _ _ ws rs allowed sel Hs Hf Ha Hsel) as (l & r & -> & _ & _ & Hr). cbn [mbind option_bind]. eexists. split; [done|].
    destruct r as [t|e]; [|by subst l]. destruct Hr as (_ & _ & _ & Hst). split; [done|]. cbn [sc_jobs]. unfold jobs_hold in *. rewrite fmap_cons. cbn [concat].
    unfold few, job_holds, holds in *. cbn [jb_writes jb_reads jb_thread] in *. rewrite !length_app, !length_fmap in *. done.
  - destruct (lookup_lt_is_Some_2 _ _ Hv) as [[ws rs t] Hj]. rewrite Hj. cbn [mbind option_bind jb_writes jb_reads jb_thread].
    assert (jobs_hold (sc_jobs s) ≡ₚ job_holds (mkJob ws rs t) ++ jobs_hold (delete i (sc_jobs s))) as Hp by (unfold jobs_hold; by rewrite (delete_Permutation (sc_jobs s) i _ Hj) at 1).
    rewrite Hp in Hs. assert (few (job_holds (mkJob ws rs t) ++ jobs_hold (delete i (sc_jobs s)))) as Hb' by (unfold few in *; by rewrite <-Hp).
    destruct (unlock_accounts_spec _ _ ws rs t Hs Hb') as (l & -> & _ & Hst). cbn [mbind option_bind]. eexists. split; [done|]. split; [done|]. by apply few_app in Hb'.
Qed.
Lemma sched_inv_run ops : forall s, sched_inv s -> sched_valid_run s ops -> exists s', sched_run s ops = Some s' /\ sched_inv s'.
Proof.
  induction ops as [|op ops IH]; intros s Hi Hv; [by exists s|]. destruct Hv as [Hv Hrun]. destruct (sched_inv_step s op Hi Hv) as (s1 & Hs1 & Hi1).
  cbn [sched_run]. rewrite Hs1. cbn [mbind option_bind]. apply IH; [done|]. by apply Hrun.
Qed.
Lemma stands_for_new n : 0 < n <= 64 -> stands_for (mkAware n ∅) [].
Proof. intros Hn. split; [done| |by intros a b t ?%elem_of_nil|by intros a b t t' ?%elem_of_nil]. intros a. cbn. rewrite lookup_empty. intros b t. apply not_elem_of_nil. Qed.
Lemma job_elem j (x : Hold) : x ∈ job_holds j <-> (exists a, x = (a, true, jb_thread j) /\ a ∈ jb_writes j) \/ (exists a, x = (a, false, jb_thread j) /\ a ∈ jb_reads j).
Proof. unfold job_holds. rewrite elem_of_app, !elem_holds. tauto. Qed.
Lemma job_in jobs j (x : Hold) : j ∈ jobs -> x ∈ job_holds j -> x ∈ jobs_hold jobs.
Proof.
  intros Hj Hx. unfold jobs_hold. apply list_elem_of_In, in_concat. exists (job_holds j). split; [|by apply list_elem_of_In]. apply list_elem_of_In, list_elem_of_fmap. by exists j.
Qed.
Lemma stands_for_empty s : stands_for s [] -> ta_locks s = ∅.
Proof.
  intros [_ S2 _ _]. apply map_eq. intros a. rewrite lookup_empty. specialize (S2 a). destruct (ta_locks s !! a) as [[w r]|]; [|done]. exfalso. destruct S2 as (A1 & A2 & A3).
  cbn [tl_write_locks tl_read_locks] in *. destruct w as [w|]; [destruct A1 as (_ & W2 & _); by apply elem_of_nil in W2|].
  destruct r as [r|]; [destruct A2 as [_ (t & Hin) _ _ _]; by apply elem_of_nil in Hin|]. by destruct A3.
Qed.

(** ** Properties *)

(** C38: However jobs are given to threads and returned, no call panics, the locks stand
    for exactly the jobs that run, two jobs on different threads never touch an account
    that one of them writes, and when all jobs are returned no entry is left. *)
Theorem scheduler_locks_exact n ops (Hn : 0 < n <= 64) (Hv : sched_valid_run (mkSched (mkAware n ∅) []) ops) :
  aware_new n = Some (mkAware n (∅ : gmap K ThreadLocks)) /\
  exists s, sched_run (mkSched (mkAware n ∅) []) ops = Some s /\ stands_for (sc_locks s) (jobs_hold (sc_jobs s)) /\
    (forall j j' a, j ∈ sc_jobs s -> j' ∈ sc_jobs s -> jb_thread j <> jb_thread j' -> (a ∈ jb_writes j) -> (a ∉ jb_writes j') /\ (a ∉ jb_reads j')) /\
    (sc_jobs s = [] -> ta_locks (sc_locks s) = ∅).
Proof.
  split; [unfold aware_new, MAX_THREADS; by rewrite !bool_decide_true by lia|].
  destruct (sched_inv_run ops (mkSched (mkAware n ∅) [])) as (s & Hs & Hi & _); [split; [by apply stands_for_new|done]|done|]. exists s. split; [done|]. split; [done|]. split.
  - intros j j' a Hj Hj' Hne Ha. assert ((a, true, jb_thread j) ∈ jobs_hold (sc_jobs s)) as H1 by (apply (job_in _ j); [done|]; apply job_elem; left; by exists a).
    split; intros Ha'; apply Hne; eapply (sf_safe _ _ Hi); [exact H1| |exact H1|]; apply (job_in _ j' _ Hj'), job_elem; [left; by exists a|right; by exists a].
  - intros Hj. apply stands_for_empty. by rewrite Hj in Hi.
Qed.

(** A job is accepted exactly if a thread can run it: [try_lock_accounts] fails with
    MultipleConflicts if on every thread it would conflict with a job of another one,
    with ThreadNotAllowed if the threads that can run it are not allowed, and otherwise
    the selector chooses among exactly the allowed threads that can run it. *)
Theorem try_lock_exact s ws rs allowed sel (Hs : sched_inv s) (Hv : sched_valid s (TryLock ws rs allowed sel)) :
  exists l r, aware_try_lock_accounts (sc_locks s) ws rs allowed sel = Some (l, r) /\
    try_outcome (ta_num_threads (sc_locks s)) (jobs_hold (sc_jobs s)) ws rs allowed sel r /\
    (forall t, r = Ok t -> stands_for l (job_holds (mkJob ws rs t) ++ jobs_hold (sc_jobs s))) /\
    (forall e, r = Err e -> l = sc_locks s).
Proof.
  destruct Hs as [Hs Hb], Hv as (Hf & Ha & Hsel). destruct (try_spec _ _ ws rs allowed sel Hs Hf Ha Hsel) as (l & r & Hl & Ho & _ & Hr).
  exists l, r. split; [done|]. split; [done|]. destruct r as [t|e].
  - split; [intros ? [= <-]; by apply Hr|done].
  - by split; [|intros ? _].
Qed.
End theorems.

(** The threads of a set are visited in ascending order, each once. *)
Lemma contained_iter_exact s : ts_ok s -> contained_threads_iter s = ts_bits s.
Proof.
  intros Hs. apply contained_exact; [done|]. unfold ts_bits. transitivity (length (seqZ 0 64)); [apply length_filter|done].
Qed.
Lemma first_selects : selects trailing_zeros.
Proof.
  intros T HT He. apply nonempty_exact in He as (t & Ht & Hb); [|done]. assert (t ∈ ts_bits T) as Hin by (by apply elem_bits). unfold trailing_zeros.
  destruct (ts_bits T) as [|x l] eqn:Eb; [by apply elem_of_nil in Hin|]. apply elem_bits. rewrite Eb. left.
Qed.
(** A concrete call is valid, and its result is evaluated. *)
Ltac try_valid := first [split; [vm_compute; reflexivity|split; [split; [vm_compute; discriminate|vm_compute; reflexivity]|exact first_selects]]|cbn; lia].
Ltac step_in := let s := fresh "s" in let H := fresh "H" in intros s H; vm_compute in H; injection H as H; subst s.
Definition sched_example : list (SchedOp (K := Z)) :=
  [TryLock [1] [2] (ts_any 4) trailing_zeros; TryLock [3] [2] (ts_remove (ts_any 4) 0) trailing_zeros; TryLock [1] [3] (ts_any 4) trailing_zeros;
   TryLock [1] [4] (ts_any 4) trailing_zeros; Unlock 1].
Lemma scheduler_locks_exact_witness :
  exists s, sched_run (mkSched (mkAware 4 ∅) []) sched_example = Some s /\ stands_for (sc_locks s) (jobs_hold (sc_jobs s)) /\
    sc_jobs s = [mkJob [1] [4] 0; mkJob [1] [2] 0].
Proof.
  assert (sched_valid_run (mkSched (mkAware 4 ∅) []) sched_example) as Hv.
  { unfold sched_example. repeat (cbn [sched_valid_run sched_valid]; split; [try_valid|]; step_in). exact I. }
  destruct (scheduler_locks_exact 4 sched_example ltac:(lia) Hv) as (_ & s & Hs & Hst & _). exists s. split; [exact Hs|]. split; [exact Hst|].
  vm_compute in Hs. injection Hs as <-. reflexivity.
Defined.
Lemma try_lock_exact_witness :
  exists l, aware_try_lock_accounts (mkAware 4 ∅) [1] [2] (ts_any 4) trailing_zeros = Some (l, Ok 0) /\
    try_outcome 4 [] [1] [2] (ts_any 4) trailing_zeros (Ok 0).
Proof.
  assert (sched_inv (mkSched (mkAware 4 (∅ : gmap Z ThreadLocks)) [])) as Hi by (split; [apply stands_for_new; lia|by vm_compute]).
  assert (sched_valid (mkSched (mkAware 4 (∅ : gmap Z ThreadLocks)) []) (TryLock [1] [2] (ts_any 4) trailing_zeros)) as Hv
    by (split; [by vm_compute|split; [by vm_compute|apply first_selects]]).
  destruct (try_lock_exact _ [1] [2] (ts_any 4) trailing_zeros Hi Hv) as (l & r & Hl & Ho & _).
  assert (r = Ok 0) as Hr by (vm_compute in Hl; injection Hl as _ <-; reflexivity). rewrite Hr in Hl, Ho. exists l. split; [exact Hl|exact Ho].
Defined.
