(* ===== verification/UnifiedScheduler.v ===== *)
(** * The unified scheduler

    [unified-scheduler-logic/src/lib.rs]: the state machine that decides when a task, a
    transaction to be executed, may run.  Every address has a usage queue: the tasks
    that use it now and the tasks that are blocked on it.  A task counts the addresses
    on which it is blocked and runs when there are none.  For block verification the
    queues are first in, first out; for block production they are ordered by the id of
    the task, and a task of higher priority takes an address from one that does not run
    yet (reblocking).

    The cells that the tokens of the source give access to, the usage queues and the
    counters of the tasks, are a store in the state of the machine: [usage_queues] by
    address, since the loader returns the same queue for the same address, and
    [blocked_usage_counts] by [t_ref], the allocation of the task.  A [BTreeMap] is the
    ascending list of its entries.  A panic is [None]. *)

From S2P Require Import Prelude.
From S2P Require Import AccountLocks.

(** ** Counters *)

Definition counter_increment (c : Z) : option Z := if bool_decide (c + 1 <= u32_max) then Some (c + 1) else None.
Definition counter_decrement (c : Z) : option Z := if bool_decide (1 <= c) then Some (c - 1) else None.

(** ** Ordered maps *)

(** [BTreeMap::insert] and [BTreeMap::remove] return the old value. *)
Fixpoint btree_insert {A} (key : Z) (value : A) (m : list (Z * A)) : option A * list (Z * A) :=
  match m with
  | [] => (None, [(key, value)])
  | (k, v) :: m' =>
    if bool_decide (key < k) then (None, (key, value) :: m)
    else if bool_decide (key = k) then (Some v, (key, value) :: m')
    else let '(old, m'') := btree_insert key value m' in (old, (k, v) :: m'')
  end.
Fixpoint btree_remove {A} (key : Z) (m : list (Z * A)) : option A * list (Z * A) :=
  match m with
  | [] => (None, [])
  | (k, v) :: m' => if bool_decide (key = k) then (Some v, m') else let '(old, m'') := btree_remove key m' in (old, (k, v) :: m'')
  end.
(** [insert(..).unwrap_none()]. *)
Definition btree_insert_new {A} (key : Z) (value : A) (m : list (Z * A)) : option (list (Z * A)) :=
  match btree_insert key value m with (None, m') => Some m' | (Some _, _) => None end.

(** ** Tasks *)

Inductive Capability := FifoQueueing | PriorityQueueing.
Inductive RequestedUsage := RequestReadonly | RequestWritable.

Section unified.
Context {K : Type} `{Countable K}.

Record LockContext := mkContext { lc_usage_queue : K; lc_requested_usage : RequestedUsage }.
Record Task := mkTask {
  t_ref : Z;
  t_transaction : LockTx K;
  t_id : Z;
  t_contexts : list LockContext;
  t_consumed_block_size : Z;
  t_sanitized_epoch : Z;
  t_alt_invalidation_slot : Z;
}.
(** [a.is_higher_priority(b)] *)
Definition is_higher_priority (a b : Task) : option bool :=
  match t_id a ?= t_id b with Lt => Some true | Gt => Some false | Eq => None end.

(** The cells with the counts; a new task's count is zero. *)
Abbreviation Counts := (gmap Z Z).
Definition blocked_usage_count (counts : Counts) (task : Task) : Z := default 0 (counts !! t_ref task).
Definition set_blocked_usage_count (counts : Counts) (task : Task) (count : Z) : Counts := <[t_ref task := count]> counts.
Definition try_unblock (counts : Counts) (task : Task) : option (option Task * Counts) :=
  count ← counter_decrement (blocked_usage_count counts task);
  Some (if bool_decide (count = 0) then Some task else None, set_blocked_usage_count counts task count).
Definition try_reblock (counts : Counts) (task : Task) : option (bool * Counts) :=
  if bool_decide (blocked_usage_count counts task = 0) then Some (false, counts)
  else count ← counter_increment (blocked_usage_count counts task); Some (true, set_blocked_usage_count counts task count).

(** [usage_queue_loader] gives the queue of the address. *)
Definition do_create_task (ref : Z) (transaction : LockTx K) (task_id consumed_block_size sanitized_epoch alt_invalidation_slot : Z) : Task :=
  let lock_contexts := (fun x : K * bool => mkContext x.1 (if x.2 then RequestWritable else RequestReadonly)) <$> accounts_with_is_writable transaction in
  mkTask ref transaction task_id lock_contexts consumed_block_size sanitized_epoch alt_invalidation_slot.
Definition create_task (ref : Z) (transaction : LockTx K) (task_id : Z) : Task := do_create_task ref transaction task_id 0 u64_max u64_max.

(** ** Usage queues *)

Inductive Usage (R W : Type) := Readonly (r : R) | Writable (w : W).
#[global] Arguments Readonly {_ _} _.
#[global] Arguments Writable {_ _} _.
Definition requested_usage {R W} (u : Usage R W) : RequestedUsage := match u with Readonly _ => RequestReadonly | Writable _ => RequestWritable end.
Abbreviation FifoUsage := (Usage Z unit).
Abbreviation PriorityUsage := (Usage (list (Z * Task)) Task).
Abbreviation UsageFromTask := (RequestedUsage * Task)%type.
Definition fifo_usage_from (requested : RequestedUsage) : FifoUsage := match requested with RequestReadonly => Readonly 1 | RequestWritable => Writable tt end.
Definition priority_usage_from (task : Task) (requested : RequestedUsage) : PriorityUsage :=
  match requested with RequestReadonly => Readonly [(t_id task, task)] | RequestWritable => Writable task end.

Inductive UsageQueueInner :=
  | Fifo (current_usage : option FifoUsage) (blocked_usages_from_tasks : list UsageFromTask)
  | Priority (current_usage : option PriorityUsage) (blocked_usages_from_tasks : list (Z * UsageFromTask)).
Definition queue_new (capability : Capability) : UsageQueueInner :=
  match capability with FifoQueueing => Fifo None [] | PriorityQueueing => Priority None [] end.

Definition insert_usage_from_task (b : list (Z * UsageFromTask)) (u : UsageFromTask) : option (list (Z * UsageFromTask)) := btree_insert_new (t_id u.2) u b.
Definition queue_current_usage (q : UsageQueueInner) : option RequestedUsage :=
  match q with Fifo current _ => requested_usage <$> current | Priority current _ => requested_usage <$> current end.
Definition queue_pop (q : UsageQueueInner) : option UsageFromTask * UsageQueueInner :=
  match q with
  | Fifo current [] | Priority current [] => (None, q)
  | Fifo current (u :: b) => (Some u, Fifo current b)
  | Priority current (u :: b) => (Some u.2, Priority current b)
  end.
Definition queue_push (q : UsageQueueInner) (u : UsageFromTask) : option UsageQueueInner :=
  match q with
  | Fifo current b => Some (Fifo current (b ++ [u]))
  | Priority current b => b ← insert_usage_from_task b u; Some (Priority current b)
  end.
Definition peek_blocked (q : UsageQueueInner) : option UsageFromTask :=
  match q with Fifo _ b => head b | Priority _ b => snd <$> head b end.
Definition push_blocked (q : UsageQueueInner) (u : UsageFromTask) : option UsageQueueInner :=
  match queue_current_usage q with Some _ => queue_push q u | None => None end.
Definition pop_lockable_readonly (q : UsageQueueInner) : option (option UsageFromTask * UsageQueueInner) :=
  match peek_blocked q with
  | Some (RequestReadonly, _) => match queue_current_usage q with Some RequestReadonly => Some (queue_pop q) | _ => None end
  | _ => Some (None, q)
  end.

Definition queue_try_lock (q : UsageQueueInner) (new_task : Task) (requested : RequestedUsage) : option (result unit unit * UsageQueueInner) :=
  match q with
  | Fifo current b =>
    new_usage ← match current with
      | None => Some (Ok (fifo_usage_from requested))
      | Some (Readonly count) =>
        match requested with
        | RequestReadonly => count ← counter_increment count; Some (Ok (Readonly count))
        | RequestWritable => Some (Err tt)
        end
      | Some (Writable _) => Some (Err tt)
      end;
    Some (match new_usage with Ok u => (Ok tt, Fifo (Some u) b) | Err _ => (Err tt, q) end)
  | Priority current b =>
    match current with
    | Some (Readonly tasks) =>
      match requested with
      | RequestReadonly => tasks ← btree_insert_new (t_id new_task) new_task tasks; Some (Ok tt, Priority (Some (Readonly tasks)) b)
      | RequestWritable => Some (Err tt, q)
      end
    | Some (Writable _) => Some (Err tt, q)
    | None => Some (Ok tt, Priority (Some (priority_usage_from new_task requested)) b)
    end
  end.

Definition queue_unlock (q : UsageQueueInner) (task : Task) (requested : RequestedUsage) : option (option UsageFromTask * UsageQueueInner) :=
  '(is_newly_lockable, q) ← match q with
    | Fifo (Some (Readonly count)) b =>
      match requested with
      | RequestReadonly =>
        if bool_decide (count = 1) then Some (true, Fifo None b) else count ← counter_decrement count; Some (false, Fifo (Some (Readonly count)) b)
      | RequestWritable => None
      end
    | Fifo (Some (Writable _)) b => match requested with RequestWritable => Some (true, Fifo None b) | RequestReadonly => None end
    | Fifo None _ => None
    | Priority (Some (Readonly tasks)) b =>
      match requested with
      | RequestReadonly =>
        match btree_remove (t_id task) tasks with
        | (Some _, []) => Some (true, Priority None b)
        | (Some _, tasks) => Some (false, Priority (Some (Readonly tasks)) b)
        | (None, _) => None
        end
      | RequestWritable => None
      end
    | Priority (Some (Writable _)) b => match requested with RequestWritable => Some (true, Priority None b) | RequestReadonly => None end
    | Priority None _ => None
    end;
  Some (if is_newly_lockable : bool then queue_pop q else (None, q)).

(** The loop over [extract_if]: the tasks that can be reblocked go to the blocked ones. *)
Fixpoint reblock_readers (counts : Counts) (from : Z) (current_tasks : list (Z * Task)) (b : list (Z * UsageFromTask))
    : option (list (Z * Task) * list (Z * UsageFromTask) * Counts) :=
  match current_tasks with
  | [] => Some ([], b, counts)
  | (key, task) :: rest =>
    if bool_decide (from <= key) then
      '(extracted, counts) ← try_reblock counts task;
      if extracted : bool then b ← insert_usage_from_task b (RequestReadonly, task); reblock_readers counts from rest b
      else '(rest, b, counts) ← reblock_readers counts from rest b; Some ((key, task) :: rest, b, counts)
    else '(rest, b, counts) ← reblock_readers counts from rest b; Some ((key, task) :: rest, b, counts)
  end.
Definition prepare_lock (q : UsageQueueInner) (counts : Counts) (new_task : Task) (requested : RequestedUsage)
    : option (result unit unit * UsageQueueInner * Counts) :=
  match q with
  | Fifo _ b => Some (match b with [] => Ok tt | _ => Err tt end, q, counts)
  | Priority None b => match b with [] => Some (Ok tt, q, counts) | _ => None end
  | Priority (Some (Writable current_task)) b =>
    higher ← is_higher_priority new_task current_task;
    if negb higher then Some (Err tt, q, counts) else
    '(reblocked, counts) ← try_reblock counts current_task;
    if negb reblocked then Some (Err tt, q, counts) else
    b ← insert_usage_from_task b (RequestWritable, current_task);
    Some (Ok tt, Priority None b, counts)
  | Priority (Some (Readonly current_tasks)) b =>
    match requested with
    | RequestReadonly =>
      match peek_blocked q with
      | None => Some (Ok tt, q, counts)
      | Some (RequestReadonly, _) => None
      | Some (RequestWritable, peeked_task) =>
        higher ← is_higher_priority new_task peeked_task;
        Some (if negb higher then Err tt else Ok tt, q, counts)
      end
    | RequestWritable =>
      '(current_tasks, b, counts) ← reblock_readers counts (t_id new_task) current_tasks b;
      Some (match current_tasks with
            | [] => (Ok tt, Priority None b, counts)
            | _ => (Err tt, Priority (Some (Readonly current_tasks)) b, counts)
            end)
    end
  end.

(** ** The state machine *)

Record SchedulingStateMachine := mkMachine {
  unblocked_task_queue : list Task;
  active_task_count : Z;
  peak_active_task_count : Z;
  dropped_task_count : Z;
  max_unique_active_task_count : option Z;
  unique_active_task_hashes : gset Z;
  running_task_count : Z;
  max_running_task_count : Z;
  handled_task_count : Z;
  unblocked_task_count : Z;
  total_task_count : Z;
  blocked_usage_counts : Counts;
  usage_queues : gmap K UsageQueueInner;
}.
Definition with_unblocked_queue (m : SchedulingStateMachine) (x : list Task) : SchedulingStateMachine :=
  mkMachine x (active_task_count m) (peak_active_task_count m) (dropped_task_count m) (max_unique_active_task_count m) (unique_active_task_hashes m) (running_task_count m) (max_running_task_count m) (handled_task_count m) (unblocked_task_count m) (total_task_count m) (blocked_usage_counts m) (usage_queues m).
Definition with_active (m : SchedulingStateMachine) (x : Z) : SchedulingStateMachine :=
  mkMachine (unblocked_task_queue m) x (peak_active_task_count m) (dropped_task_count m) (max_unique_active_task_count m) (unique_active_task_hashes m) (running_task_count m) (max_running_task_count m) (handled_task_count m) (unblocked_task_count m) (total_task_count m) (blocked_usage_counts m) (usage_queues m).
Definition with_peak (m : SchedulingStateMachine) (x : Z) : SchedulingStateMachine :=
  mkMachine (unblocked_task_queue m) (active_task_count m) x (dropped_task_count m) (max_unique_active_task_count m) (unique_active_task_hashes m) (running_task_count m) (max_running_task_count m) (handled_task_count m) (unblocked_task_count m) (total_task_count m) (blocked_usage_counts m) (usage_queues m).
Definition with_dropped (m : SchedulingStateMachine) (x : Z) : SchedulingStateMachine :=
  mkMachine (unblocked_task_queue m) (active_task_count m) (peak_active_task_count m) x (max_unique_active_task_count m) (unique_active_task_hashes m) (running_task_count m) (max_running_task_count m) (handled_task_count m) (unblocked_task_count m) (total_task_count m) (blocked_usage_counts m) (usage_queues m).
Definition with_hashes (m : SchedulingStateMachine) (x : gset Z) : SchedulingStateMachine :=
  mkMachine (unblocked_task_queue m) (active_task_count m) (peak_active_task_count m) (dropped_task_count m) (max_unique_active_task_count m) x (running_task_count m) (max_running_task_count m) (handled_task_count m) (unblocked_task_count m) (total_task_count m) (blocked_usage_counts m) (usage_queues m).
Definition with_running (m : SchedulingStateMachine) (x : Z) : SchedulingStateMachine :=
  mkMachine (unblocked_task_queue m) (active_task_count m) (peak_active_task_count m) (dropped_task_count m) (max_unique_active_task_count m) (unique_active_task_hashes m) x (max_running_task_count m) (handled_task_count m) (unblocked_task_count m) (total_task_count m) (blocked_usage_counts m) (usage_queues m).
Definition with_handled (m : SchedulingStateMachine) (x : Z) : SchedulingStateMachine :=
  mkMachine (unblocked_task_queue m) (active_task_count m) (peak_active_task_count m) (dropped_task_count m) (max_unique_active_task_count m) (unique_active_task_hashes m) (running_task_count m) (max_running_task_count m) x (unblocked_task_count m) (total_task_count m) (blocked_usage_counts m) (usage_queues m).
Definition with_unblocked_count (m : SchedulingStateMachine) (x : Z) : SchedulingStateMachine :=
  mkMachine (unblocked_task_queue m) (active_task_count m) (peak_active_task_count m) (dropped_task_count m) (max_unique_active_task_count m) (unique_active_task_hashes m) (running_task_count m) (max_running_task_count m) (handled_task_count m) x (total_task_count m) (blocked_usage_counts m) (usage_queues m).
Definition with_total (m : SchedulingStateMachine) (x : Z) : SchedulingStateMachine :=
  mkMachine (unblocked_task_queue m) (active_task_count m) (peak_active_task_count m) (dropped_task_count m) (max_unique_active_task_count m) (unique_active_task_hashes m) (running_task_count m) (max_running_task_count m) (handled_task_count m) (unblocked_task_count m) x (blocked_usage_counts m) (usage_queues m).
Definition with_counts (m : SchedulingStateMachine) (x : Counts) : SchedulingStateMachine :=
  mkMachine (unblocked_task_queue m) (active_task_count m) (peak_active_task_count m) (dropped_task_count m) (max_unique_active_task_count m) (unique_active_task_hashes m) (running_task_count m) (max_running_task_count m) (handled_task_count m) (unblocked_task_count m) (total_task_count m) x (usage_queues m).
Definition with_queues (m : SchedulingStateMachine) (x : gmap K UsageQueueInner) : SchedulingStateMachine :=
  mkMachine (unblocked_task_queue m) (active_task_count m) (peak_active_task_count m) (dropped_task_count m) (max_unique_active_task_count m) (unique_active_task_hashes m) (running_task_count m) (max_running_task_count m) (handled_task_count m) (unblocked_task_count m) (total_task_count m) (blocked_usage_counts m) x.

Definition has_no_running_task (m : SchedulingStateMachine) : bool := bool_decide (running_task_count m = 0).
Definition has_no_active_task (m : SchedulingStateMachine) : bool := bool_decide (active_task_count m = 0).
Definition has_unblocked_task (m : SchedulingStateMachine) : bool := match unblocked_task_queue m with [] => false | _ => true end.
Definition is_task_runnable (m : SchedulingStateMachine) : bool := bool_decide (running_task_count m < max_running_task_count m).
Definition has_runnable_task (m : SchedulingStateMachine) : bool := has_unblocked_task m && is_task_runnable m.

(** [exclusively_initialize_current_thread_for_scheduling] *)
Definition machine_new (max_running max_unique : option Z) : option SchedulingStateMachine :=
  let max_running := default u32_max max_running in
  if bool_decide (max_running <= u32_max) then Some (mkMachine [] 0 0 0 max_unique ∅ 0 max_running 0 0 0 ∅ ∅) else None.

(** The queues that the loader has not made yet are new ones. *)
Context (capability : Capability).
Definition queue_of (m : SchedulingStateMachine) (address : K) : UsageQueueInner := default (queue_new capability) (usage_queues m !! address).
Definition set_queue (m : SchedulingStateMachine) (address : K) (q : UsageQueueInner) : SchedulingStateMachine := with_queues m (<[address := q]> (usage_queues m)).

(** The body of the loop of [try_lock_usage_queues] over the contexts. *)
Definition lock_usage_queue (m : SchedulingStateMachine) (task : Task) (context : LockContext) (blocked : Z) : option (SchedulingStateMachine * Z) :=
  let address := lc_usage_queue context in let requested := lc_requested_usage context in
  '(prepared, q, counts) ← prepare_lock (queue_of m address) (blocked_usage_counts m) task requested;
  '(locked, q) ← match prepared with Ok _ => queue_try_lock q task requested | Err e => Some (Err e, q) end;
  match locked with
  | Ok _ => Some (set_queue (with_counts m counts) address q, blocked)
  | Err _ => blocked ← counter_increment blocked; q ← push_blocked q (requested, task); Some (set_queue (with_counts m counts) address q, blocked)
  end.
Fixpoint lock_contexts (m : SchedulingStateMachine) (task : Task) (contexts : list LockContext) (blocked : Z) : option (SchedulingStateMachine * Z) :=
  match contexts with
  | [] => Some (m, blocked)
  | context :: contexts => '(m, blocked) ← lock_usage_queue m task context blocked; lock_contexts m task contexts blocked
  end.
Definition try_lock_usage_queues (m : SchedulingStateMachine) (task : Task) : option (option Task * SchedulingStateMachine) :=
  '(m, blocked) ← lock_contexts m task (t_contexts task) 0;
  Some (if bool_decide (blocked = 0) then (Some task, m)
        else (None, with_counts m (set_blocked_usage_count (blocked_usage_counts m) task blocked))).

(** The [while let] loop: every round takes one task from the blocked ones of the queue,
    which bounds the rounds. *)
Fixpoint grant_loop (rounds : nat) (q : UsageQueueInner) (counts : Counts) (unblocked : list Task) (newly_lockable : option UsageFromTask)
    : option (UsageQueueInner * Counts * list Task) :=
  match newly_lockable with
  | None => Some (q, counts, unblocked)
  | Some (lockable_usage, lockable_task) =>
    match rounds with
    | O => None
    | S rounds =>
      '(locked, q) ← queue_try_lock q lockable_task lockable_usage;
      match locked with Err _ => None | Ok _ =>
        '(unblocked_task, counts) ← try_unblock counts lockable_task;
        let unblocked := match unblocked_task with Some task => unblocked ++ [task] | None => unblocked end in
        '(newly_lockable, q) ← match lockable_usage with RequestReadonly => pop_lockable_readonly q | RequestWritable => Some (None, q) end;
        grant_loop rounds q counts unblocked newly_lockable
      end
    end
  end.
Definition queue_len (q : UsageQueueInner) : nat := match q with Fifo _ b => length b | Priority _ b => length b end.
(** The body of the loop of [unlock_usage_queues] over the contexts. *)
Definition unlock_usage_queue (m : SchedulingStateMachine) (task : Task) (context : LockContext) : option SchedulingStateMachine :=
  let address := lc_usage_queue context in
  '(newly_lockable, q) ← queue_unlock (queue_of m address) task (lc_requested_usage context);
  '(q, counts, unblocked) ← grant_loop (S (queue_len q)) q (blocked_usage_counts m) (unblocked_task_queue m) newly_lockable;
  Some (set_queue (with_counts (with_unblocked_queue m unblocked) counts) address q).
Fixpoint unlock_contexts (m : SchedulingStateMachine) (task : Task) (contexts : list LockContext) : option SchedulingStateMachine :=
  match contexts with
  | [] => Some m
  | context :: contexts => m ← unlock_usage_queue m task context; unlock_contexts m task contexts
  end.
Definition unlock_usage_queues (m : SchedulingStateMachine) (task : Task) : option SchedulingStateMachine := unlock_contexts m task (t_contexts task).

(** The guards of [schedule_or_buffer_task]: is the task dropped? *)
Definition drop_check (m : SchedulingStateMachine) (task : Task) : option (bool * SchedulingStateMachine) :=
  match max_unique_active_task_count m with
  | None => Some (false, m)
  | Some max_unique =>
    let hash := lt_message_hash (t_transaction task) in
    if bool_decide (max_unique <= Z.of_nat (size (unique_active_task_hashes m))) || bool_decide (hash ∈ unique_active_task_hashes m)
    then dropped ← counter_increment (dropped_task_count m); Some (true, with_dropped m dropped)
    else Some (false, with_hashes m ({[hash]} ∪ unique_active_task_hashes m))
  end.
Definition schedule_or_buffer_task (m : SchedulingStateMachine) (task : Task) (force_buffering : bool) : option (option Task * SchedulingStateMachine) :=
  total ← counter_increment (total_task_count m);
  '(dropped, m) ← drop_check (with_total m total) task;
  if dropped : bool then Some (None, m) else
  active ← counter_increment (active_task_count m);
  let m := with_peak (with_active m active) (Z.max (peak_active_task_count m) active) in
  '(locked, m) ← try_lock_usage_queues m task;
  match locked with
  | None => Some (None, m)
  | Some task =>
    if negb (is_task_runnable m) || force_buffering then
      count ← counter_increment (unblocked_task_count m);
      Some (None, with_unblocked_queue (with_unblocked_count m count) (unblocked_task_queue m ++ [task]))
    else running ← counter_increment (running_task_count m); Some (Some task, with_running m running)
  end.
Definition buffer_task (m : SchedulingStateMachine) (task : Task) : option SchedulingStateMachine :=
  '(r, m) ← schedule_or_buffer_task m task true;
  match r with None => Some m | Some _ => None end.
Definition schedule_next_unblocked_task (m : SchedulingStateMachine) : option (option Task * SchedulingStateMachine) :=
  if negb (is_task_runnable m) then Some (None, m) else
  match unblocked_task_queue m with
  | [] => Some (None, m)
  | task :: rest =>
    running ← counter_increment (running_task_count m);
    count ← counter_increment (unblocked_task_count m);
    Some (Some task, with_unblocked_count (with_running (with_unblocked_queue m rest) running) count)
  end.
Definition deschedule_task (m : SchedulingStateMachine) (task : Task) : option SchedulingStateMachine :=
  running ← counter_decrement (running_task_count m);
  let m := with_running m running in
  let hash := lt_message_hash (t_transaction task) in
  m ← match max_unique_active_task_count m with
      | None => Some m
      | Some _ => rust_assert (bool_decide (hash ∈ unique_active_task_hashes m)) ;; Some (with_hashes m (unique_active_task_hashes m ∖ {[hash]}))
      end;
  active ← counter_decrement (active_task_count m);
  handled ← counter_increment (handled_task_count m);
  unlock_usage_queues (with_handled (with_active m active) handled) task.

Definition reinitialize (m : SchedulingStateMachine) : option SchedulingStateMachine :=
  rust_assert (has_no_active_task m) ;;
  rust_assert (bool_decide (size (unique_active_task_hashes m) = 0%nat)) ;;
  rust_assert (bool_decide (running_task_count m = 0)) ;;
  rust_assert (negb (has_unblocked_task m)) ;;
  Some (with_total (with_unblocked_count (with_handled (with_dropped (with_peak (with_active m 0) 0) 0) 0) 0) 0).
(** The loop of [clear_and_reinitialize]; every round ends an active task. *)
Fixpoint clear_loop (rounds : nat) (m : SchedulingStateMachine) (count : Z) : option (Z * SchedulingStateMachine) :=
  match rounds with
  | O => None
  | S rounds =>
    '(next, m) ← schedule_next_unblocked_task m;
    match next with
    | None => Some (count, m)
    | Some task => m ← deschedule_task m task; count ← counter_increment count; clear_loop rounds m count
    end
  end.
Definition clear_and_reinitialize (m : SchedulingStateMachine) : option (Z * SchedulingStateMachine) :=
  '(count, m) ← clear_loop (S (Z.to_nat (active_task_count m))) m 0;
  m ← reinitialize m;
  Some (count, m).
End unified.
#[global] Arguments LockContext : clear implicits.
#[global] Arguments Task : clear implicits.
#[global] Arguments UsageQueueInner : clear implicits.
#[global] Arguments SchedulingStateMachine K {_ _}.
