(* ===== verification/UnifiedQueues.v ===== *)
(** * One usage queue of the unified scheduler

    What a usage queue means: the tasks that use the address and the blocked ones are
    together the active tasks that ask for it.  Taking the address for a new task and
    giving it back keep that meaning; the theorems of [UnifiedTheorems] are about all
    queues together. *)

From S2P Require Import Prelude.
From S2P Require Import UnifiedScheduler.

(** ** Lists *)

Lemma fmap_inj_in {A B} (f : A -> B) (l : list A) x y : NoDup (f <$> l) -> x ∈ l -> y ∈ l -> f x = f y -> x = y.
Proof.
  intros Hnd Hx Hy Heq. apply list_elem_of_lookup in Hx as [i Hi]. apply list_elem_of_lookup in Hy as [j Hj].
  assert (i = j) as ->; [|congruence]. eapply NoDup_lookup; [exact Hnd| |]; rewrite list_lookup_fmap; [by rewrite Hi|rewrite Hj; simpl; by rewrite Heq].
Qed.

(** ** Ordered maps *)

Section btree.
Context {A : Type}.
Implicit Type m : list (Z * A).

Definition bsorted m : Prop := StronglySorted (fun x y => x.1 < y.1) m.
Lemma bsorted_app m1 m2 : bsorted (m1 ++ m2) <-> bsorted m1 /\ bsorted m2 /\ forall x y, x ∈ m1 -> y ∈ m2 -> x.1 < y.1.
Proof.
  unfold bsorted. induction m1 as [|x m1 IH]; simpl.
  - split; [intros Hs|by intros (_ & Hs & _)]. split; [constructor|]. split; [done|]. intros x y Hx. by apply elem_of_nil in Hx.
  - split.
    + intros Hs. apply StronglySorted_inv in Hs as [Hs Hx]. apply IH in Hs as (H1 & H2 & H3). rewrite Forall_app in Hx. destruct Hx as [Hx1 Hx2].
      split; [by constructor|]. split; [done|]. intros a b Ha Hb. apply elem_of_cons in Ha as [->|Ha]; [|by apply H3]. by eapply Forall_forall in Hx2.
    + intros (H1 & H2 & H3). apply StronglySorted_inv in H1 as [H1 Hx]. constructor; [apply IH; split; [done|]; split; [done|]; intros a b Ha Hb; apply H3; [by right|done]|].
      apply Forall_app. split; [done|]. apply Forall_forall. intros b Hb. apply H3; [left|done].
Qed.
Lemma bsorted_cons x m : bsorted (x :: m) <-> bsorted m /\ forall y, y ∈ m -> x.1 < y.1.
Proof.
  unfold bsorted. split; [intros Hs%StronglySorted_inv|intros [? ?]; constructor; [done|by apply Forall_forall]]. split; [apply Hs|]. apply Forall_forall. apply Hs.
Qed.
Lemma insert_new_spec k (v : A) m : bsorted m -> k ∉ m.*1 ->
  exists m1 m2, m = m1 ++ m2 /\ btree_insert_new k v m = Some (m1 ++ (k, v) :: m2) /\ bsorted (m1 ++ (k, v) :: m2).
Proof.
  unfold btree_insert_new. induction m as [|[k' v'] m IH]; intros Hs Hk.
  - exists [], []. split; [done|]. split; [done|]. repeat constructor.
  - cbn [btree_insert]. rewrite fmap_cons, not_elem_of_cons in Hk. destruct Hk as [Hne Hk]. simpl in Hne. pose proof Hs as Hs'. rewrite bsorted_cons in Hs'. destruct Hs' as [Hm Hlt].
    case_bool_decide as H1; [|case_bool_decide as H2; [done|]].
    + exists [], ((k', v') :: m). split; [done|]. split; [done|]. simpl. rewrite bsorted_cons. split; [done|]. intros y Hy. apply elem_of_cons in Hy as [->|Hy]; [done|]. specialize (Hlt y Hy). simpl in *. lia.
    + destruct (IH Hm Hk) as (m1 & m2 & -> & Hi & Hs2). destruct (btree_insert k v (m1 ++ m2)) as [[?|] m'']; [done|]. inv_some.
      exists ((k', v') :: m1), m2. split; [done|]. split; [done|]. simpl. rewrite bsorted_cons. split; [done|]. intros y Hy. rewrite elem_of_app, elem_of_cons in Hy.
      destruct Hy as [Hy|[->|Hy]]; [apply Hlt, elem_of_app; by left|simpl; lia|apply Hlt, elem_of_app; by right].
Qed.
Lemma remove_spec k (v : A) m : bsorted m -> (k, v) ∈ m -> exists m1 m2, m = m1 ++ (k, v) :: m2 /\ btree_remove k m = (Some v, m1 ++ m2).
Proof.
  induction m as [|[k' v'] m IH]; intros Hs Hk; [by apply elem_of_nil in Hk|]. apply bsorted_cons in Hs as [Hs Hlt]. cbn [btree_remove]. apply elem_of_cons in Hk as [[= <- <-]|Hk].
  - exists [], m. split; [done|]. by rewrite bool_decide_true.
  - specialize (Hlt _ Hk). simpl in Hlt. rewrite bool_decide_false by lia. destruct (IH Hs Hk) as (m1 & m2 & -> & ->). by exists ((k', v') :: m1), m2.
Qed.
Lemma bsorted_remove m1 x m2 : bsorted (m1 ++ x :: m2) -> bsorted (m1 ++ m2).
Proof.
  rewrite !bsorted_app, bsorted_cons. intros (H1 & [H2 H3] & H4). split; [done|]. split; [done|]. intros a b Ha Hb. apply H4; [done|]. by right.
Qed.
End btree.

(** ** What a queue means *)

Section queues.
Context {K : Type} `{Countable K}.
Implicit Types (task : Task K) (counts : gmap Z Z) (q : UsageQueueInner K).
Abbreviation Use := (RequestedUsage * Task K)%type.
Implicit Types users : list Use.

Definition refs (l : list Use) : list Z := (fun x => t_ref x.2) <$> l.
Definition ids (l : list Use) : list Z := (fun x => t_id x.2) <$> l.
#[global] Instance refs_proper : Proper ((≡ₚ) ==> (≡ₚ)) refs.
Proof. intros l1 l2 Hl. unfold refs. by rewrite Hl. Qed.
#[global] Instance ids_proper : Proper ((≡ₚ) ==> (≡ₚ)) ids.
Proof. intros l1 l2 Hl. unfold ids. by rewrite Hl. Qed.
Definition is_read (x : Use) : Prop := x.1 = RequestReadonly.
Definition blocked_of q : list Use := match q with Fifo _ b => b | Priority _ b => b.*2 end.
(** The next blocked task, if it waits for the readers, wants to write. *)
Definition writer_first (b : list Use) : Prop := forall t, head b <> Some (RequestReadonly, t).

(** The tasks that hold the address, against the current usage. *)
Definition fifo_holders (current : option (Usage Z unit)) (holders : list Use) : Prop :=
  match current with
  | None => holders = []
  | Some (Readonly count) => holders <> [] /\ Forall is_read holders /\ count = Z.of_nat (length holders)
  | Some (Writable _) => exists t, holders = [(RequestWritable, t)]
  end.
Definition holders_of (current : option (Usage (list (Z * Task K)) (Task K))) : list Use :=
  match current with
  | None => []
  | Some (Readonly tasks) => (fun e => (RequestReadonly, e.2)) <$> tasks
  | Some (Writable t) => [(RequestWritable, t)]
  end.
Definition current_ok (current : option (Usage (list (Z * Task K)) (Task K))) : Prop :=
  match current with
  | Some (Readonly tasks) => tasks <> [] /\ bsorted tasks /\ Forall (fun e => e.1 = t_id e.2) tasks
  | _ => True
  end.
Definition blocked_ok (b : list (Z * Use)) : Prop := bsorted b /\ Forall (fun e => e.1 = t_id e.2.2) b.
Definition current_reads {R W} (current : option (Usage R W)) : Prop := exists r, current = Some (Readonly r).

(** [users] are the active tasks that ask for the address, in the order they came.  [pos]
    are the tasks that may be blocked elsewhere.  In a first-in-first-out queue the
    holders came before the blocked ones.  In a priority queue a task that waits
    elsewhere holds the address only if it comes before all that are blocked here. *)
Definition queue_inv (capability : Capability) users (pos : Z -> Prop) q : Prop :=
  match q with
  | Fifo current b => capability = FifoQueueing /\ (exists holders, users = holders ++ b /\ fifo_holders current holders) /\
      (current = None -> b = []) /\ (current_reads current -> writer_first b)
  | Priority current b => capability = PriorityQueueing /\ holders_of current ++ b.*2 ≡ₚ users /\ current_ok current /\ blocked_ok b /\
      (current = None -> b = []) /\ (current_reads current -> writer_first b.*2) /\
      (forall h e, h ∈ holders_of current -> pos (t_ref h.2) -> e ∈ b -> t_id h.2 < e.1)
  end.

(** The two rounds of the source, for one queue. *)
Definition lock_queue q counts task u : option (bool * UsageQueueInner K * gmap Z Z) :=
  '(prepared, q, counts) ← prepare_lock q counts task u;
  '(locked, q) ← match prepared with Ok _ => queue_try_lock q task u | Err e => Some (Err e, q) end;
  match locked with
  | Ok _ => Some (false, q, counts)
  | Err _ => q ← push_blocked q (u, task); Some (true, q, counts)
  end.

(** ** Taking an address *)

Definition cnt counts (r : Z) : Z := default 0 (counts !! r).
Definition lock_result (capability : Capability) users (pos : Z -> Prop) q counts task u : Prop :=
  exists blocked q' counts' reblocked, lock_queue q counts task u = Some (blocked, q', counts') /\
    queue_inv capability (users ++ [(u, task)]) (fun x => pos x \/ x = t_ref task) q' /\
    blocked_of q' ≡ₚ blocked_of q ++ reblocked ++ (if blocked : bool then [(u, task)] else []) /\
    (forall l, l ∈ reblocked -> (l ∈ users) /\ (l ∉ blocked_of q) /\ pos (t_ref l.2)) /\ NoDup (refs reblocked) /\
    (forall x, cnt counts' x = cnt counts x + (if decide (x ∈ refs reblocked) then 1 else 0)).
Record lock_ready (capability : Capability) users (pos : Z -> Prop) q counts task u : Prop := {
  lr_inv : queue_inv capability users pos q;
  lr_ids : capability = PriorityQueueing -> NoDup (ids (users ++ [(u, task)]));
  lr_refs : NoDup (refs (users ++ [(u, task)]));
  lr_pos : forall h, h ∈ users -> pos (t_ref h.2) <-> cnt counts (t_ref h.2) <> 0;
  lr_bound : forall h, h ∈ users -> h ∉ blocked_of q -> cnt counts (t_ref h.2) + 1 <= u32_max;
  lr_len : Z.of_nat (length users) + 1 <= u32_max;
}.

Lemma counter_up c : c + 1 <= u32_max -> counter_increment c = Some (c + 1).
Proof. intros Hc. unfold counter_increment. by rewrite bool_decide_true. Qed.
Lemma counter_down c : 1 <= c -> counter_decrement c = Some (c - 1).
Proof. intros Hc. unfold counter_decrement. by rewrite bool_decide_true. Qed.
Lemma no_bump counts x : cnt counts x = cnt counts x + (if decide (x ∈ refs []) then 1 else 0).
Proof. rewrite decide_False by apply not_elem_of_nil. lia. Qed.

Lemma fifo_blocked users pos current b task u : (exists usage, current = Some usage) -> (current_reads current -> writer_first (b ++ [(u, task)])) ->
  queue_inv FifoQueueing users pos (Fifo current b) ->
  queue_inv FifoQueueing (users ++ [(u, task)]) (fun x => pos x \/ x = t_ref task) (Fifo current (b ++ [(u, task)])).
Proof.
  intros [usage ->] Hw (_ & (h & -> & Hh) & _ & _). split; [done|]. split; [exists h; by rewrite app_assoc|]. split; [done|]. done.
Qed.
Lemma fifo_lock users pos current b counts task u : lock_ready FifoQueueing users pos (Fifo current b) counts task u ->
  lock_result FifoQueueing users pos (Fifo current b) counts task u.
Proof.
  intros [Hq _ _ _ _ Hlen]. pose proof Hq as (_ & (h & Hu & Hh) & Hn & Hw).
  assert (forall usage, current = Some usage -> (current_reads current -> writer_first (b ++ [(u, task)])) ->
    lock_queue (Fifo current b) counts task u = Some (true, Fifo current (b ++ [(u, task)]), counts) -> lock_result FifoQueueing users pos (Fifo current b) counts task u) as Hblocked.
  { intros usage Hc Hw' Hl. exists true, (Fifo current (b ++ [(u, task)])), counts, []. split; [done|]. split; [apply fifo_blocked; [by exists usage|done|done]|].
    split; [done|]. split; [intros l Hl'; by apply elem_of_nil in Hl'|]. split; [constructor|apply no_bump]. }
  assert (forall usage, b = [] -> fifo_holders (Some usage) (h ++ [(u, task)]) ->
    lock_queue (Fifo current b) counts task u = Some (false, Fifo (Some usage) b, counts) -> lock_result FifoQueueing users pos (Fifo current b) counts task u) as Hgrant.
  { intros usage -> Hf Hl. exists false, (Fifo (Some usage) []), counts, []. split; [done|]. split.
    - split; [done|]. split; [exists (h ++ [(u, task)]); rewrite Hu, !app_nil_r; done|]. split; [done|]. intros _ t. done.
    - split; [done|]. split; [intros l Hl'; by apply elem_of_nil in Hl'|]. split; [constructor|apply no_bump]. }
  destruct b as [|x b]; [|].
  - rewrite app_nil_r in Hu. subst h. destruct current as [[n|[]]|]; unfold lock_queue in *; cbn [prepare_lock mbind option_bind queue_try_lock] in *.
    + destruct Hh as (Hne & Hr & ->). destruct u; cbn [mbind option_bind] in *.
      * rewrite counter_up in Hgrant by lia. cbn [mbind option_bind] in Hgrant. apply (Hgrant (Readonly (Z.of_nat (length users) + 1))); [done| |done].
        split; [by destruct users|]. split; [apply Forall_app; split; [done|by repeat constructor]|]. rewrite length_app. simpl. lia.
      * apply (Hblocked (Readonly (Z.of_nat (length users)))); [done| |done]. intros _ t. done.
    + apply (Hblocked (Writable tt)); [done| |done]. intros [r Hr]. done.
    + simpl in Hh. subst users. apply (Hgrant (fifo_usage_from u)); [done| |done]. destruct u; simpl; [split; [done|]; split; [by repeat constructor|done]|by eexists].
  - destruct current as [usage|]; [|by specialize (Hn eq_refl)]. apply (Hblocked usage); [done| |done]. intros Hr t. by apply Hw.
Qed.

(** *** Priority queues *)

Lemma ids_keys (b : list (Z * Use)) : Forall (fun e => e.1 = t_id e.2.2) b -> ids b.*2 = b.*1.
Proof. induction 1 as [|[k x] b Hx _ IH]; [done|]. unfold ids in *. rewrite !fmap_cons, IH. simpl in *. by subst. Qed.
Lemma blocked_insert b (x : Use) : blocked_ok b -> t_id x.2 ∉ ids b.*2 -> exists b', insert_usage_from_task b x = Some b' /\ blocked_ok b' /\ b' ≡ₚ (t_id x.2, x) :: b.
Proof.
  intros [Hs Hk] Hid. rewrite ids_keys in Hid by done. destruct (insert_new_spec (t_id x.2) x b Hs Hid) as (b1 & b2 & -> & Hi & Hs'). exists (b1 ++ (t_id x.2, x) :: b2).
  split; [done|]. split; [|symmetry; apply Permutation_middle]. split; [done|]. rewrite Forall_app, Forall_cons in *. naive_solver.
Qed.
Lemma blocked_head b e e' : blocked_ok b -> head b = Some e -> e' ∈ b -> e = e' \/ e.1 < e'.1.
Proof.
  intros [Hs _] Hh He. destruct b as [|x b]; [done|]. simplify_eq/=. apply elem_of_cons in He as [->|He]; [by left|]. right. apply bsorted_cons in Hs as [_ Hs]. by apply Hs.
Qed.
Lemma reblock_one counts task : cnt counts (t_ref task) + 1 <= u32_max ->
  try_reblock counts task = Some (if bool_decide (cnt counts (t_ref task) = 0) then (false, counts) else (true, <[t_ref task := cnt counts (t_ref task) + 1]> counts)).
Proof. intros Hb. unfold try_reblock. fold (cnt counts (t_ref task)). unfold blocked_usage_count. fold (cnt counts (t_ref task)). case_bool_decide; [done|]. by rewrite counter_up. Qed.
Lemma cnt_set counts r c x : cnt (<[r := c]> counts) x = if decide (x = r) then c else cnt counts x.
Proof. unfold cnt. case_decide; [subst; by rewrite lookup_insert_eq|by rewrite lookup_insert_ne]. Qed.
Abbreviation readers ts := ((fun e : Z * Task K => (RequestReadonly, e.2)) <$> ts).
Definition reblocked (from : Z) (ts : list (Z * Task K)) (b : list (Z * Use)) counts (result : option (list (Z * Task K) * list (Z * Use) * gmap Z Z)) : Prop :=
  exists ts' b' counts' l, result = Some (ts', b', counts') /\ readers ts ≡ₚ readers ts' ++ l /\ ts' `sublist_of` ts /\ b'.*2 ≡ₚ b.*2 ++ l /\ blocked_ok b' /\
    (forall x, cnt counts' x = cnt counts x + (if decide (x ∈ refs l) then 1 else 0)) /\
    (forall e, e ∈ ts' -> e.1 < from \/ cnt counts (t_ref e.2) = 0) /\
    (forall y, y ∈ l -> is_read y /\ from <= t_id y.2 /\ cnt counts (t_ref y.2) <> 0).
Lemma reblock_keep from ts b counts x result : x.1 < from \/ cnt counts (t_ref x.2) = 0 -> reblocked from ts b counts result ->
  reblocked from (x :: ts) b counts (result ≫= fun '(rest, b, counts) => Some (x :: rest, b, counts)).
Proof.
  intros Hx (ts' & b' & counts' & l & -> & Hp & Hsub & Hrest1 & Hrest2 & Hrest3 & Hrest4 & Hrest5). exists (x :: ts'), b', counts', l. split; [done|]. rewrite !fmap_cons. split; [by rewrite Hp|].
  split; [by apply sublist_skip|]. split; [done|]. split; [done|]. split; [done|]. split; [|done]. intros e He. apply elem_of_cons in He as [->|He]; [done|by apply Hrest4].
Qed.
Lemma reblock_take from ts b b1 counts t result : from <= t_id t -> cnt counts (t_ref t) <> 0 -> (forall e, e ∈ ts -> t_ref e.2 <> t_ref t) -> b1 ≡ₚ (t_id t, (RequestReadonly, t)) :: b ->
  reblocked from ts b1 (<[t_ref t := cnt counts (t_ref t) + 1]> counts) result -> reblocked from ((t_id t, t) :: ts) b counts result.
Proof.
  intros Hfrom Hz Hne Hp1 (ts' & b' & counts' & l & -> & Hp & Hsub & Hpb & Hokb & Hcnt & Hts & Hll). exists ts', b', counts', ((RequestReadonly, t) :: l).
  assert (b1.*2 ≡ₚ (RequestReadonly, t) :: b.*2) as Hp2 by (by rewrite Hp1). split; [done|]. rewrite fmap_cons. split; [rewrite Hp; apply Permutation_middle|]. split; [by apply sublist_cons|].
  split; [rewrite Hpb, Hp2; apply Permutation_middle|]. split; [done|].
  assert (t_ref t ∉ refs l) as Hnl.
  { intros (y & Hy1 & Hy2)%list_elem_of_fmap. assert (y ∈ readers ts) as Hin by (rewrite Hp, elem_of_app; by right). apply list_elem_of_fmap in Hin as (e & -> & He). by apply (Hne e He). }
  split; [|split].
  - intros x. rewrite Hcnt, cnt_set. unfold refs in *. rewrite fmap_cons. cbn [snd]. destruct (decide (x = t_ref t)) as [->|Hx].
    + rewrite decide_False by done. rewrite decide_True by left. lia.
    + f_equal. apply decide_ext. rewrite elem_of_cons. tauto.
  - intros e He. destruct (Hts e He) as [?|He0]; [by left|]. rewrite cnt_set, decide_False in He0 by (apply Hne; by eapply elem_of_sublist). by right.
  - intros y Hy. apply elem_of_cons in Hy as [->|Hy]; [done|]. destruct (Hll y Hy) as (Hy1 & Hy2 & Hy3). split; [done|]. split; [done|]. rewrite cnt_set in Hy3.
    destruct (decide (t_ref y.2 = t_ref t)) as [Heq|]; [|done]. by rewrite Heq.
Qed.
Lemma reblock_spec from ts : forall counts b, bsorted ts -> Forall (fun e => e.1 = t_id e.2) ts -> blocked_ok b ->
  NoDup (refs (readers ts)) -> NoDup (ids (readers ts ++ b.*2)) -> (forall e, e ∈ ts -> cnt counts (t_ref e.2) + 1 <= u32_max) ->
  reblocked from ts b counts (reblock_readers counts from ts b).
Proof.
  induction ts as [|[key t] ts IH]; intros counts b Hs Hk Hb Hr Hi Hc.
  - exists [], b, counts, []. split; [done|]. split; [done|]. split; [done|]. split; [by rewrite app_nil_r|]. split; [done|]. split; [apply no_bump|]. split; intros y Hy; by apply elem_of_nil in Hy.
  - apply bsorted_cons in Hs as [Hs _]. apply Forall_cons in Hk as [Hkey Hk]. simpl in Hkey. subst key. unfold refs, ids in Hr, Hi. rewrite !fmap_cons in Hr. rewrite fmap_cons, <-app_comm_cons, fmap_cons in Hi. apply NoDup_cons in Hr as [Hnr Hr]. apply NoDup_cons in Hi as [Hni Hi].
    assert (forall e, e ∈ ts -> t_ref e.2 <> t_ref t) as Hne.
    { intros e He Heq. apply Hnr. simpl. rewrite <-Heq. apply list_elem_of_fmap. exists (RequestReadonly, e.2). split; [done|]. apply list_elem_of_fmap. by exists e. }
    cbn [reblock_readers]. case_bool_decide as Hfrom; [|apply reblock_keep; [left; simpl; lia|apply IH; try done; intros e He; apply Hc; by right]].
    rewrite reblock_one by (apply (Hc (t_id t, t)); left). case_bool_decide as Hz; cbn [mbind option_bind]; [apply reblock_keep; [by right|apply IH; try done; intros e He; apply Hc; by right]|].
    destruct (blocked_insert b (RequestReadonly, t) Hb) as (b1 & Hb1 & Hok1 & Hp1); [simpl; intros Hin; apply Hni; rewrite fmap_app, elem_of_app; by right|]. rewrite Hb1. cbn [mbind option_bind].
    eapply reblock_take; [done|done|done|exact Hp1|]. apply IH; [done|done|done|done| |].
    + assert (b1.*2 ≡ₚ (RequestReadonly, t) :: b.*2) as Hp2 by (by rewrite Hp1). unfold ids. rewrite Hp2, fmap_app, fmap_cons. rewrite <-Permutation_middle. apply NoDup_cons. by rewrite fmap_app in Hni, Hi.
    + intros e He. rewrite cnt_set, decide_False by (by apply Hne). apply Hc. by right.
Qed.

Lemma refs_app l1 l2 : refs (l1 ++ l2) = refs l1 ++ refs l2.
Proof. apply fmap_app. Qed.
Lemma ids_app l1 l2 : ids (l1 ++ l2) = ids l1 ++ ids l2.
Proof. apply fmap_app. Qed.
Lemma elem_refs x l : x ∈ l -> t_ref x.2 ∈ refs l.
Proof. intros Hx. apply list_elem_of_fmap. by exists x. Qed.
Lemma elem_ids x l : x ∈ l -> t_id x.2 ∈ ids l.
Proof. intros Hx. apply list_elem_of_fmap. by exists x. Qed.
#[local] Hint Resolve elem_refs elem_ids : votor.

(** What is known of the holders when a task comes. *)
Record prio_ready users (pos : Z -> Prop) holders (b : list (Z * Use)) counts task : Prop := {
  pr_perm : holders ++ b.*2 ≡ₚ users;
  pr_refs : NoDup (refs (holders ++ b.*2));
  pr_ids : NoDup (ids (holders ++ b.*2));
  pr_new_ids : t_id task ∉ ids (holders ++ b.*2);
  pr_new_refs : t_ref task ∉ refs (holders ++ b.*2);
  pr_pos : forall h, h ∈ holders -> pos (t_ref h.2) <-> cnt counts (t_ref h.2) <> 0;
  pr_bound : forall h, h ∈ holders -> cnt counts (t_ref h.2) + 1 <= u32_max;
}.
Lemma prio_ready_intro users pos current b counts task u : lock_ready PriorityQueueing users pos (Priority current b) counts task u ->
  prio_ready users pos (holders_of current) b counts task.
Proof.
  intros [(_ & Hp & _) Hids Hrefs Hpos Hbound _]. specialize (Hids eq_refl). rewrite ids_app in Hids. rewrite refs_app in Hrefs.
  assert (forall h, h ∈ holders_of current -> h ∈ users) as Hin by (intros h Hh; rewrite <-Hp, elem_of_app; by left).
  apply NoDup_app in Hids as (Hids & Hni & _). apply NoDup_app in Hrefs as (Hrefs & Hnr & _). simpl in *.
  assert (NoDup (refs (holders_of current ++ b.*2))) as Hnd by (unfold refs in *; by rewrite Hp).
  split; [done|done|unfold ids in *; by rewrite Hp| | | |].
  - intros Hx. apply (Hni (t_id task)); [unfold ids in *; by rewrite <-Hp|left].
  - intros Hx. apply (Hnr (t_ref task)); [unfold refs in *; by rewrite <-Hp|left].
  - intros h Hh. apply Hpos; auto.
  - intros h Hh. apply Hbound; [auto|]. simpl. intros Hb. rewrite refs_app in Hnd. apply NoDup_app in Hnd as (_ & Hnd & _). apply (Hnd (t_ref h.2)); auto with votor.
Qed.
Lemma ids_blocked (b : list (Z * Use)) e : blocked_ok b -> e ∈ b -> e.1 ∈ ids b.*2.
Proof. intros [_ Hk] He. rewrite ids_keys by done. apply list_elem_of_fmap. by exists e. Qed.
Lemma blocked_key (b : list (Z * Use)) e : blocked_ok b -> e ∈ b -> e.1 = t_id e.2.2.
Proof. intros [_ Hk] He. by eapply Forall_forall in Hk. Qed.
Lemma is_higher_spec (a b : Task K) : t_id a <> t_id b -> is_higher_priority a b = Some (bool_decide (t_id a < t_id b)).
Proof. intros Hne. unfold is_higher_priority. destruct (Z.compare_spec (t_id a) (t_id b)); [done|by rewrite bool_decide_true|rewrite bool_decide_false by lia; done]. Qed.

(** A new task is blocked. *)
Lemma prio_push users pos usage b counts task u : let current := Some usage in
  prio_ready users pos (holders_of current) b counts task -> current_ok current -> blocked_ok b ->
  (forall h e, h ∈ holders_of current -> pos (t_ref h.2) -> e ∈ b -> t_id h.2 < e.1) ->
  (forall h, h ∈ holders_of current -> pos (t_ref h.2) -> t_id h.2 < t_id task) ->
  (current_reads current -> (exists e, e ∈ b /\ e.1 < t_id task /\ writer_first b.*2) \/ u = RequestWritable /\ forall e, e ∈ b -> e.2.1 = RequestReadonly -> t_id task < e.1 \/ exists e', e' ∈ b /\ e'.1 < e.1) ->
  exists b', push_blocked (Priority current b) (u, task) = Some (Priority current b') /\ b'.*2 ≡ₚ b.*2 ++ [(u, task)] /\
    queue_inv PriorityQueueing (users ++ [(u, task)]) (fun x => pos x \/ x = t_ref task) (Priority current b').
Proof.
  intros current [Hp _ _ Hni Hnr _ _] Hc Hb HJ HN Hw. rewrite ids_app, not_elem_of_app in Hni. rewrite refs_app, not_elem_of_app in Hnr.
  destruct (blocked_insert b (u, task) Hb) as (b' & Hb' & Hok & Hpb); [by apply Hni|]. exists b'.
  assert (b'.*2 ≡ₚ b.*2 ++ [(u, task)]) as Hpb2 by (rewrite Hpb, fmap_cons; apply Permutation_cons_append).
  split; [unfold push_blocked, queue_push; cbn [queue_current_usage current fmap option_fmap option_map]; by rewrite Hb'|]. split; [done|].
  split; [done|]. split; [by rewrite Hpb2, app_assoc, Hp|]. split; [done|]. split; [done|]. split; [done|]. split.
  - intros Hr t Hhead. destruct b' as [|x b']; [done|]. simpl in Hhead. injection Hhead as Hx.
    assert (x ∈ (t_id task, (u, task)) :: b) as Hxin by (rewrite <-Hpb; left). assert (forall e, e ∈ (t_id task, (u, task)) :: b -> x = e \/ x.1 < e.1) as Hmin by (intros e He; eapply blocked_head; [exact Hok|done|by rewrite Hpb]).
    destruct (Hw Hr) as [(e & He & Hlt & Hwf)|[-> Hall]]; apply elem_of_cons in Hxin as [->|Hxin]; simpl in *.
    + destruct (Hmin e) as [<-|Hlt2]; [by right|simpl in *; lia|simpl in *; lia].
    + destruct b as [|y b]; [by apply elem_of_nil in Hxin|]. destruct (Hmin y) as [->|Hlt2]; [right; left|apply (Hwf t); simpl; by rewrite Hx|].
      destruct (blocked_head _ y x Hb eq_refl Hxin) as [->|?]; lia.
    + done.
    + destruct (Hall x Hxin ltac:(by rewrite Hx)) as [Hlt|(e' & He' & Hlt)].
      * destruct (Hmin (t_id task, (RequestWritable, task))) as [->|Hlt2]; [left|simpl in *; done|simpl in *; lia].
      * destruct (Hmin e') as [->|Hlt2]; [by right|lia|lia].
  - intros h e Hh Hpos He. assert (t_ref h.2 <> t_ref task) as Hne by (intros Heq; apply (proj1 Hnr); rewrite <-Heq; by apply elem_refs). rewrite Hpb in He. apply elem_of_cons in He as [->|He]; destruct Hpos as [Hpos|]; try done; auto.
Qed.

Lemma holders_from task u : holders_of (Some (priority_usage_from task u)) = [(u, task)].
Proof. by destruct u. Qed.
Lemma current_from task u : current_ok (Some (priority_usage_from task u)).
Proof. destruct u; simpl; [|done]. split; [done|]. split; [by repeat constructor|by repeat constructor]. Qed.
(** The new task is the only holder. *)
Lemma prio_take users pos b task u :
  b.*2 ++ [(u, task)] ≡ₚ users ++ [(u, task)] -> blocked_ok b -> (u = RequestReadonly -> writer_first b.*2) -> (forall e, e ∈ b -> t_id task < e.1) ->
  queue_inv PriorityQueueing (users ++ [(u, task)]) (fun x => pos x \/ x = t_ref task) (Priority (Some (priority_usage_from task u)) b).
Proof.
  intros Hp Hb Hw Hlt. split; [done|]. rewrite holders_from. split; [by rewrite <-Hp, Permutation_app_comm|]. split; [apply current_from|]. split; [done|]. split; [done|]. split.
  - intros [r Hr]. apply Hw. by destruct u.
  - intros h e Hh _ He. apply list_elem_of_singleton in Hh as ->. by apply Hlt.
Qed.
Lemma prio_lock_none users pos b counts task u : lock_ready PriorityQueueing users pos (Priority None b) counts task u ->
  lock_result PriorityQueueing users pos (Priority None b) counts task u.
Proof.
  intros [(_ & Hp & _ & Hb & Hn & _) _ _ _ _ _]. specialize (Hn eq_refl) as ->. simpl in Hp. apply Permutation_nil_l in Hp. subst users.
  exists false, (Priority (Some (priority_usage_from task u)) []), counts, []. split; [done|]. split.
  - apply (prio_take [] pos []); [done|done|intros _ t; done|]. intros e He. by apply elem_of_nil in He.
  - split; [done|]. split; [intros l Hl; by apply elem_of_nil in Hl|]. split; [constructor|apply no_bump].
Qed.
Lemma no_reblocked q counts users pos task u blocked q' : lock_queue q counts task u = Some (blocked, q', counts) ->
  queue_inv PriorityQueueing (users ++ [(u, task)]) (fun x => pos x \/ x = t_ref task) q' -> blocked_of q' ≡ₚ blocked_of q ++ (if blocked : bool then [(u, task)] else []) ->
  lock_result PriorityQueueing users pos q counts task u.
Proof.
  intros Hl Hq Hp. exists blocked, q', counts, []. split; [done|]. split; [done|]. split; [done|]. split; [intros l Hl'; by apply elem_of_nil in Hl'|]. split; [constructor|apply no_bump].
Qed.
Lemma prio_lock_writer users pos t b counts task u : lock_ready PriorityQueueing users pos (Priority (Some (Writable t)) b) counts task u ->
  lock_result PriorityQueueing users pos (Priority (Some (Writable t)) b) counts task u.
Proof.
  intros Hready. pose proof (prio_ready_intro _ _ _ _ _ _ _ Hready) as Hr. destruct (lr_inv _ _ _ _ _ _ _ Hready) as (_ & Hp & Hc & Hb & Hn & _ & HJ). cbn [holders_of] in *.
  assert (t_id task <> t_id t) as Hid by (intros Heq; apply (pr_new_ids _ _ _ _ _ _ Hr); rewrite Heq; apply (elem_ids (RequestWritable, t)); left).
  assert (pos (t_ref t) <-> cnt counts (t_ref t) <> 0) as Hpos by (apply (pr_pos _ _ _ _ _ _ Hr (RequestWritable, t)); left).
  assert (cnt counts (t_ref t) + 1 <= u32_max) as Hbd by (apply (pr_bound _ _ _ _ _ _ Hr (RequestWritable, t)); left).
  assert (~ t_id task < t_id t \/ cnt counts (t_ref t) = 0 -> lock_queue (Priority (Some (Writable t)) b) counts task u = (q ← push_blocked (Priority (Some (Writable t)) b) (u, task); Some (true, q, counts)) ->
    lock_result PriorityQueueing users pos (Priority (Some (Writable t)) b) counts task u) as Hpush.
  { intros Hor Hl. destruct (prio_push users pos (Writable t) b counts task u Hr Hc Hb HJ) as (b' & Hb' & Hpb & Hq').
    - intros h Hh%list_elem_of_singleton. subst h. cbn [snd]. intros Hx. apply Hpos in Hx. destruct Hor; [lia|done].
    - by intros [r ?].
    - rewrite Hb' in Hl. eapply no_reblocked; [exact Hl|exact Hq'|done]. }
  unfold lock_queue at 1 in Hpush. cbn [prepare_lock] in Hpush. rewrite is_higher_spec in Hpush by done. cbn [mbind option_bind] in Hpush.
  case_bool_decide as Hlt; cbn [negb] in Hpush; [|apply Hpush; [by left|done]]. rewrite reblock_one in Hpush by done. cbn [mbind option_bind] in Hpush.
  case_bool_decide as Hz; cbn [negb] in Hpush; [apply Hpush; [by right|done]|]. clear Hpush.
  destruct (blocked_insert b (RequestWritable, t) Hb) as (b' & Hb' & Hok & Hpb).
  { pose proof (pr_ids _ _ _ _ _ _ Hr) as Hnd. change (NoDup (t_id t :: ids b.*2)) in Hnd. by apply NoDup_cons in Hnd as [Hnd _]. }
  exists false, (Priority (Some (priority_usage_from task u)) b'), (<[t_ref t := cnt counts (t_ref t) + 1]> counts), [(RequestWritable, t)].
  assert (forall e, e ∈ b' -> t_id t <= e.1) as Hmin.
  { intros e He. rewrite Hpb in He. apply elem_of_cons in He as [->|He]; [done|]. specialize (HJ (RequestWritable, t) e ltac:(left) ltac:(by apply Hpos) He). simpl in HJ. lia. }
  split; [unfold lock_queue; cbn [prepare_lock]; rewrite is_higher_spec by done; cbn [mbind option_bind]; rewrite bool_decide_true by done; cbn [negb]; rewrite reblock_one by done; rewrite bool_decide_false by done; cbn [mbind option_bind negb]; rewrite Hb'; done|].
  split; [apply (prio_take users pos b'); [|done| |intros e He; specialize (Hmin e He); lia]|].
  - rewrite Hpb, fmap_cons. by rewrite <-Hp.
  - intros _ t' Hhead. destruct b' as [|x b']; [done|]. assert (x ∈ x :: b') as Hx by left. rewrite Hpb in Hx. simplify_eq/=. apply elem_of_cons in Hx as [->|Hx]; [done|].
    assert ((t_id t, (RequestWritable, t)) ∈ x :: b') as Hin by (rewrite Hpb; left). destruct (blocked_head _ x _ Hok eq_refl Hin) as [->|Hlt']; [done|].
    specialize (Hmin x ltac:(left)). simpl in *. lia.
  - split; [cbn [blocked_of]; rewrite Hpb, fmap_cons, app_nil_r; apply Permutation_cons_append|]. split.
    + intros l Hl%list_elem_of_singleton. subst l. split; [rewrite <-Hp; left|]. split; [|by apply Hpos]. pose proof (pr_refs _ _ _ _ _ _ Hr) as Hnd. change (NoDup (t_ref t :: refs b.*2)) in Hnd. apply NoDup_cons in Hnd as [Hnd _].
      intros Hin. apply Hnd. by apply (elem_refs (RequestWritable, t)).
    + split; [by repeat constructor; apply not_elem_of_nil|]. intros x. rewrite cnt_set. unfold refs. simpl. destruct (decide (x = t_ref t)) as [->|Hx]; [rewrite decide_True by left; lia|].
      rewrite decide_False by (by rewrite list_elem_of_singleton). lia.
Qed.

Lemma reader_keys ts : Forall (fun e : Z * Task K => e.1 = t_id e.2) ts -> ids (readers ts) = ts.*1.
Proof. induction 1 as [|[k x] ts Hx _ IH]; [done|]. unfold ids in *. rewrite !fmap_cons, IH. simpl in *. by subst. Qed.
Lemma reader_insert ts task : bsorted ts -> Forall (fun e => e.1 = t_id e.2) ts -> t_id task ∉ ids (readers ts) ->
  exists ts', btree_insert_new (t_id task) task ts = Some ts' /\ current_ok (Some (Readonly ts')) /\ readers ts' ≡ₚ (RequestReadonly, task) :: readers ts.
Proof.
  intros Hs Hk Hid. rewrite reader_keys in Hid by done. destruct (insert_new_spec (t_id task) task ts Hs Hid) as (t1 & t2 & -> & Hi & Hs'). exists (t1 ++ (t_id task, task) :: t2).
  split; [done|]. split.
  - split; [by destruct t1|]. split; [done|]. rewrite Forall_app, Forall_cons in *. naive_solver.
  - rewrite !fmap_app, fmap_cons. symmetry. apply Permutation_middle.
Qed.
Lemma prio_lock_read users pos ts b counts task : lock_ready PriorityQueueing users pos (Priority (Some (Readonly ts)) b) counts task RequestReadonly ->
  lock_result PriorityQueueing users pos (Priority (Some (Readonly ts)) b) counts task RequestReadonly.
Proof.
  intros Hready. pose proof (prio_ready_intro _ _ _ _ _ _ _ Hready) as Hr. destruct (lr_inv _ _ _ _ _ _ _ Hready) as (_ & Hp & Hc & Hb & Hn & Hw & HJ). cbn [holders_of] in *. specialize (Hw ltac:(by eexists)).
  pose proof (pr_new_ids _ _ _ _ _ _ Hr) as Hni. rewrite ids_app, not_elem_of_app in Hni. destruct Hni as [Hni1 Hni2]. pose proof Hc as (Hne & Hs & Hk).
  assert ((forall e, e ∈ b -> t_id task < e.1) ->
    lock_queue (Priority (Some (Readonly ts)) b) counts task RequestReadonly = (tasks ← btree_insert_new (t_id task) task ts; Some (false, Priority (Some (Readonly tasks)) b, counts)) ->
    lock_result PriorityQueueing users pos (Priority (Some (Readonly ts)) b) counts task RequestReadonly) as Hgrant.
  { intros Hlt Hl. destruct (reader_insert ts task Hs Hk Hni1) as (ts' & Hts' & Hc' & Hpt). rewrite Hts' in Hl. eapply no_reblocked; [exact Hl| |by rewrite app_nil_r].
    split; [done|]. cbn [holders_of]. split; [rewrite Hpt, <-app_comm_cons, Hp; apply Permutation_cons_append|]. split; [done|]. split; [done|]. split; [done|]. split; [done|].
    intros h e Hh Hpos He. rewrite Hpt in Hh. apply elem_of_cons in Hh as [->|Hh]; [by apply Hlt|]. destruct Hpos as [Hpos|Heq]; [by apply HJ|].
    exfalso. apply (pr_new_refs _ _ _ _ _ _ Hr). rewrite refs_app, elem_of_app, <-Heq. left. by apply elem_refs. }
  destruct b as [|[k [[] t]] b].
  - apply Hgrant; [intros e He; by apply elem_of_nil in He|]. unfold lock_queue. cbn. by destruct (btree_insert_new (t_id task) task ts).
  - by destruct (Hw t).
  - assert (k = t_id t) as -> by (apply (blocked_key _ (k, (RequestWritable, t)) Hb); left).
    assert (t_id task <> t_id t) as Hid by (intros Heq; apply Hni2; rewrite Heq; apply (elem_ids (RequestWritable, t)); left).
    destruct (decide (t_id task < t_id t)) as [Hlt|Hge].
    + apply Hgrant.
      * intros e He. destruct (blocked_head _ (t_id t, (RequestWritable, t)) e Hb eq_refl He) as [<-|Hlt']; simpl in *; lia.
      * unfold lock_queue. cbn [prepare_lock peek_blocked head fmap option_fmap option_map snd]. rewrite is_higher_spec, bool_decide_true by done. cbn [mbind option_bind negb queue_try_lock]. by destruct (btree_insert_new (t_id task) task ts).
    + assert (forall h, h ∈ readers ts -> pos (t_ref h.2) -> t_id h.2 < t_id task) as Hh.
      { intros h Hh Hpos. specialize (HJ h (t_id t, (RequestWritable, t)) Hh Hpos ltac:(left)). simpl in HJ. lia. }
      destruct (prio_push users pos (Readonly ts) _ counts task RequestReadonly Hr Hc Hb HJ Hh) as (b' & Hb' & Hpb & Hq').
      { intros _. left. exists (t_id t, (RequestWritable, t)). split; [left|]. split; [simpl; lia|done]. }
      eapply (no_reblocked _ _ _ _ _ _ true); [|exact Hq'|exact Hpb]. unfold lock_queue. cbn [prepare_lock peek_blocked head fmap option_fmap option_map snd]. rewrite is_higher_spec, bool_decide_false by done. cbn [mbind option_bind negb]. by rewrite Hb'.
Qed.
Lemma sublist_sorted {A} (ts ts' : list (Z * A)) : ts' `sublist_of` ts -> bsorted ts -> bsorted ts'.
Proof.
  induction 1 as [|x l l' Hl IH|x l l' Hl IH]; [done| |]; rewrite !bsorted_cons; intros [Hs Hx]; [|by apply IH]. split; [by apply IH|]. intros y Hy. apply Hx. by eapply elem_of_sublist.
Qed.
Lemma prio_lock_write users pos ts b counts task : lock_ready PriorityQueueing users pos (Priority (Some (Readonly ts)) b) counts task RequestWritable ->
  lock_result PriorityQueueing users pos (Priority (Some (Readonly ts)) b) counts task RequestWritable.
Proof.
  intros Hready. pose proof (prio_ready_intro _ _ _ _ _ _ _ Hready) as Hr. destruct (lr_inv _ _ _ _ _ _ _ Hready) as (_ & Hp & Hc & Hb & Hn & Hw & HJ). cbn [holders_of] in *. specialize (Hw ltac:(by eexists)).
  pose proof (pr_refs _ _ _ _ _ _ Hr) as Hrefs. pose proof Hc as (Hne & Hs & Hk).
  destruct (reblock_spec (t_id task) ts counts b Hs Hk Hb) as (ts' & b' & counts' & l & Hre & Hpr & Hsub & Hpb & Hok & Hcnt & Hkeep & Hl).
  { rewrite refs_app in Hrefs. by apply NoDup_app in Hrefs as [? _]. }
  { apply Hr. }
  { intros e He. apply (pr_bound _ _ _ _ _ _ Hr (RequestReadonly, e.2)). apply list_elem_of_fmap. by exists e. }
  assert (forall y, y ∈ l -> (y ∈ readers ts) /\ pos (t_ref y.2) /\ t_id task < t_id y.2) as Hly.
  { intros y Hy. assert (y ∈ readers ts) as Hin by (rewrite Hpr, elem_of_app; by right). destruct (Hl y Hy) as (_ & Hle & Hz). split; [done|]. split; [by apply (pr_pos _ _ _ _ _ _ Hr)|].
    assert (t_id y.2 <> t_id task); [|lia]. intros Heq. apply (pr_new_ids _ _ _ _ _ _ Hr). rewrite ids_app, elem_of_app, <-Heq. left. by apply elem_ids. }
  assert (forall e, e ∈ b' -> e ∈ b \/ e.2 ∈ l) as Hb'.
  { intros e He. assert (e.2 ∈ b'.*2) as He2 by (apply list_elem_of_fmap; by exists e). rewrite Hpb, elem_of_app in He2. destruct He2 as [He2|]; [left|by right].
    apply list_elem_of_fmap in He2 as (e0 & He0 & Hin). assert (e0 = e) as ->; [|done]. pose proof (blocked_key _ _ Hb Hin). pose proof (blocked_key _ _ Hok He). destruct e, e0. simpl in *. congruence. }
  assert (readers ts' ++ b'.*2 ≡ₚ users) as Hp' by (rewrite Hpb, (Permutation_app_comm b.*2), app_assoc, <-Hpr; done).
  assert (forall y, y ∈ l -> (y ∈ users) /\ (y ∉ b.*2) /\ pos (t_ref y.2)) as Hlu.
  { intros y Hy. destruct (Hly y Hy) as (Hin & Hpos & _). split; [rewrite <-Hp, elem_of_app; by left|]. split; [|done]. intros Hb2. rewrite refs_app in Hrefs. apply NoDup_app in Hrefs as (_ & Hd & _). apply (Hd (t_ref y.2)); by apply elem_refs. }
  assert (NoDup (refs l)) as Hnl.
  { rewrite refs_app in Hrefs. apply NoDup_app in Hrefs as [Hd _]. unfold refs in Hd. rewrite Hpr, fmap_app in Hd. by apply NoDup_app in Hd as (_ & _ & ?). }
  assert (forall h, h ∈ readers ts' -> (h ∈ readers ts) /\ (t_id h.2 < t_id task \/ cnt counts (t_ref h.2) = 0)) as Hkp.
  { intros h (e & -> & He)%list_elem_of_fmap. pose proof (elem_of_sublist _ _ _ He Hsub) as Hin. split; [apply list_elem_of_fmap; by exists e|]. eapply Forall_forall in Hk; [|exact Hin]. simpl in *. rewrite <-Hk. by apply Hkeep. }
  assert (forall e, e ∈ b -> e ∈ b') as Hbb.
  { intros e He. assert (e.2 ∈ b'.*2) as He2 by (rewrite Hpb, elem_of_app; left; apply list_elem_of_fmap; by exists e). apply list_elem_of_fmap in He2 as (e0 & He0 & Hin). assert (e0 = e) as <-; [|done].
    pose proof (blocked_key _ _ Hok Hin). pose proof (blocked_key _ _ Hb He). destruct e, e0. simpl in *. congruence. }
  destruct ts' as [|x ts'].
  - exists false, (Priority (Some (Writable task)) b'), counts', l. split; [unfold lock_queue; cbn [prepare_lock]; by rewrite Hre|].
    split; [apply (prio_take users pos b' task RequestWritable); [by rewrite <-Hp'|done|done|]|by rewrite app_nil_r].
    intros e He. destruct (Hb' e He) as [Hin|Hin]; [|rewrite (blocked_key _ _ Hok He); by apply Hly].
    destruct ts as [|y ts]; [done|]. assert ((RequestReadonly, y.2) ∈ l) as Hyl by (rewrite fmap_nil in Hpr; simpl in Hpr; rewrite <-Hpr; left).
    destruct (Hly _ Hyl) as (Hin' & Hpos & Hlt). specialize (HJ _ e Hin' Hpos Hin). simpl in *. lia.
  - assert (prio_ready users pos (holders_of (Some (Readonly (x :: ts')))) b' counts task) as Hr'.
    { destruct Hr as [R1 R2 R3 R4 R5 R6 R7]. assert (readers (x :: ts') ++ b'.*2 ≡ₚ readers ts ++ b.*2) as Heq by (by rewrite Hp', Hp).
      assert (forall h, h ∈ readers (x :: ts') -> h ∈ readers ts) as Hin by (intros h Hh; rewrite Hpr, elem_of_app; by left). split; cbn [holders_of]; [done|by rewrite Heq|by rewrite Heq|by rewrite Heq|by rewrite Heq|intros h Hh; by apply R6, Hin|intros h Hh; by apply R7, Hin]. }
    destruct (prio_push users pos (Readonly (x :: ts')) b' counts task RequestWritable Hr') as (b'' & Hb'' & Hpb'' & Hq'').
    + split; [done|]. split; [by eapply sublist_sorted|]. apply Forall_forall. intros e He. eapply Forall_forall in Hk; [exact Hk|]. by eapply elem_of_sublist.
    + done.
    + intros h e Hh Hpos He. destruct (Hkp h Hh) as [Hin [Hlt|Hz]]; [|by apply (pr_pos _ _ _ _ _ _ Hr) in Hpos]. destruct (Hb' e He) as [Hin'|Hin']; [by apply HJ|].
      rewrite (blocked_key _ _ Hok He). destruct (Hly _ Hin') as (_ & _ & Hlt'). lia.
    + intros h Hh Hpos. destruct (Hkp h Hh) as [Hin [Hlt|Hz]]; [done|by apply (pr_pos _ _ _ _ _ _ Hr) in Hpos].
    + intros _. right. split; [done|]. intros e He Hread. destruct (Hb' e He) as [Hin|Hin]; [right|left; rewrite (blocked_key _ _ Hok He); by apply Hly].
      destruct b as [|e0 b]; [by apply elem_of_nil in Hin|]. exists e0. split; [apply Hbb; left|]. destruct (blocked_head _ e0 e Hb eq_refl Hin) as [->|]; [|done].
      exfalso. apply (Hw e.2.2). simpl. rewrite <-Hread. by destruct (e.2).
    + exists true, (Priority (Some (Readonly (x :: ts'))) b''), counts', l. split; [unfold lock_queue; cbn [prepare_lock]; rewrite Hre; cbn [mbind option_bind]; by rewrite Hb''|]. split; [done|]. cbn [blocked_of]. rewrite Hpb'', Hpb, <-app_assoc. done.
Qed.

(** An address is taken, or the task is blocked, whatever the state of the queue. *)
Lemma lock_spec capability users pos q counts task u : lock_ready capability users pos q counts task u -> lock_result capability users pos q counts task u.
Proof.
  intros Hr. pose proof (lr_inv _ _ _ _ _ _ _ Hr) as Hq. destruct q as [current b|current b]; destruct Hq as [-> _].
  - by apply fifo_lock.
  - destruct current as [[ts|t]|]; [destruct u; [by apply prio_lock_read|by apply prio_lock_write]|by apply prio_lock_writer|by apply prio_lock_none].
Qed.

(** ** Giving an address back *)

Definition unlock_queue q counts (unblocked : list (Task K)) task u : option (UsageQueueInner K * gmap Z Z * list (Task K)) :=
  '(newly_lockable, q) ← queue_unlock q task u;
  grant_loop (S (queue_len q)) q counts unblocked newly_lockable.
(** What granting the address to a list of tasks does to the counts and to the tasks
    that can run. *)
Fixpoint effects counts (unblocked : list (Task K)) (l : list Use) : gmap Z Z * list (Task K) :=
  match l with
  | [] => (counts, unblocked)
  | x :: l => let c := cnt counts (t_ref x.2) - 1 in effects (<[t_ref x.2 := c]> counts) (if bool_decide (c = 0) then unblocked ++ [x.2] else unblocked) l
  end.
Lemma effects_spec l : forall counts unblocked, NoDup (refs l) ->
  (forall x, cnt (effects counts unblocked l).1 x = cnt counts x - (if decide (x ∈ refs l) then 1 else 0)) /\
  (effects counts unblocked l).2 = unblocked ++ (filter (fun x => cnt counts (t_ref x.2) = 1) l).*2.
Proof.
  induction l as [|x l IH]; intros counts unblocked Hnd.
  - split; [intros x; rewrite decide_False by apply not_elem_of_nil; simpl; lia|by rewrite app_nil_r].
  - unfold refs in Hnd. rewrite fmap_cons in Hnd. apply NoDup_cons in Hnd as [Hx Hnd]. cbn [effects].
    destruct (IH (<[t_ref x.2 := cnt counts (t_ref x.2) - 1]> counts) (if bool_decide (cnt counts (t_ref x.2) - 1 = 0) then unblocked ++ [x.2] else unblocked) Hnd) as [IH1 IH2]. split.
    + intros y. rewrite IH1, cnt_set. unfold refs. rewrite fmap_cons. destruct (decide (y = t_ref x.2)) as [->|Hy].
      * rewrite decide_False by done. rewrite decide_True by left. lia.
      * f_equal. apply decide_ext. rewrite elem_of_cons. tauto.
    + rewrite IH2. assert (filter (fun y => cnt (<[t_ref x.2:=cnt counts (t_ref x.2) - 1]> counts) (t_ref y.2) = 1) l = filter (fun y => cnt counts (t_ref y.2) = 1) l) as ->.
      { apply filter_ext_in. intros y Hy. rewrite cnt_set, decide_False; [done|]. intros Heq. apply Hx. rewrite <-Heq. by apply elem_refs. }
      rewrite filter_cons. case_bool_decide as Hc; [rewrite decide_True by lia|rewrite decide_False by lia; done]. by rewrite fmap_cons, <-app_assoc.
Qed.
Lemma unblock_one counts task : 1 <= cnt counts (t_ref task) ->
  try_unblock counts task = Some (if bool_decide (cnt counts (t_ref task) - 1 = 0) then Some task else None, <[t_ref task := cnt counts (t_ref task) - 1]> counts).
Proof. intros Hc. unfold try_unblock, blocked_usage_count. fold (cnt counts (t_ref task)). by rewrite counter_down. Qed.

(** One round of the loop. *)
Lemma grant_round rounds q q1 counts unblocked u t : queue_try_lock q t u = Some (Ok tt, q1) -> 1 <= cnt counts (t_ref t) ->
  grant_loop (S rounds) q counts unblocked (Some (u, t)) =
    ('(newly, q2) ← match u with RequestReadonly => pop_lockable_readonly q1 | RequestWritable => Some (None, q1) end;
     grant_loop rounds q2 (<[t_ref t := cnt counts (t_ref t) - 1]> counts) (if bool_decide (cnt counts (t_ref t) - 1 = 0) then unblocked ++ [t] else unblocked) newly).
Proof. intros Hl Hc. cbn [grant_loop]. rewrite Hl. cbn [mbind option_bind]. rewrite unblock_one by done. cbn [mbind option_bind]. by case_bool_decide. Qed.
Lemma grant_end rounds q counts unblocked : grant_loop rounds q counts unblocked None = Some (q, counts, unblocked).
Proof. by destruct rounds. Qed.

Lemma fifo_try_lock current (b : list Use) h u t : fifo_holders current h -> h = [] \/ Forall is_read h /\ u = RequestReadonly -> Z.of_nat (length h) + 1 <= u32_max ->
  exists usage, queue_try_lock (Fifo current b) t u = Some (Ok tt, Fifo (Some usage) b) /\ fifo_holders (Some usage) (h ++ [(u, t)]) /\ requested_usage usage = u.
Proof.
  intros Hh Hor Hlen. destruct current as [[n|[]]|]; cbn [queue_try_lock].
  - destruct Hh as (Hne & Hr & ->). destruct Hor as [->|[_ ->]]; [done|]. rewrite counter_up by done. cbn [mbind option_bind]. exists (Readonly (Z.of_nat (length h) + 1)). split; [done|]. split; [|done].
    split; [by destruct h|]. split; [apply Forall_app; split; [done|by repeat constructor]|]. rewrite length_app. simpl. lia.
  - destruct Hh as [t' ->]. destruct Hor as [|[Hr _]]; [done|]. apply Forall_cons in Hr as [Hr _]. done.
  - simpl in Hh. subst h. exists (fifo_usage_from u). split; [done|]. split; [|by destruct u]. destruct u; simpl; [split; [done|]; split; [by repeat constructor|done]|by eexists].
Qed.
Lemma grant_fifo (b : list Use) : forall rounds current h counts unblocked u t, (length b < rounds)%nat -> fifo_holders current h -> h = [] \/ Forall is_read h /\ u = RequestReadonly ->
  NoDup (refs ((u, t) :: b)) -> (forall x, x ∈ (u, t) :: b -> 1 <= cnt counts (t_ref x.2)) -> Z.of_nat (length h) + Z.of_nat (length b) + 1 <= u32_max ->
  exists granted b' usage, grant_loop rounds (Fifo current b) counts unblocked (Some (u, t)) = Some (Fifo (Some usage) b', (effects counts unblocked granted).1, (effects counts unblocked granted).2) /\
    (u, t) :: b = granted ++ b' /\ fifo_holders (Some usage) (h ++ granted) /\ (current_reads (Some usage) -> writer_first b').
Proof.
  induction b as [|[u' t'] b IH]; intros rounds current h counts unblocked u t Hrounds Hh Hor Hnd Hcnt Hlen; (destruct rounds as [|rounds]; [simpl in Hrounds; lia|]).
  - destruct (fifo_try_lock current [] h u t Hh Hor) as (usage & Hl & Hh' & Hu); [simpl in Hlen; lia|]. exists [(u, t)], [], usage. split.
    + rewrite (grant_round _ _ _ _ _ _ _ Hl) by (apply (Hcnt (u, t)); left). assert (match u with RequestReadonly => pop_lockable_readonly (Fifo (Some usage) []) | RequestWritable => Some (None, Fifo (Some usage) []) end = Some (None, Fifo (Some usage) [])) as -> by (by destruct u).
      cbn [mbind option_bind]. by rewrite grant_end.
    + split; [done|]. split; [done|]. intros _ t'. done.
  - destruct (fifo_try_lock current ((u', t') :: b) h u t Hh Hor) as (usage & Hl & Hh' & Hu); [rewrite length_cons in Hlen; lia|].
    assert (forall x, x ∈ (u', t') :: b -> t_ref x.2 <> t_ref t) as Hne.
    { intros x Hx Heq. change (NoDup (t_ref t :: refs ((u', t') :: b))) in Hnd. apply NoDup_cons in Hnd as [Hnd _]. apply Hnd. rewrite <-Heq. by apply elem_refs. }
    rewrite (grant_round _ _ _ _ _ _ _ Hl) by (apply (Hcnt (u, t)); left). destruct u.
    + destruct usage as [n|?]; [|done]. destruct u'.
      * cbn [pop_lockable_readonly peek_blocked head queue_current_usage fmap option_fmap option_map requested_usage queue_pop mbind option_bind].
        destruct (IH rounds (Some (Readonly n)) (h ++ [(RequestReadonly, t)]) (<[t_ref t := cnt counts (t_ref t) - 1]> counts) (if bool_decide (cnt counts (t_ref t) - 1 = 0) then unblocked ++ [t] else unblocked) RequestReadonly t') as (granted & b' & usage' & Hg & Hb & Hh'' & Hw).
        -- simpl in Hrounds. lia.
        -- done.
        -- right. split; [by apply Hh'|done].
        -- change (NoDup (t_ref t :: refs ((RequestReadonly, t') :: b))) in Hnd. by apply NoDup_cons in Hnd as [_ ?].
        -- intros x Hx. rewrite cnt_set, decide_False by (by apply Hne). apply Hcnt. by right.
        -- rewrite length_app. rewrite length_cons in Hlen. simpl. lia.
        -- exists ((RequestReadonly, t) :: granted), b', usage'. split; [done|]. split; [by rewrite Hb|]. split; [by rewrite <-app_assoc in Hh''|done].
      * cbn [pop_lockable_readonly peek_blocked head mbind option_bind]. rewrite grant_end. exists [(RequestReadonly, t)], ((RequestWritable, t') :: b), (Readonly n). split; [done|]. split; [done|]. split; [done|]. intros _ t''. done.
    + destruct usage as [n|[]]; [done|]. cbn [mbind option_bind]. rewrite grant_end. exists [(RequestWritable, t)], ((u', t') :: b), (Writable tt). split; [done|]. split; [done|]. split; [done|]. by intros [r ?].
Qed.

Lemma prio_try_lock current (b : list (Z * Use)) u t : current_ok current -> current = None \/ current_reads current /\ u = RequestReadonly -> t_id t ∉ ids (holders_of current) ->
  exists usage, queue_try_lock (Priority current b) t u = Some (Ok tt, Priority (Some usage) b) /\ holders_of (Some usage) ≡ₚ holders_of current ++ [(u, t)] /\ current_ok (Some usage) /\ requested_usage usage = u.
Proof.
  intros Hc Hor Hid. destruct Hor as [->|[[ts ->] ->]]; cbn [queue_try_lock].
  - exists (priority_usage_from t u). split; [done|]. split; [by rewrite holders_from|]. split; [apply current_from|by destruct u].
  - destruct Hc as (Hne & Hs & Hk). destruct (reader_insert ts t Hs Hk Hid) as (ts' & -> & Hc' & Hp). exists (Readonly ts'). split; [done|]. split; [cbn [holders_of]; rewrite Hp; apply Permutation_cons_append|done].
Qed.
Lemma grant_prio (b : list (Z * Use)) : forall rounds current counts unblocked u t, (length b < rounds)%nat -> current_ok current -> current = None \/ current_reads current /\ u = RequestReadonly -> blocked_ok b ->
  NoDup (ids (holders_of current ++ (u, t) :: b.*2)) -> NoDup (refs ((u, t) :: b.*2)) -> (forall x, x ∈ (u, t) :: b.*2 -> 1 <= cnt counts (t_ref x.2)) ->
  exists granted b' usage, grant_loop rounds (Priority current b) counts unblocked (Some (u, t)) = Some (Priority (Some usage) b', (effects counts unblocked granted).1, (effects counts unblocked granted).2) /\
    (u, t) :: b.*2 = granted ++ b'.*2 /\ holders_of (Some usage) ≡ₚ holders_of current ++ granted /\ current_ok (Some usage) /\ blocked_ok b' /\ (current_reads (Some usage) -> writer_first b'.*2).
Proof.
  induction b as [|[k [u' t']] b IH]; intros rounds current counts unblocked u t Hrounds Hc Hor Hb Hids Hnd Hcnt; (destruct rounds as [|rounds]; [simpl in Hrounds; lia|]).
  all: assert (t_id t ∉ ids (holders_of current)) as Hid by (rewrite ids_app in Hids; apply NoDup_app in Hids as (_ & Hids & _); intros Hin; apply (Hids _ Hin); left).
  - destruct (prio_try_lock current [] u t Hc Hor Hid) as (usage & Hl & Hh' & Hc' & Hu). exists [(u, t)], [], usage. split.
    + rewrite (grant_round _ _ _ _ _ _ _ Hl) by (apply (Hcnt (u, t)); left). assert (match u with RequestReadonly => pop_lockable_readonly (Priority (Some usage) []) | RequestWritable => Some (None, Priority (Some usage) []) end = Some (None, Priority (Some usage) [])) as -> by (by destruct u).
      cbn [mbind option_bind]. by rewrite grant_end.
    + split; [done|]. split; [done|]. split; [done|]. split; [done|]. intros _ t'. done.
  - destruct (prio_try_lock current ((k, (u', t')) :: b) u t Hc Hor Hid) as (usage & Hl & Hh' & Hc' & Hu).
    assert (forall x, x ∈ (u', t') :: b.*2 -> t_ref x.2 <> t_ref t) as Hne.
    { intros x Hx Heq. change (NoDup (t_ref t :: refs ((u', t') :: b.*2))) in Hnd. apply NoDup_cons in Hnd as [Hnd _]. apply Hnd. rewrite <-Heq. by apply elem_refs. }
    rewrite (grant_round _ _ _ _ _ _ _ Hl) by (apply (Hcnt (u, t)); left). rewrite fmap_cons in *. cbn [snd] in *. destruct u.
    + destruct usage as [ts|?]; [|done]. destruct u'.
      * cbn [pop_lockable_readonly peek_blocked head queue_current_usage fmap option_fmap option_map requested_usage queue_pop mbind option_bind snd].
        destruct (IH rounds (Some (Readonly ts)) (<[t_ref t := cnt counts (t_ref t) - 1]> counts) (if bool_decide (cnt counts (t_ref t) - 1 = 0) then unblocked ++ [t] else unblocked) RequestReadonly t') as (granted & b' & usage' & Hg & Hbb & Hh'' & Hc'' & Hb'' & Hw).
        -- simpl in Hrounds. lia.
        -- done.
        -- right. split; [by eexists|done].
        -- destruct Hb as [Hs Hk]. apply bsorted_cons in Hs as [Hs _]. apply Forall_cons in Hk as [_ Hk]. done.
        -- rewrite Hh', <-app_assoc. done.
        -- change (NoDup (t_ref t :: refs ((RequestReadonly, t') :: b.*2))) in Hnd. by apply NoDup_cons in Hnd as [_ ?].
        -- intros x Hx. rewrite cnt_set, decide_False by (by apply Hne). apply Hcnt. by right.
        -- exists ((RequestReadonly, t) :: granted), b', usage'. split; [done|]. split; [by rewrite Hbb|]. split; [by rewrite Hh'', Hh', <-app_assoc|done].
      * cbn [pop_lockable_readonly peek_blocked head mbind option_bind fmap option_fmap option_map snd]. rewrite grant_end. exists [(RequestReadonly, t)], ((k, (RequestWritable, t')) :: b), (Readonly ts).
        split; [done|]. split; [done|]. split; [done|]. split; [done|]. split; [done|]. intros _ t''. done.
    + destruct usage as [n|t2]; [done|]. cbn [mbind option_bind]. rewrite grant_end. exists [(RequestWritable, t)], ((k, (u', t')) :: b), (Writable t2). split; [done|]. split; [done|]. split; [done|]. split; [done|]. split; [done|]. by intros [r ?].
Qed.

Definition without (task : Task K) (l : list Use) : list Use := filter (fun x => t_ref x.2 <> t_ref task) l.
Lemma without_none task l : t_ref task ∉ refs l -> without task l = l.
Proof.
  intros Hn. unfold without. induction l as [|x l IH]; [done|]. change (t_ref task ∉ t_ref x.2 :: refs l) in Hn. rewrite not_elem_of_cons in Hn. destruct Hn as [Hx Hn].
  rewrite filter_cons, decide_True by done. by rewrite IH.
Qed.
Lemma without_app task l1 l2 : without task (l1 ++ l2) = without task l1 ++ without task l2.
Proof. apply filter_app. Qed.
Lemma without_one u task l1 l2 : NoDup (refs (l1 ++ (u, task) :: l2)) -> without task (l1 ++ (u, task) :: l2) = l1 ++ l2.
Proof.
  rewrite refs_app. change (refs ((u, task) :: l2)) with (t_ref task :: refs l2). intros (_ & H1 & H2)%NoDup_app. apply NoDup_cons in H2 as [H2 _].
  rewrite without_app. unfold without at 2. rewrite filter_cons, decide_False by (by intros Hn). fold (without task l2). rewrite !without_none; [done|done|]. intros Hin. apply (H1 _ Hin). left.
Qed.
Record unlock_ready (capability : Capability) users (pos : Z -> Prop) q counts task u : Prop := {
  ur_inv : queue_inv capability users pos q;
  ur_ids : capability = PriorityQueueing -> NoDup (ids users);
  ur_refs : NoDup (refs users);
  ur_user : (u, task) ∈ users;
  ur_holds : t_ref task ∉ refs (blocked_of q);
  ur_counts : forall x, x ∈ blocked_of q -> 1 <= cnt counts (t_ref x.2);
  ur_len : Z.of_nat (length users) <= u32_max;
}.
Definition unlock_result (capability : Capability) users (pos : Z -> Prop) q counts unblocked task u : Prop :=
  exists granted q', unlock_queue q counts unblocked task u = Some (q', (effects counts unblocked granted).1, (effects counts unblocked granted).2) /\
    queue_inv capability (without task users) pos q' /\ blocked_of q = granted ++ blocked_of q'.

Lemma fifo_release b pos counts unblocked : NoDup (refs b) -> (forall x, x ∈ b -> 1 <= cnt counts (t_ref x.2)) -> Z.of_nat (length b) <= u32_max ->
  exists granted q', (let '(newly, q) := queue_pop (Fifo None b) in grant_loop (S (queue_len q)) q counts unblocked newly) = Some (q', (effects counts unblocked granted).1, (effects counts unblocked granted).2) /\
    queue_inv FifoQueueing b pos q' /\ b = granted ++ blocked_of q'.
Proof.
  intros Hnd Hcnt Hlen. destruct b as [|[u t] b].
  - exists [], (Fifo None []). split; [done|]. split; [|done]. split; [done|]. split; [by exists []|]. split; [done|]. by intros [r ?].
  - cbn [queue_pop]. destruct (grant_fifo b (S (queue_len (Fifo None b))) None [] counts unblocked u t) as (granted & b' & usage & Hg & Hb & Hh & Hw); [simpl; lia|done|by left|done|done|rewrite length_cons in Hlen; simpl; lia|].
    exists granted, (Fifo (Some usage) b'). split; [done|]. split; [|done]. split; [done|]. split; [by exists granted|]. done.
Qed.
Lemma fifo_unlock users pos current b counts unblocked task u : unlock_ready FifoQueueing users pos (Fifo current b) counts task u ->
  unlock_result FifoQueueing users pos (Fifo current b) counts unblocked task u.
Proof.
  intros [(_ & (h & -> & Hh) & Hn & Hw) _ Hrefs Hin Hnb Hcnt Hlen]. cbn [blocked_of] in *.
  assert ((u, task) ∈ h) as Hin' by (apply elem_of_app in Hin as [|Hin]; [done|]; exfalso; apply Hnb; by apply (elem_refs (u, task))).
  assert (NoDup (refs b)) as Hndb by (rewrite refs_app in Hrefs; by apply NoDup_app in Hrefs as (_ & _ & ?)). assert (NoDup (refs h)) as Hndh by (rewrite refs_app in Hrefs; by apply NoDup_app in Hrefs as (? & _ & _)).
  assert (Z.of_nat (length b) <= u32_max) as Hlb by (rewrite length_app in Hlen; lia).
  apply list_elem_of_split in Hin' as (h1 & h2 & ->).
  assert (without task ((h1 ++ (u, task) :: h2) ++ b) = (h1 ++ h2) ++ b) as Hwithout by (rewrite without_app, without_one by done; by rewrite without_none).
  assert (h1 ++ h2 = [] -> unlock_queue (Fifo current b) counts unblocked task u = (let '(newly, q) := queue_pop (Fifo None b) in grant_loop (S (queue_len q)) q counts unblocked newly) ->
    unlock_result FifoQueueing ((h1 ++ (u, task) :: h2) ++ b) pos (Fifo current b) counts unblocked task u) as Hrelease.
  { intros He Hu. destruct (fifo_release b pos counts unblocked Hndb Hcnt Hlb) as (granted & q' & Hg & Hq & Hb). exists granted, q'. rewrite Hu. split; [done|]. rewrite Hwithout, He. done. }
  destruct current as [[n|[]]|]; simpl in Hh.
  - destruct Hh as (_ & Hr & ->). assert (u = RequestReadonly) as -> by (rewrite Forall_app, Forall_cons in Hr; apply Hr). 
    destruct (decide (Z.of_nat (length h1 + S (length h2)) = 1)) as [H1|H1].
    + apply Hrelease; [destruct h1, h2; simpl in H1; try lia; done|]. unfold unlock_queue, queue_unlock. rewrite length_app. cbn [length]. rewrite bool_decide_true by done. cbn [mbind option_bind]. by destruct (queue_pop (Fifo None b)).
    + unfold unlock_result, unlock_queue, queue_unlock. rewrite length_app. cbn [length]. rewrite bool_decide_false by done. rewrite counter_down by lia. cbn [mbind option_bind]. rewrite grant_end. exists [], (Fifo (Some (Readonly (Z.of_nat (length h1 + S (length h2)) - 1))) b). split; [done|]. rewrite Hwithout. split; [|done].
      split; [done|]. split; [|split; [done|intros _; apply Hw; by eexists]]. exists (h1 ++ h2). split; [done|]. split; [intros He; apply app_nil in He as [-> ->]; simpl in H1; lia|].
      split; [rewrite Forall_app, Forall_cons in Hr; apply Forall_app; tauto|]. rewrite length_app. lia.
  - destruct Hh as [t Ht]. destruct h1 as [|x h1]; [|destruct h1; done]. simpl in Ht. injection Ht as -> -> ->. apply Hrelease; [done|]. done.
  - by destruct h1.
Qed.

Lemma sorted_ids (b : list (Z * Use)) : blocked_ok b -> StronglySorted Z.lt (ids b.*2).
Proof.
  intros [Hs Hk]. rewrite ids_keys by done. clear Hk. induction b as [|x b IH]; [constructor|]. apply bsorted_cons in Hs as [Hs Hx]. rewrite fmap_cons. constructor; [by apply IH|].
  apply Forall_forall. intros y (e & -> & He)%list_elem_of_fmap. by apply Hx.
Qed.
Lemma prio_release users (b : list (Z * Use)) pos counts unblocked : b.*2 ≡ₚ users -> blocked_ok b -> NoDup (ids b.*2) -> NoDup (refs b.*2) -> (forall x, x ∈ b.*2 -> 1 <= cnt counts (t_ref x.2)) ->
  exists granted q', (let '(newly, q) := queue_pop (Priority None b) in grant_loop (S (queue_len q)) q counts unblocked newly) = Some (q', (effects counts unblocked granted).1, (effects counts unblocked granted).2) /\
    queue_inv PriorityQueueing users pos q' /\ b.*2 = granted ++ blocked_of q'.
Proof.
  intros Hp Hb Hids Hrefs Hcnt. destruct b as [|[k [u t]] b].
  - exists [], (Priority None []). split; [done|]. split; [|done]. split; [done|]. split; [done|]. split; [done|]. split; [done|]. split; [done|]. split; [by intros [r ?]|]. intros h e Hh. by apply elem_of_nil in Hh.
  - pose proof (sorted_ids _ Hb) as Hsorted. cbn [queue_pop]. rewrite fmap_cons in *. cbn [snd] in *. destruct (grant_prio b (S (queue_len (Priority None b))) None counts unblocked u t) as (granted & b' & usage & Hg & Hbb & Hh & Hc & Hok & Hw); [simpl; lia|done|by left| |done|done|done|].
    { destruct Hb as [Hs Hk]. apply bsorted_cons in Hs as [Hs _]. apply Forall_cons in Hk as [_ Hk]. done. }
    exists granted, (Priority (Some usage) b'). split; [done|]. split; [|done]. split; [done|]. split; [rewrite Hh, <-Hp, Hbb; done|]. split; [done|]. split; [done|]. split; [done|]. split; [done|].
    intros h e Hhin _ He. rewrite Hh in Hhin. rewrite Hbb, ids_app in Hsorted. rewrite (blocked_key _ _ Hok He).
    eapply StronglySorted_app_1_elem_of; [exact Hsorted|by apply elem_ids|apply elem_ids, list_elem_of_fmap; by exists e].
Qed.
Lemma prio_unlock users pos current b counts unblocked task u : unlock_ready PriorityQueueing users pos (Priority current b) counts task u ->
  unlock_result PriorityQueueing users pos (Priority current b) counts unblocked task u.
Proof.
  intros [(_ & Hp & Hc & Hb & Hn & Hw & HJ) Hids Hrefs Hin Hnb Hcnt Hlen]. cbn [blocked_of] in *. specialize (Hids eq_refl). rewrite <-Hp in Hids, Hrefs, Hin. rewrite ids_app in Hids. rewrite refs_app in Hrefs.
  apply NoDup_app in Hids as (_ & _ & Hids). apply NoDup_app in Hrefs as (Hndh & _ & Hrefs).
  assert ((u, task) ∈ holders_of current) as Hin' by (apply elem_of_app in Hin as [|Hin]; [done|]; exfalso; apply Hnb; by apply (elem_refs (u, task))).
  assert (without task users ≡ₚ without task (holders_of current) ++ b.*2) as Hwithout by (unfold without at 1; rewrite <-Hp; fold (without task (holders_of current ++ b.*2)); by rewrite without_app, (without_none task b.*2)).
  assert (without task (holders_of current) = [] -> unlock_queue (Priority current b) counts unblocked task u = (let '(newly, q) := queue_pop (Priority None b) in grant_loop (S (queue_len q)) q counts unblocked newly) ->
    unlock_result PriorityQueueing users pos (Priority current b) counts unblocked task u) as Hrelease.
  { intros He Hu. rewrite He in Hwithout. destruct (prio_release (without task users) b pos counts unblocked (symmetry Hwithout) Hb Hids Hrefs Hcnt) as (granted & q' & Hg & Hq & Hbb). exists granted, q'. by rewrite Hu. }
  destruct current as [[ts|t]|]; cbn [holders_of] in *.
  - destruct Hc as (Hne & Hs & Hk). apply list_elem_of_fmap in Hin' as ([k t] & [= -> ->] & Hts). assert (k = t_id t) as -> by (by eapply Forall_forall in Hk; [|exact Hts]).
    destruct (remove_spec _ _ _ Hs Hts) as (t1 & t2 & -> & Hrem). assert (without t (readers (t1 ++ (t_id t, t) :: t2)) = readers (t1 ++ t2)) as Hwo.
    { rewrite !fmap_app, fmap_cons in *. cbn [snd] in *. by apply without_one. }
    destruct (t1 ++ t2) as [|x ts] eqn:Et.
    + apply Hrelease; [done|]. unfold unlock_queue, queue_unlock. rewrite Hrem. cbn [mbind option_bind]. by destruct (queue_pop (Priority None b)).
    + exists [], (Priority (Some (Readonly (x :: ts))) b). split; [unfold unlock_queue, queue_unlock; rewrite Hrem; cbn [mbind option_bind]; by rewrite grant_end|]. split; [|done].
      split; [done|]. split; [by rewrite Hwithout, Hwo|]. split.
      { split; [done|]. rewrite <-Et. split; [by eapply bsorted_remove|]. rewrite Forall_app, Forall_cons in Hk. apply Forall_app. tauto. }
      split; [done|]. split; [done|]. split; [intros _; apply Hw; by eexists|]. intros h e Hh. apply HJ. cbn [holders_of] in Hh. rewrite <-Et in Hh. rewrite !fmap_app, fmap_cons in *. rewrite !elem_of_app, elem_of_cons in *. tauto.
  - apply list_elem_of_singleton in Hin' as [= -> ->]. apply Hrelease; [|done]. unfold without. by rewrite filter_cons, decide_False by (by intros Hx).
  - by apply elem_of_nil in Hin'.
Qed.
(** An address is given back, and to the tasks that are next. *)
Lemma unlock_spec capability users pos q counts unblocked task u : unlock_ready capability users pos q counts task u -> unlock_result capability users pos q counts unblocked task u.
Proof.
  intros Hr. pose proof (ur_inv _ _ _ _ _ _ _ Hr) as Hq. destruct q as [current b|current b]; destruct Hq as [-> _]; [by apply fifo_unlock|by apply prio_unlock].
Qed.

(** ** What the invariant tells *)

Lemma inv_weaken capability users (pos pos' : Z -> Prop) q : (forall h, h ∈ users -> pos' (t_ref h.2) -> pos (t_ref h.2)) -> queue_inv capability users pos q -> queue_inv capability users pos' q.
Proof.
  intros Hpos. destruct q as [current b|current b]; [done|]. intros (Hc & Hp & Hrest1 & Hrest2 & Hrest3 & Hrest4 & HJ). do 6 (split; [done|]). intros h e Hh Hp'. apply HJ; [done|]. apply Hpos; [|done]. rewrite <-Hp, elem_of_app. by left.
Qed.
Lemma inv_blocked capability users pos q x : queue_inv capability users pos q -> x ∈ blocked_of q -> x ∈ users.
Proof.
  destruct q as [current b|current b]; cbn [blocked_of].
  - intros (_ & (h & -> & _) & _) Hx. apply elem_of_app. by right.
  - intros (_ & <- & _) Hx. apply elem_of_app. by right.
Qed.
Lemma ref_inj users x y : NoDup (refs users) -> x ∈ users -> y ∈ users -> t_ref x.2 = t_ref y.2 -> x = y.
Proof. apply (fmap_inj_in (fun x : Use => t_ref x.2)). Qed.
Lemma inv_blocked_refs capability users pos q : queue_inv capability users pos q -> NoDup (refs users) -> NoDup (refs (blocked_of q)).
Proof.
  destruct q as [current b|current b]; cbn [blocked_of].
  - intros (_ & (h & -> & _) & _). rewrite refs_app. by intros (_ & _ & ?)%NoDup_app.
  - intros (_ & <- & _). rewrite refs_app. by intros (_ & _ & ?)%NoDup_app.
Qed.
Lemma inv_blocked_ref capability users pos q x : queue_inv capability users pos q -> NoDup (refs users) -> x ∈ users -> t_ref x.2 ∈ refs (blocked_of q) <-> x ∈ blocked_of q.
Proof.
  intros Hq Hnd Hx. split; [|by apply elem_refs]. intros (y & Hy & Hin)%list_elem_of_fmap. by rewrite (ref_inj users x y Hnd Hx (inv_blocked _ _ _ _ _ Hq Hin) Hy).
Qed.
(** Two holders of an address both read it. *)
Lemma inv_shared capability users pos q x y : queue_inv capability users pos q -> x ∈ users -> y ∈ users -> x ∉ blocked_of q -> y ∉ blocked_of q -> t_ref x.2 <> t_ref y.2 -> is_read x /\ is_read y.
Proof.
  destruct q as [current b|current b]; cbn [blocked_of].
  - intros (_ & (h & -> & Hh) & _) Hx Hy Hbx Hby Hne. apply elem_of_app in Hx as [Hx|]; [|done]. apply elem_of_app in Hy as [Hy|]; [|done]. destruct current as [[n|[]]|]; simpl in Hh.
    + destruct Hh as (_ & Hr & _). rewrite Forall_forall in Hr. auto.
    + destruct Hh as [t ->]. apply list_elem_of_singleton in Hx, Hy. by subst.
    + subst h. by apply elem_of_nil in Hx.
  - intros (_ & Hp & _) Hx Hy Hbx Hby Hne. rewrite <-Hp, elem_of_app in Hx, Hy. destruct Hx as [Hx|], Hy as [Hy|]; try done. destruct current as [[n|t]|]; cbn [holders_of] in *.
    + apply list_elem_of_fmap in Hx as (? & -> & _), Hy as (? & -> & _). done.
    + apply list_elem_of_singleton in Hx, Hy. by subst.
    + by apply elem_of_nil in Hx.
Qed.
(** Where a task waits there is one that holds the address. *)
Lemma inv_held capability users pos q x : queue_inv capability users pos q -> NoDup (refs users) -> x ∈ blocked_of q -> exists h, (h ∈ users) /\ (h ∉ blocked_of q).
Proof.
  intros Hq Hnd Hx. assert (forall (hs : list Use) h, refs users ≡ₚ refs hs ++ refs (blocked_of q) -> h ∈ hs -> h ∉ blocked_of q) as Hdis.
  { intros hs h Hp Hh Hb. rewrite Hp in Hnd. apply NoDup_app in Hnd as (_ & Hnd & _). apply (Hnd (t_ref h.2)); by apply elem_refs. }
  destruct q as [current b|current b]; cbn [blocked_of] in *.
  - destruct Hq as (_ & (hs & -> & Hh) & Hn & _). destruct current as [usage|]; [|rewrite Hn in Hx by done; by apply elem_of_nil in Hx].
    assert (exists h, h ∈ hs) as [h Hin]; [|exists h; split; [apply elem_of_app; by left|eapply Hdis; [by rewrite refs_app|done]]].
    destruct hs as [|h hs]; [|exists h; left]. destruct usage as [n|[]]; simpl in Hh; [by destruct Hh|by destruct Hh].
  - destruct Hq as (_ & Hp & Hc & _ & Hn & _). destruct current as [usage|]; [|rewrite Hn in Hx by done; by apply elem_of_nil in Hx].
    assert (exists h, h ∈ holders_of (Some usage)) as [h Hin].
    { destruct usage as [ts|t]; [|by exists (RequestWritable, t); left]. destruct Hc as [Hne _]. destruct ts as [|e ts]; [done|]. exists (RequestReadonly, e.2). left. }
    exists h. split; [rewrite <-Hp, elem_of_app; by left|]. eapply Hdis; [|exact Hin]. by rewrite <-Hp, refs_app.
Qed.
Lemma inv_fresh capability pos q : queue_inv capability [] pos q -> q = queue_new capability.
Proof.
  destruct q as [current b|current b].
  - intros (-> & (h & He & Hh) & Hn & _). symmetry in He. apply app_nil in He as [-> ->]. destruct current as [[n|[]]|]; simpl in Hh; [by destruct Hh|by destruct Hh|done].
  - intros (-> & Hp & Hc & _). apply Permutation_nil_r, app_nil in Hp as [Hh Hb]. apply fmap_nil_inv in Hb as ->. destruct current as [[ts|t]|]; cbn [holders_of] in Hh; [|done|done].
    apply fmap_nil_inv in Hh as ->. by destruct Hc.
Qed.
Lemma inv_new capability pos : queue_inv capability [] pos (queue_new capability).
Proof.
  destruct capability; [split; [done|]; split; [by exists []|]; split; [done|by intros [r ?]]|]. split; [done|]. split; [done|]. split; [done|]. split; [split; constructor|]. split; [done|]. split; [by intros [r ?]|]. intros h e Hh. by apply elem_of_nil in Hh.
Qed.
(** In a first-in-first-out queue the holders came first. *)
Lemma inv_fifo users pos q : queue_inv FifoQueueing users pos q -> exists h, users = h ++ blocked_of q.
Proof. destruct q as [current b|current b]; [|by intros [? _]]. intros (_ & (h & -> & _) & _). by exists h. Qed.
(** In a priority queue a holder that waits elsewhere comes before the blocked ones. *)
Lemma inv_prio users pos q h x : queue_inv PriorityQueueing users pos q -> h ∈ users -> h ∉ blocked_of q -> pos (t_ref h.2) -> x ∈ blocked_of q -> t_id h.2 < t_id x.2.
Proof.
  destruct q as [current b|current b]; [by intros [? _]|]. cbn [blocked_of]. intros (_ & Hp & _ & Hb & _ & _ & HJ) Hh Hnb Hpos (e & -> & He)%list_elem_of_fmap. rewrite <-(blocked_key _ _ Hb He). apply HJ; [|done|done].
  rewrite <-Hp, elem_of_app in Hh. by destruct Hh.
Qed.
End queues.
