(* ===== verification/UnifiedTheorems.v ===== *)
(** * The unified scheduler runs tasks one at a time where they conflict

    The usage queues together with the counts of the tasks: a task is counted blocked on
    exactly the addresses on whose queues it waits, the tasks that are blocked nowhere
    are those that run or wait to be run, and whatever is scheduled and finished, the
    machine does not panic, does not run conflicting tasks together and does not get
    stuck. *)

From S2P Require Import Prelude.
From S2P Require Import AccountLocks.
From S2P Require Import UnifiedScheduler.
From S2P Require Import UnifiedQueues.

Section theorems.
Context {K : Type} `{Countable K} (capability : Capability).
Implicit Types (t task : Task K) (m : SchedulingStateMachine K) (active : list (Task K)) (k : K) (cs : list (LockContext K)).
Abbreviation Use := (RequestedUsage * Task K)%type.
Abbreviation keys cs := (lc_usage_queue <$> cs).

(** ** Requests *)

Fixpoint request cs k : option RequestedUsage :=
  match cs with [] => None | c :: cs => if decide (lc_usage_queue c = k) then Some (lc_requested_usage c) else request cs k end.
Lemma request_none cs k : request cs k = None <-> k ∉ keys cs.
Proof.
  induction cs as [|c cs IH]; [split; [intros _; apply not_elem_of_nil|done]|]. cbn [request]. rewrite fmap_cons, not_elem_of_cons. case_decide; [naive_solver|]. rewrite IH. naive_solver.
Qed.
Lemma request_elem cs c : NoDup (keys cs) -> c ∈ cs -> request cs (lc_usage_queue c) = Some (lc_requested_usage c).
Proof.
  induction cs as [|c' cs IH]; intros Hnd Hc; [by apply elem_of_nil in Hc|]. rewrite fmap_cons, NoDup_cons in Hnd. destruct Hnd as [Hn Hnd]. cbn [request]. apply elem_of_cons in Hc as [->|Hc]; [by rewrite decide_True|].
  rewrite decide_False; [by apply IH|]. intros Heq. apply Hn. rewrite Heq. apply list_elem_of_fmap. by exists c.
Qed.
Lemma request_in cs k u : request cs k = Some u -> exists c, c ∈ cs /\ lc_usage_queue c = k /\ lc_requested_usage c = u.
Proof.
  induction cs as [|c cs IH]; [done|]. cbn [request]. case_decide as Hk; [intros [= <-]; exists c; split; [left|done]|]. intros (c' & Hc & Hrest)%IH. exists c'. split; [by right|done].
Qed.
Lemma request_app cs1 cs2 k : request (cs1 ++ cs2) k = match request cs1 k with Some u => Some u | None => request cs2 k end.
Proof. induction cs1 as [|c cs1 IH]; [done|]. cbn [request app]. by case_decide. Qed.

(** The active tasks that ask for an address. *)
Definition ask (r : option RequestedUsage) task : list Use := match r with Some u => [(u, task)] | None => [] end.
Definition users active k : list Use := active ≫= fun t => ask (request (t_contexts t) k) t.
Lemma users_app l1 l2 k : users (l1 ++ l2) k = users l1 k ++ users l2 k.
Proof. apply bind_app. Qed.
Lemma elem_users active k x : x ∈ users active k <-> (x.2 ∈ active) /\ request (t_contexts x.2) k = Some x.1.
Proof.
  unfold users. rewrite list_elem_of_bind. destruct x as [u t]. split.
  - intros (t' & Hx & Ht'). unfold ask in Hx. destruct (request (t_contexts t') k) as [u'|] eqn:Er; [|by apply elem_of_nil in Hx]. apply list_elem_of_singleton in Hx as [= -> ->]. done.
  - intros [Ht Hr]. exists t. simpl in *. rewrite Hr. split; [left|done].
Qed.
Lemma users_sub {B} (f : Task K -> B) active k : NoDup (f <$> active) -> NoDup ((fun x => f x.2) <$> users active k).
Proof.
  induction active as [|t active IH]; intros Hnd; [constructor|]. rewrite fmap_cons, NoDup_cons in Hnd. destruct Hnd as [Hn Hnd].
  change (users (t :: active) k) with (ask (request (t_contexts t) k) t ++ users active k). unfold ask. destruct (request (t_contexts t) k) as [u|]; [|by apply IH]. simpl. apply NoDup_cons. split; [|by apply IH].
  intros (x & Hx & Hin)%list_elem_of_fmap. apply Hn. simpl in Hx. rewrite Hx. apply list_elem_of_fmap. exists x.2. split; [done|]. by apply elem_users in Hin as [? _].
Qed.
Definition others task active : list (Task K) := filter (fun t => t_ref t <> t_ref task) active.
Lemma users_others task active k : users (others task active) k = without task (users active k).
Proof.
  induction active as [|t active IH]; [done|]. unfold others in *. rewrite filter_cons. change (users (t :: active) k) with (ask (request (t_contexts t) k) t ++ users active k). rewrite without_app, <-IH.
  assert (without task (ask (request (t_contexts t) k) t) = if decide (t_ref t <> t_ref task) then ask (request (t_contexts t) k) t else []) as ->.
  { unfold without, ask. destruct (request (t_contexts t) k); [|by case_decide]. rewrite filter_cons. simpl. by case_decide. }
  by case_decide.
Qed.
Lemma users_length active k : (length (users active k) <= length active)%nat.
Proof.
  induction active as [|t active IH]; [done|]. change (users (t :: active) k) with (ask (request (t_contexts t) k) t ++ users active k). rewrite length_app. unfold ask. destruct (request (t_contexts t) k); simpl; lia.
Qed.

(** ** Blocked addresses of a task *)

Definition blocked_at m k : list Z := refs (blocked_of (queue_of capability m k)).
Definition nb_in (b : K -> list Z) (r : Z) cs : Z := Z.of_nat (length (filter (fun c => r ∈ b (lc_usage_queue c)) cs)).
Lemma nb_same (b b' : K -> list Z) r cs : (forall c, c ∈ cs -> r ∈ b' (lc_usage_queue c) <-> r ∈ b (lc_usage_queue c)) -> nb_in b' r cs = nb_in b r cs.
Proof. intros Hb. unfold nb_in. f_equal. f_equal. by apply filter_ext_in. Qed.
Lemma nb_more (b b' : K -> list Z) r cs k : NoDup (keys cs) -> k ∈ keys cs -> r ∉ b k -> r ∈ b' k -> (forall k', k' <> k -> b' k' = b k') -> nb_in b' r cs = nb_in b r cs + 1.
Proof.
  intros Hnd Hk Hb Hb' Heq. unfold nb_in. induction cs as [|c cs IH]; [by apply elem_of_nil in Hk|]. rewrite fmap_cons in Hnd, Hk. apply NoDup_cons in Hnd as [Hn Hnd]. rewrite !filter_cons. apply elem_of_cons in Hk as [->|Hk].
  - rewrite decide_True, decide_False by done. assert (nb_in b' r cs = nb_in b r cs) as Hs; [|unfold nb_in in Hs; simpl; lia].
    apply nb_same. intros c' Hc'. rewrite Heq; [done|]. intros Hx. apply Hn. rewrite <-Hx. apply list_elem_of_fmap. by exists c'.
  - specialize (IH Hnd Hk). assert (lc_usage_queue c <> k) as Hne by (intros Hx; apply Hn; by rewrite Hx). rewrite (Heq _ Hne). case_decide; simpl; lia.
Qed.
Lemma nb_less (b b' : K -> list Z) r cs k : NoDup (keys cs) -> k ∈ keys cs -> r ∈ b k -> r ∉ b' k -> (forall k', k' <> k -> b' k' = b k') -> nb_in b' r cs = nb_in b r cs - 1.
Proof. intros Hnd Hk Hb Hb' Heq. rewrite (nb_more b' b r cs k); [lia|done..|]. intros k' Hk'. by rewrite Heq. Qed.
Lemma nb_pos (b : K -> list Z) r cs c : c ∈ cs -> r ∈ b (lc_usage_queue c) -> 1 <= nb_in b r cs.
Proof.
  intros Hc Hb. unfold nb_in. assert (c ∈ filter (fun c => r ∈ b (lc_usage_queue c)) cs) as Hin by (by apply list_elem_of_filter). destruct (filter _ cs); [by apply elem_of_nil in Hin|]. simpl. lia.
Qed.
Lemma nb_free (b : K -> list Z) r cs c : c ∈ cs -> r ∉ b (lc_usage_queue c) -> nb_in b r cs + 1 <= Z.of_nat (length cs).
Proof.
  intros (cs1 & cs2 & ->)%list_elem_of_split Hb. unfold nb_in. rewrite filter_app, filter_cons, decide_False by done. rewrite !length_app. simpl.
  pose proof (length_filter (fun c => r ∈ b (lc_usage_queue c)) cs1). pose proof (length_filter (fun c => r ∈ b (lc_usage_queue c)) cs2). lia.
Qed.
Lemma nb_zero (b : K -> list Z) r cs c : nb_in b r cs = 0 -> c ∈ cs -> r ∉ b (lc_usage_queue c).
Proof. intros Hz Hc Hb. pose proof (nb_pos b r cs c Hc Hb). lia. Qed.

(** ** Locking *)

Abbreviation count_of m task := (cnt (blocked_usage_counts m) (t_ref task)).
Definition nb m task : Z := nb_in (blocked_at m) (t_ref task) (t_contexts task).
Lemma queue_set m k q k' : queue_of capability (set_queue m k q) k' = if decide (k' = k) then q else queue_of capability m k'.
Proof. unfold queue_of, set_queue. simpl. case_decide; [subst; by rewrite lookup_insert_eq|by rewrite lookup_insert_ne]. Qed.
Lemma lock_usage_queue_eq m task c blocked b q counts :
  lock_queue (queue_of capability m (lc_usage_queue c)) (blocked_usage_counts m) task (lc_requested_usage c) = Some (b, q, counts) -> blocked + 1 <= u32_max ->
  lock_usage_queue capability m task c blocked = Some (set_queue (with_counts m counts) (lc_usage_queue c) q, if b : bool then blocked + 1 else blocked).
Proof.
  unfold lock_queue, lock_usage_queue. intros Hl Hb. destruct (prepare_lock _ _ _ _) as [[[prepared q1] counts1]|]; [|done]. cbn [mbind option_bind] in *.
  destruct (match prepared with Ok _ => _ | Err _ => _ end) as [[locked q2]|]; [|done]. cbn [mbind option_bind] in *. destruct locked as [[]|[]]; [by inv_some|].
  rewrite counter_up by done. cbn [mbind option_bind]. destruct (push_blocked q2 _); [|done]. cbn [mbind option_bind] in *. by inv_some.
Qed.

(** The tasks that are active, with what is fixed about them. *)
Record tasks_ok active : Prop := {
  tk_refs : NoDup (t_ref <$> active);
  tk_ids : capability = PriorityQueueing -> NoDup (t_id <$> active);
  tk_keys : forall t, t ∈ active -> NoDup (keys (t_contexts t));
  tk_len : forall t, t ∈ active -> Z.of_nat (length (t_contexts t)) <= u32_max;
  tk_few : Z.of_nat (length active) <= u32_max;
}.
Lemma tasks_users active k : tasks_ok active -> NoDup (refs (users active k)) /\ (capability = PriorityQueueing -> NoDup (ids (users active k))).
Proof. intros [H1 H2 _ _]. split; [by apply users_sub|]. intros Hc. by apply (users_sub t_id), H2. Qed.
Lemma task_inj active t t' : tasks_ok active -> t ∈ active -> t' ∈ active -> t_ref t = t_ref t' -> t = t'.
Proof. intros Hok. apply fmap_inj_in, Hok. Qed.

(** Half way through the contexts of a new task: the queues of the first ones, [cs], know
    of the task.  [pos] are the tasks that are, or may turn out to be, blocked. *)
Record locking active task (pos : Z -> Prop) m cs blocked : Prop := {
  lk_queues : forall k, queue_inv capability (users active k ++ ask (request cs k) task) pos (queue_of capability m k);
  lk_counts : forall t, t ∈ active -> count_of m t = nb m t;
  lk_pos : forall t, t ∈ active -> pos (t_ref t) <-> count_of m t <> 0;
  lk_new : count_of m task = 0;
  lk_new_pos : pos (t_ref task);
  lk_blocked : blocked = nb_in (blocked_at m) (t_ref task) cs;
}.
Lemma lock_one active task pos m cs blocked c : tasks_ok (active ++ [task]) -> c ∈ t_contexts task -> lc_usage_queue c ∉ keys cs -> (length (cs ++ [c]) <= length (t_contexts task))%nat ->
  locking active task pos m cs blocked ->
  exists counts q blocked', lock_usage_queue capability m task c blocked = Some (set_queue (with_counts m counts) (lc_usage_queue c) q, blocked') /\
    locking active task pos (set_queue (with_counts m counts) (lc_usage_queue c) q) (cs ++ [c]) blocked'.
Proof.
  intros Hok Hc Hfresh Hlen [Lq Lc Lp Ln Lnp Lb]. set (k := lc_usage_queue c) in *. set (u := lc_requested_usage c).
  assert (task ∈ active ++ [task]) as Htask by (apply elem_of_app; right; left). destruct (tasks_users _ k Hok) as [Hrefs Hids]. rewrite users_app in Hrefs, Hids.
  assert (users [task] k = [(u, task)]) as Hut. { pose proof (request_elem _ _ (tk_keys _ Hok _ Htask) Hc) as Hre. fold k u in Hre. unfold users. simpl. rewrite app_nil_r. by rewrite Hre. }
  rewrite Hut in Hrefs, Hids. pose proof (Lq k) as Hq. rewrite (proj2 (request_none cs k) Hfresh) in Hq. cbn [ask] in Hq. rewrite app_nil_r in Hq.
  assert (forall t, t ∈ active -> t ∈ active ++ [task]) as Hact by (intros t Ht; apply elem_of_app; by left).
  assert (NoDup (refs (users active k))) as Hnd by (rewrite refs_app in Hrefs; by apply NoDup_app in Hrefs as (? & _)).
  destruct (lock_spec capability (users active k) pos (queue_of capability m k) (blocked_usage_counts m) task u) as (b & q' & counts' & l & Hl & Hq' & Hp & Hll & Hndl & Hcnt).
  { split; [done|done|done| | |].
    - intros h [Hh _]%elem_users. by apply Lp.
    - intros h Hh Hnb. pose proof Hh as Hh'. apply elem_users in Hh' as [Ha Hr]. rewrite Lc by done. apply request_in in Hr as (ch & Hch & Hk & _).
      pose proof (tk_len _ Hok _ (Hact _ Ha)). assert (nb m h.2 + 1 <= Z.of_nat (length (t_contexts h.2))); [|lia]. apply (nb_free _ _ _ ch Hch). rewrite Hk. unfold blocked_at. by rewrite (inv_blocked_ref _ _ _ _ h Hq Hnd Hh).
    - pose proof (users_length active k). pose proof (tk_few _ Hok) as Hf. rewrite length_app in Hf. simpl in Hf. lia. }
  assert (forall t, t ∈ active -> t_ref t <> t_ref task) as Hne.
  { intros t Ht Heq. pose proof (tk_refs _ Hok) as Hn. rewrite fmap_app in Hn. apply NoDup_app in Hn as (_ & Hn & _). apply (Hn (t_ref t)); [apply list_elem_of_fmap; by exists t|rewrite Heq; left]. }
  exists counts', q', (if b : bool then blocked + 1 else blocked). split.
  { apply lock_usage_queue_eq; [done|]. subst blocked. unfold nb_in. pose proof (length_filter (fun c0 => t_ref task ∈ blocked_at m (lc_usage_queue c0)) cs). pose proof (tk_len _ Hok _ Htask). rewrite length_app in Hlen. simpl in Hlen. lia. }
  set (m' := set_queue (with_counts m counts') k q'). assert (forall k', queue_of capability m' k' = if decide (k' = k) then q' else queue_of capability m k') as Hqm by (intros k'; unfold m'; rewrite queue_set; done).
  assert (forall k', k' <> k -> blocked_at m' k' = blocked_at m k') as Hother by (intros k' Hk'; unfold blocked_at; by rewrite Hqm, decide_False).
  assert (blocked_at m' k ≡ₚ blocked_at m k ++ refs l ++ refs (if b : bool then [(u, task)] else [])) as Hbk by (unfold blocked_at; rewrite Hqm, decide_True by done; by rewrite Hp, !refs_app).
  assert (t_ref task ∉ blocked_at m k ++ refs l) as Hnew.
  { rewrite elem_of_app. intros [(x & Hx & Hin)%list_elem_of_fmap|(x & Hx & Hin)%list_elem_of_fmap]; [apply (inv_blocked _ _ _ _ _ Hq) in Hin|apply Hll in Hin as [Hin _]]; apply elem_users in Hin as [Hin _]; by apply (Hne x.2 Hin). }
  assert (forall t, t ∈ active -> (count_of m' t = nb m' t) /\ (count_of m' t = 0 <-> count_of m t = 0)) as Hcounts.
  { intros t Ht. change (count_of m' t) with (cnt counts' (t_ref t)). rewrite Hcnt. unfold nb. pose proof (Lc t Ht) as Hct. unfold nb in Hct. assert (0 <= nb_in (blocked_at m) (t_ref t) (t_contexts t)) by (unfold nb_in; lia). case_decide as Hin.
    - pose proof Hin as (x & Hx & Hxl)%list_elem_of_fmap. destruct (Hll x Hxl) as (Hxu & Hxb & Hxp). pose proof Hxu as Hxu'. apply elem_users in Hxu' as [Hxa Hxr].
      assert (x.2 = t) as Hxt by (apply (task_inj _ _ _ Hok); auto). rewrite Hxt in *. apply (Lp t Ht) in Hxp. split; [|lia]. rewrite (nb_more (blocked_at m) (blocked_at m') _ _ k); [lia|by apply (tk_keys _ Hok), Hact| | | |done].
      + apply request_in in Hxr as (c' & Hc' & <- & _). apply list_elem_of_fmap. by exists c'.
      + unfold blocked_at. rewrite <-Hxt, (inv_blocked_ref _ _ _ _ x Hq Hnd Hxu). done.
      + rewrite Hbk, !elem_of_app. tauto.
    - split; [|lia]. rewrite (nb_same (blocked_at m) (blocked_at m')); [lia|]. intros c' Hc'. destruct (decide (lc_usage_queue c' = k)) as [->|Hk']; [|by rewrite Hother]. rewrite Hbk, !elem_of_app. split; [|tauto].
      intros [?|[?|Hb]]; [done|done|]. destruct b; [|by apply elem_of_nil in Hb]. apply list_elem_of_singleton in Hb. by apply Hne in Ht. }
  split.
  - intros k'. rewrite Hqm, request_app. case_decide as Hk'; [subst k'|].
    + rewrite (proj2 (request_none cs k) Hfresh). cbn [request]. rewrite decide_True by done. cbn [ask]. eapply inv_weaken; [|exact Hq']. intros h _ Hpos. by left.
    + cbn [request]. rewrite decide_False by (by intros Heq; apply Hk'). specialize (Lq k'). by destruct (request cs k').
  - intros t Ht. by apply Hcounts.
  - intros t Ht. rewrite (Lp t Ht). destruct (Hcounts t Ht) as [_ Hz]. tauto.
  - change (cnt counts' (t_ref task) = 0). rewrite Hcnt, decide_False; [lia|]. intros Hin. apply Hnew, elem_of_app. by right.
  - done.
  - subst blocked. unfold nb_in. rewrite filter_app, length_app, filter_cons. assert (nb_in (blocked_at m') (t_ref task) cs = nb_in (blocked_at m) (t_ref task) cs) as Hsame.
    { apply nb_same. intros c' Hc'. rewrite Hother; [done|]. intros Hx. apply Hfresh. rewrite <-Hx. apply list_elem_of_fmap. by exists c'. }
    unfold nb_in in Hsame. destruct b; [rewrite decide_True|rewrite decide_False]; simpl; try lia; fold k; rewrite Hbk, app_assoc, elem_of_app; [right; left|]. intros [?|Hin]; [done|by apply elem_of_nil in Hin].
Qed.

Definition with_cells m counts (queues : gmap K (UsageQueueInner K)) := with_queues (with_counts m counts) queues.
Lemma with_cells_same m : m = with_cells m (blocked_usage_counts m) (usage_queues m).
Proof. by destruct m. Qed.
Lemma lock_all active task pos : tasks_ok (active ++ [task]) -> forall cs2 m cs1 blocked, t_contexts task = cs1 ++ cs2 -> locking active task pos m cs1 blocked ->
  exists counts queues blocked', lock_contexts capability m task cs2 blocked = Some (with_cells m counts queues, blocked') /\ locking active task pos (with_cells m counts queues) (t_contexts task) blocked'.
Proof.
  intros Hok. assert (task ∈ active ++ [task]) as Htask by (apply elem_of_app; right; left). induction cs2 as [|c cs2 IH]; intros m cs1 blocked Hcs Hl.
  - rewrite app_nil_r in Hcs. rewrite Hcs. exists (blocked_usage_counts m), (usage_queues m), blocked. rewrite <-with_cells_same. done.
  - destruct (lock_one active task pos m cs1 blocked c Hok) as (counts & q & blocked1 & Hone & Hl1); [rewrite Hcs; apply elem_of_app; right; left| |rewrite Hcs, !length_app; simpl; lia|done|].
    { pose proof (tk_keys _ Hok _ Htask) as Hnd. rewrite Hcs, fmap_app, fmap_cons in Hnd. apply NoDup_app in Hnd as (_ & Hnd & _). intros Hin. apply (Hnd _ Hin). left. }
    cbn [lock_contexts]. rewrite Hone. cbn [mbind option_bind]. destruct (IH (set_queue (with_counts m counts) (lc_usage_queue c) q) (cs1 ++ [c]) blocked1) as (counts' & queues' & blocked' & Hall & Hl'); [by rewrite <-app_assoc|exact Hl1|].
    exists counts', queues', blocked'. rewrite Hall. done.
Qed.

(** ** Unlocking *)

(** Half way through the contexts of a finished task. *)
Record unlocking active task (counts0 : gmap Z Z) (running : list (Task K)) m cs : Prop := {
  ul_queues : forall k, queue_inv capability (if decide (k ∈ keys cs) then without task (users active k) else users active k) (fun r => cnt counts0 r <> 0) (queue_of capability m k);
  ul_counts : forall t, t ∈ active -> t_ref t <> t_ref task -> count_of m t = nb m t;
  ul_less : forall t, t ∈ active -> count_of m t <= cnt counts0 (t_ref t);
  ul_free : forall c, c ∈ t_contexts task -> t_ref task ∉ blocked_at m (lc_usage_queue c);
  ul_ready : filter (fun t => count_of m t = 0) (others task active) ≡ₚ running ++ unblocked_task_queue m;
}.
Lemma unlock_usage_queue_eq m task c q counts unblocked :
  unlock_queue (queue_of capability m (lc_usage_queue c)) (blocked_usage_counts m) (unblocked_task_queue m) task (lc_requested_usage c) = Some (q, counts, unblocked) ->
  unlock_usage_queue capability m task c = Some (set_queue (with_counts (with_unblocked_queue m unblocked) counts) (lc_usage_queue c) q).
Proof.
  unfold unlock_queue, unlock_usage_queue. destruct (queue_unlock _ _ _) as [[newly q1]|]; [|done]. cbn [mbind option_bind]. intros ->. done.
Qed.
Lemma refs_filter (P : Use -> Prop) `{!forall x, Decision (P x)} (l : list Use) : NoDup (refs l) -> NoDup (refs (filter P l)).
Proof.
  unfold refs. induction l as [|x l IH]; [done|]. rewrite fmap_cons, filter_cons. intros [Hx Hnd]%NoDup_cons. case_decide; [|by apply IH]. rewrite fmap_cons. apply NoDup_cons. split; [|by apply IH].
  intros (y & Hy & [_ Hin]%list_elem_of_filter)%list_elem_of_fmap. apply Hx. rewrite Hy. apply list_elem_of_fmap. by exists y.
Qed.
(** The tasks whose last address was granted become ready. *)
Lemma ready_grows active (counts counts' : gmap Z Z) (granted : list Use) : NoDup (t_ref <$> active) -> NoDup (refs granted) ->
  (forall x, x ∈ granted -> (x.2 ∈ active) /\ 1 <= cnt counts (t_ref x.2)) ->
  (forall x, cnt counts' x = cnt counts x - (if decide (x ∈ refs granted) then 1 else 0)) ->
  filter (fun t => cnt counts' (t_ref t) = 0) active ≡ₚ filter (fun t => cnt counts (t_ref t) = 0) active ++ (filter (fun x => cnt counts (t_ref x.2) = 1) granted).*2.
Proof.
  intros Hnd Hndg Hg Hcnt. assert (NoDup active) as Hnda by (by eapply NoDup_fmap_1).
  assert (forall t, t ∈ active -> t_ref t ∈ refs granted -> exists x, x ∈ granted /\ x.2 = t) as Hinv.
  { intros t Ht (x & Hx & Hin)%list_elem_of_fmap. exists x. split; [done|]. destruct (Hg x Hin) as (Hxa & _). by apply (fmap_inj_in _ _ _ _ Hnd). }
  apply NoDup_Permutation; [by apply NoDup_filter| |].
  - apply NoDup_app. split; [by apply NoDup_filter|]. split.
    + intros t Ht (x & -> & Hx)%list_elem_of_fmap. apply list_elem_of_filter in Ht as [Ht _], Hx as [Hx _]. lia.
    + apply (NoDup_fmap_1 t_ref). rewrite <-list_fmap_compose. by apply refs_filter.
  - intros t. rewrite elem_of_app, !list_elem_of_filter, list_elem_of_fmap. setoid_rewrite list_elem_of_filter. rewrite Hcnt. split.
    + intros [Hz Ht]. case_decide as Hin; [right|left; split; [lia|done]]. destruct (Hinv t Ht Hin) as (x & Hx & <-). exists x. split; [done|]. split; [lia|done].
    + intros [[Hz Ht]|(x & -> & Hone & Hx)].
      * split; [|done]. rewrite decide_False; [lia|]. intros Hin. destruct (Hinv t Ht Hin) as (x & Hx & <-). destruct (Hg x Hx). lia.
      * rewrite decide_True by (by apply elem_refs). split; [lia|]. by apply Hg.
Qed.
Lemma unlock_one active task counts0 running m cs c : tasks_ok active -> task ∈ active -> c ∈ t_contexts task -> lc_usage_queue c ∉ keys cs -> unlocking active task counts0 running m cs ->
  exists counts q unblocked, unlock_usage_queue capability m task c = Some (set_queue (with_counts (with_unblocked_queue m unblocked) counts) (lc_usage_queue c) q) /\
    unlocking active task counts0 running (set_queue (with_counts (with_unblocked_queue m unblocked) counts) (lc_usage_queue c) q) (cs ++ [c]).
Proof.
  intros Hok Htask Hc Hfresh [Uq Uc Ul Uf Ur]. set (k := lc_usage_queue c) in *. set (u := lc_requested_usage c).
  destruct (tasks_users _ k Hok) as [Hrefs Hids]. pose proof (Uq k) as Hq. rewrite decide_False in Hq by done. pose proof (Uf c Hc) as Hfree. fold k in Hfree.
  assert (forall x, x ∈ blocked_of (queue_of capability m k) -> (x.2 ∈ active) /\ t_ref x.2 <> t_ref task /\ (k ∈ keys (t_contexts x.2)) /\ 1 <= count_of m x.2) as Hblocked.
  { intros x Hx. pose proof (inv_blocked _ _ _ _ _ Hq Hx) as [Hxa Hxr]%elem_users. assert (t_ref x.2 <> t_ref task) as Hne by (intros Heq; apply Hfree; unfold blocked_at; rewrite <-Heq; by apply elem_refs).
    apply request_in in Hxr as (c' & Hc' & Hk & _). split; [done|]. split; [done|]. split; [rewrite <-Hk; apply list_elem_of_fmap; by exists c'|].
    rewrite Uc by done. apply (nb_pos _ _ _ c' Hc'). rewrite Hk. by apply elem_refs. }
  destruct (unlock_spec capability (users active k) (fun r => cnt counts0 r <> 0) (queue_of capability m k) (blocked_usage_counts m) (unblocked_task_queue m) task u) as (granted & q' & Hu & Hq' & Hb).
  { split; [done|done|done| |done| |].
    - apply elem_users. split; [done|]. apply (request_elem _ _ (tk_keys _ Hok _ Htask) Hc).
    - intros x Hx. by apply Hblocked.
    - pose proof (users_length active k). pose proof (tk_few _ Hok). lia. }
  pose proof (inv_blocked_refs _ _ _ _ Hq Hrefs) as Hndb. rewrite Hb, refs_app in Hndb. apply NoDup_app in Hndb as (Hndg & Hdis & _).
  destruct (effects_spec granted (blocked_usage_counts m) (unblocked_task_queue m) Hndg) as [Hcnt Hunb]. destruct (effects _ _ granted) as [counts' unblocked'] eqn:Ee. simpl in Hcnt, Hunb, Hu.
  exists counts', q', unblocked'. split; [by apply unlock_usage_queue_eq|].
  set (m' := set_queue (with_counts (with_unblocked_queue m unblocked') counts') k q'). assert (forall k', queue_of capability m' k' = if decide (k' = k) then q' else queue_of capability m k') as Hqm by (intros k'; unfold m'; rewrite queue_set; done).
  assert (forall k', k' <> k -> blocked_at m' k' = blocked_at m k') as Hother by (intros k' Hk'; unfold blocked_at; by rewrite Hqm, decide_False).
  assert (blocked_at m k = refs granted ++ blocked_at m' k) as Hbk by (unfold blocked_at; rewrite Hqm, decide_True by done; by rewrite Hb, refs_app).
  assert (forall x, x ∈ granted -> x ∈ blocked_of (queue_of capability m k)) as Hgb by (intros x Hx; rewrite Hb, elem_of_app; by left).
  split.
  - intros k'. rewrite Hqm, fmap_app. case_decide as Hin; case_decide as Hk'.
    + by subst k'.
    + specialize (Uq k'). rewrite decide_True in Uq; [done|]. rewrite elem_of_app in Hin. destruct Hin as [|Hin]; [done|]. by apply list_elem_of_singleton in Hin.
    + subst k'. exfalso. apply Hin, elem_of_app. right. left.
    + specialize (Uq k'). rewrite decide_False in Uq; [done|]. intros Hin'. apply Hin, elem_of_app. by left.
  - intros t Ht Hne. change (count_of m' t) with (cnt counts' (t_ref t)). rewrite Hcnt, (Uc t Ht Hne). unfold nb. case_decide as Hin.
    + rewrite (nb_less (blocked_at m) (blocked_at m') _ _ k); [lia|by apply (tk_keys _ Hok)| | | |done].
      * pose proof Hin as (x & Hx & Hxg)%list_elem_of_fmap. destruct (Hblocked x (Hgb x Hxg)) as (Hxa & _ & Hxk & _). by rewrite (task_inj _ _ _ Hok Ht Hxa Hx).
      * rewrite Hbk, elem_of_app. by left.
      * intros Hin'. apply (Hdis _ Hin). unfold blocked_at in Hin'. by rewrite Hqm, decide_True in Hin'.
    + rewrite (nb_same (blocked_at m) (blocked_at m')); [lia|]. intros c' Hc'. destruct (decide (lc_usage_queue c' = k)) as [->|Hk']; [|by rewrite Hother]. rewrite Hbk, elem_of_app. tauto.
  - intros t Ht. change (count_of m' t) with (cnt counts' (t_ref t)). rewrite Hcnt. specialize (Ul t Ht). case_decide; lia.
  - intros c' Hc' Hin. apply (Uf c' Hc'). destruct (decide (lc_usage_queue c' = k)) as [Hk|Hk']; [|by rewrite <-Hother]. rewrite Hk in *. rewrite Hbk, elem_of_app. by right.
  - change (filter (fun t => cnt counts' (t_ref t) = 0) (others task active) ≡ₚ running ++ unblocked'). rewrite Hunb, app_assoc, <-Ur. apply ready_grows; [|done| |done].
    + pose proof (tk_refs _ Hok) as Hnd. eapply sublist_NoDup; [exact Hnd|]. apply fmap_sublist, sublist_filter.
    + intros x Hx. destruct (Hblocked x (Hgb x Hx)) as (Hxa & Hne & _ & H1). split; [|done]. by apply list_elem_of_filter.
Qed.
Lemma unlock_all active task counts0 running : tasks_ok active -> task ∈ active -> forall cs2 m cs1, t_contexts task = cs1 ++ cs2 -> unlocking active task counts0 running m cs1 ->
  exists counts queues unblocked, unlock_contexts capability m task cs2 = Some (with_cells (with_unblocked_queue m unblocked) counts queues) /\
    unlocking active task counts0 running (with_cells (with_unblocked_queue m unblocked) counts queues) (t_contexts task).
Proof.
  intros Hok Htask. induction cs2 as [|c cs2 IH]; intros m cs1 Hcs Hl.
  - rewrite app_nil_r in Hcs. rewrite Hcs. exists (blocked_usage_counts m), (usage_queues m), (unblocked_task_queue m). assert (with_cells (with_unblocked_queue m (unblocked_task_queue m)) (blocked_usage_counts m) (usage_queues m) = m) as -> by (by destruct m). done.
  - destruct (unlock_one active task counts0 running m cs1 c Hok Htask) as (counts & q & unblocked & Hone & Hl1); [rewrite Hcs; apply elem_of_app; right; left| |done|].
    { pose proof (tk_keys _ Hok _ Htask) as Hnd. rewrite Hcs, fmap_app, fmap_cons in Hnd. apply NoDup_app in Hnd as (_ & Hnd & _). intros Hin. apply (Hnd _ Hin). left. }
    cbn [unlock_contexts]. rewrite Hone. cbn [mbind option_bind].
    destruct (IH (set_queue (with_counts (with_unblocked_queue m unblocked) counts) (lc_usage_queue c) q) (cs1 ++ [c])) as (counts' & queues' & unblocked' & Hall & Hl'); [by rewrite <-app_assoc|exact Hl1|].
    exists counts', queues', unblocked'. rewrite Hall. done.
Qed.

(** ** The cells *)

Record cells_ok active m : Prop := {
  co_tasks : tasks_ok active;
  co_queues : forall k, queue_inv capability (users active k) (fun r => cnt (blocked_usage_counts m) r <> 0) (queue_of capability m k);
  co_counts : forall t, t ∈ active -> count_of m t = nb m t;
}.
Definition ready_of m active : list (Task K) := filter (fun t => count_of m t = 0) active.
Lemma try_lock_cells active m task : cells_ok active m -> tasks_ok (active ++ [task]) -> count_of m task = 0 ->
  exists counts queues (b : bool), try_lock_usage_queues capability m task = Some (if b then Some task else None, with_cells m counts queues) /\
    cells_ok (active ++ [task]) (with_cells m counts queues) /\ ready_of (with_cells m counts queues) (active ++ [task]) = ready_of m active ++ (if b then [task] else []).
Proof.
  intros [Ht Hq Hc] Hok Hnew. set (pos := fun r => cnt (blocked_usage_counts m) r <> 0 \/ r = t_ref task).
  assert (forall t, t ∈ active -> t_ref t <> t_ref task) as Hne.
  { intros t Hin Heq. pose proof (tk_refs _ Hok) as Hn. rewrite fmap_app in Hn. apply NoDup_app in Hn as (_ & Hn & _). apply (Hn (t_ref t)); [apply list_elem_of_fmap; by exists t|rewrite Heq; left]. }
  destruct (lock_all active task pos Hok (t_contexts task) m [] 0 eq_refl) as (counts & queues & blocked & Hall & [Lq Lc Lp Ln _ Lb]).
  { split; [|done| |done|by right|done]. 
    - intros k. cbn [request ask]. rewrite app_nil_r. eapply inv_weaken; [|apply Hq]. intros h [Hh _]%elem_users [?|Heq]; [done|]. by apply Hne in Hh.
    - intros t Hin. unfold pos. split; [intros [?|Heq]; [done|]; by apply Hne in Hin|by left]. }
  unfold try_lock_usage_queues. rewrite Hall. cbn [mbind option_bind]. set (m1 := with_cells m counts queues) in *.
  set (counts' := if bool_decide (blocked = 0) then counts else <[t_ref task := blocked]> counts). exists counts', queues, (bool_decide (blocked = 0)).
  assert (forall r, cnt counts' r = if decide (r = t_ref task) then blocked else cnt counts r) as Hcnt.
  { intros r. unfold counts'. case_bool_decide as Hz; [case_decide as Hr; [subst r; by rewrite Hz|done]|apply cnt_set]. }
  assert (forall t, t ∈ active -> count_of (with_cells m counts' queues) t = count_of m1 t) as Hsame by (intros t Hin; simpl; rewrite Hcnt, decide_False by (by apply Hne); done).
  split; [unfold counts'; by case_bool_decide|]. split; [split; [done| |]|].
  - intros k. rewrite users_app. assert (users [task] k = ask (request (t_contexts task) k) task) as -> by (unfold users; simpl; by rewrite app_nil_r). eapply inv_weaken; [|apply Lq].
    intros h Hh Hpos. apply elem_of_app in Hh as [[Hh _]%elem_users|Hh]; [apply Lp; [done|]; by rewrite <-Hsame|]. right. unfold ask in Hh. destruct (request _ k); [|by apply elem_of_nil in Hh]. by apply list_elem_of_singleton in Hh as ->.
  - intros t Hin. apply elem_of_app in Hin as [Hin|Hin]; [rewrite Hsame by done; by rewrite Lc|]. apply list_elem_of_singleton in Hin as ->. simpl. rewrite Hcnt, decide_True by done. done.
  - unfold ready_of. rewrite filter_app. f_equal.
    + apply filter_ext_in. intros t Hin. rewrite Hsame by done. specialize (Lp t Hin). unfold pos in Lp. specialize (Hne t Hin). destruct (decide (count_of m1 t = 0)), (decide (count_of m t = 0)); tauto.
    + assert (cnt counts' (t_ref task) = blocked) as Hb by (by rewrite Hcnt, decide_True). rewrite filter_cons. simpl. case_bool_decide; [rewrite decide_True by congruence|rewrite decide_False by congruence]; done.
Qed.
Lemma tasks_others active task : tasks_ok active -> tasks_ok (others task active).
Proof.
  intros [H1 H2 H3 H4 H5]. pose proof (sublist_filter (fun t => t_ref t <> t_ref task) active) as Hs. assert (forall t, t ∈ others task active -> t ∈ active) as Hin by (intros t [_ Ht]%list_elem_of_filter; done).
  split; [eapply sublist_NoDup; [exact H1|]; by apply fmap_sublist|intros Hc; eapply sublist_NoDup; [by apply H2|]; by apply fmap_sublist|auto|auto|]. apply sublist_length in Hs. unfold others. lia.
Qed.
Lemma unlock_cells active m task running : cells_ok active m -> task ∈ active -> count_of m task = 0 -> ready_of m (others task active) ≡ₚ running ++ unblocked_task_queue m ->
  exists counts queues unblocked, let m' := with_cells (with_unblocked_queue m unblocked) counts queues in
    unlock_usage_queues capability m task = Some m' /\ cells_ok (others task active) m' /\ ready_of m' (others task active) ≡ₚ running ++ unblocked.
Proof.
  intros [Ht Hq Hc] Htask Hz Hr. destruct (unlock_all active task (blocked_usage_counts m) running Ht Htask (t_contexts task) m [] eq_refl) as (counts & queues & unblocked & Hall & [Uq Uc Ul Uf Ur]).
  { split; [|by intros t Hin _; apply Hc|done| |done].
    - intros k. rewrite decide_False by apply not_elem_of_nil. apply Hq.
    - intros c Hin. rewrite Hc in Hz by done. by eapply nb_zero. }
  exists counts, queues, unblocked. intros m'. split; [done|]. split; [|done]. split; [by apply tasks_others| |].
  - intros k. rewrite users_others. specialize (Uq k). assert (forall h, h ∈ without task (users active k) -> cnt counts (t_ref h.2) <> 0 -> cnt (blocked_usage_counts m) (t_ref h.2) <> 0) as Hmono.
    { intros h Hh Hnz. rewrite <-users_others in Hh. apply elem_users in Hh as [[Hne Hh]%list_elem_of_filter _]. specialize (Ul _ Hh). specialize (Uc _ Hh Hne). simpl in Ul, Uc. unfold nb, nb_in in Uc. lia. }
    apply (inv_weaken _ _ (fun r => cnt (blocked_usage_counts m) r <> 0)); [exact Hmono|]. case_decide as Hk; [done|]. assert (without task (users active k) = users active k) as ->; [|done].
    apply without_none. intros (x & Hx & Hin)%list_elem_of_fmap. apply elem_users in Hin as [Hxa Hxr]. assert (task = x.2) as -> by (by eapply task_inj). apply request_in in Hxr as (c & Hc' & <- & _). apply Hk. apply list_elem_of_fmap. by exists c.
  - intros t [Hne Hin]%list_elem_of_filter. by apply Uc.
Qed.
End theorems.
