(* ===== verification/UnifiedMachine.v ===== *)
(** * Runs of the unified scheduler

    The invariant of the state machine, kept by every operation, and what it means for
    any sequence of scheduling, running and finishing tasks. *)

From S2P Require Import Prelude.
From S2P Require Import AccountLocks.
From S2P Require Import UnifiedScheduler.
From S2P Require Import UnifiedQueues.
From S2P Require Import UnifiedTheorems.

Section machine.
Context {K : Type} `{Countable K} (capability : Capability).
Implicit Types (t task : Task K) (m : SchedulingStateMachine K) (active running : list (Task K)).
Abbreviation hash_of task := (lt_message_hash (t_transaction task)).

(** ** The invariant *)

(** [active] are the tasks that were accepted and not yet finished, in the order they
    came; [running] are those that the caller executes. *)
Record machine_inv m active running : Prop := {
  mi_cells : cells_ok capability active m;
  mi_ready : ready_of m active ≡ₚ running ++ unblocked_task_queue m;
  mi_active : active_task_count m = Z.of_nat (length active);
  mi_running : running_task_count m = Z.of_nat (length running);
  mi_max : Z.of_nat (length running) <= max_running_task_count m;
  mi_hashes : match max_unique_active_task_count m with
              | None => unique_active_task_hashes m = ∅
              | Some max => NoDup (lt_message_hash ∘ t_transaction <$> active) /\ unique_active_task_hashes m = list_to_set (lt_message_hash ∘ t_transaction <$> active) /\ Z.of_nat (length active) <= Z.max 0 max
              end;
  mi_counts : 0 <= handled_task_count m /\ 0 <= dropped_task_count m /\ total_task_count m = handled_task_count m + dropped_task_count m + Z.of_nat (length active);
  mi_unblocked : 0 <= unblocked_task_count m <= 2 * handled_task_count m + Z.of_nat (length active) + Z.of_nat (length running);
  mi_bound : 2 * total_task_count m <= u32_max;
}.
(** A task that may be given to the machine: its allocation is new, and so is its id where
    it is the priority; no address twice. *)
Definition task_fresh m active task : Prop :=
  (t_ref task ∉ t_ref <$> active) /\ cnt (blocked_usage_counts m) (t_ref task) = 0 /\ (capability = PriorityQueueing -> (t_id task ∉ t_id <$> active)) /\
  NoDup (lc_usage_queue <$> t_contexts task) /\ Z.of_nat (length (t_contexts task)) <= u32_max.
Lemma tasks_add m active running task : machine_inv m active running -> task_fresh m active task -> 2 * (total_task_count m + 1) <= u32_max -> tasks_ok capability (active ++ [task]).
Proof.
  intros Hi (Hr & _ & Hid & Hk & Hl) Hb. destruct (co_tasks _ _ _ (mi_cells _ _ _ Hi)) as [T1 T2 T3 T4 T5].
  assert (forall t, t ∈ active ++ [task] -> t ∈ active \/ t = task) as Hin by (intros t Ht; apply elem_of_app in Ht as [|Ht]; [by left|right; by apply list_elem_of_singleton in Ht]). split.
  - rewrite fmap_app. apply NoDup_app. split; [done|]. split; [|apply NoDup_singleton]. intros x Hx Hx'. apply list_elem_of_singleton in Hx'. by subst.
  - intros Hc. rewrite fmap_app. apply NoDup_app. split; [by apply T2|]. split; [|apply NoDup_singleton]. intros x Hx Hx'. apply list_elem_of_singleton in Hx'. subst. by apply Hid.
  - intros t [Ht| ->]%Hin; auto.
  - intros t [Ht| ->]%Hin; auto.
  - rewrite length_app. simpl. destruct (mi_counts _ _ _ Hi) as (? & ? & ?). lia.
Qed.

(** The invariant without the counters, which the operations change one by one. *)
Lemma ready_split m active running : machine_inv m active running -> Z.of_nat (length running) + Z.of_nat (length (unblocked_task_queue m)) <= Z.of_nat (length active).
Proof.
  intros Hi. pose proof (mi_ready _ _ _ Hi) as Hp. apply Permutation_length in Hp. rewrite length_app in Hp. unfold ready_of in Hp. pose proof (length_filter (fun t => cnt (blocked_usage_counts m) (t_ref t) = 0) active). lia.
Qed.

Lemma cells_same active m m' : blocked_usage_counts m' = blocked_usage_counts m -> usage_queues m' = usage_queues m -> cells_ok capability active m -> cells_ok capability active m'.
Proof.
  intros Hc Hq [C1 C2 C3]. assert (forall k, queue_of capability m' k = queue_of capability m k) as Hqq by (intros k; unfold queue_of; by rewrite Hq).
  split; [done|intros k; rewrite Hc, Hqq; apply C2|]. intros t Ht. rewrite Hc, C3 by done. unfold nb, nb_in, blocked_at. f_equal. f_equal. apply filter_ext_in. intros c _. by rewrite Hqq.
Qed.

(** ** Scheduling a task *)

Definition is_dropped m task : bool :=
  match max_unique_active_task_count m with
  | None => false
  | Some max => bool_decide (max <= Z.of_nat (size (unique_active_task_hashes m))) || bool_decide (hash_of task ∈ unique_active_task_hashes m)
  end.
Lemma schedule_dropped m active running task force : machine_inv m active running -> 2 * (total_task_count m + 1) <= u32_max -> is_dropped m task = true ->
  exists m', schedule_or_buffer_task capability m task force = Some (None, m') /\ machine_inv m' active running /\ dropped_task_count m' = dropped_task_count m + 1 /\
    max_running_task_count m' = max_running_task_count m.
Proof.
  intros Hi Hb Hd. pose proof Hi as [M1 M2 M3 M4 M5 M6 (M7 & M8 & M9) M10 M11]. unfold schedule_or_buffer_task. rewrite counter_up by lia. cbn [mbind option_bind]. unfold drop_check, is_dropped in *. cbn [max_unique_active_task_count with_total unique_active_task_hashes].
  destruct (max_unique_active_task_count m) as [max|] eqn:Em; [|done]. rewrite Hd. cbn [dropped_task_count with_total]. rewrite counter_up by lia. cbn [mbind option_bind].
  eexists. split; [done|]. split; [|done]. split; simpl; try done; try lia; [by apply (cells_same active m)|by rewrite Em].
Qed.
Definition new_hashes m task : gset Z := match max_unique_active_task_count m with None => unique_active_task_hashes m | Some _ => {[hash_of task]} ∪ unique_active_task_hashes m end.
Lemma drop_check_accepted m total task : is_dropped m task = false -> drop_check (with_total m total) task = Some (false, with_hashes (with_total m total) (new_hashes m task)).
Proof.
  unfold is_dropped, drop_check, new_hashes. cbn [max_unique_active_task_count with_total unique_active_task_hashes]. destruct (max_unique_active_task_count m) eqn:Em; [intros ->; done|]. intros _. by f_equal.
Qed.
Lemma hashes_add m active task : is_dropped m task = false ->
  (match max_unique_active_task_count m with
   | None => unique_active_task_hashes m = ∅
   | Some max => NoDup (lt_message_hash ∘ t_transaction <$> active) /\ unique_active_task_hashes m = list_to_set (lt_message_hash ∘ t_transaction <$> active) /\ Z.of_nat (length active) <= Z.max 0 max
   end) ->
  match max_unique_active_task_count m with
  | None => new_hashes m task = ∅
  | Some max => NoDup (lt_message_hash ∘ t_transaction <$> active ++ [task]) /\ new_hashes m task = list_to_set (lt_message_hash ∘ t_transaction <$> active ++ [task]) /\ Z.of_nat (length (active ++ [task])) <= Z.max 0 max
  end.
Proof.
  unfold is_dropped, new_hashes. destruct (max_unique_active_task_count m) as [max|]; [|done]. intros Hd (Hnd & Heq & Hlen). rewrite Heq in *. apply orb_false_iff in Hd as [Hd1 Hd2]. apply bool_decide_eq_false in Hd1, Hd2. rewrite elem_of_list_to_set in Hd2. rewrite fmap_app. split; [|split].
  - apply NoDup_app. split; [done|]. split; [|apply NoDup_singleton]. intros x Hx Hx'. apply list_elem_of_singleton in Hx'. by subst.
  - rewrite list_to_set_app_L. simpl. set_solver.
  - rewrite size_list_to_set, length_fmap in Hd1 by done. rewrite length_app. simpl. lia.
Qed.
Lemma schedule_accepted m active running task force : machine_inv m active running -> task_fresh m active task -> 2 * (total_task_count m + 1) <= u32_max -> is_dropped m task = false ->
  exists (b : bool) m', let r := if b && negb force && is_task_runnable m then Some task else None in
    schedule_or_buffer_task capability m task force = Some (r, m') /\ machine_inv m' (active ++ [task]) (option_list r ++ running) /\
    dropped_task_count m' = dropped_task_count m /\ max_running_task_count m' = max_running_task_count m /\ (b = true <-> nb capability m' task = 0).
Proof.
  intros Hi Hf Hb Hd. pose proof (tasks_add _ _ _ _ Hi Hf Hb) as Hok. pose proof (ready_split _ _ _ Hi) as Hsp. pose proof Hi as [M1 M2 M3 M4 M5 M6 (M7 & M8 & M9) M10 M11]. pose proof (hashes_add m active task Hd M6) as Hh.
  set (m1 := with_peak (with_active (with_hashes (with_total m (total_task_count m + 1)) (new_hashes m task)) (active_task_count m + 1)) (Z.max (peak_active_task_count m) (active_task_count m + 1))).
  destruct (try_lock_cells capability active m1 task) as (counts & queues & b & Hl & Hc & Hr); [by apply (cells_same active m)|done|apply Hf|]. set (m2 := with_cells m1 counts queues) in *.
  assert (ready_of m2 (active ++ [task]) ≡ₚ (running ++ unblocked_task_queue m) ++ (if b then [task] else [])) as Hready by (rewrite Hr; by rewrite <-M2).
  assert (b = true <-> nb capability m2 task = 0) as Hbz.
  { rewrite <-(co_counts _ _ _ Hc) by (apply elem_of_app; right; left). assert (task ∈ ready_of m2 (active ++ [task]) <-> cnt (blocked_usage_counts m2) (t_ref task) = 0) as <- by (unfold ready_of; rewrite list_elem_of_filter, elem_of_app, list_elem_of_singleton; tauto).
    rewrite Hr, elem_of_app. assert (task ∉ ready_of m1 active) as Hn by (intros [_ Hin]%list_elem_of_filter; apply (proj1 Hf); apply list_elem_of_fmap; by exists task). destruct b; [split; [right; left|done]|]. split; [done|]. intros [|Hin]; [done|by apply elem_of_nil in Hin]. }
  assert (schedule_or_buffer_task capability m task force = match (if b then Some task else None) with
    | None => Some (None, m2)
    | Some task => if negb (is_task_runnable m) || force then count ← counter_increment (unblocked_task_count m); Some (None, with_unblocked_queue (with_unblocked_count m2 count) (unblocked_task_queue m ++ [task]))
                   else running ← counter_increment (running_task_count m); Some (Some task, with_running m2 running) end) as Hs.
  { unfold schedule_or_buffer_task. rewrite counter_up by lia. cbn [mbind option_bind]. rewrite drop_check_accepted by done. cbn [mbind option_bind]. cbn [active_task_count with_hashes with_total]. rewrite counter_up by lia. cbn [mbind option_bind].
    change (peak_active_task_count (with_hashes (with_total m (total_task_count m + 1)) (new_hashes m task))) with (peak_active_task_count m). fold m1. rewrite Hl. cbn [mbind option_bind]. by destruct b. }
  exists b. rewrite Hs. destruct b; cbn [andb]; [destruct (is_task_runnable m) eqn:Er, force; cbn [negb orb andb]|].
  - rewrite counter_up by lia. cbn [mbind option_bind]. eexists. split; [done|]. split; [|done]. split; simpl; try done; try (rewrite ?length_app; simpl; lia); [by apply (cells_same _ m2)|by rewrite app_assoc].
  - apply bool_decide_eq_true in Er. rewrite counter_up by lia. cbn [mbind option_bind]. eexists. split; [done|]. split; [|done]. split; simpl; try done; try (rewrite ?length_app; simpl; lia); [by apply (cells_same _ m2)|rewrite Hready; rewrite Permutation_app_comm; done].
  - rewrite counter_up by lia. cbn [mbind option_bind]. eexists. split; [done|]. split; [|done]. split; simpl; try done; try (rewrite ?length_app; simpl; lia); [by apply (cells_same _ m2)|by rewrite app_assoc].
  - rewrite counter_up by lia. cbn [mbind option_bind]. eexists. split; [done|]. split; [|done]. split; simpl; try done; try (rewrite ?length_app; simpl; lia); [by apply (cells_same _ m2)|by rewrite app_assoc].
  - eexists. split; [done|]. split; [|done]. rewrite app_nil_r in Hready. split; simpl; try done; try (rewrite ?length_app; simpl; lia).
Qed.

(** ** Running and finishing tasks *)

Lemma next_spec m active running : machine_inv m active running ->
  exists m', let r := if is_task_runnable m then head (unblocked_task_queue m) else None in
    schedule_next_unblocked_task m = Some (r, m') /\ machine_inv m' active (option_list r ++ running) /\
    dropped_task_count m' = dropped_task_count m /\ max_running_task_count m' = max_running_task_count m /\ total_task_count m' = total_task_count m.
Proof.
  intros Hi. pose proof (ready_split _ _ _ Hi) as Hsp. pose proof Hi as [M1 M2 M3 M4 M5 M6 (M7 & M8 & M9) M10 M11]. unfold schedule_next_unblocked_task. destruct (is_task_runnable m) eqn:Er; cbn [negb]; [|by exists m].
  apply bool_decide_eq_true in Er. destruct (unblocked_task_queue m) as [|t rest] eqn:Eu; [by exists m|]. cbn [length] in *. rewrite counter_up by lia. cbn [mbind option_bind]. rewrite counter_up by lia. cbn [mbind option_bind head].
  eexists. split; [done|]. split; [|done]. split; simpl; try done; try lia; [by apply (cells_same _ m)|]. rewrite Permutation_middle, <-Eu in M2 || rewrite <-Permutation_middle in M2. exact M2.
Qed.
Lemma others_length active t : NoDup (t_ref <$> active) -> t ∈ active -> (S (length (others t active)) = length active)%nat.
Proof.
  intros Hnd Hin. apply list_elem_of_split in Hin as (l1 & l2 & ->). rewrite fmap_app, fmap_cons in Hnd. apply NoDup_app in Hnd as (_ & H1 & H2). apply NoDup_cons in H2 as [H2 _].
  assert (forall l, t_ref t ∉ t_ref <$> l -> others t l = l) as Hn.
  { intros l Hl. unfold others. induction l as [|x l IH]; [done|]. rewrite fmap_cons, not_elem_of_cons in Hl. destruct Hl as [Hx Hl]. rewrite filter_cons, decide_True by done. by rewrite IH. }
  unfold others. rewrite filter_app, filter_cons, decide_False by (by intros Hx). fold (others t l1) (others t l2). rewrite !Hn; [|done|intros Hx; apply (H1 _ Hx); left]. rewrite !length_app. simpl. lia.
Qed.
Lemma hashes_remove active task (hashes : gset Z) : NoDup (lt_message_hash ∘ t_transaction <$> active) -> NoDup (t_ref <$> active) -> task ∈ active ->
  hashes = list_to_set (lt_message_hash ∘ t_transaction <$> active) -> hashes ∖ {[hash_of task]} = list_to_set (lt_message_hash ∘ t_transaction <$> others task active).
Proof.
  intros Hnd Hrefs Hin ->. apply set_eq. intros x. rewrite elem_of_difference, !elem_of_list_to_set, elem_of_singleton, !list_elem_of_fmap. split.
  - intros [(t & -> & Ht) Hne]. exists t. split; [done|]. apply list_elem_of_filter. split; [|done]. intros Heq. apply Hne. by rewrite (fmap_inj_in _ _ _ _ Hrefs Ht Hin Heq).
  - intros (t & -> & [Hne Ht]%list_elem_of_filter). split; [by exists t|]. intros Heq. apply Hne. by rewrite (fmap_inj_in _ _ _ _ Hnd Ht Hin Heq).
Qed.
Lemma ready_others m active task running : NoDup (t_ref <$> active) -> ready_of m active ≡ₚ task :: running -> ready_of m (others task active) ≡ₚ running.
Proof.
  intros Hnd Hp. assert (ready_of m (others task active) = filter (fun t => t_ref t <> t_ref task) (ready_of m active)) as ->.
  { unfold ready_of, others. rewrite !list_filter_filter. apply filter_ext_in. intros t _. tauto. }
  rewrite Hp, filter_cons, decide_False by (by intros Hx). assert (NoDup (t_ref <$> task :: running)) as Hnd'.
  { rewrite <-Hp. eapply sublist_NoDup; [exact Hnd|]. apply fmap_sublist, sublist_filter. }
  rewrite fmap_cons in Hnd'. apply NoDup_cons in Hnd' as [Hn _]. clear Hp. induction running as [|x l IH]; [done|]. rewrite fmap_cons, not_elem_of_cons in Hn. destruct Hn as [Hx Hn]. rewrite filter_cons, decide_True by done. by rewrite IH.
Qed.
Lemma deschedule_spec m active running running' task : machine_inv m active running -> running ≡ₚ task :: running' ->
  exists m', deschedule_task capability m task = Some m' /\ machine_inv m' (others task active) running' /\
    dropped_task_count m' = dropped_task_count m /\ max_running_task_count m' = max_running_task_count m /\ total_task_count m' = total_task_count m.
Proof.
  intros Hi Hp. pose proof (ready_split _ _ _ Hi) as Hsp. pose proof Hi as [M1 M2 M3 M4 M5 M6 (M7 & M8 & M9) M10 M11]. pose proof (tk_refs _ _ (co_tasks _ _ _ M1)) as Hnd.
  assert (task ∈ ready_of m active) as Hin by (rewrite M2, Hp; left). apply list_elem_of_filter in Hin as [Hz Hin]. pose proof (others_length _ _ Hnd Hin) as Hlen. pose proof (Permutation_length Hp) as Hlp. cbn [length] in Hlp.
  set (hashes := match max_unique_active_task_count m with None => unique_active_task_hashes m | Some _ => unique_active_task_hashes m ∖ {[hash_of task]} end).
  set (m1 := with_handled (with_active (with_hashes (with_running m (running_task_count m - 1)) hashes) (active_task_count m - 1)) (handled_task_count m + 1)).
  destruct (unlock_cells capability active m1 task running') as (counts & queues & unblocked & Hu & Hc & Hr).
  { by apply (cells_same _ m). }
  { done. }
  { done. }
  { apply ready_others; [done|]. change (ready_of m1 active) with (ready_of m active). rewrite M2, Hp. done. }
  set (m2 := with_cells (with_unblocked_queue m1 unblocked) counts queues) in *. exists m2. split; [|split; [|done]].
  - unfold deschedule_task. rewrite counter_down by lia. cbn [mbind option_bind max_unique_active_task_count with_running unique_active_task_hashes].
    assert (match max_unique_active_task_count m with None => Some (with_running m (running_task_count m - 1)) | Some _ => rust_assert (bool_decide (hash_of task ∈ unique_active_task_hashes m)) ;; Some (with_hashes (with_running m (running_task_count m - 1)) (unique_active_task_hashes m ∖ {[hash_of task]})) end
      = Some (with_hashes (with_running m (running_task_count m - 1)) hashes)) as ->.
    { unfold hashes. destruct (max_unique_active_task_count m) as [max|] eqn:Em; [|by destruct m]. destruct M6 as (_ & -> & _). rewrite bool_decide_true; [done|]. apply elem_of_list_to_set, list_elem_of_fmap. by exists task. }
    cbn [mbind option_bind active_task_count with_hashes with_running]. rewrite counter_down by lia. cbn [mbind option_bind handled_task_count with_hashes with_running]. rewrite counter_up by lia. done.
  - pose proof (Permutation_length Hr) as Hlr. rewrite length_app in Hlr. pose proof (length_filter (fun t => cnt (blocked_usage_counts m2) (t_ref t) = 0) (others task active)) as Hlf. unfold ready_of in Hlr. split; simpl; try done; try lia.
    + unfold hashes. destruct (max_unique_active_task_count m) as [max|]; [|done]. destruct M6 as (N1 & N2 & N3). split; [eapply sublist_NoDup; [exact N1|]; apply fmap_sublist, sublist_filter|]. split; [by apply hashes_remove|lia].
Qed.

(** ** What the invariant means *)

(** Two tasks conflict if they use an address that one of them writes. *)
Definition conflict t t' : Prop := exists k u u', request (t_contexts t) k = Some u /\ request (t_contexts t') k = Some u' /\ (u = RequestWritable \/ u' = RequestWritable).

Lemma ready_holds m active t k u : cells_ok capability active m -> t ∈ ready_of m active -> request (t_contexts t) k = Some u -> ((u, t) ∈ users active k) /\ ((u, t) ∉ blocked_of (queue_of capability m k)).
Proof.
  intros [C1 C2 C3] [Hz Hin]%list_elem_of_filter Hr. split; [by apply elem_users|]. rewrite C3 in Hz by done. pose proof Hr as (c & Hc & <- & _)%request_in. intros Hb. apply (nb_zero _ _ _ c Hz Hc). by apply (elem_refs (u, t)).
Qed.
Lemma ready_compatible m active t t' : cells_ok capability active m -> t ∈ ready_of m active -> t' ∈ ready_of m active -> t_ref t <> t_ref t' -> ~ conflict t t'.
Proof.
  intros Hc Ht Ht' Hne (k & u & u' & Hu & Hu' & Hw). destruct (ready_holds _ _ _ _ _ Hc Ht Hu) as [H1 H2], (ready_holds _ _ _ _ _ Hc Ht' Hu') as [H3 H4].
  destruct (inv_shared _ _ _ _ _ _ (co_queues _ _ _ Hc k) H1 H3 H2 H4 Hne) as [Hr Hr']. unfold is_read in *. simpl in *. destruct Hw; congruence.
Qed.
Lemma suffix_later {A} (l h b l1 l2 l3 : list A) x y : NoDup l -> l = h ++ b -> l = l1 ++ x :: l2 ++ y :: l3 -> x ∈ b -> y ∈ b.
Proof.
  intros Hnd Hl Hs Hx. apply list_elem_of_lookup in Hx as [i Hi]. assert (l !! (length h + i)%nat = Some x) as H1 by (rewrite Hl, lookup_app_r by lia; by replace (length h + i - length h)%nat with i by lia).
  assert (l !! length l1 = Some x) as H2 by (rewrite Hs; by apply list_lookup_middle). assert (length h + i = length l1)%nat as Heq by (by eapply NoDup_lookup).
  assert (l !! (length l1 + S (length l2))%nat = Some y) as H3. { rewrite Hs, lookup_app_r by lia. replace (length l1 + S (length l2) - length l1)%nat with (S (length l2)) by lia. simpl. by apply list_lookup_middle. }
  rewrite Hl, lookup_app_r in H3 by lia. by eapply list_elem_of_lookup_2.
Qed.
(** First in, first out: a task waits for all earlier ones it conflicts with. *)
Lemma ready_in_order m l1 l2 l3 t t' : capability = FifoQueueing -> cells_ok capability (l1 ++ t :: l2 ++ t' :: l3) m -> conflict t t' -> t' ∉ ready_of m (l1 ++ t :: l2 ++ t' :: l3).
Proof.
  set (active := l1 ++ t :: l2 ++ t' :: l3). intros Hcap Hc (k & u & u' & Hu & Hu' & Hw) Hready. destruct (ready_holds _ _ _ _ _ Hc Hready Hu') as [H3 H4]. pose proof (co_queues _ _ _ Hc k) as Hq.
  assert (users active k = users l1 k ++ (u, t) :: users l2 k ++ (u', t') :: users l3 k) as Hus.
  { unfold active. rewrite users_app. change (users (t :: l2 ++ t' :: l3) k) with (ask (request (t_contexts t) k) t ++ users (l2 ++ t' :: l3) k). rewrite Hu, users_app. change (users (t' :: l3) k) with (ask (request (t_contexts t') k) t' ++ users l3 k). by rewrite Hu'. }
  destruct (tasks_users _ _ k (co_tasks _ _ _ Hc)) as [Hrefs _]. assert (NoDup (users active k)) as Hnd by (by eapply NoDup_fmap_1).
  assert ((u, t) ∉ blocked_of (queue_of capability m k)) as H2.
  { intros Hb. rewrite Hcap in Hq. apply inv_fifo in Hq as [h Hh]. apply H4. rewrite Hcap in *. by eapply suffix_later. }
  assert ((u, t) ∈ users active k) as H1 by (rewrite Hus, elem_of_app; right; left).
  assert (t_ref t <> t_ref t') as Hne.
  { intros Heq. rewrite Hus in Hrefs. rewrite refs_app in Hrefs. apply NoDup_app in Hrefs as (_ & _ & Hrefs). change (refs ((u, t) :: users l2 k ++ (u', t') :: users l3 k)) with (t_ref t :: refs (users l2 k ++ (u', t') :: users l3 k)) in Hrefs.
    apply NoDup_cons in Hrefs as [Hn _]. apply Hn. rewrite Heq. apply (elem_refs (u', t')), elem_of_app. right. left. }
  destruct (inv_shared _ _ _ _ _ _ Hq H1 H3 H2 H4 Hne) as [Hr Hr']. unfold is_read in *. simpl in *. destruct Hw; congruence.
Qed.
Lemma blocked_somewhere m active t : cells_ok capability active m -> t ∈ active -> t ∉ ready_of m active -> exists k u, (u, t) ∈ blocked_of (queue_of capability m k).
Proof.
  intros [C1 C2 C3] Hin Hn. assert (nb capability m t <> 0) as Hz by (rewrite <-C3 by done; intros Hz; apply Hn; by apply list_elem_of_filter). unfold nb, nb_in in Hz.
  destruct (filter (fun c => t_ref t ∈ blocked_at capability m (lc_usage_queue c)) (t_contexts t)) as [|c cs] eqn:Ef; [done|].
  assert (c ∈ filter (fun c => t_ref t ∈ blocked_at capability m (lc_usage_queue c)) (t_contexts t)) as Hc by (rewrite Ef; left). apply list_elem_of_filter in Hc as [Hb Hc].
  exists (lc_usage_queue c), (lc_requested_usage c). destruct (tasks_users _ _ (lc_usage_queue c) C1) as [Hrefs _].
  apply (inv_blocked_ref _ _ _ _ _ (C2 _) Hrefs); [|done]. apply elem_users. split; [done|]. apply request_elem; [by apply C1|done].
Qed.
(** By priority: what a task waits for either can run or goes first. *)
Lemma waits_for_ready m active t k u h : capability = PriorityQueueing -> cells_ok capability active m -> (u, t) ∈ blocked_of (queue_of capability m k) ->
  h ∈ users active k -> h ∉ blocked_of (queue_of capability m k) -> h.2 ∈ ready_of m active \/ t_id h.2 < t_id t.
Proof.
  intros Hcap [C1 C2 C3] Hb Hh Hnb. destruct (decide (cnt (blocked_usage_counts m) (t_ref h.2) = 0)) as [Hz|Hz]; [left; apply list_elem_of_filter; split; [done|]; by apply elem_users in Hh as [? _]|].
  right. specialize (C2 k). rewrite Hcap in *. by apply (inv_prio _ _ _ h (u, t) C2).
Qed.
Lemma least_id active : active <> [] -> exists t, t ∈ active /\ forall t', t' ∈ active -> t_id t <= t_id t'.
Proof.
  induction active as [|t active IH]; [done|]. intros _. destruct active as [|t2 active]; [exists t; split; [left|]; intros t' Ht'; apply list_elem_of_singleton in Ht' as ->; lia|].
  destruct IH as (t0 & Hin & Hmin); [done|]. destruct (decide (t_id t <= t_id t0)) as [Hle|Hgt].
  - exists t. split; [left|]. intros t' Ht'. apply elem_of_cons in Ht' as [->|Ht']; [lia|]. specialize (Hmin t' Ht'). lia.
  - exists t0. split; [by right|]. intros t' Ht'. apply elem_of_cons in Ht' as [->|Ht']; [lia|by apply Hmin].
Qed.
(** The machine does not get stuck. *)
Lemma some_ready m active : cells_ok capability active m -> active <> [] -> ready_of m active <> [].
Proof.
  intros Hc Hne Hz. assert (forall t, t ∉ ready_of m active) as Hnone by (intros t; rewrite Hz; apply not_elem_of_nil). pose proof Hc as [C1 C2 C3]. destruct capability eqn:Ecap.
  - destruct active as [|t active]; [done|]. destruct (blocked_somewhere m (t :: active) t) as (k & u & Hb); [by rewrite Ecap|left|apply Hnone|]. rewrite Ecap in Hb. destruct (tasks_users _ _ k C1) as [Hrefs _].
    pose proof (inv_blocked _ _ _ _ _ (C2 k) Hb) as Hu. apply elem_users in Hu as [_ Hr]. destruct (inv_fifo _ _ _ (C2 k)) as [h Hh]. destruct (inv_held _ _ _ _ _ (C2 k) Hrefs Hb) as (x & Hx & Hxb).
    change (users (t :: active) k) with (ask (request (t_contexts t) k) t ++ users active k) in Hh, Hx, Hrefs. simpl in Hr. rewrite Hr in Hh, Hx, Hrefs. cbn [ask app] in Hh, Hx, Hrefs.
    destruct h as [|y h]; [rewrite Hh in Hx; done|]. injection Hh as <- Hh. change (NoDup (t_ref t :: refs (users active k))) in Hrefs. apply NoDup_cons in Hrefs as [Hn _]. apply Hn. rewrite Hh, refs_app, elem_of_app. right. by apply (elem_refs (u, t)).
  - destruct (least_id active Hne) as (t & Hin & Hmin). destruct (blocked_somewhere m active t) as (k & u & Hb); [by rewrite Ecap|done|apply Hnone|]. rewrite Ecap in Hb. destruct (tasks_users _ _ k C1) as [Hrefs _].
    destruct (inv_held _ _ _ _ _ (C2 k) Hrefs Hb) as (x & Hx & Hxb). destruct (waits_for_ready m active t k u x) as [Hr|Hlt]; try (rewrite ?Ecap; done); [by apply Hnone in Hr|]. apply elem_users in Hx as [Hx _]. specialize (Hmin _ Hx). lia.
Qed.

(** ** Starting over *)

Lemma idle_inv m running : machine_inv m [] running -> running = [] /\ unblocked_task_queue m = [] /\ unique_active_task_hashes m = ∅ /\ forall k, queue_of capability m k = queue_new capability.
Proof.
  intros [M1 M2 _ _ _ M6 _ _ _]. apply Permutation_nil_l in M2. symmetry in M2. apply app_nil in M2 as [-> Hu]. split; [done|]. split; [done|]. split; [destruct (max_unique_active_task_count m); [by destruct M6 as (_ & -> & _)|done]|].
  intros k. eapply inv_fresh, (co_queues _ _ _ M1 k).
Qed.
Lemma reinitialize_spec m running : machine_inv m [] running ->
  exists m', reinitialize m = Some m' /\ machine_inv m' [] [] /\ max_running_task_count m' = max_running_task_count m /\ total_task_count m' = 0.
Proof.
  intros Hi. destruct (idle_inv _ _ Hi) as (-> & Hu & Hh & _). pose proof Hi as [M1 M2 M3 M4 M5 M6 _ _ _]. unfold reinitialize, has_no_active_task, has_unblocked_task. rewrite M3, M4, Hu, Hh. rewrite !bool_decide_true by done. cbn.
  eexists. split; [done|]. split; [|done]. split; simpl; try done; [by apply (cells_same _ m)].
Qed.
Lemma clear_loop_spec n : forall m active count, length active = n -> machine_inv m active [] -> 0 < max_running_task_count m -> 0 <= count -> count + Z.of_nat n <= u32_max ->
  exists m', clear_loop capability (S n) m count = Some (count + Z.of_nat n, m') /\ machine_inv m' [] [] /\ max_running_task_count m' = max_running_task_count m.
Proof.
  induction n as [|n IH]; intros m active count Hlen Hi Hmax Hc Hb.
  - apply nil_length_inv in Hlen as ->. destruct (idle_inv _ _ Hi) as (_ & Hu & _). exists m. split; [|done]. cbn [clear_loop]. unfold schedule_next_unblocked_task. rewrite Hu. destruct (is_task_runnable m); cbn; f_equal; f_equal; lia.
  - destruct (next_spec m active [] Hi) as (m1 & Hn & Hi1 & _ & Hm1 & _). assert (is_task_runnable m = true) as Hr by (apply bool_decide_eq_true; rewrite (mi_running _ _ _ Hi); done). rewrite Hr in Hn, Hi1.
    destruct (unblocked_task_queue m) as [|t rest] eqn:Eu.
    + exfalso. apply (some_ready m active); [apply Hi|by destruct active|]. pose proof (mi_ready _ _ _ Hi) as Hp. rewrite Eu in Hp. by apply Permutation_nil_r in Hp.
    + cbn [head option_list app] in *. pose proof (mi_ready _ _ _ Hi1) as Hp1. assert (t ∈ ready_of m1 active) as Hin by (rewrite Hp1; left). apply list_elem_of_filter in Hin as [_ Hin].
      destruct (deschedule_spec m1 active [t] [] t Hi1) as (m2 & Hd & Hi2 & _ & Hm2 & _); [done|].
      pose proof (others_length _ _ (tk_refs _ _ (co_tasks _ _ _ (mi_cells _ _ _ Hi))) Hin) as Hl.
      destruct (IH m2 (others t active) (count + 1)) as (m3 & Hc3 & Hi3 & Hm3); [lia|done|lia|lia|lia|]. exists m3. split; [|split; [done|congruence]].
      remember (S n) as rounds. cbn [clear_loop]. rewrite Hn. cbn [mbind option_bind]. rewrite Hd. cbn [mbind option_bind]. rewrite counter_up by lia. cbn [mbind option_bind]. rewrite Hc3. f_equal. f_equal. lia.
Qed.
Lemma clear_spec m active : machine_inv m active [] -> 0 < max_running_task_count m ->
  exists m', clear_and_reinitialize capability m = Some (Z.of_nat (length active), m') /\ machine_inv m' [] [] /\ max_running_task_count m' = max_running_task_count m /\ total_task_count m' = 0.
Proof.
  intros Hi Hmax. pose proof (mi_counts _ _ _ Hi) as (? & ? & ?). pose proof (mi_bound _ _ _ Hi). destruct (clear_loop_spec (length active) m active 0 eq_refl Hi Hmax) as (m1 & Hc & Hi1 & Hm1); [lia|lia|].
  destruct (reinitialize_spec _ _ Hi1) as (m2 & Hr & Hi2 & Hm2 & Ht). exists m2. split; [|split; [done|split; [congruence|done]]]. unfold clear_and_reinitialize. rewrite (mi_active _ _ _ Hi), Nat2Z.id, Hc. cbn [mbind option_bind]. rewrite Hr. done.
Qed.

(** ** Runs *)

Record UniState := mkUni { us_machine : SchedulingStateMachine K; us_active : list (Task K); us_running : list (Task K) }.
(** A task is scheduled or buffered, the next unblocked task is asked for, the task that
    runs at a position is finished, and the machine is started over. *)
Inductive UniOp := USchedule task (force_buffering : bool) | UNext | UDone (i : nat) | UReinitialize | UClear.
Definition uni_step (s : UniState) (op : UniOp) : option UniState :=
  let m := us_machine s in
  match op with
  | USchedule task force =>
    '(r, m') ← schedule_or_buffer_task capability m task force;
    Some (mkUni m' (if bool_decide (dropped_task_count m' = dropped_task_count m) then us_active s ++ [task] else us_active s) (option_list r ++ us_running s))
  | UNext => '(r, m') ← schedule_next_unblocked_task m; Some (mkUni m' (us_active s) (option_list r ++ us_running s))
  | UDone i => task ← us_running s !! i; m' ← deschedule_task capability m task; Some (mkUni m' (others task (us_active s)) (delete i (us_running s)))
  | UReinitialize => m' ← reinitialize m; Some (mkUni m' (us_active s) (us_running s))
  | UClear => '(_, m') ← clear_and_reinitialize capability m; Some (mkUni m' [] [])
  end.
Fixpoint uni_run (s : UniState) (ops : list UniOp) : option UniState :=
  match ops with [] => Some s | op :: ops => s ← uni_step s op; uni_run s ops end.
Definition uni_valid (s : UniState) (op : UniOp) : Prop :=
  match op with
  | USchedule task _ => task_fresh (us_machine s) (us_active s) task /\ 2 * (total_task_count (us_machine s) + 1) <= u32_max
  | UNext => True
  | UDone i => (i < length (us_running s))%nat
  | UReinitialize => us_active s = []
  | UClear => us_running s = [] /\ 0 < max_running_task_count (us_machine s)
  end.
Fixpoint uni_valid_run (s : UniState) (ops : list UniOp) : Prop :=
  match ops with [] => True | op :: ops => uni_valid s op /\ forall s', uni_step s op = Some s' -> uni_valid_run s' ops end.
Definition uni_inv (s : UniState) : Prop := machine_inv (us_machine s) (us_active s) (us_running s).

Lemma uni_step_inv s op : uni_inv s -> uni_valid s op -> exists s', uni_step s op = Some s' /\ uni_inv s' /\ max_running_task_count (us_machine s') = max_running_task_count (us_machine s).
Proof.
  intros Hi Hv. destruct op as [task force| |i| |]; cbn [uni_step uni_valid] in *.
  - destruct Hv as [Hf Hb]. destruct (is_dropped (us_machine s) task) eqn:Ed.
    + destruct (schedule_dropped _ _ _ _ force Hi Hb Ed) as (m' & -> & Hi' & Hd & Hm). cbn [mbind option_bind]. eexists. split; [done|]. rewrite bool_decide_false by lia. done.
    + destruct (schedule_accepted _ _ _ _ force Hi Hf Hb Ed) as (b & m' & -> & Hi' & Hd & Hm & _). cbn [mbind option_bind]. eexists. split; [done|]. by rewrite bool_decide_true.
  - destruct (next_spec _ _ _ Hi) as (m' & -> & Hi' & _ & Hm & _). cbn [mbind option_bind]. by eexists.
  - apply lookup_lt_is_Some in Hv as [task Ht]. rewrite Ht. cbn [mbind option_bind]. destruct (deschedule_spec _ _ _ (delete i (us_running s)) task Hi) as (m' & -> & Hi' & _ & Hm & _); [by apply delete_Permutation|]. cbn [mbind option_bind]. by eexists.
  - unfold uni_inv in Hi. rewrite Hv in *. destruct (reinitialize_spec _ _ Hi) as (m' & -> & Hi' & Hm & _). destruct (idle_inv _ _ Hi) as [Hr _]. cbn [mbind option_bind]. eexists. split; [done|]. unfold uni_inv. simpl. by rewrite Hr.
  - destruct Hv as [Hr Hmax]. unfold uni_inv in Hi. rewrite Hr in Hi. destruct (clear_spec _ _ Hi Hmax) as (m' & -> & Hi' & Hm & _). cbn [mbind option_bind]. by eexists.
Qed.
Lemma uni_run_inv ops : forall s, uni_inv s -> uni_valid_run s ops -> exists s', uni_run s ops = Some s' /\ uni_inv s' /\ max_running_task_count (us_machine s') = max_running_task_count (us_machine s).
Proof.
  induction ops as [|op ops IH]; intros s Hi Hv; [by exists s|]. destruct Hv as [Hv Hvs]. destruct (uni_step_inv s op Hi Hv) as (s1 & Hs & Hi1 & Hm1). cbn [uni_run]. rewrite Hs. cbn [mbind option_bind].
  destruct (IH s1 Hi1 (Hvs s1 Hs)) as (s' & Hr & Hi' & Hm'). exists s'. split; [done|]. split; [done|congruence].
Qed.
Lemma new_inv max_running max_unique m : 0 <= default u32_max max_running -> machine_new max_running max_unique = Some m -> machine_inv m [] [] /\ max_running_task_count m = default u32_max max_running.
Proof.
  intros Hm. unfold machine_new. case_bool_decide; [|done]. intros [= <-]. split; [|done]. split; simpl; try done.
  - split; [split; simpl; try constructor; try (intros t Ht; by apply elem_of_nil in Ht); done| |intros t Ht; by apply elem_of_nil in Ht]. intros k. unfold queue_of. simpl. rewrite lookup_empty. apply inv_new.
  - destruct max_unique as [max|]; [|done]. split; [constructor|]. split; [done|]. simpl. lia.
Qed.

(** ** Properties *)

(** C39: However tasks are scheduled, buffered, run and finished, the state machine does not
    panic; of the tasks that run or may be run no two conflict; in first-in-first-out
    order a task is not run before an earlier one it conflicts with has finished; no
    more than the allowed number run; and when no task is active every usage queue is
    as when it was made. *)
Theorem unified_safe max_running max_unique m ops (Hmax : 0 <= default u32_max max_running) (Hm : machine_new max_running max_unique = Some m) (Hv : uni_valid_run (mkUni m [] []) ops) :
  exists s, uni_run (mkUni m [] []) ops = Some s /\
    (forall t t', t ∈ us_running s ++ unblocked_task_queue (us_machine s) -> t' ∈ us_running s ++ unblocked_task_queue (us_machine s) -> t_ref t <> t_ref t' -> ~ conflict t t') /\
    (capability = FifoQueueing -> forall l1 l2 l3 t t', us_active s = l1 ++ t :: l2 ++ t' :: l3 -> conflict t t' -> t' ∉ us_running s ++ unblocked_task_queue (us_machine s)) /\
    Z.of_nat (length (us_running s)) <= default u32_max max_running /\
    (us_active s = [] -> forall k, queue_of capability (us_machine s) k = queue_new capability).
Proof.
  destruct (new_inv _ _ _ Hmax Hm) as [Hi0 Hm0]. destruct (uni_run_inv ops (mkUni m [] []) Hi0 Hv) as (s & Hs & Hi & Hms). pose proof (mi_cells _ _ _ Hi) as Hc. pose proof (mi_ready _ _ _ Hi) as Hp. exists s. split; [done|]. repeat split.
  - intros t t'. rewrite <-Hp. by apply ready_compatible.
  - intros Hcap l1 l2 l3 t t' Ha Hconf. rewrite <-Hp. rewrite Ha in Hc |- *. by apply ready_in_order.
  - pose proof (mi_max _ _ _ Hi). simpl in Hms. lia.
  - intros Ha. unfold uni_inv in Hi. rewrite Ha in Hi. by apply idle_inv in Hi as (_ & _ & _ & Hq).
Qed.

(** C40: The state machine never gets stuck: while a task is active, one runs or can be
    run; with priorities, a task waits only for tasks that run or can be run or that
    have a higher priority; and when none runs, clearing gives back all active tasks
    and leaves every usage queue as when it was made. *)
Theorem unified_progress max_running max_unique m ops (Hmax : 0 < default u32_max max_running) (Hm : machine_new max_running max_unique = Some m) (Hv : uni_valid_run (mkUni m [] []) ops) :
  exists s, uni_run (mkUni m [] []) ops = Some s /\
    (us_active s <> [] -> us_running s <> [] \/ has_unblocked_task (us_machine s) = true) /\
    (capability = PriorityQueueing -> forall k u t h, (u, t) ∈ blocked_of (queue_of capability (us_machine s) k) -> h ∈ users (us_active s) k -> h ∉ blocked_of (queue_of capability (us_machine s) k) ->
      (h.2 ∈ us_running s ++ unblocked_task_queue (us_machine s)) \/ t_id h.2 < t_id t) /\
    (us_running s = [] -> exists m', clear_and_reinitialize capability (us_machine s) = Some (Z.of_nat (length (us_active s)), m') /\ forall k, queue_of capability m' k = queue_new capability).
Proof.
  destruct (new_inv _ _ _ (Z.lt_le_incl _ _ Hmax) Hm) as [Hi0 Hm0]. destruct (uni_run_inv ops (mkUni m [] []) Hi0 Hv) as (s & Hs & Hi & Hms). pose proof (mi_cells _ _ _ Hi) as Hc. pose proof (mi_ready _ _ _ Hi) as Hp. exists s. split; [done|]. split; [|split].
  - intros Ha. apply (some_ready _ _ Hc) in Ha. unfold has_unblocked_task. destruct (us_running s); [|by left]. right. destruct (unblocked_task_queue (us_machine s)); [|done]. by apply Permutation_nil_r in Hp.
  - intros Hcap k u t h Hb Hh Hnb. rewrite <-Hp. by eapply waits_for_ready.
  - intros Hr. unfold uni_inv in Hi. rewrite Hr in Hi. destruct (clear_spec _ _ Hi) as (m' & Hcl & Hi' & _); [simpl in Hms; lia|]. exists m'. split; [done|]. by apply idle_inv in Hi' as (_ & _ & _ & Hq).
Qed.
End machine.

(** ** An example *)

Module UnifiedExample.
Definition tx (keys : list Z) (writes : nat -> bool) (hash : Z) : LockTx Z := mkLockTx keys writes hash.
(** Task [a] writes account 1, [b] writes 1 and 2, [c] writes 2. *)
Definition a : Task Z := create_task 100 (tx [1] (fun _ => true) 11) 5.
Definition b : Task Z := create_task 200 (tx [1; 2] (fun _ => true) 12) 9.
Definition c : Task Z := create_task 300 (tx [2] (fun _ => true) 13) 3.
Ltac fresh_task := split; [repeat split; first [by apply (bool_decide_unpack _); vm_compute|discriminate|intros _; by apply (bool_decide_unpack _); vm_compute]|by vm_compute].
Ltac step_uni := cbn [uni_valid_run]; split; [first [fresh_task|exact I|cbn; lia]|]; let s := fresh "s" in let Hs := fresh "Hs" in intros s Hs; vm_compute in Hs; injection Hs as Hs; subst s.
(** First in, first out: [b] waits for [a] and [c] for [b]. *)
Definition fifo_ops : list (UniOp (K := Z)) := [USchedule a false; USchedule b false; USchedule c false; UDone 0; UNext].
(** By priority: [c] takes account 2 from [b], which waits for [a]. *)
Definition prio_ops : list (UniOp (K := Z)) := [USchedule a true; USchedule b false; USchedule c true].
End UnifiedExample.
Lemma unified_safe_witness :
  exists m s, machine_new (Some 4) (Some 10) = Some m /\ uni_run FifoQueueing (mkUni m [] []) UnifiedExample.fifo_ops = Some s /\ us_running s = [UnifiedExample.b] /\ Z.of_nat (length (us_running s)) <= 4.
Proof.
  destruct (machine_new (K := Z) (Some 4) (Some 10)) as [m|] eqn:Em; [|discriminate Em]. exists m.
  assert (uni_valid_run FifoQueueing (mkUni m [] []) UnifiedExample.fifo_ops) as Hv. { vm_compute in Em. injection Em as <-. unfold UnifiedExample.fifo_ops. repeat UnifiedExample.step_uni. exact I. }
  destruct (unified_safe FifoQueueing (Some 4) (Some 10) m UnifiedExample.fifo_ops ltac:(simpl; lia) Em Hv) as (s & Hs & _ & _ & Hlen & _). exists s. split; [reflexivity|]. split; [exact Hs|]. split; [|exact Hlen].
  vm_compute in Em. injection Em as <-. vm_compute in Hs. injection Hs as <-. reflexivity.
Defined.
Lemma unified_progress_witness :
  exists m s m', machine_new (Some 4) None = Some m /\ uni_run PriorityQueueing (mkUni m [] []) UnifiedExample.prio_ops = Some s /\
    unblocked_task_queue (us_machine s) = [UnifiedExample.a; UnifiedExample.c] /\ clear_and_reinitialize PriorityQueueing (us_machine s) = Some (3, m').
Proof.
  destruct (machine_new (K := Z) (Some 4) None) as [m|] eqn:Em; [|discriminate Em]. exists m.
  assert (uni_valid_run PriorityQueueing (mkUni m [] []) UnifiedExample.prio_ops) as Hv. { vm_compute in Em. injection Em as <-. unfold UnifiedExample.prio_ops. repeat UnifiedExample.step_uni. exact I. }
  destruct (unified_progress PriorityQueueing (Some 4) None m UnifiedExample.prio_ops ltac:(simpl; lia) Em Hv) as (s & Hs & _ & _ & Hclear). exists s.
  assert (us_running s = [] /\ length (us_active s) = 3%nat /\ unblocked_task_queue (us_machine s) = [UnifiedExample.a; UnifiedExample.c]) as (Hr & Hl & Hu). { vm_compute in Em. injection Em as <-. vm_compute in Hs. injection Hs as <-. repeat split. }
  destruct (Hclear Hr) as (m' & Hm' & _). exists m'. split; [reflexivity|]. split; [exact Hs|]. split; [exact Hu|]. rewrite Hl in Hm'. exact Hm'.
Defined.
