(* ===== verification/SigVerify.v ===== *)
(** * The signature verifier

    [core/src/bls_sigverify]: packets from other validators are deserialized and
    filtered, the signatures of votes and certificates are checked, what is valid goes
    to the consensus pool (and to rewards, repair and metrics), and who sent something
    invalid is banned.  Votes are checked together first, by one aggregate signature;
    if that fails, one by one.  The statistics are not modelled. *)

From S2P Require Import Prelude.
From S2P Require Import Messages.
From S2P Require Import EpochStakes.
From S2P Require Import CertBuilder.
From S2P Require Import Finalization.
From S2P Require Import Migration.
From S2P Require Import ConsensusPool.
From S2P Require Import CertVerify.
From S2P Require Import BankForks.
From S2P Require Import Voting.
From S2P Require Import Timers.
From S2P Require Import Banlist.
From S2P Require Import Rewards.
From S2P Require Import EventHandler.

(** ** External operations

    The BLS operations on votes that are not yet aggregated, and the order in which a
    [HashMap] keyed by votes is visited. *)

Class BatchOps `{BlsVerify} := {
  PreparedHashedMessage : Type;
  prepared_new : list Z -> PreparedHashedMessage;
  signature_par_aggregate : list BLSSignature -> result BlsError SignatureProjective;
  key_verify_signature : Z -> BLSSignature -> list Z -> result BlsError unit;
  key_verify_prepared : Z -> BLSSignature -> PreparedHashedMessage -> result BlsError unit;
  aggregate_verify_prepared : AggregatePubkey -> SignatureProjective -> PreparedHashedMessage -> result BlsError unit;
  par_verify_distinct_prepared :
    list AggregatePubkey -> SignatureProjective -> list PreparedHashedMessage -> result BlsError unit;
  hash_votes_iter : list (Vote * list Z) -> list (Vote * list Z);
}.

(** A prepared message is only a faster form of the message.  As for certificates, a
    key whose signature, alone or in an aggregate, verifies has signed. *)
Class BatchLaws `{BatchOps, !BlsVerifyLaws} := {
  prepared_eq pk s m : key_verify_prepared pk s (prepared_new m) = key_verify_signature pk s m;
  key_verify_sound pk s m : key_verify_signature pk s m = Ok tt -> signed pk m;
  key_verify_complete pk m : signed pk m -> key_verify_signature pk (sig_of pk m) m = Ok tt;
  aggregate_prepared_sound pks agg s m : pubkey_aggregate pks = Ok agg ->
    aggregate_verify_prepared agg s (prepared_new m) = Ok tt -> Forall (fun pk => signed pk m) pks;
  distinct_prepared_sound pkss aggs s ms : Forall2 (fun pks agg => pubkey_aggregate pks = Ok agg) pkss aggs ->
    length pkss = length ms -> par_verify_distinct_prepared aggs s (prepared_new <$> ms) = Ok tt ->
    Forall2 (fun pks m => Forall (fun pk => signed pk m) pks) pkss ms;
  hash_votes_perm l : hash_votes_iter l ≡ₚ l;
}.

(** ** Channels and errors *)

Inductive SigVerifyVoteError :=
  | VotePoolChannelDisconnected
  | RewardsChannelDisconnected
  | RepairChannelDisconnected
  | MetricsChannelDisconnected.
Inductive SigVerifyCertError := CertPoolChannelDisconnected.
Inductive SigVerifyError :=
  | SigverifyVotes (e : SigVerifyVoteError)
  | SigverifyCerts (e : SigVerifyCertError).

Record AddVoteMessage := mkAddVote { av_votes : list VoteMessage }.
Record SigVerifierChannels := mkVerifierChannels {
  channel_to_repair : Sender (Pubkey * list Slot);
  channel_to_reward : Sender AddVoteMessage;
  channel_to_pool : Sender (list ConsensusMessage);
  channel_to_metrics : Sender (Instant * list ConsensusMetricsEvent);
}.

(** A full channel drops the message. *)
Definition send_votes_to_metrics (now : Instant) (votes : list ConsensusMetricsEvent)
    (channel : Sender (Instant * list ConsensusMetricsEvent))
    : Sender (Instant * list ConsensusMetricsEvent) * result SigVerifyVoteError unit :=
  match try_send channel (now, votes) with
  | (channel, Ok _) => (channel, Ok tt)
  | (channel, Err TrySendFull) => (channel, Ok tt)
  | (channel, Err TrySendDisconnected) => (channel, Err MetricsChannelDisconnected)
  end.
Definition send_votes_to_rewards (msg : AddVoteMessage) (channel : Sender AddVoteMessage)
    : Sender AddVoteMessage * result SigVerifyVoteError unit :=
  match try_send channel msg with
  | (channel, Ok _) => (channel, Ok tt)
  | (channel, Err TrySendFull) => (channel, Ok tt)
  | (channel, Err TrySendDisconnected) => (channel, Err RewardsChannelDisconnected)
  end.
Definition send_votes_to_pool (votes : list ConsensusMessage) (channel : Sender (list ConsensusMessage))
    : Sender (list ConsensusMessage) * result SigVerifyVoteError unit :=
  if bool_decide (length votes = 0)%nat then (channel, Ok tt)
  else match try_send channel votes with
       | (channel, Ok _) => (channel, Ok tt)
       | (channel, Err TrySendFull) => (channel, Ok tt)
       | (channel, Err TrySendDisconnected) => (channel, Err VotePoolChannelDisconnected)
       end.
Fixpoint send_votes_to_repair (votes : list (Pubkey * list Slot)) (channel : Sender (Pubkey * list Slot))
    : Sender (Pubkey * list Slot) * result SigVerifyVoteError unit :=
  match votes with
  | [] => (channel, Ok tt)
  | v :: votes =>
    match try_send channel v with
    | (channel, Ok _) => send_votes_to_repair votes channel
    | (channel, Err TrySendFull) => send_votes_to_repair votes channel
    | (channel, Err TrySendDisconnected) => (channel, Err RepairChannelDisconnected)
    end
  end.
Definition send_certs_to_pool (messages : list ConsensusMessage) (channel : Sender (list ConsensusMessage))
    : Sender (list ConsensusMessage) * result SigVerifyCertError unit :=
  if bool_decide (messages = []) then (channel, Ok tt)
  else match try_send channel messages with
       | (channel, Ok _) => (channel, Ok tt)
       | (channel, Err TrySendFull) => (channel, Ok tt)
       | (channel, Err TrySendDisconnected) => (channel, Err CertPoolChannelDisconnected)
       end.

(** 48 hours. *)
Definition BAN_TIMEOUT : Duration := 48 * 3600 * NANOS_PER_SEC.

Section verifier.
Context `{BatchOps, RewardOps}.
(** The node's identity and the leader schedule. *)
Context (id : Pubkey) (slot_leader_at : Slot -> option Pubkey).

(** ** Votes *)

Record VotePayload := mkVotePayload {
  vp_vote_message : VoteMessage;
  vp_bls_pubkey : Z;
  vp_pubkey : Pubkey;
  vp_remote_pubkey : Pubkey;
  vp_prepared_payload : option PreparedHashedMessage;
}.
Definition payload_vote (v : VotePayload) : Vote := vm_vote (vp_vote_message v).
Definition with_prepared (v : VotePayload) (p : option PreparedHashedMessage) : VotePayload :=
  mkVotePayload (vp_vote_message v) (vp_bls_pubkey v) (vp_pubkey v) (vp_remote_pubkey v) p.

Definition payload_verify (v : VotePayload) : option VotePayload :=
  let signature := vm_signature (vp_vote_message v) in
  let is_verified :=
    match vp_prepared_payload v with
    | Some prepared => is_ok (key_verify_prepared (vp_bls_pubkey v) signature prepared)
    | None => is_ok (key_verify_signature (vp_bls_pubkey v) signature (wincode_serialize (payload_vote v)))
    end in
  if is_verified then Some v else None.

Definition inspect_for_repair (vote : VotePayload) (msgs_for_repair : gmap Z (list Slot)) : gmap Z (list Slot) :=
  match payload_vote vote with
  | Notarize _ _ | Finalize _ | NotarizeFallback _ _ =>
    let slots := default [] (msgs_for_repair !! vp_pubkey vote) in
    <[vp_pubkey vote := slots ++ [vote_slot (payload_vote vote)]]> msgs_for_repair
  | Skip _ | SkipFallback _ | Genesis _ _ => msgs_for_repair
  end.

(** [Vec::dedup]. *)
Fixpoint dedup (l : list Slot) : list Slot :=
  match l with
  | x :: ((y :: _) as t) => if bool_decide (x = y) then dedup t else x :: dedup t
  | _ => l
  end.

Definition process_verified_votes (verified_votes : list VotePayload) (root_bank : RootBank)
    : list ConsensusMessage * gmap Z (list Slot) * AddVoteMessage * list ConsensusMetricsEvent :=
  let votes_for_reward :=
    filter (fun m => wants_vote id slot_leader_at (rb_slot root_bank) m = true) (vp_vote_message <$> verified_votes) in
  let msgs_for_repair := foldl (fun m v => inspect_for_repair v m) ∅ verified_votes in
  ((fun v => MVote (vp_vote_message v)) <$> verified_votes,
   (fun slots => dedup (merge_sort Z.le slots)) <$> msgs_for_repair,
   mkAddVote votes_for_reward,
   (fun v => MetricsVote (vp_pubkey v) (payload_vote v)) <$> verified_votes).

Definition aggregate_signatures (votes : list VotePayload) : result BlsError SignatureProjective :=
  signature_par_aggregate ((fun v => vm_signature (vp_vote_message v)) <$> votes).

(** The keys of each distinct vote, in the order of the votes. *)
Fixpoint group_vote (groups : list (Vote * list Z)) (vote : Vote) (pubkey : Z) : list (Vote * list Z) :=
  match groups with
  | [] => [(vote, [pubkey])]
  | (v, pubkeys) :: groups =>
    if bool_decide (v = vote) then (v, pubkeys ++ [pubkey]) :: groups else (v, pubkeys) :: group_vote groups vote pubkey
  end.
Definition group_votes (votes : list VotePayload) : list (Vote * list Z) :=
  foldl (fun groups v => group_vote groups (payload_vote v) (vp_bls_pubkey v)) [] votes.

(** [collect] of [Result]s: the first error, if there is one. *)
Fixpoint collect_results {E A} (l : list (result E A)) : result E (list A) :=
  match l with
  | [] => Ok []
  | Err e :: _ => Err e
  | Ok a :: l => match collect_results l with Ok l => Ok (a :: l) | Err e => Err e end
  end.

Definition aggregate_pubkeys_by_payload (votes : list VotePayload)
    : list Vote * list PreparedHashedMessage * result BlsError (list AggregatePubkey) :=
  let grouped_votes := hash_votes_iter (group_votes votes) in
  (grouped_votes.*1,
   (fun g => prepared_new (wincode_serialize g.1)) <$> grouped_votes,
   collect_results ((fun g => pubkey_par_aggregate g.2) <$> grouped_votes)).

Inductive OptimisticVerificationResult :=
  | OptVerified
  | OptFailed (num_distinct_messages : nat).

(** The outer option is the panic of an index out of range. *)
Definition verify_votes_optimistic (votes : list VotePayload)
    : option (OptimisticVerificationResult * list Vote * list PreparedHashedMessage) :=
  let signature_result := aggregate_signatures votes in
  let '(distinct_votes, distinct_payloads, pubkeys_result) := aggregate_pubkeys_by_payload votes in
  match signature_result with
  | Err _ => Some (OptFailed 0, [], [])
  | Ok aggregate_signature =>
    match pubkeys_result with
    | Err _ => Some (OptFailed (length distinct_payloads), distinct_votes, distinct_payloads)
    | Ok aggregate_pubkeys =>
      verified ←
        if bool_decide (length distinct_payloads = 1)%nat then
          agg ← aggregate_pubkeys !! 0%nat;
          payload ← distinct_payloads !! 0%nat;
          Some (is_ok (aggregate_verify_prepared agg aggregate_signature payload))
        else Some (is_ok (par_verify_distinct_prepared aggregate_pubkeys aggregate_signature distinct_payloads));
      Some (if verified : bool then OptVerified else OptFailed (length distinct_payloads), distinct_votes, distinct_payloads)
    end
  end.

Definition PREPARED_PAYLOAD_CACHE_DISTINCT_VOTE_THRESHOLD_PERCENT : Z := 90.
Definition sat_mul (a b : Z) : Z := Z.min (a * b) u64_max.
Definition should_prepare_payload_cache (distinct_vote_count total_vote_count : nat) : bool :=
  bool_decide (sat_mul (Z.of_nat distinct_vote_count) 100 <=
    sat_mul (Z.of_nat total_vote_count) PREPARED_PAYLOAD_CACHE_DISTINCT_VOTE_THRESHOLD_PERCENT).

(** A [HashMap] collected from pairs keeps the last value of a key. *)
Fixpoint collected_get (l : list (Vote * PreparedHashedMessage)) (vote : Vote) : option PreparedHashedMessage :=
  match l with
  | [] => None
  | (v, p) :: l =>
    match collected_get l vote with
    | Some p' => Some p'
    | None => if bool_decide (v = vote) then Some p else None
    end
  end.
Definition verify_individual_votes (votes_to_verify : list VotePayload) (distinct_votes : list Vote)
    (distinct_payloads : list PreparedHashedMessage) : list VotePayload * list Pubkey :=
  let votes_to_verify :=
    if should_prepare_payload_cache (length distinct_votes) (length votes_to_verify) then
      (fun v => with_prepared v (collected_get (zip distinct_votes distinct_payloads) (payload_vote v))) <$> votes_to_verify
    else votes_to_verify in
  (omap payload_verify votes_to_verify,
   vp_remote_pubkey <$> filter (fun v => payload_verify v = None) votes_to_verify).

Definition ban_all (now : Instant) (banlist : SimpleQosBanlist) (pubkeys : list Pubkey) : SimpleQosBanlist :=
  foldl (fun banlist pubkey => (qos_ban banlist now pubkey BAN_TIMEOUT).1) banlist pubkeys.

Definition verify_votes (root_bank : RootBank) (votes_to_verify : list VotePayload) (now : Instant)
    (banlist : SimpleQosBanlist) : option (list VotePayload * SimpleQosBanlist) :=
  let votes_to_verify :=
    filter (fun v => vote_slot (payload_vote v) <= rb_slot root_bank +s NUM_SLOTS_FOR_VERIFY) votes_to_verify in
  '(optimistic_result, distinct_votes, distinct_payloads) ← verify_votes_optimistic votes_to_verify;
  Some match optimistic_result with
  | OptVerified => (votes_to_verify, banlist)
  | OptFailed _ =>
    let '(verified_votes, invalid_remote_pubkeys) :=
      verify_individual_votes votes_to_verify distinct_votes distinct_payloads in
    (verified_votes, ban_all now banlist invalid_remote_pubkeys)
  end.

(** The [?] after each send returns at the first error. *)
Definition send_verified (now : Instant) (root_bank : RootBank) (verified_votes : list VotePayload)
    (ch : SigVerifierChannels) : SigVerifierChannels * result SigVerifyVoteError unit :=
  let '(votes_for_pool, msgs_for_repair, msg_for_reward, msg_for_metrics) :=
    process_verified_votes verified_votes root_bank in
  let '(pool, r) := send_votes_to_pool votes_for_pool (channel_to_pool ch) in
  let ch := mkVerifierChannels (channel_to_repair ch) (channel_to_reward ch) pool (channel_to_metrics ch) in
  match r with Err e => (ch, Err e) | Ok _ =>
  let '(repair, r) := send_votes_to_repair (hash_iter msgs_for_repair) (channel_to_repair ch) in
  let ch := mkVerifierChannels repair (channel_to_reward ch) (channel_to_pool ch) (channel_to_metrics ch) in
  match r with Err e => (ch, Err e) | Ok _ =>
  let '(reward, r) := send_votes_to_rewards msg_for_reward (channel_to_reward ch) in
  let ch := mkVerifierChannels (channel_to_repair ch) reward (channel_to_pool ch) (channel_to_metrics ch) in
  match r with Err e => (ch, Err e) | Ok _ =>
  let '(metrics, r) := send_votes_to_metrics now msg_for_metrics (channel_to_metrics ch) in
  (mkVerifierChannels (channel_to_repair ch) (channel_to_reward ch) (channel_to_pool ch) metrics, r)
  end end end.
Definition verify_and_send_votes (votes_to_verify : list VotePayload) (root_bank : RootBank) (now : Instant)
    (banlist : SimpleQosBanlist) (ch : SigVerifierChannels)
    : option (SimpleQosBanlist * SigVerifierChannels * result SigVerifyVoteError unit) :=
  if bool_decide (votes_to_verify = []) then Some (banlist, ch, Ok tt)
  else
    '(verified_votes, banlist) ← verify_votes root_bank votes_to_verify now banlist;
    let '(ch, r) := send_verified now root_bank verified_votes ch in
    Some (banlist, ch, r).

(** ** Certificates *)

Record CertPayload := mkCertPayload {
  cp_cert : Certificate;
  cp_remote_pubkey : Pubkey;
}.

(** The sequential pass over the results: the valid certificates, the set and the
    ban list. *)
Fixpoint collect_certs (verified : list (CertPayload * result CertVerifyError unit)) (now : Instant)
    (verified_certs_set : gset CertificateType) (banlist : SimpleQosBanlist)
    : list ConsensusMessage * gset CertificateType * SimpleQosBanlist :=
  match verified with
  | [] => ([], verified_certs_set, banlist)
  | (payload, Ok _) :: verified =>
    let cert := cp_cert payload in
    let '(messages, verified_certs_set, banlist) :=
      collect_certs verified now ({[cert_type cert]} ∪ verified_certs_set) banlist in
    (MCertificate cert :: messages, verified_certs_set, banlist)
  | (payload, Err _) :: verified =>
    collect_certs verified now verified_certs_set (qos_ban banlist now (cp_remote_pubkey payload) BAN_TIMEOUT).1
  end.
Definition verify_certs (certs : list CertPayload) (root_bank : RootBank) (now : Instant)
    (verified_certs_set : gset CertificateType) (banlist : SimpleQosBanlist)
    : option (list ConsensusMessage * gset CertificateType * SimpleQosBanlist) :=
  verified ← mapM (fun payload => pair payload <$> verify_cert (cp_cert payload) root_bank) certs;
  Some (collect_certs verified now verified_certs_set banlist).

(** The [debug_assert] is a panic. *)
Definition verify_and_send_certificates (verified_certs_set : gset CertificateType) (certs : list CertPayload)
    (root_bank : RootBank) (now : Instant) (pool : Sender (list ConsensusMessage)) (banlist : SimpleQosBanlist)
    : option (gset CertificateType * Sender (list ConsensusMessage) * SimpleQosBanlist * result SigVerifyCertError unit) :=
  rust_assert (forallb (fun payload => negb (bool_decide (cert_type (cp_cert payload) ∈ verified_certs_set))) certs);;
  if bool_decide (certs = []) then Some (verified_certs_set, pool, banlist, Ok tt)
  else
    '(messages, verified_certs_set, banlist) ← verify_certs certs root_bank now verified_certs_set banlist;
    let '(pool, r) := send_certs_to_pool messages pool in
    Some (verified_certs_set, pool, banlist, r).

(** ** The service *)

(** A packet: its discard flag, what it deserializes to and the peer that sent it. *)
Record Packet := mkPacket {
  pkt_discard : bool;
  pkt_message : option ConsensusMessage;
  pkt_remote_pubkey : option Pubkey;
}.
Abbreviation PacketBatch := (list Packet) (only parsing).

Record SigVerifier := mkSigVerifier {
  sg_banlist : SimpleQosBanlist;
  sg_channels : SigVerifierChannels;
  sg_verified_certs : gset CertificateType;
  sg_last_checked_root_slot : Slot;
}.
Definition sig_verifier_new (banlist : SimpleQosBanlist) (ch : SigVerifierChannels) : SigVerifier :=
  mkSigVerifier banlist ch ∅ 0.

Definition maybe_prune_caches (s : SigVerifier) (root_slot : Slot) : SigVerifier :=
  if bool_decide (sg_last_checked_root_slot s < root_slot) then
    mkSigVerifier (sg_banlist s) (sg_channels s) (filter (fun c => cert_slot c > root_slot) (sg_verified_certs s)) root_slot
  else s.

Definition keep_vote (vote : VoteMessage) (root_bank : RootBank) : option (Pubkey * Z) :=
  let root_slot := rb_slot root_bank in
  rank_map ← get_rank_map root_bank (vote_slot (vm_vote vote));
  entry ← get_pubkey_stake_entry rank_map (vm_rank vote);
  let ret := Some (en_vote_account_pubkey entry, en_bls_pubkey entry) in
  if bool_decide (vote_slot (vm_vote vote) > root_slot) then ret
  else if wants_vote id slot_leader_at root_slot vote then ret
  else None.

(** What one packet adds; a packet without a peer is counted as malformed. *)
Definition extract_msg (s : SigVerifier) (generated_cert_types : gset CertificateType) (root_bank : RootBank)
    (acc : list CertPayload * list VotePayload) (packet : Packet) : list CertPayload * list VotePayload :=
  let '(certs, votes) := acc in
  if pkt_discard packet then acc
  else match pkt_message packet with
  | None => acc
  | Some msg =>
    match pkt_remote_pubkey packet with
    | None => acc
    | Some remote_pubkey =>
      match msg with
      | MVote vote =>
        match keep_vote vote root_bank with
        | Some (pubkey, bls_pubkey) => (certs, votes ++ [mkVotePayload vote bls_pubkey pubkey remote_pubkey None])
        | None => acc
        end
      | MCertificate cert =>
        if bool_decide (cert_slot (cert_type cert) <= rb_slot root_bank) then acc
        else if bool_decide (cert_type cert ∈ sg_verified_certs s) then acc
        else if has_cert generated_cert_types (cert_type cert) then acc
        else (certs ++ [mkCertPayload cert remote_pubkey], votes)
      end
    end
  end.
Definition extract_and_filter_msgs (s : SigVerifier) (generated_cert_types : gset CertificateType)
    (batches : list PacketBatch) (root_bank : RootBank) : list CertPayload * list VotePayload :=
  foldl (extract_msg s generated_cert_types root_bank) ([], []) (concat batches).

(** The votes and the certificates are handled by two threads; they share the
    channel to the pool and the ban list, and [certs_first] tells which of them gets
    there first.  The clock is read once. *)
Definition run_votes (votes : list VotePayload) (root_bank : RootBank) (now : Instant) (s : SigVerifier)
    : option (SigVerifier * result SigVerifyVoteError unit) :=
  '(banlist, ch, r) ← verify_and_send_votes votes root_bank now (sg_banlist s) (sg_channels s);
  Some (mkSigVerifier banlist ch (sg_verified_certs s) (sg_last_checked_root_slot s), r).
Definition run_certs (certs : list CertPayload) (root_bank : RootBank) (now : Instant) (s : SigVerifier)
    : option (SigVerifier * result SigVerifyCertError unit) :=
  let ch := sg_channels s in
  '(verified, pool, banlist, r) ←
    verify_and_send_certificates (sg_verified_certs s) certs root_bank now (channel_to_pool ch) (sg_banlist s);
  Some (mkSigVerifier banlist
    (mkVerifierChannels (channel_to_repair ch) (channel_to_reward ch) pool (channel_to_metrics ch))
    verified (sg_last_checked_root_slot s), r).
Definition verify_and_send_batches (generated_cert_types : gset CertificateType) (root_bank : RootBank) (now : Instant)
    (certs_first : bool) (batches : list PacketBatch) (s : SigVerifier)
    : option (SigVerifier * result SigVerifyError unit) :=
  let s := maybe_prune_caches s (rb_slot root_bank) in
  let '(certs_to_verify, votes_to_verify) := extract_and_filter_msgs s generated_cert_types batches root_bank in
  '(s, votes_result, certs_result) ←
    if certs_first : bool then
      '(s, rc) ← run_certs certs_to_verify root_bank now s;
      '(s, rv) ← run_votes votes_to_verify root_bank now s;
      Some (s, rv, rc)
    else
      '(s, rv) ← run_votes votes_to_verify root_bank now s;
      '(s, rc) ← run_certs certs_to_verify root_bank now s;
      Some (s, rv, rc);
  Some (s, match votes_result with
           | Err e => Err (SigverifyVotes e)
           | Ok _ => match certs_result with Err e => Err (SigverifyCerts e) | Ok _ => Ok tt end
           end).

(** [recv_batches]: the channel's queue and whether a sender is left.  The waiting
    [recv_timeout] times out on an empty queue; when the senders are gone the batches
    that were already taken are dropped. *)
Record Receiver (A : Type) := mkReceiver { queue : list A; has_senders : bool }.
Arguments mkReceiver {A} queue has_senders.
Arguments queue {A} r.
Arguments has_senders {A} r.
Fixpoint drain_batches (n : nat) (r : Receiver PacketBatch) (q batches : list PacketBatch)
    : result unit (list PacketBatch) * list PacketBatch :=
  match n with
  | O => (Ok batches, q)
  | S n =>
    match q with
    | [] => (if has_senders r then Ok batches else Err tt, [])
    | b :: q => drain_batches n r q (batches ++ [b])
    end
  end.
Definition recv_batches (r : Receiver PacketBatch) (soft_receive_cap : nat)
    : result unit (list PacketBatch) * list PacketBatch :=
  match queue r with
  | [] => (if has_senders r then Ok [] else Err tt, [])
  | b :: q => drain_batches (soft_receive_cap - 1) r q [b]
  end.
Definition SOFT_RECEIVE_CAP : Z := 5000.

(** One iteration of [run] and what it finds: the queue of packets, the phase of the
    migration, the root bank, the clock and the types of the pool's certificates. *)
Record VerifierTurn := mkVerifierTurn {
  vt_receiver : Receiver PacketBatch;
  vt_phase : MigrationPhase;
  vt_root_bank : RootBank;
  vt_now : Instant;
  vt_certs_first : bool;
  vt_generated : gset CertificateType;
}.
Inductive LoopExit := LoopContinue | LoopBreak.
Definition verifier_iteration (t : VerifierTurn) (s : SigVerifier) : option (SigVerifier * LoopExit) :=
  match (recv_batches (vt_receiver t) (Z.to_nat SOFT_RECEIVE_CAP)).1 with
  | Err _ => Some (s, LoopBreak)
  | Ok batches =>
    if bool_decide (batches = []) || is_pre_feature_activation (vt_phase t) then Some (s, LoopContinue)
    else
      '(s, r) ← verify_and_send_batches (vt_generated t) (vt_root_bank t) (vt_now t) (vt_certs_first t) batches s;
      Some (s, match r with Err _ => LoopBreak | Ok _ => LoopContinue end)
  end.
End verifier.
