(* ===== verification/SigVerifyTheorems.v ===== *)
(** * What the signature verifier guarantees

    Whatever arrives, everything that the verifier sends to the consensus pool was
    signed by the validators it names; a valid message is sent on whatever else is in
    its batch, and only peers that sent something invalid are banned.  That the votes
    of a batch are checked by one sum of signatures means, on the other hand, that
    signatures which are wrong on their own may pass together: the last part shows
    what follows. *)

From S2P Require Import Prelude.
From S2P Require Import Messages.
From S2P Require Import EpochStakes.
From S2P Require Import CertBuilder.
From S2P Require Import Finalization.
From S2P Require Import Migration.
From S2P Require Import ConsensusPool.
From S2P Require Import PoolVotes.
From S2P Require Import PoolCerts.
From S2P Require Import PoolSafety.
From S2P Require Import PoolTheorems.
From S2P Require Import CertVerify.
From S2P Require Import VerifyTheorems.
From S2P Require Import BankForks.
From S2P Require Import Voting.
From S2P Require Import Timers.
From S2P Require Import Banlist.
From S2P Require Import Rewards.
From S2P Require Import PoolService.
From S2P Require Import EventHandler.
From S2P Require Import SigVerify.

(** ** Votes *)

Section votes.
Context `{BatchOps, !BlsVerifyLaws, !BatchLaws}.

Definition payload_bytes (v : VotePayload) : list Z := wincode_serialize (payload_vote v).
Definition payload_signed (v : VotePayload) : Prop := signed (vp_bls_pubkey v) (payload_bytes v).
(** The signature of the vote, alone. *)
Definition payload_valid (v : VotePayload) : bool :=
  is_ok (key_verify_signature (vp_bls_pubkey v) (vm_signature (vp_vote_message v)) (payload_bytes v)).
Abbreviation erase v := (with_prepared v None).

Lemma is_ok_tt {E} (r : result E unit) : is_ok r = true <-> r = Ok tt.
Proof. by destruct r as [[]|]. Qed.
Lemma valid_signed v : payload_valid v = true -> payload_signed v.
Proof. intros Hv%is_ok_tt. by eapply key_verify_sound. Qed.

(** *** Grouping *)
Lemma group_vote_keeps groups vote pk g : g ∈ groups ->
  exists pks, (g.1, pks) ∈ group_vote groups vote pk /\ g.2 ⊆ pks.
Proof.
  induction groups as [|[v pks] groups IH]; [by intros ?%elem_of_nil|]. intros [->|Hg]%elem_of_cons; simpl.
  - case_bool_decide; eexists; (split; [left|]); set_solver.
  - case_bool_decide; [exists g.2; split; [right; by destruct g|done]|].
    destruct (IH Hg) as (pks' & Hin & Hs). exists pks'. split; [by right|done].
Qed.
Lemma group_vote_adds groups vote pk : exists pks, (vote, pks) ∈ group_vote groups vote pk /\ pk ∈ pks.
Proof.
  induction groups as [|[v pks] groups (pks' & IH & Hin)]; simpl; [exists [pk]; split; left|].
  case_bool_decide; subst; [eexists; split; [left|set_solver]|exists pks'; split; [by right|done]].
Qed.
Lemma group_votes_in votes v : v ∈ votes ->
  exists pks, (payload_vote v, pks) ∈ group_votes votes /\ vp_bls_pubkey v ∈ pks.
Proof.
  unfold group_votes. induction votes as [|x votes IH] using rev_ind; [by intros ?%elem_of_nil|].
  rewrite foldl_app. intros [Hv| ->%list_elem_of_singleton]%elem_of_app; simpl; [|apply group_vote_adds].
  destruct (IH Hv) as (pks & Hg & Hin). destruct (group_vote_keeps _ (payload_vote x) (vp_bls_pubkey x) _ Hg) as (pks' & Hg' & Hs).
  exists pks'. split; [done|by apply Hs].
Qed.

Lemma collect_results_ok {E A} (l : list (result E A)) l' :
  collect_results l = Ok l' -> Forall2 (fun r a => r = Ok a) l l'.
Proof.
  revert l'. induction l as [|[a|e] l IH]; simpl; [by intros l' [= <-]| |done].
  destruct (collect_results l) as [l1|]; [|done]. intros l' [= <-]. constructor; [done|by apply IH].
Qed.

(** *** The optimistic check *)
Definition cache_ok (dv : list Vote) (dp : list PreparedHashedMessage) : Prop := forall vote p,
  collected_get (zip dv dp) vote = Some p -> p = prepared_new (wincode_serialize vote).
Lemma grouped_cache groups :
  cache_ok groups.*1 ((fun g : Vote * list Z => prepared_new (wincode_serialize g.1)) <$> groups).
Proof.
  intros vote p. induction groups as [|[v pks] groups IH]; simpl in *; [done|].
  destruct (collected_get _ vote) as [p'|]; [by intros [= ->]; apply IH|]. case_bool_decide; [|done]. by intros [= <-]; subst.
Qed.

(** The aggregates are those of the groups. *)
Lemma grouped_aggregates (groups : list (Vote * list Z)) aggs :
  collect_results ((fun g => pubkey_par_aggregate g.2) <$> groups) = Ok aggs ->
  Forall2 (fun pks agg => pubkey_aggregate pks = Ok agg) groups.*2 aggs.
Proof.
  intros Hagg%collect_results_ok. rewrite Forall2_fmap_l in Hagg. rewrite Forall2_fmap_l. eapply Forall2_impl; [exact Hagg|].
  intros g a. cbn. by rewrite par_aggregate_eq.
Qed.
Lemma grouped_signed votes : let groups := hash_votes_iter (group_votes votes) in
  Forall2 (fun pks m => Forall (fun pk => signed pk m) pks) groups.*2 (wincode_serialize <$> groups.*1) ->
  forall v, v ∈ votes -> payload_signed v.
Proof.
  intros groups Hs v Hv. destruct (group_votes_in votes v Hv) as (pks & Hg & Hin).
  rewrite <-hash_votes_perm in Hg. fold groups in Hg. apply list_elem_of_lookup in Hg as [i Hi].
  rewrite Forall2_lookup in Hs. specialize (Hs i). rewrite !list_lookup_fmap, Hi in Hs. simpl in Hs. inversion_clear Hs as [? ? HF|].
  rewrite Forall_forall in HF. by apply HF.
Qed.

(** The check never panics; when it succeeds every vote was signed, and otherwise
    what it prepared is what the individual check would prepare. *)
Lemma optimistic_spec votes : exists r dv dp, verify_votes_optimistic votes = Some (r, dv, dp) /\
  match r with OptVerified => forall v, v ∈ votes -> payload_signed v | OptFailed _ => cache_ok dv dp end.
Proof.
  unfold verify_votes_optimistic, aggregate_pubkeys_by_payload. pose proof (grouped_signed votes) as Hg.
  set (groups := hash_votes_iter (group_votes votes)) in *. simpl in Hg. pose proof (grouped_cache groups) as Hc.
  destruct (aggregate_signatures votes) as [sig|]; [|by eexists _, [], []].
  destruct (collect_results _) as [aggs|] eqn:Ea; [|by eexists _, _, _]. pose proof (grouped_aggregates _ _ Ea) as Ha.
  rewrite length_fmap. case_bool_decide as Hl.
  - destruct groups as [|g [|]]; try done. clear Hl. rewrite fmap_cons in Ha.
    apply Forall2_cons_inv_l in Ha as (agg & aggs' & Ha & Hnil & ->). cbn.
    destruct (is_ok _) eqn:Ev; eexists _, _, _; (split; [done|]); [|done].
    apply is_ok_tt in Ev. refine (Hg _). repeat constructor. by eapply aggregate_prepared_sound.
  - cbn. destruct (is_ok _) eqn:Ev; eexists _, _, _; (split; [done|]); [|done].
    apply is_ok_tt in Ev. refine (Hg _). eapply distinct_prepared_sound; [exact Ha|by rewrite !length_fmap|].
    by rewrite <-!list_fmap_compose.
Qed.

(** *** The individual check *)
Lemma payload_verify_cached dv dp v : cache_ok dv dp -> vp_prepared_payload v = None ->
  payload_verify (with_prepared v (collected_get (zip dv dp) (payload_vote v))) =
    if payload_valid v then Some (with_prepared v (collected_get (zip dv dp) (payload_vote v))) else None.
Proof.
  intros Hc Hn. unfold payload_verify, payload_valid, payload_bytes; simpl.
  destruct (collected_get _ _) as [p|] eqn:Ep; [|done]. rewrite (Hc _ _ Ep), prepared_eq. done.
Qed.
Lemma partition_spec (f : VotePayload -> VotePayload) votes :
  Forall (fun v => payload_verify (f v) = (if payload_valid v then Some (f v) else None) /\
    erase (f v) = v /\ vp_remote_pubkey (f v) = vp_remote_pubkey v) votes ->
  (fun v => erase v) <$> omap payload_verify (f <$> votes) = filter (fun v => payload_valid v = true) votes /\
  vp_remote_pubkey <$> filter (fun v => payload_verify v = None) (f <$> votes) =
    vp_remote_pubkey <$> filter (fun v => payload_valid v = false) votes.
Proof.
  induction 1 as [|v votes (Hv & He & Hr) _ [IH1 IH2]]; [done|].
  rewrite fmap_cons, !filter_cons. cbn [omap list_omap]. rewrite Hv. destruct (payload_valid v); repeat case_decide; try done.
  - by rewrite fmap_cons, He, IH1, IH2.
  - by rewrite !fmap_cons, Hr, IH1, IH2.
Qed.
Lemma individual_spec votes dv dp : cache_ok dv dp -> Forall (fun v => vp_prepared_payload v = None) votes ->
  let r := verify_individual_votes votes dv dp in
  (fun v => erase v) <$> r.1 = filter (fun v => payload_valid v = true) votes /\
  r.2 = vp_remote_pubkey <$> filter (fun v => payload_valid v = false) votes.
Proof.
  intros Hc HF. unfold verify_individual_votes. cbn [fst snd]. destruct (should_prepare_payload_cache _ _).
  - apply partition_spec. eapply Forall_impl; [exact HF|]. intros v Hn. split; [by apply payload_verify_cached|].
    split; [by destruct v; simpl in *; subst|done].
  - rewrite <-(list_fmap_id votes) at 1 3. apply partition_spec. eapply Forall_impl; [exact HF|]. intros v Hn.
    unfold payload_verify, payload_valid, payload_bytes. simpl. rewrite Hn. split; [done|]. split; [by destruct v; simpl in *; subst|done].
Qed.

(** *** Both *)

(** The votes that are not too far ahead. *)
Definition near (bank : RootBank) (v : VotePayload) : Prop :=
  vote_slot (payload_vote v) <= rb_slot bank +s NUM_SLOTS_FOR_VERIFY.
Lemma verify_votes_spec bank votes now l : Forall (fun v => vp_prepared_payload v = None) votes ->
  exists votes' pks, verify_votes bank votes now l = Some (votes', ban_all now l pks) /\
    (forall v, v ∈ votes' -> payload_signed v /\ near bank v /\ erase v ∈ votes) /\
    (forall v, v ∈ votes -> near bank v -> payload_valid v = true -> vp_vote_message v ∈ vp_vote_message <$> votes') /\
    (forall pk, pk ∈ pks -> exists v, v ∈ votes /\ near bank v /\ payload_valid v = false /\ vp_remote_pubkey v = pk).
Proof.
  intros HF. unfold verify_votes. set (near_votes := filter _ votes).
  assert (forall v, v ∈ near_votes <-> near bank v /\ v ∈ votes) as Hnear by (intros v; apply list_elem_of_filter).
  assert (Forall (fun v => vp_prepared_payload v = None) near_votes) as HFn
    by (apply Forall_forall; intros v [_ Hv]%Hnear; by eapply Forall_forall in HF).
  destruct (optimistic_spec near_votes) as (r & dv & dp & -> & Hr). cbn [mbind option_bind]. destruct r as [|n].
  - exists near_votes, []. split; [done|]. split; [|split].
    + intros v Hv. split; [by apply Hr|]. pose proof (proj1 (Hnear v) Hv) as [Hn Hin]. split; [done|].
      rewrite Forall_forall in HF. specialize (HF v Hin). destruct v; simpl in *. by subst.
    + intros v Hv Hn _. apply list_elem_of_fmap. exists v. split; [done|by apply Hnear].
    + by intros pk ?%elem_of_nil.
  - destruct (verify_individual_votes near_votes dv dp) as [good bad] eqn:Ei.
    destruct (individual_spec near_votes dv dp Hr HFn) as [Hg Hb]. rewrite Ei in Hg, Hb. simpl in Hg, Hb.
    exists good, bad. split; [done|]. split; [|split].
    + intros v Hv. assert (erase v ∈ filter (fun v => payload_valid v = true) near_votes) as Hin
        by (rewrite <-Hg; apply list_elem_of_fmap; by exists v).
      apply list_elem_of_filter in Hin as [Hvalid Hin]. apply Hnear in Hin as [Hn Hin].
      split; [by apply (valid_signed (erase v))|done].
    + intros v Hv Hn Hvalid. assert (v ∈ (fun v => erase v) <$> good) as Hin
        by (rewrite Hg; apply list_elem_of_filter; split; [done|by apply Hnear]).
      apply list_elem_of_fmap in Hin as (v' & -> & Hin). apply list_elem_of_fmap. by exists v'.
    + intros pk Hpk. rewrite Hb in Hpk. apply list_elem_of_fmap in Hpk as (v & -> & Hv).
      apply list_elem_of_filter in Hv as [Hvalid [Hn Hin]%Hnear]. by exists v.
Qed.
End votes.

(** ** Channels and bans *)

Definition accepting {A} (c : Sender A) : Prop := connected c = true /\ full c = false.
(** The channel [c'] after an attempt to send [x] on [c]. *)
Record attempted {A} (x : A) (c c' : Sender A) : Prop := {
  at_flags : connected c' = connected c /\ full c' = full c;
  at_sent : sent c' = sent c \/ sent c' = sent c ++ [x];
  at_accepted : accepting c -> sent c' = sent c ++ [x];
}.
Lemma try_send_attempted {A} (c : Sender A) x : attempted x c (try_send c x).1.
Proof.
  unfold try_send. destruct c as [l co fu]. destruct co; simpl; [destruct fu; simpl|];
    (split; simpl; [done| |]); try (by left); try (by right); by intros [??].
Qed.

Lemma ban_all_app now l pks1 pks2 : ban_all now (ban_all now l pks1) pks2 = ban_all now l (pks1 ++ pks2).
Proof. unfold ban_all. by rewrite foldl_app. Qed.
(** The bans of the other peers stay as they are. *)
Lemma ban_all_other now pks : forall l pk, pk ∉ pks ->
  banned (qos_banlist (ban_all now l pks)) !! pk = banned (qos_banlist l) !! pk.
Proof.
  induction pks as [|pk' pks IH]; intros l pk; [done|]. intros [Hne Hn]%not_elem_of_cons.
  change (ban_all now l (pk' :: pks)) with (ban_all now (qos_ban l now pk' BAN_TIMEOUT).1 pks).
  rewrite IH by done. rewrite qos_ban_banlist. unfold banlist_ban. destruct (instant_checked_add _ _); [|done]. simpl.
  by rewrite lookup_insert_ne.
Qed.

(** ** The service *)

Section service.
Context `{BatchOps, RewardOps, !BlsLaws, !BlsVerifyLaws, !BatchLaws}.
Context (id : Pubkey) (slot_leader_at : Slot -> option Pubkey).
Context (E : Slot -> option VersionedEpochStakes).

(** What the pool is promised: votes that the validator of the rank has signed, and
    certificates with the stake they need. *)
Definition message_verified (m : ConsensusMessage) : Prop :=
  match m with
  | MVote m => forall k, slot_key_of E (vote_slot (vm_vote m)) (vm_rank m) = Some k ->
      signed_vote E (vote_slot (vm_vote m)) k (vm_vote m)
  | MCertificate cert => exists K, certified E cert K
  end.

Abbreviation pool s := (channel_to_pool (sg_channels s)).
Abbreviation reward s := (channel_to_reward (sg_channels s)).

(** A part of the verifier's work on a batch: every message sent to the pool has [M],
    every vote sent to rewards [W], every peer that was banned [G], and if the
    channel takes messages, all those in [D] were sent. *)
Record progress (M D : ConsensusMessage -> Prop) (W : VoteMessage -> Prop) (G : Pubkey -> Prop) (now : Instant)
    (s s' : SigVerifier) : Prop := {
  pr_flags : connected (pool s') = connected (pool s) /\ full (pool s') = full (pool s);
  pr_pool : exists new, sent (pool s') = sent (pool s) ++ new /\ (forall m, m ∈ concat new -> M m) /\
    (accepting (pool s) -> forall m, D m -> m ∈ concat new);
  pr_reward : exists new, sent (reward s') = sent (reward s) ++ new /\ forall x v, x ∈ new -> v ∈ av_votes x -> W v;
  pr_bans : exists pks, sg_banlist s' = ban_all now (sg_banlist s) pks /\ forall pk, pk ∈ pks -> G pk;
}.
Lemma progress_trans M D1 D2 W G now s1 s2 s3 :
  progress M D1 W G now s1 s2 -> progress M D2 W G now s2 s3 -> progress M (fun m => D1 m \/ D2 m) W G now s1 s3.
Proof.
  intros [[F1 F1'] (n1 & P1 & P1' & P1'') (r1 & R1 & R1') (k1 & K1 & K1')]
         [[F2 F2'] (n2 & P2 & P2' & P2'') (r2 & R2 & R2') (k2 & K2 & K2')].
  split; [split; congruence| | |].
  - exists (n1 ++ n2). rewrite P2, P1, app_assoc. split; [done|]. rewrite concat_app. split.
    + intros m [?|?]%elem_of_app; auto.
    + intros [A1 A2] m [Hm|Hm]; apply elem_of_app; [left; by apply P1''|right; apply P2''; [|done]]. split; congruence.
  - exists (r1 ++ r2). rewrite R2, R1, app_assoc. split; [done|]. intros x v [?|?]%elem_of_app; eauto.
  - exists (k1 ++ k2). rewrite K2, K1, ban_all_app. split; [done|]. intros pk [?|?]%elem_of_app; auto.
Qed.
Lemma progress_mono (M M' D D' : ConsensusMessage -> Prop) (W W' : VoteMessage -> Prop) (G G' : Pubkey -> Prop) now s s' :
  (forall m, M m -> M' m) -> (forall m, D' m -> D m) -> (forall v, W v -> W' v) -> (forall pk, G pk -> G' pk) ->
  progress M D W G now s s' -> progress M' D' W' G' now s s'.
Proof.
  intros HM HD HW HG [F (n & P & P' & P'') (r & R & R') (k & K & K')]. split; [done|exists n|exists r|exists k]; eauto 10.
Qed.
Lemma progress_refl (M D : ConsensusMessage -> Prop) W G now s : (forall m, ~ D m) -> progress M D W G now s s.
Proof.
  intros HD. split; [done| | |].
  - exists []. rewrite app_nil_r. split; [done|]. split; [by intros m ?%elem_of_nil|]. intros _ m Hm. by apply HD in Hm.
  - exists []. rewrite app_nil_r. split; [done|]. by intros x v ?%elem_of_nil.
  - exists []. split; [done|]. by intros pk ?%elem_of_nil.
Qed.
Lemma attempted_progress (M D : ConsensusMessage -> Prop) ms (c c' : Sender (list ConsensusMessage)) :
  attempted ms c c' -> (forall m, m ∈ ms -> M m) -> (forall m, D m -> m ∈ ms) ->
  exists new, sent c' = sent c ++ new /\ (forall m, m ∈ concat new -> M m) /\
    (accepting c -> forall m, D m -> m ∈ concat new).
Proof.
  intros [_ Hs Ha] HM HD. destruct Hs as [Hs|Hs].
  - exists []. rewrite app_nil_r. split; [done|]. split; [by intros m ?%elem_of_nil|].
    intros Hc%Ha. rewrite Hs in Hc. apply (f_equal length) in Hc. rewrite length_app in Hc. simpl in Hc. lia.
  - exists [ms]. simpl. rewrite app_nil_r. eauto.
Qed.

(** *** Sending the votes *)
Lemma send_votes_to_pool_spec votes (c : Sender (list ConsensusMessage)) :
  let c' := (send_votes_to_pool votes c).1 in c' = c /\ votes = [] \/ attempted votes c c'.
Proof.
  unfold send_votes_to_pool. case_bool_decide as Hl; [left; by apply nil_length_inv in Hl|right].
  pose proof (try_send_attempted c votes) as Ha. by destruct (try_send c votes) as [c' [|[]]].
Qed.
Lemma send_certs_to_pool_spec messages (c : Sender (list ConsensusMessage)) :
  let c' := (send_certs_to_pool messages c).1 in c' = c /\ messages = [] \/ attempted messages c c'.
Proof.
  unfold send_certs_to_pool. case_bool_decide as Hl; [by left|right].
  pose proof (try_send_attempted c messages) as Ha. by destruct (try_send c messages) as [c' [|[]]].
Qed.
Lemma pool_attempt (M D : ConsensusMessage -> Prop) ms (c c' : Sender (list ConsensusMessage)) :
  c' = c /\ ms = [] \/ attempted ms c c' -> (forall m, m ∈ ms -> M m) -> (forall m, D m -> m ∈ ms) ->
  (connected c' = connected c /\ full c' = full c) /\
  exists new, sent c' = sent c ++ new /\ (forall m, m ∈ concat new -> M m) /\
    (accepting c -> forall m, D m -> m ∈ concat new).
Proof.
  intros [[-> ->]|Ha] HM HD; [|split; [apply Ha|by apply (attempted_progress M D ms)]].
  split; [done|]. exists []. rewrite app_nil_r. split; [done|]. split; [by intros m ?%elem_of_nil|].
  intros _ m Hm%HD. by apply elem_of_nil in Hm.
Qed.

Lemma send_verified_spec now bank votes ch :
  let ch' := (send_verified id slot_leader_at now bank votes ch).1 in
  let ms := (fun v => MVote (vp_vote_message v)) <$> votes in
  (channel_to_pool ch' = channel_to_pool ch /\ ms = [] \/ attempted ms (channel_to_pool ch) (channel_to_pool ch')) /\
  exists new, sent (channel_to_reward ch') = sent (channel_to_reward ch) ++ new /\
    forall x v, x ∈ new -> v ∈ av_votes x -> v ∈ vp_vote_message <$> votes /\ wants_vote id slot_leader_at (rb_slot bank) v = true.
Proof.
  unfold send_verified, process_verified_votes. cbn zeta.
  pose proof (send_votes_to_pool_spec ((fun v => MVote (vp_vote_message v)) <$> votes) (channel_to_pool ch)) as Hp.
  destruct (send_votes_to_pool _ _) as [pl [[]|e]]; cbn [fst snd channel_to_pool channel_to_reward channel_to_repair channel_to_metrics] in *;
    [|split; [done|]; exists []; rewrite app_nil_r; split; [done|]; by intros x v ?%elem_of_nil].
  destruct (send_votes_to_repair _ _) as [rp [[]|e]]; cbn [fst snd channel_to_pool channel_to_reward channel_to_repair channel_to_metrics];
    [|split; [done|]; exists []; rewrite app_nil_r; split; [done|]; by intros x v ?%elem_of_nil].
  unfold send_votes_to_rewards. set (msg := mkAddVote _).
  assert (forall x v, x ∈ [msg] -> v ∈ av_votes x ->
    v ∈ vp_vote_message <$> votes /\ wants_vote id slot_leader_at (rb_slot bank) v = true) as Hmsg.
  { intros x v ->%list_elem_of_singleton [Hw Hv]%list_elem_of_filter. done. }
  pose proof (at_sent _ _ _ (try_send_attempted (channel_to_reward ch) msg)) as Hr.
  destruct (try_send (channel_to_reward ch) msg) as [rw r]; cbn [fst] in Hr.
  assert (exists new, sent rw = sent (channel_to_reward ch) ++ new /\ forall x v, x ∈ new -> v ∈ av_votes x ->
    v ∈ vp_vote_message <$> votes /\ wants_vote id slot_leader_at (rb_slot bank) v = true) as Hnew
    by (destruct Hr; [exists []; rewrite app_nil_r; split; [done|]; by intros x v ?%elem_of_nil|by exists [msg]]).
  destruct r as [[]|[]]; cbn [fst snd channel_to_pool channel_to_reward channel_to_repair channel_to_metrics];
    try (destruct (send_votes_to_metrics _ _ _) as [mt rm]); done.
Qed.

(** *** Packets *)

Definition packet_cert (s : SigVerifier) (generated : gset CertificateType) (bank : RootBank) (p : Packet) : option CertPayload :=
  match pkt_discard p, pkt_message p, pkt_remote_pubkey p with
  | false, Some (MCertificate cert), Some pk =>
    if bool_decide (rb_slot bank < cert_slot (cert_type cert) /\
      (cert_type cert ∉ sg_verified_certs s) /\ (cert_type cert ∉ generated))
    then Some (mkCertPayload cert pk) else None
  | _, _, _ => None
  end.
Definition packet_vote (bank : RootBank) (p : Packet) : option VotePayload :=
  match pkt_discard p, pkt_message p, pkt_remote_pubkey p with
  | false, Some (MVote vote), Some pk =>
    (fun x => mkVotePayload vote x.2 x.1 pk None) <$> keep_vote id slot_leader_at vote bank
  | _, _, _ => None
  end.
Lemma extract_msg_spec s g bank acc p :
  extract_msg id slot_leader_at s g bank acc p =
    (acc.1 ++ option_list (packet_cert s g bank p), acc.2 ++ option_list (packet_vote bank p)).
Proof.
  unfold extract_msg, packet_cert, packet_vote. destruct acc as [certs votes].
  destruct (pkt_discard p); [by rewrite !app_nil_r|]. destruct (pkt_message p) as [[vote|cert]|]; [| |by rewrite !app_nil_r].
  - destruct (pkt_remote_pubkey p) as [pk|]; [|by rewrite !app_nil_r].
    destruct (keep_vote _ _ vote bank) as [[pubkey bls]|]; simpl; by rewrite !app_nil_r.
  - destruct (pkt_remote_pubkey p) as [pk|]; [|by rewrite !app_nil_r]. unfold has_cert.
    repeat case_bool_decide; simpl; rewrite ?app_nil_r; try done; naive_solver lia.
Qed.
Lemma extract_spec s g bank batches :
  extract_and_filter_msgs id slot_leader_at s g batches bank =
    (omap (packet_cert s g bank) (concat batches), omap (packet_vote bank) (concat batches)).
Proof.
  unfold extract_and_filter_msgs.
  assert (forall pkts acc, foldl (extract_msg id slot_leader_at s g bank) acc pkts =
    (acc.1 ++ omap (packet_cert s g bank) pkts, acc.2 ++ omap (packet_vote bank) pkts)) as Hf; [|by rewrite Hf].
  induction pkts as [|p pkts IH]; intros [certs votes]; cbn [foldl]; [by rewrite !app_nil_r|].
  rewrite IH, extract_msg_spec. cbn. by destruct (packet_cert s g bank p), (packet_vote bank p); rewrite <-!app_assoc.
Qed.

(** What a packet carries, and from whom. *)
Definition carries (batches : list (list Packet)) (m : ConsensusMessage) (pk : Pubkey) : Prop := exists p,
  p ∈ concat batches /\ pkt_discard p = false /\ pkt_message p = Some m /\ pkt_remote_pubkey p = Some pk.
Definition vote_entry (bank : RootBank) (m : VoteMessage) : option BLSPubkeyStakeEntry :=
  rank_map ← get_rank_map bank (vote_slot (vm_vote m)); get_pubkey_stake_entry rank_map (vm_rank m).
Definition vote_check (e : BLSPubkeyStakeEntry) (m : VoteMessage) : bool :=
  is_ok (key_verify_signature (en_bls_pubkey e) (vm_signature m) (wincode_serialize (vm_vote m))).

Lemma packet_vote_spec bank batches v : v ∈ omap (packet_vote bank) (concat batches) <->
  exists e, carries batches (MVote (vp_vote_message v)) (vp_remote_pubkey v) /\
    vote_entry bank (vp_vote_message v) = Some e /\
    v = mkVotePayload (vp_vote_message v) (en_bls_pubkey e) (en_vote_account_pubkey e) (vp_remote_pubkey v) None /\
    (rb_slot bank < vote_slot (payload_vote v) \/ wants_vote id slot_leader_at (rb_slot bank) (vp_vote_message v) = true).
Proof.
  rewrite list_elem_of_omap. unfold packet_vote, carries, keep_vote, vote_entry, payload_vote. split.
  - intros (p & Hp & Hv). destruct (pkt_discard p) eqn:Ed; [done|]. destruct (pkt_message p) as [[vote|]|] eqn:Em; try done.
    destruct (pkt_remote_pubkey p) as [pk|] eqn:Er; [|done]. apply fmap_Some in Hv as ([key bls] & Hk & ->). simpl.
    destruct (get_rank_map _ _) as [rm|]; [|done]. cbn [mbind option_bind] in *.
    destruct (get_pubkey_stake_entry rm _) as [e|]; [|done]. cbn [mbind option_bind] in *. exists e.
    case_bool_decide as Hs; [|destruct (wants_vote _ _ _ _) eqn:Ew; [|done]]; injection Hk as <- <-;
      (split; [by exists p|]); (split; [done|]); (split; [done|]); [left; lia|by right].
  - intros (e & (p & Hp & Ed & Em & Er) & He & Hv & Hw). exists p. split; [done|]. rewrite Ed, Em, Er.
    destruct (get_rank_map _ _) as [rm|]; [|done]. cbn [mbind option_bind] in *. rewrite He. cbn [mbind option_bind].
    rewrite Hv at 4. case_bool_decide; [done|]. destruct Hw as [?|Hw]; [lia|]. by rewrite Hw.
Qed.
Lemma packet_cert_spec s g bank batches c : c ∈ omap (packet_cert s g bank) (concat batches) <->
  carries batches (MCertificate (cp_cert c)) (cp_remote_pubkey c) /\ rb_slot bank < cert_slot (cert_type (cp_cert c)) /\
  (cert_type (cp_cert c) ∉ sg_verified_certs s) /\ (cert_type (cp_cert c) ∉ g).
Proof.
  rewrite list_elem_of_omap. unfold packet_cert, carries. split.
  - intros (p & Hp & Hc). destruct (pkt_discard p) eqn:Ed; [done|]. destruct (pkt_message p) as [[|cert]|] eqn:Em; try done.
    destruct (pkt_remote_pubkey p) as [pk|] eqn:Er; [|done]. case_bool_decide; [|done]. injection Hc as <-. split; [by exists p|done].
  - intros [(p & Hp & Ed & Em & Er) Hc]. exists p. split; [done|]. rewrite Ed, Em, Er, bool_decide_true by done. by destruct c.
Qed.

(** *** A batch *)

(** The messages that are valid for the verifier and those that are not. *)
Definition near_vote (bank : RootBank) (m : VoteMessage) : Prop :=
  vote_slot (vm_vote m) <= rb_slot bank +s NUM_SLOTS_FOR_VERIFY.
Definition good_message (s : SigVerifier) (generated : gset CertificateType) (bank : RootBank) (m : ConsensusMessage) : Prop :=
  match m with
  | MVote v => rb_slot bank < vote_slot (vm_vote v) /\ near_vote bank v /\
      exists e, vote_entry bank v = Some e /\ vote_check e v = true
  | MCertificate cert => rb_slot bank < cert_slot (cert_type cert) /\ (cert_type cert ∉ sg_verified_certs s) /\
      (cert_type cert ∉ generated) /\ verify_cert cert bank = Some (Ok tt)
  end.
Definition bad_message (bank : RootBank) (m : ConsensusMessage) : Prop :=
  match m with
  | MVote v => near_vote bank v /\ exists e, vote_entry bank v = Some e /\ vote_check e v = false
  | MCertificate cert => rb_slot bank < cert_slot (cert_type cert) /\ verify_cert cert bank <> Some (Ok tt)
  end.

Section batch.
Context (HE : stakes_ok E) (bank : RootBank) (Hbank : bank_fits E bank).
Context (batches : list (list Packet)) (now : Instant).
Abbreviation Good m := (message_verified m /\ exists pk, carries batches m pk).
Abbreviation Wanted v := (message_verified (MVote v) /\ wants_vote id slot_leader_at (rb_slot bank) v = true).
Abbreviation Guilty pk := (exists m, carries batches m pk /\ bad_message bank m).

Lemma entry_verified m e : vote_entry bank m = Some e ->
  signed (en_bls_pubkey e) (wincode_serialize (vm_vote m)) -> message_verified (MVote m).
Proof using Hbank.
  unfold vote_entry, get_rank_map. intros He Hs k Hk. destruct (epoch_stakes_from_slot bank _) as [es|] eqn:Ees; [|done].
  simpl in He. apply Hbank in Ees. exists e. unfold get_pubkey_stake_entry, slot_key_of, slot_entries in *. rewrite Ees in *.
  case_bool_decide; [|done]. rewrite He in Hk. injection Hk as <-. split; [|done]. by eapply list_elem_of_lookup_2.
Qed.

Lemma run_votes_spec s : exists s' r,
  run_votes id slot_leader_at (omap (packet_vote bank) (concat batches)) bank now s = Some (s', r) /\
  sg_verified_certs s' = sg_verified_certs s /\
  progress (fun m => Good m)
    (fun m => exists v pk, m = MVote v /\ carries batches m pk /\ good_message s ∅ bank m) (fun v => Wanted v) (fun pk => Guilty pk) now s s'.
Proof using All.
  set (votes := omap _ _). assert (Forall (fun v => vp_prepared_payload v = None) votes) as HF.
  { apply Forall_forall. intros v (e & _ & _ & -> & _)%packet_vote_spec. done. }
  destruct (verify_votes_spec bank votes now (sg_banlist s) HF) as (votes' & pks & Hv & Hsound & Hcomp & Hbans).
  assert (forall v, v ∈ votes' -> message_verified (MVote (vp_vote_message v)) /\ exists pk, carries batches (MVote (vp_vote_message v)) pk) as Hver.
  { intros v Hin. destruct (Hsound v Hin) as (Hs & _ & (e & Hc & He & Heq & _)%packet_vote_spec). simpl in *.
    split; [|by exists (vp_remote_pubkey v)]. apply (entry_verified _ e He). injection Heq as <- _. exact Hs. }
  unfold run_votes, verify_and_send_votes. case_bool_decide as Hnil.
  - eexists _, _. split; [done|]. split; [done|]. destruct s as [l ch vs lo]. cbn. apply progress_refl.
    intros m (v & pk & -> & Hc & Hr & _ & e & He & _).
    assert (mkVotePayload v (en_bls_pubkey e) (en_vote_account_pubkey e) pk None ∈ votes) as Hin
      by (apply packet_vote_spec; exists e; split; [done|]; split; [done|]; split; [done|by left]).
    rewrite Hnil in Hin. by apply elem_of_nil in Hin.
  - rewrite Hv. cbn [mbind option_bind]. pose proof (send_verified_spec now bank votes' (sg_channels s)) as [Hp (new & Hr & Hw)].
    destruct (send_verified _ _ _ _ _ _) as [ch r]. cbn in *. eexists _, _. split; [done|]. split; [done|].
    destruct (pool_attempt (fun m => Good m)
      (fun m => exists v pk, m = MVote v /\ carries batches m pk /\ good_message s ∅ bank m) _ _ _ Hp) as [Hf Hn].
    + intros m (v & -> & Hin)%list_elem_of_fmap. by apply Hver.
    + intros m (v & pk & -> & Hc & Hr' & Hn & e & He & Hck).
      assert (v ∈ vp_vote_message <$> votes') as Hin.
      { apply (Hcomp (mkVotePayload v (en_bls_pubkey e) (en_vote_account_pubkey e) pk None)); try done.
        apply packet_vote_spec. exists e. split; [done|]. split; [done|]. split; [done|by left]. }
      apply list_elem_of_fmap in Hin as (v' & -> & Hin). apply list_elem_of_fmap. by exists v'.
    + split; [done|done| |].
      * exists new. split; [done|]. intros x v Hx Hin. destruct (Hw x v Hx Hin) as [(v' & -> & Hv')%list_elem_of_fmap Hw']. split; [by apply Hver|done].
      * exists pks. split; [done|]. intros pk (v & (e & Hc & He & Heq & _)%packet_vote_spec & Hnr & Hbad & <-)%Hbans.
        exists (MVote (vp_vote_message v)). split; [done|]. split; [done|]. exists e. split; [done|].
        rewrite Heq in Hbad. exact Hbad.
Qed.

(** *** Certificates *)
Lemma verify_certs_spec certs : forall vs l, exists msgs vs' pks,
  verify_certs certs bank now vs l = Some (msgs, vs', ban_all now l pks) /\
  (forall m, m ∈ msgs <-> exists c, c ∈ certs /\ m = MCertificate (cp_cert c) /\ verify_cert (cp_cert c) bank = Some (Ok tt)) /\
  (forall pk, pk ∈ pks -> exists c, c ∈ certs /\ cp_remote_pubkey c = pk /\ verify_cert (cp_cert c) bank <> Some (Ok tt)).
Proof using All.
  unfold verify_certs. induction certs as [|c certs IH]; intros vs l.
  { exists [], vs, []. split; [done|]. split; [|by intros pk ?%elem_of_nil].
    intros m. split; [by intros ?%elem_of_nil|]. by intros (c & ?%elem_of_nil & _). }
  cbn [mapM]. destruct (verify_cert_spec E HE (cp_cert c) bank Hbank) as (r & Hr & _). rewrite Hr. cbn [fmap option_fmap option_map mbind option_bind].
  destruct r as [[]|e].
  - destruct (IH ({[cert_type (cp_cert c)]} ∪ vs) l) as (msgs & vs' & pks & Hv & Hm & Hp).
    destruct (mapM _ certs) as [vl|]; [|done]. cbn [mbind option_bind mret option_ret] in *. injection Hv as Hv. cbn [collect_certs]. rewrite Hv.
    exists (MCertificate (cp_cert c) :: msgs), vs', pks. split; [done|]. split.
    + intros m. rewrite elem_of_cons, Hm. split.
      * intros [->|(c' & Hc' & ?)]; [exists c; split; [left|done]|exists c'; split; [by right|done]].
      * intros (c' & [->|Hc']%elem_of_cons & -> & Hok); [by left|right; by exists c'].
    + intros pk (c' & ? & ?)%Hp. exists c'. split; [by right|done].
  - destruct (IH vs (qos_ban l now (cp_remote_pubkey c) BAN_TIMEOUT).1) as (msgs & vs' & pks & Hv & Hm & Hp).
    destruct (mapM _ certs) as [vl|]; [|done]. cbn [mbind option_bind mret option_ret] in *. injection Hv as Hv. cbn [collect_certs]. rewrite Hv.
    exists msgs, vs', (cp_remote_pubkey c :: pks). split; [done|]. split.
    + intros m. rewrite Hm. split; [intros (c' & Hc' & ?); exists c'; split; [by right|done]|].
      intros (c' & [->|Hc']%elem_of_cons & -> & Hok); [congruence|by exists c'].
    + intros pk [->|(c' & ? & ?)%Hp]%elem_of_cons; [exists c; split; [left|split; congruence]|exists c'; split; [by right|done]].
Qed.

Lemma run_certs_spec g s0 s : sg_verified_certs s = sg_verified_certs s0 -> exists s' r,
  run_certs (omap (packet_cert s0 g bank) (concat batches)) bank now s = Some (s', r) /\
  progress (fun m => Good m)
    (fun m => exists c pk, m = MCertificate c /\ carries batches m pk /\ good_message s0 g bank m) (fun v => Wanted v) (fun pk => Guilty pk) now s s'.
Proof using All.
  intros Hvs. set (certs := omap _ _).
  assert (forall c, c ∈ certs -> carries batches (MCertificate (cp_cert c)) (cp_remote_pubkey c) /\
    rb_slot bank < cert_slot (cert_type (cp_cert c)) /\ (cert_type (cp_cert c) ∉ sg_verified_certs s)) as Hc
    by (intros c (? & ? & ? & _)%packet_cert_spec; rewrite Hvs; done).
  assert (forall m, (exists c pk, m = MCertificate c /\ carries batches m pk /\ good_message s0 g bank m) ->
    exists c, c ∈ certs /\ m = MCertificate (cp_cert c) /\ verify_cert (cp_cert c) bank = Some (Ok tt)) as HD.
  { intros m (c & pk & -> & Hca & Hs & Hn & Hg & Hok). exists (mkCertPayload c pk). split; [|done]. by apply packet_cert_spec. }
  unfold run_certs, verify_and_send_certificates.
  assert (forallb (fun payload => negb (bool_decide (cert_type (cp_cert payload) ∈ sg_verified_certs s))) certs = true) as ->.
  { apply forallb_forall. intros c Hin. apply list_elem_of_In, Hc in Hin as (_ & _ & Hn). by rewrite bool_decide_false. }
  cbn [rust_assert mbind option_bind]. case_bool_decide as Hnil.
  - eexists _, _. split; [done|]. destruct s as [l [c1 c2 c3 c4] vs lo]. cbn. apply progress_refl.
    intros m (c & Hin & _)%HD. rewrite Hnil in Hin. by apply elem_of_nil in Hin.
  - destruct (verify_certs_spec certs (sg_verified_certs s) (sg_banlist s)) as (msgs & vs' & pks & -> & Hm & Hp). cbn [mbind option_bind].
    pose proof (send_certs_to_pool_spec msgs (channel_to_pool (sg_channels s))) as Hs.
    destruct (send_certs_to_pool _ _) as [pl r]. cbn in *. eexists _, _. split; [done|].
    destruct (pool_attempt (fun m => Good m)
      (fun m => exists c pk, m = MCertificate c /\ carries batches m pk /\ good_message s0 g bank m) _ _ _ Hs) as [Hf Hn].
    + intros m (c & Hin & -> & Hok)%Hm. split; [|exists (cp_remote_pubkey c); by apply Hc].
      destruct (verify_cert_spec E HE (cp_cert c) bank Hbank) as (r' & Hr & Hr'). rewrite Hok in Hr. injection Hr as <-. by apply Hr'.
    + intros m Hd%HD. by apply Hm.
    + split; [done|done| |].
      * exists []. cbn. rewrite app_nil_r. split; [done|]. by intros x v ?%elem_of_nil.
      * exists pks. split; [done|]. intros pk (c & Hin & <- & Hbad)%Hp. destruct (Hc c Hin) as (? & ? & _).
        by exists (MCertificate (cp_cert c)).
Qed.

(** A batch never panics, in whichever order the two threads get to the channel. *)
Lemma batch_spec g certs_first s : exists s' r,
  verify_and_send_batches id slot_leader_at g bank now certs_first batches s = Some (s', r) /\
  progress (fun m => Good m)
    (fun m => exists pk, carries batches m pk /\ good_message (maybe_prune_caches s (rb_slot bank)) g bank m)
    (fun v => Wanted v) (fun pk => Guilty pk) now s s'.
Proof using All.
  unfold verify_and_send_batches. set (s0 := maybe_prune_caches s (rb_slot bank)). rewrite extract_spec.
  assert (forall P Q R S s', progress P Q R S now s0 s' -> progress P Q R S now s s') as Hprune.
  { intros P Q R S s' [F1 F2 F3 F4]. unfold s0, maybe_prune_caches in *. destruct (bool_decide _); by split. }
  destruct certs_first.
  - destruct (run_certs_spec g s0 s0 eq_refl) as (s1 & rc & -> & P1). cbn [mbind option_bind].
    destruct (run_votes_spec s1) as (s2 & rv & -> & _ & P2). cbn [mbind option_bind]. eexists _, _. split; [done|].
    apply Hprune. eapply progress_mono; [..|eapply progress_trans; [exact P1|exact P2]]; try done.
    intros [v|c] (pk & Hc & Hg); [right; by exists v, pk|left; by exists c, pk].
  - destruct (run_votes_spec s0) as (s1 & rv & -> & Hvs & P1). cbn [mbind option_bind].
    destruct (run_certs_spec g s0 s1 Hvs) as (s2 & rc & -> & P2). cbn [mbind option_bind]. eexists _, _. split; [done|].
    apply Hprune. eapply progress_mono; [..|eapply progress_trans; [exact P1|exact P2]]; try done.
    intros [v|c] (pk & Hc & Hg); [left; by exists v, pk|right; by exists c, pk].
Qed.
End batch.

(** ** The verifier's life

    It starts with empty channels; between its iterations the readers of the channels
    come and go, and the streamer uses the ban list. *)
Inductive verifier_run : SigVerifier -> Prop :=
  | vr_start banlist ch : sent (channel_to_pool ch) = [] -> sent (channel_to_reward ch) = [] ->
      verifier_run (sig_verifier_new banlist ch)
  | vr_turn s t s' x : verifier_run s -> bank_fits E (vt_root_bank t) ->
      verifier_iteration id slot_leader_at t s = Some (s', x) -> verifier_run s'
  | vr_env s s' : verifier_run s -> sent (pool s') = sent (pool s) -> sent (reward s') = sent (reward s) ->
      sg_verified_certs s' = sg_verified_certs s -> sg_last_checked_root_slot s' = sg_last_checked_root_slot s ->
      verifier_run s'.

Lemma iteration_spec (HE : stakes_ok E) t s : bank_fits E (vt_root_bank t) -> exists s' x,
  verifier_iteration id slot_leader_at t s = Some (s', x) /\
  progress message_verified (fun _ => False) (fun v => message_verified (MVote v)) (fun _ => True) (vt_now t) s s'.
Proof.
  intros Hb. unfold verifier_iteration. destruct (recv_batches _ _).1 as [batches|]; [|eexists _, _; split; [done|]; apply progress_refl; by intros m []].
  destruct (_ || _); [eexists _, _; split; [done|]; apply progress_refl; by intros m []|].
  destruct (batch_spec HE (vt_root_bank t) Hb batches (vt_now t) (vt_generated t) (vt_certs_first t) s) as (s' & r & -> & P).
  cbn [mbind option_bind]. eexists _, _. split; [done|]. eapply progress_mono; [..|exact P]; naive_solver.
Qed.
Lemma verifier_run_sound (HE : stakes_ok E) s : verifier_run s ->
  (forall ms m, ms ∈ sent (pool s) -> m ∈ ms -> message_verified m) /\
  (forall x v, x ∈ sent (reward s) -> v ∈ av_votes x -> message_verified (MVote v)).
Proof.
  induction 1 as [banlist ch Hp Hr|s t s' x _ [IH1 IH2] Hb Hi|s s' _ [IH1 IH2] Hp Hr _ _].
  - simpl. rewrite Hp, Hr. split; [by intros ms m ?%elem_of_nil|by intros x v ?%elem_of_nil].
  - destruct (iteration_spec HE t s Hb) as (s1 & x1 & Hi' & [_ (n & P & P' & _) (r & R & R') _]).
    rewrite Hi in Hi'. injection Hi' as <- <-. rewrite P, R. split.
    + intros ms m [?|Hin]%elem_of_app Hm; [by eapply IH1|]. apply P'. rewrite list_elem_of_In, in_concat.
      exists ms. rewrite <-!list_elem_of_In. done.
    + intros y v [?|?]%elem_of_app Hv; eauto.
  - rewrite Hp, Hr. done.
Qed.
End service.

(** ** Verification when it is known who signs what

    The operations on votes for [VerifyExample.sign_oracle], and an instance of all
    BLS operations in which signatures are numbers that are added up, so that the sum
    matters: [sum_oracle]. *)
Module BatchExample.
#[export] Existing Instance additive_bls.
#[export] Existing Instance additive_bls_laws.

Section oracle.
Context (signs : Z -> list Z -> bool).
Abbreviation verdict b := (if b : bool then Ok tt else Err tt).
Definition groups_sign (aggs ms : list (list Z)) : bool :=
  forallb (fun p : list Z * list Z => forallb (fun pk => signs pk p.2) p.1) (zip aggs ms).

Lemma groups_sign_spec aggs ms : length aggs = length ms -> groups_sign aggs ms = true ->
  Forall2 (fun pks m => Forall (fun pk => signs pk m = true) pks) aggs ms.
Proof.
  unfold groups_sign. revert ms. induction aggs as [|pks aggs IH]; intros [|m ms]; try done. simpl. intros [= Hl].
  intros [Hp Hr]%andb_true_iff. constructor; [|by apply IH]. apply Forall_forall. intros pk Hpk.
  rewrite forallb_forall in Hp. apply Hp. by apply list_elem_of_In.
Qed.
Lemma forallb_signs pks m : forallb (fun pk => signs pk m) pks = true <-> Forall (fun pk => signs pk m = true) pks.
Proof. rewrite forallb_forall, Forall_forall. setoid_rewrite list_elem_of_In. done. Qed.

Section ignored.
#[local] Instance ignoring : BlsVerify := VerifyExample.sign_oracle signs.
#[local] Instance ignoring_laws : BlsVerifyLaws := VerifyExample.sign_oracle_laws signs.
Definition sign_batch : BatchOps := {|
  PreparedHashedMessage := list Z;
  prepared_new := fun m => m;
  signature_par_aggregate := fun l => if bool_decide (l = []) then Err tt else Ok (sumZ l);
  key_verify_signature := fun pk _ m => verdict (signs pk m);
  key_verify_prepared := fun pk _ m => verdict (signs pk m);
  aggregate_verify_prepared := fun (agg : list Z) _ m => verdict (forallb (fun pk => signs pk m) agg);
  par_verify_distinct_prepared := fun (aggs : list (list Z)) _ ms => verdict (groups_sign aggs ms);
  hash_votes_iter := fun l => l;
|}.

(** The keys' aggregates of this instance are the lists of the keys. *)
Lemma aggregates_are_keys (pkss aggs : list (list Z)) :
  Forall2 (fun pks agg => (if bool_decide (pks = []) then Err tt else Ok pks : result unit (list Z)) = Ok agg) pkss aggs -> aggs = pkss.
Proof. induction 1 as [|pks agg pkss aggs He _ ->]; [done|]. case_bool_decide; [done|]. by injection He as <-. Qed.
Lemma verdict_true (b : bool) : (verdict b : result unit unit) = Ok tt -> b = true.
Proof. by destruct b. Qed.

#[local] Existing Instance sign_batch.
Definition sign_batch_laws : BatchLaws.
Proof.
  split; simpl; try done.
  - by intros pk _ m ?%verdict_true.
  - by intros pk m ->.
  - intros pks agg s m. case_bool_decide; [done|]. intros [= <-] Hv%verdict_true. by apply forallb_signs.
  - intros pkss aggs s ms ->%aggregates_are_keys Hl Hv%verdict_true. rewrite list_fmap_id in Hv. by apply groups_sign_spec.
Qed.

End ignored.

Abbreviation sign := VerifyExample.sign.
#[local] Instance sum_oracle : BlsVerify := {|
  AggregatePubkey := list Z;
  wincode_serialize := VerifyExample.serialize;
  current_num_threads := 8%nat;
  pubkey_aggregate l := if bool_decide (l = []) then Err tt else Ok l;
  pubkey_par_aggregate l := if bool_decide (l = []) then Err tt else Ok l;
  verify_signature agg s m :=
    verdict (forallb (fun pk => signs pk m) agg && bool_decide (s = sumZ ((fun pk => sign pk m) <$> agg)));
  verify_distinct_aggregated pks s ms :=
    verdict (forallb (fun p => signs p.1 p.2) (zip pks ms) && bool_decide (s = sumZ (zip_with sign pks ms)));
  par_verify_distinct_aggregated pks s ms :=
    verdict (forallb (fun p => signs p.1 p.2) (zip pks ms) && bool_decide (s = sumZ (zip_with sign pks ms)));
  signature_compress s := Some s;
  signature_uncompress z := Ok z;
|}.
#[local] Instance sum_oracle_laws : BlsVerifyLaws.
Proof.
  pose proof (VerifyExample.sign_oracle_laws signs) as L.
  refine {| signed := fun pk m => signs pk m = true; sig_of := sign |}; simpl; try done.
  - exact (@serialize_inj _ _ L).
  - exact (@decode_disjoint _ _ L).
  - intros pks agg s m. case_bool_decide; [done|]. intros [= <-] [Hv _]%verdict_true%andb_true_iff. by apply forallb_signs.
  - intros pks s ms Hl [Hv _]%verdict_true%andb_true_iff.
    apply (VerifyExample.all_sign_iff signs pks ms Hl). unfold VerifyExample.all_sign. by rewrite Hv.
  - exact (@compress_uncompress _ _ L).
  - exact (@aggregate_perm _ _ L).
  - exact (@pubkey_aggregate_nil _ _ L).
  - exact (@pubkey_aggregate_ok _ _ L).
  - intros pks agg s m. case_bool_decide; [done|]. intros [= <-] HF [= <-].
    rewrite (proj2 (forallb_signs pks m) HF), bool_decide_true by lia. done.
  - intros pks ms s _ HF [= <-]. rewrite (bool_decide_true (0 + _ = _)) by lia.
    pose proof (proj2 (VerifyExample.all_sign_iff signs pks ms (Forall2_length _ _ _ HF)) HF) as Ha.
    unfold VerifyExample.all_sign in Ha. destruct (forallb _ _); done.
Defined.
#[local] Instance sum_batch : BatchOps := {|
  PreparedHashedMessage := list Z;
  prepared_new := fun m => m;
  signature_par_aggregate := fun l => if bool_decide (l = []) then Err tt else Ok (sumZ l);
  key_verify_signature := fun pk s m => verdict (signs pk m && bool_decide (s = sign pk m));
  key_verify_prepared := fun pk s m => verdict (signs pk m && bool_decide (s = sign pk m));
  aggregate_verify_prepared := fun (agg : list Z) (s : Z) m =>
    verdict (forallb (fun pk => signs pk m) agg && bool_decide (s = sumZ ((fun pk => sign pk m) <$> agg)));
  par_verify_distinct_prepared := fun (aggs : list (list Z)) (s : Z) ms =>
    verdict (groups_sign aggs ms && bool_decide (s = sumZ (zip_with (fun pks m => sumZ ((fun pk => sign pk m) <$> pks)) aggs ms)));
  hash_votes_iter := fun l => l;
|}.
#[local] Instance sum_batch_laws : BatchLaws.
Proof.
  split; simpl; try done.
  - by intros pk s m [? _]%verdict_true%andb_true_iff.
  - intros pk m ->. by rewrite bool_decide_true.
  - intros pks agg s m. case_bool_decide; [done|]. intros [= <-] [Hv _]%verdict_true%andb_true_iff. by apply forallb_signs.
  - intros pkss aggs s ms ->%aggregates_are_keys Hl [Hv _]%verdict_true%andb_true_iff. rewrite list_fmap_id in Hv. by apply groups_sign_spec.
Qed.
End oracle.
End BatchExample.

(** ** Example: signatures that cancel

    The validators of [Example3]; all of them sign.  A peer, 66, takes the votes that
    validators 1 and 3 broadcast, adds 5 to the signature of one and takes 5 from the
    signature of the other, and sends both in a batch. *)
Module CancelExample.
#[export] Existing Instance additive_bls.
#[export] Existing Instance additive_bls_laws.
Definition signs (pk : Z) (_ : list Z) : bool := bool_decide (pk ∈ [101; 102; 103]).
#[export] Instance oracle : BlsVerify := BatchExample.sum_oracle signs.
#[export] Instance oracle_laws : BlsVerifyLaws := BatchExample.sum_oracle_laws signs.
#[export] Instance batch : BatchOps := BatchExample.sum_batch signs.
#[export] Instance batch_laws : BatchLaws := BatchExample.sum_batch_laws signs.
#[export] Instance iter : RewardOps := {|
  bincode_serialize := VerifyExample.serialize;
  hash_iter := fun A m => map_to_list m;
  hash_set_iter := elements;
|}.

Definition vote (v : Vote) (rank shift : Z) : VoteMessage :=
  mkVoteMessage v (VerifyExample.sign (101 + rank) (VerifyExample.serialize v) + shift) rank.
Definition packet (m : ConsensusMessage) (peer : Pubkey) : Packet := mkPacket false (Some m) (Some peer).
Definition notarize1 : VoteMessage := vote (Notarize 5 7) 0 5.
Definition skip3 : VoteMessage := vote (Skip 5) 2 (-5).
Definition notarize2 : VoteMessage := vote (Notarize 5 7) 1 0.
Definition batch1 : list (list Packet) := [[packet (MVote notarize1) 66; packet (MVote skip3) 66]; [packet (MVote notarize2) 2]].

Definition leader (_ : Slot) : option Pubkey := None.
Definition open {A} : Sender A := mkSender [] true false.
Definition boot : SigVerifier :=
  sig_verifier_new (mkQosBanlist banlist_default open) (mkVerifierChannels open open open open).
Definition turn (batches : list (list Packet)) (generated : gset CertificateType) : VerifierTurn :=
  mkVerifierTurn (mkReceiver _ batches true) (FullAlpenglowEpoch 0 (mkCertificate (CGenesis 0 0) 0 [])) Example3.bank 100 false generated.
Definition verify (id : Pubkey) (batches : list (list Packet)) (generated : gset CertificateType) (s : SigVerifier) : SigVerifier :=
  match verifier_iteration id leader (turn batches generated) s with Some (s', _) => s' | None => s end.
Abbreviation pool_messages s := (concat (sent (channel_to_pool (sg_channels s)))).
Abbreviation banned_peers s := (banned (qos_banlist (sg_banlist s))).

(** Node 1: the verifier and then the pool service. *)
Definition verifier1 : SigVerifier := verify 1 batch1 ∅ boot.
Definition ms : MigrationStatus := status_new (FullAlpenglowEpoch 0 (mkCertificate (CGenesis 0 0) 0 [])).
Definition cx : ServiceContext := mkServiceContext 1 1 (fun _ _ => Some 9) (fun _ => false).
Definition service1 : option Service :=
  fst <$> ingest_iteration cx
    (mkTurn ms Example3.bank Example3.bank 101
      (RecvMessages ((fun m => mkDelivery m Example3.bank Example3.bank 102) <$> pool_messages verifier1)) 103)
    (service_start ms Example3.bank ∅ 0 (mkBlsSender [] []) open open None).
Definition cert_signature_of (shift : Z) : Z :=
  VerifyExample.sign 101 (VerifyExample.serialize (Notarize 5 7)) + VerifyExample.sign 102 (VerifyExample.serialize (Notarize 5 7)) + shift.
Definition cert (shift : Z) : Certificate := mkCertificate (CNotarize 5 7) (cert_signature_of shift) [0; 2; 2].
End CancelExample.
Import CancelExample.

(** ** What the optimistic check sees *)

(** The same vote under the same key, with whatever signature and from whatever peer. *)
Definition same_vote `{BatchOps} (v v' : VotePayload) : Prop :=
  payload_vote v' = payload_vote v /\ vp_bls_pubkey v' = vp_bls_pubkey v.

(** The check depends on the signatures of a batch only through their sum. *)
Lemma group_votes_same `{BatchOps} l l' : Forall2 same_vote l l' -> group_votes l' = group_votes l.
Proof.
  intros Hl. unfold group_votes. generalize (@nil (Vote * list Z)) as groups.
  induction Hl as [|v v' l l' [Hv Hk] _ IH]; intros groups; [done|]. simpl. rewrite Hv, Hk. apply IH.
Qed.
Lemma optimistic_same `{BatchOps} l l' :
  Forall2 same_vote l l' -> aggregate_signatures l' = aggregate_signatures l ->
  verify_votes_optimistic l' = verify_votes_optimistic l.
Proof.
  intros Hl Hs. unfold verify_votes_optimistic, aggregate_pubkeys_by_payload. by rewrite Hs, (group_votes_same l l' Hl).
Qed.

(** ** Properties *)

(** C3: Soundness.  Whatever packets arrive, in whatever order, with readers of the
    channels coming and going: every vote that was handed to the consensus pool or to
    the rewards service was signed by the validator with its rank, and every
    certificate that was handed to the pool is signed by validators with the stake it
    requires; and the next iteration never panics. *)
Theorem verifier_sound `{BatchOps, RewardOps, !BlsLaws, !BlsVerifyLaws, !BatchLaws} id slot_leader_at E s
    (HE : stakes_ok E) (Hrun : verifier_run id slot_leader_at E s) :
  (forall ms m, ms ∈ sent (channel_to_pool (sg_channels s)) -> m ∈ ms -> message_verified E m) /\
  (forall x v, x ∈ sent (channel_to_reward (sg_channels s)) -> v ∈ av_votes x -> message_verified E (MVote v)) /\
  forall t, bank_fits E (vt_root_bank t) -> is_Some (verifier_iteration id slot_leader_at t s).
Proof.
  destruct (verifier_run_sound id slot_leader_at E HE s Hrun) as [Hp Hr]. split; [done|]. split; [done|].
  intros t Hb. destruct (iteration_spec id slot_leader_at E HE t s Hb) as (s' & x & -> & _). done.
Qed.
Lemma verifier_sound_witness :
  pool_messages verifier1 = [MVote notarize1; MVote skip3; MVote notarize2] /\ message_verified Example3.E (MVote notarize2).
Proof.
  assert (pool_messages verifier1 = [MVote notarize1; MVote skip3; MVote notarize2]) as Hm by (vm_compute; reflexivity).
  split; [exact Hm|].
  destruct (verifier_sound 1 leader Example3.E verifier1 Example3.stakes_ok_E) as [Hs _].
  - apply (vr_turn 1 leader Example3.E boot (turn batch1 ∅) verifier1 LoopContinue);
      [by apply vr_start|exact Example3.bank_fits_E|vm_compute; reflexivity].
  - apply (Hs [MVote notarize1; MVote skip3; MVote notarize2]); [vm_compute; left|]. right. right. left.
Defined.

(** C4: A bad message does not harm the good ones.  A batch never panics.  If the
    channel to the pool takes messages, every vote for a slot above the root with a
    valid signature (which those made by the validator are) and every certificate that
    verifies and is not known yet is sent to the pool, whatever else is in the batch
    and whichever check the votes went through; and a peer that has sent nothing
    invalid is not banned. *)
Theorem batch_delivered `{BatchOps, RewardOps, !BlsLaws, !BlsVerifyLaws, !BatchLaws} id slot_leader_at E bank batches now
    generated certs_first s (HE : stakes_ok E) (Hbank : bank_fits E bank) :
  exists s' r new,
    verify_and_send_batches id slot_leader_at generated bank now certs_first batches s = Some (s', r) /\
    sent (channel_to_pool (sg_channels s')) = sent (channel_to_pool (sg_channels s)) ++ new /\
    (accepting (channel_to_pool (sg_channels s)) -> forall m pk, carries batches m pk ->
       good_message (maybe_prune_caches s (rb_slot bank)) generated bank m -> m ∈ concat new) /\
    (forall pk, (forall m, carries batches m pk -> ~ bad_message bank m) ->
       banned (qos_banlist (sg_banlist s')) !! pk = banned (qos_banlist (sg_banlist s)) !! pk) /\
    (forall v e, vote_entry bank v = Some e -> signed (en_bls_pubkey e) (wincode_serialize (vm_vote v)) ->
       vm_signature v = sig_of (en_bls_pubkey e) (wincode_serialize (vm_vote v)) -> vote_check e v = true).
Proof.
  destruct (batch_spec id slot_leader_at E HE bank Hbank batches now generated certs_first s) as
    (s' & r & Hv & [_ (new & Hp & _ & Hd) _ (pks & Hb & Hg)]).
  exists s', r, new. split; [done|]. split; [done|]. split; [|split].
  - intros Ha m pk Hc Hgood. apply Hd; [done|]. by exists pk.
  - intros pk Hpk. rewrite Hb. apply ban_all_other. intros (m & Hc & Hbad)%Hg. by apply (Hpk m).
  - intros v e _ Hs Hsig. unfold vote_check. rewrite Hsig, key_verify_complete; done.
Qed.
Lemma batch_delivered_witness : exists s' r new,
  verify_and_send_batches 1 leader ∅ Example3.bank 100 false [[packet (MVote notarize1) 66]; [packet (MVote notarize2) 2]] boot
    = Some (s', r) /\
  MVote notarize2 ∈ concat new /\ banned_peers s' !! 2 = None.
Proof.
  destruct (batch_delivered 1 leader Example3.E Example3.bank [[packet (MVote notarize1) 66]; [packet (MVote notarize2) 2]] 100 ∅ false boot
    Example3.stakes_ok_E Example3.bank_fits_E) as (s' & r & new & Hv & Hs & Hd & Hb & _).
  exists s', r, new. split; [exact Hv|]. split.
  - apply (Hd (conj eq_refl eq_refl) _ 2).
    + exists (packet (MVote notarize2) 2). split; [right; left|done].
    + split; [done|]. split; [done|]. eexists. split; [vm_compute; reflexivity|vm_compute; reflexivity].
  - rewrite Hb; [reflexivity|]. intros m (p & Hp & _ & Hm & Hr). simpl in Hp.
    apply elem_of_cons in Hp as [->|Hp]; [done|]. apply list_elem_of_singleton in Hp as ->. injection Hm as <-.
    intros (_ & e & He & Hck). vm_compute in He. injection He as <-. vm_compute in Hck. done.
Defined.

(** What happens next, in the example: node 1 accepts both votes that peer 66 sends,
    though neither has a valid signature, and does not ban the peer.  With the vote of
    validator 2 the pool of node 1 makes a notarization certificate and broadcasts it.
    Its signature is wrong: node 2 rejects it and bans node 1 for 48 hours.  Node 1,
    for its part, no longer looks at the correct certificate, since it believes it has
    one. *)
Example cancelling_signatures_consequences :
  (exists e1 e3, vote_entry Example3.bank notarize1 = Some e1 /\ vote_check e1 notarize1 = false /\
     vote_entry Example3.bank skip3 = Some e3 /\ vote_check e3 skip3 = false) /\
  pool_messages verifier1 = [MVote notarize1; MVote skip3; MVote notarize2] /\ banned_peers verifier1 = ∅ /\
  (exists s, service1 = Some s /\ PushCertificate (cert 5) ∈ bs_sent (sv_bls_sender s) /\
     (let v := verify 1 [[packet (MCertificate (cert 0)) 2]] (generated_cert_types (sv_pool s)) boot in
      pool_messages v = [])) /\
  verify_cert (cert 5) Example3.bank <> Some (Ok tt) /\ verify_cert (cert 0) Example3.bank = Some (Ok tt) /\
  let other := verify 2 [[packet (MCertificate (cert 5)) 1]] ∅ boot in
  pool_messages other = [] /\ banned_peers other !! 1 = Some (100 + BAN_TIMEOUT).
Proof.
  split; [do 2 eexists; repeat split; vm_compute; reflexivity|]. split; [vm_compute; reflexivity|]. split; [vm_compute; reflexivity|].
  split; [|split; [vm_compute; discriminate|split; [vm_compute; reflexivity|split; vm_compute; reflexivity]]].
  eexists. split; [vm_compute; reflexivity|]. split; [vm_compute; repeat first [apply list_elem_of_here | apply list_elem_of_further]|].
  vm_compute. reflexivity.
Qed.

(** C30: Invalid signatures are accepted when they cancel.  Take any batch of votes that
    passes the optimistic check, and replace the signatures by any others with the
    same sum: the batch is accepted as a whole, with every vote whose own signature
    does not verify, and nobody is banned. *)
Theorem cancelling_signatures_accepted `{BatchOps} bank votes votes' now banlist
    (Hnear : Forall (fun v => vote_slot (payload_vote v) <= rb_slot bank +s NUM_SLOTS_FOR_VERIFY) votes)
    (Hok : exists distinct payloads, verify_votes_optimistic votes = Some (OptVerified, distinct, payloads))
    (Hsame : Forall2 same_vote votes votes') (Hsum : aggregate_signatures votes' = aggregate_signatures votes) :
  verify_votes bank votes' now banlist = Some (votes', banlist).
Proof.
  destruct Hok as (distinct & payloads & Hok). unfold verify_votes.
  assert (filter (fun v => vote_slot (payload_vote v) <= rb_slot bank +s NUM_SLOTS_FOR_VERIFY) votes' = votes') as ->.
  { clear -Hnear Hsame. induction Hsame as [|v v' l l' [Hv _] _ IH]; [done|].
    apply Forall_cons in Hnear as [Hn Hnear]. rewrite filter_cons, decide_True by (by rewrite Hv). by rewrite IH. }
  by rewrite (optimistic_same votes votes' Hsame Hsum), Hok.
Qed.
Lemma cancelling_signatures_accepted_witness :
  let payload m := mkVotePayload m (101 + vm_rank m) (1 + vm_rank m) 66 None in
  let votes := payload <$> [vote (Notarize 5 7) 0 5; vote (Skip 5) 2 (-5)] in
  Forall (fun v => payload_verify v = None) votes /\
  verify_votes Example3.bank votes 100 (mkQosBanlist banlist_default open) =
    Some (votes, mkQosBanlist banlist_default open).
Proof.
  intros payload votes. split; [repeat constructor; vm_compute; reflexivity|].
  apply (cancelling_signatures_accepted Example3.bank (payload <$> [vote (Notarize 5 7) 0 0; vote (Skip 5) 2 0]) votes).
  - repeat constructor; by vm_compute.
  - eexists _, _. vm_compute. reflexivity.
  - repeat constructor.
  - vm_compute. reflexivity.
Defined.
