(* ===== verification/System.v ===== *)
(** * The network

    Validators that run the signature verifier, the consensus pool service, the event
    handler and the voting service of this repository, and others that may do anything.  If the latter hold
    less than 20% of the stake, a slot is decided once: when a block of it is
    finalized, fast or slow, by anyone, no validator ever accepts a certificate that
    skips the slot or that is for another block of it. *)

From S2P Require Import Prelude.
From S2P Require Import Messages.
From S2P Require Import ParentReady.
From S2P Require Import EpochStakes.
From S2P Require Import VotePools.
From S2P Require Import StakeCounters.
From S2P Require Import CertBuilder.
From S2P Require Import Finalization.
From S2P Require Import Migration.
From S2P Require Import ConsensusPool.
From S2P Require Import PoolVotes.
From S2P Require Import PoolCerts.
From S2P Require Import PoolSafety.
From S2P Require Import PoolOps.
From S2P Require Import PoolTheorems.
From S2P Require Import CertVerify.
From S2P Require Import VerifyTheorems.
From S2P Require Import BankForks.
From S2P Require Import VoteHistory.
From S2P Require Import VoteStorage.
From S2P Require Import Voting.
From S2P Require Import Timers.
From S2P Require Import PoolService.
From S2P Require Import ServiceTheorems.
From S2P Require Import Evidence.
From S2P Require Import EventHandler.
From S2P Require Import EventLogic.
From S2P Require Import Node.
From S2P Require Import Banlist.
From S2P Require Import Rewards.
From S2P Require Import SigVerify.
From S2P Require Import SigVerifyTheorems.

(** ** Votes of a slot *)

Section slot.
Context (E : Slot -> option VersionedEpochStakes) (HE : stakes_ok E).
Context (signs : Slot -> Pubkey -> Vote -> Prop).
(** The honest validators and the events each has seen. *)
Context (H : gset Z) (Ev : Pubkey -> list VotorEvent).
Context (Hbyz : forall s, 0 < slot_total E s ->
  100 * weight (slot_weight E s) (slot_keys E s ∖ H) < 20 * slot_total E s).
Context (Hhon : forall k, k ∈ H -> exists L, honest (Ev k) L /\ forall s v, signs s k v -> v ∈ L).
Context (Hev : forall k e, k ∈ H -> e ∈ Ev k -> proves E signs e).
Abbreviation w s := (weight (slot_weight E s)).

Lemma weight_split s X : w s X = w s (X ∩ H) + w s (X ∖ H).
Proof using Type.
  rewrite <-weight_union by (clear; set_solver). f_equal. apply set_eq. intros k. clear.
  destruct (decide (k ∈ H)); set_solver.
Qed.
Lemma byzantine_part s X : X ⊆ slot_keys E s -> 0 < slot_total E s -> 100 * w s (X ∖ H) < 20 * slot_total E s.
Proof using All.
  intros HX Hpos. pose proof (weight_mono _ (slot_weight_nonneg E HE s) (X ∖ H) (slot_keys E s ∖ H) ltac:(clear -HX; set_solver)).
  pose proof (Hbyz s Hpos). lia.
Qed.
Lemma weight_inhabited s (X : gset Z) : 0 < w s X -> exists k, k ∈ X.
Proof using Type.
  intros Hw. destruct (decide (X = ∅)) as [->|Hne]; [rewrite weight_empty in Hw; lia|]. by apply set_choose_L.
Qed.

(** Two sets that together exceed the total by a fifth share an honest validator. *)
Lemma share_honest s X Y :
  X ⊆ slot_keys E s -> Y ⊆ slot_keys E s -> 0 < slot_total E s ->
  120 * slot_total E s <= 100 * (w s X + w s Y) -> exists k, k ∈ H /\ k ∈ X /\ k ∈ Y.
Proof using All.
  intros HX HY Hpos Hle. pose proof (weight_inter (slot_weight E s) X Y) as Hi.
  pose proof (slot_weight_total E HE s (X ∪ Y) (union_least _ _ _ HX HY)) as Ht.
  assert (X ∩ Y ⊆ slot_keys E s) as HXY by (clear -HX; set_solver).
  pose proof (byzantine_part s (X ∩ Y) HXY Hpos) as Hb. pose proof (weight_split s (X ∩ Y)) as Hs.
  destruct (weight_inhabited s (X ∩ Y ∩ H)) as [k Hk]; [lia|]. exists k. clear -Hk. set_solver.
Qed.

Lemma first_unique k s b v : k ∈ H -> signs s k (Notarize s b) -> signs s k v -> first_vote s v -> v = Notarize s b.
Proof using All.
  intros Hk Hs Hs' Hv. destruct (Hhon k Hk) as (L & Hho & HL). apply (ho_first _ _ Hho s); try done; by eapply HL.
Qed.

(** *** Fast finalization *)

Section fast.
Context (s : Slot) (b : Hash) (Hfast : backed E signs (CFinalizeFast s b)).

(** The honest validators that notarized the block have more than 60%, so those
    that did not, with all the others, have less than 40%. *)
Lemma outside_small X :
  X ⊆ slot_keys E s -> (forall k, k ∈ H -> k ∈ X -> ~ signs s k (Notarize s b)) -> 100 * w s X < 40 * slot_total E s.
Proof using All.
  intros HX Hout. destruct Hfast as (K & HK & Hq & Hpos & Hs). simpl in *. unfold cert_pct in Hq; simpl in Hq.
  pose proof (byzantine_part s K HK Hpos) as Hb. pose proof (weight_split s K) as Hsp.
  assert (X ## K ∩ H) as Hd.
  { intros k Hk [HkK HkH]%elem_of_intersection. apply (Hout k HkH Hk).
    destruct (Hs k HkK) as (v & Hv & Hsv). unfold cert_votes in Hv. simpl in Hv.
    apply list_elem_of_singleton in Hv as ->. done. }
  assert (K ∩ H ⊆ slot_keys E s) as HKH by (clear -HK; set_solver).
  pose proof (quorum_intersect E HE s X (K ∩ H) HX HKH Hd). lia.
Qed.
Lemma fast_no_fallback k b' : k ∈ H -> b' <> b -> ~ signs s k (NotarizeFallback s b').
Proof using All.
  intros Hk Hb Hin. destruct (Hhon k Hk) as (L & Hho & HL). destruct (ho_notar_fallback _ _ Hho s b' (HL _ _ Hin)) as [_ Hsafe].
  destruct (Hev k _ Hk Hsafe) as (X & Y & HX & HY & HsX & HsY & Hle).
  assert (100 * w s (X ∪ Y) < 40 * slot_total E s) as Hsm.
  { apply outside_small; [by apply union_least|]. intros k' Hk' [Hx%HsX|Hy%HsY]%elem_of_union Hn.
    - pose proof (first_unique k' s b _ Hk' Hn Hx eq_refl). congruence.
    - pose proof (first_unique k' s b _ Hk' Hn Hy eq_refl). congruence. }
  pose proof (weight_mono _ (slot_weight_nonneg E HE s) X (X ∪ Y) ltac:(clear; set_solver)).
  destruct Hfast as (_ & _ & _ & Hpos & _). simpl in Hpos. lia.
Qed.
Lemma fast_no_skip_fallback k : k ∈ H -> ~ signs s k (SkipFallback s).
Proof using All.
  intros Hk Hin. destruct (Hhon k Hk) as (L & Hho & HL). destruct (ho_skip_fallback _ _ Hho s (HL _ _ Hin)) as [_ Hsafe].
  destruct (Hev k _ Hk Hsafe b) as (X & HX & Hle & HsX).
  assert (100 * w s X < 40 * slot_total E s); [|lia].
  apply outside_small; [done|]. intros k' Hk' [Hx|(b' & Hb' & Hx)]%HsX Hn;
    pose proof (first_unique k' s b _ Hk' Hn Hx eq_refl); congruence.
Qed.
(** Every other certificate would need 60% outside. *)
Lemma fast_excludes c :
  cert_slot c = s -> backed E signs c -> (forall v, v ∈ cert_votes c -> v <> Notarize s b) ->
  (forall k v, k ∈ H -> v ∈ cert_votes c -> signs s k v -> first_vote s v) -> False.
Proof using All.
  intros Hsl (K & HK & Hq & Hpos & Hs) Hne Hf. rewrite Hsl in *. pose proof (cert_pct_bound c).
  assert (100 * w s K < 40 * slot_total E s); [|nia].
  apply outside_small; [done|]. intros k Hk Hin Hn. destruct (Hs k Hin) as (v & Hv & Hsv).
  apply (Hne v Hv). apply (first_unique k s); try done. by apply (Hf k).
Qed.
Lemma fast_decides c :
  cert_slot c = s -> backed E signs c -> c <> CSkip s /\ forall b', to_block c = Some (s, b') -> is_genesis c = false -> b' = b.
Proof using All.
  intros Hsl Hb. split.
  - intros ->. apply (fast_excludes (CSkip s)); try done; unfold cert_votes; simpl.
    + by intros v [->|[->|?%elem_of_nil]%elem_of_cons]%elem_of_cons.
    + intros k v Hk [->|[->|?%elem_of_nil]%elem_of_cons]%elem_of_cons Hv; try done. by apply fast_no_skip_fallback in Hv.
  - intros b' Hb' Hg. destruct (decide (b' = b)) as [|Hne]; [done|]. exfalso. apply (fast_excludes c); try done.
    + destruct c; simpl in *; try done; injection Hb' as -> ->; unfold cert_votes; simpl; intros v;
        rewrite ?elem_of_cons, elem_of_nil; intros Hv; destruct_or!; try done; subst v; congruence.
    + intros k v Hk Hv Hin. destruct c; simpl in *; try done; injection Hb' as -> ->; unfold cert_votes in Hv; simpl in Hv;
        rewrite ?elem_of_cons, elem_of_nil in Hv; destruct_or!; try done; subst v; try done.
      by apply fast_no_fallback in Hin.
Qed.
End fast.

(** *** Slow finalization *)

Lemma notarize_one s b b' : backed E signs (CNotarize s b) -> backed E signs (CNotarize s b') -> b = b'.
Proof using All.
  intros (K & HK & Hq & Hpos & Hs) (K' & HK' & Hq' & _ & Hs'). simpl in *. unfold cert_pct in *. simpl in *.
  destruct (share_honest s K K') as (k & Hk & HkK & HkK'); try done; [lia|].
  destruct (Hs k HkK) as (v & Hv & Hsv). destruct (Hs' k HkK') as (v' & Hv' & Hsv'). unfold cert_votes in *. simpl in *.
  apply list_elem_of_singleton in Hv as ->. apply list_elem_of_singleton in Hv' as ->.
  pose proof (first_unique k s b _ Hk Hsv Hsv' eq_refl). congruence.
Qed.

Section slow.
Context (s : Slot) (b : Hash) (Hfin : backed E signs (CFinalize s)) (Hnot : backed E signs (CNotarize s b)).

(** Every certificate shares with the finalizers an honest one, whose votes it needs. *)
Lemma slow_shares c : cert_slot c = s -> backed E signs c -> exists k L v, k ∈ H /\ honest (Ev k) L /\
  v ∈ cert_votes c /\ v ∈ L /\ Notarize s b ∈ L /\ ~ has_bad L s.
Proof using All.
  intros Hsl (K & HK & Hq & Hpos & Hs). rewrite Hsl in *. destruct Hfin as (F & HF & Hqf & _ & Hsf). simpl in *.
  pose proof (cert_pct_bound c). unfold cert_pct in Hqf. simpl in Hqf.
  destruct (share_honest s F K) as (k & Hk & HkF & HkK); try done; [nia|].
  destruct (Hs k HkK) as (v & Hv & Hsv). destruct (Hsf k HkF) as (v' & Hv' & Hsv'). unfold cert_votes in Hv'. simpl in Hv'.
  apply list_elem_of_singleton in Hv' as ->. destruct (Hhon k Hk) as (L & Hho & HL).
  destruct (ho_finalize _ _ Hho s (HL _ _ Hsv')) as (Hbad & b' & Hn & He). pose proof (Hev k _ Hk He) as Hb'. simpl in Hb'.
  rewrite (notarize_one s b b' Hnot Hb'). exists k, L, v. split_and!; try done. by eapply HL.
Qed.
Lemma slow_decides c :
  cert_slot c = s -> backed E signs c -> c <> CSkip s /\ forall b', to_block c = Some (s, b') -> is_genesis c = false -> b' = b.
Proof using All.
  intros Hsl Hb. destruct (slow_shares c Hsl Hb) as (k & L & v & Hk & Hho & Hv & Hin & Hn & Hbad).
  assert (~ bad_vote s v) as Hv' by (intros ?; apply Hbad; by exists v). split.
  - intros ->. unfold cert_votes in Hv. simpl in Hv. rewrite ?elem_of_cons, elem_of_nil in Hv. by destruct_or!; subst v.
  - intros b' Hb' Hg. assert (v = Notarize s b') as ->.
    { destruct c; simpl in *; try done; injection Hb' as -> ->; unfold cert_votes in Hv; simpl in Hv;
        rewrite ?elem_of_cons, elem_of_nil in Hv; destruct_or!; try done; subst v. by destruct Hv'. }
    pose proof (ho_first _ _ Hho s _ _ Hin Hn eq_refl eq_refl). congruence.
Qed.
End slow.

(** A block of the slot is finalized. *)
Definition decided (s : Slot) (b : Hash) : Prop :=
  backed E signs (CFinalizeFast s b) \/ (backed E signs (CFinalize s) /\ backed E signs (CNotarize s b)).
Lemma decided_once s b c :
  decided s b -> cert_slot c = s -> backed E signs c -> is_genesis c = false ->
  c <> CSkip s /\ forall b', to_block c = Some (s, b') -> b' = b.
Proof using All.
  intros [Hf|[Hf Hn]] Hsl Hb Hg; [destruct (fast_decides s b Hf c Hsl Hb)|destruct (slow_decides s b Hf Hn c Hsl Hb)]; eauto.
Qed.
End slot.

(** ** Validators *)

(** The events of the handler that come from the pool service. *)
Definition pool_event (e : VotorEvent) : bool :=
  match e with
  | EBlockNotarized _ | EBlockNotarFallback _ | ESafeToNotar _ | ESafeToSkip _ | EFinalized _ _ => true
  | _ => false
  end.

Section network.
Context `{BatchOps, RewardOps, !BlsLaws, !BlsVerifyLaws, !BatchLaws, VotingOps, StorageOps, !StorageLaws}.
Context (serialize : ConsensusMessage -> option (list Z)) (sockets : Slot -> list Z).
Context (E : Slot -> option VersionedEpochStakes).

(** A node, the service that owns its pool and its signature verifier. *)
Record Validator := mkValidator {
  vd_id : Pubkey;
  vd_events : list VotorEvent;
  vd_node : Node;
  vd_cx : ServiceContext;
  vd_bank0 : RootBank;
  vd_certified : Slot -> gset Z;
  vd_voters : Slot -> Z -> gset Z;
  vd_root : Slot;
  vd_service : Service;
  vd_leaders : Slot -> option Pubkey;
  vd_verifier : SigVerifier;
}.

(** Where the messages of the pool service come from: its signature verifier, the
    node's own votes, and the finalization certificates of the blocks it replays
    (what those prove is in [VerifyTheorems]). *)
Definition message_source (k : Pubkey) (verifier : SigVerifier) (m : ConsensusMessage) : Prop :=
  (exists ms, ms ∈ sent (channel_to_pool (sg_channels verifier)) /\ m ∈ ms) \/
  (exists x, m = MVote x /\ slot_key_of E (vote_slot (vm_vote x)) (vm_rank x) = Some k /\
     signed_vote E (vote_slot (vm_vote x)) k (vm_vote x)) \/
  (exists cert K, m = MCertificate cert /\ certified E cert K).
Definition turn_sourced (k : Pubkey) (verifier : SigVerifier) (t : Turn) : Prop :=
  forall d, d ∈ deliveries t -> message_source k verifier (dl_message d).

(** A validator with vote key [k] that follows the code: its pool service gets what
    its verifier and itself sent, its handler has seen only pool events that its pool
    service sent, and its key has signed only votes that it broadcast or is about to. *)
Record honest_validator (k : Pubkey) (v : Validator) : Prop := {
  hd_node : node_run serialize sockets (vd_id v) (vd_events v) (vd_node v);
  hd_setting : service_setting E (vd_certified v) (vd_voters v) (vd_bank0 v);
  hd_verifier : verifier_run (vd_id v) (vd_leaders v) E (vd_verifier v);
  hd_service : service_run E (vd_certified v) (vd_voters v) (vd_cx v) (vd_bank0 v) (turn_sourced k (vd_verifier v)) (vd_root v) (vd_service v);
  hd_key : cx_my_vote_pubkey (vd_cx v) = k;
  hd_events e : e ∈ vd_events v -> pool_event e = true -> e ∈ sent (sv_event_sender (vd_service v));
  hd_signed s x : signed_vote E s k x -> x ∈ network_votes (vd_node v) \/ x ∈ votes_out (nd_handler (vd_node v));
}.
Lemma source_verified (HE : stakes_ok E) k v m :
  honest_validator k v -> message_source k (vd_verifier v) m -> message_verified E m.
Proof.
  intros [_ _ Hv _ _ _ _] [(ms & Hms & Hm)|[(x & -> & Hk & Hs)|(cert & K & -> & HK)]].
  - by eapply (proj1 (verifier_run_sound _ _ E HE _ Hv)).
  - intros k' Hk'. congruence.
  - by exists K.
Qed.

(** The network: the stakes are those of [E], and the validators outside [good] hold
    less than 20% of them. *)
Record network (good : gset Z) (net : Pubkey -> Validator) : Prop := {
  nw_stakes : stakes_ok E;
  nw_honest k : k ∈ good -> honest_validator k (net k);
  nw_byzantine s : 0 < slot_total E s -> 100 * weight (slot_weight E s) (slot_keys E s ∖ good) < 20 * slot_total E s;
}.

(** Someone has verified a certificate of type [c]. *)
Definition verified (c : CertificateType) : Prop := exists cert bank,
  cert_type cert = c /\ bank_fits E bank /\ verify_cert cert bank = Some (Ok tt).

(** Someone has verified certificates that finalize the block, or the pool of an
    honest validator has reported it finalized. *)
Definition finalized (good : gset Z) (net : Pubkey -> Validator) (s : Slot) (b : Hash) : Prop :=
  verified (CFinalizeFast s b) \/ (verified (CFinalize s) /\ verified (CNotarize s b)) \/
  exists k fast, k ∈ good /\ EFinalized (s, b) fast ∈ sent (sv_event_sender (vd_service (net k))).

Lemma certified_backed (HE : stakes_ok E) cert K : certified E cert K -> backed E (signed_vote E) (cert_type cert).
Proof.
  intros [HK Hq]. exists K. pose proof (signed_by_pos E HE _ _ _ HK) as Hpos. destruct HK as [K1 K2 K3 K4].
  split; [done|]. split; [done|]. split; [lia|]. done.
Qed.
Lemma verified_backed (HE : stakes_ok E) c : verified c -> backed E (signed_vote E) c.
Proof.
  intros (cert & bank & <- & Hbank & Hv). destruct (verify_cert_spec E HE cert bank Hbank) as (r & Hr & Hok).
  rewrite Hv in Hr. injection Hr as <-. destruct (Hok eq_refl) as (_ & _ & _ & K & HK). by eapply certified_backed.
Qed.

Lemma service_run_mono R U cx bank0 (T T' : Turn -> Prop) lo s :
  (forall t, T t -> T' t) -> service_run E R U cx bank0 T lo s -> service_run E R U cx bank0 T' lo s.
Proof.
  intros HT. induction 1; [by apply run_start|eapply run_turn; eauto|by eapply run_env].
Qed.
Lemma honest_events (HE : stakes_ok E) k v :
  honest_validator k v -> forall e, e ∈ sent (sv_event_sender (vd_service v)) -> proves E (signed_vote E) e.
Proof.
  intros Hv e He. pose proof (hd_setting _ _ Hv) as Hset. pose proof (hd_service _ _ Hv) as Hrun.
  assert (service_run E (vd_certified v) (vd_voters v) (vd_cx v) (vd_bank0 v) (turn_signed E (signed_vote E)) (vd_root v) (vd_service v)) as Hs.
  { eapply service_run_mono; [|exact Hrun]. intros t Ht d Hd. apply Ht, (source_verified HE _ _ _ Hv) in Hd.
    destruct (dl_message d) as [m|cert]; [exact Hd|]. intros _. destruct Hd as [K HK]. by eapply certified_backed. }
  apply (ev_events _ _ _ _ (service_evidence E _ _ _ _ (signed_vote E) _ _ Hset Hs)), elem_of_app. by left.
Qed.

Lemma finalized_decided good net s b : network good net -> finalized good net s b -> decided E (signed_vote E) s b.
Proof.
  intros [HE Hh _] [Hf|[[Hf Hn]|(k & fast & Hk & He)]].
  - left. by apply verified_backed.
  - right. split; by apply verified_backed.
  - pose proof (honest_events HE k _ (Hh k Hk) _ He) as Hp. destruct fast; simpl in Hp; [by left|by right].
Qed.
Lemma network_decided good net s b c : network good net -> decided E (signed_vote E) s b ->
  cert_slot c = s -> backed E (signed_vote E) c -> is_genesis c = false ->
  c <> CSkip s /\ forall b', to_block c = Some (s, b') -> b' = b.
Proof.
  intros [HE Hh Hbyz] Hd Hs Hb Hg.
  apply (decided_once E HE (signed_vote E) good (fun k => vd_events (net k)) Hbyz) with (s := s); try done.
  - intros k Hk. destruct (Hh k Hk) as [Hn _ _ _ _ _ Hsg].
    destruct (node_votes_honest _ _ _ _ _ Hn) as (L & Hhon & Hv). exists L. split; [done|]. intros s' v Hsv. by apply Hv, Hsg with s'.
  - intros k e Hk He. destruct (pool_event e) eqn:Ep; [|by destruct e].
    apply (honest_events HE k _ (Hh k Hk)). by apply (hd_events _ _ (Hh k Hk)).
Qed.
End network.

(** ** A network of one validator

    The validator of [NodeExample]: it votes for block 11 of slot 1, crashes and
    starts again; its pool gets the vote and reports the block finalized. *)
Module NetworkExample.
Import NodeExample.
#[export] Existing Instance additive_bls.
#[export] Existing Instance additive_bls_laws.

Definition E (_ : Slot) : option VersionedEpochStakes := Some stakes.
Definition signs (pk : Z) (m : list Z) : bool :=
  bool_decide (pk = 101) && bool_decide (m = VerifyExample.serialize (Notarize 1 11)).
#[export] Instance oracle : BlsVerify := VerifyExample.sign_oracle signs.
#[export] Instance oracle_laws : BlsVerifyLaws := VerifyExample.sign_oracle_laws signs.
#[export] Instance batch : BatchOps := BatchExample.sign_batch signs.
#[export] Instance batch_laws : BatchLaws := BatchExample.sign_batch_laws signs.
#[export] Existing Instance CancelExample.iter.

Definition root : RootBank := mkRootBank 0 (Some 0) (fun _ => 0) {[0 := stakes]}.
Definition R (_ : Slot) : gset Z := ∅.
Definition U (_ : Slot) (_ : Z) : gset Z := {[1]}.
Definition cx : ServiceContext := mkServiceContext 1 1 (fun _ _ => Some 2) (fun _ => false).
Definition ms : MigrationStatus := status_new (FullAlpenglowEpoch 0 (mkCertificate (CGenesis 0 0) 0 [])).
Definition vote1 : VoteMessage := mkVoteMessage (Notarize 1 11) 113 0.
Definition start : Service :=
  service_start ms root ∅ 0 (mkBlsSender [] []) (mkSender [] true false) (mkSender [] true false) None.
Definition turn1 : Turn := mkTurn ms root root 5 (RecvMessages [mkDelivery (MVote vote1) root root 6]) 7.
Definition turn2 : Turn := mkTurn ms root root 8 RecvTimeout 9.
Definition after (t : Turn) (s : Service) : Service :=
  match ingest_iteration cx t s with Some (s', _) => s' | None => s end.
Definition s1 : Service := after turn1 start.
Definition s2 : Service := after turn2 s1.

Lemma net_stakes_ok_E : stakes_ok E.
Proof.
  intros s es [= <-]. split; [split|split].
  - vm_compute. repeat constructor.
  - apply (bool_decide_unpack _). by vm_compute.
  - by vm_compute.
  - by vm_compute.
  - apply (bool_decide_unpack _). by vm_compute.
  - by vm_compute.
Qed.
Lemma net_setting_ok : service_setting E R U root.
Proof. split; [apply net_stakes_ok_E|apply capacity_small; intros s; unfold R; by rewrite size_empty; lia|by vm_compute]. Qed.
Lemma root_fits : bank_fits E root.
Proof. intros s es. unfold epoch_stakes_from_slot. simpl. by rewrite lookup_singleton_eq. Qed.
Lemma ran t s : snd <$> ingest_iteration cx t s = Some (Ok tt) -> ingest_iteration cx t s = Some (after t s, Ok tt).
Proof. unfold after. destruct (ingest_iteration cx t s) as [[s' r]|]; [|done]. simpl. by intros [= ->]. Qed.

Lemma key_signs s k : slot_key_of E s 0 = Some k -> signed_vote E s k (Notarize 1 11).
Proof.
  intros Hk. assert (exists e, slot_entries E s = [e] /\ en_vote_account_pubkey e = 1 /\ en_bls_pubkey e = 101) as (e & He & He1 & He2).
  { eexists. split; [vm_compute; reflexivity|by vm_compute]. }
  vm_compute in Hk. injection Hk as <-. exists e. rewrite He. split; [by left|]. split; [done|]. rewrite He2. by vm_compute.
Qed.
Definition leaders (_ : Slot) : option Pubkey := None.
Lemma service_ran : service_run E R U cx root (turn_sourced E 1 CancelExample.boot) 0 s2.
Proof.
  apply (run_turn E R U cx root _ 0 s1 turn2); [|by vm_compute| |by intros d ?%elem_of_nil|by apply ran; vm_compute].
  - apply (run_turn E R U cx root _ 0 start turn1); [by apply run_start|done| | |by apply ran; vm_compute].
    + split; [done|by exists (0, 0)|by vm_compute|]. cbn [deliveries turn1 tu_received deliveries_ok]. split; [|done].
      split; [apply root_fits|]. split; [|by vm_compute]. split; [by vm_compute|]. split; [done|]. simpl.
      intros k Hk. vm_compute in Hk. injection Hk as <-. unfold U. by apply elem_of_singleton.
    + intros d ->%list_elem_of_singleton. right. left. exists vote1. split; [done|]. split; [by vm_compute|]. by apply key_signs.
  - split; [done|by exists (0, 0)|by vm_compute|done].
Qed.
Definition validator : Validator := mkValidator 1 [block1; ready1] n4 cx root R U 0 s2 leaders CancelExample.boot.
Lemma validator_honest : honest_validator serialize sockets E 1 validator.
Proof.
  split; [exact run4|exact net_setting_ok|by apply vr_start|exact service_ran|reflexivity| |].
  - by intros e [->|[->|?%elem_of_nil]%elem_of_cons]%elem_of_cons.
  - intros s x (e & He & Hk & Hs). left. change (x ∈ network_votes n4). assert (network_votes n4 = [Notarize 1 11; Notarize 1 11]) as -> by (by vm_compute).
    simpl in Hs. unfold signs in Hs. apply andb_true_iff in Hs as [_ Hs]. apply bool_decide_eq_true in Hs.
    assert (x = Notarize 1 11) as -> by (destruct x; try done; simpl in Hs; congruence). by left.
Qed.
Lemma one_network : network serialize sockets E {[1]} (fun _ => validator).
Proof.
  split; [apply net_stakes_ok_E|intros k ->%elem_of_singleton; apply validator_honest|].
  intros s _. assert (slot_keys E s ∖ {[1]} = ∅) as -> by (by vm_compute). by vm_compute.
Qed.
Definition cert1 : Certificate := mkCertificate (CNotarizeFallback 1 11) 113 [0; 2].
End NetworkExample.
Import NetworkExample.
Import NodeExample.

(** C1: A slot is decided once.  Let the validators that do not follow the code hold
    less than 20% of the stake.  If a block of a slot is finalized, by a fast or a
    slow finalization that anyone verified or that the pool of an honest validator
    reported, then no certificate that skips the slot, and none for another block of
    the slot, ever passes anyone's verification; and nobody finalizes another block
    of the slot. *)
Theorem slot_decided_once `{BatchOps, RewardOps, !BlsLaws, !BlsVerifyLaws, !BatchLaws, VotingOps, StorageOps, !StorageLaws}
    serialize sockets E good net s b
    (Hnet : network serialize sockets E good net) (Hfin : finalized E good net s b) :
  (forall cert bank, bank_fits E bank -> verify_cert cert bank = Some (Ok tt) -> is_genesis (cert_type cert) = false ->
     cert_type cert <> CSkip s /\ forall b', to_block (cert_type cert) = Some (s, b') -> b' = b) /\
  forall b', finalized E good net s b' -> b' = b.
Proof.
  pose proof (nw_stakes _ _ _ _ _ Hnet) as HE. pose proof (finalized_decided _ _ _ _ _ _ _ Hnet Hfin) as Hd. split.
  - intros cert bank Hbank Hv Hg.
    assert (backed E (signed_vote E) (cert_type cert)) as Hb by (apply (verified_backed E HE); by exists cert, bank).
    assert (cert_slot (cert_type cert) = s -> cert_type cert <> CSkip s /\
      forall b', to_block (cert_type cert) = Some (s, b') -> b' = b) as Hs
      by (intros Hs; by apply (network_decided serialize sockets E good net s b)).
    split; [intros Heq; by apply Hs; [rewrite Heq|]|]. intros b' Hb'. apply Hs; [|done].
    destruct (cert_type cert); simpl in *; congruence.
  - intros b' [Hf|[Hf Hn]]%(finalized_decided _ _ _ _ _ _ _ Hnet).
    + by apply (network_decided serialize sockets E good net s b (CFinalizeFast s b') Hnet Hd eq_refl Hf).
    + by apply (network_decided serialize sockets E good net s b (CNotarize s b') Hnet Hd eq_refl Hn).
Qed.
Lemma slot_decided_once_witness :
  verify_cert cert1 root = Some (Ok tt) /\
  (forall b', to_block (cert_type cert1) = Some (1, b') -> b' = 11) /\
  forall b', finalized E {[1]} (fun _ => validator) 1 b' -> b' = 11.
Proof.
  assert (verify_cert cert1 root = Some (Ok tt)) as Hv by (vm_compute; reflexivity). split; [exact Hv|].
  assert (finalized E {[1]} (fun _ => validator) 1 11) as Hf.
  { right. right. exists 1, true. split; [by apply elem_of_singleton|].
    vm_compute. repeat first [apply list_elem_of_here | apply list_elem_of_further]. }
  destruct (slot_decided_once serialize sockets E {[1]} (fun _ => validator) 1 11 one_network Hf) as [Hc Hb].
  split; [|exact Hb]. exact (proj2 (Hc cert1 root root_fits Hv eq_refl)).
Defined.
