(* ===== verification/Fork.v ===== *)
(** * A fork

    A notarize-fallback vote needs no more than the [SafeToNotar] event, and the pool
    raises the event from the stakes alone: neither asks for the parent of the block
    (the comment in [votor/src/event_handler.rs] says that the pool should, for the
    slots inside a window).  The example shows what follows.  Two validators, with 80
    and 20 of the stake, both follow the code.  The leader of the first window sends
    block 11 of slot 1 to one of them and block 12 to the other, and block 22 of slot
    2, a child of block 12.  Block 11 is finalized, and then block 22 is certified. *)

From S2P Require Import Prelude.
From S2P Require Import Messages.
From S2P Require Import ParentReady.
From S2P Require Import EpochStakes.
From S2P Require Import VotePools.
From S2P Require Import StakeCounters.
From S2P Require Import CertBuilder.
From S2P Require Import Finalization.
From S2P Require Import Migration.
From S2P Require Import ConsensusPool.
From S2P Require Import PoolVotes.
From S2P Require Import PoolCerts.
From S2P Require Import PoolSafety.
From S2P Require Import PoolOps.
From S2P Require Import PoolTheorems.
From S2P Require Import CertVerify.
From S2P Require Import VerifyTheorems.
From S2P Require Import BankForks.
From S2P Require Import VoteHistory.
From S2P Require Import VoteStorage.
From S2P Require Import Voting.
From S2P Require Import Timers.
From S2P Require Import PoolService.
From S2P Require Import ServiceTheorems.
From S2P Require Import Evidence.
From S2P Require Import EventHandler.
From S2P Require Import EventLogic.
From S2P Require Import Node.
From S2P Require Import Banlist.
From S2P Require Import Rewards.
From S2P Require Import SigVerify.
From S2P Require Import SigVerifyTheorems.
From S2P Require Import System.

Module ForkExample.
#[export] Existing Instance encode_storage.
#[export] Existing Instance encode_storage_laws.
#[export] Existing Instance NodeExample.ops.
#[export] Existing Instance additive_bls.
#[export] Existing Instance additive_bls_laws.

(** ** Stakes and signatures *)

Definition accounts : VoteAccounts :=
  (fun '(k, st) => (k, (st, mkVoteAccount k (Some (k + 100)) (fun _ => None)))) <$> [(1, 80); (2, 20)].
Definition stakes : VersionedEpochStakes := epoch_stakes_new Some Some accounts 0.
Definition E (_ : Slot) : option VersionedEpochStakes := Some stakes.
Definition votes (k : Pubkey) : list Vote :=
  if bool_decide (k = 1) then [Notarize 1 11; Skip 2; Skip 3; NotarizeFallback 2 22] else [Notarize 1 12; Notarize 2 22].
Definition signs (pk : Z) (m : list Z) : bool := bool_decide (m ∈ VerifyExample.serialize <$> votes (pk - 100)).
#[export] Instance oracle : BlsVerify := VerifyExample.sign_oracle signs.
#[export] Instance oracle_laws : BlsVerifyLaws := VerifyExample.sign_oracle_laws signs.
#[export] Instance batch : BatchOps := BatchExample.sign_batch signs.
#[export] Instance batch_laws : BatchLaws := BatchExample.sign_batch_laws signs.
#[export] Existing Instance CancelExample.iter.

(** ** The nodes *)

Definition bank0 : ForkBank :=
  mkForkBank (mkRootBank 0 (Some 0) (fun _ => 0) {[0 := stakes]}) 1 0 None {[0]} 0 {[1; 2]} 400 9 false.
Definition boot (id : Pubkey) : Handler :=
  mkHandler id ∅ ∅ ∅ None
    (mkVotingContext (vote_history_new id 0) id (mkKeypair id 7) [mkKeypair id 7] ∅ NodeExample.channel NodeExample.channel None)
    (new_rw_arc bank0 (status_new PreFeatureActivation)) (mkKeypair id 7) ∅ NodeExample.channel (0, (0, 0))
    NodeExample.channel NodeExample.channel NodeExample.channel (timers_new 100 NodeExample.channel 0) [] [].

(** The block [b] of slot [s] with parent [p], as replay reports it. *)
Definition replayed (s : Slot) (b : Hash) (p : Block) : VotorEvent :=
  EBlock s (mkBank s (Some b) p.1 (Some p.2) true 9).
Definition events (id : Pubkey) : list VotorEvent :=
  EParentReady 1 (0, 0) ::
  if bool_decide (id = 1) then [replayed 1 11 (0, 0); ETimeout 2; ESafeToNotar (2, 22)]
  else [replayed 1 12 (0, 0); replayed 2 22 (1, 12)].
Definition node (id : Pubkey) : Node := mkNode (foldl NodeExample.step (boot id) (events id)) true 0 [].

Example votes_cast id : id = 1 \/ id = 2 -> forall v, v ∈ votes id -> v ∈ votes_out (nd_handler (node id)).
Proof.
  intros [-> | ->] v Hv; vm_compute in Hv |- *;
    repeat (apply elem_of_cons in Hv as [->|Hv]; [repeat first [apply list_elem_of_here | apply list_elem_of_further]|]);
    by apply elem_of_nil in Hv.
Qed.

Lemma fork_boot_started id : started id ∅ (boot id).
Proof. split; try done. by apply new_rw_arc_ok. Qed.
Fixpoint steps_ok (s : Handler) (l : list VotorEvent) : bool :=
  match l with
  | [] => true
  | e :: l => match event_step 5 NodeExample.rctx e s with Some (s', Ok _) => steps_ok s' l | _ => false end
  end.
Lemma node_ran_from id l : forall E0 s,
  node_run NodeExample.serialize NodeExample.sockets id E0 (mkNode s true 0 []) -> Forall event_ok l -> steps_ok s l = true ->
  node_run NodeExample.serialize NodeExample.sockets id (E0 ++ l) (mkNode (foldl NodeExample.step s l) true 0 []).
Proof.
  induction l as [|e l IH]; intros E0 s Hr Hok Hf; [by rewrite app_nil_r|].
  apply Forall_cons in Hok as [He Hok]. cbn [foldl steps_ok] in *.
  destruct (event_step 5 NodeExample.rctx e s) as [[s1 [[]|]]|] eqn:Es; [|done..].
  rewrite cons_middle, app_assoc. assert (NodeExample.step s e = s1) as Hst by (unfold NodeExample.step; by rewrite Es).
  rewrite Hst in *. apply IH; [|done|done].
  by apply (node_event _ _ _ 5 NodeExample.rctx e s1 (Ok tt) E0 (mkNode s true 0 [])).
Qed.
Lemma node_ran id : id = 1 \/ id = 2 ->
  node_run NodeExample.serialize NodeExample.sockets id (events id) (node id).
Proof.
  intros Hid. apply (node_ran_from id (events id) [] (boot id)).
  - apply node_start with ∅; [done|apply fork_boot_started].
  - destruct Hid as [-> | ->]; repeat constructor; by vm_compute.
  - destruct Hid as [-> | ->]; vm_compute; reflexivity.
Qed.

(** ** The pools *)

Definition root : RootBank := fb_bank bank0.
Definition R (_ : Slot) : gset Z := ∅.
Definition U (_ : Slot) (_ : Z) : gset Z := {[1; 2]}.
Definition cx (id : Pubkey) : ServiceContext := mkServiceContext id id (fun _ _ => Some 3) (fun _ => false).
Definition ms : MigrationStatus := status_new (FullAlpenglowEpoch 0 (mkCertificate (CGenesis 0 0) 0 [])).
Definition start : Service :=
  service_start ms root ∅ 0 (mkBlsSender [] []) (mkSender [] true false) (mkSender [] true false) None.
Definition message (v : Vote) (rank : Z) : Delivery :=
  mkDelivery (MVote (mkVoteMessage v (rank + 101) rank)) root root 6.
(** The vote of validator 2 reaches validator 1 through its signature verifier. *)
Definition leaders (_ : Slot) : option Pubkey := None.
Definition packets : list (list Packet) := [[CancelExample.packet (dl_message (message (Notarize 2 22) 1)) 2]].
Definition vturn : VerifierTurn := mkVerifierTurn (mkReceiver _ packets true) (ms_phase ms) root 5 false ∅.
Definition verified_by (id : Pubkey) : SigVerifier :=
  if bool_decide (id = 1) then
    match verifier_iteration 1 leaders vturn CancelExample.boot with Some (s, _) => s | None => CancelExample.boot end
  else CancelExample.boot.
Definition turn1 : Turn :=
  mkTurn ms root root 5 (RecvMessages [message (Notarize 1 11) 0; message (Skip 2) 0; message (Notarize 2 22) 1]) 7.
Definition turn2 : Turn :=
  mkTurn ms root root 8 (RecvMessages [message (NotarizeFallback 2 22) 0; message (Skip 3) 0]) 9.
Definition turn3 : Turn := mkTurn ms root root 10 RecvTimeout 11.
Definition after (t : Turn) (s : Service) : Service :=
  match ingest_iteration (cx 1) t s with Some (s', _) => s' | None => s end.
Definition s1 : Service := after turn1 start.
Definition s2 : Service := after turn2 s1.
Definition service (id : Pubkey) : Service := if bool_decide (id = 1) then after turn3 s2 else start.

Example reported : sent (sv_event_sender (service 1)) =
  [EParentReady 1 (0, 0); EBlockNotarized (1, 11); EBlockNotarFallback (1, 11); EFinalized (1, 11) true;
   ESafeToNotar (2, 22); EBlockNotarFallback (2, 22); EParentReady 4 (2, 22); EParentReady 4 (1, 11)].
Proof. vm_compute. reflexivity. Qed.

Lemma fork_stakes_ok_E : stakes_ok E.
Proof.
  intros s es [= <-]. split; [split|split].
  - vm_compute. repeat constructor.
  - apply (bool_decide_unpack _). by vm_compute.
  - by vm_compute.
  - by vm_compute.
  - apply (bool_decide_unpack _). by vm_compute.
  - by vm_compute.
Qed.
Lemma fork_setting_ok : service_setting E R U root.
Proof. split; [apply fork_stakes_ok_E|apply capacity_small; intros s; unfold R; by rewrite size_empty; lia|by vm_compute]. Qed.
Lemma fork_root_fits : bank_fits E root.
Proof. intros s es. unfold epoch_stakes_from_slot. simpl. by rewrite lookup_singleton_eq. Qed.
Lemma fork_ran t s : snd <$> ingest_iteration (cx 1) t s = Some (Ok tt) -> ingest_iteration (cx 1) t s = Some (after t s, Ok tt).
Proof. unfold after. destruct (ingest_iteration (cx 1) t s) as [[s' r]|]; [|done]. simpl. by intros [= ->]. Qed.

(** The validator of rank [r] has key [r + 1] and has signed its votes. *)
Lemma keys s r k : slot_key_of E s r = Some k -> (r = 0 /\ k = 1) \/ (r = 1 /\ k = 2).
Proof.
  assert (en_vote_account_pubkey <$> slot_entries E s = [1; 2]) as He by (by vm_compute).
  unfold slot_key_of. case_bool_decide; [|done]. rewrite <-list_lookup_fmap, He. intros Hl.
  destruct (Z.to_nat r) as [|[|n]] eqn:Er; simpl in Hl; try done; injection Hl as <-; [left|right]; split; try done; lia.
Qed.
Lemma fork_key_signs s k v : k = 1 \/ k = 2 -> v ∈ votes k -> signed_vote E s k v.
Proof.
  intros Hk Hv. assert (exists e, e ∈ slot_entries E s /\ en_vote_account_pubkey e = k /\ en_bls_pubkey e = k + 100) as (e & He & He1 & He2).
  { destruct Hk as [-> | ->]; eexists; (split; [vm_compute|]); [left|by vm_compute|right; left|by vm_compute]. }
  exists e. split; [done|]. split; [done|]. rewrite He2. unfold signed, oracle_laws, VerifyExample.sign_oracle_laws, signs.
  apply bool_decide_eq_true. replace (k + 100 - 100) with k by lia. by apply list_elem_of_fmap_2.
Qed.
Definition plain (v : Vote) : bool := bool_decide (vote_slot v + 2 <= u64_max) && match v with Genesis _ _ => false | _ => true end.
Lemma delivery hi v r : 0 <= hi -> plain v = true -> delivery_ok E R U 0 hi (message v r).
Proof.
  intros Hhi [Hs Hg]%andb_true_iff. apply bool_decide_eq_true in Hs. split; [apply fork_root_fits|]. split; [|by simpl]. split; [done|].
  split; [done|]. simpl. destruct v; try done; intros k [[_ ->]|[_ ->]]%keys; unfold U; clear; set_solver.
Qed.
Lemma verifier_ran id : id = 1 \/ id = 2 -> verifier_run id leaders E (verified_by id).
Proof.
  intros [-> | ->]; [|by apply vr_start].
  apply (vr_turn 1 leaders E CancelExample.boot vturn _ LoopContinue); [by apply vr_start|apply fork_root_fits|vm_compute; reflexivity].
Qed.
(** A vote of validator 1, or the one that its verifier has passed on. *)
Definition known (v : Vote) (r : Z) : bool := bool_decide (r = 0 /\ v ∈ votes 1) || bool_decide (r = 1 /\ v = Notarize 2 22).
Lemma sourced v r : known v r = true -> message_source E 1 (verified_by 1) (dl_message (message v r)).
Proof.
  intros [[-> Hv]%bool_decide_eq_true|[-> ->]%bool_decide_eq_true]%orb_true_iff.
  - right. left. eexists. split; [done|]. split; [by vm_compute|]. apply fork_key_signs; auto.
  - left. exists [dl_message (message (Notarize 2 22) 1)]. split; [vm_compute; left|left].
Qed.
Lemma turn_fine t lo s l :
  tu_migration t = ms -> tu_kick_off_root t = root -> tu_received t = RecvMessages l -> lo = 0 ->
  0 <= final_bound 0 (sv_pool s) -> Forall (fun d => exists v r, d = message v r /\ plain v = true /\ known v r = true) l ->
  turn_ok E R U 0 lo s t /\ turn_sourced E 1 (verified_by 1) t /\ last_root lo (deliveries t) = 0.
Proof.
  intros Hm Hr Hl -> Hb HF. split; [split|split].
  - by rewrite Hm.
  - rewrite Hm. by exists (0, 0).
  - rewrite Hr. by vm_compute.
  - unfold deliveries. rewrite Hl. clear Hl. induction HF as [|d l (v & r & -> & Hp & _) _ IH]; [done|]. split; [by apply delivery|apply IH].
  - unfold turn_sourced, deliveries. rewrite Hl. intros d Hd. rewrite Forall_forall in HF.
    destruct (HF d Hd) as (v & r & -> & _ & Hv). by apply sourced.
  - unfold deliveries. rewrite Hl. clear Hl. induction HF as [|d l (v & r & -> & _) _ IH]; [done|]. exact IH.
Qed.
Lemma sender v r : plain v = true -> known v r = true ->
  exists v' r', message v r = message v' r' /\ plain v' = true /\ known v' r' = true.
Proof. eauto. Qed.
Lemma fork_service_ran id : id = 1 \/ id = 2 ->
  service_run E R U (cx id) root (turn_sourced E id (verified_by id)) 0 (service id).
Proof.
  assert (forall id, service_run E R U (cx id) root (turn_sourced E id (verified_by id)) 0 start) as Hst by (intros x; by apply run_start).
  assert (forall t s, service_run E R U (cx 1) root (turn_sourced E 1 (verified_by 1)) 0 s -> sv_exit s = false ->
    turn_ok E R U 0 0 s t /\ turn_sourced E 1 (verified_by 1) t /\ last_root 0 (deliveries t) = 0 ->
    snd <$> ingest_iteration (cx 1) t s = Some (Ok tt) ->
    service_run E R U (cx 1) root (turn_sourced E 1 (verified_by 1)) 0 (after t s)) as Hnext.
  { intros t s Hs Hx (Ht & Hv & Hl) Hr%fork_ran. rewrite <-Hl. by apply (run_turn E R U (cx 1) root _ 0 s t). }
  intros [-> | ->]; [|apply Hst]. change (service 1) with (after turn3 s2).
  apply Hnext; [|by vm_compute| |by vm_compute].
  2:{ split; [split; [done|by exists (0, 0)|by vm_compute|done]|]. split; [by intros d ?%elem_of_nil|done]. }
  apply Hnext; [|by vm_compute| |by vm_compute].
  2:{ eapply turn_fine; [done|done|done|done|by vm_compute|]. repeat constructor; (apply sender; by vm_compute). }
  apply Hnext; [apply Hst|by vm_compute| |by vm_compute].
  eapply turn_fine; [done|done|done|done|by vm_compute|]. repeat constructor; (apply sender; by vm_compute).
Qed.

(** ** The network *)

Definition validator (id : Pubkey) : Validator := mkValidator id (events id) (node id) (cx id) root R U 0 (service id) leaders (verified_by id).
Lemma fork_validator_honest id :
  id = 1 \/ id = 2 -> honest_validator NodeExample.serialize NodeExample.sockets E id (validator id).
Proof.
  intros Hid. split; [by apply node_ran|exact fork_setting_ok|by apply verifier_ran|by apply fork_service_ran|reflexivity| |].
  - change (forall e, e ∈ events id -> pool_event e = true -> e ∈ sent (sv_event_sender (service id))). destruct Hid as [-> | ->].
    + rewrite reported. intros e He Hp. unfold events in He. simpl in He.
      repeat (apply elem_of_cons in He as [->|He]; [try done; clear; set_solver|]). by apply elem_of_nil in He.
    + intros e He Hp. unfold events in He. simpl in He.
      repeat (apply elem_of_cons in He as [->|He]; [done|]). by apply elem_of_nil in He.
  - intros s x (e & He & Hk & Hs). right. change (x ∈ votes_out (nd_handler (node id))). apply votes_cast; [done|].
    assert (en_bls_pubkey e = id + 100) as Hpk.
    { destruct (list_elem_of_lookup_1 _ _ He) as [i Hi]. destruct Hid as [-> | ->]; vm_compute in Hi;
        destruct i as [|[|i]]; simpl in Hi; try done; injection Hi as <-; done. }
    rewrite Hpk in Hs. unfold signed, oracle_laws, VerifyExample.sign_oracle_laws, signs in Hs. apply bool_decide_eq_true in Hs.
    replace (id + 100 - 100) with id in Hs by lia. apply list_elem_of_fmap in Hs as (y & Hy & Hin).
    apply (serialize_inj (BlsVerifyLaws := oracle_laws)) in Hy. by subst.
Qed.
Definition net (k : Pubkey) : Validator := validator k.
Lemma fork_network : network NodeExample.serialize NodeExample.sockets E {[1; 2]} net.
Proof.
  split; [apply fork_stakes_ok_E| |].
  - intros k [->%elem_of_singleton| ->%elem_of_singleton]%elem_of_union; apply fork_validator_honest; auto.
  - intros s _. assert (slot_keys E s ∖ {[1; 2]} = ∅) as -> by (by vm_compute). by vm_compute.
Qed.
End ForkExample.
Import ForkExample.

(** C29: Finalization is not safe across slots.  In a network where all validators
    vote as the code says, and only a leader sent different blocks to them, the
    pool of one validator reports block 11 of slot 1 finalized and then block 22 of
    slot 2 as a ready parent of the next leader window, although the validator that
    replayed block 22 saw that its parent is block 12 of slot 1. *)
Theorem fallback_ignores_parent :
  network NodeExample.serialize NodeExample.sockets E {[1; 2]} net /\
  (forall s, slot_keys E s = {[1; 2]}) /\
  finalized E {[1; 2]} net 1 11 /\
  EParentReady 4 (2, 22) ∈ sent (sv_event_sender (vd_service (net 1))) /\
  block_seen (vd_events (net 2)) (2, 22) (1, 12).
Proof.
  split; [apply fork_network|]. split; [intros s; by vm_compute|]. split; [|split].
  - right. right. exists 1, true. split; [clear; set_solver|]. change (net 1) with (validator 1). unfold validator. cbn [vd_service].
    rewrite reported. clear. set_solver.
  - change (EParentReady 4 (2, 22) ∈ sent (sv_event_sender (service 1))). rewrite reported. clear. set_solver.
  - exists (mkBank 2 (Some 22) 1 (Some 12) true 9). split; [|by vm_compute]. change (EBlock 2 (mkBank 2 (Some 22) 1 (Some 12) true 9) ∈ events 2).
    vm_compute. do 2 right. by left.
Qed.
